(* ===== verification/_CoqProject ===== *)
-Q . S2P
Prelude.v
Float64.v
AutoIndexTypes.v
RingBuffer.v
Nodes.v
Capture.v
SetRefs.v
CaptureRefs.v
AdvisorHash.v
LikeMatch.v
Keywords.v
Ident.v
CLib.v
NumUtils.v
Visibility.v
Clog.v
XidGen.v
Xact.v
XactInv.v
XactCmd.v
XactBlock.v
XactClient.v
ProcArray.v
SnapshotSys.v
SnapshotInv.v
SnapshotScan.v
SnapshotIso.v
Horizons.v
PageMem.v
BufPage.v
PageInv.v
PageIndex.v
PageCompact.v
PageRepair.v
PageMulti.v
PageHeap.v
PageChecksum.v
Session.v
Catalog.v
Sql.v
Fixtures.v
SpiCatalog.v
Advisor.v
Lifecycle.v
BgWorker.v
Worker.v
