(* ===== verification/Prelude.v ===== *)
(** * AutoIndex for PostgreSQL: a verification development

    The repository is PostgreSQL with an automatic index advisor.  Every query
    that ends leaves a note of the columns it filtered, joined and sorted by and
    of its cost; a background worker sums the costs per column ("rent") and, as
    in the ski-rental problem, creates an index once the rent paid without it
    exceeds the price of building it; a lifecycle manager drops automatic indexes
    that are not used.  This library models the AutoIndex code completely, and
    the parts of PostgreSQL it stands on where its correctness depends on them.

    ** The program and the files

    The path of the data, from the executor to the catalogs (file names are
    relative to [src/postgres/src], AutoIndex is [backend/autoindex]):

    - The planner finishes a plan in [set_plan_refs]
      ([backend/optimizer/plan/setrefs.c]): [SetRefs], over the node types of
      [Nodes] ([include/nodes]).
    - At the end of a query [autoindex_ExecutorEnd] walks the plan and collects
      columns ([workload_capture.c], [pull_var_clause] of
      [backend/optimizer/util/var.c]): [Capture].  [CaptureRefs] composes the two.
    - [ring_buffer_push] puts the entry into a lock-free ring in shared memory
      and [drain_ring_buffer] takes it out ([workload_capture.c],
      [index_advisor.c], types of [include/autoindex/autoindex.h]):
      [AutoIndexTypes], [RingBuffer].
    - The worker accumulates entries in an open-addressing hash table
      ([index_advisor.c]): [AdvisorHash], with the costs as C doubles in
      [Float64].
    - [autoindex_run_advisor] chooses columns and creates indexes
      ([index_advisor.c]): [Advisor]; [autoindex_run_lifecycle] drops them
      ([index_lifecycle.c]): [Lifecycle].  Both talk SQL through SPI.
    - [AutoIndexMain] runs the two in transactions, with timers, signals and
      error recovery ([autoindex.c]): [Worker]; [BgWorker] is its registration
      ([backend/postmaster/bgworker.c]).

    What the passes rely on:

    - Text: identifiers, quoting and keywords ([ruleutils.c], [scansup.c],
      [kwlookup.c], [scan.l]) in [Ident] and [Keywords]; the two command texts and
      their grammar in [Sql]; LIKE ([like_match.c]) in [LikeMatch]; integers as
      text ([numutils.c], [int8.c], [int.c]) in [NumUtils] and [CLib].
    - Rows: tuple visibility ([heapam_visibility.c], [snapmgr.c], [combocid.c]) in
      [Visibility]; catalog rows as versioned tuples and the four SELECT
      statements in [Catalog]; snapshots, command ids and SPI ([snapmgr.c],
      [xact.c], [spi.c]) in [Session]; [SpiCatalog] puts them together.
    - Transactions: commit log, parent links and their readers ([clog.c],
      [subtrans.c], [transam.c]) in [Clog]; assignment of ids ([varsup.c]) in
      [XidGen]; the stack of transaction states and the commands of transaction
      blocks ([xact.c]) in [Xact], with its invariants in [XactInv];
      what its routines do to the writes of a session in [XactCmd], the
      commands of blocks in [XactBlock]; the queries of a client
      ([tcop/postgres.c], [tcop/utility.c]) in [XactClient].

    - Other backends: the process array, in which backends show their ids and
      take snapshots ([procarray.c], [proc.h], and what [varsup.c], [proc.c],
      [twophase.c] and [vacuum.c] do to it), in [ProcArray]; the backends of a
      running system as a step relation over the operations of [ProcArray],
      [XidGen] and [Clog], with a history of what happened, in [SnapshotSys];
      [SnapshotInv] has its invariant, [SnapshotScan] the steps of
      [GetSnapshotData] and that every step preserves the invariant, and
      [SnapshotIso] what the readers find out; [Horizons] adds the horizons by
      which vacuum and pruning remove rows ([procarray.c]).
    - Pages: the bytes of a page, its header and line pointers ([bufpage.h],
      [itemid.h]) in [PageMem] and the routines of
      [backend/storage/page/bufpage.c] in [BufPage]; what a page holds and when
      it is well-formed in [PageInv], with the adding of items; [PageIndex] has
      the deletion and replacement of an index tuple, [PageCompact] the
      compaction, [PageRepair] and [PageMulti] its two users, [PageHeap] the
      pruning of heap pages ([pruneheap.c]) and the free space, and
      [PageChecksum] the checksums ([checksum_impl.h]).

    [Fixtures] holds example values for the witnesses.

    ** Conventions

    A C integer is a [Z] and every conversion to a [w]-bit type is written out
    ([u32], [i32], ...); a page is the list of its 8192 bytes, in little-endian
    order; assertions are compiled away, as in a production build; bytes and C strings are lists or [string]s; arrays are
    lists, and a read or write outside of one has the outcome [ErrUB], so that
    its absence is a theorem.  Stateful code is written in the monad [M] below:
    state passing with errors, where an error keeps the state reached.  Structs
    are records and enums inductive types with the names of the source.
    Definitions are executable; loops without a structural bound take fuel, and
    the bound is given where they are called: the ring loops run at most the
    length of the ring, the hash probes at most the 2048 slots, the LIKE matcher
    at most the lengths of text and pattern, the walks over parents of a
    transaction at most the number of links, the loops of [xact.c] one iteration
    for every level of the stack.  The theorems about them state that the result
    is reached with that fuel.

    Code outside of the repository is an argument with named hypotheses: the
    logarithm of the C library in [Advisor].  Arguments are also the parts of
    PostgreSQL that a component calls and that are not modelled: the rows a
    utility command writes ([plan_utility] in [Catalog]), the rest of the grammar
    ([parse_other] in [Sql]), the locale's comparison in [LikeMatch].  The theorems
    hold for every value of them, or under the class that says what they must
    leave alone ([UtilityOk] in [Session]).

    ** What the theorems show

    - Capture: the bounded, deduplicating walk collects exactly the first columns
      of an unbounded walk and never writes outside of an entry; the hook pushes
      an entry exactly when it should.  On finished plans, however, the walk never
      finds a join or a sort column.
    - Ring: without interference it is a bounded FIFO queue; in every
      interleaving indices stay in range and no position is claimed twice; an
      entry can be lost when the consumer runs between a claim and its copy, and
      none is lost otherwise.
    - Hash table: it is a finite map as long as nothing is removed; a drain adds
      exactly the executions and costs of the queue; removal can split a key.
    - Advisor and lifecycle: a pass is described completely, error cases
      included: which candidates it takes, which indexes it creates, what it
      leaves of the table, and that the limit on indexes is not effective within
      a pass; a lifecycle pass drops at most one index.
    - Text: a quoted identifier is read back as itself, the commands parse as
      meant for ordinary names, and a table name can be chosen so that the text
      has other commands in it; LIKE and the integer functions agree with their
      declarative meaning.
    - Rows: visibility agrees with its declarative meaning, a snapshot hides what
      later commands of the same transaction write, and SPI leaves older
      snapshots and the caller's SPI level alone whatever text it runs.
    - Transactions: new ids never wrap around; a commit of a transaction tree is
      atomic to every reader at every moment; error recovery ends in the state it
      promises from every state in which an error can occur;
      for every sequence of queries, and whatever fails in them, a session
      commits, keeps and gives up exactly the writes its transaction commands
      and savepoints say.
    - Other backends: the process array is well formed after every sequence of
      operations; in every interleaving of backends that assign ids, roll back
      subtransactions, commit, prepare and take snapshots entry by entry, a
      snapshot sees exactly what had committed when it was started, and so do
      the rows read with it; running transactions are recognised as such; and a
      row that the horizons let go of is seen by no snapshot, now or later.
    - Pages: the routines on bytes implement operations on a list of items, on
      every branch: they return normally on every well-formed page, keep it
      well-formed, move data without damaging any item although source and
      target overlap, and never read an unwritten byte of a scratch block.
      Deleting many index tuples at once equals deleting them one by one.  Every
      page the heap produces is well-formed, its measure of free space is kept
      as a promise, and a page that was written with a checksum is accepted when
      it is read.
    - Plan references: the rewritten expressions of joins and upper nodes keep
      their values and refer only to the tuples of the children.
    - Worker: a round ends idle, a failed pass leaves no trace in the catalogs
      but loses entries of the table, and the shutdown flag is never seen.

    ** Not modelled

    The rest of PostgreSQL: parser, planner and executor proper, disk storage and
    buffers, WAL and recovery, replication, the other catalogs and commands, the
    client programs, the procedural languages, contrib and the tests.  AutoIndex
    calls them only through the interfaces above.  Of the modelled files: the
    other visibility routines, subqueries, appends and modification nodes in
    [setrefs.c], dynamic background workers, the extended query protocol, prepared plans and cursors of SPI,
    parallel workers and the resource cleanup of other modules at the ends of a
    transaction (its steps may fail, and its effects are outside of the state
    modelled), group updates of the commit log, the lock-free list in
    which backends queue to end their transactions together, hot standby, the
    choice of the line pointers to prune and the freezing of tuples, temporary
    copies of pages, the process that turns checksums on and off, locks
    other than those of the process array, and memory contexts.
    Shared memory is sequentially consistent, as the barriers and atomic
    operations of the ring make it. *)
From stdpp Require Import base tactics option list gmap strings numbers relations.
From Stdlib Require Import ZArith Lia.

(** ** Machine integers

    A C integer is a [Z]; a conversion to a [w]-bit type is one of the
    wrap-around functions below.  PostgreSQL is compiled with [-fwrapv], so
    signed arithmetic wraps as well. *)

Open Scope Z_scope.

Definition wrap_u (w z : Z) : Z := z mod 2 ^ w.

Definition wrap_s (w z : Z) : Z := (z + 2 ^ (w - 1)) mod 2 ^ w - 2 ^ (w - 1).

Definition u32 : Z → Z := wrap_u 32.

Definition u64 : Z → Z := wrap_u 64.

Definition i16 : Z → Z := wrap_s 16.

Definition i32 : Z → Z := wrap_s 32.

Definition i64 : Z → Z := wrap_s 64.

(** The size of a disk block, as configured by default. *)
Definition BLCKSZ : Z := 8192.

Definition in_u (w z : Z) : Prop := 0 ≤ z < 2 ^ w.

Definition in_s (w z : Z) : Prop := - 2 ^ (w - 1) ≤ z < 2 ^ (w - 1).

(** ** Errors and state

    [ereport(ERROR)] is a non-local exit: the memory written before it stays
    written.  A computation therefore returns the state it reached together
    with its outcome.  [ErrFatal] and [ErrPanic] are the errors no handler
    catches: they end the backend or the cluster.  [ErrUB] is the outcome of a
    write outside an array. *)

Inductive pg_error : Type :=
| ErrReport (msg : string)
| ErrFatal (msg : string)
| ErrPanic (msg : string)
| ErrUB.

Inductive result (A : Type) : Type :=
| Ok (a : A)
| Err (e : pg_error).

(** The errors [PG_CATCH] does not see. *)
Definition uncaught (e : pg_error) : Prop :=
  match e with ErrReport _ => False | _ => True end.

Arguments ErrReport msg%_string.
Arguments ErrFatal msg%_string.
Arguments ErrPanic msg%_string.
Arguments Ok {A} a.
Arguments Err {A} e.

#[export] Instance result_ret : MRet result := λ A a, Ok a.

#[export] Instance result_bind : MBind result := λ A B k m,
  match m with
  | Ok a => k a
  | Err e => Err e
  end.

(** A [foreach] loop that threads a value and may fail. *)
Fixpoint rfold {A B} (f : B → A → result B) (xs : list A) (b : B) : result B :=
  match xs with
  | [] => Ok b
  | x :: xs' => b' ← f b x; rfold f xs' b'
  end.

Definition M (S A : Type) : Type := S → S * result A.

#[export] Instance M_ret S : MRet (M S) := λ A a s, (s, Ok a).

#[export] Instance M_bind S : MBind (M S) := λ A B k m s,
  match m s with
  | (s', Ok a) => k a s'
  | (s', Err e) => (s', Err e)
  end.

Definition fail {S A} (e : pg_error) : M S A := λ s, (s, Err e).

Definition get {S} : M S S := λ s, (s, Ok s).

Definition put {S} (s : S) : M S unit := λ _, (s, Ok tt).

Definition gets {S A} (f : S → A) : M S A := λ s, (s, Ok (f s)).

Definition modify {S} (f : S → S) : M S unit := λ s, (f s, Ok tt).

Definition lift_result {S A} (r : result A) : M S A := λ s, (s, r).

(** Hoare triples with a postcondition for each outcome. *)
Definition hoare {S A} (P : S → Prop) (m : M S A) (Q : A → S → Prop) (E : S → Prop) : Prop :=
  ∀ s, P s → match m s with (s', Ok a) => Q a s' | (s', Err _) => E s' end.

(** A [for] loop over a list of loop indices. *)
Fixpoint mfor {S A} (xs : list A) (body : A → M S unit) : M S unit :=
  match xs with
  | [] => mret tt
  | x :: xs' => body x ;; mfor xs' body
  end.

(** ** Arrays

    A C array of fixed length is a list.  [array_write] is the store
    [a[i] = v]: out of range it has no defined outcome. *)

Definition array_write {A} (a : list A) (i : nat) (v : A) : result (list A) :=
  if (i <? length a)%nat then Ok (<[i := v]> a) else Err ErrUB.

(** ** Tactics and hint databases *)

Create HintDb width.
Create HintDb arr.

(** Split every [match]/[if] the goal or the context is stuck on. *)
Ltac case_all :=
  repeat (case_match; simplify_eq/=; try done).

(** Run monadic code on a known state as far as it goes. *)
Ltac msimpl :=
  repeat (progress (unfold mbind, M_bind, mret, M_ret, get, put, gets, modify, fail, lift_result,
                      result_bind, result_ret; cbn -[Z.add Z.sub Z.mul Z.of_nat Z.pow])).

(** Rewrite the side of an array with a known length. *)
Ltac len := rewrite ?length_insert, ?length_replicate, ?length_app in *; try lia.

(** ** Width lemmas *)

Lemma wrap_u_range w z : 0 ≤ w → in_u w (wrap_u w z).
Proof. intros; apply Z.mod_pos_bound; lia. Qed.

Lemma wrap_u_small w z : in_u w z → wrap_u w z = z.
Proof. apply Z.mod_small. Qed.

Lemma wrap_u_idemp w z : wrap_u w (wrap_u w z) = wrap_u w z.
Proof. apply Zmod_mod. Qed.

Lemma wrap_s_range w z : 0 < w → in_s w (wrap_s w z).
Proof.
  intros Hw. unfold in_s, wrap_s.
  assert (2 ^ w = 2 * 2 ^ (w - 1)) as E.
  { replace w with (1 + (w - 1)) at 1 by lia. rewrite Z.pow_add_r; lia. }
  pose proof (Z.mod_pos_bound (z + 2 ^ (w - 1)) (2 ^ w)). lia.
Qed.

Lemma wrap_s_small w z : 0 < w → in_s w z → wrap_s w z = z.
Proof.
  intros Hw [??]. unfold wrap_s.
  assert (2 ^ w = 2 * 2 ^ (w - 1)) as E.
  { replace w with (1 + (w - 1)) at 1 by lia. rewrite Z.pow_add_r; lia. }
  rewrite Z.mod_small; lia.
Qed.

Lemma u64_small z : 0 ≤ z < 2 ^ 64 → u64 z = z.
Proof. apply wrap_u_small. Qed.

Lemma u32_small z : 0 ≤ z < 2 ^ 32 → u32 z = z.
Proof. apply wrap_u_small. Qed.

Lemma i64_small z : - 2 ^ 63 ≤ z < 2 ^ 63 → i64 z = z.
Proof. intros; apply wrap_s_small; [lia | done]. Qed.

Lemma i32_small z : - 2 ^ 31 ≤ z < 2 ^ 31 → i32 z = z.
Proof. intros; apply wrap_s_small; [lia | done]. Qed.

(** A mask of the form [2^k - 1] takes the remainder. *)
Lemma land_mask z k : 0 ≤ k → Z.land z (2 ^ k - 1) = z mod 2 ^ k.
Proof.
  intros. rewrite <-Z.land_ones by done. by rewrite Z.ones_equiv, Z.sub_1_r.
Qed.

#[export] Hint Resolve wrap_u_range wrap_s_range : width.

(** ** Monad lemmas *)

Section monad.
Context {S : Type}.

Lemma bind_ok {A B} (m : M S A) (k : A → M S B) s s' a :
  m s = (s', Ok a) → (m ≫= k) s = k a s'.
Proof. unfold mbind, M_bind. by intros ->. Qed.

Lemma bind_err {A B} (m : M S A) (k : A → M S B) s s' e :
  m s = (s', Err e) → (m ≫= k) s = (s', Err e).
Proof. unfold mbind, M_bind. by intros ->. Qed.

(** Invariant rule for a loop whose body never fails. *)
Lemma mfor_inv {A} (I : S → Prop) (xs : list A) (body : A → M S unit) s :
  I s →
  (∀ x s, x ∈ xs → I s → ∃ s', body x s = (s', Ok tt) ∧ I s') →
  ∃ s', mfor xs body s = (s', Ok tt) ∧ I s'.
Proof.
  revert s. induction xs as [|x xs IH]; intros s Hs Hb; simpl; [eauto|].
  destruct (Hb x s) as (s1 & E & Hs1); [by left | done |].
  rewrite (bind_ok _ _ _ _ _ E). apply IH; [done|].
  intros y s2 Hy. apply Hb. by right.
Qed.

(** A loop preserves an invariant the body preserves whatever its outcome. *)
Lemma mfor_pres {A} (I : S → Prop) (xs : list A) (body : A → M S unit) s :
  I s → (∀ x s, I s → I (body x s).1) → I (mfor xs body s).1.
Proof.
  revert s. induction xs as [|x xs IH]; intros s Hs Hb; simpl; [done|].
  unfold mbind, M_bind. destruct (body x s) as [s1 [[]|e]] eqn:E.
  - apply IH; [|done]. specialize (Hb x s Hs). by rewrite E in Hb.
  - specialize (Hb x s Hs). by rewrite E in Hb.
Qed.

End monad.

Lemma rfold_app {A B} (f : B → A → result B) xs ys b :
  rfold f (xs ++ ys) b = (b' ← rfold f xs b; rfold f ys b').
Proof.
  revert b. induction xs as [|x xs IH]; intros b; simpl; [done|].
  destruct (f b x); simpl; [apply IH|done].
Qed.

(** ** Array lemmas *)

Lemma array_write_ok {A} (a : list A) i v :
  (i < length a)%nat → array_write a i v = Ok (<[i := v]> a).
Proof. intros. unfold array_write. by rewrite (proj2 (Nat.ltb_lt _ _)). Qed.

Lemma array_write_length {A} (a b : list A) i v :
  array_write a i v = Ok b → length b = length a.
Proof. unfold array_write. case_match; intros; simplify_eq. by rewrite length_insert. Qed.

Lemma take_insert_snoc {A} (a : list A) i v :
  (i < length a)%nat → take (S i) (<[i := v]> a) = take i a ++ [v].
Proof.
  intros Hi. rewrite (take_S_r _ _ v) by (by apply list_lookup_insert_eq).
  by rewrite take_insert_ge by lia.
Qed.

Lemma take_take_app {A} n (a b : list A) : take n (take n a ++ b) = take n (a ++ b).
Proof.
  destruct (decide (length a ≤ n)%nat) as [H|H].
  - by rewrite (take_ge a n).
  - rewrite !take_app_le by (rewrite ?length_take; lia). by rewrite take_take, Nat.min_id.
Qed.

Lemma take_zip {A B} n (a : list A) (b : list B) : take n (zip a b) = zip (take n a) (take n b).
Proof. revert a b. induction n; intros [|??] [|??]; simpl; f_equal; auto. Qed.

#[export] Hint Resolve array_write_ok array_write_length : arr.

Lemma suffix_cons_cases {A} (s : list A) c t :
  s `suffix_of` c :: t → s = c :: t ∨ s `suffix_of` t.
Proof.
  intros [[|x k] H]; simpl in H; [by left|]. injection H as _ ->. right. by exists k.
Qed.

Lemma forallb_Forall {A} (f : A → bool) (l : list A) :
  forallb f l = true ↔ Forall (λ x, f x = true) l.
Proof.
  induction l as [|x l IH]; simpl; [by split|]. rewrite andb_true_iff, IH.
  split; [intros [? ?]; by constructor|intros H; by inv H].
Qed.

(** ** Triples *)

Section hoare.
  Context {S : Type}.

Lemma hoare_ret {A} (a : A) (P : S → Prop) E : hoare P (mret a) (λ a' s, a' = a ∧ P s) E.
Proof. by intros s Hs. Qed.

Lemma hoare_bind {A B} P (m : M S A) Q (k : A → M S B) R E :
  hoare P m Q E → (∀ a, hoare (Q a) (k a) R E) → hoare P (m ≫= k) R E.
Proof.
  intros Hm Hk s Hs. specialize (Hm s Hs). unfold mbind, M_bind.
  destruct (m s) as [s' [a|e]]; [|done]. by apply Hk.
Qed.

Lemma hoare_conseq {A} (P P' : S → Prop) (m : M S A) (Q Q' : A → S → Prop) E :
  hoare P' m Q' E → (∀ s, P s → P' s) → (∀ a s, Q' a s → Q a s) → hoare P m Q E.
Proof.
  intros Hm HP HQ s Hs. specialize (Hm s (HP s Hs)). destruct (m s) as [s' [a|e]]; [|done]. by apply HQ.
Qed.

Lemma hoare_fail {A} e (P E : S → Prop) Q : (∀ s, P s → E s) → hoare P (fail (A:=A) e) Q E.
Proof. intros H s Hs. by apply H. Qed.

Lemma hoare_lift {A} (r : result A) (P E : S → Prop) : (∀ s, P s → E s) →
  hoare P (lift_result r) (λ _, P) E.
Proof. intros H s Hs. destruct r; [done|by apply H]. Qed.

Lemma hoare_get {A} (P : S → Prop) (k : S → M S A) Q E :
  (∀ s, hoare P (k s) Q E) → hoare P (get ≫= k) Q E.
Proof. intros H s Hs. by apply H. Qed.

End hoare.
