(* ===== verification/Float64.v ===== *)
(** * C [double]: IEEE 754 binary64

    The C type [double] and its operators, over the axiom-free specification
    of binary floating point of the Standard Library ([SpecFloat], precision
    53, maximal exponent 1024, round to nearest even).  The advisor adds plan
    costs, multiplies page and tuple counts and compares the two; the theorems
    here are the ones its proofs need: comparison is a total preorder on
    numbers, and a rounded sum of two non-negative doubles is a non-negative
    double that is at least each of them. *)
From Corelib Require Import SpecFloat.
From stdpp Require Import base tactics numbers.
From Stdlib Require Import ZArith Lia.
From S2P Require Import Prelude.

Definition double : Type := spec_float.

Definition dadd : double → double → double := SFadd 53 1024.

Definition dsub : double → double → double := SFsub 53 1024.

Definition dmul : double → double → double := SFmul 53 1024.

Definition ddiv : double → double → double := SFdiv 53 1024.

(** [x < y], [x <= y], [x >= y], [x > y] of C. *)
Definition dltb (x y : double) : bool := SFltb x y.

Definition dleb (x y : double) : bool := SFleb x y.

Definition dgeb (x y : double) : bool := SFleb y x.

Definition dgtb (x y : double) : bool := SFltb y x.

(** The conversion of an integer to [double]. *)
Definition d_of_Z (z : Z) : double := binary_normalize 53 1024 z 0 false.

Definition d0 : double := S754_zero false.

Definition valid (x : double) : bool := valid_binary 53 1024 x.

Definition is_nan (x : double) : bool :=
  match x with S754_nan => true | _ => false end.

(** A number that is not below zero: no NaN, and no set sign bit on a
    non-zero value. *)
Definition nonneg (x : double) : bool :=
  match x with
  | S754_nan => false
  | S754_zero _ => true
  | S754_infinity s | S754_finite s _ _ => negb s
  end.

(** The value of a positive finite double in units of [2^-1074]. *)
Definition ulps (m : positive) (e : Z) : Z := Z.pos m * 2 ^ (e + 1074).

(** Rounding a positive value: overflow to infinity, or a bounded pair that is
    at least every bounded pair below the exact value. *)
Definition rounds_above (m : positive) (e : Z) (x : double) : Prop :=
  x = S754_infinity false ∨
  ∃ mr er, x = S754_finite false mr er ∧ bounded 53 1024 mr er = true ∧
    ∀ mx ex, bounded 53 1024 mx ex = true → ulps mx ex ≤ ulps m e → ulps mx ex ≤ ulps mr er.

(** ** Comparison *)

Lemma dleb_refl x : is_nan x = false → dleb x x = true.
Proof.
  destruct x as [s|s| |s m e]; simpl; intros; try done; destruct s; try done;
    unfold dleb, SFleb; simpl; rewrite Z.compare_refl, Pos.compare_cont_refl; done.
Qed.

Lemma dltb_nge x y : is_nan x = false → is_nan y = false →
  dltb x y = negb (dleb y x).
Proof.
  intros. unfold dltb, dleb, SFltb, SFleb.
  destruct x as [sx|sx| |sx mx ex], y as [sy|sy| |sy my ey]; simpl in *; try done;
    destruct sx, sy; simpl; try done; rewrite (Z.compare_antisym ex ey);
    destruct (ex ?= ey) eqn:?; simpl; try done;
    change (Pos.compare_cont Eq) with Pos.compare;
    rewrite (Pos.compare_antisym my mx); by destruct (my ?= mx)%positive.
Qed.

Lemma dleb_total x y : is_nan x = false → is_nan y = false →
  dleb x y = true ∨ dleb y x = true.
Proof.
  intros Hx Hy. destruct (dleb y x) eqn:E; [by right|left].
  pose proof (dltb_nge x y Hx Hy) as L. rewrite E in L. simpl in L.
  unfold dltb, SFltb in L. unfold dleb, SFleb. by destruct (SFcompare x y) as [[]|].
Qed.

Lemma dltb_dleb x y : dltb x y = true → dleb x y = true.
Proof. unfold dltb, dleb, SFltb, SFleb. by destruct (SFcompare x y) as [[]|]. Qed.

Lemma dleb_trans x y z : dleb x y = true → dleb y z = true → dleb x z = true.
Proof.
  unfold dleb, SFleb.
  destruct x as [sx|sx| |sx mx ex], y as [sy|sy| |sy my ey], z as [sz|sz| |sz mz ez];
    simpl; try done; destruct sx; try done; destruct sy; try done; destruct sz; try done;
    simpl; change (Pos.compare_cont Eq) with Pos.compare;
    destruct (Z.compare_spec ex ey), (Z.compare_spec ey ez), (Z.compare_spec ex ez);
    subst; simpl; try done; try lia;
    destruct (Pos.compare_spec mx my), (Pos.compare_spec my mz), (Pos.compare_spec mx mz);
    simpl; try done; subst; lia.
Qed.

Lemma dleb_not_nan x y : dleb x y = true → is_nan x = false ∧ is_nan y = false.
Proof. destruct x, y; done. Qed.

Lemma nonneg_not_nan x : nonneg x = true → is_nan x = false.
Proof. by destruct x. Qed.

(** ** Rounding *)

Lemma digits2_pos_bounds m :
  2 ^ (Z.pos (digits2_pos m) - 1) ≤ Z.pos m < 2 ^ Z.pos (digits2_pos m).
Proof.
  induction m as [m IH|m IH|]; simpl digits2_pos; [| |done];
    rewrite Pos2Z.inj_succ;
    replace (Z.succ (Z.pos (digits2_pos m)) - 1) with (Z.pos (digits2_pos m)) by lia;
    rewrite Z.pow_succ_r by lia;
    replace (2 ^ Z.pos (digits2_pos m)) with (2 * 2 ^ (Z.pos (digits2_pos m) - 1)) in IH |- *
      by (rewrite <-Z.pow_succ_r by lia; f_equal; lia); lia.
Qed.

(** The number of digits is determined by the bounds. *)
Lemma digits2_pos_unique m d :
  0 < d → 2 ^ (d - 1) ≤ Z.pos m < 2 ^ d → Z.pos (digits2_pos m) = d.
Proof.
  intros Hd [Hl Hu]. pose proof (digits2_pos_bounds m) as [Bl Bu].
  destruct (Z.lt_trichotomy (Z.pos (digits2_pos m)) d) as [H|[H|H]]; [|done|].
  - assert (2 ^ Z.pos (digits2_pos m) ≤ 2 ^ (d - 1)) by (apply Z.pow_le_mono_r; lia). lia.
  - assert (2 ^ d ≤ 2 ^ (Z.pos (digits2_pos m) - 1)) by (apply Z.pow_le_mono_r; lia). lia.
Qed.

Lemma iter_xO m d : Z.pos (Pos.iter xO m d) = Z.pos m * 2 ^ Z.pos d.
Proof.
  induction d as [|d IH] using Pos.peano_ind; simpl; [lia|].
  rewrite Pos.iter_succ, Pos2Z.inj_xO, IH, Pos2Z.inj_succ, Z.pow_succ_r by lia. lia.
Qed.

Lemma shr_1_m r : 0 ≤ shr_m r → shr_m (shr_1 r) = shr_m r / 2.
Proof.
  destruct r as [m b s]; simpl. destruct m as [|[p|p|]|]; simpl; try lia;
    intros _; try done.
  - rewrite Pos2Z.inj_xI. rewrite Z.mul_comm, Z.div_add_l by lia.
    rewrite Z.div_small by lia. lia.
  - rewrite Pos2Z.inj_xO, Z.mul_comm, Z.div_mul; lia.
Qed.

Lemma pow2_double p : 2 ^ Z.pos p~0 = 2 ^ Z.pos p * 2 ^ Z.pos p.
Proof. rewrite (Pos2Z.inj_xO p), <-Z.add_diag, Z.pow_add_r; lia. Qed.

Lemma iter_shr_1_m p : ∀ r, 0 ≤ shr_m r →
  0 ≤ shr_m (SpecFloat.iter_pos shr_1 p r) ∧
  shr_m (SpecFloat.iter_pos shr_1 p r) = shr_m r / 2 ^ Z.pos p.
Proof.
  assert (∀ r, 0 ≤ shr_m r → 0 ≤ shr_m (shr_1 r)) as H1.
  { intros r Hr. rewrite shr_1_m by done. apply Z.div_pos; lia. }
  induction p as [p IH|p IH|]; intros r Hr; simpl SpecFloat.iter_pos.
  - destruct (IH (shr_1 r)) as [P1 E1]; [auto|].
    destruct (IH _ P1) as [P2 E2]. split; [done|].
    rewrite E2, E1, shr_1_m, !Z.div_div by lia. f_equal.
    rewrite (Pos2Z.inj_xI p), Z.add_1_r, Z.pow_succ_r, <-Pos2Z.inj_xO, pow2_double; lia.
  - destruct (IH r) as [P1 E1]; [auto|].
    destruct (IH _ P1) as [P2 E2]. split; [done|].
    by rewrite E2, E1, Z.div_div, pow2_double by lia.
  - split; [auto|]. by rewrite shr_1_m.
Qed.

(** One rounding step: the quotient by the power of two that [fexp] asks for. *)
Lemma shr_fexp_m m e l n :
  0 ≤ m → fexp 53 1024 (Zdigits2 m + e) - e = n → 0 ≤ n →
  shr_m (fst (shr_fexp 53 1024 m e l)) = m / 2 ^ n ∧
  snd (shr_fexp 53 1024 m e l) = e + n.
Proof.
  intros Hm Hn Hpos. unfold shr_fexp, shr. rewrite Hn.
  assert (shr_m (shr_record_of_loc m l) = m) as Em by (by destruct l as [|[]]).
  destruct n as [|p|p]; simpl; [|split; [|done]|lia].
  - split; [|lia]. by rewrite Z.div_1_r.
  - destruct (iter_shr_1_m p (shr_record_of_loc m l)) as [_ E]; [lia|].
    by rewrite E, Em.
Qed.

Lemma round_nearest_even_bounds m l :
  m ≤ round_nearest_even m l ≤ m + 1.
Proof. destruct l as [|[]]; simpl; try lia. case_match; lia. Qed.

(** A bounded mantissa/exponent pair, spelled out. *)
Lemma bounded_iff m e : bounded 53 1024 m e = true ↔
  e = Z.max (Z.pos (digits2_pos m) + e - 53) (-1074) ∧ e ≤ 971.
Proof.
  unfold bounded, canonical_mantissa, fexp. change (emin 53 1024) with (-1074).
  rewrite andb_true_iff, Z.eqb_eq, Z.leb_le. lia.
Qed.

Lemma bounded_mantissa m e : bounded 53 1024 m e = true → Z.pos m < 2 ^ 53 ∧ -1074 ≤ e.
Proof.
  rewrite bounded_iff. intros [He _]. pose proof (digits2_pos_bounds m).
  assert (2 ^ Z.pos (digits2_pos m) ≤ 2 ^ 53) by (apply Z.pow_le_mono_r; lia). lia.
Qed.

(** On bounded pairs the comparison of [SpecFloat] is the order of values. *)
Lemma dleb_ulps m1 e1 m2 e2 :
  bounded 53 1024 m1 e1 = true → bounded 53 1024 m2 e2 = true →
  ulps m1 e1 ≤ ulps m2 e2 →
  dleb (S754_finite false m1 e1) (S754_finite false m2 e2) = true.
Proof.
  intros B1 B2 Hle. unfold dleb, SFleb; simpl.
  change (Pos.compare_cont Eq) with Pos.compare.
  destruct (Z.compare_spec e1 e2) as [->|?|Hgt]; [|done|exfalso].
  - destruct (Pos.compare_spec m1 m2); try done.
    destruct (bounded_mantissa _ _ B2). unfold ulps in Hle.
    apply Z.mul_le_mono_pos_r in Hle; lia.
  - destruct (bounded_mantissa _ _ B2) as [Hm2 He2].
    apply bounded_iff in B1 as [B1 _]. pose proof (digits2_pos_bounds m1) as [Hm1 _].
    replace (Z.pos (digits2_pos m1)) with 53 in Hm1 by lia.
    unfold ulps in Hle.
    assert (2 ^ (e1 + 1074) = 2 ^ (e1 - e2) * 2 ^ (e2 + 1074)) as E
      by (rewrite <-Z.pow_add_r by lia; f_equal; lia).
    assert (2 ≤ 2 ^ (e1 - e2)) by (change 2 with (2 ^ 1) at 1; apply Z.pow_le_mono_r; lia).
    assert (0 < 2 ^ (e2 + 1074)) by lia. change (53 - 1) with 52 in Hm1.
    assert (Z.pos m1 * 2 ^ (e1 - e2) ≤ Z.pos m2) by nia. lia.
Qed.

Lemma fexp64 e : fexp 53 1024 e = Z.max (e - 53) (-1074).
Proof. done. Qed.

(** The alignment of [binary_round] keeps the value and the number of leading
    bits, and leaves an exponent [fexp] does not exceed. *)
Lemma shl_align_spec m e f mz ez :
  shl_align m e f = (mz, ez) → -1074 ≤ f →
  ez = Z.min e f ∧ Z.pos (digits2_pos mz) + ez = Z.pos (digits2_pos m) + e ∧
  Z.pos mz = Z.pos m * 2 ^ (e - ez).
Proof.
  unfold shl_align. intros Ha Hf. destruct (f - e) as [|d|d] eqn:Ed; simplify_eq.
  - rewrite Z.min_l, Z.sub_diag by lia. lia.
  - rewrite Z.min_l, Z.sub_diag by lia. lia.
  - rewrite Z.min_r by lia. replace (e - ez) with (Z.pos d) by lia.
    split_and!; [done| |apply iter_xO].
    enough (Z.pos (digits2_pos (Pos.iter xO m d)) = Z.pos (digits2_pos m) + Z.pos d) by lia.
    apply digits2_pos_unique; [lia|]. rewrite iter_xO.
    pose proof (digits2_pos_bounds m) as [Hl Hu].
    replace (Z.pos (digits2_pos m) + Z.pos d - 1)
      with (Z.pos (digits2_pos m) - 1 + Z.pos d) by lia.
    rewrite !Z.pow_add_r by lia. nia.
Qed.

(** The second normalisation of [binary_round_aux] only absorbs the carry. *)
Lemma renormalize r f :
  1 ≤ r ≤ 2 ^ 53 → -1074 ≤ f → (f = -1074 ∨ 2 ^ 52 ≤ r) →
  ∃ mr er, shr_m (fst (shr_fexp 53 1024 r f loc_Exact)) = Z.pos mr ∧
    snd (shr_fexp 53 1024 r f loc_Exact) = er ∧ f ≤ er ∧
    er = Z.max (Z.pos (digits2_pos mr) + er - 53) (-1074) ∧
    Z.pos mr * 2 ^ (er - f) = r.
Proof.
  intros [Hr1 Hr2] Hf Hor. destruct r as [|p|p]; try lia.
  pose proof (digits2_pos_bounds p) as [Hl Hu].
  destruct (decide (Z.pos p = 2 ^ 53)) as [E|NE].
  - assert (p = 9007199254740992%positive) as -> by lia.
    destruct (shr_fexp_m (2 ^ 53) f loc_Exact 1) as [E1 E2];
      [lia|rewrite fexp64; change (Zdigits2 (2 ^ 53)) with 54; lia|lia|].
    change (Z.pos 9007199254740992) with (2 ^ 53).
    exists 4503599627370496%positive, (f + 1). rewrite E1, E2.
    split_and!; [done|done|lia| |by replace (f + 1 - f) with 1 by lia].
    change (Z.pos (digits2_pos 4503599627370496)) with 53. lia.
  - assert (Z.pos (digits2_pos p) ≤ 53) as Hd.
    { apply Znot_gt_le. intros Hd.
      assert (2 ^ 53 ≤ 2 ^ (Z.pos (digits2_pos p) - 1)) by (apply Z.pow_le_mono_r; lia). lia. }
    assert (f = Z.max (Z.pos (digits2_pos p) + f - 53) (-1074)) as Ef.
    { destruct Hor as [->|Hb]; [lia|].
      rewrite (digits2_pos_unique p 53); change (53 - 1) with 52; lia. }
    destruct (shr_fexp_m (Z.pos p) f loc_Exact 0) as [E1 E2]; [lia| |lia|].
    { rewrite fexp64. simpl Zdigits2. lia. }
    exists p, f. rewrite E1, E2, Z.sub_diag, Z.div_1_r. split_and!; lia.
Qed.

(** Truncation to the exponent [f] stays above every bounded pair below. *)
Lemma floor_above m e f mx ex :
  -1074 ≤ e ≤ f → 2 ^ 52 ≤ Z.pos m / 2 ^ (f - e) ∨ f = e →
  bounded 53 1024 mx ex = true → ulps mx ex ≤ ulps m e →
  ulps mx ex ≤ Z.pos m / 2 ^ (f - e) * 2 ^ (f + 1074).
Proof.
  intros [He Hf] Hor Hb Hle. destruct (bounded_mantissa _ _ Hb) as [Hm Hex].
  destruct Hor as [Hbig| ->]; [|by rewrite Z.sub_diag, Z.div_1_r].
  unfold ulps in *. destruct (Z.le_gt_cases f ex) as [Hfx|Hfx].
  - replace (ex + 1074) with (ex - f + (f + 1074)) in * by lia.
    replace (e + 1074) with (f + 1074 - (f - e)) in * by lia.
    rewrite (Z.pow_add_r 2 (ex - f)) in * by lia. rewrite Z.mul_assoc in *.
    apply Z.mul_le_mono_nonneg_r; [lia|]. apply Z.div_le_lower_bound; [lia|].
    assert (2 ^ (f + 1074) = 2 ^ (f - e) * 2 ^ (f + 1074 - (f - e))) as E
      by (rewrite <-Z.pow_add_r by lia; f_equal; lia).
    rewrite E, Z.mul_assoc in Hle. apply Z.mul_le_mono_pos_r in Hle; lia.
  - assert (2 ^ (f + 1074) = 2 ^ (f - ex) * 2 ^ (ex + 1074)) as E
      by (rewrite <-Z.pow_add_r by lia; f_equal; lia).
    assert (2 ≤ 2 ^ (f - ex)) by (change 2 with (2 ^ 1) at 1; apply Z.pow_le_mono_r; lia).
    rewrite E, Z.mul_assoc. apply Z.mul_le_mono_nonneg_r; nia.
Qed.

Lemma binary_round_aux_spec m e f :
  f = Z.max (Z.pos (digits2_pos m) + e - 53) (-1074) → -1074 ≤ e ≤ f →
  rounds_above m e (binary_round_aux 53 1024 false (Z.pos m) e loc_Exact).
Proof.
  intros Ef He. unfold binary_round_aux.
  destruct (shr_fexp_m (Z.pos m) e loc_Exact (f - e)) as [E1 E2];
    [lia|rewrite fexp64; simpl Zdigits2; lia|lia|].
  destruct (shr_fexp 53 1024 (Z.pos m) e loc_Exact) as [mrs' e'] eqn:Es. simpl in E1, E2.
  set (r := round_nearest_even _ _).
  assert (m_low : f = -1074 ∧ e = -1074 ∧ Z.pos m < 2 ^ 53 ∨
    2 ^ 52 ≤ shr_m mrs' < 2 ^ 53).
  { pose proof (digits2_pos_bounds m) as [Hl Hu]. rewrite E1.
    destruct (decide (Z.pos (digits2_pos m) + e - 53 ≤ -1074)) as [Hs|Hs]; [left|right].
    - split_and!; [lia|lia|]. eapply Z.lt_le_trans; [done|apply Z.pow_le_mono_r; lia].
    - replace (Z.pos (digits2_pos m) - 1) with (f - e + 52) in Hl by lia.
      replace (Z.pos (digits2_pos m)) with (f - e + 53) in Hu by lia.
      rewrite Z.pow_add_r in Hl, Hu by lia. split.
      + apply Z.div_le_lower_bound; lia.
      + apply Z.div_lt_upper_bound; lia. }
  assert (m_one : 1 ≤ shr_m mrs' < 2 ^ 53).
  { destruct m_low as [(->&->&?)|?]; [rewrite E1, Z.sub_diag, Z.div_1_r; lia|lia]. }
  pose proof (round_nearest_even_bounds (shr_m mrs') (loc_of_shr_record mrs')) as Hr.
  fold r in Hr. assert (e' = f) as -> by lia.
  destruct (renormalize r f) as (mr & er & Em & Ee & Hfe & Hcan & Hval); [lia|lia|lia|].
  destruct (shr_fexp 53 1024 r f loc_Exact) as [mrs'' e'']; simpl in Em, Ee. subst e''.
  rewrite Em. change (1024 - 53) with 971.
  destruct (Z.leb_spec er 971); [right|by left].
  exists mr, er. split_and!; [done|by apply bounded_iff|].
  intros mx ex Hb Hle.
  assert (ulps mr er = r * 2 ^ (f + 1074)) as Eu.
  { unfold ulps. rewrite <-Hval, <-Z.mul_assoc, <-Z.pow_add_r by lia. do 2 f_equal; lia. }
  rewrite Eu. etrans; [apply (floor_above m e f)|]; try done.
  - destruct m_low as [(->&->&?)|?]; [by right|left; lia].
  - rewrite <-E1. apply Z.mul_le_mono_nonneg_r; lia.
Qed.

Lemma binary_round_spec m e : -1074 ≤ e →
  rounds_above m e (binary_round 53 1024 false m e).
Proof.
  intros He. unfold binary_round. rewrite fexp64.
  set (f := Z.max (Z.pos (digits2_pos m) + e - 53) (-1074)).
  destruct (shl_align m e f) as [mz ez] eqn:Ea.
  destruct (shl_align_spec _ _ _ _ _ Ea) as (Eez & Ed & Em); [lia|].
  assert (ulps mz ez = ulps m e) as Eu.
  { unfold ulps. rewrite Em, <-Z.mul_assoc, <-Z.pow_add_r by lia. do 2 f_equal; lia. }
  pose proof (binary_round_aux_spec mz ez f) as H. unfold rounds_above in *.
  rewrite Eu in H. apply H; lia.
Qed.

(** ** Sums of non-negative doubles *)

Lemma dadd_nonneg_spec x y :
  valid x = true → valid y = true → nonneg x = true → nonneg y = true →
  valid (dadd x y) = true ∧ nonneg (dadd x y) = true ∧
  dleb x (dadd x y) = true ∧ dleb y (dadd x y) = true.
Proof.
  intros Vx Vy Nx Ny.
  destruct x as [sx|sx| |sx mx ex], y as [sy|sy| |sy my ey]; simpl in *; try done;
    try (destruct sx); try (destruct sy); try done;
    rewrite ?Vx, ?Vy; split_and!; try done; try (by apply dleb_refl).
  all: destruct (bounded_mantissa _ _ Vx) as [_ Hx], (bounded_mantissa _ _ Vy) as [_ Hy];
    unfold dadd, SFadd; set (e := Z.min ex ey);
    destruct (shl_align mx ex e) as [m1 e1] eqn:E1, (shl_align my ey e) as [m2 e2] eqn:E2;
    simpl; destruct (shl_align_spec _ _ _ _ _ E1) as (Ee1 & _ & Em1); try lia;
    destruct (shl_align_spec _ _ _ _ _ E2) as (Ee2 & _ & Em2); try lia;
    destruct (binary_round_spec (m1 + m2) e) as [->|(mr & er & -> & Hb & Habove)]; try lia;
    try done.
  all: assert (ulps (m1 + m2) e = ulps mx ex + ulps my ey) as Eu
    by (unfold ulps; rewrite Pos2Z.inj_add, Em1, Em2, Z.mul_add_distr_r;
        replace e1 with e by lia; replace e2 with e by lia;
        rewrite <-!Z.mul_assoc, <-!Z.pow_add_r by lia;
        do 2 f_equal; f_equal; lia);
    assert (0 < ulps mx ex) by (unfold ulps; lia);
    assert (0 < ulps my ey) by (unfold ulps; lia);
    apply dleb_ulps; try done; apply Habove; try done; lia.
Qed.
