(* ===== verification/AutoIndexTypes.v ===== *)
(** * The types of autoindex.h

    The captured workload entry, the ring buffer and the shared-memory header
    of [src/include/autoindex/autoindex.h], with the GUC variables that
    [autoindex.c] defines.  Arrays are lists of the declared length; the
    element counts ([n_pred], ...) index them and are naturals. *)
From stdpp Require Import base list.
From Stdlib Require Import ZArith.
From S2P Require Import Prelude Float64.

Definition AUTOINDEX_MAX_RELS : nat := 8.

Definition AUTOINDEX_MAX_COLS : nat := 16.

Definition AUTOINDEX_RING_SIZE : Z := 4096.

Definition AUTOINDEX_RING_MASK : Z := AUTOINDEX_RING_SIZE - 1.

Definition FirstNormalObjectId : Z := 16384.

Record WorkloadEntry : Type := mkWorkloadEntry {
  query_hash : Z;
  relids : list Z;
  pred_attnums : list Z;
  pred_relids : list Z;
  sort_attnums : list Z;
  sort_relids : list Z;
  join_attnums : list Z;
  join_relids : list Z;
  n_rels : nat;
  n_pred : nat;
  n_sort : nat;
  n_join : nat;
  plan_cost : double;
  actual_ms : double;
  ts : Z
}.

(** [memset(&entry, 0, sizeof(WorkloadEntry))] *)
Definition zero_entry : WorkloadEntry :=
  {| query_hash := 0;
     relids := replicate AUTOINDEX_MAX_RELS 0;
     pred_attnums := replicate AUTOINDEX_MAX_COLS 0;
     pred_relids := replicate AUTOINDEX_MAX_COLS 0;
     sort_attnums := replicate AUTOINDEX_MAX_COLS 0;
     sort_relids := replicate AUTOINDEX_MAX_COLS 0;
     join_attnums := replicate AUTOINDEX_MAX_COLS 0;
     join_relids := replicate AUTOINDEX_MAX_COLS 0;
     n_rels := 0; n_pred := 0; n_sort := 0; n_join := 0;
     plan_cost := d0; actual_ms := d0; ts := 0 |}.

Record WorkloadRingBuffer : Type := mkRing {
  head : Z;                        (* consumer (BGW) position *)
  tail : Z;                        (* producer (backends) position *)
  entries : list WorkloadEntry     (* AUTOINDEX_RING_SIZE slots *)
}.

Record AutoIndexShmemHeader : Type := mkShmem {
  version : Z;
  bgw_pid : Z;
  total_written : Z;
  total_dropped : Z;
  ring : WorkloadRingBuffer
}.

(** The GUC variables of [autoindex.c]. *)
Record gucs : Type := mkGucs {
  autoindex_enabled : bool;
  autoindex_analysis_interval : Z;         (* seconds *)
  autoindex_advisor_interval : Z;          (* seconds *)
  autoindex_lifecycle_interval : Z;        (* hours *)
  autoindex_min_exec_freq : Z;
  autoindex_min_score : double;
  autoindex_max_indexes_per_table : Z;
  autoindex_drop_after_idle_days : Z;
  autoindex_workload_window_days : Z
}.

(** The initialisers of the variables, which are also the boot values. *)
Definition default_gucs : gucs :=
  {| autoindex_enabled := true;
     autoindex_analysis_interval := 60;
     autoindex_advisor_interval := 300;
     autoindex_lifecycle_interval := 6;
     autoindex_min_exec_freq := 100;
     autoindex_min_score := d_of_Z 1;
     autoindex_max_indexes_per_table := 5;
     autoindex_drop_after_idle_days := 7;
     autoindex_workload_window_days := 3 |}.

(** The contents of the segment after [autoindex_shmem_init]. *)
Definition autoindex_shmem_init : AutoIndexShmemHeader :=
  {| version := 1; bgw_pid := 0; total_written := 0; total_dropped := 0;
     ring := {| head := 0; tail := 0;
                entries := replicate (Z.to_nat AUTOINDEX_RING_SIZE) zero_entry |} |}.

(** Field updates of the shared segment. *)
Definition set_ring (f : WorkloadRingBuffer → WorkloadRingBuffer)
    (s : AutoIndexShmemHeader) : AutoIndexShmemHeader :=
  mkShmem (version s) (bgw_pid s) (total_written s) (total_dropped s) (f (ring s)).

Definition set_head (h : Z) (s : AutoIndexShmemHeader) : AutoIndexShmemHeader :=
  set_ring (λ r, mkRing h (tail r) (entries r)) s.

Definition set_tail (t : Z) (s : AutoIndexShmemHeader) : AutoIndexShmemHeader :=
  set_ring (λ r, mkRing (head r) t (entries r)) s.

Definition set_slot (i : Z) (e : WorkloadEntry) (s : AutoIndexShmemHeader) :
    AutoIndexShmemHeader :=
  set_ring (λ r, mkRing (head r) (tail r) (<[Z.to_nat i := e]> (entries r))) s.

Definition add_written (s : AutoIndexShmemHeader) : AutoIndexShmemHeader :=
  mkShmem (version s) (bgw_pid s) (u64 (total_written s + 1)) (total_dropped s) (ring s).

Definition add_dropped (s : AutoIndexShmemHeader) : AutoIndexShmemHeader :=
  mkShmem (version s) (bgw_pid s) (total_written s) (u64 (total_dropped s + 1)) (ring s).

Definition set_bgw_pid (pid : Z) (s : AutoIndexShmemHeader) : AutoIndexShmemHeader :=
  mkShmem (version s) pid (total_written s) (total_dropped s) (ring s).
