(* ===== verification/RingBuffer.v ===== *)
(** * The workload ring buffer

    The lock-free ring of [workload_capture.c] (producer side,
    [ring_buffer_push]) and [index_advisor.c] (consumer side, the shared-memory
    accesses of [drain_ring_buffer]).

    Two views are modelled.  [ring_buffer_push] and [ring_read_all] are the
    code run without interference; they refine a bounded FIFO queue.
    [producer_step] and [consumer_step] execute one atomic operation at a
    time; [step] interleaves any number of backends with the single consumer,
    and the invariant of the indices is proved for every interleaving.  One
    [memcpy] of an entry, and one read of an entry, is a single step. *)
From stdpp Require Import base tactics list gmap numbers relations.
From Stdlib Require Import ZArith Lia.
From S2P Require Import Prelude AutoIndexTypes.

(** ** One backend, one consumer, without interference *)

(** [x & AUTOINDEX_RING_MASK] *)
Definition slot (x : Z) : Z := Z.land x AUTOINDEX_RING_MASK.

Definition ring_entry (s : AutoIndexShmemHeader) (x : Z) : WorkloadEntry :=
  default zero_entry (entries (ring s) !! Z.to_nat (slot x)).

(** The full test: [(next & MASK) == (head & MASK)]. *)
Definition ring_full (tail head : Z) : bool := slot (u64 (tail + 1)) =? slot head.

Definition ring_buffer_push (shmem : option AutoIndexShmemHeader) (entry : WorkloadEntry) :
    option AutoIndexShmemHeader :=
  match shmem with
  | None => None
  | Some s =>
      let tail := tail (ring s) in
      let head := head (ring s) in
      let next := u64 (tail + 1) in
      if ring_full tail head then Some (add_dropped s)
      else Some (add_written (set_slot (slot tail) entry (set_tail next s)))
  end.

(** The consumer's [while (head != tail)] loop: the entries it reads, in
    order, and the head it stores.  [fuel] bounds the iterations. *)
Fixpoint ring_read (fuel : nat) (s : AutoIndexShmemHeader) (head tail : Z) :
    option (list WorkloadEntry * Z) :=
  if head =? tail then Some ([], head)
  else match fuel with
  | O => None
  | S fuel' =>
      match ring_read fuel' s (u64 (head + 1)) tail with
      | Some (es, h) => Some (ring_entry s head :: es, h)
      | None => None
      end
  end.

Definition ring_read_all (s : AutoIndexShmemHeader) :
    option (list WorkloadEntry * AutoIndexShmemHeader) :=
  match ring_read (Z.to_nat AUTOINDEX_RING_SIZE) s (head (ring s)) (tail (ring s)) with
  | Some (es, h) => Some (es, set_head h s)
  | None => None
  end.

(** The queue a quiescent ring stands for: the entries of the positions from
    [head] up to [tail]. *)
Definition ring_queue (s : AutoIndexShmemHeader) : list WorkloadEntry :=
  ring_entry s <$> seqZ (head (ring s)) (tail (ring s) - head (ring s)).

(** Positions are counted without wrapping: [2^64] pushes are out of reach. *)
Definition ring_wf (s : AutoIndexShmemHeader) : Prop :=
  length (entries (ring s)) = Z.to_nat AUTOINDEX_RING_SIZE ∧
  0 ≤ head (ring s) ≤ tail (ring s) ∧
  tail (ring s) - head (ring s) < AUTOINDEX_RING_SIZE ∧
  tail (ring s) < 2 ^ 64.

(** ** Any number of backends *)

(** Program points of [ring_buffer_push]. *)
Inductive ppc : Type :=
| PReadTail (e : WorkloadEntry)
| PReadHead (e : WorkloadEntry) (tail : Z)
| PCas (e : WorkloadEntry) (tail : Z)
| PDrop
| PCopy (e : WorkloadEntry) (tail : Z)
| PCount
| PDone.

Definition producer_step (pc : ppc) (s : AutoIndexShmemHeader) : ppc * AutoIndexShmemHeader :=
  match pc with
  | PReadTail e => (PReadHead e (tail (ring s)), s)
  | PReadHead e t => (if ring_full t (head (ring s)) then PDrop else PCas e t, s)
  | PDrop => (PDone, add_dropped s)
  | PCas e t =>
      if tail (ring s) =? t then (PCopy e t, set_tail (u64 (t + 1)) s)
      else (PReadTail e, s)
  | PCopy e t => (PCount, set_slot (slot t) e s)
  | PCount => (PDone, add_written s)
  | PDone => (PDone, s)
  end.

(** Program points of the consumer in [drain_ring_buffer]. *)
Inductive cpc : Type :=
| CIdle
| CReadTail (head : Z)
| CLoop (head tail : Z).

(** One consumer step; the second component is the entry it processed. *)
Definition consumer_step (pc : cpc) (s : AutoIndexShmemHeader) :
    cpc * option WorkloadEntry * AutoIndexShmemHeader :=
  match pc with
  | CIdle => (CReadTail (head (ring s)), None, s)
  | CReadTail h => (CLoop h (tail (ring s)), None, s)
  | CLoop h t =>
      if h =? t then (CIdle, None, set_head h s)
      else (CLoop (u64 (h + 1)) t, Some (ring_entry s h), s)
  end.

(** The system: the segment, the backends inside a push, the consumer, and two
    histories: the entries in the order their positions were claimed, and the
    entries the consumer processed. *)
Record config : Type := mkConfig {
  shm : AutoIndexShmemHeader;
  prods : gmap nat ppc;
  cons : cpc;
  claims : list WorkloadEntry;
  seen : list WorkloadEntry
}.

Definition initial : config :=
  {| shm := autoindex_shmem_init; prods := ∅; cons := CIdle; claims := []; seen := [] |}.

(** The entry a producer step claims a position for. *)
Definition claimed (pc pc' : ppc) : list WorkloadEntry :=
  match pc, pc' with PCas e _, PCopy _ _ => [e] | _, _ => [] end.

Inductive step : config → config → Prop :=
| step_begin c pid e :
    prods c !! pid = None →
    step c (mkConfig (shm c) (<[pid := PReadTail e]> (prods c)) (cons c) (claims c) (seen c))
| step_producer c pid pc pc' s' :
    prods c !! pid = Some pc →
    producer_step pc (shm c) = (pc', s') →
    step c (mkConfig s' (<[pid := pc']> (prods c)) (cons c)
              (claims c ++ claimed pc pc') (seen c))
| step_return c pid :
    prods c !! pid = Some PDone →
    step c (mkConfig (shm c) (delete pid (prods c)) (cons c) (claims c) (seen c))
| step_consumer c pc' o s' :
    consumer_step (cons c) (shm c) = (pc', o, s') →
    step c (mkConfig s' (prods c) pc' (claims c) (seen c ++ option_list o)).

(** A position claimed but not yet filled. *)
Definition copying (pc : ppc) (t : Z) : Prop := ∃ e, pc = PCopy e t.

(** Claimed positions that have not been counted in [total_written]. *)
Definition uncounted (pc : ppc) : Prop :=
  match pc with PCopy _ _ | PCount => True | _ => False end.

#[global] Instance uncounted_dec pc : Decision (uncounted pc).
Proof. destruct pc; apply _. Defined.

Definition n_uncounted (ps : gmap nat ppc) : Z :=
  Z.of_nat (size (filter (λ p : nat * ppc, uncounted p.2) ps)).

(** What a producer's local variables say about the indices [h] and [t]. *)
Definition producer_ok (h t : Z) (pc : ppc) : Prop :=
  match pc with
  | PReadHead _ t' => 0 ≤ t' ≤ t
  | PCas _ t' => 0 ≤ t' ≤ t ∧ (t' = t → t + 1 - h < AUTOINDEX_RING_SIZE)
  | PCopy _ t' => 0 ≤ t' < t
  | _ => True
  end.

Definition consumer_ok (h t : Z) (pc : cpc) : Prop :=
  match pc with
  | CIdle => True
  | CReadTail h' => h' = h
  | CLoop h' t' => h ≤ h' ≤ t' ∧ t' ≤ t
  end.

Record ring_inv (c : config) : Prop := mkRingInv {
  inv_len : length (entries (ring (shm c))) = Z.to_nat AUTOINDEX_RING_SIZE;
  inv_idx : 0 ≤ head (ring (shm c)) ≤ tail (ring (shm c));
  inv_cap : tail (ring (shm c)) - head (ring (shm c)) < AUTOINDEX_RING_SIZE;
  inv_claims : Z.of_nat (length (claims c)) = tail (ring (shm c));
  inv_count : total_written (shm c) + n_uncounted (prods c) = tail (ring (shm c));
  inv_written : 0 ≤ total_written (shm c);
  inv_prods : map_Forall (λ _ pc, producer_ok (head (ring (shm c))) (tail (ring (shm c))) pc)
                (prods c);
  inv_tickets : ∀ p q t, p ≠ q →
    (∃ pc, prods c !! p = Some pc ∧ copying pc t) →
    (∃ pc, prods c !! q = Some pc ∧ copying pc t) → False;
  inv_cons : consumer_ok (head (ring (shm c))) (tail (ring (shm c))) (cons c)
}.

(** ** Synchronised executions

    The consumer's position in its loop, and the executions in which the
    consumer moves only while no backend is between its compare-and-exchange
    and the end of its [memcpy]. *)
Definition consumer_pos (c : config) : Z :=
  match cons c with
  | CIdle => head (ring (shm c))
  | CReadTail h => h
  | CLoop h _ => h
  end.

Definition no_copy (c : config) : Prop :=
  ∀ pid e t, prods c !! pid ≠ Some (PCopy e t).

Definition sync_step (c c' : config) : Prop :=
  step c c' ∧ (cons c' = cons c ∨ no_copy c).

Record sync_inv (c : config) : Prop := mkSyncInv {
  sync_ring : ring_inv c;
  sync_seen : seen c = take (Z.to_nat (consumer_pos c)) (claims c);
  sync_pending : ∀ pid e t, prods c !! pid = Some (PCopy e t) →
    consumer_pos c ≤ t ∧ claims c !! Z.to_nat t = Some e;
  sync_filled : ∀ i, consumer_pos c ≤ i < tail (ring (shm c)) →
    (∃ pid e, prods c !! pid = Some (PCopy e i)) ∨
    claims c !! Z.to_nat i = Some (ring_entry (shm c) i)
}.

(** A backend running alone. *)
Fixpoint producer_run (fuel : nat) (pc : ppc) (s : AutoIndexShmemHeader) :
    option AutoIndexShmemHeader :=
  match pc, fuel with
  | PDone, _ => Some s
  | _, O => None
  | _, S fuel' => let '(pc', s') := producer_step pc s in producer_run fuel' pc' s'
  end.

(** Two backends that read the same tail; the first has claimed it. *)
Definition contended (e1 e2 : WorkloadEntry) : config :=
  mkConfig (set_tail 1 autoindex_shmem_init) {[0%nat := PCopy e1 0; 1%nat := PCas e2 0]}
    CIdle [e1] [].

(** One step of backend [p], resp. of the consumer, in a concrete trace. *)
Ltac prod_step p pc pc' s' :=
  eapply nsteps_l; [apply (step_producer _ p pc pc' s'); [by simplify_map_eq|done]|];
  simpl; rewrite ?insert_insert_eq.

Ltac sync_prod_step p pc pc' s' :=
  eapply nsteps_l;
    [split; [apply (step_producer _ p pc pc' s'); [by simplify_map_eq|done]|by left]|];
  simpl; rewrite ?insert_insert_eq.

Ltac sync_cons_step pc' o s' :=
  eapply nsteps_l;
    [split; [apply (step_consumer _ pc' o s'); done|right; intros ???; simpl; by rewrite lookup_empty]|];
  simpl.

(** ** Slots *)

Lemma slot_mod x : slot x = x mod AUTOINDEX_RING_SIZE.
Proof. apply (land_mask x 12). lia. Qed.

Lemma slot_bounds x : 0 ≤ slot x < AUTOINDEX_RING_SIZE.
Proof. rewrite slot_mod. by apply Z.mod_pos_bound. Qed.

(** Two positions less than a ring apart share a slot only if equal. *)
Lemma slot_inj x y :
  - AUTOINDEX_RING_SIZE < x - y < AUTOINDEX_RING_SIZE → slot x = slot y → x = y.
Proof.
  rewrite !slot_mod. unfold AUTOINDEX_RING_SIZE. intros H E.
  rewrite (Z.div_mod x 4096), (Z.div_mod y 4096) in H |- * by done. lia.
Qed.

Lemma ring_full_iff h t :
  0 ≤ t < 2 ^ 64 - 1 → 0 ≤ t - h < AUTOINDEX_RING_SIZE →
  ring_full t h = true ↔ t + 1 - h = AUTOINDEX_RING_SIZE.
Proof.
  intros Ht Hd. unfold ring_full. rewrite u64_small by lia. rewrite Z.eqb_eq, !slot_mod.
  unfold AUTOINDEX_RING_SIZE in *. split; intros E.
  - rewrite (Z.div_mod (t + 1) 4096), (Z.div_mod h 4096), E by done.
    assert (h mod 4096 = (t + 1) mod 4096) by done.
    pose proof (Z.div_mod (t + 1) 4096). pose proof (Z.div_mod h 4096). lia.
  - replace (t + 1) with (h + 1 * 4096) by lia. by rewrite Z.mod_add.
Qed.

Lemma ring_entry_set_same s x e :
  length (entries (ring s)) = Z.to_nat AUTOINDEX_RING_SIZE →
  ring_entry (set_slot (slot x) e s) x = e.
Proof.
  intros Hl. unfold ring_entry; simpl. pose proof (slot_bounds x).
  rewrite list_lookup_insert_eq; [done|lia].
Qed.

Lemma ring_entry_set_other s x y e :
  slot x ≠ slot y → ring_entry (set_slot (slot x) e s) y = ring_entry s y.
Proof.
  intros Hne. unfold ring_entry; simpl. pose proof (slot_bounds x). pose proof (slot_bounds y).
  rewrite list_lookup_insert_ne; [done|lia].
Qed.

Lemma ring_queue_length s : ring_wf s →
  Z.of_nat (length (ring_queue s)) = tail (ring s) - head (ring s).
Proof. intros (_ & ? & _). unfold ring_queue. rewrite length_fmap, length_seqZ. lia. Qed.

(** ** The sequential code refines a bounded queue *)

(** C2.  Without interference a push appends to the queue, or, when the queue already holds
    [AUTOINDEX_RING_SIZE - 1] entries, drops the entry and counts the drop. *)
Theorem ring_buffer_push_refines s e :
  ring_wf s → tail (ring s) < 2 ^ 64 - 1 →
  0 ≤ total_written s < 2 ^ 64 - 1 → 0 ≤ total_dropped s < 2 ^ 64 - 1 →
  ∃ s', ring_buffer_push (Some s) e = Some s' ∧ ring_wf s' ∧
    if (length (ring_queue s) <? 4095)%nat
    then ring_queue s' = ring_queue s ++ [e] ∧
         total_written s' = total_written s + 1 ∧ total_dropped s' = total_dropped s
    else ring_queue s' = ring_queue s ∧
         total_written s' = total_written s ∧ total_dropped s' = total_dropped s + 1.
Proof.
  intros Hwf Ht Hw Hd. pose proof (ring_queue_length s Hwf) as Hq.
  destruct Hwf as (Hlen & Hht & Hcap & Htl). unfold ring_buffer_push.
  pose proof (ring_full_iff (head (ring s)) (tail (ring s))) as Hfull.
  destruct (ring_full _ _).
  - eexists; split; [done|]. split; [done|].
    assert (tail (ring s) + 1 - head (ring s) = AUTOINDEX_RING_SIZE) by (apply Hfull; lia).
    unfold AUTOINDEX_RING_SIZE in *. destruct (Nat.ltb_spec (length (ring_queue s)) 4095); [lia|].
    split_and!; [done|done|]. simpl. rewrite u64_small; lia.
  - eexists; split; [done|]. rewrite (u64_small (tail (ring s) + 1)) by lia.
    assert (tail (ring s) + 1 - head (ring s) < AUTOINDEX_RING_SIZE) as Hroom.
    { destruct (decide (tail (ring s) + 1 - head (ring s) = AUTOINDEX_RING_SIZE)); [|lia].
      exfalso. cut (false = true); [done|]. apply Hfull; lia. }
    split.
    { unfold ring_wf; simpl. rewrite length_insert. lia. }
    unfold AUTOINDEX_RING_SIZE in *. destruct (Nat.ltb_spec (length (ring_queue s)) 4095); [|lia].
    split_and!; [|simpl; rewrite u64_small; lia|done].
    unfold ring_queue at 1; simpl.
    replace (tail (ring s) + 1 - head (ring s)) with (tail (ring s) - head (ring s) + 1) by lia.
    rewrite seqZ_app, fmap_app by lia. f_equal.
    + apply list_fmap_ext. intros i x Hx. apply lookup_seqZ in Hx as [-> Hi].
      change (ring_entry (add_written ?z)) with (ring_entry z).
      rewrite ring_entry_set_other; [done|].
      intros E. apply slot_inj in E; unfold AUTOINDEX_RING_SIZE; lia.
    + replace (head (ring s) + (tail (ring s) - head (ring s))) with (tail (ring s)) by lia.
      simpl. f_equal. by apply (ring_entry_set_same (set_tail _ s)).
Qed.

Lemma ring_wf_init : ring_wf autoindex_shmem_init.
Proof. split; [apply length_replicate|]. simpl. unfold AUTOINDEX_RING_SIZE. lia. Qed.

Lemma ring_buffer_push_refines_witness :
  ∃ s', ring_buffer_push (Some autoindex_shmem_init) zero_entry = Some s' ∧ ring_wf s' ∧
    ring_queue s' = [zero_entry] ∧ total_written s' = 1 ∧ total_dropped s' = 0.
Proof.
  exact (ring_buffer_push_refines autoindex_shmem_init zero_entry ring_wf_init
    ltac:(simpl; lia) ltac:(simpl; lia) ltac:(simpl; lia)).
Defined.

Lemma ring_read_spec n : ∀ s h t,
  0 ≤ h ≤ t → t < 2 ^ 64 → t - h = Z.of_nat n →
  ring_read n s h t = Some (ring_entry s <$> seqZ h (t - h), t).
Proof.
  induction n as [|n IH]; intros s h t Hh Ht Hn; simpl.
  - replace t with h by lia. by rewrite Z.eqb_refl, Z.sub_diag.
  - destruct (Z.eqb_spec h t); [lia|]. rewrite u64_small, IH by lia.
    rewrite (seqZ_cons h (t - h)) by lia. simpl. do 5 f_equal; lia.
Qed.

Lemma ring_read_mono n m s h t r :
  (n ≤ m)%nat → ring_read n s h t = Some r → ring_read m s h t = Some r.
Proof.
  revert m h r. induction n as [|n IH]; intros [|m] h r Hle; simpl; try lia;
    (destruct (h =? t); [done|]); try done.
  destruct (ring_read n s (u64 (h + 1)) t) as [[es h']|] eqn:E; [|done].
  by rewrite (IH m _ _ ltac:(lia) E).
Qed.

Lemma ring_read_all_spec s : ring_wf s →
  ring_read_all s = Some (ring_queue s, set_head (tail (ring s)) s).
Proof.
  intros (Hlen & Hht & Hcap & Htl). unfold ring_read_all.
  assert (ring_read (Z.to_nat (tail (ring s) - head (ring s))) s (head (ring s)) (tail (ring s))
    = Some (ring_queue s, tail (ring s))) as E by (apply ring_read_spec; lia).
  apply (ring_read_mono _ (Z.to_nat AUTOINDEX_RING_SIZE)) in E; [by rewrite E|lia].
Qed.

(** ** Every interleaving keeps the indices in range *)

Lemma producer_ok_mono h t h' t' pc :
  h ≤ h' → t ≤ t' → producer_ok h t pc → producer_ok h' t' pc.
Proof. destruct pc; simpl; lia. Qed.

Lemma consumer_ok_mono h t t' pc : t ≤ t' → consumer_ok h t pc → consumer_ok h t' pc.
Proof. destruct pc; simpl; lia. Qed.

Lemma n_uncounted_insert ps p pc :
  n_uncounted (<[p := pc]> ps) =
  n_uncounted (delete p ps) + (if decide (uncounted pc) then 1 else 0).
Proof.
  unfold n_uncounted. rewrite <-insert_delete_eq. case_decide as Hu.
  - rewrite map_filter_insert_True by done.
    rewrite map_size_insert_None; [lia|].
    by rewrite map_lookup_filter_None; left; rewrite lookup_delete_eq.
  - rewrite map_filter_insert_not'; [by rewrite Z.add_0_r|done|].
    intros y. by rewrite lookup_delete_eq.
Qed.

Lemma n_uncounted_lookup ps p pc :
  ps !! p = Some pc →
  n_uncounted ps = n_uncounted (delete p ps) + (if decide (uncounted pc) then 1 else 0).
Proof. intros Hp. rewrite <-n_uncounted_insert. by rewrite insert_id. Qed.

Lemma ring_inv_initial : ring_inv initial.
Proof.
  split; simpl; try done.
  intros p q t _ (pc & Hp & _). by rewrite lookup_empty in Hp.
Qed.

(** The tickets after a producer moved from [pc] to [pc']. *)
Lemma tickets_step (ps : gmap nat ppc) p pc' :
  (∀ a b t, a ≠ b → (∃ pc, ps !! a = Some pc ∧ copying pc t) →
    (∃ pc, ps !! b = Some pc ∧ copying pc t) → False) →
  (∀ t q, copying pc' t → q ≠ p → ¬ ∃ pc, ps !! q = Some pc ∧ copying pc t) →
  (∀ a b t, a ≠ b → (∃ pc, <[p := pc']> ps !! a = Some pc ∧ copying pc t) →
    (∃ pc, <[p := pc']> ps !! b = Some pc ∧ copying pc t) → False).
Proof.
  intros Hold Hnew a b t Hab (pa & Ha & Ca) (pb & Hb & Cb).
  destruct (decide (a = p)) as [->|Hap], (decide (b = p)) as [->|Hbp]; simplify_map_eq.
  - by eapply Hnew; [exact Ca|exact Hbp|eauto].
  - by eapply Hnew; [exact Cb|exact Hap|eauto].
  - eapply (Hold a b t); eauto.
Qed.

(** A producer step that neither claims a position nor counts one. *)
Lemma ring_inv_quiet c pid pc pc' s' :
  ring_inv c → prods c !! pid = Some pc →
  length (entries (ring s')) = length (entries (ring (shm c))) →
  head (ring s') = head (ring (shm c)) → tail (ring s') = tail (ring (shm c)) →
  total_written s' = total_written (shm c) →
  (uncounted pc ↔ uncounted pc') → (∀ t, ¬ copying pc' t) →
  producer_ok (head (ring (shm c))) (tail (ring (shm c))) pc' →
  ring_inv (mkConfig s' (<[pid := pc']> (prods c)) (cons c) (claims c ++ []) (seen c)).
Proof.
  intros [Hlen Hidx Hcap Hcl Hcnt Hwr Hps Htk Hcn] Hp El Eh Et Ew Hu Hc Hok.
  split; simpl; rewrite ?app_nil_r, ?El, ?Eh, ?Et, ?Ew; try done.
  - rewrite <-Hcnt, (n_uncounted_lookup _ _ _ Hp), n_uncounted_insert.
    f_equal. f_equal. by do 2 case_decide; tauto.
  - by apply map_Forall_insert_2.
  - apply tickets_step; [done|]. intros t q Hq. by destruct (Hc t).
Qed.

(** A successful compare-and-exchange. *)
Lemma ring_inv_claim c pid e :
  ring_inv c → tail (ring (shm c)) < 2 ^ 64 - 1 →
  prods c !! pid = Some (PCas e (tail (ring (shm c)))) →
  ring_inv (mkConfig (set_tail (tail (ring (shm c)) + 1) (shm c))
    (<[pid := PCopy e (tail (ring (shm c)))]> (prods c)) (cons c) (claims c ++ [e]) (seen c)).
Proof.
  intros [Hlen Hidx Hcap Hcl Hcnt Hwr Hps Htk Hcn] Ht Hp.
  destruct (Hps pid _ Hp) as [Hok1 Hok2].
  rewrite (n_uncounted_lookup _ _ _ Hp) in Hcnt. simpl in Hcnt.
  split; simpl; rewrite ?length_app, ?n_uncounted_insert; simpl; try done; try lia.
  - apply map_Forall_insert_2; [simpl; lia|].
    eapply map_Forall_impl; [exact Hps|]. intros ? pc0; apply producer_ok_mono; lia.
  - apply tickets_step; [done|]. intros t q [e' [= _ <-]] Hq (pc0 & Hq' & [e0 ->]).
    specialize (Hps q _ Hq'). simpl in Hps. lia.
  - eapply consumer_ok_mono; [|done]. lia.
Qed.

(** The final [pg_atomic_fetch_add_u64(&total_written, 1)]. *)
Lemma ring_inv_count c pid :
  ring_inv c → tail (ring (shm c)) < 2 ^ 64 - 1 → prods c !! pid = Some PCount →
  ring_inv (mkConfig (add_written (shm c)) (<[pid := PDone]> (prods c)) (cons c)
    (claims c ++ []) (seen c)).
Proof.
  intros [Hlen Hidx Hcap Hcl Hcnt Hwr Hps Htk Hcn] Ht Hp.
  rewrite (n_uncounted_lookup _ _ _ Hp) in Hcnt. simpl in Hcnt.
  assert (0 ≤ n_uncounted (delete pid (prods c))) by (unfold n_uncounted; lia).
  split; simpl; rewrite ?app_nil_r, ?n_uncounted_insert; simpl; try done;
    rewrite ?u64_small by lia; try lia.
  - by apply map_Forall_insert_2.
  - apply tickets_step; [done|]. by intros t0 q [? [=]].
Qed.

Lemma ring_inv_producer c pid pc pc' s' :
  ring_inv c → tail (ring (shm c)) < 2 ^ 64 - 1 →
  prods c !! pid = Some pc → producer_step pc (shm c) = (pc', s') →
  ring_inv (mkConfig s' (<[pid := pc']> (prods c)) (cons c)
              (claims c ++ claimed pc pc') (seen c)).
Proof.
  intros Hinv Ht Hp Hstep. pose proof Hinv as [Hlen Hidx Hcap _ _ _ Hps _ _].
  specialize (Hps pid _ Hp) as Hok.
  destruct pc as [e|e t|e t| |e t| |]; simpl in Hstep, Hok.
  - simplify_eq. eapply ring_inv_quiet; try done; [by intros ? [? [=]]|simpl; lia].
  - injection Hstep as <- <-. destruct (ring_full _ _) eqn:Hf.
    + eapply ring_inv_quiet; try done. by intros ? [? [=]].
    + eapply ring_inv_quiet; try done; [by intros ? [? [=]]|simpl].
      split; [lia|]. intros ->.
      pose proof (ring_full_iff (head (ring (shm c))) (tail (ring (shm c)))) as Hff.
      rewrite Hf in Hff. apply Z.le_neq. split; [lia|]. intros E.
      cut (false = true); [done|]. apply Hff; lia.
  - destruct (Z.eqb_spec (tail (ring (shm c))) t) as [E|NE]; simplify_eq/=.
    + rewrite u64_small by lia. by apply ring_inv_claim.
    + eapply ring_inv_quiet; try done. by intros ? [? [=]].
  - simplify_eq. eapply ring_inv_quiet; try done. by intros ? [? [=]].
  - simplify_eq. eapply ring_inv_quiet; try done; [apply length_insert|].
    by intros ? [? [=]].
  - simplify_eq. by apply ring_inv_count.
  - simplify_eq. eapply ring_inv_quiet; try done. by intros ? [? [=]].
Qed.

Lemma ring_inv_consumer c pc' o s' :
  ring_inv c → tail (ring (shm c)) < 2 ^ 64 - 1 →
  consumer_step (cons c) (shm c) = (pc', o, s') →
  ring_inv (mkConfig s' (prods c) pc' (claims c) (seen c ++ option_list o)).
Proof.
  intros [Hlen Hidx Hcap Hcl Hcnt Hwr Hps Htk Hcn] Ht Hstep.
  destruct (cons c) as [|h|h t]; simpl in Hstep, Hcn; simplify_eq.
  - by split.
  - split; simpl; try done; lia.
  - destruct (Z.eqb_spec h t); simplify_eq; split; simpl; try done;
      rewrite ?u64_small by lia; try lia.
    eapply map_Forall_impl; [exact Hps|]. intros ? pc0; apply producer_ok_mono; lia.
Qed.

Lemma ring_inv_step c c' :
  ring_inv c → tail (ring (shm c)) < 2 ^ 64 - 1 → step c c' → ring_inv c'.
Proof.
  intros Hinv Ht Hs. destruct Hs as [c pid e Hp|c pid pc pc' s' Hp Hs|c pid Hp|c pc' o s' Hs].
  - destruct Hinv as [Hlen Hidx Hcap Hcl Hcnt Hwr Hps Htk Hcn].
    split; simpl; try done.
    + rewrite n_uncounted_insert, delete_id by done. simpl. lia.
    + by apply map_Forall_insert_2.
    + apply tickets_step; [done|]. by intros t0 q [? [=]].
  - by eapply ring_inv_producer.
  - destruct Hinv as [Hlen Hidx Hcap Hcl Hcnt Hwr Hps Htk Hcn].
    rewrite (n_uncounted_lookup _ _ _ Hp) in Hcnt. simpl in Hcnt.
    split; simpl; try done; [lia|by apply map_Forall_delete|].
    intros a b t Hab (pa & Ha & Ca) (pb & Hb & Cb).
    apply lookup_delete_Some in Ha as [_ Ha], Hb as [_ Hb]. eapply (Htk a b t); eauto.
  - by eapply ring_inv_consumer.
Qed.

(** A step advances the tail by at most one. *)
Lemma step_tail c c' :
  ring_inv c → tail (ring (shm c)) < 2 ^ 64 - 1 → step c c' →
  tail (ring (shm c')) ≤ tail (ring (shm c)) + 1.
Proof.
  intros Hinv Ht Hs. pose proof (inv_idx _ Hinv).
  destruct Hs as [c pid e Hp|c pid pc pc' s' Hp Hs|c pid Hp|c pc' o s' Hs]; simpl; try lia.
  - destruct pc as [e|e t|e t| |e t| |]; simpl in Hs; simplify_eq/=; try lia.
    destruct (Z.eqb_spec (tail (ring (shm c))) t); simplify_eq/=; [|lia].
    rewrite u64_small; lia.
  - destruct (cons c) as [|h|h t]; simpl in Hs; simplify_eq; [lia|lia|].
    destruct (h =? t); simplify_eq; simpl; lia.
Qed.

Lemma reachable_inv n c :
  nsteps step n initial c → Z.of_nat n < 2 ^ 64 →
  ring_inv c ∧ tail (ring (shm c)) ≤ Z.of_nat n.
Proof.
  revert c. induction n as [|n IH]; intros c Hn Hb.
  - inv Hn. split; [apply ring_inv_initial|done].
  - apply nsteps_inv_r in Hn as (c' & Hn & Hs). destruct (IH c') as [Hinv Ht]; [done|lia|].
    split; [eapply ring_inv_step; eauto; lia|].
    pose proof (step_tail _ _ Hinv ltac:(lia) Hs). lia.
Qed.

(** ** The two views agree *)

(** Five steps of an undisturbed backend are one [ring_buffer_push]. *)
Lemma producer_run_push s e :
  ring_buffer_push (Some s) e = producer_run 5 (PReadTail e) s.
Proof. simpl. destruct (ring_full _ _); simpl; [done|]. by rewrite Z.eqb_refl. Qed.

(** ** Synchronised executions deliver every entry once, in order *)

Lemma consumer_pos_bounds c : ring_inv c →
  head (ring (shm c)) ≤ consumer_pos c ≤ tail (ring (shm c)).
Proof.
  intros [_ ? _ _ _ _ _ _ Hc]. unfold consumer_pos. destruct (cons c); simpl in Hc; lia.
Qed.

(** A backend step that leaves the slots, the claims and the copies alone. *)
Lemma sync_inv_quiet c c' :
  sync_inv c → ring_inv c' → cons c' = cons c → seen c' = seen c → claims c' = claims c →
  ring (shm c') = ring (shm c) →
  (∀ pid e t, prods c' !! pid = Some (PCopy e t) ↔ prods c !! pid = Some (PCopy e t)) →
  sync_inv c'.
Proof.
  intros [_ Hs Hp Hf] Hinv Ec Es Ecl Er Hcp.
  assert (consumer_pos c' = consumer_pos c) as Epos by (unfold consumer_pos; by rewrite Ec, Er).
  assert (∀ i, ring_entry (shm c') i = ring_entry (shm c) i) as Een
    by (intros; unfold ring_entry; by rewrite Er).
  split; rewrite ?Epos, ?Es, ?Ecl, ?Er; try done.
  - intros pid e t H%Hcp. by apply Hp in H.
  - intros i Hi. rewrite Een. destruct (Hf i Hi) as [(pid & e & H)|H]; [left|by right].
    exists pid, e. by apply Hcp.
Qed.

Lemma sync_inv_claim c pid e :
  sync_inv c → tail (ring (shm c)) < 2 ^ 64 - 1 →
  prods c !! pid = Some (PCas e (tail (ring (shm c)))) →
  sync_inv (mkConfig (set_tail (tail (ring (shm c)) + 1) (shm c))
    (<[pid := PCopy e (tail (ring (shm c)))]> (prods c)) (cons c) (claims c ++ [e]) (seen c)).
Proof.
  intros [Hinv Hs Hp Hf] Ht Hpid. pose proof (consumer_pos_bounds _ Hinv) as Hpos.
  pose proof (inv_claims _ Hinv) as Hcl. pose proof (inv_idx _ Hinv) as Hidx.
  set (c' := mkConfig _ _ _ _ _).
  assert (consumer_pos c' = consumer_pos c) as Epos by done.
  split; rewrite ?Epos; simpl.
  - by apply ring_inv_claim.
  - rewrite take_app_le; [done|lia].
  - intros p e' t. destruct (decide (p = pid)) as [->|Hne]; intros H; simplify_map_eq.
    + split; [lia|]. rewrite lookup_app_r by lia.
      by replace (Z.to_nat (tail (ring (shm c))) - length (claims c))%nat with 0%nat by lia.
    + destruct (Hp p e' t H) as [? Hl]. split; [done|]. by apply lookup_app_l_Some.
  - intros i Hi. destruct (decide (i = tail (ring (shm c)))) as [->|Hne].
    + left. exists pid, e. by simplify_map_eq.
    + destruct (Hf i ltac:(lia)) as [(p & e' & H)|H]; [left|right].
      * exists p, e'. destruct (decide (p = pid)) as [->|]; by simplify_map_eq.
      * by apply lookup_app_l_Some.
Qed.

Lemma sync_inv_copy c pid e t :
  sync_inv c → tail (ring (shm c)) < 2 ^ 64 - 1 → prods c !! pid = Some (PCopy e t) →
  sync_inv (mkConfig (set_slot (slot t) e (shm c)) (<[pid := PCount]> (prods c)) (cons c)
    (claims c ++ []) (seen c)).
Proof.
  intros [Hinv Hs Hp Hf] Ht Hpid. pose proof (consumer_pos_bounds _ Hinv) as Hpos.
  pose proof (inv_cap _ Hinv) as Hcap. pose proof (inv_prods _ Hinv pid _ Hpid) as Hok.
  destruct (Hp _ _ _ Hpid) as [Hpt Hcl]. simpl in Hok. rewrite app_nil_r.
  set (c' := mkConfig _ _ _ _ _).
  assert (consumer_pos c' = consumer_pos c) as Epos by done.
  split; rewrite ?Epos; simpl; try done.
  - pose proof (ring_inv_producer c pid (PCopy e t) PCount _ Hinv Ht Hpid eq_refl) as H.
    simpl in H. by rewrite app_nil_r in H.
  - intros p e' t'. destruct (decide (p = pid)) as [->|Hne]; intros H; simplify_map_eq. eauto.
  - intros i Hi. destruct (decide (i = t)) as [->|Hne].
    + right. rewrite ring_entry_set_same; [done|apply (inv_len _ Hinv)].
    + rewrite ring_entry_set_other by (intros E; apply slot_inj in E; lia).
      destruct (Hf i Hi) as [(p & e' & H)|H]; [left|by right].
      exists p, e'. destruct (decide (p = pid)) as [->|]; simplify_map_eq; done.
Qed.

Lemma copy_insert_quiet (ps : gmap nat ppc) p pc pc' :
  ps !! p = Some pc → (∀ t, ¬ copying pc t) → (∀ t, ¬ copying pc' t) →
  ∀ q e t, <[p := pc']> ps !! q = Some (PCopy e t) ↔ ps !! q = Some (PCopy e t).
Proof.
  intros Hp Hpc Hpc' q e t. destruct (decide (q = p)) as [->|]; simplify_map_eq; [|done].
  split; intros [= ->]; exfalso; [by apply (Hpc' t); exists e|by apply (Hpc t); exists e].
Qed.

Lemma sync_inv_producer c pid pc pc' s' :
  sync_inv c → tail (ring (shm c)) < 2 ^ 64 - 1 →
  prods c !! pid = Some pc → producer_step pc (shm c) = (pc', s') →
  sync_inv (mkConfig s' (<[pid := pc']> (prods c)) (cons c)
              (claims c ++ claimed pc pc') (seen c)).
Proof.
  intros Hinv Ht Hp Hstep. pose proof (inv_idx _ (sync_ring _ Hinv)).
  pose proof (ring_inv_producer _ _ _ _ _ (sync_ring _ Hinv) Ht Hp Hstep) as Hring.
  destruct pc as [e|e t|e t| |e t| |]; simpl in Hstep.
  3: destruct (Z.eqb_spec (tail (ring (shm c))) t) as [E|NE]; simplify_eq/=.
  3: { rewrite u64_small by lia. by apply sync_inv_claim. }
  5: { simplify_eq. by apply sync_inv_copy. }
  2: injection Hstep as <- <-; destruct (ring_full _ _).
  all: simplify_eq/=; eapply sync_inv_quiet; [done|exact Hring|done|done|apply app_nil_r|done|];
    simpl; eapply copy_insert_quiet; try done; by intros ? [? [=]].
Qed.

Lemma sync_inv_consumer c pc' o s' :
  sync_inv c → tail (ring (shm c)) < 2 ^ 64 - 1 → no_copy c →
  consumer_step (cons c) (shm c) = (pc', o, s') →
  sync_inv (mkConfig s' (prods c) pc' (claims c) (seen c ++ option_list o)).
Proof.
  intros [Hinv Hs Hp Hf] Ht Hnc Hstep. pose proof (ring_inv_consumer _ _ _ _ Hinv Ht Hstep) as Hr.
  pose proof (inv_idx _ Hinv) as Hidx. pose proof (inv_cons _ Hinv) as Hcn.
  unfold consumer_pos in *.
  destruct (cons c) as [|h|h t] eqn:Ec; simpl in Hstep, Hcn; simplify_eq.
  - split; [done|simpl; by rewrite app_nil_r|done|done].
  - split; [done|simpl; by rewrite app_nil_r|done|done].
  - destruct (Z.eqb_spec h t); simplify_eq.
    + split; [done|simpl; by rewrite app_nil_r|done|done].
    + rewrite u64_small in * by lia. split; unfold consumer_pos; simpl; try done.
      * destruct (Hf h) as [(p & e & H)|H]; [lia|by destruct (Hnc p e h)|].
        rewrite Hs. replace (Z.to_nat (h + 1)) with (S (Z.to_nat h)) by lia.
        by rewrite (take_S_r _ _ _ H).
      * intros p e t' H. by destruct (Hnc p e t').
      * intros i Hi. apply Hf. lia.
Qed.

Lemma sync_inv_step c c' :
  sync_inv c → tail (ring (shm c)) < 2 ^ 64 - 1 → sync_step c c' → sync_inv c'.
Proof.
  intros Hinv Ht [Hs Hor]. pose proof (ring_inv_step _ _ (sync_ring _ Hinv) Ht Hs) as Hr.
  destruct Hs as [c pid e Hp|c pid pc pc' s' Hp Hs|c pid Hp|c pc' o s' Hs].
  - eapply sync_inv_quiet; try done. simpl. intros q e' t.
    destruct (decide (q = pid)) as [->|]; [|by rewrite lookup_insert_ne].
    rewrite lookup_insert_eq, Hp. by split.
  - by eapply sync_inv_producer.
  - eapply sync_inv_quiet; try done. simpl. intros q e' t.
    destruct (decide (q = pid)) as [->|]; [|by rewrite lookup_delete_ne].
    rewrite lookup_delete_eq, Hp. by split.
  - eapply sync_inv_consumer; try done. destruct Hor as [E|]; [exfalso|done]. simpl in E.
    pose proof (inv_idx _ (sync_ring _ Hinv)). pose proof (inv_cons _ (sync_ring _ Hinv)) as Hcn.
    rewrite E in Hs. destruct (cons c) as [|h|h t]; simpl in Hs, Hcn; [done|done|].
    destruct (Z.eqb_spec h t); [done|]. injection Hs as Hh _ _. rewrite u64_small in Hh; lia.
Qed.

Lemma sync_inv_initial : sync_inv initial.
Proof.
  split; [apply ring_inv_initial|done| |].
  - intros p e t H. simpl in H. by rewrite lookup_empty in H.
  - simpl. unfold consumer_pos. simpl. lia.
Qed.

Lemma sync_reachable_inv n c :
  nsteps sync_step n initial c → Z.of_nat n < 2 ^ 64 →
  sync_inv c ∧ tail (ring (shm c)) ≤ Z.of_nat n.
Proof.
  revert c. induction n as [|n IH]; intros c Hn Hb.
  - inv Hn. split; [apply sync_inv_initial|done].
  - apply nsteps_inv_r in Hn as (c' & Hn & Hs). destruct (IH c') as [Hinv Ht]; [done|lia|].
    split; [eapply sync_inv_step; eauto; lia|]. destruct Hs as [Hs _].
    pose proof (step_tail _ _ (sync_ring _ Hinv) ltac:(lia) Hs). lia.
Qed.

(** Without interference the consumer's loop terminates
    within one ring length, returns exactly the queued entries in the order
    they were pushed, and leaves the queue empty. *)
Theorem ring_read_all_refines s :
  ring_wf s →
  ∃ s', ring_read_all s = Some (ring_queue s, s') ∧ ring_wf s' ∧ ring_queue s' = [] ∧
    tail (ring s') = tail (ring s).
Proof.
  intros Hwf. eexists. split; [by apply ring_read_all_spec|].
  destruct Hwf as (? & ? & ? & ?). split_and!; [|..|done].
  - unfold ring_wf; simpl. unfold AUTOINDEX_RING_SIZE in *. lia.
  - unfold ring_queue; simpl. by rewrite Z.sub_diag.
Qed.

Lemma ring_read_all_refines_witness :
  ∃ s', ring_read_all autoindex_shmem_init = Some (ring_queue autoindex_shmem_init, s') ∧
    ring_wf s' ∧ ring_queue s' = [] ∧ tail (ring s') = 0.
Proof. exact (ring_read_all_refines autoindex_shmem_init ring_wf_init). Defined.

(** C26.  In every interleaving of any number of backends with the
    consumer (of fewer than [2^64] steps) the head never passes the tail, the
    ring never holds more than [AUTOINDEX_RING_SIZE - 1] positions, no two
    backends fill the same position, and [total_written] falls short of the
    number of claimed positions by exactly the backends that have claimed a
    position and not yet counted it. *)
Theorem ring_indices_safe n c :
  nsteps step n initial c → Z.of_nat n < 2 ^ 64 →
  0 ≤ head (ring (shm c)) ≤ tail (ring (shm c)) ∧
  tail (ring (shm c)) - head (ring (shm c)) < AUTOINDEX_RING_SIZE ∧
  total_written (shm c) + n_uncounted (prods c) = Z.of_nat (length (claims c)) ∧
  (∀ p q e1 e2 t, prods c !! p = Some (PCopy e1 t) → prods c !! q = Some (PCopy e2 t) → p = q).
Proof.
  intros Hn Hb. destruct (reachable_inv n c Hn Hb) as [[_ ? ? Hcl Hcnt _ _ Htk _] _].
  split_and!; [lia|lia|lia|lia|]. intros p q e1 e2 t Hp Hq.
  destruct (decide (p = q)) as [|Hne]; [done|exfalso].
  eapply (Htk p q t Hne); eexists; (split; [done|by eexists]).
Qed.

Lemma contended_reachable e1 e2 : nsteps step 7 initial (contended e1 e2).
Proof.
  set (s0 := autoindex_shmem_init). change initial with (mkConfig s0 ∅ CIdle [] []).
  eapply nsteps_l; [apply (step_begin _ 1%nat e2), lookup_empty|]. simpl.
  prod_step 1%nat (PReadTail e2) (PReadHead e2 0) s0.
  prod_step 1%nat (PReadHead e2 0) (PCas e2 0) s0.
  eapply nsteps_l; [apply (step_begin _ 0%nat e1); by simplify_map_eq|]. simpl.
  prod_step 0%nat (PReadTail e1) (PReadHead e1 0) s0.
  prod_step 0%nat (PReadHead e1 0) (PCas e1 0) s0.
  prod_step 0%nat (PCas e1 0) (PCopy e1 0) (set_tail 1 s0).
  apply nsteps_O.
Qed.

Lemma ring_indices_safe_witness :
  let c := contended zero_entry zero_entry in
  0 ≤ head (ring (shm c)) ≤ tail (ring (shm c)) ∧
  tail (ring (shm c)) - head (ring (shm c)) < AUTOINDEX_RING_SIZE ∧
  total_written (shm c) + n_uncounted (prods c) = Z.of_nat (length (claims c)) ∧
  (∀ p q e1 e2 t, prods c !! p = Some (PCopy e1 t) → prods c !! q = Some (PCopy e2 t) → p = q).
Proof.
  exact (ring_indices_safe 7 _ (contended_reachable zero_entry zero_entry) ltac:(lia)).
Defined.

(** The push is lock-free: a backend repeats its loop only when
    another backend has claimed a position since it read the tail. *)
Theorem ring_push_lock_free n c pid e t :
  nsteps step n initial c → Z.of_nat n < 2 ^ 64 →
  prods c !! pid = Some (PCas e t) →
  (producer_step (PCas e t) (shm c)).1 = PReadTail e →
  t < Z.of_nat (length (claims c)).
Proof.
  intros Hn Hb Hp Hret. destruct (reachable_inv n c Hn Hb) as [[_ ? _ Hcl _ _ Hps _ _] _].
  specialize (Hps pid _ Hp). simpl in Hps, Hret.
  destruct (Z.eqb_spec (tail (ring (shm c))) t); [done|]. lia.
Qed.

Lemma ring_push_lock_free_witness : 0 < Z.of_nat (length (claims (contended zero_entry zero_entry))).
Proof.
  exact (ring_push_lock_free 7 _ 1 zero_entry 0 (contended_reachable zero_entry zero_entry)
    ltac:(lia) ltac:(reflexivity) ltac:(reflexivity)).
Defined.

(** When the consumer never runs between a backend's
    compare-and-exchange and the end of its copy, it processes the entries in
    the order their positions were claimed, each exactly once; after a
    completed drain it has processed all positions before the head. *)
Theorem ring_sync_fifo n c :
  nsteps sync_step n initial c → Z.of_nat n < 2 ^ 64 →
  seen c `prefix_of` claims c ∧
  (cons c = CIdle → Z.of_nat (length (seen c)) = head (ring (shm c))).
Proof.
  intros Hn Hb. destruct (sync_reachable_inv n c Hn Hb) as [[Hinv Hs _ _] _].
  pose proof (consumer_pos_bounds _ Hinv). pose proof (inv_claims _ Hinv).
  pose proof (inv_idx _ Hinv). rewrite Hs. split.
  - exists (drop (Z.to_nat (consumer_pos c)) (claims c)). by rewrite take_drop.
  - unfold consumer_pos in *. intros Hc. rewrite Hc in *. rewrite length_take. lia.
Qed.

(** One backend pushes [e], and the consumer drains after it returned. *)
Lemma sync_trace e :
  nsteps sync_step 11 initial
    (mkConfig (set_head 1 (add_written (set_slot 0 e (set_tail 1 autoindex_shmem_init)))) ∅ CIdle
      [e] [e]).
Proof.
  set (s0 := autoindex_shmem_init). change initial with (mkConfig s0 ∅ CIdle [] []).
  set (s1 := add_written (set_slot 0 e (set_tail 1 s0))).
  eapply nsteps_l; [split; [apply (step_begin _ 0%nat e), lookup_empty|by left]|]. simpl.
  sync_prod_step 0%nat (PReadTail e) (PReadHead e 0) s0.
  sync_prod_step 0%nat (PReadHead e 0) (PCas e 0) s0.
  sync_prod_step 0%nat (PCas e 0) (PCopy e 0) (set_tail 1 s0).
  sync_prod_step 0%nat (PCopy e 0) PCount (set_slot 0 e (set_tail 1 s0)).
  sync_prod_step 0%nat PCount PDone s1.
  eapply nsteps_l; [split; [apply (step_return _ 0%nat), lookup_insert_eq|by left]|]. simpl.
  rewrite delete_insert_eq, delete_empty.
  sync_cons_step (CReadTail 0) (None : option WorkloadEntry) s1.
  sync_cons_step (CLoop 0 1) (None : option WorkloadEntry) s1.
  sync_cons_step (CLoop 1 1) (Some e) s1.
  sync_cons_step CIdle (None : option WorkloadEntry) (set_head 1 s1).
  apply nsteps_O.
Qed.

Lemma ring_sync_fifo_witness :
  [zero_entry] `prefix_of` [zero_entry] ∧ (CIdle = CIdle → Z.of_nat (length [zero_entry]) = 1).
Proof. exact (ring_sync_fifo 11 _ (sync_trace zero_entry) ltac:(lia)). Defined.

(** One backend pushes [e] into an empty ring; the consumer drains between the
    claim and the copy. *)
Lemma lost_trace s0 e :
  head (ring s0) = 0 → tail (ring s0) = 0 →
  rtc step (mkConfig s0 ∅ CIdle [] [])
    (mkConfig (add_written (set_slot 0 e (set_head 1 (set_tail 1 s0)))) ∅ CIdle [e]
      [ring_entry s0 0]).
Proof.
  intros Hh Ht.
  eapply rtc_l; [apply (step_begin _ 0%nat e), lookup_empty|]. simpl.
  eapply rtc_l; [apply (step_producer _ 0%nat (PReadTail e) (PReadHead e 0) s0);
    [apply lookup_insert_eq|simpl; by rewrite Ht]|]. simpl. rewrite insert_insert_eq.
  eapply rtc_l; [apply (step_producer _ 0%nat (PReadHead e 0) (PCas e 0) s0);
    [apply lookup_insert_eq|simpl; by rewrite Hh]|]. simpl. rewrite insert_insert_eq.
  eapply rtc_l; [apply (step_producer _ 0%nat (PCas e 0) (PCopy e 0) (set_tail 1 s0));
    [apply lookup_insert_eq|simpl; by rewrite Ht]|]. simpl. rewrite insert_insert_eq.
  eapply rtc_l; [apply (step_consumer _ (CReadTail 0) None (set_tail 1 s0)); simpl; by rewrite Hh|].
  eapply rtc_l; [apply (step_consumer _ (CLoop 0 1) None (set_tail 1 s0)); done|].
  eapply rtc_l; [apply (step_consumer _ (CLoop 1 1) (Some (ring_entry s0 0)) (set_tail 1 s0)); done|].
  eapply rtc_l; [apply (step_consumer _ CIdle None (set_head 1 (set_tail 1 s0))); done|]. simpl.
  eapply rtc_l; [apply (step_producer _ 0%nat (PCopy e 0) PCount
    (set_slot 0 e (set_head 1 (set_tail 1 s0)))); [apply lookup_insert_eq|done]|].
  simpl. rewrite insert_insert_eq.
  eapply rtc_l; [apply (step_producer _ 0%nat PCount PDone
    (add_written (set_slot 0 e (set_head 1 (set_tail 1 s0))))); [apply lookup_insert_eq|done]|].
  simpl. rewrite insert_insert_eq.
  eapply rtc_l; [apply (step_return _ 0%nat), lookup_insert_eq|]. simpl.
  rewrite delete_insert_eq, delete_empty. apply rtc_refl.
Qed.

(** C33.  Without that restriction an entry can be lost: the
    consumer may process a position whose copy has not happened.  The push is
    counted as written, the queue ends empty, and the consumer has processed a
    zeroed entry instead of the one pushed. *)
Theorem ring_entry_lost e :
  ∃ c, rtc step initial c ∧ prods c = ∅ ∧ cons c = CIdle ∧
    total_written (shm c) = 1 ∧ total_dropped (shm c) = 0 ∧
    claims c = [e] ∧ seen c = [zero_entry] ∧ ring_queue (shm c) = [].
Proof.
  eexists. split; [apply (lost_trace autoindex_shmem_init e); done|]. by split_and!.
Qed.
