(* ===== verification/Nodes.v ===== *)
(** * Expression and plan nodes

    The node types the capture hook and [setrefs.c] look at, with the fields
    they read.  An expression node the walkers treat uniformly is an [ENode]:
    its tag stands for the node type and its scalar fields, and its arguments
    are the children [expression_tree_walker] visits, in its order (a [List]
    of clauses is such a node as well).  A null [Const] has no value.  [NULL] pointers to nodes are [None]. *)
From stdpp Require Import base list gmap.
From Stdlib Require Import ZArith.
From S2P Require Import Prelude Float64.

#[local] Set Warnings "-register-all".

Definition INNER_VAR : Z := -1.

Definition OUTER_VAR : Z := -2.

Definition INDEX_VAR : Z := -3.

Definition ROWID_VAR : Z := -4.

Definition IS_SPECIAL_VARNO (varno : Z) : bool := varno <? 0.

Inductive VarReturningType : Type :=
| VAR_RETURNING_DEFAULT
| VAR_RETURNING_OLD
| VAR_RETURNING_NEW.

Inductive ParamKind : Type :=
| PARAM_EXTERN
| PARAM_EXEC
| PARAM_SUBLINK
| PARAM_MULTIEXPR.

(** [Relids]: a set of range table indexes. *)
Abbreviation Relids := (gset nat).

Record Var : Type := mkVar {
  varno : Z;
  varattno : Z;
  varnullingrels : Relids;
  varlevelsup : Z;
  varreturningtype : VarReturningType;
  varnosyn : Z;
  varattnosyn : Z
}.

Inductive expr : Type :=
| EVar (v : Var)
| EConst (value : option Z)
| EParam (paramkind : ParamKind) (paramid : Z)
| ECurrentOfExpr (cvarno : Z)
| EAggref (aggfnoid aggsplit agglevelsup : Z) (aggdirectargs args aggfilter : list expr)
| EGroupingFunc (agglevelsup : Z) (args : list expr)
| EWindowFunc (args : list expr)
| EPlaceHolderVar (phid : Z) (phlevelsup : Z) (phnullingrels : Relids) (phexpr : expr)
| EAlternativeSubPlan (subplans : list expr)
| ENode (tag : Z) (args : list expr).

Record TargetEntry : Type := mkTargetEntry {
  te_expr : expr;
  resno : Z;
  ressortgroupref : Z;
  resjunk : bool
}.

Inductive RTEKind : Type :=
| RTE_RELATION | RTE_SUBQUERY | RTE_JOIN | RTE_FUNCTION | RTE_TABLEFUNC | RTE_VALUES
| RTE_CTE | RTE_NAMEDTUPLESTORE | RTE_GRAPH_TABLE | RTE_RESULT | RTE_GROUP.

Record RangeTblEntry : Type := mkRTE { rtekind : RTEKind; rte_relid : Z }.

(** Plan node types: the tag with the fields of its own struct. *)
Inductive scan_tag : Type :=
| T_SeqScan | T_IndexScan | T_IndexOnlyScan | T_BitmapHeapScan | T_TidScan | T_TidRangeScan.

Inductive join_tag : Type := T_HashJoin | T_MergeJoin | T_NestLoop.

Inductive sort_tag : Type := T_Sort | T_IncrementalSort.

Inductive plan_node : Type :=
| NScan (tag : scan_tag) (scanrelid : Z)
| NJoin (tag : join_tag) (joinqual : option expr)
| NSort (tag : sort_tag) (sortColIdx : list Z)
| NOther (tag : Z).

(** [targetlist] entries may be [NULL]: the code tests for it. *)
Inductive plan : Type :=
| Plan (node : plan_node) (total_cost : double) (targetlist : list (option TargetEntry))
    (qual : option expr) (lefttree righttree : option plan).

Definition plan_total_cost (p : plan) : double := let 'Plan _ c _ _ _ _ := p in c.

Inductive CmdType : Type :=
| CMD_UNKNOWN | CMD_SELECT | CMD_UPDATE | CMD_INSERT | CMD_DELETE | CMD_MERGE | CMD_UTILITY
| CMD_NOTHING.

Record PlannedStmt : Type := mkPlannedStmt {
  commandType : CmdType;
  queryId : Z;
  planTree : option plan;
  rtable : list RangeTblEntry
}.

(** Induction over expressions with hypotheses for the arguments. *)
Section expr_ind.
Variable P : expr → Prop.
Hypothesis HVar : ∀ v, P (EVar v).
Hypothesis HConst : ∀ c, P (EConst c).
Hypothesis HParam : ∀ k p, P (EParam k p).
Hypothesis HCurrent : ∀ v, P (ECurrentOfExpr v).
Hypothesis HAggref : ∀ f s l d args fl, Forall P d → Forall P args → Forall P fl →
  P (EAggref f s l d args fl).
Hypothesis HGrouping : ∀ l args, Forall P args → P (EGroupingFunc l args).
Hypothesis HWindow : ∀ args, Forall P args → P (EWindowFunc args).
Hypothesis HPhv : ∀ id l n e, P e → P (EPlaceHolderVar id l n e).
Hypothesis HAlt : ∀ args, Forall P args → P (EAlternativeSubPlan args).
Hypothesis HNode : ∀ t args, Forall P args → P (ENode t args).

Fixpoint expr_nested_ind (e : expr) : P e :=
  let all := fix all (l : list expr) : Forall P l :=
    match l with
    | [] => Forall_nil_2 P
    | x :: l' => Forall_cons_2 P x l' (expr_nested_ind x) (all l')
    end in
  match e with
  | EVar v => HVar v
  | EConst c => HConst c
  | EParam k p => HParam k p
  | ECurrentOfExpr v => HCurrent v
  | EAggref f s l d args fl => HAggref f s l d args fl (all d) (all args) (all fl)
  | EGroupingFunc l args => HGrouping l args (all args)
  | EWindowFunc args => HWindow args (all args)
  | EPlaceHolderVar id l n e => HPhv id l n e (expr_nested_ind e)
  | EAlternativeSubPlan args => HAlt args (all args)
  | ENode t args => HNode t args (all args)
  end.
End expr_ind.

(** Induction over plan trees with hypotheses for the children. *)
Section plan_ind.
Variable P : plan → Prop.
Definition oP (o : option plan) : Prop := match o with Some p => P p | None => True end.
Hypothesis HPlan : ∀ n c tl q l r, oP l → oP r → P (Plan n c tl q l r).

Fixpoint plan_nested_ind (p : plan) : P p :=
  match p with
  | Plan n c tl q l r =>
      HPlan n c tl q l r
        (match l return oP l with Some p => plan_nested_ind p | None => I end)
        (match r return oP r with Some p => plan_nested_ind p | None => I end)
  end.
End plan_ind.
