(* ===== verification/Capture.v ===== *)
(** * Workload capture

    [workload_capture.c]: the [ExecutorEnd] hook, the plan-tree walker and the
    extraction of columns from expressions, with [pull_var_clause] of
    [optimizer/util/var.c].  A store outside an array of the entry has the
    outcome [ErrUB]; the theorems show it never happens.  The reference the
    walker is compared with ([plan_columns]) collects columns in unbounded
    lists. *)
From stdpp Require Import base tactics list strings.
From Stdlib Require Import ZArith Lia.
From S2P Require Import Prelude Float64 AutoIndexTypes Nodes RingBuffer.

(** ** pull_var_clause *)

Definition PVC_INCLUDE_AGGREGATES : Z := 1.

Definition PVC_RECURSE_AGGREGATES : Z := 2.

Definition PVC_INCLUDE_WINDOWFUNCS : Z := 4.

Definition PVC_RECURSE_WINDOWFUNCS : Z := 8.

Definition PVC_INCLUDE_PLACEHOLDERS : Z := 16.

Definition PVC_RECURSE_PLACEHOLDERS : Z := 32.

(** [flags & bit] as a truth value. *)
Definition flag_set (flags bit : Z) : bool := negb (Z.land flags bit =? 0).

(** The walker appends to the list in its context.  [walk_args] is
    [expression_tree_walker] on the children of a node. *)
Fixpoint pull_var_clause_walker (flags : Z) (node : expr) (varlist : list expr) :
    result (list expr) :=
  let walk_args := fix walk_args (args : list expr) (varlist : list expr) :=
    match args with
    | [] => Ok varlist
    | a :: args' => vl ← pull_var_clause_walker flags a varlist; walk_args args' vl
    end in
  match node with
  | EVar v =>
      if negb (varlevelsup v =? 0) then Err (ErrReport "Upper-level Var found where not expected")
      else Ok (varlist ++ [node])
  | EAggref _ _ agglevelsup aggdirectargs args aggfilter =>
      if negb (agglevelsup =? 0) then Err (ErrReport "Upper-level Aggref found where not expected")
      else if flag_set flags PVC_INCLUDE_AGGREGATES then Ok (varlist ++ [node])
      else if flag_set flags PVC_RECURSE_AGGREGATES then vl ← walk_args aggdirectargs varlist; vl ← walk_args args vl; walk_args aggfilter vl
      else Err (ErrReport "Aggref found where not expected")
  | EGroupingFunc agglevelsup args =>
      if negb (agglevelsup =? 0) then Err (ErrReport "Upper-level GROUPING found where not expected")
      else if flag_set flags PVC_INCLUDE_AGGREGATES then Ok (varlist ++ [node])
      else if flag_set flags PVC_RECURSE_AGGREGATES then walk_args args varlist
      else Err (ErrReport "GROUPING found where not expected")
  | EWindowFunc args =>
      if flag_set flags PVC_INCLUDE_WINDOWFUNCS then Ok (varlist ++ [node])
      else if flag_set flags PVC_RECURSE_WINDOWFUNCS then walk_args args varlist
      else Err (ErrReport "WindowFunc found where not expected")
  | EPlaceHolderVar _ phlevelsup _ phexpr =>
      if negb (phlevelsup =? 0)
      then Err (ErrReport "Upper-level PlaceHolderVar found where not expected")
      else if flag_set flags PVC_INCLUDE_PLACEHOLDERS then Ok (varlist ++ [node])
      else if flag_set flags PVC_RECURSE_PLACEHOLDERS
      then pull_var_clause_walker flags phexpr varlist
      else Err (ErrReport "PlaceHolderVar found where not expected")
  | EConst _ | EParam _ _ | ECurrentOfExpr _ => Ok varlist
  | EAlternativeSubPlan args => walk_args args varlist
  | ENode _ args => walk_args args varlist
  end.

Definition pull_var_clause (node : option expr) (flags : Z) : result (list expr) :=
  match node with
  | None => Ok []
  | Some n => pull_var_clause_walker flags n []
  end.

(** ** Extraction of columns *)

(** The pointers [attnums], [relids] and [count] a caller passes down. *)
Record colbuf : Type := mkColbuf {
  cb_attnums : list Z;
  cb_relids : list Z;
  cb_count : nat
}.

Definition is_relation (rte : RangeTblEntry) : bool :=
  match rtekind rte with RTE_RELATION => true | _ => false end.

(** The body of the [foreach] loop; [continue] returns the buffer unchanged. *)
Definition extract_one (rtable : list RangeTblEntry) (max_count : nat) (cb : colbuf)
    (node : expr) : result colbuf :=
  match node with
  | EVar var =>
      let varno := u32 (varno var) in
      if (varno <=? 0) || (Z.of_nat (length rtable) <? varno) then Ok cb
      else match rtable !! Z.to_nat (varno - 1) with
      | None => Err ErrUB
      | Some rte =>
          if negb (is_relation rte) then Ok cb
          else if rte_relid rte <? FirstNormalObjectId then Ok cb
          else if (cb_count cb <? max_count)%nat then
            attnums ← array_write (cb_attnums cb) (cb_count cb) (varattno var);
            relids ← array_write (cb_relids cb) (cb_count cb) (rte_relid rte);
            Ok (mkColbuf attnums relids (S (cb_count cb)))
          else Ok cb
      end
  | _ => Ok cb
  end.

Definition extract_vars_from_expr (node : option expr) (rtable : list RangeTblEntry)
    (cb : colbuf) (max_count : nat) : result colbuf :=
  match node with
  | None => Ok cb
  | Some _ =>
      vars ← pull_var_clause node (Z.lor PVC_RECURSE_AGGREGATES PVC_RECURSE_PLACEHOLDERS);
      rfold (extract_one rtable max_count) vars cb
  end.

(** ** The plan-tree walker *)

Definition pred_buf (e : WorkloadEntry) : colbuf :=
  mkColbuf (pred_attnums e) (pred_relids e) (n_pred e).

Definition sort_buf (e : WorkloadEntry) : colbuf :=
  mkColbuf (sort_attnums e) (sort_relids e) (n_sort e).

Definition join_buf (e : WorkloadEntry) : colbuf :=
  mkColbuf (join_attnums e) (join_relids e) (n_join e).

Definition set_pred (e : WorkloadEntry) (b : colbuf) : WorkloadEntry :=
  mkWorkloadEntry (query_hash e) (relids e) (cb_attnums b) (cb_relids b)
    (sort_attnums e) (sort_relids e) (join_attnums e) (join_relids e)
    (n_rels e) (cb_count b) (n_sort e) (n_join e) (plan_cost e) (actual_ms e) (ts e).

Definition set_sort (e : WorkloadEntry) (b : colbuf) : WorkloadEntry :=
  mkWorkloadEntry (query_hash e) (relids e) (pred_attnums e) (pred_relids e)
    (cb_attnums b) (cb_relids b) (join_attnums e) (join_relids e)
    (n_rels e) (n_pred e) (cb_count b) (n_join e) (plan_cost e) (actual_ms e) (ts e).

Definition set_join (e : WorkloadEntry) (b : colbuf) : WorkloadEntry :=
  mkWorkloadEntry (query_hash e) (relids e) (pred_attnums e) (pred_relids e)
    (sort_attnums e) (sort_relids e) (cb_attnums b) (cb_relids b)
    (n_rels e) (n_pred e) (n_sort e) (cb_count b) (plan_cost e) (actual_ms e) (ts e).

Definition set_rels (e : WorkloadEntry) (rs : list Z) (n : nat) : WorkloadEntry :=
  mkWorkloadEntry (query_hash e) rs (pred_attnums e) (pred_relids e)
    (sort_attnums e) (sort_relids e) (join_attnums e) (join_relids e)
    n (n_pred e) (n_sort e) (n_join e) (plan_cost e) (actual_ms e) (ts e).

(** The body of the loop over the sort columns. *)
Definition sort_column (rtable : list RangeTblEntry) (targetlist : list (option TargetEntry))
    (b : colbuf) (attno : Z) : result colbuf :=
  if (0 <? attno) && (attno <=? Z.of_nat (length targetlist)) then
    match targetlist !! Z.to_nat (attno - 1) with
    | None => Err ErrUB
    | Some None => Ok b
    | Some (Some tle) =>
        match te_expr tle with
        | EVar var =>
            let varno := u32 (varno var) in
            if (0 <? varno) && (varno <=? Z.of_nat (length rtable)) then
              match rtable !! Z.to_nat (varno - 1) with
              | None => Err ErrUB
              | Some rte =>
                  if is_relation rte && (FirstNormalObjectId <=? rte_relid rte) then
                    attnums ← array_write (cb_attnums b) (cb_count b) (varattno var);
                    relids ← array_write (cb_relids b) (cb_count b) (rte_relid rte);
                    Ok (mkColbuf attnums relids (S (cb_count b)))
                  else Ok b
              end
            else Ok b
        | _ => Ok b
        end
    end
  else Ok b.

(** [for (i = 0; i < sort->numCols && entry->n_sort < AUTOINDEX_MAX_COLS; i++)] *)
Fixpoint sort_columns (rtable : list RangeTblEntry) (targetlist : list (option TargetEntry))
    (sortColIdx : list Z) (b : colbuf) : result colbuf :=
  match sortColIdx with
  | [] => Ok b
  | attno :: rest =>
      if (cb_count b <? AUTOINDEX_MAX_COLS)%nat then
        b' ← sort_column rtable targetlist b attno;
        sort_columns rtable targetlist rest b'
      else Ok b
  end.

(** The first switch: predicate, join and sort columns of one node. *)
Definition walk_columns (rtable : list RangeTblEntry) (node : plan_node)
    (targetlist : list (option TargetEntry)) (qual : option expr) (entry : WorkloadEntry) :
    result WorkloadEntry :=
  match node with
  | NScan _ _ =>
      b ← extract_vars_from_expr qual rtable (pred_buf entry) AUTOINDEX_MAX_COLS;
      Ok (set_pred entry b)
  | NJoin _ joinqual =>
      b ← extract_vars_from_expr joinqual rtable (join_buf entry) AUTOINDEX_MAX_COLS;
      Ok (set_join entry b)
  | NSort _ sortColIdx =>
      b ← sort_columns rtable targetlist sortColIdx (sort_buf entry);
      Ok (set_sort entry b)
  | NOther _ =>
      b ← extract_vars_from_expr qual rtable (pred_buf entry) AUTOINDEX_MAX_COLS;
      Ok (set_pred entry b)
  end.

(** The second switch: the relation a scan node reads. *)
Definition walk_relids (rtable : list RangeTblEntry) (node : plan_node) (entry : WorkloadEntry) :
    result WorkloadEntry :=
  match node with
  | NScan _ scanrelid0 =>
      let scanrelid := u32 scanrelid0 in
      if (0 <? scanrelid) && (scanrelid <=? Z.of_nat (length rtable)) then
        match rtable !! Z.to_nat (scanrelid - 1) with
        | None => Err ErrUB
        | Some rte =>
            if is_relation rte && (FirstNormalObjectId <=? rte_relid rte) &&
               (n_rels entry <? AUTOINDEX_MAX_RELS)%nat then
              let dup := existsb (Z.eqb (rte_relid rte)) (take (n_rels entry) (relids entry)) in
              if dup then Ok entry
              else
                rs ← array_write (relids entry) (n_rels entry) (rte_relid rte);
                Ok (set_rels entry rs (S (n_rels entry)))
            else Ok entry
        end
      else Ok entry
  | _ => Ok entry
  end.

Fixpoint walk_plan_tree (rtable : list RangeTblEntry) (p : plan) (entry : WorkloadEntry) :
    result WorkloadEntry :=
  match p with
  | Plan node _ targetlist qual lefttree righttree =>
      e1 ← walk_columns rtable node targetlist qual entry;
      e2 ← walk_relids rtable node e1;
      e3 ← match lefttree with Some l => walk_plan_tree rtable l e2 | None => Ok e2 end;
      match righttree with Some r => walk_plan_tree rtable r e3 | None => Ok e3 end
  end.

(** ** The hook *)

(** What the hook can reach: the shared segment (if attached) and the executor
    state the previous hook or [standard_ExecutorEnd] works on. *)
Record hook_state (X : Type) : Type := mkHookState {
  hk_shmem : option AutoIndexShmemHeader;
  hk_exec : X
}.

Arguments mkHookState {X}.
Arguments hk_shmem {X}.
Arguments hk_exec {X}.

(** The extraction part: [Ok None] when nothing is to be captured. *)
Definition capture_entry (enabled : bool) (shmem : option AutoIndexShmemHeader) (now : Z)
    (queryDesc : option (option PlannedStmt)) : result (option WorkloadEntry) :=
  match shmem, queryDesc with
  | Some _, Some (Some pstmt) =>
      if enabled then
        match commandType pstmt, planTree pstmt with
        | CMD_UTILITY, _ | _, None => Ok None
        | _, Some tree =>
            let entry := zero_entry in
            let entry := mkWorkloadEntry (u64 (queryId pstmt)) (relids entry)
              (pred_attnums entry) (pred_relids entry) (sort_attnums entry) (sort_relids entry)
              (join_attnums entry) (join_relids entry) (n_rels entry) (n_pred entry)
              (n_sort entry) (n_join entry) (plan_total_cost tree) (actual_ms entry) now in
            entry ← walk_plan_tree (rtable pstmt) tree entry;
            if (0 <? n_pred entry)%nat || (0 <? n_sort entry)%nat || (0 <? n_join entry)%nat
            then Ok (Some entry) else Ok None
        end
      else Ok None
  | _, _ => Ok None
  end.

Definition autoindex_workload_capture_hook {X} (enabled : bool) (now : Z)
    (executor_end : M X unit) (queryDesc : option (option PlannedStmt)) :
    M (hook_state X) unit :=
  s ← get;
  captured ← lift_result (capture_entry enabled (hk_shmem s) now queryDesc);
  (λ s, let '(x, r) := executor_end (hk_exec s) in (mkHookState (hk_shmem s) x, r)) ;;
  match captured with
  | Some entry => modify (λ s, mkHookState (ring_buffer_push (hk_shmem s) entry) (hk_exec s))
  | None => mret tt
  end.

(** ** Reference: the columns of a plan, without limits *)

(** The user table column a Var refers to, as (relid, attnum). *)
Definition var_column (rtable : list RangeTblEntry) (v : Var) : option (Z * Z) :=
  let n := u32 (varno v) in
  if bool_decide (1 ≤ n ≤ Z.of_nat (length rtable)) then
    rte ← rtable !! Z.to_nat (n - 1);
    if is_relation rte && (FirstNormalObjectId <=? rte_relid rte)
    then Some (rte_relid rte, varattno v) else None
  else None.

Definition node_column (rtable : list RangeTblEntry) (node : expr) : option (Z * Z) :=
  match node with EVar v => var_column rtable v | _ => None end.

Definition clause_columns (rtable : list RangeTblEntry) (clause : option expr) :
    result (list (Z * Z)) :=
  vars ← pull_var_clause clause (Z.lor PVC_RECURSE_AGGREGATES PVC_RECURSE_PLACEHOLDERS);
  Ok (omap (M:=list) (node_column rtable) vars).

Definition sort_ref (rtable : list RangeTblEntry) (tl : list (option TargetEntry)) (attno : Z) :
    option (Z * Z) :=
  if bool_decide (1 ≤ attno) then
    otle ← tl !! Z.to_nat (attno - 1);
    tle ← otle;
    node_column rtable (te_expr tle)
  else None.

Definition scan_relation (rtable : list RangeTblEntry) (node : plan_node) : option Z :=
  match node with
  | NScan _ r =>
      let n := u32 r in
      if bool_decide (1 ≤ n ≤ Z.of_nat (length rtable)) then
        rte ← rtable !! Z.to_nat (n - 1);
        if is_relation rte && (FirstNormalObjectId <=? rte_relid rte)
        then Some (rte_relid rte) else None
      else None
  | _ => None
  end.

Record columns : Type := mkColumns {
  c_pred : list (Z * Z);
  c_sort : list (Z * Z);
  c_join : list (Z * Z);
  c_rels : list Z
}.

Definition cols_app (a b : columns) : columns :=
  mkColumns (c_pred a ++ c_pred b) (c_sort a ++ c_sort b) (c_join a ++ c_join b)
    (c_rels a ++ c_rels b).

Definition node_columns (rtable : list RangeTblEntry) (node : plan_node)
    (tl : list (option TargetEntry)) (qual : option expr) : result columns :=
  let rels := option_list (scan_relation rtable node) in
  match node with
  | NScan _ _ | NOther _ => cs ← clause_columns rtable qual; Ok (mkColumns cs [] [] rels)
  | NJoin _ jq => cs ← clause_columns rtable jq; Ok (mkColumns [] [] cs rels)
  | NSort _ idx => Ok (mkColumns [] (omap (sort_ref rtable tl) idx) [] rels)
  end.

(** Preorder: the node, its left subtree, its right subtree. *)
Fixpoint plan_columns (rtable : list RangeTblEntry) (p : plan) : result columns :=
  match p with
  | Plan node _ tl qual l r =>
      c1 ← node_columns rtable node tl qual;
      c2 ← match l with Some l => plan_columns rtable l | None => Ok (mkColumns [] [] [] []) end;
      c3 ← match r with Some r => plan_columns rtable r | None => Ok (mkColumns [] [] [] []) end;
      Ok (cols_app c1 (cols_app c2 c3))
  end.

(** The first eight distinct relations. *)
Definition add_rel (acc : list Z) (r : Z) : list Z :=
  if bool_decide (length acc < AUTOINDEX_MAX_RELS)%nat && bool_decide (r ∉ acc)
  then acc ++ [r] else acc.

(** What a reader of the entry sees. *)
Definition buf_cols (b : colbuf) : list (Z * Z) :=
  take (cb_count b) (zip (cb_relids b) (cb_attnums b)).

Definition entry_columns (e : WorkloadEntry) : columns :=
  mkColumns (buf_cols (pred_buf e)) (buf_cols (sort_buf e)) (buf_cols (join_buf e))
    (take (n_rels e) (relids e)).

Definition buf_wf (b : colbuf) : Prop :=
  length (cb_attnums b) = AUTOINDEX_MAX_COLS ∧ length (cb_relids b) = AUTOINDEX_MAX_COLS ∧
  (cb_count b ≤ AUTOINDEX_MAX_COLS)%nat.

Definition entry_wf (e : WorkloadEntry) : Prop :=
  buf_wf (pred_buf e) ∧ buf_wf (sort_buf e) ∧ buf_wf (join_buf e) ∧
  length (relids e) = AUTOINDEX_MAX_RELS ∧ (n_rels e ≤ AUTOINDEX_MAX_RELS)%nat.

(** The bounded view of unbounded columns [c] collected after [v]. *)
Definition extend (v c : columns) : columns :=
  mkColumns (take AUTOINDEX_MAX_COLS (c_pred v ++ c_pred c))
    (take AUTOINDEX_MAX_COLS (c_sort v ++ c_sort c))
    (take AUTOINDEX_MAX_COLS (c_join v ++ c_join c))
    (foldl add_rel (c_rels v) (c_rels c)).

(** The scalar fields the walker does not touch. *)
Definition same_header (e e' : WorkloadEntry) : Prop :=
  query_hash e' = query_hash e ∧ plan_cost e' = plan_cost e ∧
  actual_ms e' = actual_ms e ∧ ts e' = ts e.

(** The outcome of a walk that starts at [e]: the reference's error, or a
    well-formed entry that shows the bounded columns. *)
Definition walks_to (e : WorkloadEntry) (r : result columns) (w : result WorkloadEntry) : Prop :=
  match r with
  | Err m => w = Err m
  | Ok c => ∃ e', w = Ok e' ∧ entry_wf e' ∧ entry_columns e' = extend (entry_columns e) c ∧
              same_header e e'
  end.

(** A WindowFunc the walker meets: under anything but another one. *)
Fixpoint has_windowfunc (e : expr) : bool :=
  let any := fix any (l : list expr) : bool :=
    match l with [] => false | x :: l' => has_windowfunc x || any l' end in
  match e with
  | EWindowFunc _ => true
  | EVar _ | EConst _ | EParam _ _ | ECurrentOfExpr _ => false
  | EAggref _ _ _ direct args filter => any direct || any args || any filter
  | EGroupingFunc _ args | EAlternativeSubPlan args | ENode _ args => any args
  | EPlaceHolderVar _ _ _ e => has_windowfunc e
  end.

(** A query the hook looks at. *)
Definition captured_query (q : option (option PlannedStmt)) (pstmt : PlannedStmt) (tree : plan) :
    Prop :=
  q = Some (Some pstmt) ∧ planTree pstmt = Some tree ∧ commandType pstmt ≠ CMD_UTILITY.

(** A scan of user table 20000 with the filter [col2 = const]. *)
Definition example_rtable : list RangeTblEntry := [mkRTE RTE_RELATION 20000].

Definition example_var (attno : Z) : expr :=
  EVar (mkVar 1 attno ∅ 0 VAR_RETURNING_DEFAULT 1 attno).

Definition example_scan (filter : expr) : plan :=
  Plan (NScan T_SeqScan 1) (d_of_Z 500) [] (Some (ENode 0 [filter])) None None.

Definition example_stmt (tree : plan) : PlannedStmt :=
  mkPlannedStmt CMD_SELECT 7 (Some tree) example_rtable.

Definition example_shmem : AutoIndexShmemHeader := mkShmem 1 0 0 0 (mkRing 0 0 [zero_entry]).

(** ** The column buffers *)

Lemma buf_cols_length b : buf_wf b → length (buf_cols b) = cb_count b.
Proof.
  intros (? & ? & ?). unfold buf_cols. rewrite length_take, length_zip. lia.
Qed.

Lemma buf_full b x : buf_wf b → (cb_count b <? AUTOINDEX_MAX_COLS)%nat = false →
  take AUTOINDEX_MAX_COLS (buf_cols b ++ x) = buf_cols b.
Proof.
  intros Hwf Hc%Nat.ltb_ge. pose proof (buf_cols_length _ Hwf). destruct Hwf as (_ & _ & ?).
  rewrite take_app_le by lia. apply take_ge. lia.
Qed.

Lemma buf_room b : buf_wf b → take AUTOINDEX_MAX_COLS (buf_cols b ++ []) = buf_cols b.
Proof.
  intros Hwf. pose proof (buf_cols_length _ Hwf). destruct Hwf as (_ & _ & ?).
  rewrite app_nil_r. apply take_ge. lia.
Qed.

(** Storing a column at [count]. *)
Lemma buf_push b r a : buf_wf b → (cb_count b <? AUTOINDEX_MAX_COLS)%nat = true →
  ∃ b', (attnums ← array_write (cb_attnums b) (cb_count b) a;
         relids ← array_write (cb_relids b) (cb_count b) r;
         Ok (mkColbuf attnums relids (S (cb_count b)))) = Ok b' ∧
    buf_wf b' ∧ buf_cols b' = take AUTOINDEX_MAX_COLS (buf_cols b ++ [(r, a)]).
Proof.
  intros Hwf Hc%Nat.ltb_lt. pose proof (buf_cols_length _ Hwf) as Hl.
  destruct Hwf as (Ha & Hr & _).
  eexists. split; [by rewrite !array_write_ok by lia|]. split.
  - unfold buf_wf; simpl. rewrite !length_insert. lia.
  - rewrite (take_ge (_ ++ _)) by (rewrite length_app; simpl; lia).
    unfold buf_cols; simpl cb_count; simpl cb_relids; simpl cb_attnums.
    rewrite !take_zip, !take_insert_snoc by lia.
    by rewrite zip_with_app by (rewrite !length_take; lia).
Qed.

Lemma extract_one_spec rtable b node : buf_wf b →
  ∃ b', extract_one rtable AUTOINDEX_MAX_COLS b node = Ok b' ∧ buf_wf b' ∧
    buf_cols b' = take AUTOINDEX_MAX_COLS (buf_cols b ++ option_list (node_column rtable node)).
Proof.
  intros Hwf. assert (buf_cols b = take AUTOINDEX_MAX_COLS (buf_cols b ++ [])) as Hnil
    by (by rewrite buf_room).
  destruct node as [v| | | | | | | | |]; simpl; try (by exists b; eauto).
  unfold var_column.
  destruct (Z.leb_spec (u32 (varno v)) 0); simpl; [rewrite bool_decide_false by lia; eauto|].
  destruct (Z.ltb_spec (Z.of_nat (length rtable)) (u32 (varno v)));
    [rewrite bool_decide_false by lia; eauto|].
  rewrite bool_decide_true by lia.
  destruct (lookup_lt_is_Some_2 rtable (Z.to_nat (u32 (varno v) - 1))) as [rte ->]; [lia|]. simpl.
  destruct (is_relation rte); simpl; [|eauto].
  destruct (Z.ltb_spec (rte_relid rte) FirstNormalObjectId);
    [rewrite (proj2 (Z.leb_gt _ _)) by lia; eauto|rewrite (proj2 (Z.leb_le _ _)) by lia].
  destruct (cb_count b <? AUTOINDEX_MAX_COLS)%nat eqn:Hc; [by apply buf_push|].
  exists b. by rewrite buf_full.
Qed.

Lemma rfold_extract_spec rtable vars : ∀ b, buf_wf b →
  ∃ b', rfold (extract_one rtable AUTOINDEX_MAX_COLS) vars b = Ok b' ∧ buf_wf b' ∧
    buf_cols b' = take AUTOINDEX_MAX_COLS (buf_cols b ++ omap (node_column rtable) vars).
Proof.
  induction vars as [|v vars IH]; intros b Hwf; simpl.
  - exists b. by rewrite buf_room.
  - destruct (extract_one_spec rtable b v Hwf) as (b1 & -> & Hwf1 & E1). simpl.
    destruct (IH b1 Hwf1) as (b2 & -> & Hwf2 & E2).
    exists b2. split_and!; [done|done|]. rewrite E2, E1, take_take_app, <-app_assoc.
    by destruct (node_column rtable v).
Qed.

Lemma extract_vars_spec rtable clause b : buf_wf b →
  match clause_columns rtable clause with
  | Err m => extract_vars_from_expr clause rtable b AUTOINDEX_MAX_COLS = Err m
  | Ok cs => ∃ b', extract_vars_from_expr clause rtable b AUTOINDEX_MAX_COLS = Ok b' ∧
      buf_wf b' ∧ buf_cols b' = take AUTOINDEX_MAX_COLS (buf_cols b ++ cs)
  end.
Proof.
  intros Hwf. unfold extract_vars_from_expr, clause_columns.
  destruct clause as [n|]; [|simpl; exists b; by rewrite buf_room].
  destruct (pull_var_clause (Some n) _); simpl; [by apply rfold_extract_spec|done].
Qed.

Lemma sort_column_spec rtable tl b attno : buf_wf b →
  (cb_count b <? AUTOINDEX_MAX_COLS)%nat = true →
  ∃ b', sort_column rtable tl b attno = Ok b' ∧ buf_wf b' ∧
    buf_cols b' = take AUTOINDEX_MAX_COLS (buf_cols b ++ option_list (sort_ref rtable tl attno)).
Proof.
  intros Hwf Hc. assert (buf_cols b = take AUTOINDEX_MAX_COLS (buf_cols b ++ [])) as Hnil
    by (by rewrite buf_room).
  unfold sort_column, sort_ref.
  destruct (Z.ltb_spec 0 attno); simpl; [|rewrite bool_decide_false by lia; eauto].
  rewrite bool_decide_true by lia. destruct (Z.leb_spec attno (Z.of_nat (length tl))).
  2: { rewrite lookup_ge_None_2 by lia. eauto. }
  destruct (lookup_lt_is_Some_2 tl (Z.to_nat (attno - 1))) as [otle ->]; [lia|]. simpl.
  destruct otle as [tle|]; simpl; [|eauto].
  destruct (te_expr tle) as [v| | | | | | | | |]; simpl; try (by exists b; eauto).
  unfold var_column. destruct (Z.ltb_spec 0 (u32 (varno v))); simpl;
    [|rewrite bool_decide_false by lia; eauto].
  destruct (Z.leb_spec (u32 (varno v)) (Z.of_nat (length rtable)));
    [|rewrite bool_decide_false by lia; eauto].
  rewrite bool_decide_true by lia.
  destruct (lookup_lt_is_Some_2 rtable (Z.to_nat (u32 (varno v) - 1))) as [rte ->]; [lia|]. simpl.
  destruct (is_relation rte && _); [by apply buf_push|eauto].
Qed.

Lemma sort_columns_spec rtable tl idx : ∀ b, buf_wf b →
  ∃ b', sort_columns rtable tl idx b = Ok b' ∧ buf_wf b' ∧
    buf_cols b' = take AUTOINDEX_MAX_COLS (buf_cols b ++ omap (sort_ref rtable tl) idx).
Proof.
  induction idx as [|a idx IH]; intros b Hwf; simpl.
  - exists b. by rewrite buf_room.
  - destruct (cb_count b <? AUTOINDEX_MAX_COLS)%nat eqn:Hc.
    + destruct (sort_column_spec rtable tl b a Hwf Hc) as (b1 & -> & Hwf1 & E1). simpl.
      destruct (IH b1 Hwf1) as (b2 & -> & Hwf2 & E2).
      exists b2. split_and!; [done|done|]. rewrite E2, E1, take_take_app, <-app_assoc.
      by destruct (sort_ref rtable tl a).
    + exists b. split_and!; [done|done|]. by rewrite buf_full.
Qed.

(** ** The walker *)

Lemma entry_columns_pred e b : entry_columns (set_pred e b) =
  mkColumns (buf_cols b) (c_sort (entry_columns e)) (c_join (entry_columns e))
    (c_rels (entry_columns e)).
Proof. by destruct b. Qed.

Lemma entry_columns_sort e b : entry_columns (set_sort e b) =
  mkColumns (c_pred (entry_columns e)) (buf_cols b) (c_join (entry_columns e))
    (c_rels (entry_columns e)).
Proof. by destruct b. Qed.

Lemma entry_columns_join e b : entry_columns (set_join e b) =
  mkColumns (c_pred (entry_columns e)) (c_sort (entry_columns e)) (buf_cols b)
    (c_rels (entry_columns e)).
Proof. by destruct b. Qed.

(** The columns of one node, without its relation. *)
Lemma walk_columns_spec rtable node tl qual e : entry_wf e →
  match node_columns rtable node tl qual with
  | Err m => walk_columns rtable node tl qual e = Err m
  | Ok c => ∃ e', walk_columns rtable node tl qual e = Ok e' ∧ entry_wf e' ∧
      entry_columns e' = extend (entry_columns e) (mkColumns (c_pred c) (c_sort c) (c_join c) []) ∧
      same_header e e'
  end.
Proof.
  intros (Hp & Hs & Hj & Hr & Hn).
  pose proof (extract_vars_spec rtable qual (pred_buf e) Hp) as Eq.
  destruct node as [t r|t jq|t idx|t]; simpl.
  - destruct (clause_columns rtable qual) as [cs|m]; simpl; [|by rewrite Eq].
    destruct Eq as (b & -> & Hb & Eb). exists (set_pred e b).
    rewrite entry_columns_pred, Eb. unfold extend; simpl. rewrite !buf_room by done.
    split_and!; try done.
  - pose proof (extract_vars_spec rtable jq (join_buf e) Hj) as Ej.
    destruct (clause_columns rtable jq) as [cs|m]; simpl; [|by rewrite Ej].
    destruct Ej as (b & -> & Hb & Eb). exists (set_join e b).
    rewrite entry_columns_join, Eb. unfold extend; simpl. rewrite !buf_room by done.
    split_and!; try done.
  - destruct (sort_columns_spec rtable tl idx (sort_buf e) Hs) as (b & -> & Hb & Eb).
    exists (set_sort e b).
    rewrite entry_columns_sort, Eb. unfold extend; simpl. rewrite !buf_room by done.
    split_and!; try done.
  - destruct (clause_columns rtable qual) as [cs|m]; simpl; [|by rewrite Eq].
    destruct Eq as (b & -> & Hb & Eb). exists (set_pred e b).
    rewrite entry_columns_pred, Eb. unfold extend; simpl. rewrite !buf_room by done.
    split_and!; try done.
Qed.

Lemma existsb_elem_of r l : existsb (Z.eqb r) l = bool_decide (r ∈ l).
Proof.
  apply eq_bool_prop_intro. rewrite bool_decide_spec, Is_true_true, existsb_exists.
  split; [intros (x & Hx & ->%Z.eqb_eq); by apply list_elem_of_In|].
  intros Hr%list_elem_of_In. exists r. by rewrite Z.eqb_refl.
Qed.

(** The relation of one node. *)
Lemma walk_relids_spec rtable node e : entry_wf e →
  ∃ e', walk_relids rtable node e = Ok e' ∧ entry_wf e' ∧
    entry_columns e' =
      extend (entry_columns e) (mkColumns [] [] [] (option_list (scan_relation rtable node))) ∧
    same_header e e'.
Proof.
  intros Hwf. pose proof Hwf as (Hp & Hs & Hj & Hr & Hn).
  assert (∀ rs, extend (entry_columns e) (mkColumns [] [] [] rs) =
    mkColumns (buf_cols (pred_buf e)) (buf_cols (sort_buf e)) (buf_cols (join_buf e))
      (foldl add_rel (take (n_rels e) (relids e)) rs)) as Eext.
  { intros rs. unfold extend; simpl. by rewrite !buf_room. }
  assert (∃ e', Ok e = Ok e' ∧ entry_wf e' ∧
    entry_columns e' = extend (entry_columns e) (mkColumns [] [] [] []) ∧ same_header e e') as Hid.
  { exists e. by rewrite Eext. }
  destruct node as [t r|t jq|t idx|t]; simpl; try done.
  destruct (Z.ltb_spec 0 (u32 r)); simpl; [|by rewrite bool_decide_false by lia].
  destruct (Z.leb_spec (u32 r) (Z.of_nat (length rtable))); simpl;
    [|by rewrite bool_decide_false by lia].
  rewrite bool_decide_true by lia.
  destruct (lookup_lt_is_Some_2 rtable (Z.to_nat (u32 r - 1))) as [rte ->]; [lia|]. simpl.
  destruct (is_relation rte && _) eqn:Hrel; simpl; [|done].
  rewrite Eext. simpl. unfold add_rel. rewrite existsb_elem_of.
  assert (length (take (n_rels e) (relids e)) = n_rels e) as Hl by (rewrite length_take; lia).
  rewrite Hl. destruct (Nat.ltb_spec (n_rels e) AUTOINDEX_MAX_RELS); simpl;
    [rewrite (bool_decide_true (n_rels e < _)%nat) by done
    |rewrite (bool_decide_false (n_rels e < _)%nat) by lia; by exists e]. simpl.
  set (r' := rte_relid rte). set (acc := take (n_rels e) (relids e)).
  destruct (decide (r' ∈ acc)) as [Hin|Hin]; simpl.
  - rewrite (bool_decide_true (r' ∈ acc)), (bool_decide_false (r' ∉ acc)) by tauto. by exists e.
  - rewrite (bool_decide_false (r' ∈ acc)), (bool_decide_true (r' ∉ acc)) by tauto. simpl.
    rewrite array_write_ok by lia. simpl. eexists. split; [done|].
    unfold entry_columns; simpl. rewrite take_insert_snoc by lia. split_and!; try done.
    unfold entry_wf; simpl. rewrite length_insert. split_and!; try done; lia.
Qed.

Lemma extend_app v a b : extend (extend v a) b = extend v (cols_app a b).
Proof.
  unfold extend; simpl. rewrite !take_take_app, <-!app_assoc. by rewrite foldl_app.
Qed.

Lemma same_header_trans e1 e2 e3 : same_header e1 e2 → same_header e2 e3 → same_header e1 e3.
Proof. unfold same_header. intuition congruence. Qed.

(** An entry extended by nothing. *)
Lemma walks_to_nil e : entry_wf e → walks_to e (Ok (mkColumns [] [] [] [])) (Ok e).
Proof.
  intros (Hp & Hs & Hj & ?). exists e. split_and!; try done.
  unfold extend; simpl. by rewrite !buf_room.
Qed.

(** Sequencing two walks. *)
Lemma walks_to_bind e r1 w1 (r2 : result columns) (w2 : WorkloadEntry → result WorkloadEntry) :
  walks_to e r1 w1 → (∀ e', entry_wf e' → walks_to e' r2 (w2 e')) →
  walks_to e (c1 ← r1; c2 ← r2; Ok (cols_app c1 c2)) (w1 ≫= w2).
Proof.
  intros H1 H2. destruct r1 as [c1|m]; simpl in *; [|by rewrite H1].
  destruct H1 as (e1 & -> & Hwf1 & Ec1 & Hh1). simpl. specialize (H2 e1 Hwf1).
  destruct r2 as [c2|m]; simpl in *; [|done].
  destruct H2 as (e2 & -> & Hwf2 & Ec2 & Hh2). exists e2. split_and!; try done.
  - by rewrite Ec2, Ec1, extend_app.
  - by eapply same_header_trans.
Qed.

Lemma walk_node_spec rtable node tl qual e : entry_wf e →
  walks_to e (node_columns rtable node tl qual)
    (walk_columns rtable node tl qual e ≫= walk_relids rtable node).
Proof.
  intros Hwf. pose proof (walk_columns_spec rtable node tl qual e Hwf) as H1.
  destruct (node_columns rtable node tl qual) as [c|m] eqn:Ec; simpl; [|by rewrite H1].
  destruct H1 as (e1 & -> & Hwf1 & Ec1 & Hh1). simpl.
  destruct (walk_relids_spec rtable node e1 Hwf1) as (e2 & -> & Hwf2 & Ec2 & Hh2).
  exists e2. split_and!; try done; [|by eapply same_header_trans].
  rewrite Ec2, Ec1, extend_app. f_equal. destruct c as [p s j r]; unfold cols_app; simpl.
  rewrite !app_nil_r. f_equal.
  unfold node_columns in Ec. destruct node; simpl in *; simplify_eq; try done;
    destruct (clause_columns _ _); simpl in Ec; by simplify_eq.
Qed.

Lemma result_bind_assoc {A B C} (m : result A) (f : A → result B) (g : B → result C) :
  ((m ≫= f) ≫= g) = (m ≫= λ a, f a ≫= g).
Proof. by destruct m. Qed.

Lemma walk_plan_tree_spec rtable p : ∀ e, entry_wf e →
  walks_to e (plan_columns rtable p) (walk_plan_tree rtable p e).
Proof.
  induction p as [node c tl qual l r IHl IHr] using plan_nested_ind. intros e Hwf. simpl.
  assert (∀ o e', oP (λ p, ∀ e, entry_wf e →
      walks_to e (plan_columns rtable p) (walk_plan_tree rtable p e)) o → entry_wf e' →
    walks_to e' (match o with Some p => plan_columns rtable p | None => Ok (mkColumns [] [] [] []) end)
      (match o with Some p => walk_plan_tree rtable p e' | None => Ok e' end)) as Ho.
  { intros [p|] e' H He'; [by apply H|by apply walks_to_nil]. }
  pose proof (walks_to_bind e _ _
    (c2 ← match l with Some l => plan_columns rtable l | None => Ok (mkColumns [] [] [] []) end;
     c3 ← match r with Some r => plan_columns rtable r | None => Ok (mkColumns [] [] [] []) end;
     Ok (cols_app c2 c3))
    (λ e2, e3 ← match l with Some l => walk_plan_tree rtable l e2 | None => Ok e2 end;
       match r with Some r => walk_plan_tree rtable r e3 | None => Ok e3 end)
    (walk_node_spec rtable node tl qual e Hwf)) as H.
  rewrite result_bind_assoc in H.
  assert (walks_to e (node_columns rtable node tl qual ≫= λ c1,
    (c2 ← match l with Some l => plan_columns rtable l | None => Ok (mkColumns [] [] [] []) end;
     c3 ← match r with Some r => plan_columns rtable r | None => Ok (mkColumns [] [] [] []) end;
     Ok (cols_app c2 c3)) ≫= λ c23, Ok (cols_app c1 c23))
    (e1 ← walk_columns rtable node tl qual e; e2 ← walk_relids rtable node e1;
     e3 ← match l with Some l => walk_plan_tree rtable l e2 | None => Ok e2 end;
     match r with Some r => walk_plan_tree rtable r e3 | None => Ok e3 end)) as H'.
  { apply H. intros e' He'. apply walks_to_bind; auto. }
  revert H'. destruct (node_columns rtable node tl qual); simpl; [|done].
  destruct l as [l|]; simpl; [destruct (plan_columns rtable l); simpl; [|done]|];
    destruct r as [r|]; simpl; try done; destruct (plan_columns rtable r); done.
Qed.

(** ** Errors of the walker *)

Section pull_err.
Variable flags : Z.

(** What a property of every child's walk says of the loop over the children. *)
Lemma walk_args_err (args : list expr) (Q : pg_error → Prop) :
  Forall (λ a, ∀ vl m, pull_var_clause_walker flags a vl = Err m → Q m) args →
  ∀ vl m, rfold (λ vl a, pull_var_clause_walker flags a vl) args vl = Err m → Q m.
Proof.
  induction 1 as [|a args Ha _ IH]; intros vl m; simpl; [done|].
  destruct (pull_var_clause_walker flags a vl) as [vl'|m'] eqn:E; simpl; [apply IH|].
  intros [= <-]. eauto.
Qed.

Lemma walk_args_rfold args : ∀ vl,
  (fix walk_args (args : list expr) (varlist : list expr) :=
    match args with
    | [] => Ok varlist
    | a :: args' => vl ← pull_var_clause_walker flags a varlist; walk_args args' vl
    end) args vl = rfold (λ vl a, pull_var_clause_walker flags a vl) args vl.
Proof.
  induction args as [|a args IH]; intros vl; simpl; [done|].
  destruct (pull_var_clause_walker flags a vl); simpl; [apply IH|done].
Qed.

Lemma pull_var_clause_walker_err node : ∀ vl m,
  pull_var_clause_walker flags node vl = Err m → m ≠ ErrUB.
Proof.
  induction node as [v|c|k p|v|f s l d args fl IHd IH IHf|l args IH|args IH|id l n e IH|args IH|t args IH]
    using expr_nested_ind; intros vl m; simpl; rewrite ?walk_args_rfold;
    repeat case_match; try (by intros [= <-]);
    try first [by apply (walk_args_err args (λ m, m ≠ ErrUB))|by apply IH].
  destruct (rfold _ d vl) as [v1|m1] eqn:E1; simpl;
    [|intros [= <-]; by eapply (walk_args_err d (λ m, m ≠ ErrUB))].
  rewrite walk_args_rfold. destruct (rfold _ args v1) as [v2|m2] eqn:E2; simpl;
    [|intros [= <-]; by eapply (walk_args_err args (λ m, m ≠ ErrUB))].
  rewrite walk_args_rfold. by apply (walk_args_err fl (λ m, m ≠ ErrUB)).
Qed.

(** Without the flags that cover window functions, meeting one is an error. *)
Lemma pull_windowfunc node : flag_set flags PVC_INCLUDE_WINDOWFUNCS = false →
  flag_set flags PVC_RECURSE_WINDOWFUNCS = false →
  flag_set flags PVC_INCLUDE_AGGREGATES = false → flag_set flags PVC_INCLUDE_PLACEHOLDERS = false →
  has_windowfunc node = true → ∀ vl, ∃ m, pull_var_clause_walker flags node vl = Err m.
Proof.
  intros F1 F2 F3 F4.
  assert (∀ args, Forall (λ a, has_windowfunc a = true → ∀ vl, ∃ m,
      pull_var_clause_walker flags a vl = Err m) args →
    (fix any (l : list expr) : bool :=
      match l with [] => false | x :: l' => has_windowfunc x || any l' end) args = true →
    ∀ vl, ∃ m, rfold (λ vl a, pull_var_clause_walker flags a vl) args vl = Err m) as Hargs.
  { induction 1 as [|a args Ha _ IH]; intros Hany vl; [done|]. simpl.
    apply orb_prop in Hany as [Hw|Hw].
    - destruct (Ha Hw vl) as [m ->]. by exists m.
    - destruct (pull_var_clause_walker flags a vl) as [vl'|m]; simpl; [by apply IH|by exists m]. }
  induction node as [v|c|k p|v|f s l d args fl IHd IH IHf|l args IH|args IH|id l n e IH|args IH|t args IH]
    using expr_nested_ind; simpl; intros Hw vl; rewrite ?walk_args_rfold, ?F1, ?F2, ?F3, ?F4;
    try done; repeat case_match; eauto.
  rewrite !orb_true_iff in Hw.
  destruct (rfold _ d vl) as [v1|m1] eqn:E1; simpl; [|by exists m1]. rewrite walk_args_rfold.
  destruct (rfold _ args v1) as [v2|m2] eqn:E2; simpl; [|by exists m2]. rewrite walk_args_rfold.
  destruct Hw as [[Hw|Hw]|Hw].
  - destruct (Hargs d IHd Hw vl) as [m Hm]. congruence.
  - destruct (Hargs args IH Hw v1) as [m Hm]. congruence.
  - by apply Hargs.
Qed.

End pull_err.

Lemma plan_columns_err rtable p m : plan_columns rtable p = Err m → m ≠ ErrUB.
Proof.
  assert (∀ o m, clause_columns rtable o = Err m → m ≠ ErrUB) as Hc.
  { intros [e|] m'; [|done]. unfold clause_columns, pull_var_clause.
    destruct (pull_var_clause_walker _ e []) eqn:E; simpl; [done|]. intros [= <-].
    by eapply pull_var_clause_walker_err. }
  revert m. induction p as [node c tl qual l r IHl IHr] using plan_nested_ind. intros m. simpl.
  destruct (node_columns rtable node tl qual) as [c1|m1] eqn:E1; simpl.
  2: { intros [= <-]. destruct node; simpl in E1; simplify_eq;
         destruct (clause_columns _ _) eqn:E; simpl in E1; simplify_eq; eauto. }
  assert (∀ o m, oP (λ p, ∀ m, plan_columns rtable p = Err m → m ≠ ErrUB) o →
    match o with Some p => plan_columns rtable p | None => Ok (mkColumns [] [] [] []) end = Err m →
    m ≠ ErrUB) as Ho by (intros [p|] m' H; [apply H|done]).
  destruct (match l with Some _ => _ | None => _ end) as [c2|m2] eqn:El; simpl;
    [|intros [= <-]; eauto].
  destruct (match r with Some _ => _ | None => _ end) as [c3|m3] eqn:Er; simpl;
    [done|intros [= <-]; eauto].
Qed.

Lemma entry_wf_header h c t e : entry_wf e →
  entry_wf (mkWorkloadEntry h (relids e) (pred_attnums e) (pred_relids e) (sort_attnums e)
    (sort_relids e) (join_attnums e) (join_relids e) (n_rels e) (n_pred e) (n_sort e) (n_join e)
    c (actual_ms e) t).
Proof. done. Qed.

Lemma foldl_add_rel_nodup rs : ∀ acc, NoDup acc → (length acc ≤ AUTOINDEX_MAX_RELS)%nat →
  NoDup (foldl add_rel acc rs) ∧ (length (foldl add_rel acc rs) ≤ AUTOINDEX_MAX_RELS)%nat.
Proof.
  induction rs as [|r rs IH]; intros acc Hn Hl; simpl; [done|].
  unfold add_rel at 2 4. destruct (bool_decide _ && bool_decide _) eqn:E; [|by apply IH].
  apply andb_true_iff in E as [E1%bool_decide_eq_true E2%bool_decide_eq_true].
  apply IH; [|rewrite length_app; simpl; lia].
  apply NoDup_app. split_and!; [done| |apply NoDup_singleton].
  intros x Hx ->%list_elem_of_singleton. done.
Qed.

(** C4.  For every plan tree the walker, started on a zeroed
    entry, never stores outside an array; it either raises the error of
    [pull_var_clause], or returns an entry whose predicate, sort and join
    columns are the first sixteen of the columns the plan mentions (in
    preorder) and whose relations are the first eight distinct scanned user
    tables. *)
Theorem walk_plan_tree_correct rtable p :
  match plan_columns rtable p with
  | Err m => walk_plan_tree rtable p zero_entry = Err m ∧ m ≠ ErrUB
  | Ok c => ∃ e, walk_plan_tree rtable p zero_entry = Ok e ∧ entry_wf e ∧
      c_pred (entry_columns e) = take AUTOINDEX_MAX_COLS (c_pred c) ∧
      c_sort (entry_columns e) = take AUTOINDEX_MAX_COLS (c_sort c) ∧
      c_join (entry_columns e) = take AUTOINDEX_MAX_COLS (c_join c) ∧
      c_rels (entry_columns e) = foldl add_rel [] (c_rels c) ∧
      NoDup (c_rels (entry_columns e))
  end.
Proof.
  assert (entry_wf zero_entry) as Hwf by (repeat split; simpl; lia).
  pose proof (walk_plan_tree_spec rtable p zero_entry Hwf) as H.
  destruct (plan_columns rtable p) as [c|m] eqn:E; simpl in H.
  - destruct H as (e & -> & He & Ec & _). exists e. rewrite Ec. split_and!; try done.
    apply foldl_add_rel_nodup; [apply NoDup_nil_2|simpl; lia].
  - split; [done|]. by eapply plan_columns_err.
Qed.

(** Something is captured exactly when the plan mentions a column. *)
Lemma captured_iff e c : entry_wf e → entry_columns e = extend (mkColumns [] [] [] []) c →
  (0 <? n_pred e)%nat || (0 <? n_sort e)%nat || (0 <? n_join e)%nat =
  negb (bool_decide (c_pred c ++ c_sort c ++ c_join c = [])).
Proof.
  intros (Hp & Hs & Hj & _) Ec. unfold extend in Ec. simpl in Ec.
  assert (∀ b (l : list (Z * Z)), buf_wf b → buf_cols b = take AUTOINDEX_MAX_COLS l →
    (0 <? cb_count b)%nat = negb (bool_decide (l = []))) as Hb.
  { intros b l Hwf E. rewrite <-(buf_cols_length b Hwf), E. by destruct l. }
  injection Ec as Ep Es Ej _.
  change (n_pred e) with (cb_count (pred_buf e)). change (n_sort e) with (cb_count (sort_buf e)).
  change (n_join e) with (cb_count (join_buf e)).
  rewrite (Hb _ _ Hp Ep), (Hb _ _ Hs Es), (Hb _ _ Hj Ej).
  by destruct (c_pred c), (c_sort c), (c_join c).
Qed.

(** The extraction part of the hook. *)
Lemma capture_entry_spec now q pstmt tree sh :
  captured_query q pstmt tree →
  match plan_columns (rtable pstmt) tree with
  | Err m => capture_entry true (Some sh) now q = Err m
  | Ok c => ∃ entry,
      capture_entry true (Some sh) now q =
        Ok (if bool_decide (c_pred c ++ c_sort c ++ c_join c = []) then None else Some entry) ∧
      entry_wf entry ∧
      entry_columns entry = extend (mkColumns [] [] [] []) c ∧
      plan_cost entry = plan_total_cost tree ∧ query_hash entry = u64 (queryId pstmt) ∧
      ts entry = now
  end.
Proof.
  intros (-> & Etree & Hcmd). unfold capture_entry. rewrite Etree.
  set (e0 := mkWorkloadEntry _ _ _ _ _ _ _ _ _ _ _ _ _ _ _).
  assert (entry_wf e0) as Hwf by (repeat split; simpl; lia).
  pose proof (walk_plan_tree_spec (rtable pstmt) tree e0 Hwf) as H.
  set (w := walk_plan_tree _ _ _ ≫= _).
  assert (match commandType pstmt with CMD_UTILITY => Ok None | _ => w end = w) as Ew
    by (by destruct (commandType pstmt)).
  match goal with |- context [match commandType pstmt with CMD_UTILITY => _ | _ => _ end] =>
    rewrite Ew end.
  unfold w. clear Ew w. destruct (plan_columns (rtable pstmt) tree) as [c|m]; simpl in H; [|by rewrite H].
  destruct H as (e & -> & He & Ec & Eh1 & Eh2 & _ & Eh3). exists e. simpl.
  rewrite (captured_iff e c) by done. split_and!; try done. by destruct (bool_decide _).
Qed.


Lemma example_captured tree :
  captured_query (Some (Some (example_stmt tree))) (example_stmt tree) tree.
Proof. by repeat split. Qed.


(** A window function in a qualification the walker reads makes
    the hook fail before the executor's shutdown runs, whatever that does. *)
Theorem capture_hook_windowfunc {X} now (executor_end : M X unit) pstmt tag c tl qual l r s sh :
  planTree pstmt = Some (Plan (NOther tag) c tl (Some qual) l r) →
  commandType pstmt ≠ CMD_UTILITY → hk_shmem s = Some sh → has_windowfunc qual = true →
  ∃ m, autoindex_workload_capture_hook true now executor_end (Some (Some pstmt)) s = (s, Err m).
Proof.
  intros Et Hc Hs Hw.
  pose proof (capture_entry_spec now (Some (Some pstmt)) pstmt _ sh (conj eq_refl (conj Et Hc))) as H.
  destruct (pull_windowfunc (Z.lor PVC_RECURSE_AGGREGATES PVC_RECURSE_PLACEHOLDERS) qual
    eq_refl eq_refl eq_refl eq_refl Hw []) as [m Em].
  assert (plan_columns (rtable pstmt) (Plan (NOther tag) c tl (Some qual) l r) = Err m) as Ep
    by (simpl; unfold clause_columns, pull_var_clause; by rewrite Em).
  rewrite Ep in H. exists m.
  unfold autoindex_workload_capture_hook, get, lift_result, mbind, M_bind. by rewrite Hs, H.
Qed.

Lemma capture_hook_windowfunc_witness :
  let tree := Plan (NOther 0) d0 [] (Some (ENode 0 [EWindowFunc []])) None None in
  ∃ m, autoindex_workload_capture_hook true 99 (λ x : nat, (S x, Ok tt))
    (Some (Some (example_stmt tree))) (mkHookState (Some example_shmem) 0%nat)
  = (mkHookState (Some example_shmem) 0%nat, Err m).
Proof.
  intros tree. destruct (example_captured tree) as (_ & Et & Hc).
  exact (capture_hook_windowfunc 99 _ (example_stmt tree) 0 d0 [] (ENode 0 [EWindowFunc []])
    None None (mkHookState (Some example_shmem) 0%nat) example_shmem Et Hc eq_refl eq_refl).
Defined.
