(* ===== verification/SetRefs.v ===== *)
(** * Plan references

    [optimizer/plan/setrefs.c], the planner's last step: expressions of a plan
    node, written in terms of the query's range table, are rewritten to refer to
    what the node receives, the tuples of its child plans.  The hook of
    [Capture] reads plans only after this step.

    What the functions record on the side (opcodes, dependencies and the marks on
    used subplans) is left out; the expressions and plan fields they return are
    complete for the plan types of [plan_node_type]. *)
From Stdlib Require Import ZArith Lia Btauto.
From stdpp Require Import base tactics list gmap sets strings numbers.
From S2P Require Import Prelude Float64 Nodes.

#[local] Set Warnings "-register-all".

(** ** Planner data *)

Record MinMaxAggInfo : Type := mkMinMaxAggInfo {
  mm_aggfnoid : Z;
  mm_target : expr;
  mm_param : ParamKind * Z
}.

(** The cost fields of a [SubPlan]. *)
Record SubPlanCost : Type := mkSubPlanCost {
  disabled_nodes : Z;
  startup_cost : double;
  per_call_cost : double
}.

(** [init_set_params]: the [setParam]s of the init plans of this query and of
    every enclosing one; [subplan_cost]: the cost fields a [SubPlan] keeps. *)
Record PlannerInfo : Type := mkPlannerInfo {
  multiexpr_params : list (list (ParamKind * Z));
  minmax_aggs : list MinMaxAggInfo;
  lastPHId : Z;
  hasAlternativeSubPlans : bool;
  group_rtindex : nat;
  init_set_params : list (list Z);
  subplan_cost : expr → SubPlanCost
}.

Inductive NullingRelsMatch : Type := NRM_EQUAL | NRM_SUBSET | NRM_SUPERSET.

Record tlist_vinfo : Type := mkVinfo {
  vi_varno : Z;
  vi_varattno : Z;
  vi_resno : Z;
  vi_varnullingrels : Relids
}.

Record indexed_tlist : Type := mkIndexed {
  it_tlist : list TargetEntry;
  has_ph_vars : bool;
  has_non_vars : bool;
  it_vars : list tlist_vinfo
}.

(** ** Expressions *)

#[export] Instance VarReturningType_eq_dec : EqDecision VarReturningType.
Proof. solve_decision. Defined.

#[export] Instance ParamKind_eq_dec : EqDecision ParamKind.
Proof. solve_decision. Defined.

(** [equal]: the syntactic reference of a [Var] and the expression of a
    [PlaceHolderVar] are not compared. *)
Fixpoint equal (a b : expr) : bool :=
  let equal_list := fix equal_list (l l' : list expr) : bool :=
    match l, l' with
    | [], [] => true
    | x :: l, x' :: l' => equal x x' && equal_list l l'
    | _, _ => false
    end in
  match a, b with
  | EVar v, EVar v' =>
      (varno v =? varno v') && (varattno v =? varattno v') &&
      bool_decide (varnullingrels v = varnullingrels v') && (varlevelsup v =? varlevelsup v') &&
      bool_decide (varreturningtype v = varreturningtype v')
  | EConst c, EConst c' => bool_decide (c = c')
  | EParam k p, EParam k' p' => bool_decide (k = k') && (p =? p')
  | ECurrentOfExpr v, ECurrentOfExpr v' => v =? v'
  | EAggref f s l d args fl, EAggref f' s' l' d' args' fl' =>
      (f =? f') && (s =? s') && (l =? l') && equal_list d d' && equal_list args args' &&
      equal_list fl fl'
  | EGroupingFunc l args, EGroupingFunc l' args' => (l =? l') && equal_list args args'
  | EWindowFunc args, EWindowFunc args' => equal_list args args'
  | EPlaceHolderVar id l n _, EPlaceHolderVar id' l' n' _ =>
      (id =? id') && (l =? l') && bool_decide (n = n')
  | EAlternativeSubPlan args, EAlternativeSubPlan args' => equal_list args args'
  | ENode t args, ENode t' args' => (t =? t') && equal_list args args'
  | _, _ => false
  end.

Definition tlist_member (node : expr) (targetlist : list TargetEntry) : option TargetEntry :=
  list_find (λ tle, equal node (te_expr tle) = true) targetlist ≫= λ p, Some p.2.

Definition makeVar (varno varattno varlevelsup : Z) : Var :=
  mkVar varno varattno ∅ varlevelsup VAR_RETURNING_DEFAULT varno varattno.

Definition makeVarFromTargetEntry (varno : Z) (tle : TargetEntry) : Var :=
  makeVar varno (resno tle) 0.

(** [newvar->varnosyn = 0; newvar->varattnosyn = 0] *)
Definition never_plain (v : Var) : Var :=
  mkVar (varno v) (varattno v) (varnullingrels v) (varlevelsup v) (varreturningtype v) 0 0.

(** [if (newvar->varnosyn > 0) newvar->varnosyn += rtoffset], with a new reference *)
Definition moved_var (v : Var) (newvarno newattno rtoffset : Z) : Var :=
  mkVar newvarno newattno (varnullingrels v) (varlevelsup v) (varreturningtype v)
    (if 0 <? varnosyn v then varnosyn v + rtoffset else varnosyn v) (varattnosyn v).

(** *** Indexed target lists *)

Definition build_tlist_index (tlist : list TargetEntry) : indexed_tlist :=
  foldl (λ it tle,
    match te_expr tle with
    | EVar var => mkIndexed (it_tlist it) (has_ph_vars it) (has_non_vars it)
        (it_vars it ++ [mkVinfo (varno var) (varattno var) (resno tle) (varnullingrels var)])
    | EPlaceHolderVar _ _ _ _ => mkIndexed (it_tlist it) true (has_non_vars it) (it_vars it)
    | _ => mkIndexed (it_tlist it) (has_ph_vars it) true (it_vars it)
    end) (mkIndexed tlist false false []) tlist.

Definition build_tlist_index_other_vars (tlist : list TargetEntry) (ignore_rel : Z) :
    indexed_tlist :=
  foldl (λ it tle,
    match te_expr tle with
    | EVar var =>
        if negb (varno var =? ignore_rel) then
          mkIndexed (it_tlist it) (has_ph_vars it) (has_non_vars it)
            (it_vars it ++ [mkVinfo (varno var) (varattno var) (resno tle) (varnullingrels var)])
        else it
    | EPlaceHolderVar _ _ _ _ => mkIndexed (it_tlist it) true (has_non_vars it) (it_vars it)
    | _ => it
    end) (mkIndexed tlist false false []) tlist.

(** Are the nulling relations of the reference, [mine], compatible with [theirs]? *)
Definition nrm_ok (nrm_match : NullingRelsMatch) (mine theirs : Relids) : bool :=
  match nrm_match with
  | NRM_SUBSET => bool_decide (mine ⊆ theirs)
  | NRM_SUPERSET => bool_decide (theirs ⊆ mine)
  | NRM_EQUAL => bool_decide (theirs = mine)
  end.

Fixpoint search_vars (var : Var) (vars : list tlist_vinfo) (newvarno rtoffset : Z)
    (nrm_match : NullingRelsMatch) : result (option Var) :=
  match vars with
  | [] => Ok None
  | vinfo :: vars' =>
      if (vi_varno vinfo =? varno var) && (vi_varattno vinfo =? varattno var) then
        if negb ((varattno var <=? 0) ||
                 nrm_ok nrm_match (varnullingrels var) (vi_varnullingrels vinfo))
        then Err (ErrReport "wrong varnullingrels")
        else Ok (Some (moved_var var newvarno (vi_resno vinfo) rtoffset))
      else search_vars var vars' newvarno rtoffset nrm_match
  end.

Definition search_indexed_tlist_for_var (var : Var) (itlist : indexed_tlist)
    (newvarno rtoffset : Z) (nrm_match : NullingRelsMatch) : result (option Var) :=
  search_vars var (it_vars itlist) newvarno rtoffset nrm_match.

Fixpoint search_phvs (phid : Z) (phnullingrels : Relids) (tlist : list TargetEntry)
    (newvarno : Z) (nrm_match : NullingRelsMatch) : result (option Var) :=
  match tlist with
  | [] => Ok None
  | tle :: tlist' =>
      match te_expr tle with
      | EPlaceHolderVar subphid _ subrels _ =>
          if negb (phid =? subphid) then search_phvs phid phnullingrels tlist' newvarno nrm_match
          else if negb (nrm_ok nrm_match phnullingrels subrels)
          then Err (ErrReport "wrong phnullingrels")
          else Ok (Some (never_plain (makeVarFromTargetEntry newvarno tle)))
      | _ => search_phvs phid phnullingrels tlist' newvarno nrm_match
      end
  end.

Definition search_indexed_tlist_for_phv (phid : Z) (phnullingrels : Relids)
    (itlist : indexed_tlist) (newvarno : Z) (nrm_match : NullingRelsMatch) :
    result (option Var) :=
  search_phvs phid phnullingrels (it_tlist itlist) newvarno nrm_match.

Definition search_indexed_tlist_for_non_var (node : expr) (itlist : indexed_tlist)
    (newvarno : Z) : option Var :=
  match node with
  | EConst _ => None
  | _ =>
      tle ← tlist_member node (it_tlist itlist);
      Some (never_plain (makeVarFromTargetEntry newvarno tle))
  end.

Definition search_indexed_tlist_for_sortgroupref (node : expr) (sortgroupref : Z)
    (itlist : indexed_tlist) (newvarno : Z) : option Var :=
  '(_, tle) ← list_find (λ tle, (ressortgroupref tle =? sortgroupref) &&
                                equal node (te_expr tle) = true) (it_tlist itlist);
  Some (never_plain (makeVarFromTargetEntry newvarno tle)).

(** *** Special cases *)

Definition fix_param_node (root : PlannerInfo) (paramkind : ParamKind) (paramid : Z) :
    result expr :=
  match paramkind with
  | PARAM_MULTIEXPR =>
      let subqueryid := Z.shiftr paramid 16 in
      let colno := Z.land paramid 65535 in
      if (subqueryid <=? 0) || (Z.of_nat (length (multiexpr_params root)) <? subqueryid)
      then Err (ErrReport "unexpected PARAM_MULTIEXPR ID")
      else
        let params := default [] (multiexpr_params root !! Z.to_nat (subqueryid - 1)) in
        if (colno <=? 0) || (Z.of_nat (length params) <? colno)
        then Err (ErrReport "unexpected PARAM_MULTIEXPR ID")
        else match params !! Z.to_nat (colno - 1) with
             | Some (k, p) => Ok (EParam k p)
             | None => Err ErrUB
             end
  | _ => Ok (EParam paramkind paramid)
  end.

(** The position of the alternative that is kept; [best] is the position, the
    [disabled_nodes] and the cost of the best one so far. *)
Fixpoint choose_subplan (root : PlannerInfo) (num_exec : double) (i : nat) (subplans : list expr)
    (best : option (nat * Z * double)) : option (nat * Z * double) :=
  match subplans with
  | [] => best
  | curplan :: subplans' =>
      let cur := subplan_cost root curplan in
      let curcost := dadd (startup_cost cur) (dmul num_exec (per_call_cost cur)) in
      let better := match best with
        | None => true
        | Some (_, best_disabled, bestcost) =>
            (disabled_nodes cur <? best_disabled) ||
            ((disabled_nodes cur =? best_disabled) && dleb curcost bestcost)
        end in
      choose_subplan root num_exec (S i) subplans'
        (if better then Some (i, disabled_nodes cur, curcost) else best)
  end.

(** [fix_alternative_subplan], followed by what the caller made of the chosen
    alternative: [fixed] has the results for all of them. *)
Definition fix_alternative_subplan (root : PlannerInfo) (num_exec : double)
    (subplans : list expr) (fixed : list (result expr)) : result expr :=
  match choose_subplan root num_exec 0 subplans None with
  | Some (i, _, _) => default (Err ErrUB) (fixed !! i)
  | None => Err ErrUB
  end.

Definition find_minmax_agg_replacement_param (root : PlannerInfo) (aggfnoid : Z)
    (args : list expr) : option (ParamKind * Z) :=
  match args with
  | [curTarget] =>
      '(_, mminfo) ← list_find (λ mminfo, (mm_aggfnoid mminfo =? aggfnoid) &&
                                          equal (mm_target mminfo) curTarget = true)
        (minmax_aggs root);
      Some (mm_param mminfo)
  | _ => None
  end.

(** *** Scan level *)

Fixpoint fix_scan_expr_mutator (root : PlannerInfo) (rtoffset : Z) (num_exec : double)
    (node : expr) : result expr :=
  let mutate := fix_scan_expr_mutator root rtoffset num_exec in
  match node with
  | EVar var =>
      Ok (EVar (moved_var var (if IS_SPECIAL_VARNO (varno var) then varno var
                               else varno var + rtoffset) (varattno var) rtoffset))
  | EParam k p => fix_param_node root k p
  | EAggref f s l d args fl =>
      match find_minmax_agg_replacement_param root f args with
      | Some (k, p) => Ok (EParam k p)
      | None =>
          d ← mapM mutate d; args ← mapM mutate args; fl ← mapM mutate fl;
          Ok (EAggref f s l d args fl)
      end
  | ECurrentOfExpr cvarno => Ok (ECurrentOfExpr (cvarno + rtoffset))
  | EPlaceHolderVar _ _ _ phexpr => mutate phexpr
  | EAlternativeSubPlan subplans =>
      fix_alternative_subplan root num_exec subplans (map mutate subplans)
  | EConst c => Ok (EConst c)
  | EGroupingFunc l args => args ← mapM mutate args; Ok (EGroupingFunc l args)
  | EWindowFunc args => args ← mapM mutate args; Ok (EWindowFunc args)
  | ENode t args => args ← mapM mutate args; Ok (ENode t args)
  end.

(** The walker of the second branch only looks up opcodes. *)
Definition fix_scan_expr (root : PlannerInfo) (node : expr) (rtoffset : Z) (num_exec : double) :
    result expr :=
  if negb (rtoffset =? 0) || negb (bool_decide (multiexpr_params root = [])) ||
     negb (lastPHId root =? 0) || negb (match minmax_aggs root with [] => true | _ => false end) ||
     hasAlternativeSubPlans root
  then fix_scan_expr_mutator root rtoffset num_exec node
  else Ok node.

(** *** Joins *)

Record fix_join_expr_context : Type := mkJoinContext {
  jc_outer_itlist : option indexed_tlist;
  jc_inner_itlist : option indexed_tlist;
  jc_acceptable_rel : Z;
  jc_rtoffset : Z;
  jc_nrm_match : NullingRelsMatch;
  jc_num_exec : double
}.

(** A lookup that only happens where there is a list. *)
Definition in_itlist {A} (itlist : option indexed_tlist) (f : indexed_tlist → result (option A)) :
    result (option A) :=
  match itlist with Some it => f it | None => Ok None end.

Definition fix_join_var (context : fix_join_expr_context) (var : Var) : result expr :=
  _ ← (if bool_decide (varreturningtype var = VAR_RETURNING_DEFAULT) then Ok tt
       else if bool_decide (is_Some (jc_inner_itlist context)) ||
               bool_decide (jc_outer_itlist context = None) || (jc_acceptable_rel context =? 0)
       then Err (ErrReport "variable returning old/new found outside RETURNING list")
       else if negb (varno var =? jc_acceptable_rel context)
       then Err (ErrReport "wrong varno for variable returning old/new")
       else Ok tt);
  newvar ← in_itlist (jc_outer_itlist context) (λ it,
    search_indexed_tlist_for_var var it OUTER_VAR (jc_rtoffset context) (jc_nrm_match context));
  match newvar with
  | Some newvar => Ok (EVar newvar)
  | None =>
      newvar ← in_itlist (jc_inner_itlist context) (λ it,
        search_indexed_tlist_for_var var it INNER_VAR (jc_rtoffset context)
          (jc_nrm_match context));
      match newvar with
      | Some newvar => Ok (EVar newvar)
      | None =>
          if varno var =? jc_acceptable_rel context
          then Ok (EVar (moved_var var (varno var + jc_rtoffset context) (varattno var)
                           (jc_rtoffset context)))
          else Err (ErrReport "variable not found in subplan target lists")
      end
  end.

(** The [PlaceHolderVar] found below, if any. *)
Definition fix_join_phv (context : fix_join_expr_context) (phid : Z) (phnullingrels : Relids) :
    result (option Var) :=
  let look newvarno it :=
    if has_ph_vars it
    then search_indexed_tlist_for_phv phid phnullingrels it newvarno (jc_nrm_match context)
    else Ok None in
  newvar ← in_itlist (jc_outer_itlist context) (look OUTER_VAR);
  match newvar with
  | Some newvar => Ok (Some newvar)
  | None => in_itlist (jc_inner_itlist context) (look INNER_VAR)
  end.

(** A whole expression found below, if any. *)
Definition fix_join_non_var (context : fix_join_expr_context) (node : expr) : option Var :=
  let look newvarno it :=
    if has_non_vars it then search_indexed_tlist_for_non_var node it newvarno else None in
  match jc_outer_itlist context ≫= look OUTER_VAR with
  | Some newvar => Some newvar
  | None => jc_inner_itlist context ≫= look INNER_VAR
  end.

Fixpoint fix_join_expr_mutator (root : PlannerInfo) (context : fix_join_expr_context)
    (node : expr) : result expr :=
  let mutate := fix_join_expr_mutator root context in
  match node with
  | EVar var => fix_join_var context var
  | EPlaceHolderVar phid _ phnullingrels phexpr =>
      newvar ← fix_join_phv context phid phnullingrels;
      match newvar with
      | Some newvar => Ok (EVar newvar)
      | None => mutate phexpr
      end
  | _ =>
      match fix_join_non_var context node with
      | Some newvar => Ok (EVar newvar)
      | None =>
          match node with
          | EParam k p => fix_param_node root k p
          | EAlternativeSubPlan subplans =>
              fix_alternative_subplan root (jc_num_exec context) subplans (map mutate subplans)
          | EAggref f s l d args fl =>
              d ← mapM mutate d; args ← mapM mutate args; fl ← mapM mutate fl;
              Ok (EAggref f s l d args fl)
          | EGroupingFunc l args => args ← mapM mutate args; Ok (EGroupingFunc l args)
          | EWindowFunc args => args ← mapM mutate args; Ok (EWindowFunc args)
          | ENode t args => args ← mapM mutate args; Ok (ENode t args)
          | _ => Ok node
          end
      end
  end.

(** *** Single-input nodes *)

Record fix_upper_expr_context : Type := mkUpperContext {
  uc_subplan_itlist : indexed_tlist;
  uc_newvarno : Z;
  uc_rtoffset : Z;
  uc_nrm_match : NullingRelsMatch;
  uc_num_exec : double
}.

Definition fix_upper_var (context : fix_upper_expr_context) (var : Var) : result expr :=
  newvar ← search_indexed_tlist_for_var var (uc_subplan_itlist context) (uc_newvarno context)
    (uc_rtoffset context) (uc_nrm_match context);
  match newvar with
  | Some newvar => Ok (EVar newvar)
  | None => Err (ErrReport "variable not found in subplan target list")
  end.

Definition fix_upper_phv (context : fix_upper_expr_context) (phid : Z) (phnullingrels : Relids) :
    result (option Var) :=
  if has_ph_vars (uc_subplan_itlist context)
  then search_indexed_tlist_for_phv phid phnullingrels (uc_subplan_itlist context)
    (uc_newvarno context) (uc_nrm_match context)
  else Ok None.

Definition fix_upper_non_var (context : fix_upper_expr_context) (node : expr) : option Var :=
  if has_non_vars (uc_subplan_itlist context)
  then search_indexed_tlist_for_non_var node (uc_subplan_itlist context) (uc_newvarno context)
  else None.

Fixpoint fix_upper_expr_mutator (root : PlannerInfo) (context : fix_upper_expr_context)
    (node : expr) : result expr :=
  let mutate := fix_upper_expr_mutator root context in
  match node with
  | EVar var => fix_upper_var context var
  | EPlaceHolderVar phid _ phnullingrels phexpr =>
      newvar ← fix_upper_phv context phid phnullingrels;
      match newvar with
      | Some newvar => Ok (EVar newvar)
      | None => mutate phexpr
      end
  | _ =>
      match fix_upper_non_var context node with
      | Some newvar => Ok (EVar newvar)
      | None =>
          match node with
          | EParam k p => fix_param_node root k p
          | EAggref f s l d args fl =>
              match find_minmax_agg_replacement_param root f args with
              | Some (k, p) => Ok (EParam k p)
              | None =>
                  d ← mapM mutate d; args ← mapM mutate args; fl ← mapM mutate fl;
                  Ok (EAggref f s l d args fl)
              end
          | EAlternativeSubPlan subplans =>
              fix_alternative_subplan root (uc_num_exec context) subplans (map mutate subplans)
          | EGroupingFunc l args => args ← mapM mutate args; Ok (EGroupingFunc l args)
          | EWindowFunc args => args ← mapM mutate args; Ok (EWindowFunc args)
          | ENode t args => args ← mapM mutate args; Ok (ENode t args)
          | _ => Ok node
          end
      end
  end.

(** *** Window and aggregation conditions *)

Fixpoint fix_windowagg_condition_expr_mutator (itlist : indexed_tlist) (newvarno : Z)
    (node : expr) : result expr :=
  let mutate := fix_windowagg_condition_expr_mutator itlist newvarno in
  match node with
  | EWindowFunc _ =>
      match search_indexed_tlist_for_non_var node itlist newvarno with
      | Some newvar => Ok (EVar newvar)
      | None => Err (ErrReport "WindowFunc not found in subplan target lists")
      end
  | EAggref f s l d args fl =>
      d ← mapM mutate d; args ← mapM mutate args; fl ← mapM mutate fl;
      Ok (EAggref f s l d args fl)
  | EGroupingFunc l args => args ← mapM mutate args; Ok (EGroupingFunc l args)
  | EPlaceHolderVar id l n e => e ← mutate e; Ok (EPlaceHolderVar id l n e)
  | EAlternativeSubPlan args => args ← mapM mutate args; Ok (EAlternativeSubPlan args)
  | ENode t args => args ← mapM mutate args; Ok (ENode t args)
  | EVar _ | EConst _ | EParam _ _ | ECurrentOfExpr _ => Ok node
  end.

(** [remove_nulling_relids] without exceptions, on an expression without subqueries *)
Fixpoint remove_nulling_relids (removable : Relids) (node : expr) : expr :=
  let mutate := remove_nulling_relids removable in
  match node with
  | EVar var =>
      if (varlevelsup var =? 0) && negb (bool_decide (varnullingrels var ## removable))
      then EVar (mkVar (varno var) (varattno var) (varnullingrels var ∖ removable)
                   (varlevelsup var) (varreturningtype var) (varnosyn var) (varattnosyn var))
      else node
  | EPlaceHolderVar id l n e =>
      EPlaceHolderVar id l (if l =? 0 then n ∖ removable else n) (mutate e)
  | EAggref f s l d args fl => EAggref f s l (map mutate d) (map mutate args) (map mutate fl)
  | EGroupingFunc l args => EGroupingFunc l (map mutate args)
  | EWindowFunc args => EWindowFunc (map mutate args)
  | EAlternativeSubPlan args => EAlternativeSubPlan (map mutate args)
  | ENode t args => ENode t (map mutate args)
  | EConst _ | EParam _ _ | ECurrentOfExpr _ => node
  end.

Definition AGGSPLITOP_COMBINE : Z := 1.
Definition AGGSPLIT_INITIAL_SERIAL : Z := Z.lor 2 4.
Definition AGGSPLIT_FINAL_DESERIAL : Z := Z.lor 1 8.

Definition DO_AGGSPLIT_COMBINE (aggsplit : Z) : bool :=
  negb (Z.land aggsplit AGGSPLITOP_COMBINE =? 0).

Fixpoint convert_combining_aggrefs (node : expr) : expr :=
  match node with
  | EAggref f _ l d args fl =>
      let child_agg := EAggref f AGGSPLIT_INITIAL_SERIAL l d args fl in
      EAggref f AGGSPLIT_FINAL_DESERIAL l d [child_agg] []
  | EGroupingFunc l args => EGroupingFunc l (map convert_combining_aggrefs args)
  | EWindowFunc args => EWindowFunc (map convert_combining_aggrefs args)
  | EPlaceHolderVar id l n e => EPlaceHolderVar id l n (convert_combining_aggrefs e)
  | EAlternativeSubPlan args => EAlternativeSubPlan (map convert_combining_aggrefs args)
  | ENode t args => ENode t (map convert_combining_aggrefs args)
  | EVar _ | EConst _ | EParam _ _ | ECurrentOfExpr _ => node
  end.

(** ** Plans *)

Inductive JoinType : Type :=
| JOIN_INNER | JOIN_LEFT | JOIN_FULL | JOIN_RIGHT | JOIN_SEMI | JOIN_ANTI | JOIN_RIGHT_SEMI
| JOIN_RIGHT_ANTI | JOIN_UNIQUE_OUTER | JOIN_UNIQUE_INNER.

(** A list of clauses; [None] is [NIL]. *)
Abbreviation clauses := (option expr).

(** The plan types with the fields [set_plan_refs] touches. *)
Inductive plan_node_type : Type :=
| SeqScan (scanrelid : Z)
| SampleScan (scanrelid : Z) (tablesample : clauses)
| IndexScan (scanrelid : Z) (indexqual indexqualorig indexorderby indexorderbyorig : clauses)
| IndexOnlyScan (scanrelid : Z) (indexqual recheckqual indexorderby : clauses)
    (indextlist : list TargetEntry)
| BitmapIndexScan (scanrelid : Z) (indexqual indexqualorig : clauses)
| BitmapHeapScan (scanrelid : Z) (bitmapqualorig : clauses)
| TidScan (scanrelid : Z) (tidquals : clauses)
| TidRangeScan (scanrelid : Z) (tidrangequals : clauses)
| FunctionScan (scanrelid : Z) (functions : clauses)
| TableFuncScan (scanrelid : Z) (tablefunc : clauses)
| ValuesScan (scanrelid : Z) (values_lists : clauses)
| CteScan (scanrelid : Z)
| NamedTuplestoreScan (scanrelid : Z)
| WorkTableScan (scanrelid : Z)
| NestLoop (jointype : JoinType) (joinqual : clauses) (nestParams : list expr)
| MergeJoin (jointype : JoinType) (joinqual mergeclauses : clauses)
| HashJoin (jointype : JoinType) (joinqual hashclauses hashkeys : clauses)
| Gather (initParam : gset Z)
| GatherMerge (initParam : gset Z)
| Hash (hashkeys : clauses)
| Memoize (param_exprs : clauses)
| Material
| Sort (sortColIdx : list Z)
| IncrementalSort (sortColIdx : list Z)
| Unique
| SetOp
| LockRows (rowMarks : list (Z * Z))
| Limit (limitOffset limitCount : clauses)
| Agg (aggsplit : Z) (groupingSets : bool)
| Group
| WindowAgg (runCondition runConditionOrig startOffset endOffset : clauses)
| Result (resconstantqual : clauses) (relids : Relids)
| ProjectSet
| RecursiveUnion
| BitmapAnd
| BitmapOr.

(** The fields of [Plan]. *)
Record plan_fields : Type := mkFields {
  plan_node_id : Z;
  plan_rows : double;
  pf_total_cost : double;
  pf_targetlist : list TargetEntry;
  pf_qual : clauses;
  extParam : gset Z
}.

(** A plan tree; [bitmapplans] are the inputs of [BitmapAnd] and [BitmapOr]. *)
Inductive pplan : Type :=
| PPlan (node : plan_node_type) (fields : plan_fields) (lefttree righttree : option pplan)
    (bitmapplans : list pplan).

Definition pfields (p : pplan) : plan_fields := let 'PPlan _ f _ _ _ := p in f.

(** Induction over plan trees with hypotheses for the children. *)
Section pplan_ind.
Variable P : pplan → Prop.
Definition opP (o : option pplan) : Prop := match o with Some p => P p | None => True end.
Hypothesis HPlan : ∀ n f l r bs, opP l → opP r → Forall P bs → P (PPlan n f l r bs).

Fixpoint pplan_nested_ind (p : pplan) : P p :=
  let all := fix all (l : list pplan) : Forall P l :=
    match l with
    | [] => Forall_nil_2 P
    | x :: l' => Forall_cons_2 P x l' (pplan_nested_ind x) (all l')
    end in
  match p with
  | PPlan n f l r bs =>
      HPlan n f l r bs
        (match l return opP l with Some p => pplan_nested_ind p | None => I end)
        (match r return opP r with Some p => pplan_nested_ind p | None => I end)
        (all bs)
  end.
End pplan_ind.

Definition NUM_EXEC_TLIST (f : plan_fields) : double := plan_rows f.
Definition NUM_EXEC_QUAL (f : plan_fields) : double := dmul (plan_rows f) (d_of_Z 2).

Definition with_exprs (f : plan_fields) (tlist : list TargetEntry) (qual : clauses) :
    plan_fields :=
  mkFields (plan_node_id f) (plan_rows f) (pf_total_cost f) tlist qual (extParam f).

(** A mutator on clauses and on a target list. *)
Definition on_clauses (f : expr → result expr) (c : clauses) : result clauses :=
  match c with
  | Some e => e ← f e; Ok (Some e)
  | None => Ok None
  end.

Definition with_expr (tle : TargetEntry) (e : expr) : TargetEntry :=
  mkTargetEntry e (resno tle) (ressortgroupref tle) (resjunk tle).

Definition on_tlist (f : expr → result expr) (tlist : list TargetEntry) :
    result (list TargetEntry) :=
  mapM (λ tle, e ← f (te_expr tle); Ok (with_expr tle e)) tlist.

Definition fix_scan_list (root : PlannerInfo) (rtoffset : Z) (num_exec : double) (c : clauses) :
    result clauses :=
  on_clauses (λ e, fix_scan_expr root e rtoffset num_exec) c.

Definition fix_scan_tlist (root : PlannerInfo) (rtoffset : Z) (num_exec : double)
    (tlist : list TargetEntry) : result (list TargetEntry) :=
  on_tlist (λ e, fix_scan_expr root e rtoffset num_exec) tlist.

Definition fix_join_expr (root : PlannerInfo) (outer_itlist inner_itlist : option indexed_tlist)
    (acceptable_rel rtoffset : Z) (nrm_match : NullingRelsMatch) (num_exec : double) :
    expr → result expr :=
  fix_join_expr_mutator root
    (mkJoinContext outer_itlist inner_itlist acceptable_rel rtoffset nrm_match num_exec).

Definition fix_upper_expr (root : PlannerInfo) (subplan_itlist : indexed_tlist)
    (newvarno rtoffset : Z) (nrm_match : NullingRelsMatch) (num_exec : double) :
    expr → result expr :=
  fix_upper_expr_mutator root
    (mkUpperContext subplan_itlist newvarno rtoffset nrm_match num_exec).

(** The common part of the plain scan nodes: the target list and the quals. *)
Definition fix_scan_plan (root : PlannerInfo) (rtoffset : Z) (f : plan_fields) :
    result plan_fields :=
  tlist ← fix_scan_tlist root rtoffset (NUM_EXEC_TLIST f) (pf_targetlist f);
  qual ← fix_scan_list root rtoffset (NUM_EXEC_QUAL f) (pf_qual f);
  Ok (with_exprs f tlist qual).

Definition set_indexonlyscan_references (root : PlannerInfo) (rtoffset : Z) (scanrelid : Z)
    (indexqual recheckqual indexorderby : clauses) (indextlist : list TargetEntry)
    (f : plan_fields) : result (plan_node_type * plan_fields) :=
  let index_itlist := build_tlist_index (filter (λ tle, resjunk tle = false) indextlist) in
  let fix_it num_exec := fix_upper_expr root index_itlist INDEX_VAR rtoffset NRM_EQUAL num_exec in
  tlist ← on_tlist (fix_it (NUM_EXEC_TLIST f)) (pf_targetlist f);
  qual ← on_clauses (fix_it (NUM_EXEC_QUAL f)) (pf_qual f);
  recheckqual ← on_clauses (fix_it (NUM_EXEC_QUAL f)) recheckqual;
  indexqual ← fix_scan_list root rtoffset (d_of_Z 1) indexqual;
  indexorderby ← fix_scan_list root rtoffset (d_of_Z 1) indexorderby;
  indextlist ← fix_scan_tlist root rtoffset (NUM_EXEC_TLIST f) indextlist;
  Ok (IndexOnlyScan (scanrelid + rtoffset) indexqual recheckqual indexorderby indextlist,
      with_exprs f tlist qual).

(** [nestParams]: each value must become a reference to the outer plan. *)
Definition fix_nest_param (root : PlannerInfo) (outer_itlist : indexed_tlist) (rtoffset : Z)
    (num_exec : double) (paramval : expr) : result expr :=
  paramval ← fix_upper_expr root outer_itlist OUTER_VAR rtoffset NRM_SUBSET num_exec paramval;
  match paramval with
  | EVar var =>
      if varno var =? OUTER_VAR then Ok paramval
      else Err (ErrReport "NestLoopParam was not reduced to a simple Var")
  | _ => Err (ErrReport "NestLoopParam was not reduced to a simple Var")
  end.

(** The type-specific part of a join, after its [joinqual]. *)
Definition set_join_specific (root : PlannerInfo) (rtoffset : Z) (outer_plan : plan_fields)
    (outer_itlist inner_itlist : indexed_tlist) (joinqual : clauses) (node : plan_node_type)
    (f : plan_fields) : result plan_node_type :=
  let fix_qual := fix_join_expr root (Some outer_itlist) (Some inner_itlist) 0 rtoffset NRM_EQUAL
    (NUM_EXEC_QUAL f) in
  match node with
  | NestLoop jointype _ nestParams =>
      nestParams ← mapM (fix_nest_param root outer_itlist rtoffset (NUM_EXEC_TLIST outer_plan))
        nestParams;
      Ok (NestLoop jointype joinqual nestParams)
  | MergeJoin jointype _ mergeclauses =>
      mergeclauses ← on_clauses fix_qual mergeclauses;
      Ok (MergeJoin jointype joinqual mergeclauses)
  | HashJoin jointype _ hashclauses hashkeys =>
      hashclauses ← on_clauses fix_qual hashclauses;
      hashkeys ← on_clauses (fix_upper_expr root outer_itlist OUTER_VAR rtoffset NRM_EQUAL
                               (NUM_EXEC_QUAL f)) hashkeys;
      Ok (HashJoin jointype joinqual hashclauses hashkeys)
  | _ => Ok node
  end.

Definition set_join_references (root : PlannerInfo) (rtoffset : Z) (jointype : JoinType)
    (joinqual : clauses) (node : plan_node_type) (f : plan_fields)
    (outer_plan inner_plan : plan_fields) : result (plan_node_type * plan_fields) :=
  let outer_itlist := build_tlist_index (pf_targetlist outer_plan) in
  let inner_itlist := build_tlist_index (pf_targetlist inner_plan) in
  let above := match jointype with JOIN_INNER => NRM_EQUAL | _ => NRM_SUPERSET end in
  let fix_it := fix_join_expr root (Some outer_itlist) (Some inner_itlist) 0 rtoffset in
  joinqual ← on_clauses (fix_it NRM_EQUAL (NUM_EXEC_QUAL f)) joinqual;
  node ← set_join_specific root rtoffset outer_plan outer_itlist inner_itlist joinqual node f;
  tlist ← on_tlist (fix_it above (NUM_EXEC_TLIST f)) (pf_targetlist f);
  qual ← on_clauses (fix_it above (NUM_EXEC_QUAL f)) (pf_qual f);
  Ok (node, with_exprs f tlist qual).

(** One entry of the loop of [set_upper_references]. *)
Definition upper_tle (root : PlannerInfo) (subplan_itlist : indexed_tlist) (rtoffset : Z)
    (num_exec : double) (tle : TargetEntry) : result TargetEntry :=
  let found := if negb (ressortgroupref tle =? 0)
    then search_indexed_tlist_for_sortgroupref (te_expr tle) (ressortgroupref tle)
      subplan_itlist OUTER_VAR
    else None in
  newexpr ← match found with
    | Some newvar => Ok (EVar newvar)
    | None => fix_upper_expr root subplan_itlist OUTER_VAR rtoffset NRM_EQUAL num_exec (te_expr tle)
    end;
  Ok (with_expr tle newexpr).

Definition set_upper_references (root : PlannerInfo) (rtoffset : Z) (grouping_sets : bool)
    (f subplan : plan_fields) : result plan_fields :=
  let subplan_itlist := build_tlist_index (pf_targetlist subplan) in
  let f := if grouping_sets && (0 <? group_rtindex root)%nat
    then let remove := remove_nulling_relids {[group_rtindex root]} in
         with_exprs f ((λ tle, with_expr tle (remove (te_expr tle))) <$> pf_targetlist f)
           (remove <$> pf_qual f)
    else f in
  tlist ← mapM (upper_tle root subplan_itlist rtoffset (NUM_EXEC_TLIST f)) (pf_targetlist f);
  qual ← on_clauses (fix_upper_expr root subplan_itlist OUTER_VAR rtoffset NRM_EQUAL
                       (NUM_EXEC_QUAL f)) (pf_qual f);
  Ok (with_exprs f tlist qual).

Definition set_param_references (root : PlannerInfo) (lefttree : plan_fields) (old : gset Z) :
    gset Z :=
  if bool_decide (extParam lefttree = ∅) then old
  else extParam lefttree ∩ list_to_set (concat (init_set_params root)).

(** One entry of the loop of [set_dummy_tlist_references]. *)
Definition dummy_tle (rtoffset : Z) (tle : TargetEntry) : TargetEntry :=
  match te_expr tle with
  | EConst _ => tle
  | EVar oldvar =>
      if 0 <? varnosyn oldvar
      then with_expr tle (EVar (mkVar OUTER_VAR (resno tle) ∅ 0 VAR_RETURNING_DEFAULT
                                 (varnosyn oldvar + rtoffset) (varattnosyn oldvar)))
      else with_expr tle (EVar (never_plain (makeVar OUTER_VAR (resno tle) 0)))
  | _ => with_expr tle (EVar (never_plain (makeVar OUTER_VAR (resno tle) 0)))
  end.

Definition set_dummy_tlist_references (rtoffset : Z) (f : plan_fields) : plan_fields :=
  with_exprs f (dummy_tle rtoffset <$> pf_targetlist f) (pf_qual f).

Definition set_hash_references (root : PlannerInfo) (rtoffset : Z) (hashkeys : clauses)
    (f outer_plan : plan_fields) : result (plan_node_type * plan_fields) :=
  let outer_itlist := build_tlist_index (pf_targetlist outer_plan) in
  hashkeys ← on_clauses (fix_upper_expr root outer_itlist OUTER_VAR rtoffset NRM_EQUAL
                           (NUM_EXEC_QUAL f)) hashkeys;
  Ok (Hash hashkeys, set_dummy_tlist_references rtoffset f).

Definition offset_relid_set (relids : Relids) (rtoffset : Z) : Relids :=
  if rtoffset =? 0 then relids
  else list_to_set ((λ rtindex, Z.to_nat (Z.of_nat rtindex + rtoffset)) <$> elements relids).

Definition set_windowagg_runcondition_references (runcondition : clauses) (f : plan_fields) :
    result clauses :=
  let itlist := build_tlist_index (pf_targetlist f) in
  on_clauses (fix_windowagg_condition_expr_mutator itlist 0) runcondition.

(** The references of a RETURNING list to the plan below the modification. *)
Definition set_returning_clause_references (root : PlannerInfo) (rlist : list TargetEntry)
    (topplan : plan_fields) (resultRelation rtoffset : Z) : result (list TargetEntry) :=
  let itlist := build_tlist_index_other_vars (pf_targetlist topplan) resultRelation in
  on_tlist (fix_join_expr root (Some itlist) None resultRelation rtoffset NRM_EQUAL
              (NUM_EXEC_TLIST topplan)) rlist.

(** A childless [Result]: row identities become null, set operations' columns
    those of the first relation. *)
Definition result_tle (tle : TargetEntry) : TargetEntry :=
  match te_expr tle with
  | EVar var =>
      if varno var =? ROWID_VAR then with_expr tle (EConst None)
      else if varno var =? 0
      then with_expr tle (EVar (makeVar 1 (varattno var) (varlevelsup var)))
      else tle
  | _ => tle
  end.

(** The plan types that read their child need one. *)
Definition child (c : option plan_fields) : result plan_fields :=
  match c with Some f => Ok f | None => Err ErrUB end.

(** A scan with one list of clauses of its own, evaluated [num_exec] times. *)
Definition fix_scan_with (root : PlannerInfo) (rtoffset : Z) (f : plan_fields)
    (num_exec : double) (c : clauses) (mk : clauses → plan_node_type) :
    result (plan_node_type * plan_fields) :=
  f ← fix_scan_plan root rtoffset f;
  c ← fix_scan_list root rtoffset num_exec c;
  Ok (mk c, f).

Definition index_scan_refs (root : PlannerInfo) (rtoffset scanrelid : Z)
    (indexqual indexqualorig indexorderby indexorderbyorig : clauses) (f : plan_fields) :
    result (plan_node_type * plan_fields) :=
  let scan := fix_scan_list root rtoffset in
  f ← fix_scan_plan root rtoffset f;
  indexqual ← scan (d_of_Z 1) indexqual;
  indexqualorig ← scan (NUM_EXEC_QUAL f) indexqualorig;
  indexorderby ← scan (d_of_Z 1) indexorderby;
  indexorderbyorig ← scan (NUM_EXEC_QUAL f) indexorderbyorig;
  Ok (IndexScan (scanrelid + rtoffset) indexqual indexqualorig indexorderby indexorderbyorig, f).

Definition limit_refs (root : PlannerInfo) (rtoffset : Z) (limitOffset limitCount : clauses)
    (f : plan_fields) : result (plan_node_type * plan_fields) :=
  let f := set_dummy_tlist_references rtoffset f in
  limitOffset ← fix_scan_list root rtoffset (d_of_Z 1) limitOffset;
  limitCount ← fix_scan_list root rtoffset (d_of_Z 1) limitCount;
  Ok (Limit limitOffset limitCount, f).

Definition agg_refs (root : PlannerInfo) (rtoffset aggsplit : Z) (groupingSets : bool)
    (f : plan_fields) (lf : option plan_fields) : result (plan_node_type * plan_fields) :=
  let f := if DO_AGGSPLIT_COMBINE aggsplit
    then with_exprs f ((λ tle, with_expr tle (convert_combining_aggrefs (te_expr tle))) <$>
                         pf_targetlist f) (convert_combining_aggrefs <$> pf_qual f)
    else f in
  lf ← child lf; f ← set_upper_references root rtoffset groupingSets f lf;
  Ok (Agg aggsplit groupingSets, f).

Definition window_refs (root : PlannerInfo) (rtoffset : Z)
    (runCondition runConditionOrig startOffset endOffset : clauses) (f : plan_fields)
    (lf : option plan_fields) : result (plan_node_type * plan_fields) :=
  let scan := fix_scan_list root rtoffset in
  runCondition ← set_windowagg_runcondition_references runCondition f;
  lf ← child lf; f ← set_upper_references root rtoffset false f lf;
  startOffset ← scan (d_of_Z 1) startOffset; endOffset ← scan (d_of_Z 1) endOffset;
  runCondition ← scan (NUM_EXEC_TLIST f) runCondition;
  runConditionOrig ← scan (NUM_EXEC_TLIST f) runConditionOrig;
  Ok (WindowAgg runCondition runConditionOrig startOffset endOffset, f).

Definition result_refs (root : PlannerInfo) (rtoffset : Z) (resconstantqual : clauses)
    (relids : Relids) (f : plan_fields) (lf : option plan_fields) :
    result (plan_node_type * plan_fields) :=
  f ← match lf with
    | Some lf => set_upper_references root rtoffset false f lf
    | None => fix_scan_plan root rtoffset (with_exprs f (result_tle <$> pf_targetlist f) (pf_qual f))
    end;
  resconstantqual ← fix_scan_list root rtoffset (d_of_Z 1) resconstantqual;
  Ok (Result resconstantqual (offset_relid_set relids rtoffset), f).

(** The switch of [set_plan_refs]: the node's own expressions, given the fields of
    its children. *)
Definition fix_plan_node (root : PlannerInfo) (rtoffset : Z) (node : plan_node_type)
    (f : plan_fields) (lf rf : option plan_fields) : result (plan_node_type * plan_fields) :=
  let once := d_of_Z 1 in
  let scan := fix_scan_list root rtoffset in
  match node with
  | SeqScan relid => f ← fix_scan_plan root rtoffset f; Ok (SeqScan (relid + rtoffset), f)
  | CteScan relid => f ← fix_scan_plan root rtoffset f; Ok (CteScan (relid + rtoffset), f)
  | NamedTuplestoreScan relid =>
      f ← fix_scan_plan root rtoffset f; Ok (NamedTuplestoreScan (relid + rtoffset), f)
  | WorkTableScan relid =>
      f ← fix_scan_plan root rtoffset f; Ok (WorkTableScan (relid + rtoffset), f)
  | SampleScan relid c => fix_scan_with root rtoffset f once c (SampleScan (relid + rtoffset))
  | TidScan relid c => fix_scan_with root rtoffset f once c (TidScan (relid + rtoffset))
  | TidRangeScan relid c => fix_scan_with root rtoffset f once c (TidRangeScan (relid + rtoffset))
  | FunctionScan relid c => fix_scan_with root rtoffset f once c (FunctionScan (relid + rtoffset))
  | TableFuncScan relid c => fix_scan_with root rtoffset f once c (TableFuncScan (relid + rtoffset))
  | ValuesScan relid c => fix_scan_with root rtoffset f once c (ValuesScan (relid + rtoffset))
  | BitmapHeapScan relid c =>
      fix_scan_with root rtoffset f (NUM_EXEC_QUAL f) c (BitmapHeapScan (relid + rtoffset))
  | IndexScan relid indexqual indexqualorig indexorderby indexorderbyorig =>
      index_scan_refs root rtoffset relid indexqual indexqualorig indexorderby indexorderbyorig f
  | IndexOnlyScan relid indexqual recheckqual indexorderby indextlist =>
      set_indexonlyscan_references root rtoffset relid indexqual recheckqual indexorderby
        indextlist f
  | BitmapIndexScan relid indexqual indexqualorig =>
      indexqual ← scan once indexqual;
      indexqualorig ← scan (NUM_EXEC_QUAL f) indexqualorig;
      Ok (BitmapIndexScan (relid + rtoffset) indexqual indexqualorig, f)
  | NestLoop jointype joinqual _ | MergeJoin jointype joinqual _
  | HashJoin jointype joinqual _ _ =>
      lf ← child lf; rf ← child rf;
      set_join_references root rtoffset jointype joinqual node f lf rf
  | Gather initParam =>
      lf ← child lf; f ← set_upper_references root rtoffset false f lf;
      Ok (Gather (set_param_references root lf initParam), f)
  | GatherMerge initParam =>
      lf ← child lf; f ← set_upper_references root rtoffset false f lf;
      Ok (GatherMerge (set_param_references root lf initParam), f)
  | Hash hashkeys => lf ← child lf; set_hash_references root rtoffset hashkeys f lf
  | Memoize param_exprs =>
      let f := set_dummy_tlist_references rtoffset f in
      param_exprs ← scan (NUM_EXEC_TLIST f) param_exprs; Ok (Memoize param_exprs, f)
  | Material | Sort _ | IncrementalSort _ | Unique | SetOp | RecursiveUnion =>
      Ok (node, set_dummy_tlist_references rtoffset f)
  | LockRows rowMarks =>
      Ok (LockRows (prod_map (Z.add rtoffset) (Z.add rtoffset) <$> rowMarks),
          set_dummy_tlist_references rtoffset f)
  | Limit limitOffset limitCount => limit_refs root rtoffset limitOffset limitCount f
  | Agg aggsplit groupingSets => agg_refs root rtoffset aggsplit groupingSets f lf
  | Group | ProjectSet =>
      lf ← child lf; f ← set_upper_references root rtoffset false f lf; Ok (node, f)
  | WindowAgg runCondition runConditionOrig startOffset endOffset =>
      window_refs root rtoffset runCondition runConditionOrig startOffset endOffset f lf
  | Result resconstantqual relids => result_refs root rtoffset resconstantqual relids f lf
  | BitmapAnd | BitmapOr => Ok (node, f)
  end.

Definition with_node_id (f : plan_fields) (id : Z) : plan_fields :=
  mkFields id (plan_rows f) (pf_total_cost f) (pf_targetlist f) (pf_qual f) (extParam f).

(** The tree, and [lastPlanNodeId] afterwards.  An index-only scan returns without
    looking at children. *)
Fixpoint set_plan_refs (root : PlannerInfo) (rtoffset : Z) (p : pplan) (lastPlanNodeId : Z) :
    result (pplan * Z) :=
  let refs := set_plan_refs root rtoffset in
  let refs_list := fix refs_list (l : list pplan) (id : Z) : result (list pplan * Z) :=
    match l with
    | [] => Ok ([], id)
    | p :: l' => '(p, id) ← refs p id; '(l', id) ← refs_list l' id; Ok (p :: l', id)
    end in
  let refs_opt (o : option pplan) (id : Z) : result (option pplan * Z) :=
    match o with
    | None => Ok (None, id)
    | Some p => '(p, id) ← refs p id; Ok (Some p, id)
    end in
  let 'PPlan node f l r bs := p in
  '(node, f) ← fix_plan_node root rtoffset node (with_node_id f lastPlanNodeId)
    (pfields <$> l) (pfields <$> r);
  let id := lastPlanNodeId + 1 in
  match node with
  | IndexOnlyScan _ _ _ _ _ => Ok (PPlan node f l r bs, id)
  | _ =>
      '(bs, id) ← refs_list bs id;
      '(l, id) ← refs_opt l id;
      '(r, id) ← refs_opt r id;
      Ok (PPlan node f l r bs, id)
  end.

(** ** What finished expressions look like *)

(** Every [Var] satisfies [ok], and nothing is left that only planning uses. *)
Fixpoint finished (ok : Z → bool) (e : expr) : bool :=
  match e with
  | EVar v => ok (varno v)
  | EPlaceHolderVar _ _ _ _ | EAlternativeSubPlan _ => false
  | EAggref _ _ _ d args fl =>
      forallb (finished ok) d && forallb (finished ok) args && forallb (finished ok) fl
  | EGroupingFunc _ args | EWindowFunc args | ENode _ args => forallb (finished ok) args
  | EConst _ | EParam _ _ | ECurrentOfExpr _ => true
  end.

(** Every [Var], also inside of place holders and alternatives, satisfies [ok]. *)
Fixpoint vars_ok (ok : Z → bool) (e : expr) : bool :=
  match e with
  | EVar v => ok (varno v)
  | EPlaceHolderVar _ _ _ e => vars_ok ok e
  | EAggref _ _ _ d args fl =>
      forallb (vars_ok ok) d && forallb (vars_ok ok) args && forallb (vars_ok ok) fl
  | EAlternativeSubPlan args | EGroupingFunc _ args | EWindowFunc args | ENode _ args =>
      forallb (vars_ok ok) args
  | EConst _ | EParam _ _ | ECurrentOfExpr _ => true
  end.

Definition nonzero (n : Z) : bool := negb (n =? 0).

Definition join_ref (n : Z) : bool := (n =? OUTER_VAR) || (n =? INNER_VAR).

(** ** The value of expressions

    A compositional meaning of expressions over any domain: [ρ] gives the
    columns, the other functions the remaining node types.  A place holder has
    the value of its expression, an [AlternativeSubPlan] that of its first
    alternative. *)
Record meaning (D : Type) : Type := mkMeaning {
  constv : option Z → D;
  paramv : ParamKind → Z → D;
  currentv : Z → D;
  aggv : Z → Z → Z → list D → list D → list D → D;
  groupingv : Z → list D → D;
  windowv : list D → D;
  nodev : Z → list D → D
}.

Arguments constv {D} _ _.
Arguments paramv {D} _ _ _.
Arguments currentv {D} _ _.
Arguments aggv {D} _ _ _ _ _ _ _.
Arguments groupingv {D} _ _ _.
Arguments windowv {D} _ _.
Arguments nodev {D} _ _ _.

Fixpoint eval {D} (m : meaning D) (ρ : Z → Z → D) (e : expr) : D :=
  match e with
  | EVar v => ρ (varno v) (varattno v)
  | EConst c => constv m c
  | EParam k p => paramv m k p
  | ECurrentOfExpr v => currentv m v
  | EAggref f s l d args fl =>
      aggv m f s l (map (eval m ρ) d) (map (eval m ρ) args) (map (eval m ρ) fl)
  | EGroupingFunc l args => groupingv m l (map (eval m ρ) args)
  | EWindowFunc args => windowv m (map (eval m ρ) args)
  | EPlaceHolderVar _ _ _ e => eval m ρ e
  | EAlternativeSubPlan (e :: _) => eval m ρ e
  | EAlternativeSubPlan [] => constv m None
  | ENode t args => nodev m t (map (eval m ρ) args)
  end.

(** What the planner guarantees of an expression: place holders of one number have
    one value, [phv], the alternatives of a subplan agree, and the parameters
    it prepared as replacements have the value of what they replace. *)
Fixpoint coherent {D} (m : meaning D) (ρ : Z → Z → D) (root : PlannerInfo) (phv : Z → D)
    (e : expr) : Prop :=
  let all := fix all (l : list expr) : Prop :=
    match l with [] => True | x :: l' => coherent m ρ root phv x ∧ all l' end in
  match e with
  | EPlaceHolderVar id _ _ e => eval m ρ e = phv id ∧ coherent m ρ root phv e
  | EAlternativeSubPlan args =>
      all args ∧ (∀ a, a ∈ args → eval m ρ a = eval m ρ (EAlternativeSubPlan args))
  | EParam k p => ∀ e', fix_param_node root k p = Ok e' → eval m ρ e' = eval m ρ (EParam k p)
  | EAggref f s l d args fl =>
      (∀ k p, find_minmax_agg_replacement_param root f args = Some (k, p) →
         paramv m k p = eval m ρ (EAggref f s l d args fl)) ∧ all d ∧ all args ∧ all fl
  | EGroupingFunc _ args | EWindowFunc args | ENode _ args => all args
  | EVar _ | EConst _ | ECurrentOfExpr _ => True
  end.

(** The tuple a child with target list [tlist] delivers, read as [newvarno]. *)
Definition delivers {D} (m : meaning D) (ρ ρ' : Z → Z → D) (newvarno : Z)
    (tlist : list TargetEntry) : Prop :=
  ∀ tle, tle ∈ tlist → ρ' newvarno (resno tle) = eval m ρ (te_expr tle).

(** [c'] has, where its columns are [ρ'], the values of [c] under [ρ], and every
    reference in it satisfies [ok]. *)
Definition clauses_refer {D} (m : meaning D) (ρ ρ' : Z → Z → D) (ok : Z → bool)
    (c c' : clauses) : Prop :=
  match c, c' with
  | Some e, Some e' => finished ok e' = true ∧ eval m ρ' e' = eval m ρ e
  | None, None => True
  | _, _ => False
  end.

Definition tlist_refers {D} (m : meaning D) (ρ ρ' : Z → Z → D) (ok : Z → bool) :
    list TargetEntry → list TargetEntry → Prop :=
  Forall2 (λ tle tle', resno tle' = resno tle ∧ resjunk tle' = resjunk tle ∧
    finished ok (te_expr tle') = true ∧ eval m ρ' (te_expr tle') = eval m ρ (te_expr tle)).

Definition join_quals (node : plan_node_type) : list clauses :=
  match node with
  | NestLoop _ joinqual _ => [joinqual]
  | MergeJoin _ joinqual mergeclauses => [joinqual; mergeclauses]
  | HashJoin _ joinqual hashclauses _ => [joinqual; hashclauses]
  | _ => []
  end.

(** The expressions of a join before this step. *)
Definition join_exprs (node : plan_node_type) (f : plan_fields) : list expr :=
  omap id (join_quals node) ++ (te_expr <$> pf_targetlist f) ++ option_list (pf_qual f).

(** The identifiers in the order they are given; an index-only scan's children are
    not visited. *)
Fixpoint node_ids (p : pplan) : list Z :=
  let 'PPlan node f l r bs := p in
  plan_node_id f ::
  match node with
  | IndexOnlyScan _ _ _ _ _ => []
  | _ => concat (map node_ids bs) ++ match l with Some p => node_ids p | None => [] end ++
         match r with Some p => node_ids p | None => [] end
  end.

(** What the planner's flags say about its expressions. *)
Fixpoint mentions (bad : expr → bool) (e : expr) : bool :=
  bad e ||
  match e with
  | EPlaceHolderVar _ _ _ e => mentions bad e
  | EAggref _ _ _ d args fl =>
      existsb (mentions bad) d || existsb (mentions bad) args || existsb (mentions bad) fl
  | EAlternativeSubPlan args | EGroupingFunc _ args | EWindowFunc args | ENode _ args =>
      existsb (mentions bad) args
  | EVar _ | EConst _ | EParam _ _ | ECurrentOfExpr _ => false
  end.

Definition is_phv (e : expr) : bool := match e with EPlaceHolderVar _ _ _ _ => true | _ => false end.

Definition is_alternative (e : expr) : bool :=
  match e with EAlternativeSubPlan _ => true | _ => false end.

Definition is_multiexpr (e : expr) : bool :=
  match e with EParam PARAM_MULTIEXPR _ => true | _ => false end.

(** A join of two tables on their first columns. *)
Definition example_var (n a : Z) : expr := EVar (mkVar n a ∅ 0 VAR_RETURNING_DEFAULT n a).

Definition example_root : PlannerInfo :=
  mkPlannerInfo [] [] 0 false 0 [] (λ _, mkSubPlanCost 0 d0 d0).

Definition example_fields (tlist : list TargetEntry) : plan_fields :=
  mkFields 0 d0 d0 tlist None ∅.

Definition example_join : plan_node_type :=
  HashJoin JOIN_INNER None (Some (ENode 96 [example_var 1 1; example_var 2 1]))
    (Some (example_var 1 1)).

Definition example_meaning : meaning Z :=
  mkMeaning Z (default 0) (λ _ p, p) id (λ f _ _ _ _ _, f) (λ l _, l) (λ _, 0)
    (λ t args, foldr Z.add t args).

Definition example_columns (n a : Z) : Z :=
  if (n =? OUTER_VAR) then 101 else if n =? INNER_VAR then 201 else 100 * n + a.

(** ** Lemmas *)

Lemma mapM_ok {A B} (f : A → result B) l l' : mapM f l = Ok l' → Forall2 (λ x y, f x = Ok y) l l'.
Proof.
  revert l'. induction l as [|x l IH]; intros l'; cbn [mapM].
  - intros [= <-]. constructor.
  - destruct (f x) as [y|] eqn:Hx; [|done]. cbn [mbind result_bind].
    destruct (mapM f l) as [ys|]; [|done]. intros [= <-]. constructor; [done|by apply IH].
Qed.

Lemma bind_Ok {A B} (m : result A) (k : A → result B) b : (m ≫= k) = Ok b →
  ∃ a, m = Ok a ∧ k a = Ok b.
Proof. destruct m as [a|]; [eauto|done]. Qed.

(** Splits the binds of a hypothesis that computes to [Ok]. *)
Ltac inv_ok H := repeat match type of H with
  | (_ ≫= _) = Ok _ => let a := fresh "a" in let E := fresh "E" in
      apply bind_Ok in H as (a & E & H)
  end.

Lemma coherent_all {D} (m : meaning D) ρ root phv l :
  (fix all (l : list expr) : Prop :=
     match l with [] => True | x :: l' => coherent m ρ root phv x ∧ all l' end) l ↔
  Forall (coherent m ρ root phv) l.
Proof. induction l as [|x l IH]; [done|]. rewrite list.Forall_cons, IH. done. Qed.

Lemma finished_mapM ok (pre : expr → bool) (f : expr → result expr) l l' :
  Forall (λ e, pre e = true → ∀ e', f e = Ok e' → finished ok e' = true) l →
  forallb pre l = true → mapM f l = Ok l' → forallb (finished ok) l' = true.
Proof.
  intros Hf Hp Hm. apply mapM_ok in Hm. induction Hm as [|x y l l' Hxy _ IH]; [done|].
  inv Hf as [|? ? H1 H2]. cbn [forallb] in *. apply andb_true_iff in Hp as [P1 P2].
  by rewrite (H1 P1 _ Hxy), IH.
Qed.

Lemma fix_param_node_param root k p e : fix_param_node root k p = Ok e → ∃ k' p', e = EParam k' p'.
Proof. unfold fix_param_node. repeat case_match; intros; simplify_eq; eauto. Qed.

Lemma choose_subplan_bound root num_exec l : ∀ i best k,
  choose_subplan root num_exec i l best = Some k →
  best = Some k ∨ (i ≤ k.1.1 < i + length l)%nat.
Proof.
  induction l as [|e l IH]; intros i best k; cbn [choose_subplan]; [by left|].
  intros [Hb|Hb]%IH; [|right; simpl; lia]. case_match; [|by left].
  simplify_eq/=. right. lia.
Qed.

(** The chosen alternative is one of them, and its result is returned. *)
Lemma fix_alternative_subplan_ok root num_exec (f : expr → result expr) l e' :
  fix_alternative_subplan root num_exec l (map f l) = Ok e' → ∃ e, e ∈ l ∧ f e = Ok e'.
Proof.
  unfold fix_alternative_subplan.
  destruct (choose_subplan root num_exec 0 l None) as [[[i d] c]|] eqn:E; [|done].
  apply choose_subplan_bound in E as [E|E]; [done|]. cbn [fst] in E.
  destruct (lookup_lt_is_Some_2 l i) as [e He]; [lia|].
  change (map f l) with (f <$> l). rewrite list_lookup_fmap, He. cbn [fmap option_fmap option_map default].
  intros Hf. exists e. split; [by eapply list_elem_of_lookup_2|done].
Qed.

(** *** Indexed target lists *)

Lemma build_tlist_index_spec tlist :
  it_tlist (build_tlist_index tlist) = tlist ∧
  ∀ vinfo, vinfo ∈ it_vars (build_tlist_index tlist) →
    ∃ tle v, tle ∈ tlist ∧ te_expr tle = EVar v ∧ vi_varno vinfo = varno v ∧
      vi_varattno vinfo = varattno v ∧ vi_resno vinfo = resno tle.
Proof.
  unfold build_tlist_index.
  assert (H : ∀ l it, it_tlist it = tlist → l ⊆ tlist →
    (∀ vinfo, vinfo ∈ it_vars it → ∃ tle v, tle ∈ tlist ∧ te_expr tle = EVar v ∧
      vi_varno vinfo = varno v ∧ vi_varattno vinfo = varattno v ∧ vi_resno vinfo = resno tle) →
    let it' := foldl (λ it tle, match te_expr tle with
      | EVar var => mkIndexed (it_tlist it) (has_ph_vars it) (has_non_vars it)
          (it_vars it ++ [mkVinfo (varno var) (varattno var) (resno tle) (varnullingrels var)])
      | EPlaceHolderVar _ _ _ _ => mkIndexed (it_tlist it) true (has_non_vars it) (it_vars it)
      | _ => mkIndexed (it_tlist it) (has_ph_vars it) true (it_vars it)
      end) it l in
    it_tlist it' = tlist ∧ ∀ vinfo, vinfo ∈ it_vars it' → ∃ tle v, tle ∈ tlist ∧
      te_expr tle = EVar v ∧ vi_varno vinfo = varno v ∧ vi_varattno vinfo = varattno v ∧
      vi_resno vinfo = resno tle).
  { induction l as [|tle l IH]; intros it Ht Hl Hit; [done|]. cbn [foldl].
    assert (Hin : tle ∈ tlist) by set_solver. apply IH; [by destruct (te_expr tle)|set_solver|].
    destruct (te_expr tle) as [v| | | | | | | | |] eqn:He; try done. cbn [it_vars].
    intros vinfo [Hv|Hv%list_elem_of_singleton]%elem_of_app; [by apply Hit|].
    subst vinfo. by exists tle, v. }
  apply H; [done|done|]. intros vinfo Hv. by apply elem_of_nil in Hv.
Qed.

Lemma search_vars_some var vars newvarno rtoffset nrm v' :
  search_vars var vars newvarno rtoffset nrm = Ok (Some v') →
  ∃ vinfo, vinfo ∈ vars ∧ vi_varno vinfo = varno var ∧ vi_varattno vinfo = varattno var ∧
    varno v' = newvarno ∧ varattno v' = vi_resno vinfo.
Proof.
  induction vars as [|vi vars IH]; cbn [search_vars]; [done|].
  destruct (Z.eqb_spec (vi_varno vi) (varno var)), (Z.eqb_spec (vi_varattno vi) (varattno var));
    cbn [andb]; try (intros (vinfo & ? & ?)%IH; exists vinfo; split; [by right|done]).
  case_match; [done|]. intros [= <-]. exists vi. split; [by left|done].
Qed.

Lemma search_phvs_some phid rels tlist newvarno nrm v' :
  search_phvs phid rels tlist newvarno nrm = Ok (Some v') →
  ∃ tle l n e, tle ∈ tlist ∧ te_expr tle = EPlaceHolderVar phid l n e ∧
    varno v' = newvarno ∧ varattno v' = resno tle.
Proof.
  induction tlist as [|tle tlist IH]; cbn [search_phvs]; [done|].
  assert (Hrec : search_phvs phid rels tlist newvarno nrm = Ok (Some v') →
    ∃ tle' l n e, tle' ∈ tle :: tlist ∧ te_expr tle' = EPlaceHolderVar phid l n e ∧
      varno v' = newvarno ∧ varattno v' = resno tle').
  { intros (tle' & l & n & e & ? & ?)%IH. exists tle', l, n, e. split; [by right|done]. }
  destruct (te_expr tle) as [| | | | | | |id l n e| |] eqn:He; try done.
  destruct (Z.eqb_spec phid id) as [->|]; cbn [negb]; [|done]. case_match; [done|].
  intros [= <-]. exists tle, l, n, e. split; [by left|done].
Qed.

Lemma search_non_var_some node itlist newvarno v' :
  search_indexed_tlist_for_non_var node itlist newvarno = Some v' →
  ∃ tle, tle ∈ it_tlist itlist ∧ equal node (te_expr tle) = true ∧
    varno v' = newvarno ∧ varattno v' = resno tle.
Proof.
  assert (H : (tle ← tlist_member node (it_tlist itlist);
      Some (never_plain (makeVarFromTargetEntry newvarno tle))) = Some v' →
    ∃ tle, tle ∈ it_tlist itlist ∧ equal node (te_expr tle) = true ∧
      varno v' = newvarno ∧ varattno v' = resno tle).
  { unfold tlist_member. destruct (list_find _ (it_tlist itlist)) as [[i tle]|] eqn:E; [|done].
    apply list_find_Some in E as (Hl & He & _). intros [= <-]. exists tle.
    split; [by eapply list_elem_of_lookup_2|done]. }
  by destruct node.
Qed.

Lemma search_sortgroupref_some node ref itlist newvarno v' :
  search_indexed_tlist_for_sortgroupref node ref itlist newvarno = Some v' →
  ∃ tle, tle ∈ it_tlist itlist ∧ equal node (te_expr tle) = true ∧
    varno v' = newvarno ∧ varattno v' = resno tle.
Proof.
  unfold search_indexed_tlist_for_sortgroupref.
  destruct (list_find _ (it_tlist itlist)) as [[i tle]|] eqn:E; [|done].
  apply list_find_Some in E as (Hl & He & _). apply andb_true_iff in He as [_ He].
  intros [= <-]. exists tle. split; [by eapply list_elem_of_lookup_2|done].
Qed.

(** *** Values *)

Section values.
  Context {D : Type} (m : meaning D) (ρ : Z → Z → D) (root : PlannerInfo) (phv : Z → D).

  Local Abbreviation ev := (eval m ρ).
  Local Abbreviation coh := (coherent m ρ root phv).
  Local Abbreviation elist := (fix equal_list (l l' : list expr) : bool :=
    match l, l' with
    | [], [] => true
    | x :: l, x' :: l' => equal x x' && equal_list l l'
    | _, _ => false
    end).

Lemma equal_list_eval l : Forall (λ a, ∀ b, equal a b = true → coh a → coh b → ev a = ev b) l →
  ∀ l', elist l l' = true → Forall coh l → Forall coh l' → map ev l = map ev l'.
Proof.
  induction 1 as [|a l Ha _ IH]; intros [|b l']; intros He Hl Hl'; try done.
  apply andb_true_iff in He as [He1 He2]. inv Hl as [|? ? Ca Cl]. inv Hl' as [|? ? Cb Cl'].
  cbn [map]. f_equal; [by apply Ha|by apply IH].
Qed.

(** [equal] expressions have the same value. *)
Lemma equal_eval a : ∀ b, equal a b = true → coh a → coh b → ev a = ev b.
Proof.
  induction a as [v|c|k p|v|f s l d args fl IHd IHa IHf|l args IH|args IH|id l n e IH|args IH|t args IH]
    using expr_nested_ind; intros b; destruct b; cbn [equal]; try done;
    rewrite ?andb_true_iff, ?bool_decide_eq_true, ?Z.eqb_eq; cbn [coherent]; rewrite ?coherent_all;
    intros He Ha Hb; cbn [eval].
  - by destruct He as [[[[-> ->] _] _] _].
  - by subst.
  - by destruct He as [-> ->].
  - by subst.
  - destruct He as [[[[[-> ->] ->] H1] H2] H3], Ha as (_ & A1 & A2 & A3), Hb as (_ & B1 & B2 & B3).
    by rewrite (equal_list_eval d IHd _ H1 A1 B1), (equal_list_eval args IHa _ H2 A2 B2),
      (equal_list_eval fl IHf _ H3 A3 B3).
  - destruct He as [-> He]. by rewrite (equal_list_eval args IH _ He Ha Hb).
  - by rewrite (equal_list_eval args IH _ He Ha Hb).
  - destruct He as [[-> _] _], Ha as [-> _], Hb as [-> _]. done.
  - destruct Ha as [Ha _], Hb as [Hb _].
    pose proof (equal_list_eval args IH _ He Ha Hb) as E.
    destruct args, subplans; cbn [map] in E; try done. by injection E.
  - destruct He as [-> He]. by rewrite (equal_list_eval args IH _ He Ha Hb).
Qed.

Lemma mapM_eval (P : expr → Prop) (ρ' : Z → Z → D) (f : expr → result expr) l l' :
  Forall (λ e, P e → ∀ e', f e = Ok e' → eval m ρ' e' = ev e) l → Forall P l →
  mapM f l = Ok l' → map (eval m ρ') l' = map ev l.
Proof.
  intros Hf Hc Hm. apply mapM_ok in Hm. induction Hm as [|x y l l' Hxy _ IH]; [done|].
  inv Hf as [|? ? H1 H2]. inv Hc as [|? ? C1 C2]. cbn [map]. f_equal; [by apply H1|by apply IH].
Qed.

Lemma alternative_eval (P : expr → Prop) (ρ' : Z → Z → D) (f : expr → result expr) num_exec l e' :
  Forall (λ e, P e → ∀ e', f e = Ok e' → eval m ρ' e' = ev e) l → Forall P l →
  coh (EAlternativeSubPlan l) → fix_alternative_subplan root num_exec l (map f l) = Ok e' →
  eval m ρ' e' = ev (EAlternativeSubPlan l).
Proof.
  intros Hf Hl [_ Hagree] (e & He & Hfe)%fix_alternative_subplan_ok.
  rewrite list.Forall_forall in Hf, Hl. rewrite <- (Hagree e He). by apply Hf; [|apply Hl|].
Qed.

(** A lookup that succeeds gives the value of what was looked up. *)
Lemma reference_eval (ρ' : Z → Z → D) itlist newvarno tle v' node :
  delivers m ρ ρ' newvarno (it_tlist itlist) → tle ∈ it_tlist itlist →
  varno v' = newvarno → varattno v' = resno tle → ev (te_expr tle) = ev node →
  eval m ρ' (EVar v') = ev node.
Proof. intros Hd Ht Hn Ha He. cbn [eval]. rewrite Hn, Ha, <- He. by apply Hd. Qed.

Section upper.
  Context (tlist : list TargetEntry) (newvarno rtoffset : Z) (nrm : NullingRelsMatch)
    (num_exec : double) (ρ' : Z → Z → D).
  Hypothesis delivered : delivers m ρ ρ' newvarno tlist.
  Hypothesis tlist_coherent : Forall (λ tle, coh (te_expr tle)) tlist.

Lemma search_var_eval v v' :
  search_indexed_tlist_for_var v (build_tlist_index tlist) newvarno rtoffset nrm = Ok (Some v') →
  eval m ρ' (EVar v') = ev (EVar v).
Proof.
  intros (vi & Hin & Hno & Hatt & Hn & Ha)%search_vars_some.
  destruct (build_tlist_index_spec tlist) as [Hit Hvars].
  destruct (Hvars vi Hin) as (tle & v0 & Ht & He & H1 & H2 & H3).
  eapply (reference_eval _ (build_tlist_index tlist) _ tle); try done; [by rewrite Hit|by rewrite Hit|congruence|].
  rewrite He. cbn [eval]. congruence.
Qed.

Lemma search_phv_eval phid l rels e v' : coh (EPlaceHolderVar phid l rels e) →
  search_indexed_tlist_for_phv phid rels (build_tlist_index tlist) newvarno nrm = Ok (Some v') →
  eval m ρ' (EVar v') = ev e.
Proof.
  intros [Hv _] (tle & l' & n & e' & Ht & He & Hn & Ha)%search_phvs_some.
  destruct (build_tlist_index_spec tlist) as [Hit _]. rewrite Hit in Ht.
  rewrite list.Forall_forall in tlist_coherent. pose proof (tlist_coherent tle Ht) as Hc.
  rewrite He in Hc. destruct Hc as [Hv' _].
  eapply (reference_eval _ (build_tlist_index tlist) _ tle); try done; [by rewrite Hit|by rewrite Hit|].
  rewrite He. cbn [eval]. congruence.
Qed.

Lemma search_non_var_eval node v' : coh node →
  search_indexed_tlist_for_non_var node (build_tlist_index tlist) newvarno = Some v' →
  eval m ρ' (EVar v') = ev node.
Proof.
  intros Hc (tle & Ht & He & Hn & Ha)%search_non_var_some.
  destruct (build_tlist_index_spec tlist) as [Hit _]. rewrite Hit in Ht.
  rewrite list.Forall_forall in tlist_coherent. pose proof (tlist_coherent tle Ht).
  eapply (reference_eval _ (build_tlist_index tlist) _ tle); try done; [by rewrite Hit|by rewrite Hit|].
  symmetry. by apply equal_eval.
Qed.
End upper.
End values.

Section fix_eval.
  Context {D : Type} (m : meaning D) (ρ ρ' : Z → Z → D) (root : PlannerInfo) (phv : Z → D).

  Local Abbreviation coh := (coherent m ρ root phv).

Lemma fix_upper_eval tlist newvarno rtoffset nrm num_exec e :
  delivers m ρ ρ' newvarno tlist → Forall (λ tle, coh (te_expr tle)) tlist → coh e →
  ∀ e', fix_upper_expr root (build_tlist_index tlist) newvarno rtoffset nrm num_exec e = Ok e' →
    eval m ρ' e' = eval m ρ e.
Proof.
  intros Hd Ht. unfold fix_upper_expr. set (ctx := mkUpperContext _ _ _ _ _).
  assert (Hnv : ∀ node v', coh node → fix_upper_non_var ctx node = Some v' →
    eval m ρ' (EVar v') = eval m ρ node).
  { intros node v' Hc. unfold fix_upper_non_var. case_match; [|done].
    by apply (search_non_var_eval m ρ root phv tlist newvarno ρ'). }
  assert (Hargs : ∀ l l', Forall (λ e, coh e → ∀ e', fix_upper_expr_mutator root ctx e = Ok e' →
      eval m ρ' e' = eval m ρ e) l → Forall coh l →
      mapM (fix_upper_expr_mutator root ctx) l = Ok l' → map (eval m ρ') l' = map (eval m ρ) l)
    by (intros l l'; apply mapM_eval).
  induction e as [v|c|k p|v|f s l d args fl IHd IHa IHf|l args IH|args IH|id l n e IH|args IH|t args IH]
    using expr_nested_ind; intros Hc e' H; cbn [fix_upper_expr_mutator] in H;
    try (destruct (fix_upper_non_var ctx _) as [v'|] eqn:E;
      [injection H as <-; by apply Hnv|]); cbn [coherent eval] in Hc |- *; rewrite ?coherent_all in Hc.
  - unfold fix_upper_var in H. inv_ok H. destruct a as [v'|]; [|done]. injection H as <-.
    by eapply (search_var_eval m ρ tlist newvarno).
  - by injection H as <-.
  - destruct (fix_param_node_param _ _ _ _ H) as (k' & p' & ->). by apply (Hc _ H).
  - by injection H as <-.
  - destruct Hc as (Hmm & Hd' & Ha' & Hf').
    destruct (find_minmax_agg_replacement_param root f args) as [[k p]|] eqn:Em.
    + injection H as <-. by apply Hmm.
    + inv_ok H. injection H as <-. cbn [eval]. by rewrite (Hargs d a), (Hargs args a0), (Hargs fl a1).
  - inv_ok H. injection H as <-. cbn [eval]. by rewrite (Hargs args a).
  - inv_ok H. injection H as <-. cbn [eval]. by rewrite (Hargs args a).
  - inv_ok H. destruct a as [v'|]; [|by apply IH; [apply Hc|]]. injection H as <-.
    unfold fix_upper_phv in E. destruct (has_ph_vars _); [|done].
    by apply (search_phv_eval m ρ root phv tlist newvarno nrm ρ' Hd Ht id l n).
  - eapply (alternative_eval m ρ root phv coh); [done|apply Hc| |done].
    cbn [coherent]. by rewrite coherent_all.
  - inv_ok H. injection H as <-. cbn [eval]. by rewrite (Hargs args a).
Qed.

Lemma fix_join_var_eval outer inner rtoffset nrm num_exec v e' :
  delivers m ρ ρ' OUTER_VAR outer → delivers m ρ ρ' INNER_VAR inner → nonzero (varno v) = true →
  fix_join_var (mkJoinContext (Some (build_tlist_index outer)) (Some (build_tlist_index inner)) 0
    rtoffset nrm num_exec) v = Ok e' → eval m ρ' e' = eval m ρ (EVar v).
Proof.
  intros Ho Hi Hnz H. unfold fix_join_var in H. cbn [jc_outer_itlist jc_inner_itlist in_itlist
    jc_acceptable_rel jc_rtoffset jc_nrm_match] in H. inv_ok H.
  destruct a0 as [v'|].
  { injection H as <-. by eapply (search_var_eval m ρ outer OUTER_VAR). }
  inv_ok H. destruct a0 as [v'|].
  { injection H as <-. by eapply (search_var_eval m ρ inner INNER_VAR). }
  unfold nonzero in Hnz. by destruct (varno v =? 0).
Qed.

Lemma fix_join_phv_eval outer inner rtoffset nrm num_exec phid l rels e v' :
  delivers m ρ ρ' OUTER_VAR outer → Forall (λ tle, coh (te_expr tle)) outer →
  delivers m ρ ρ' INNER_VAR inner → Forall (λ tle, coh (te_expr tle)) inner →
  coh (EPlaceHolderVar phid l rels e) →
  fix_join_phv (mkJoinContext (Some (build_tlist_index outer)) (Some (build_tlist_index inner)) 0
    rtoffset nrm num_exec) phid rels = Ok (Some v') → eval m ρ' (EVar v') = eval m ρ e.
Proof.
  intros Ho Hco Hi Hci Hc H. unfold fix_join_phv in H.
  cbn [jc_outer_itlist jc_inner_itlist in_itlist jc_nrm_match] in H. inv_ok H.
  destruct a as [v1|].
  - injection H as ->. destruct (has_ph_vars (build_tlist_index outer)); [|done].
    by apply (search_phv_eval m ρ root phv outer OUTER_VAR nrm ρ' Ho Hco phid l rels).
  - destruct (has_ph_vars (build_tlist_index inner)); [|done].
    by apply (search_phv_eval m ρ root phv inner INNER_VAR nrm ρ' Hi Hci phid l rels).
Qed.

Lemma forallb_Forall_true (f : expr → bool) l : forallb f l = true ↔ Forall (λ e, f e = true) l.
Proof. by rewrite forallb_forall, Stdlib.Lists.List.Forall_forall. Qed.

Lemma fix_join_eval outer inner rtoffset nrm num_exec e :
  delivers m ρ ρ' OUTER_VAR outer → Forall (λ tle, coh (te_expr tle)) outer →
  delivers m ρ ρ' INNER_VAR inner → Forall (λ tle, coh (te_expr tle)) inner →
  coh e ∧ vars_ok nonzero e = true →
  ∀ e', fix_join_expr root (Some (build_tlist_index outer)) (Some (build_tlist_index inner)) 0
      rtoffset nrm num_exec e = Ok e' → eval m ρ' e' = eval m ρ e.
Proof.
  intros Ho Hco Hi Hci. unfold fix_join_expr. set (ctx := mkJoinContext _ _ _ _ _ _).
  assert (Hnv : ∀ node v', coh node → fix_join_non_var ctx node = Some v' →
    eval m ρ' (EVar v') = eval m ρ node).
  { intros node v' Hc. unfold fix_join_non_var, ctx. cbn [jc_outer_itlist jc_inner_itlist mbind option_bind].
    destruct (if has_non_vars (build_tlist_index outer) then _ else _) eqn:E1.
    - intros [= <-]. destruct (has_non_vars (build_tlist_index outer)); [|done].
      by apply (search_non_var_eval m ρ root phv outer OUTER_VAR ρ').
    - intros E2. destruct (has_non_vars (build_tlist_index inner)); [|done].
      by apply (search_non_var_eval m ρ root phv inner INNER_VAR ρ'). }
  assert (Hargs : ∀ l l', Forall (λ e, coh e ∧ vars_ok nonzero e = true → ∀ e',
        fix_join_expr_mutator root ctx e = Ok e' → eval m ρ' e' = eval m ρ e) l →
      Forall coh l → forallb (vars_ok nonzero) l = true →
      mapM (fix_join_expr_mutator root ctx) l = Ok l' → map (eval m ρ') l' = map (eval m ρ) l).
  { intros l l' Hl Hc Hz%forallb_Forall_true.
    apply (mapM_eval m ρ (λ e, coh e ∧ vars_ok nonzero e = true)); [done|]. by apply list.Forall_and. }
  induction e as [v|c|k p|v|f s l d args fl IHd IHa IHf|l args IH|args IH|id l n e IH|args IH|t args IH]
    using expr_nested_ind; intros [Hc Hz] e' H; cbn [fix_join_expr_mutator] in H;
    try (destruct (fix_join_non_var ctx _) as [v'|] eqn:E;
      [injection H as <-; by apply Hnv|]); cbn [coherent eval vars_ok] in Hc, Hz |- *;
    rewrite ?coherent_all in Hc.
  - by eapply fix_join_var_eval.
  - by injection H as <-.
  - destruct (fix_param_node_param _ _ _ _ H) as (k' & p' & ->). by apply (Hc _ H).
  - by injection H as <-.
  - destruct Hc as (_ & Hd' & Ha' & Hf'). apply andb_true_iff in Hz as [Hz Z3].
    apply andb_true_iff in Hz as [Z1 Z2]. inv_ok H. injection H as <-. cbn [eval].
    by rewrite (Hargs d a), (Hargs args a0), (Hargs fl a1).
  - inv_ok H. injection H as <-. cbn [eval]. by rewrite (Hargs args a).
  - inv_ok H. injection H as <-. cbn [eval]. by rewrite (Hargs args a).
  - inv_ok H. destruct a as [v'|]; [|by apply IH; [split; [apply Hc|]|]]. injection H as <-.
    exact (fix_join_phv_eval outer inner rtoffset nrm num_exec id l n e v' Ho Hco Hi Hci Hc E).
  - apply forallb_Forall_true in Hz.
    eapply (alternative_eval m ρ root phv (λ e, coh e ∧ vars_ok nonzero e = true)); [done| | |done].
    + apply list.Forall_and. split; [apply Hc|done].
    + cbn [coherent]. by rewrite coherent_all.
  - inv_ok H. injection H as <-. cbn [eval]. by rewrite (Hargs args a).
Qed.
End fix_eval.

(** *** The shape of what is returned *)

Lemma finished_param ok root k p e : fix_param_node root k p = Ok e → finished ok e = true.
Proof. by intros (k' & p' & ->)%fix_param_node_param. Qed.

Lemma finished_alternative ok (pre : expr → bool) root num_exec (f : expr → result expr) l e' :
  Forall (λ e, pre e = true → ∀ e', f e = Ok e' → finished ok e' = true) l → forallb pre l = true →
  fix_alternative_subplan root num_exec l (map f l) = Ok e' → finished ok e' = true.
Proof.
  intros Hl Hp (e & He & Hf)%fix_alternative_subplan_ok. rewrite list.Forall_forall in Hl.
  rewrite forallb_forall in Hp. apply (Hl e He); [|done]. by apply Hp, list_elem_of_In.
Qed.

Lemma fix_upper_finished root itlist newvarno rtoffset nrm num_exec e : ∀ e',
  fix_upper_expr root itlist newvarno rtoffset nrm num_exec e = Ok e' →
  finished (Z.eqb newvarno) e' = true.
Proof.
  unfold fix_upper_expr. set (ctx := mkUpperContext _ _ _ _ _).
  assert (Hnv : ∀ node v', fix_upper_non_var ctx node = Some v' → (newvarno =? varno v') = true).
  { intros node v'. unfold fix_upper_non_var. case_match; [|done].
    intros (tle & _ & _ & -> & _)%search_non_var_some. apply Z.eqb_refl. }
  assert (Hargs : ∀ l l', Forall (λ e, ∀ e', fix_upper_expr_mutator root ctx e = Ok e' →
      finished (Z.eqb newvarno) e' = true) l →
      mapM (fix_upper_expr_mutator root ctx) l = Ok l' → forallb (finished (Z.eqb newvarno)) l' = true).
  { intros l l' Hl. apply (finished_mapM _ (λ _, true)); [|by rewrite forallb_forall].
    eapply list.Forall_impl; [exact Hl|]. by intros e0 He0 _. }
  induction e as [v|c|k p|v|f s l d args fl IHd IHa IHf|l args IH|args IH|id l n e IH|args IH|t args IH]
    using expr_nested_ind; intros e' H; cbn [fix_upper_expr_mutator] in H;
    try (destruct (fix_upper_non_var ctx _) as [v'|] eqn:E;
      [injection H as <-; by eapply Hnv|]).
  - unfold fix_upper_var in H. inv_ok H. destruct a as [v'|]; [|done]. injection H as <-.
    apply search_vars_some in E as (vi & _ & _ & _ & Hn & _). cbn [finished]. by apply Z.eqb_eq.
  - by injection H as <-.
  - by apply (finished_param _ _ _ _ _ H).
  - by injection H as <-.
  - destruct (find_minmax_agg_replacement_param root f args) as [[k p]|]; [by injection H as <-|].
    inv_ok H. injection H as <-. cbn [finished]. by rewrite (Hargs d a), (Hargs args a0), (Hargs fl a1).
  - inv_ok H. injection H as <-. by apply (Hargs args a).
  - inv_ok H. injection H as <-. by apply (Hargs args a).
  - inv_ok H. destruct a as [v'|]; [|by apply IH]. injection H as <-.
    unfold fix_upper_phv in E. case_match; [|done].
    apply search_phvs_some in E as (tle & ? & ? & ? & _ & _ & Hn & _). cbn [finished]. by apply Z.eqb_eq.
  - eapply (finished_alternative _ (λ _, true)); [|by rewrite forallb_forall|done].
    eapply list.Forall_impl; [exact IH|]. by intros e He _.
  - inv_ok H. injection H as <-. by apply (Hargs args a).
Qed.

Lemma in_itlist_var var o newvarno rtoffset nrm v' :
  in_itlist o (λ it, search_indexed_tlist_for_var var it newvarno rtoffset nrm) = Ok (Some v') →
  varno v' = newvarno.
Proof.
  destruct o as [it|]; [|done]. cbn [in_itlist].
  by intros (vi & _ & _ & _ & Hn & _)%search_vars_some.
Qed.

Lemma in_itlist_phv phid rels o newvarno nrm v' :
  in_itlist o (λ it, if has_ph_vars it
    then search_indexed_tlist_for_phv phid rels it newvarno nrm else Ok None) = Ok (Some v') →
  varno v' = newvarno.
Proof.
  destruct o as [it|]; [|done]. cbn [in_itlist]. case_match; [|done].
  by intros (tle & ? & ? & ? & _ & _ & Hn & _)%search_phvs_some.
Qed.

Lemma fix_join_finished root outer inner rtoffset nrm num_exec e : vars_ok nonzero e = true →
  ∀ e', fix_join_expr root outer inner 0 rtoffset nrm num_exec e = Ok e' →
    finished join_ref e' = true.
Proof.
  unfold fix_join_expr. set (ctx := mkJoinContext _ _ _ _ _ _).
  assert (Hnv : ∀ node v', fix_join_non_var ctx node = Some v' → join_ref (varno v') = true).
  { intros node v'. unfold fix_join_non_var, ctx. cbn [jc_outer_itlist jc_inner_itlist].
    destruct (outer ≫= _) as [v1|] eqn:E1.
    - intros [= ->]. apply bind_Some in E1 as (it & _ & E1). case_match; [|done].
      apply search_non_var_some in E1 as (tle & _ & _ & -> & _). done.
    - intros (it & _ & E2)%bind_Some. case_match; [|done].
      apply search_non_var_some in E2 as (tle & _ & _ & -> & _). done. }
  assert (Hargs : ∀ l l', Forall (λ e, vars_ok nonzero e = true → ∀ e',
      fix_join_expr_mutator root ctx e = Ok e' → finished join_ref e' = true) l →
      forallb (vars_ok nonzero) l = true →
      mapM (fix_join_expr_mutator root ctx) l = Ok l' → forallb (finished join_ref) l' = true)
    by (intros l l'; apply finished_mapM).
  induction e as [v|c|k p|v|f s l d args fl IHd IHa IHf|l args IH|args IH|id l n e IH|args IH|t args IH]
    using expr_nested_ind; intros Hz e' H; cbn [fix_join_expr_mutator] in H;
    try (destruct (fix_join_non_var ctx _) as [v'|] eqn:E;
      [injection H as <-; by eapply Hnv|]); cbn [vars_ok] in Hz.
  - unfold fix_join_var in H. inv_ok H. destruct a0 as [v'|].
    { injection H as <-. cbn [finished]. by rewrite (in_itlist_var _ _ _ _ _ _ E0). }
    inv_ok H. destruct a0 as [v'|].
    { injection H as <-. cbn [finished]. by rewrite (in_itlist_var _ _ _ _ _ _ E1). }
    unfold nonzero in Hz. unfold ctx in H. cbn [jc_acceptable_rel] in H. by destruct (varno v =? 0).
  - by injection H as <-.
  - by apply (finished_param _ _ _ _ _ H).
  - by injection H as <-.
  - apply andb_true_iff in Hz as [Hz Z3]. apply andb_true_iff in Hz as [Z1 Z2].
    inv_ok H. injection H as <-. cbn [finished].
    by rewrite (Hargs d a), (Hargs args a0), (Hargs fl a1).
  - inv_ok H. injection H as <-. by apply (Hargs args a).
  - inv_ok H. injection H as <-. by apply (Hargs args a).
  - inv_ok H. destruct a as [v'|]; [|by apply IH]. injection H as <-. unfold fix_join_phv in E.
    inv_ok E. destruct a as [v1|]; [injection E as ->|]; cbn [finished];
      [by rewrite (in_itlist_phv _ _ _ _ _ _ E0)|by rewrite (in_itlist_phv _ _ _ _ _ _ E)].
  - by eapply (finished_alternative _ (vars_ok nonzero)).
  - inv_ok H. injection H as <-. by apply (Hargs args a).
Qed.

(** *** The scan-level shortcut *)

Lemma existsb_false_Forall {A} (f : A → bool) l : existsb f l = false → Forall (λ x, f x = false) l.
Proof.
  induction l as [|x l IH]; [constructor|]. cbn [existsb]. intros [H1 H2]%orb_false_iff.
  constructor; [done|by apply IH].
Qed.

Lemma mapM_id (P : expr → Prop) (f : expr → result expr) l :
  Forall (λ e, P e → f e = Ok e) l → Forall P l → mapM f l = Ok l.
Proof.
  induction 1 as [|e l He _ IH]; intros HP; [done|]. inv HP. cbn [mapM].
  rewrite He by done. cbn [mbind result_bind]. by rewrite IH.
Qed.

Lemma existsb_orb {A} (f g : A → bool) l : existsb (λ x, f x || g x) l = existsb f l || existsb g l.
Proof. induction l as [|x l IH]; [done|]. cbn [existsb]. rewrite IH. by destruct (f x), (g x), (existsb f l). Qed.

Lemma existsb_ext_Forall {A} (f g : A → bool) l : Forall (λ x, f x = g x) l → existsb f l = existsb g l.
Proof. induction 1 as [|x l Hx _ IH]; [done|]. cbn [existsb]. by rewrite Hx, IH. Qed.

Lemma mentions_orb f g e : mentions (λ e, f e || g e) e = mentions f e || mentions g e.
Proof.
  induction e as [v|c|k p|v|fn s l d args fl IHd IHa IHf|l args IH|args IH|id l n e IH|args IH|t args IH]
    using expr_nested_ind; cbn [mentions]; rewrite ?orb_false_r; try done;
    rewrite ?(existsb_ext_Forall _ _ _ IHd), ?(existsb_ext_Forall _ _ _ IHa),
      ?(existsb_ext_Forall _ _ _ IHf), ?(existsb_ext_Forall _ _ _ IH), ?existsb_orb, ?IH; btauto.
Qed.

Lemma fix_scan_mutator_id root num_exec e : minmax_aggs root = [] →
  mentions (λ e, is_phv e || is_alternative e || is_multiexpr e) e = false →
  fix_scan_expr_mutator root 0 num_exec e = Ok e.
Proof.
  intros Hmm. set (bad := λ e, is_phv e || is_alternative e || is_multiexpr e).
  assert (Hargs : ∀ l, Forall (λ e, mentions bad e = false →
      fix_scan_expr_mutator root 0 num_exec e = Ok e) l → existsb (mentions bad) l = false →
      mapM (fix_scan_expr_mutator root 0 num_exec) l = Ok l).
  { intros l Hl Hb%existsb_false_Forall. by apply (mapM_id (λ e, mentions bad e = false)). }
  induction e as [v|c|k p|v|f s l d args fl IHd IHa IHf|l args IH|args IH|id l n e IH|args IH|t args IH]
    using expr_nested_ind; cbn [mentions fix_scan_expr_mutator]; intros Hb; try done.
  - destruct v as [no att nr lv rt ns as']. unfold moved_var. cbn. repeat f_equal.
    + case_match; lia.
    + case_match; lia.
  - by destruct k.
  - by rewrite Z.add_0_r.
  - apply orb_false_iff in Hb as [_ Hb]. apply orb_false_iff in Hb as [Hb H3].
    apply orb_false_iff in Hb as [H1 H2].
    replace (find_minmax_agg_replacement_param root f args) with (@None (ParamKind * Z)).
    2: { unfold find_minmax_agg_replacement_param. rewrite Hmm. by destruct args as [|? []]. }
    rewrite (Hargs d), (Hargs args), (Hargs fl) by done. done.
  - by rewrite (Hargs args).
  - by rewrite (Hargs args).
  - by rewrite (Hargs args).
Qed.

(** *** Node identifiers *)

Lemma fix_plan_node_id root rtoffset node f lf rf node' f' :
  fix_plan_node root rtoffset node f lf rf = Ok (node', f') → plan_node_id f' = plan_node_id f.
Proof.
  assert (Hscan : ∀ f f', fix_scan_plan root rtoffset f = Ok f' → plan_node_id f' = plan_node_id f).
  { intros g g' H. unfold fix_scan_plan in H. inv_ok H. by injection H as <-. }
  assert (Hwith : ∀ f n c mk r, fix_scan_with root rtoffset f n c mk = Ok r →
    plan_node_id r.2 = plan_node_id f).
  { intros g n c mk r H. unfold fix_scan_with in H. inv_ok H. injection H as <-. by apply Hscan. }
  assert (Hup : ∀ b f g f', set_upper_references root rtoffset b f g = Ok f' →
    plan_node_id f' = plan_node_id f).
  { intros b g sub g' H. unfold set_upper_references in H. inv_ok H. injection H as <-.
    by destruct (b && _). }
  intros H. destruct node; cbn [fix_plan_node] in H; try (by apply Hwith in H);
    unfold set_join_references, set_indexonlyscan_references, set_hash_references, index_scan_refs,
      limit_refs, agg_refs, window_refs, result_refs in H; inv_ok H; try (by injection H as <- <-; eauto using eq_trans);
    injection H as <- <-.
  - rewrite (Hup _ _ _ _ E0). by destruct (DO_AGGSPLIT_COMBINE aggsplit).
  - destruct lf as [lf|]; [by rewrite (Hup _ _ _ _ E)|by rewrite (Hscan _ _ E)].
Qed.

Lemma seqZ_app_cons n k l : n < k → seqZ (n + 1) (k - (n + 1)) = l → seqZ n (k - n) = n :: l.
Proof.
  intros Hn <-. rewrite seqZ_cons by lia. do 2 f_equal; lia.
Qed.

Lemma seqZ_concat a b c : a ≤ b ≤ c → seqZ a (b - a) ++ seqZ b (c - b) = seqZ a (c - a).
Proof.
  intros H. replace (c - a) with ((b - a) + (c - b)) by lia. rewrite seqZ_app by lia.
  by replace (a + (b - a)) with b by lia.
Qed.

(** The identifiers of a finished tree are consecutive, in the order of the walk. *)
Lemma set_plan_refs_ids root rtoffset p : ∀ n p' k,
  set_plan_refs root rtoffset p n = Ok (p', k) → n < k ∧ node_ids p' = seqZ n (k - n).
Proof.
  induction p as [node f l r bs IHl IHr IHb] using pplan_nested_ind. intros n p' k H.
  cbn [set_plan_refs] in H. apply bind_Ok in H as ([node' f'] & Hf & H).
  apply fix_plan_node_id in Hf. cbn [plan_node_id with_node_id] in Hf.
  set (refs_list := fix refs_list (l : list pplan) (id : Z) : result (list pplan * Z) :=
    match l with
    | [] => Ok ([], id)
    | p :: l' => '(p, id) ← set_plan_refs root rtoffset p id; '(l', id) ← refs_list l' id;
                 Ok (p :: l', id)
    end) in H.
  assert (Hbs : ∀ id bs' id', refs_list bs id = Ok (bs', id') →
    id ≤ id' ∧ concat (map node_ids bs') = seqZ id (id' - id)).
  { clear H. induction IHb as [|p bs Hp _ IH]; intros id bs' id' H; cbn [refs_list] in H.
    - injection H as <- <-. by rewrite Z.sub_diag.
    - apply bind_Ok in H as ([p1 id1] & H1 & H). apply bind_Ok in H as ([bs1 id2] & H2 & H).
      injection H as <- <-. apply Hp in H1 as [L1 I1]. apply IH in H2 as [L2 I2]. split; [lia|].
      cbn [map concat]. rewrite I1, I2. apply seqZ_concat. lia. }
  assert (Hopt : ∀ o id o' id', opP (λ p, ∀ n p' k, set_plan_refs root rtoffset p n = Ok (p', k) →
      n < k ∧ node_ids p' = seqZ n (k - n)) o →
    match o with None => Ok (None, id)
    | Some p => '(p, id) ← set_plan_refs root rtoffset p id; Ok (Some p, id) end = Ok (o', id') →
    id ≤ id' ∧ match o' with Some p => node_ids p | None => [] end = seqZ id (id' - id)).
  { intros [p|] id o' id' Ho E.
    - apply bind_Ok in E as ([p1 id1] & E1 & E). injection E as <- <-. apply Ho in E1. split; [lia|tauto].
    - injection E as <- <-. by rewrite Z.sub_diag. }
  destruct node'; cbn [node_ids]; rewrite ?Hf;
    try (apply bind_Ok in H as ([bs' i1] & E1 & H); apply bind_Ok in H as ([l' i2] & E2 & H);
      apply bind_Ok in H as ([r' i3] & E3 & H));
    injection H as <- <-.
  all: try (apply Hbs in E1 as [L1 I1]; apply (Hopt _ _ _ _ IHl) in E2 as [L2 I2];
    apply (Hopt _ _ _ _ IHr) in E3 as [L3 I3]; split; [lia|]; cbn [node_ids]; rewrite Hf, I1, I2, I3;
    symmetry; apply seqZ_app_cons; [lia|]; rewrite !seqZ_concat; [done|lia..]).
  cbn [node_ids]. rewrite Hf. split; [lia|]. replace (n + 1 - n) with 1 by lia. done.
Qed.

(** *** Whole nodes *)

Section nodes.
  Context {D : Type} (m : meaning D) (ρ ρ' : Z → Z → D) (ok : Z → bool).

Lemma on_clauses_refer (P : expr → Prop) (f : expr → result expr) c c' :
  (∀ e e', P e → f e = Ok e' → finished ok e' = true ∧ eval m ρ' e' = eval m ρ e) →
  (∀ e, c = Some e → P e) → on_clauses f c = Ok c' → clauses_refer m ρ ρ' ok c c'.
Proof.
  intros Hf Hc H. destruct c as [e|]; cbn [on_clauses] in H.
  - inv_ok H. injection H as <-. by apply Hf; [apply Hc|].
  - by injection H as <-.
Qed.

Lemma on_tlist_refers (P : expr → Prop) (f : expr → result expr) tlist tlist' :
  (∀ e e', P e → f e = Ok e' → finished ok e' = true ∧ eval m ρ' e' = eval m ρ e) →
  (∀ tle, tle ∈ tlist → P (te_expr tle)) → on_tlist f tlist = Ok tlist' →
  tlist_refers m ρ ρ' ok tlist tlist'.
Proof.
  intros Hf Hc H. apply mapM_ok in H. unfold tlist_refers.
  induction H as [|tle tle' l l' Hx _ IH]; constructor.
  - inv_ok Hx. injection Hx as <-. cbn [resno resjunk te_expr with_expr].
    split_and!; [done|done|apply (Hf (te_expr tle)); [apply Hc; by left|done]..].
  - apply IH. intros t Ht. apply Hc. by right.
Qed.
End nodes.

Section join_nodes.
  Context {D : Type} (m : meaning D) (ρ ρ' : Z → Z → D) (root : PlannerInfo) (phv : Z → D).
  Context (outer inner : plan_fields).
  Hypothesis outer_delivered : delivers m ρ ρ' OUTER_VAR (pf_targetlist outer).
  Hypothesis inner_delivered : delivers m ρ ρ' INNER_VAR (pf_targetlist inner).
  Hypothesis children_coherent :
    Forall (λ tle, coherent m ρ root phv (te_expr tle)) (pf_targetlist outer ++ pf_targetlist inner).

  Local Abbreviation fix_join := (fix_join_expr root (Some (build_tlist_index (pf_targetlist outer)))
    (Some (build_tlist_index (pf_targetlist inner))) 0).
  Local Abbreviation good := (λ e, coherent m ρ root phv e ∧ vars_ok nonzero e = true).

Lemma fix_join_refers rtoffset nrm num_exec e e' : good e →
  fix_join rtoffset nrm num_exec e = Ok e' →
  finished join_ref e' = true ∧ eval m ρ' e' = eval m ρ e.
Proof.
  intros Hg H. split; [by eapply fix_join_finished; [apply Hg|exact H]|].
  apply Forall_app in children_coherent as [Hco Hci].
  by eapply (fix_join_eval m ρ ρ' root phv (pf_targetlist outer) (pf_targetlist inner)).
Qed.

Lemma set_join_references_refer rtoffset jointype joinqual node f node' f' quals :
  join_quals node = joinqual :: quals →
  set_join_references root rtoffset jointype joinqual node f outer inner = Ok (node', f') →
  Forall good (join_exprs node f) →
  Forall2 (clauses_refer m ρ ρ' join_ref) (join_quals node) (join_quals node') ∧
  tlist_refers m ρ ρ' join_ref (pf_targetlist f) (pf_targetlist f') ∧
  clauses_refer m ρ ρ' join_ref (pf_qual f) (pf_qual f').
Proof.
  intros Hq H Hgood. unfold set_join_references in H. inv_ok H. injection H as <- <-.
  unfold join_exprs in Hgood. rewrite !Forall_app in Hgood. destruct Hgood as (G1 & G2 & G3).
  assert (Hcl : ∀ c c' nrm n, c ∈ join_quals node →
    on_clauses (fix_join rtoffset nrm n) c = Ok c' → clauses_refer m ρ ρ' join_ref c c').
  { intros c c' nrm n Hin. apply (on_clauses_refer m ρ ρ' join_ref good); [apply fix_join_refers|].
    intros e ->. rewrite list.Forall_forall in G1. apply G1. apply list_elem_of_omap.
    by exists (Some e). }
  split; [|split].
  - destruct node; try done; cbn [join_quals] in *; injection Hq as -> <-;
      cbn [set_join_specific] in E0; inv_ok E0; injection E0 as <-; cbn [join_quals];
      repeat constructor; eapply Hcl; try done; set_solver.
  - eapply (on_tlist_refers m ρ ρ' join_ref good); [apply fix_join_refers| |exact E1].
    intros tle Ht. rewrite list.Forall_forall in G2. apply G2. by apply list_elem_of_fmap_2.
  - eapply (on_clauses_refer m ρ ρ' join_ref good); [apply fix_join_refers| |exact E2].
    intros e He. rewrite He in G3. by inv G3.
Qed.
End join_nodes.

(** C5.  A join node, after this step, computes what it computed before: its join
    clauses, its target list and its filter refer only to the tuples of its two
    children, and have on any such pair of tuples the values they had in terms
    of the tables, provided the children deliver their target lists.  Place
    holders, alternatives and prepared parameters are resolved on the way. *)
Theorem join_references_correct {D} (m : meaning D) ρ ρ' root phv rtoffset node f outer inner node' f' :
  fix_plan_node root rtoffset node f (Some outer) (Some inner) = Ok (node', f') →
  join_quals node ≠ [] →
  delivers m ρ ρ' OUTER_VAR (pf_targetlist outer) → delivers m ρ ρ' INNER_VAR (pf_targetlist inner) →
  Forall (λ tle, coherent m ρ root phv (te_expr tle)) (pf_targetlist outer ++ pf_targetlist inner) →
  Forall (λ e, coherent m ρ root phv e ∧ vars_ok nonzero e = true) (join_exprs node f) →
  Forall2 (clauses_refer m ρ ρ' join_ref) (join_quals node) (join_quals node') ∧
  tlist_refers m ρ ρ' join_ref (pf_targetlist f) (pf_targetlist f') ∧
  clauses_refer m ρ ρ' join_ref (pf_qual f) (pf_qual f').
Proof.
  intros H Hj. destruct node; try done; cbn [fix_plan_node child mbind result_bind] in H;
    intros Ho Hi Hc He; eapply (set_join_references_refer m ρ ρ' root phv); try exact H; done.
Qed.

Lemma join_references_correct_witness :
  let outer := example_fields [mkTargetEntry (example_var 1 1) 1 0 false] in
  let inner := example_fields [mkTargetEntry (example_var 2 1) 1 0 false] in
  ∃ node' f', fix_plan_node example_root 0 example_join (example_fields []) (Some outer) (Some inner) =
      Ok (node', f') ∧
    Forall2 (clauses_refer example_meaning example_columns example_columns join_ref)
      (join_quals example_join) (join_quals node').
Proof.
  intros outer inner. eexists _, _. split; [vm_compute; reflexivity|].
  eapply (join_references_correct example_meaning example_columns example_columns example_root
    (λ _, 0) 0 example_join (example_fields []) outer inner).
  - vm_compute. reflexivity.
  - done.
  - by intros tle ->%list_elem_of_singleton.
  - by intros tle ->%list_elem_of_singleton.
  - by repeat constructor.
  - by repeat constructor.
Defined.

(** The same for nodes with one input: target list and filter refer only to the
    child's tuple, sort and group columns to the entry with their mark, and keep
    their values. *)
Theorem upper_references_correct {D} (m : meaning D) ρ ρ' root phv rtoffset f subplan f' :
  set_upper_references root rtoffset false f subplan = Ok f' →
  delivers m ρ ρ' OUTER_VAR (pf_targetlist subplan) →
  Forall (λ tle, coherent m ρ root phv (te_expr tle)) (pf_targetlist subplan) →
  Forall (coherent m ρ root phv) ((te_expr <$> pf_targetlist f) ++ option_list (pf_qual f)) →
  tlist_refers m ρ ρ' (Z.eqb OUTER_VAR) (pf_targetlist f) (pf_targetlist f') ∧
  clauses_refer m ρ ρ' (Z.eqb OUTER_VAR) (pf_qual f) (pf_qual f').
Proof.
  intros H Hd Hc Hg. unfold set_upper_references in H. cbn [andb] in H. inv_ok H. injection H as <-.
  apply Forall_app in Hg as [G1 G2]. cbn [pf_targetlist pf_qual with_exprs].
  assert (Hfix : ∀ n e e', coherent m ρ root phv e → fix_upper_expr root
      (build_tlist_index (pf_targetlist subplan)) OUTER_VAR rtoffset NRM_EQUAL n e = Ok e' →
      finished (Z.eqb OUTER_VAR) e' = true ∧ eval m ρ' e' = eval m ρ e).
  { intros n e e' He Hf. split; [by eapply fix_upper_finished|].
    by eapply (fix_upper_eval m ρ ρ' root phv (pf_targetlist subplan) OUTER_VAR). }
  split.
  - clear E0. apply mapM_ok in E. unfold tlist_refers.
    induction E as [|tle tle' l l' Hx _ IH]; constructor; [|apply IH; by inv G1].
    inv G1 as [|? ? Ct _]. unfold upper_tle in Hx.
    destruct (if negb (ressortgroupref tle =? 0) then _ else _) as [v'|] eqn:Ef; inv_ok Hx;
      injection Hx as <-; cbn [resno resjunk te_expr with_expr]; (split_and!; [done|done|..]).
    + injection E as <-. destruct (negb _); [|done].
      apply search_sortgroupref_some in Ef as (t & _ & _ & Hn & _). cbn [finished]. by rewrite Hn.
    + injection E as <-. destruct (negb _); [|done].
      apply search_sortgroupref_some in Ef as (t & Ht & He & Hn & Ha).
      destruct (build_tlist_index_spec (pf_targetlist subplan)) as [Hit _]. rewrite Hit in Ht.
      eapply (reference_eval m ρ ρ' (build_tlist_index (pf_targetlist subplan)) OUTER_VAR t); try done;
        [by rewrite Hit|by rewrite Hit|].
      symmetry. eapply equal_eval; [exact He|exact Ct|].
      rewrite list.Forall_forall in Hc. by apply Hc.
    + by eapply Hfix.
    + by eapply Hfix.
  - eapply (on_clauses_refer m ρ ρ' _ (coherent m ρ root phv)); [apply Hfix| |exact E0].
    intros e He. rewrite He in G2. by inv G2.
Qed.

Lemma upper_references_correct_witness :
  let sub := example_fields [mkTargetEntry (example_var 1 1) 1 3 false] in
  let f := example_fields [mkTargetEntry (example_var 1 1) 5 3 false] in
  ∃ f', set_upper_references example_root 0 false f sub = Ok f' ∧
    tlist_refers example_meaning example_columns example_columns (Z.eqb OUTER_VAR)
      (pf_targetlist f) (pf_targetlist f').
Proof.
  intros sub f. eexists. split; [vm_compute; reflexivity|].
  eapply (upper_references_correct example_meaning example_columns example_columns example_root
    (λ _, 0) 0 f sub).
  - vm_compute. reflexivity.
  - by intros tle ->%list_elem_of_singleton.
  - by repeat constructor.
  - by repeat constructor.
Defined.

(** The shortcut of [fix_scan_expr] is sound: when the planner's flags promise
    that there is nothing to replace, leaving the expression as it is gives what
    the mutator would have built. *)
Theorem fix_scan_shortcut root e rtoffset num_exec :
  (lastPHId root = 0 → mentions is_phv e = false) →
  (hasAlternativeSubPlans root = false → mentions is_alternative e = false) →
  (multiexpr_params root = [] → mentions is_multiexpr e = false) →
  fix_scan_expr root e rtoffset num_exec = fix_scan_expr_mutator root rtoffset num_exec e.
Proof.
  intros H1 H2 H3. unfold fix_scan_expr. case_match eqn:E; [done|].
  rewrite !orb_false_iff, !negb_false_iff in E. destruct E as [[[[E1 E2] E3] E4] E5].
  apply Z.eqb_eq in E1 as ->. apply bool_decide_eq_true in E2. apply Z.eqb_eq in E3.
  symmetry. apply fix_scan_mutator_id; [by destruct (minmax_aggs root)|].
  rewrite !mentions_orb. by rewrite H1, H2, H3.
Qed.

Lemma fix_scan_shortcut_witness :
  fix_scan_expr example_root (ENode 96 [example_var 1 1; EConst None]) 0 d0 =
  fix_scan_expr_mutator example_root 0 d0 (ENode 96 [example_var 1 1; EConst None]).
Proof. by apply fix_scan_shortcut. Defined.

(** Node identifiers are unique: a finished tree numbers its nodes
    consecutively from the given start, in the order of the walk. *)
Theorem plan_node_ids_unique root rtoffset p n p' k :
  set_plan_refs root rtoffset p n = Ok (p', k) →
  node_ids p' = seqZ n (k - n) ∧ NoDup (node_ids p').
Proof.
  intros [_ H]%set_plan_refs_ids. rewrite H. split; [done|apply NoDup_seqZ].
Qed.

Lemma plan_node_ids_unique_witness :
  let p := PPlan Material (example_fields []) (Some (PPlan (SeqScan 1) (example_fields []) None None []))
    None [] in
  ∃ p' k, set_plan_refs example_root 0 p 5 = Ok (p', k) ∧ node_ids p' = seqZ 5 (k - 5).
Proof.
  intros p. eexists _, _. split; [vm_compute; reflexivity|].
  eapply (plan_node_ids_unique example_root 0 p 5). vm_compute. reflexivity.
Defined.
