(* ===== verification/CaptureRefs.v ===== *)
(** * What the hook sees of finished plans

    [Capture] and [SetRefs] together: the executor hook walks a plan that
    [set_plan_refs] has finished.  The columns of joins and sorts refer by then to
    the tuples of child plans, which the walk does not resolve. *)
From Stdlib Require Import ZArith Lia.
From stdpp Require Import base tactics list gmap sets strings numbers.
From S2P Require Import Prelude Float64 AutoIndexTypes RingBuffer Nodes Capture SetRefs.

(** The node types of the walk.  The tag of [NOther] tells the walk nothing more. *)
Definition erase_node (node : plan_node_type) : plan_node :=
  match node with
  | SeqScan r => NScan T_SeqScan r
  | IndexScan r _ _ _ _ => NScan T_IndexScan r
  | IndexOnlyScan r _ _ _ _ => NScan T_IndexOnlyScan r
  | BitmapHeapScan r _ => NScan T_BitmapHeapScan r
  | TidScan r _ => NScan T_TidScan r
  | TidRangeScan r _ => NScan T_TidRangeScan r
  | HashJoin _ jq _ _ => NJoin T_HashJoin jq
  | MergeJoin _ jq _ => NJoin T_MergeJoin jq
  | NestLoop _ jq _ => NJoin T_NestLoop jq
  | Sort idx => NSort T_Sort idx
  | IncrementalSort idx => NSort T_IncrementalSort idx
  | _ => NOther 0
  end.

(** The part of a plan tree the walk reads: it follows [lefttree] and [righttree]. *)
Fixpoint erase (p : pplan) : plan :=
  let 'PPlan node f l r _ := p in
  Plan (erase_node node) (pf_total_cost f) (Some <$> pf_targetlist f) (pf_qual f)
    (match l with Some p => Some (erase p) | None => None end)
    (match r with Some p => Some (erase p) | None => None end).

(** Plans the planner makes: an index-only scan is a leaf, and the expressions of a
    join have no column of the pseudo relation 0. *)
Definition index_only (node : plan_node_type) : bool :=
  match node with IndexOnlyScan _ _ _ _ _ => true | _ => false end.

Definition node_wf (node : plan_node_type) (f : plan_fields) : bool :=
  match join_quals node with
  | [] => true
  | _ => forallb (vars_ok nonzero) (join_exprs node f)
  end.

Fixpoint plan_wf (p : pplan) : bool :=
  let 'PPlan node f l r _ := p in
  node_wf node f &&
  match l with Some p => negb (index_only node) && plan_wf p | None => true end &&
  match r with Some p => negb (index_only node) && plan_wf p | None => true end.

(** Nodes whose filter refers to a child's or an index's tuple. *)
Definition above_scan (node : plan_node_type) : bool :=
  match node with
  | IndexOnlyScan _ _ _ _ _ | NestLoop _ _ _ | MergeJoin _ _ _ | HashJoin _ _ _ _ | Gather _
  | GatherMerge _ | Agg _ _ | Group | WindowAgg _ _ _ _ | ProjectSet => true
  | _ => false
  end.

(** References to tuples are the negative numbers. *)
Definition special (n : Z) : bool := (- 10 <=? n) && (n <? 0).

(** A nested loop over two tables, sorted on the first column. *)
Definition example_tlist (n : Z) : list TargetEntry :=
  [mkTargetEntry (SetRefs.example_var n 1) 1 0 false].

Definition example_tables : list RangeTblEntry :=
  [mkRTE RTE_RELATION 20000; mkRTE RTE_RELATION 20001].

Definition example_query : pplan :=
  let scan n := PPlan (SeqScan n) (example_fields (example_tlist n)) None None [] in
  let join := NestLoop JOIN_INNER
    (Some (ENode 96 [SetRefs.example_var 1 1; SetRefs.example_var 2 1])) [] in
  PPlan (Sort [1]) (example_fields (example_tlist 1))
    (Some (PPlan join (example_fields (example_tlist 1)) (Some (scan 1)) (Some (scan 2)) [])) None [].

(** ** Lemmas *)

Lemma forallb_mono {A} (f g : A → bool) l : Forall (λ x, f x = true → g x = true) l →
  forallb f l = true → forallb g l = true.
Proof.
  induction 1 as [|x l Hx _ IH]; [done|]. cbn [forallb]. rewrite !andb_true_iff.
  intros [H1 H2]. split; [by apply Hx|by apply IH].
Qed.

Lemma finished_mono ok ok' e : (∀ n, ok n = true → ok' n = true) →
  finished ok e = true → finished ok' e = true.
Proof.
  intros Hok. induction e as [v|c|k p|v|f s l d args fl IHd IHa IHf|l args IH|args IH|id l n e IH|args IH|t args IH]
    using expr_nested_ind; cbn [finished]; try done; rewrite ?andb_true_iff;
    try (by apply forallb_mono); [by apply Hok|].
  intros [[F1 F2] F3]. split_and!; eapply forallb_mono; done.
Qed.

(** What the walker collects from an expression satisfies what its Vars do. *)
Lemma pull_vars_ok ok flags e : finished ok e = true → ∀ vl vl',
  Forall (λ x, ∀ v, x = EVar v → ok (varno v) = true) vl →
  pull_var_clause_walker flags e vl = Ok vl' →
  Forall (λ x, ∀ v, x = EVar v → ok (varno v) = true) vl'.
Proof.
  set (Q := λ x, ∀ v, x = EVar v → ok (varno v) = true).
  assert (Hargs : ∀ args, Forall (λ e, finished ok e = true → ∀ vl vl', Forall Q vl →
      pull_var_clause_walker flags e vl = Ok vl' → Forall Q vl') args →
    forallb (finished ok) args = true → ∀ vl vl', Forall Q vl →
    rfold (λ vl a, pull_var_clause_walker flags a vl) args vl = Ok vl' → Forall Q vl').
  { induction 1 as [|a args Ha _ IH]; intros Hf vl vl' Hvl H; [by injection H as <-|].
    cbn [forallb] in Hf. apply andb_true_iff in Hf as [F1 F2]. cbn [rfold] in H.
    apply bind_Ok in H as (v1 & H1 & H). eapply IH; [done| |exact H]. by eapply Ha. }
  assert (Hsnoc : ∀ vl x, Forall Q vl → Q x → Forall Q (vl ++ [x])).
  { intros vl x Hvl Hx. apply Forall_app. split; [done|by constructor]. }
  induction e as [v|c|k p|v|f s l d args fl IHd IHa IHf|l args IH|args IH|id l n e IH|args IH|t args IH]
    using expr_nested_ind; cbn [finished pull_var_clause_walker]; intros Hf vl vl' Hvl;
    rewrite ?walk_args_rfold; try done;
    repeat (case_match; try done); try (by intros [= <-]);
    try (by intros [= <-]; apply Hsnoc; [|intros v' [= <-]]); try (by apply Hargs).
  rewrite !andb_true_iff in Hf. destruct Hf as [[F1 F2] F3]. intros W.
  apply bind_Ok in W as (v1 & W1 & W). apply bind_Ok in W as (v2 & W2 & W).
  rewrite walk_args_rfold in W2, W. eapply (Hargs fl); [done|done| |exact W].
  eapply (Hargs args); [done|done| |exact W2]. by eapply (Hargs d).
Qed.

Lemma var_column_special rtable v : special (varno v) = true → Z.of_nat (length rtable) < 2 ^ 31 →
  var_column rtable v = None.
Proof.
  unfold special. rewrite andb_true_iff, Z.leb_le, Z.ltb_lt. intros Hv Hl. unfold var_column.
  rewrite bool_decide_false; [done|]. unfold u32, wrap_u.
  rewrite <- (Z.mod_add _ 1) by lia. rewrite Z.mod_small by lia. lia.
Qed.

(** An expression of references to tuples names no column. *)
Lemma clause_columns_special rtable c cs : Z.of_nat (length rtable) < 2 ^ 31 →
  (∀ e, c = Some e → finished special e = true) → clause_columns rtable c = Ok cs → cs = [].
Proof.
  intros Hl Hc H. unfold clause_columns in H. apply bind_Ok in H as (vars & Hp & H).
  injection H as <-. destruct c as [e|]; cbn [pull_var_clause] in Hp; [|by injection Hp as <-].
  apply (pull_vars_ok special) in Hp; [|by apply Hc|constructor].
  induction Hp as [|x l Hx _ IH]; [done|]. cbn [omap list_omap].
  replace (node_column rtable x) with (@None (Z * Z)); [done|].
  destruct x as [v| | | | | | | | |]; try done. cbn [node_column].
  by rewrite (var_column_special rtable v (Hx v eq_refl)).
Qed.

Lemma dummy_sort_refs rtable rtoffset tlist idx : Z.of_nat (length rtable) < 2 ^ 31 →
  omap (M:=list) (sort_ref rtable (Some <$> (dummy_tle rtoffset <$> tlist))) idx = [].
Proof.
  intros Hl. induction idx as [|a idx IH]; [done|]. cbn [omap list_omap].
  replace (sort_ref rtable _ a) with (@None (Z * Z)); [done|]. unfold sort_ref.
  case_bool_decide; [|done]. rewrite !list_lookup_fmap.
  destruct (tlist !! Z.to_nat (a - 1)) as [tle|]; [|done]. cbn.
  assert (Hv : ∀ v, varno v = OUTER_VAR → None = var_column rtable v)
    by (intros v Hv; by rewrite var_column_special; [|rewrite Hv|]).
  unfold dummy_tle. destruct (te_expr tle) as [v|c| | | | | | | |] eqn:He; cbn;
    rewrite ?He; try done; try (by apply Hv). case_match; by apply Hv.
Qed.

Lemma join_ref_special n : join_ref n = true → special n = true.
Proof.
  unfold join_ref, special, OUTER_VAR, INNER_VAR.
  rewrite orb_true_iff, andb_true_iff, !Z.eqb_eq, Z.leb_le, Z.ltb_lt. lia.
Qed.

Lemma on_clauses_special (pre : expr → bool) (f : expr → result expr) c c' :
  (∀ e e', pre e = true → f e = Ok e' → finished special e' = true) →
  (∀ e, c = Some e → pre e = true) → on_clauses f c = Ok c' →
  ∀ e', c' = Some e' → finished special e' = true.
Proof.
  intros Hf Hc H e' ->. destruct c as [e|]; [|done]. cbn [on_clauses] in H. inv_ok H.
  injection H as ->. by eapply Hf; [apply Hc|].
Qed.

Lemma fix_upper_special root itlist newvarno rtoffset nrm num_exec e e' : special newvarno = true →
  fix_upper_expr root itlist newvarno rtoffset nrm num_exec e = Ok e' → finished special e' = true.
Proof.
  intros Hs H. apply fix_upper_finished in H. revert H. apply finished_mono.
  intros n Hn%Z.eqb_eq. by subst.
Qed.

Lemma fix_join_special root outer inner rtoffset nrm num_exec e e' : vars_ok nonzero e = true →
  fix_join_expr root outer inner 0 rtoffset nrm num_exec e = Ok e' → finished special e' = true.
Proof.
  intros Hz H. apply fix_join_finished in H; [|done]. revert H. apply finished_mono, join_ref_special.
Qed.

(** The [joinqual] of a finished join. *)
Lemma joinqual_finished root rtoffset jointype joinqual node f outer inner node' f' quals :
  set_join_references root rtoffset jointype joinqual node f outer inner = Ok (node', f') →
  join_quals node = joinqual :: quals → forallb (vars_ok nonzero) (join_exprs node f) = true →
  ∃ tag jq, erase_node node' = NJoin tag jq ∧ ∀ e, jq = Some e → finished special e = true.
Proof.
  intros H Hq Hz. unfold set_join_references in H. inv_ok H. injection H as <- <-.
  assert (Hjq : ∀ e, a = Some e → finished special e = true).
  { eapply (on_clauses_special (vars_ok nonzero)); [by intros; eapply fix_join_special| |exact E].
    intros e ->. rewrite forallb_forall in Hz. apply Hz. unfold join_exprs. rewrite Hq. cbn. by left. }
  destruct node; try done; cbn [set_join_specific] in E0; inv_ok E0; injection E0 as <-;
    by eexists _, _.
Qed.

(** A finished node adds no join and no sort columns. *)
Lemma finished_node_columns rtable root rtoffset node f lf rf node' f' c :
  Z.of_nat (length rtable) < 2 ^ 31 →
  fix_plan_node root rtoffset node f lf rf = Ok (node', f') →
  node_wf node f = true →
  node_columns rtable (erase_node node') (Some <$> pf_targetlist f') (pf_qual f') = Ok c →
  c_join c = [] ∧ c_sort c = [].
Proof.
  intros Hl H Hz Hc.
  assert (Hplain : ∀ node' f', (∃ t r, erase_node node' = NScan t r) ∨ (∃ t, erase_node node' = NOther t) →
    node_columns rtable (erase_node node') (Some <$> pf_targetlist f') (pf_qual f') = Ok c →
    c_join c = [] ∧ c_sort c = []).
  { intros n g Hn Hg. destruct Hn as [(t & r & E)|(t & E)]; rewrite E in Hg; cbn [node_columns] in Hg;
      inv_ok Hg; by injection Hg as <-. }
  assert (Hjoin : ∀ t jq, erase_node node' = NJoin t jq → (∀ e, jq = Some e → finished special e = true) →
    c_join c = [] ∧ c_sort c = []).
  { intros t jq E Hj. rewrite E in Hc. cbn [node_columns] in Hc. inv_ok Hc. injection Hc as <-.
    split; [|done]. by apply (clause_columns_special rtable jq). }
  destruct node; cbn [fix_plan_node] in H;
    try (unfold fix_scan_with, set_indexonlyscan_references, set_hash_references, index_scan_refs,
        limit_refs, agg_refs, window_refs, result_refs in H; inv_ok H;
      injection H as <- <-; first
      [ eapply Hplain; [|exact Hc]; cbn [erase_node]; eauto; fail
      | cbn [erase_node node_columns] in Hc; injection Hc as <-; split; [done|];
        by apply dummy_sort_refs ]).
  all: inv_ok H; eapply joinqual_finished in H as (t & jq & E' & Hj); [|done|exact Hz];
    by eapply Hjoin.
Qed.

Lemma fix_plan_node_index_only root rtoffset node f lf rf node' f' :
  fix_plan_node root rtoffset node f lf rf = Ok (node', f') → index_only node' = index_only node.
Proof.
  intros H. destruct node; cbn [fix_plan_node] in H;
    unfold fix_scan_with, set_indexonlyscan_references, set_hash_references, set_join_references,
      index_scan_refs, limit_refs, agg_refs, window_refs, result_refs in H;
    inv_ok H; injection H as <- <-; try done;
    cbn [set_join_specific] in E2; inv_ok E2; by injection E2 as <-.
Qed.

Lemma finished_plan_columns rtable root rtoffset p : Z.of_nat (length rtable) < 2 ^ 31 →
  ∀ n p' k c, set_plan_refs root rtoffset p n = Ok (p', k) → plan_wf p = true →
    plan_columns rtable (erase p') = Ok c → c_join c = [] ∧ c_sort c = [].
Proof.
  intros Hl. induction p as [node f l r bs IHl IHr _] using pplan_nested_ind.
  intros n p' k c H Hwf Hc. cbn [set_plan_refs] in H. apply bind_Ok in H as ([node' f'] & Hf & H).
  cbn [plan_wf] in Hwf. rewrite !andb_true_iff in Hwf. destruct Hwf as [[W W1] W2].
  pose proof (fix_plan_node_index_only _ _ _ _ _ _ _ _ Hf) as Hio.
  set (P := λ p, ∀ n p' k c, set_plan_refs root rtoffset p n = Ok (p', k) → plan_wf p = true →
    plan_columns rtable (erase p') = Ok c → c_join c = [] ∧ c_sort c = []) in *.
  assert (Hopt : ∀ o id o' id' c, opP P o →
    match o with Some p => negb (index_only node) && plan_wf p | None => true end = true →
    match o with None => Ok (None, id)
    | Some p => '(p, id) ← set_plan_refs root rtoffset p id; Ok (Some p, id) end = Ok (o', id') →
    match match o' with Some p => Some (erase p) | None => None end with
    | Some p => plan_columns rtable p | None => Ok (mkColumns [] [] [] []) end = Ok c →
    c_join c = [] ∧ c_sort c = []).
  { intros [p|] id o' id' c0 Ho Hw E Hcs.
    - apply andb_true_iff in Hw as [_ Hw]. apply bind_Ok in E as ([p1 id1] & E1 & E).
      injection E as <- <-. by apply (Ho _ _ _ _ E1).
    - injection E as <- <-. by injection Hcs as <-. }
  assert (Hall : ∀ l' r' bs' i2 i3 i4 i5, p' = PPlan node' f' l' r' bs' →
    match l with None => Ok (None, i2)
    | Some p => '(p, id) ← set_plan_refs root rtoffset p i2; Ok (Some p, id) end = Ok (l', i3) →
    match r with None => Ok (None, i4)
    | Some p => '(p, id) ← set_plan_refs root rtoffset p i4; Ok (Some p, id) end = Ok (r', i5) →
    c_join c = [] ∧ c_sort c = []).
  { intros l' r' bs' i2 i3 i4 i5 -> El Er. cbn [erase plan_columns] in Hc. inv_ok Hc.
    injection Hc as <-. destruct (finished_node_columns _ _ _ _ _ _ _ _ _ _ Hl Hf W E) as [J1 S1].
    destruct (Hopt _ _ _ _ _ IHl W1 El E0) as [J2 S2].
    destruct (Hopt _ _ _ _ _ IHr W2 Er E1) as [J3 S3].
    cbn [cols_app c_join c_sort]. by rewrite J1, J2, J3, S1, S2, S3. }
  destruct (index_only node') eqn:Hi.
  - destruct node'; try done. injection H as <- <-. rewrite <- Hio in W1, W2.
    destruct l, r; try done. by eapply (Hall None None bs 0 0 0 0).
  - destruct node'; try done; (apply bind_Ok in H as ([bs' i1] & E1 & H);
      apply bind_Ok in H as ([l' i2] & E2 & H); apply bind_Ok in H as ([r' i3] & E3 & H);
      injection H as <- <-; by eapply Hall).
Qed.

(** ** Properties *)



(** Nor are the filters of index-only scans, joins, aggregates and the other
    nodes above a scan recorded: after the planner's last step they name columns
    of an index or of a child's tuple. *)
Theorem filters_above_scans_not_captured rtable root rtoffset node f lf rf node' f' cs :
  fix_plan_node root rtoffset node f lf rf = Ok (node', f') → above_scan node = true →
  node_wf node f = true → Z.of_nat (length rtable) < 2 ^ 31 →
  clause_columns rtable (pf_qual f') = Ok cs → cs = [].
Proof.
  intros H Ha Hz Hl. apply clause_columns_special; [done|].
  assert (Hup : ∀ b f g f', set_upper_references root rtoffset b f g = Ok f' →
    ∀ e, pf_qual f' = Some e → finished special e = true).
  { intros b g sub g' Hg e He. unfold set_upper_references in Hg. inv_ok Hg. injection Hg as <-.
    eapply (on_clauses_special (λ _, true)); [|done|exact E0|done];
      intros e1 e2 _; by apply fix_upper_special. }
  destruct node; try done; cbn [fix_plan_node] in H; unfold agg_refs, window_refs in H; inv_ok H;
    try (injection H as <- <-; by eapply Hup).
  { unfold set_indexonlyscan_references in H. inv_ok H. injection H as <- <-.
    eapply (on_clauses_special (λ _, true)); [|done|exact E0];
      intros e1 e2 _; by apply fix_upper_special. }
  all: unfold set_join_references in H; inv_ok H; injection H as <- <-;
    (eapply (on_clauses_special (vars_ok nonzero)); [by intros; eapply fix_join_special| |exact E4]);
    intros e He; unfold node_wf in Hz; cbn [join_quals] in Hz; rewrite forallb_forall in Hz; apply Hz;
    unfold join_exprs; rewrite He; apply in_or_app; right; apply in_or_app; right; by left.
Qed.

Lemma filters_above_scans_not_captured_witness :
  let f := mkFields 0 d0 d0 [] (Some (ENode 97 [SetRefs.example_var 1 1; EConst (Some 5)])) ∅ in
  let node := IndexOnlyScan 1 None None None (example_tlist 1) in
  ∃ node' f' cs, fix_plan_node example_root 0 node f None None = Ok (node', f') ∧
    clause_columns example_tables (pf_qual f') = Ok cs ∧ cs = [].
Proof.
  intros f node. eexists _, _, _. split; [vm_compute; reflexivity|]. split; [vm_compute; reflexivity|].
  eapply (filters_above_scans_not_captured example_tables example_root 0 node f None None).
  - vm_compute. reflexivity.
  - reflexivity.
  - reflexivity.
  - reflexivity.
  - vm_compute. reflexivity.
Defined.
