(* ===== verification/AdvisorHash.v ===== *)
(** * The advisor's hash table

    The open-addressing table of [index_advisor.c] that accumulates, per column
    and usage, the executions seen and the plan cost paid ("rent"):
    [advisor_hash_find_or_create], [advisor_hash_evict_stale],
    [advisor_hash_remove] and the accumulation loops of [drain_ring_buffer].

    While entries are only added, the table implements a finite map (bounded by
    its 2048 slots).  Removal clears a slot in place, which can cut a probe
    chain; the theorems say when it does not, and exhibit what happens when it
    does. *)
From stdpp Require Import base tactics list gmap numbers.
From Stdlib Require Import ZArith Lia.
From S2P Require Import Prelude Float64 AutoIndexTypes RingBuffer.

(** ** Types *)

(** [ColUsageType] is a C enum; a zeroed key holds none of its constants. *)
Definition USAGE_PREDICATE : Z := 112.    (* 'p' *)

Definition USAGE_SORT : Z := 115.         (* 's' *)

Definition USAGE_JOIN : Z := 106.         (* 'j' *)

Record ColStatsKey : Type := mkKey {
  relid : Z;
  attnum : Z;
  usage_type : Z
}.

#[global] Instance ColStatsKey_eq_dec : EqDecision ColStatsKey.
Proof. solve_decision. Defined.

#[global] Instance ColStatsKey_countable : Countable ColStatsKey.
Proof.
  refine (inj_countable' (λ k, (relid k, attnum k, usage_type k))
    (λ '(r, a, u), mkKey r a u) _). by intros [].
Defined.

Record ColStatsEntry : Type := mkStats {
  key : ColStatsKey;
  exec_count : Z;
  cumulative_rent : double;
  last_seen : Z
}.

Definition zero_stats : ColStatsEntry := mkStats (mkKey 0 0 0) 0 d0 0.

Definition ADVISOR_HASH_SIZE : Z := 2048.

Definition ADVISOR_HASH_MASK : Z := ADVISOR_HASH_SIZE - 1.

Record advisor : Type := mkAdvisor {
  advisor_hash : list ColStatsEntry;
  advisor_hash_used : list bool
}.

(** The zero-initialised statics. *)
Definition advisor_init : advisor :=
  mkAdvisor (replicate (Z.to_nat ADVISOR_HASH_SIZE) zero_stats)
    (replicate (Z.to_nat ADVISOR_HASH_SIZE) false).

(** ** Operations *)

Definition advisor_hash_fn (k : ColStatsKey) : Z :=
  let h := u32 (relid k) in
  let h := u32 (h * 31 + u32 (attnum k)) in
  let h := u32 (h * 31 + u32 (usage_type k)) in
  Z.land h ADVISOR_HASH_MASK.

Definition is_used (t : advisor) (i : Z) : bool :=
  default false (advisor_hash_used t !! Z.to_nat i).

Definition entry_at (t : advisor) (i : Z) : ColStatsEntry :=
  default zero_stats (advisor_hash t !! Z.to_nat i).

Definition set_entry (i : Z) (e : ColStatsEntry) (u : bool) (t : advisor) : advisor :=
  mkAdvisor (<[Z.to_nat i := e]> (advisor_hash t)) (<[Z.to_nat i := u]> (advisor_hash_used t)).

(** Where the probe loop shared by find and remove stops. *)
Inductive probe_result : Type :=
| PUnused (idx : Z)
| PMatch (idx : Z)
| PWrapped.

(** [for (;;)]: the loop ends after at most one turn of the table. *)
Fixpoint probe (fuel : nat) (t : advisor) (k : ColStatsKey) (idx start : Z) :
    option probe_result :=
  match fuel with
  | O => None
  | S fuel' =>
      if negb (is_used t idx) then Some (PUnused idx)
      else if bool_decide (key (entry_at t idx) = k) then Some (PMatch idx)
      else
        let idx := Z.land (u32 (idx + 1)) ADVISOR_HASH_MASK in
        if idx =? start then Some PWrapped else probe fuel' t k idx start
  end.

Definition probe_key (t : advisor) (k : ColStatsKey) : option probe_result :=
  probe (Z.to_nat ADVISOR_HASH_SIZE) t k (advisor_hash_fn k) (advisor_hash_fn k).

(** Returns the slot the C code returns a pointer to, or [None] for [NULL]. *)
Definition advisor_hash_find_or_create (t : advisor) (k : ColStatsKey) : advisor * option Z :=
  match probe_key t k with
  | Some (PUnused idx) => (set_entry idx (mkStats k 0 d0 0) true t, Some idx)
  | Some (PMatch idx) => (t, Some idx)
  | Some PWrapped | None => (t, None)
  end.

Definition advisor_hash_remove (t : advisor) (k : ColStatsKey) : advisor :=
  match probe_key t k with
  | Some (PMatch idx) => set_entry idx zero_stats false t
  | _ => t
  end.

Definition USECS_PER_DAY : Z := 86400000000.

(** The test of the eviction loop. *)
Definition stale (now window_days : Z) (e : ColStatsEntry) : bool :=
  negb (last_seen e =? 0) && (i64 (window_days * USECS_PER_DAY) <? i64 (now - last_seen e)).

(** The sweep over all slots; the number of evicted entries is only logged. *)
Definition advisor_hash_evict_stale (now window_days : Z) (t : advisor) : advisor :=
  let evict := zip_with (λ e (u : bool), u && stale now window_days e)
                 (advisor_hash t) (advisor_hash_used t) in
  mkAdvisor (zip_with (λ e (v : bool), if v then zero_stats else e) (advisor_hash t) evict)
    (zip_with (λ u (v : bool), if v then false else u) (advisor_hash_used t) evict).

(** The statements under [if (cs)] of the drain loops. *)
Definition bump (cost : double) (ts : Z) (e : ColStatsEntry) : ColStatsEntry :=
  mkStats (key e) (i64 (exec_count e + 1)) (dadd (cumulative_rent e) cost) ts.

Definition accumulate (cost : double) (ts : Z) (t : advisor) (k : ColStatsKey) : advisor :=
  match advisor_hash_find_or_create t k with
  | (t', Some i) => set_entry i (bump cost ts (entry_at t' i)) true t'
  | (t', None) => t'
  end.

(** One of the three [for] loops over the columns of an entry. *)
Definition accumulate_cols (usage : Z) (rels attnums : list Z) (n : nat) (cost : double) (ts : Z)
    (t : advisor) : advisor :=
  foldl (λ t i, accumulate cost ts t
    (mkKey (default 0 (rels !! i)) (default 0 (attnums !! i)) usage)) t (seq 0 n).

Definition process_entry (t : advisor) (e : WorkloadEntry) : advisor :=
  let t := accumulate_cols USAGE_PREDICATE (pred_relids e) (pred_attnums e) (n_pred e)
             (plan_cost e) (ts e) t in
  let t := accumulate_cols USAGE_JOIN (join_relids e) (join_attnums e) (n_join e)
             (plan_cost e) (ts e) t in
  accumulate_cols USAGE_SORT (sort_relids e) (sort_attnums e) (n_sort e)
    (plan_cost e) (ts e) t.

Fixpoint drain_loop (fuel : nat) (s : AutoIndexShmemHeader) (head tail : Z) (t : advisor) :
    option (advisor * Z) :=
  if head =? tail then Some (t, head)
  else match fuel with
  | O => None
  | S fuel' => drain_loop fuel' s (u64 (head + 1)) tail (process_entry t (ring_entry s head))
  end.

Definition drain_ring_buffer (shmem : option AutoIndexShmemHeader) (t : advisor) :
    option (option AutoIndexShmemHeader * advisor) :=
  match shmem with
  | None => Some (None, t)
  | Some s =>
      match drain_loop (Z.to_nat AUTOINDEX_RING_SIZE) s (head (ring s)) (tail (ring s)) t with
      | Some (t', h) => Some (Some (set_head h s), t')
      | None => None
      end
  end.

(** ** Abstraction *)

(** The table as one array of optional entries. *)
Definition slots (t : advisor) : list (option ColStatsEntry) :=
  zip_with (λ e (u : bool), if u then Some e else None) (advisor_hash t) (advisor_hash_used t).

Definition live (t : advisor) : list ColStatsEntry := omap id (slots t).

Definition abs_table (t : advisor) : gmap ColStatsKey ColStatsEntry :=
  list_to_map ((λ e, (key e, e)) <$> live t).

(** The slot [j] probes after the home slot [h], and the distance between two
    slots in probe order. *)
Definition pos (h j : Z) : Z := (h + j) mod ADVISOR_HASH_SIZE.

Definition dist (h i : Z) : Z := (i - h) mod ADVISOR_HASH_SIZE.

Definition occupied (t : advisor) (i : Z) : Prop :=
  ∃ e, slots t !! Z.to_nat i = Some (Some e).

Record table_len (t : advisor) : Prop := mkTableLen {
  len_hash : length (advisor_hash t) = Z.to_nat ADVISOR_HASH_SIZE;
  len_used : length (advisor_hash_used t) = Z.to_nat ADVISOR_HASH_SIZE
}.

(** At most one slot per key. *)
Definition unique_keys (t : advisor) : Prop :=
  ∀ i j ei ej, slots t !! i = Some (Some ei) → slots t !! j = Some (Some ej) →
    key ei = key ej → i = j.

(** No unused slot between the home slot of an entry and its slot. *)
Definition chains (t : advisor) : Prop :=
  ∀ i e, 0 ≤ i < ADVISOR_HASH_SIZE → slots t !! Z.to_nat i = Some (Some e) →
    ∀ j, 0 ≤ j < dist (advisor_hash_fn (key e)) i → occupied t (pos (advisor_hash_fn (key e)) j).

Record table_wf (t : advisor) : Prop := mkTableWf {
  wf_len : table_len t;
  wf_unique : unique_keys t;
  wf_chains : chains t
}.

(** Every entry sits in its home slot. *)
Definition collision_free (t : advisor) : Prop :=
  ∀ i e, 0 ≤ i < ADVISOR_HASH_SIZE → slots t !! Z.to_nat i = Some (Some e) →
    advisor_hash_fn (key e) = i.

(** The specification of one accumulation on the bounded map. *)
Definition absorb (m : gmap ColStatsKey ColStatsEntry) (ev : ColStatsKey * double * Z) :
    gmap ColStatsKey ColStatsEntry :=
  let '(k, cost, ts) := ev in
  match m !! k with
  | Some e => <[k := bump cost ts e]> m
  | None =>
      if bool_decide (Z.of_nat (size m) < ADVISOR_HASH_SIZE)
      then <[k := bump cost ts (mkStats k 0 d0 0)]> m else m
  end.

(** The accumulations a workload entry causes, in order. *)
Definition col_events (usage : Z) (rels attnums : list Z) (n : nat) (cost : double) (ts : Z) :
    list (ColStatsKey * double * Z) :=
  (λ i, (mkKey (default 0 (rels !! i)) (default 0 (attnums !! i)) usage, cost, ts)) <$> seq 0 n.

Definition entry_events (e : WorkloadEntry) : list (ColStatsKey * double * Z) :=
  col_events USAGE_PREDICATE (pred_relids e) (pred_attnums e) (n_pred e) (plan_cost e) (ts e) ++
  col_events USAGE_JOIN (join_relids e) (join_attnums e) (n_join e) (plan_cost e) (ts e) ++
  col_events USAGE_SORT (sort_relids e) (sort_attnums e) (n_sort e) (plan_cost e) (ts e).

(** A slot the probe for [k] passes over. *)
Definition busy (t : advisor) (k : ColStatsKey) (i : Z) : Prop :=
  is_used t i = true ∧ key (entry_at t i) ≠ k.

(** What the outcome of a probe for [k] from its home slot says. *)
Definition probe_meaning (t : advisor) (k : ColStatsKey) (h : Z) (r : probe_result) : Prop :=
  let passed n := ∀ j, 0 ≤ j < n → busy t k (pos h j) in
  match r with
  | PUnused i => ∃ n, 0 ≤ n < ADVISOR_HASH_SIZE ∧ i = pos h n ∧ passed n ∧ is_used t i = false
  | PMatch i => ∃ n, 0 ≤ n < ADVISOR_HASH_SIZE ∧ i = pos h n ∧ passed n ∧
      is_used t i = true ∧ key (entry_at t i) = k
  | PWrapped => passed ADVISOR_HASH_SIZE
  end.

(** The accumulations that concern one key, applied to its entry. *)
Definition apply_events (k : ColStatsKey) (evs : list (ColStatsKey * double * Z))
    (e : ColStatsEntry) : ColStatsEntry :=
  foldl (λ e ev, if bool_decide (ev.1.1 = k) then bump ev.1.2 ev.2 e else e) e evs.

(** A cost as the planner produces it: a number, not negative. *)
Definition cost_ok (c : double) : bool := valid c && nonneg c.

(** The home slots of two keys that collide. *)
Definition key_a : ColStatsKey := mkKey 16384 1 USAGE_PREDICATE.

Definition key_b : ColStatsKey := mkKey 18432 1 USAGE_PREDICATE.

(** The number of slots a key occupies. *)
Definition copies (k : ColStatsKey) (t : advisor) : nat :=
  length (filter (λ e, key e = k) (live t)).

(** A ring with one queued entry: a query of cost 500 with one predicate column. *)
Definition example_entry : WorkloadEntry :=
  {| query_hash := 7; relids := [20000]; pred_attnums := [2]; pred_relids := [20000];
     sort_attnums := []; sort_relids := []; join_attnums := []; join_relids := [];
     n_rels := 1; n_pred := 1; n_sort := 0; n_join := 0;
     plan_cost := d_of_Z 500; actual_ms := d0; ts := 9 |}.

Definition example_ring : AutoIndexShmemHeader :=
  set_tail 1 (set_slot (slot 0) example_entry autoindex_shmem_init).

(** ** Slots *)

Lemma advisor_hash_fn_bounds k : 0 ≤ advisor_hash_fn k < ADVISOR_HASH_SIZE.
Proof.
  unfold advisor_hash_fn. rewrite (land_mask _ 11) by lia.
  change (2 ^ 11) with ADVISOR_HASH_SIZE. apply Z.mod_pos_bound. done.
Qed.

Lemma pos_bounds h j : 0 ≤ pos h j < ADVISOR_HASH_SIZE.
Proof. by apply Z.mod_pos_bound. Qed.

Lemma dist_bounds h i : 0 ≤ dist h i < ADVISOR_HASH_SIZE.
Proof. by apply Z.mod_pos_bound. Qed.

Lemma pos_dist h i : 0 ≤ i < ADVISOR_HASH_SIZE → pos h (dist h i) = i.
Proof.
  intros Hi. unfold pos, dist. rewrite Z.add_mod_idemp_r by done.
  replace (h + (i - h)) with i by lia. by apply Z.mod_small.
Qed.

Lemma dist_pos h j : 0 ≤ j < ADVISOR_HASH_SIZE → dist h (pos h j) = j.
Proof.
  intros Hj. unfold pos, dist. rewrite Zminus_mod_idemp_l.
  replace (h + j - h) with j by lia. by apply Z.mod_small.
Qed.

Lemma pos_0 h : 0 ≤ h < ADVISOR_HASH_SIZE → pos h 0 = h.
Proof. intros ?. unfold pos. rewrite Z.add_0_r. by apply Z.mod_small. Qed.

Lemma pos_next h j : Z.land (u32 (pos h j + 1)) ADVISOR_HASH_MASK = pos h (j + 1).
Proof.
  pose proof (pos_bounds h j) as Hb. unfold ADVISOR_HASH_SIZE in Hb.
  rewrite u32_small by lia. rewrite (land_mask _ 11) by lia.
  change (2 ^ 11) with ADVISOR_HASH_SIZE. unfold pos.
  rewrite Z.add_mod_idemp_l by done. f_equal. lia.
Qed.

Lemma slots_length t : table_len t → length (slots t) = Z.to_nat ADVISOR_HASH_SIZE.
Proof. intros [H1 H2]. unfold slots. rewrite length_zip_with, H1, H2. lia. Qed.

Lemma slot_lookup t i : table_len t → 0 ≤ i < ADVISOR_HASH_SIZE →
  slots t !! Z.to_nat i = Some (if is_used t i then Some (entry_at t i) else None).
Proof.
  intros [H1 H2] Hi. unfold slots, is_used, entry_at. rewrite lookup_zip_with.
  destruct (lookup_lt_is_Some_2 (advisor_hash t) (Z.to_nat i)) as [e He]; [lia|].
  destruct (lookup_lt_is_Some_2 (advisor_hash_used t) (Z.to_nat i)) as [u Hu]; [lia|].
  by rewrite He, Hu.
Qed.

Lemma slots_set i e u t :
  slots (set_entry i e u t) = <[Z.to_nat i := if u then Some e else None]> (slots t).
Proof. unfold slots, set_entry; simpl. by rewrite <- insert_zip_with. Qed.

Lemma table_len_set i e u t : table_len t → table_len (set_entry i e u t).
Proof. intros [H1 H2]. split; simpl; by rewrite length_insert. Qed.

Lemma occupied_used t i : table_len t → 0 ≤ i < ADVISOR_HASH_SIZE →
  occupied t i ↔ is_used t i = true.
Proof.
  intros Hl Hi. unfold occupied. rewrite slot_lookup by done.
  destruct (is_used t i); split; [done|by eexists|by intros []|done].
Qed.

Lemma slots_index t i e : table_len t → slots t !! i = Some (Some e) →
  ∃ z, 0 ≤ z < ADVISOR_HASH_SIZE ∧ i = Z.to_nat z ∧ is_used t z = true ∧ entry_at t z = e.
Proof.
  intros Hl Hi. pose proof (lookup_lt_Some _ _ _ Hi) as Hlt. rewrite slots_length in Hlt by done.
  exists (Z.of_nat i). rewrite Nat2Z.id.
  assert (Hb : 0 ≤ Z.of_nat i < ADVISOR_HASH_SIZE) by lia.
  pose proof (slot_lookup t _ Hl Hb) as Hs. rewrite Nat2Z.id, Hi in Hs.
  destruct (is_used t (Z.of_nat i)); by simplify_eq.
Qed.

(** ** Probing *)

Lemma probe_spec t k h n : ∀ j, 0 ≤ h < ADVISOR_HASH_SIZE → 0 ≤ j →
  j + Z.of_nat n = ADVISOR_HASH_SIZE → n ≠ 0%nat → (∀ j', 0 ≤ j' < j → busy t k (pos h j')) →
  ∃ r, probe n t k (pos h j) h = Some r ∧ probe_meaning t k h r.
Proof.
  induction n as [|n IH]; intros j Hh Hj Hn Hnz Hp; [done|]. simpl.
  destruct (is_used t (pos h j)) eqn:Hu; simpl.
  2: { eexists; split; [done|]. exists j. split_and!; [lia|lia|done|done|done]. }
  case_bool_decide as Hk.
  { eexists; split; [done|]. exists j. split_and!; [lia|lia|done|done|done|done]. }
  assert (Hp' : ∀ j', 0 ≤ j' < j + 1 → busy t k (pos h j')).
  { intros j' Hj'. destruct (decide (j' = j)) as [->|]; [done|]. apply Hp. lia. }
  rewrite pos_next. destruct (Z.eqb_spec (pos h (j + 1)) h) as [He|He].
  - assert (j + 1 = ADVISOR_HASH_SIZE) as Hw.
    { destruct (decide (j + 1 = ADVISOR_HASH_SIZE)) as [|Hne]; [done|exfalso].
      pose proof (dist_pos h (j + 1) ltac:(lia)) as Hd. rewrite He in Hd.
      unfold dist in Hd. rewrite Z.sub_diag in Hd. change (0 mod ADVISOR_HASH_SIZE) with 0 in Hd. lia. }
    eexists; split; [done|]. simpl. by rewrite <- Hw.
  - apply IH; [done|lia|lia| |done]. intros ->. apply He.
    replace (j + 1) with ADVISOR_HASH_SIZE by lia. unfold pos.
    rewrite <- (Z.mul_1_l ADVISOR_HASH_SIZE) at 1. rewrite Z_mod_plus_full. by apply Z.mod_small.
Qed.

Lemma probe_key_spec t k :
  ∃ r, probe_key t k = Some r ∧ probe_meaning t k (advisor_hash_fn k) r.
Proof.
  unfold probe_key. pose proof (advisor_hash_fn_bounds k) as Hb.
  destruct (probe_spec t k (advisor_hash_fn k) (Z.to_nat ADVISOR_HASH_SIZE) 0)
    as (r & Hr & Hm); [done|lia| |by vm_compute|lia|].
  - rewrite Z2Nat.id; [lia|]. by apply Z.leb_le.
  - rewrite pos_0 in Hr by done. eauto.
Qed.

(** ** The table as a map *)

Lemma omap_id_NoDup (l : list (option ColStatsEntry)) :
  (∀ i j ei ej, l !! i = Some (Some ei) → l !! j = Some (Some ej) → key ei = key ej → i = j) →
  NoDup (key <$> omap id l).
Proof.
  induction l as [|[e|] l IH]; intros Hu; simpl; [constructor| |].
  - constructor.
    + intros (e' & Hk & He')%list_elem_of_fmap. apply list_elem_of_omap in He' as (o & Ho & Heq).
      unfold id in Heq; subst o. apply list_elem_of_lookup in Ho as [i Hi].
      by specialize (Hu 0%nat (S i) e e' eq_refl Hi Hk).
    + apply IH. intros i j ei ej Hi Hj Hk. by injection (Hu (S i) (S j) ei ej Hi Hj Hk).
  - apply IH. intros i j ei ej Hi Hj Hk. by injection (Hu (S i) (S j) ei ej Hi Hj Hk).
Qed.

Lemma omap_id_full (l : list (option ColStatsEntry)) :
  (∀ i o, l !! i = Some o → is_Some o) → length (omap id l) = length l.
Proof.
  induction l as [|[e|] l IH]; intros Hl; simpl; [done| |].
  - f_equal. apply IH. intros i o Hi. by apply (Hl (S i)).
  - by destruct (Hl 0%nat None eq_refl).
Qed.

Lemma omap_id_le (l : list (option ColStatsEntry)) : (length (omap id l) ≤ length l)%nat.
Proof. induction l as [|[e|] l IH]; csimpl; lia. Qed.

Lemma omap_id_free (l : list (option ColStatsEntry)) i :
  l !! i = Some None → (length (omap id l) < length l)%nat.
Proof.
  revert i. induction l as [|o l IH]; intros [|i] Hi; csimpl in *; [done|done| |].
  - injection Hi as ->. pose proof (omap_id_le l). csimpl. lia.
  - specialize (IH i Hi). destruct o; csimpl; lia.
Qed.

Lemma live_elem t e : e ∈ live t ↔ ∃ i, slots t !! i = Some (Some e).
Proof.
  unfold live. rewrite list_elem_of_omap. setoid_rewrite list_elem_of_lookup. split.
  - intros (o & [i Hi] & Ho). exists i. by unfold id in Ho; subst o.
  - intros [i Hi]. exists (Some e). eauto.
Qed.

Lemma live_fst t : ((λ e, (key e, e)) <$> live t).*1 = key <$> live t.
Proof. rewrite <- list_fmap_compose. by apply list_fmap_ext. Qed.

Lemma abs_lookup t k e : unique_keys t →
  abs_table t !! k = Some e ↔ key e = k ∧ ∃ i, slots t !! i = Some (Some e).
Proof.
  intros Hu. unfold abs_table. rewrite <- elem_of_list_to_map
    by (rewrite live_fst; by apply omap_id_NoDup).
  rewrite list_elem_of_fmap, <- live_elem. split.
  - by intros (e' & [= -> ->] & He').
  - intros [<- He]. eauto.
Qed.

Lemma abs_lookup_None t k : unique_keys t →
  abs_table t !! k = None ↔ ∀ i e, slots t !! i = Some (Some e) → key e ≠ k.
Proof.
  intros Hu. rewrite eq_None_not_Some. split.
  - intros Hn i e Hi Hk. apply Hn. exists e. apply abs_lookup; eauto.
  - intros Hn [e (Hk & i & Hi)%abs_lookup]; [|done]. by apply (Hn i e).
Qed.

Lemma abs_size t : unique_keys t → size (abs_table t) = length (live t).
Proof.
  intros Hu. unfold abs_table. rewrite map_size_list_to_map, length_fmap; [done|].
  rewrite live_fst. by apply omap_id_NoDup.
Qed.

(** Writing an entry into the only slot its key may use. *)
Lemma abs_write t i e : table_len t → unique_keys t → 0 ≤ i < ADVISOR_HASH_SIZE →
  (∀ j e', slots t !! j = Some (Some e') → key e' = key e ↔ j = Z.to_nat i) →
  unique_keys (set_entry i e true t) ∧
  abs_table (set_entry i e true t) = <[key e := e]> (abs_table t).
Proof.
  intros Hl Hu Hi Hown.
  assert (Hlt : (Z.to_nat i < length (slots t))%nat) by (rewrite slots_length by done; lia).
  assert (Hu' : unique_keys (set_entry i e true t)).
  { intros a b ea eb. rewrite !slots_set.
    intros [(<- & [= ->] & _)|[Hna Ha]]%list_lookup_insert_Some
      [(<- & [= ->] & _)|[Hnb Hb]]%list_lookup_insert_Some Hk; [done| | |by eapply Hu].
    - symmetry. by apply (Hown b eb Hb).
    - by apply (Hown a ea Ha). }
  split; [done|]. apply map_eq. intros k. apply option_eq. intros x.
  rewrite lookup_insert_Some, !abs_lookup by done. setoid_rewrite slots_set.
  setoid_rewrite list_lookup_insert_Some. split.
  - intros (Hk & j & [(Hj & [= ->] & _)|[Hj Hx]]); [by left|right]. split; [|by eauto].
    intros He. apply Hj. symmetry. apply (Hown j x Hx). congruence.
  - intros [[Hk ->]|(Hne & Hk & j & Hj)]; (split; [done|]).
    + exists (Z.to_nat i). by left.
    + exists j. right. split; [|done]. intros Hij. apply Hne.
      rewrite <- Hk. symmetry. by apply (Hown j x Hj).
Qed.

Lemma abs_clear t i e : unique_keys t → slots t !! Z.to_nat i = Some (Some e) →
  unique_keys (set_entry i zero_stats false t) ∧
  abs_table (set_entry i zero_stats false t) = delete (key e) (abs_table t).
Proof.
  intros Hu Hi.
  assert (Hu' : unique_keys (set_entry i zero_stats false t)).
  { intros a b ea eb. rewrite !slots_set.
    intros [(_ & [=] & _)|[_ Ha]]%list_lookup_insert_Some
      [(_ & [=] & _)|[_ Hb]]%list_lookup_insert_Some Hk. by eapply Hu. }
  split; [done|]. apply map_eq. intros k. apply option_eq. intros x.
  rewrite lookup_delete_Some, !abs_lookup by done. setoid_rewrite slots_set.
  setoid_rewrite list_lookup_insert_Some. split.
  - intros (Hk & j & [(_ & [=] & _)|[Hj Hx]]). split; [|by eauto].
    intros He. apply Hj. eapply Hu; [done|done|congruence].
  - intros (Hne & Hk & j & Hj). split; [done|]. exists j. right. split; [|done].
    intros <-. rewrite Hi in Hj. injection Hj as ->. done.
Qed.

Lemma chains_write t i e : table_len t → chains t → 0 ≤ i < ADVISOR_HASH_SIZE →
  (∀ j, 0 ≤ j < dist (advisor_hash_fn (key e)) i → occupied t (pos (advisor_hash_fn (key e)) j)) →
  chains (set_entry i e true t).
Proof.
  intros Hl Hc Hi He.
  assert (Hlt : (Z.to_nat i < length (slots t))%nat) by (rewrite slots_length by done; lia).
  assert (Hmono : ∀ a, occupied t a → occupied (set_entry i e true t) a).
  { intros a [x Hx]. unfold occupied. rewrite slots_set.
    destruct (decide (Z.to_nat i = Z.to_nat a)) as [Hia|Hia].
    - exists e. rewrite <- Hia. by apply list_lookup_insert_eq.
    - exists x. by rewrite list_lookup_insert_ne. }
  intros a x Ha. rewrite slots_set.
  intros [(Heq & [= ->] & _)|[_ Hx]]%list_lookup_insert_Some j Hj; apply Hmono.
  - apply He. by replace i with a by lia.
  - by apply (Hc a x).
Qed.

(** ** Find, create and accumulate *)

Lemma probe_present t k e : table_wf t → abs_table t !! k = Some e →
  ∃ i, probe_key t k = Some (PMatch i) ∧ 0 ≤ i < ADVISOR_HASH_SIZE ∧
    is_used t i = true ∧ entry_at t i = e ∧ key e = k.
Proof.
  intros [Hl Hu Hc] (Hk & i' & Hi')%abs_lookup; [|done].
  destruct (slots_index t i' e Hl Hi') as (i & Hib & -> & Hus & He).
  set (h := advisor_hash_fn k). pose proof (dist_bounds h i) as Hd.
  assert (Hhit : ∀ m, 0 ≤ m → (∀ j, 0 ≤ j < m → busy t k (pos h j)) → m ≤ dist h i).
  { intros m Hm Hp. destruct (decide (dist h i < m)) as [Hlt|]; [|lia].
    destruct (Hp (dist h i) ltac:(lia)) as [_ Hb]. rewrite pos_dist, He in Hb by done. done. }
  destruct (probe_key_spec t k) as ([a|a|] & Hr & Hm); fold h in Hm; simpl in Hm.
  - exfalso. destruct Hm as (n & Hn & -> & Hp & Hf). specialize (Hhit n ltac:(lia) Hp).
    destruct (decide (n = dist h i)) as [->|Hne]; [rewrite pos_dist in Hf by done; congruence|].
    assert (Ho : occupied t (pos h n)).
    { subst k. apply (Hc i e); [done|done|fold h; lia]. }
    apply occupied_used in Ho; [congruence|done|apply pos_bounds].
  - destruct Hm as (n & Hn & -> & Hp & Ha & Hak). exists (pos h n). split; [done|].
    assert (Hz : Z.to_nat (pos h n) = Z.to_nat i).
    { eapply (Hu _ _ (entry_at t (pos h n)) e); [|done|congruence].
      rewrite slot_lookup, Ha by (done || apply pos_bounds). done. }
    replace (pos h n) with i by (pose proof (pos_bounds h n); lia). done.
  - specialize (Hhit ADVISOR_HASH_SIZE ltac:(done) Hm). lia.
Qed.

Lemma probe_absent t k : table_wf t → abs_table t !! k = None →
  (∃ i, probe_key t k = Some (PUnused i) ∧ 0 ≤ i < ADVISOR_HASH_SIZE ∧ is_used t i = false ∧
    ∀ j, 0 ≤ j < dist (advisor_hash_fn k) i → occupied t (pos (advisor_hash_fn k) j)) ∨
  (probe_key t k = Some PWrapped ∧ ∀ i, 0 ≤ i < ADVISOR_HASH_SIZE → is_used t i = true).
Proof.
  intros [Hl Hu Hc] Hn. rewrite abs_lookup_None in Hn by done.
  destruct (probe_key_spec t k) as ([a|a|] & Hr & Hm); simpl in Hm.
  - left. destruct Hm as (n & Hnb & -> & Hp & Hf). eexists; split_and!; [done| | |done|].
    1,2: apply pos_bounds.
    rewrite dist_pos by done. intros j Hj.
    apply occupied_used; [done|apply pos_bounds|]. by destruct (Hp j Hj).
  - exfalso. destruct Hm as (n & Hnb & -> & Hp & Ha & Hk).
    eapply (Hn (Z.to_nat (pos _ n))); [|exact Hk].
    rewrite slot_lookup, Ha by (done || apply pos_bounds). done.
  - right. split; [done|]. intros i Hi.
    destruct (Hm (dist (advisor_hash_fn k) i) (dist_bounds _ _)) as [Hb _].
    by rewrite pos_dist in Hb.
Qed.

Lemma size_full t : table_wf t → (∀ i, 0 ≤ i < ADVISOR_HASH_SIZE → is_used t i = true) →
  Z.of_nat (size (abs_table t)) = ADVISOR_HASH_SIZE.
Proof.
  intros [Hl Hu _] Hf. rewrite abs_size by done. unfold live. rewrite omap_id_full, slots_length.
  - by rewrite Z2Nat.id.
  - done.
  - intros i o Hi. pose proof (lookup_lt_Some _ _ _ Hi) as Hlt. rewrite slots_length in Hlt by done.
    pose proof (slot_lookup t (Z.of_nat i) Hl ltac:(lia)) as Hs.
    rewrite Nat2Z.id, Hi, Hf in Hs by lia. by simplify_eq.
Qed.

Lemma size_free t i : table_wf t → 0 ≤ i < ADVISOR_HASH_SIZE → is_used t i = false →
  Z.of_nat (size (abs_table t)) < ADVISOR_HASH_SIZE.
Proof.
  intros [Hl Hu _] Hi Hf. rewrite abs_size by done.
  pose proof (omap_id_free (slots t) (Z.to_nat i)) as Hlt.
  rewrite slot_lookup, Hf, slots_length in Hlt by done. specialize (Hlt eq_refl).
  unfold live. lia.
Qed.

(** The slot [i] belongs to key [k]: it is where a probe for [k] may write. *)
Lemma write_match t i e e' : table_wf t → 0 ≤ i < ADVISOR_HASH_SIZE → is_used t i = true →
  entry_at t i = e → key e' = key e →
  table_wf (set_entry i e' true t) ∧
  abs_table (set_entry i e' true t) = <[key e := e']> (abs_table t).
Proof.
  intros [Hl Hu Hc] Hi Hus He Hk.
  assert (Hs : slots t !! Z.to_nat i = Some (Some e)) by (rewrite slot_lookup, Hus, He; done).
  destruct (abs_write t i e') as [Hu' Habs]; [done|done|done| |].
  { intros j x Hx. rewrite Hk. split; [intros; by eapply Hu|].
    intros ->. rewrite Hs in Hx. by injection Hx as ->. }
  rewrite Habs, Hk. split; [|done]. split; [by apply table_len_set|done|].
  apply chains_write; [done|done|done|]. rewrite Hk. by apply Hc.
Qed.

Lemma write_unused t i k e : table_wf t → 0 ≤ i < ADVISOR_HASH_SIZE → is_used t i = false →
  abs_table t !! k = None → key e = k →
  (∀ j, 0 ≤ j < dist (advisor_hash_fn k) i → occupied t (pos (advisor_hash_fn k) j)) →
  table_wf (set_entry i e true t) ∧
  abs_table (set_entry i e true t) = <[k := e]> (abs_table t).
Proof.
  intros [Hl Hu Hc] Hi Hus Hn Hk Hch. rewrite abs_lookup_None in Hn by done.
  destruct (abs_write t i e) as [Hu' Habs]; [done|done|done| |].
  { intros j x Hx. rewrite Hk. split; [intros Hkx; by destruct (Hn j x)|].
    intros ->. rewrite slot_lookup, Hus in Hx by done. done. }
  rewrite Habs, Hk. split; [|done]. split; [by apply table_len_set|done|].
  apply chains_write; [done|done|done|]. by rewrite Hk.
Qed.

Lemma entry_at_set t i e u : table_len t → 0 ≤ i < ADVISOR_HASH_SIZE →
  entry_at (set_entry i e u t) i = e ∧ is_used (set_entry i e u t) i = u.
Proof.
  intros [H1 H2] Hi. unfold entry_at, is_used, set_entry; simpl.
  rewrite !list_lookup_insert_eq by lia. done.
Qed.

Lemma accumulate_spec t k cost ts : table_wf t →
  table_wf (accumulate cost ts t k) ∧
  abs_table (accumulate cost ts t k) = absorb (abs_table t) (k, cost, ts).
Proof.
  intros Hwf. unfold accumulate, advisor_hash_find_or_create, absorb.
  destruct (abs_table t !! k) as [e|] eqn:Hk.
  - destruct (probe_present t k e Hwf Hk) as (i & -> & Hi & Hus & He & <-).
    rewrite He. by apply write_match.
  - destruct (probe_absent t k Hwf Hk) as [(i & -> & Hi & Hus & Hch)|[-> Hf]].
    + rewrite bool_decide_true by (by eapply size_free).
      destruct (write_unused t i k (mkStats k 0 d0 0)) as [Hwf' Habs]; [done..|].
      destruct (entry_at_set t i (mkStats k 0 d0 0) true (wf_len t Hwf) Hi) as [He Hu].
      destruct (write_match _ i _ (bump cost ts (mkStats k 0 d0 0)) Hwf' Hi Hu He) as [Hwf'' Habs'];
        [done|].
      rewrite He. split; [done|]. by rewrite Habs', Habs, insert_insert_eq.
    + rewrite bool_decide_false by (rewrite size_full by done; lia). done.
Qed.

Lemma process_entry_events t e :
  process_entry t e = foldl (λ t ev, accumulate ev.1.2 ev.2 t ev.1.1) t (entry_events e).
Proof.
  unfold process_entry, entry_events, accumulate_cols, col_events.
  rewrite !foldl_app, !foldl_fmap. done.
Qed.

Lemma foldl_accumulate_spec evs : ∀ t, table_wf t →
  table_wf (foldl (λ t ev, accumulate ev.1.2 ev.2 t ev.1.1) t evs) ∧
  abs_table (foldl (λ t ev, accumulate ev.1.2 ev.2 t ev.1.1) t evs) =
    foldl absorb (abs_table t) evs.
Proof.
  induction evs as [|[[k c] ts] evs IH]; intros t Hwf; [done|]. simpl.
  destruct (accumulate_spec t k c ts Hwf) as [Hwf' Habs].
  destruct (IH _ Hwf') as [Hwf'' Habs']. by rewrite Habs', Habs.
Qed.

Lemma drain_loop_read n : ∀ s h t tab,
  drain_loop n s h t tab =
    (λ r, (foldl process_entry tab r.1, r.2)) <$> ring_read n s h t.
Proof.
  induction n as [|n IH]; intros s h t tab; simpl; (destruct (h =? t); [done|]); [done|].
  rewrite IH. by destruct (ring_read n s (u64 (h + 1)) t) as [[]|].
Qed.

Lemma drain_reads s t :
  drain_ring_buffer (Some s) t =
    (λ r, (Some r.2, foldl process_entry t r.1)) <$> ring_read_all s.
Proof.
  unfold drain_ring_buffer, ring_read_all. rewrite drain_loop_read.
  by destruct (ring_read _ s _ _) as [[es h]|].
Qed.

Lemma foldl_process_events es : ∀ t,
  foldl process_entry t es =
    foldl (λ t ev, accumulate ev.1.2 ev.2 t ev.1.1) t (es ≫= entry_events).
Proof.
  induction es as [|e es IH]; intros t; [done|].
  csimpl. by rewrite foldl_app, process_entry_events, IH.
Qed.

Lemma drain_spec s t : ring_wf s →
  drain_ring_buffer (Some s) t =
    Some (Some (set_head (tail (ring s)) s),
          foldl (λ t ev, accumulate ev.1.2 ev.2 t ev.1.1) t (ring_queue s ≫= entry_events)).
Proof.
  intros Hs. rewrite drain_reads, ring_read_all_spec by done.
  simpl. by rewrite foldl_process_events.
Qed.

Lemma absorb_lookup m ev k e : m !! k = Some e →
  absorb m ev !! k = Some (if bool_decide (ev.1.1 = k) then bump ev.1.2 ev.2 e else e).
Proof.
  destruct ev as [[k' c] ts]. intros Hk. unfold absorb; simpl.
  destruct (decide (k' = k)) as [->|Hne].
  { rewrite Hk, lookup_insert_eq. by rewrite bool_decide_true. }
  rewrite (bool_decide_false (k' = k)) by done.
  destruct (m !! k'); [by rewrite lookup_insert_ne|].
  case_bool_decide; [by rewrite lookup_insert_ne|done].
Qed.

Lemma foldl_absorb_lookup evs : ∀ m k e, m !! k = Some e →
  foldl absorb m evs !! k = Some (apply_events k evs e).
Proof.
  induction evs as [|ev evs IH]; intros m k e Hk; [done|]. simpl.
  by apply IH, absorb_lookup.
Qed.

Lemma apply_events_rent k evs : ∀ e, Forall (λ ev, cost_ok ev.1.2 = true) evs →
  cost_ok (cumulative_rent e) = true →
  cost_ok (cumulative_rent (apply_events k evs e)) = true ∧
  dleb (cumulative_rent e) (cumulative_rent (apply_events k evs e)) = true.
Proof.
  induction evs as [|[[k' c] ts] evs IH]; intros e Hc He.
  { split; [done|]. apply dleb_refl, nonneg_not_nan. by apply andb_prop in He as []. }
  inv Hc as [|? ? Hcost Hrest]. simpl in Hcost. unfold apply_events; simpl.
  case_bool_decide; [|by apply IH].
  apply andb_prop in Hcost as [? ?], He as [? ?].
  destruct (dadd_nonneg_spec (cumulative_rent e) c) as (Hv & Hn & Hle & _); [done..|].
  destruct (IH (bump c ts e) Hrest) as [Hok Hle']; [unfold cost_ok; simpl; by rewrite Hv, Hn|].
  split; [done|]. by eapply dleb_trans.
Qed.

Lemma Forall_bind_events es : Forall (λ w, cost_ok (plan_cost w) = true) es →
  Forall (λ ev, cost_ok ev.1.2 = true) (es ≫= entry_events).
Proof.
  induction 1 as [|w es Hw Hes IH]; csimpl; [constructor|]. apply Forall_app. split; [|done].
  unfold entry_events, col_events. rewrite !Forall_app, !Forall_fmap.
  split_and!; apply Forall_true; done.
Qed.

(** ** Removal and eviction *)

Lemma remove_spec t k : table_wf t →
  table_len (advisor_hash_remove t k) ∧ unique_keys (advisor_hash_remove t k) ∧
  abs_table (advisor_hash_remove t k) = delete k (abs_table t).
Proof.
  intros Hwf. pose proof Hwf as [Hl Hu _]. unfold advisor_hash_remove.
  destruct (abs_table t !! k) as [e|] eqn:Hk.
  - destruct (probe_present t k e Hwf Hk) as (i & -> & Hi & Hus & He & <-).
    split; [by apply table_len_set|]. apply abs_clear; [done|].
    by rewrite slot_lookup, Hus, He.
  - rewrite delete_id by done.
    by destruct (probe_absent t k Hwf Hk) as [(i & -> & _)|[-> _]].
Qed.

Lemma slots_evict now w t :
  slots (advisor_hash_evict_stale now w t) =
    (λ o, match o with Some e => if stale now w e then None else Some e | None => None end)
      <$> slots t.
Proof.
  unfold slots, advisor_hash_evict_stale; simpl.
  revert t. intros [es us]; simpl. revert us.
  induction es as [|e es IH]; intros [|u us]; simpl; [done..|].
  f_equal; [by destruct u, (stale now w e)|apply IH].
Qed.

Lemma slots_evict_lookup now w t i e :
  slots (advisor_hash_evict_stale now w t) !! i = Some (Some e) ↔
  slots t !! i = Some (Some e) ∧ stale now w e = false.
Proof.
  rewrite slots_evict, list_lookup_fmap. destruct (slots t !! i) as [[x|]|]; simpl;
    [|by split; [|intros []]..].
  destruct (stale now w x) eqn:Hx; split.
  - done.
  - intros [[= ->] ?]. congruence.
  - by intros [= ->].
  - by intros [[= ->] ?].
Qed.

Lemma evict_spec now w t : table_len t → unique_keys t →
  table_len (advisor_hash_evict_stale now w t) ∧
  unique_keys (advisor_hash_evict_stale now w t) ∧
  abs_table (advisor_hash_evict_stale now w t) =
    filter (λ ke, stale now w ke.2 = false) (abs_table t).
Proof.
  intros [H1 H2] Hu.
  assert (Hu' : unique_keys (advisor_hash_evict_stale now w t)).
  { intros i j ei ej [Hi _]%slots_evict_lookup [Hj _]%slots_evict_lookup. by apply Hu. }
  split_and!; [|done|].
  - unfold advisor_hash_evict_stale. split; simpl; rewrite !length_zip_with, H1, H2; lia.
  - apply map_eq. intros k. apply option_eq. intros x.
    rewrite map_lookup_filter_Some, !abs_lookup by done. setoid_rewrite slots_evict_lookup.
    simpl. split; [intros (? & i & ? & ?)|intros [(? & i & ?) ?]]; eauto.
Qed.

(** Without collisions no probe passes over a slot, so no chain can be cut. *)
Lemma collision_free_chains t : collision_free t → chains t.
Proof.
  intros Hf i e Hi Hs j Hj. rewrite (Hf i e Hi Hs) in Hj. unfold dist in Hj.
  rewrite Z.sub_diag in Hj. change (0 mod ADVISOR_HASH_SIZE) with 0 in Hj. lia.
Qed.

Lemma collision_free_remove t k : collision_free t → collision_free (advisor_hash_remove t k).
Proof.
  intros Hf. unfold advisor_hash_remove.
  destruct (probe_key t k) as [[i|i|]|]; [done| |done|done].
  intros a e Ha. rewrite slots_set. intros [(_ & [=] & _)|[_ Hx]]%list_lookup_insert_Some.
  by apply Hf.
Qed.

Lemma collision_free_evict now w t :
  collision_free t → collision_free (advisor_hash_evict_stale now w t).
Proof. intros Hf i e Hi [Hs _]%slots_evict_lookup. by apply Hf. Qed.

(** ** The empty table *)

Lemma slots_replicate n i o :
  slots (mkAdvisor (replicate n zero_stats) (replicate n false)) !! i = Some o → o = None.
Proof.
  unfold slots; simpl. rewrite lookup_zip_with.
  destruct (replicate n zero_stats !! i) as [x|]; [|done]. simpl.
  destruct (replicate n false !! i) as [u|] eqn:Hu; [|done]. simpl.
  apply lookup_replicate in Hu as [-> _]. by intros [= <-].
Qed.

Lemma collision_free_init : collision_free advisor_init.
Proof. by intros i e _ H%slots_replicate. Qed.

Lemma table_wf_init : table_wf advisor_init.
Proof.
  split.
  - split; apply length_replicate.
  - by intros i j ei ej H%slots_replicate.
  - apply collision_free_chains, collision_free_init.
Qed.

Lemma one_entry_ring s e : length (entries (ring s)) = Z.to_nat AUTOINDEX_RING_SIZE →
  head (ring s) = 0 →
  ring_wf (set_tail 1 (set_slot (slot 0) e s)) ∧
  ring_queue (set_tail 1 (set_slot (slot 0) e s)) = [e].
Proof.
  intros Hl Hh. split.
  - unfold ring_wf; simpl. rewrite length_insert, Hh. unfold AUTOINDEX_RING_SIZE in *.
    split_and!; [done|lia..].
  - unfold ring_queue; simpl. rewrite Hh. simpl. f_equal.
    by apply (ring_entry_set_same s 0 e).
Qed.

Lemma ring_wf_example : ring_wf example_ring.
Proof. apply one_entry_ring; [apply ring_wf_init|exact eq_refl]. Qed.

Lemma ring_queue_example : ring_queue example_ring = [example_entry].
Proof. apply one_entry_ring; [apply ring_wf_init|exact eq_refl]. Qed.

(** ** Properties *)

(** C7.  On a well-formed table [advisor_hash_find_or_create] is lookup-or-insert
    on a finite map of at most 2048 keys: it returns the slot of the key's
    entry, or a fresh zeroed entry for the key, and returns [NULL] leaving the
    table alone only when 2048 other keys are stored. *)
Theorem find_or_create_refines t k : table_wf t →
  match abs_table t !! k, advisor_hash_find_or_create t k with
  | Some e, (t', r) => t' = t ∧ ∃ i, r = Some i ∧ 0 ≤ i < ADVISOR_HASH_SIZE ∧ entry_at t i = e
  | None, (t', Some i) =>
      table_wf t' ∧ 0 ≤ i < ADVISOR_HASH_SIZE ∧ entry_at t' i = mkStats k 0 d0 0 ∧
      abs_table t' = <[k := mkStats k 0 d0 0]> (abs_table t)
  | None, (t', None) => t' = t ∧ Z.of_nat (size (abs_table t)) = ADVISOR_HASH_SIZE
  end.
Proof.
  intros Hwf. unfold advisor_hash_find_or_create. destruct (abs_table t !! k) as [e|] eqn:Hk.
  - destruct (probe_present t k e Hwf Hk) as (i & -> & Hi & _ & He & _). eauto.
  - destruct (probe_absent t k Hwf Hk) as [(i & -> & Hi & Hus & Hch)|[-> Hf]].
    + destruct (write_unused t i k (mkStats k 0 d0 0)) as [Hwf' Habs]; [done..|].
      destruct (entry_at_set t i (mkStats k 0 d0 0) true (wf_len t Hwf) Hi) as [He _]. done.
    + by split; [|apply size_full].
Qed.

Lemma find_or_create_refines_witness :
  ∃ i, (advisor_hash_find_or_create advisor_init key_a).2 = Some i ∧
    abs_table (advisor_hash_find_or_create advisor_init key_a).1 =
      <[key_a := mkStats key_a 0 d0 0]> (abs_table advisor_init).
Proof.
  pose proof (find_or_create_refines advisor_init key_a table_wf_init) as H.
  assert (E : abs_table advisor_init !! key_a = None) by (by vm_compute).
  assert (E' : (advisor_hash_find_or_create advisor_init key_a).2 = Some 143) by (by vm_compute).
  rewrite E in H. destruct (advisor_hash_find_or_create advisor_init key_a) as [t' [i|]]; [|done].
  exists i. destruct H as (_ & _ & _ & H). by split.
Defined.

(** C3.  A drain consumes the whole queue, moves [head] to [tail], keeps the
    table well formed, and its effect on the map is that of the accumulations
    of the queued entries, in queue order (predicates, joins, sorts within an
    entry), where a new key is ignored once 2048 keys are stored. *)
Theorem drain_refines s t : ring_wf s → table_wf t →
  ∃ t', drain_ring_buffer (Some s) t = Some (Some (set_head (tail (ring s)) s), t') ∧
    table_wf t' ∧
    abs_table t' = foldl absorb (abs_table t) (ring_queue s ≫= entry_events).
Proof.
  intros Hs Hwf. rewrite drain_spec by done. eexists; split; [done|].
  by apply foldl_accumulate_spec.
Qed.

Lemma drain_refines_witness :
  ∃ t', drain_ring_buffer (Some example_ring) advisor_init =
      Some (Some (set_head 1 example_ring), t') ∧
    abs_table t' = absorb (abs_table advisor_init)
      (mkKey 20000 2 USAGE_PREDICATE, d_of_Z 500, 9).
Proof.
  destruct (drain_refines example_ring advisor_init ring_wf_example table_wf_init)
    as (t' & H & _ & H'). rewrite ring_queue_example in H'. exists t'. exact (conj H H').
Defined.

(** Rent accounting: for a column and usage already in the table, a drain
    applies exactly the events of that column, in order (one execution and the
    plan cost each, and the last event's time stamp), and with costs as the
    planner produces them the rent is never lowered by rounding. *)
Theorem drain_rent s t k e : ring_wf s → table_wf t →
  abs_table t !! k = Some e →
  Forall (λ w, cost_ok (plan_cost w) = true) (ring_queue s) →
  cost_ok (cumulative_rent e) = true →
  ∃ s' t' e', drain_ring_buffer (Some s) t = Some (s', t') ∧ abs_table t' !! k = Some e' ∧
    e' = apply_events k (ring_queue s ≫= entry_events) e ∧
    dleb (cumulative_rent e) (cumulative_rent e') = true.
Proof.
  intros Hs Hwf Hk Hc He. rewrite drain_spec by done.
  do 3 eexists; split_and!; [done| |done|].
  - rewrite (proj2 (foldl_accumulate_spec _ t Hwf)). by apply foldl_absorb_lookup.
  - apply apply_events_rent; [|done]. by apply Forall_bind_events.
Qed.

Lemma drain_rent_witness :
  let t := accumulate (d_of_Z 100) 5 advisor_init (mkKey 20000 2 USAGE_PREDICATE) in
  ∃ s' t' e', drain_ring_buffer (Some example_ring) t = Some (s', t') ∧
    abs_table t' !! mkKey 20000 2 USAGE_PREDICATE = Some e' ∧
    e' = mkStats (mkKey 20000 2 USAGE_PREDICATE) 2 (d_of_Z 600) 9.
Proof.
  set (k := mkKey 20000 2 USAGE_PREDICATE). intros t.
  destruct (accumulate_spec advisor_init k (d_of_Z 100) 5 table_wf_init) as [Hwf Habs].
  destruct (drain_rent example_ring t k (mkStats k 1 (d_of_Z 100) 5) ring_wf_example Hwf)
    as (s' & t' & e' & H1 & H2 & H3 & _).
  - by vm_compute.
  - rewrite ring_queue_example. by repeat constructor.
  - by vm_compute.
  - exists s', t', e'. split; [done|]. split; [done|].
    rewrite ring_queue_example in H3. rewrite H3. by vm_compute.
Defined.

(** Whatever the state of the table, broken probe chains included,
    [advisor_hash_find_or_create] terminates and never credits a column with
    another one's work: the slot it returns carries the requested key and no
    other slot is touched; it returns [NULL] only if all 2048 slots are in use
    by other keys. *)
Theorem find_or_create_sound t k : table_len t →
  match advisor_hash_find_or_create t k with
  | (t', Some i) =>
      table_len t' ∧ 0 ≤ i < ADVISOR_HASH_SIZE ∧
      is_used t' i = true ∧ key (entry_at t' i) = k ∧
      (t' = t ∨ is_used t i = false ∧ entry_at t' i = mkStats k 0 d0 0) ∧
      (∀ j, 0 ≤ j < ADVISOR_HASH_SIZE → j ≠ i →
        is_used t' j = is_used t j ∧ entry_at t' j = entry_at t j)
  | (t', None) => t' = t ∧ ∀ i, 0 ≤ i < ADVISOR_HASH_SIZE → busy t k i
  end.
Proof.
  intros Hl. unfold advisor_hash_find_or_create.
  destruct (probe_key_spec t k) as ([a|a|] & -> & Hm); simpl in Hm.
  - destruct Hm as (n & _ & -> & _ & Hf). set (i := pos _ n).
    pose proof (pos_bounds (advisor_hash_fn k) n) as Hi. fold i in Hi.
    destruct (entry_at_set t i (mkStats k 0 d0 0) true Hl Hi) as [He Hu].
    split_and!; [by apply table_len_set|lia|lia|done|by rewrite He|by right|].
    intros j Hj Hne. unfold is_used, entry_at, set_entry; simpl.
    rewrite !list_lookup_insert_ne by lia. done.
  - destruct Hm as (n & _ & -> & _ & Hu & Hk).
    pose proof (pos_bounds (advisor_hash_fn k) n). split_and!; [done|lia|lia|done|done|by left|done].
  - split; [done|]. intros i Hi.
    specialize (Hm (dist (advisor_hash_fn k) i) (dist_bounds _ _)). by rewrite pos_dist in Hm.
Qed.

Lemma find_or_create_sound_witness :
  table_len (advisor_hash_find_or_create advisor_init key_b).1.
Proof.
  pose proof (find_or_create_sound advisor_init key_b (wf_len _ table_wf_init)) as H.
  destruct (advisor_hash_find_or_create advisor_init key_b) as [t' [i|]].
  - apply H.
  - destruct H as [-> _]. exact (wf_len _ table_wf_init).
Defined.

(** On a well-formed table [advisor_hash_remove] deletes exactly the given
    key from the map; if no entry was displaced by a collision the table stays
    well formed. *)
Theorem remove_refines t k : table_wf t →
  abs_table (advisor_hash_remove t k) = delete k (abs_table t) ∧
  unique_keys (advisor_hash_remove t k) ∧
  (collision_free t →
    table_wf (advisor_hash_remove t k) ∧ collision_free (advisor_hash_remove t k)).
Proof.
  intros Hwf. destruct (remove_spec t k Hwf) as (Hl & Hu & Habs). split_and!; [done|done|].
  intros Hf. pose proof (collision_free_remove t k Hf) as Hf'. split; [|done].
  by split; [| |apply collision_free_chains].
Qed.

Lemma remove_refines_witness :
  abs_table (advisor_hash_remove (accumulate (d_of_Z 1) 1 advisor_init key_a) key_a) =
    delete key_a (abs_table (accumulate (d_of_Z 1) 1 advisor_init key_a)).
Proof.
  apply (remove_refines (accumulate (d_of_Z 1) 1 advisor_init key_a) key_a).
  apply accumulate_spec, table_wf_init.
Defined.

(** Eviction keeps exactly the entries that were never stamped or were seen
    within the workload window; if no entry was displaced by a collision the
    table stays well formed. *)
Theorem evict_refines now window t : table_wf t →
  abs_table (advisor_hash_evict_stale now window t) =
    filter (λ ke, stale now window ke.2 = false) (abs_table t) ∧
  unique_keys (advisor_hash_evict_stale now window t) ∧
  (collision_free t → table_wf (advisor_hash_evict_stale now window t) ∧
    collision_free (advisor_hash_evict_stale now window t)).
Proof.
  intros [Hl Hu _]. destruct (evict_spec now window t Hl Hu) as (Hl' & Hu' & Habs).
  split_and!; [done|done|]. intros Hf. pose proof (collision_free_evict now window t Hf).
  split; [|done]. by split; [| |apply collision_free_chains].
Qed.

Lemma evict_refines_witness :
  let t := accumulate (d_of_Z 1) 1 advisor_init key_a in
  abs_table (advisor_hash_evict_stale (31 * USECS_PER_DAY) 30 t) =
    filter (λ ke, stale (31 * USECS_PER_DAY) 30 ke.2 = false) (abs_table t) ∧
  size (abs_table t) = 1%nat ∧
  size (abs_table (advisor_hash_evict_stale (31 * USECS_PER_DAY) 30 t)) = 0%nat.
Proof.
  intros t. split; [|by vm_compute].
  apply (evict_refines (31 * USECS_PER_DAY) 30 t). apply accumulate_spec, table_wf_init.
Defined.

