(* ===== verification/LikeMatch.v ===== *)
(** * LIKE matching

    [MatchText] and [do_like_escape] of [like_match.c], compiled four times in
    [like.c] with different [NextChar] and [GETCHAR] macros: the single-byte,
    the UTF-8 and the case-folding instances are the instances of the section
    below.  AutoIndex recognises its own indexes by
    [relname LIKE 'autoindex_%'], which is a call of [namelike]. *)
From stdpp Require Import base tactics list strings numbers.
From Stdlib Require Import ZArith Lia Ascii.
From S2P Require Import Prelude.

Inductive like_result : Type := LIKE_TRUE | LIKE_FALSE | LIKE_ABORT.

#[global] Instance like_result_eq_dec : EqDecision like_result.
Proof. solve_decision. Defined.

(** The bytes with a meaning in patterns. *)
Definition ch_percent : Z := 37.

Definition ch_underscore : Z := 95.

Definition ch_backslash : Z := 92.

(** The bytes of a string constant of the source. *)
Fixpoint bytes (s : string) : list Z :=
  match s with
  | EmptyString => []
  | String c s' => Z.of_nat (nat_of_ascii c) :: bytes s'
  end.

Definition escape_error : pg_error :=
  ErrReport "LIKE pattern must not end with escape character".

(** ** MatchText *)

Section match_text.
  (** The macros [GETCHAR] and [NextChar], and for a nondeterministic locale the
      test [pg_strncoll(...) == 0] of the collation provider. *)
  Context (GETCHAR : Z → Z) (NextChar : list Z → list Z)
    (nondeterministic : option (list Z → list Z → bool)).

(** The loop that skips the wildcards after a [%]; [None] is [LIKE_ABORT]. *)
Fixpoint skip_wildcards (t p : list Z) : option (list Z * list Z) :=
  match p with
  | q :: p' =>
      if q =? ch_percent then skip_wildcards t p'
      else if q =? ch_underscore then
        match t with
        | [] => None
        | _ :: _ => skip_wildcards (NextChar t) p'
        end
      else Some (t, p)
  | [] => Some (t, p)
  end.

(** The search for a text position at which the rest of the pattern matches.
    [rec] is the recursive call on the pattern [p]; [n] bounds the iterations
    by the length of the text. *)
Fixpoint scan_text (n : nat) (rec : list Z → option (result like_result)) (firstpat : Z)
    (t : list Z) : option (result like_result) :=
  match t with
  | [] => Some (Ok LIKE_ABORT)
  | c :: _ =>
      match n with
      | O => None
      | S n' =>
          if (GETCHAR c =? firstpat) || bool_decide (is_Some nondeterministic) then
            match rec t with
            | Some (Ok LIKE_FALSE) => scan_text n' rec firstpat (NextChar t)
            | r => r
            end
          else scan_text n' rec firstpat (NextChar t)
      end
  end.

(** The [%] branch, after the percent sign. *)
Definition match_percent (rec : list Z → list Z → option (result like_result))
    (t p : list Z) : option (result like_result) :=
  match skip_wildcards t p with
  | None => Some (Ok LIKE_ABORT)
  | Some (_, []) => Some (Ok LIKE_TRUE)
  | Some (t, q :: p') =>
      if q =? ch_backslash then
        match p' with
        | [] => Some (Err escape_error)
        | q2 :: _ => scan_text (length t) (λ t, rec t (q :: p')) (GETCHAR q2) t
        end
      else scan_text (length t) (λ t, rec t (q :: p')) (GETCHAR q) t
  end.

(** The next substring of the pattern without wildcards, and the rest. *)
Fixpoint sub_pattern (p : list Z) : result (list Z * list Z) :=
  match p with
  | [] => Ok ([], [])
  | q :: p' =>
      if q =? ch_backslash then
        match p' with
        | [] => Err escape_error
        | q2 :: p'' => '(s, r) ← sub_pattern p''; Ok (q :: q2 :: s, r)
        end
      else if (q =? ch_underscore) || (q =? ch_percent) then Ok ([], p)
      else '(s, r) ← sub_pattern p'; Ok (q :: s, r)
  end.

(** The unescaped copy of the sub-pattern drops every backslash. *)
Definition unescape_sub (s : list Z) : list Z := filter (λ c, c ≠ ch_backslash) s.

(** The loop over ever longer prefixes of the text; [k] is [t1 - t]. *)
Fixpoint nondet_loop (n : nat) (rec : list Z → option (result like_result))
    (coll : list Z → list Z → bool) (subpat t t1 : list Z) : option (result like_result) :=
  let next :=
    match t1 with
    | [] => Some (Ok LIKE_FALSE)
    | _ :: _ =>
        match n with
        | O => None
        | S n' => nondet_loop n' rec coll subpat t (NextChar t1)
        end
    end in
  if coll subpat (take (length t - length t1) t) then
    match rec t1 with
    | Some (Ok LIKE_TRUE) => Some (Ok LIKE_TRUE)
    | Some (Ok _) => next
    | r => r
    end
  else next.

(** The branch for nondeterministic locales. *)
Definition match_nondet (rec : list Z → list Z → option (result like_result))
    (coll : list Z → list Z → bool) (t p : list Z) : option (result like_result) :=
  match sub_pattern p with
  | Err e => Some (Err e)
  | Ok (s, p1) =>
      let subpat := unescape_sub s in
      match p1 with
      | [] => Some (Ok (if coll subpat t then LIKE_TRUE else LIKE_FALSE))
      | _ :: _ => nondet_loop (length t) (λ t1, rec t1 p1) coll subpat t t
      end
  end.

(** The main loop and what follows it. *)
Fixpoint match_loop (rec : list Z → list Z → option (result like_result)) (t p : list Z)
    {struct p} : option (result like_result) :=
  match t, p with
  | c :: t', q :: p' =>
      if q =? ch_backslash then
        match p' with
        | [] => Some (Err escape_error)
        | q2 :: p'' =>
            if GETCHAR q2 =? GETCHAR c then match_loop rec t' p'' else Some (Ok LIKE_FALSE)
        end
      else if q =? ch_percent then match_percent rec t p'
      else if q =? ch_underscore then match_loop rec (NextChar t) p'
      else match nondeterministic with
      | Some coll => match_nondet rec coll t p
      | None => if GETCHAR q =? GETCHAR c then match_loop rec t' p' else Some (Ok LIKE_FALSE)
      end
  | _ :: _, [] => Some (Ok LIKE_FALSE)
  | [], _ => Some (Ok (if forallb (Z.eqb ch_percent) p then LIKE_TRUE else LIKE_ABORT))
  end.

(** Each recursive call is on a shorter pattern: [S (length p)] is enough fuel. *)
Fixpoint MatchText (fuel : nat) (t p : list Z) : option (result like_result) :=
  match fuel with
  | O => None
  | S fuel' =>
      if bool_decide (p = [ch_percent]) then Some (Ok LIKE_TRUE)
      else match_loop (MatchText fuel') t p
  end.

End match_text.

(** ** The instances *)

(** [NextByte] *)
Definition NextByte (t : list Z) : list Z := drop 1 t.

(** The UTF-8 [NextChar]: one byte and the continuation bytes after it. *)
Fixpoint skip_continuation (t : list Z) : list Z :=
  match t with
  | c :: t' => if Z.land c 192 =? 128 then skip_continuation t' else t
  | [] => []
  end.

Definition UTF8_NextChar (t : list Z) : list Z := skip_continuation (drop 1 t).

Definition pg_ascii_tolower (ch : Z) : Z :=
  if (65 <=? ch) && (ch <=? 90) then ch + 32 else ch.

Definition SB_MatchText (nd : option (list Z → list Z → bool)) (t p : list Z) :
    option (result like_result) :=
  MatchText id NextByte nd (S (length p)) t p.

Definition UTF8_MatchText (nd : option (list Z → list Z → bool)) (t p : list Z) :
    option (result like_result) :=
  MatchText id UTF8_NextChar nd (S (length p)) t p.

Definition C_IMatchText (nd : option (list Z → list Z → bool)) (t p : list Z) :
    option (result like_result) :=
  MatchText pg_ascii_tolower NextByte nd (S (length p)) t p.

(** Character lengths of an encoding other than UTF-8 come from its tables. *)
Definition MB_NextChar (pg_mblen : list Z → nat) (t : list Z) : list Z := drop (pg_mblen t) t.

Definition MB_MatchText (pg_mblen : list Z → nat) (nd : option (list Z → list Z → bool))
    (t p : list Z) : option (result like_result) :=
  MatchText id (MB_NextChar pg_mblen) nd (S (length p)) t p.

Inductive encoding : Type :=
| SingleByte
| PG_UTF8
| MultiByte (pg_mblen : list Z → nat).

(** [pg_newlocale_from_collation] gives the collation's locale: deterministic, or
    nondeterministic with its comparison; [None] is [InvalidOid]. *)
Definition GenericMatchText (enc : encoding) (collation : option (option (list Z → list Z → bool)))
    (s p : list Z) : option (result like_result) :=
  match collation with
  | None => Some (Err (ErrReport "could not determine which collation to use for LIKE"))
  | Some locale =>
      match enc with
      | SingleByte => SB_MatchText locale s p
      | PG_UTF8 => UTF8_MatchText locale s p
      | MultiByte pg_mblen => MB_MatchText pg_mblen locale s p
      end
  end.

Definition namelike (enc : encoding) (collation : option (option (list Z → list Z → bool)))
    (name pat : list Z) : option (result bool) :=
  match GenericMatchText enc collation name pat with
  | Some (Ok r) => Some (Ok (bool_decide (r = LIKE_TRUE)))
  | Some (Err e) => Some (Err e)
  | None => None
  end.

(** ** do_like_escape, single-byte instance *)

(** No escape character wanted: double the backslashes. *)
Fixpoint double_backslashes (p : list Z) : list Z :=
  match p with
  | [] => []
  | c :: p' =>
      if c =? ch_backslash then ch_backslash :: c :: double_backslashes p'
      else c :: double_backslashes p'
  end.

Fixpoint convert_escapes (e : Z) (afterescape : bool) (p : list Z) : list Z :=
  match p with
  | [] => []
  | c :: p' =>
      if (c =? e) && negb afterescape then ch_backslash :: convert_escapes e true p'
      else if c =? ch_backslash then
        (if afterescape then [ch_backslash] else [ch_backslash; ch_backslash]) ++
          convert_escapes e false p'
      else c :: convert_escapes e false p'
  end.

Definition SB_do_like_escape (pat esc : list Z) : result (list Z) :=
  match esc with
  | [] => Ok (double_backslashes pat)
  | [e] => if e =? ch_backslash then Ok pat else Ok (convert_escapes e false pat)
  | _ :: _ :: _ => Err (ErrReport "invalid escape string")
  end.

(** ** Reference semantics *)

Inductive token : Type :=
| TAny                 (* _ *)
| TMany                (* % *)
| TLit (c : Z).

(** The pattern with a given escape character, [None] for a dangling escape. *)
Fixpoint tokens (esc : option Z) (p : list Z) : option (list token) :=
  match p with
  | [] => Some []
  | q :: p' =>
      if bool_decide (Some q = esc) then
        match p' with
        | [] => None
        | q2 :: p'' => cons (TLit q2) <$> tokens esc p''
        end
      else if q =? ch_percent then cons TMany <$> tokens esc p'
      else if q =? ch_underscore then cons TAny <$> tokens esc p'
      else cons (TLit q) <$> tokens esc p'
  end.

(** Does the whole text match? *)
Fixpoint matches (fold : Z → Z) (ps : list token) (t : list Z) : bool :=
  match ps with
  | [] => bool_decide (t = [])
  | TAny :: ps' => match t with [] => false | _ :: t' => matches fold ps' t' end
  | TLit c :: ps' =>
      match t with [] => false | x :: t' => (fold c =? fold x) && matches fold ps' t' end
  | TMany :: ps' =>
      (fix any_suffix (t : list Z) : bool :=
         matches fold ps' t || match t with [] => false | _ :: t' => any_suffix t' end) t
  end.

(** What a result of [MatchText] promises to its caller. *)
Definition result_ok (fold : Z → Z) (ps : list token) (t : list Z) (r : like_result) : Prop :=
  (r = LIKE_TRUE ↔ matches fold ps t = true) ∧
  (r = LIKE_ABORT → ∀ s, s `suffix_of` t → matches fold ps s = false).

Definition like_pattern : list Z := bytes "autoindex_%".

(** Some suffix of the text matches. *)
Definition some_suffix (fold : Z → Z) (ps : list token) (t : list Z) : Prop :=
  ∃ s, s `suffix_of` t ∧ matches fold ps s = true.

(** ** Termination, for every instance *)

Section total.
  Context (GETCHAR : Z → Z) (NextChar : list Z → list Z)
    (nd : option (list Z → list Z → bool)).
  Context (NextChar_shorter : ∀ c t, (length (NextChar (c :: t)) ≤ length t)%nat).

Lemma scan_text_total rec firstpat n : ∀ t, (length t ≤ n)%nat →
  (∀ t, is_Some (rec t)) → is_Some (scan_text GETCHAR NextChar nd n rec firstpat t).
Proof.
  induction n as [|n IH]; intros [|c t] Hn Hrec; simpl in *; try done; try lia.
  assert (is_Some (scan_text GETCHAR NextChar nd n rec firstpat (NextChar (c :: t)))) as Hs.
  { apply IH; [|done]. specialize (NextChar_shorter c t). lia. }
  destruct (_ || _); [|done]. destruct (Hrec (c :: t)) as [[[]|] ->]; done.
Qed.

Lemma skip_wildcards_shorter p : ∀ t t1 p1,
  skip_wildcards NextChar t p = Some (t1, p1) → (length p1 ≤ length p)%nat.
Proof.
  induction p as [|q p IH]; intros t t1 p1; simpl; [intros [= <- <-]; simpl; lia|].
  destruct (q =? ch_percent); [intros H%IH; lia|].
  destruct (q =? ch_underscore); [|intros [= <- <-]; simpl; lia].
  destruct t; [done|]. intros H%IH. lia.
Qed.

Lemma match_percent_total rec t p :
  (∀ t p', (length p' ≤ length p)%nat → is_Some (rec t p')) →
  is_Some (match_percent GETCHAR NextChar nd rec t p).
Proof.
  intros Hrec. unfold match_percent.
  destruct (skip_wildcards NextChar t p) as [[t1 [|q p1]]|] eqn:Hs; [done| |done].
  apply skip_wildcards_shorter in Hs.
  assert (∀ a, is_Some (scan_text GETCHAR NextChar nd (length t1) (λ t, rec t (q :: p1)) a t1)).
  { intros a. apply scan_text_total; [lia|]. intros t'. by apply Hrec. }
  destruct (q =? ch_backslash); [destruct p1|]; done.
Qed.

Lemma sub_pattern_rest n : ∀ p s p1, (length p ≤ n)%nat →
  sub_pattern p = Ok (s, p1) → (length s + length p1 = length p)%nat.
Proof.
  induction n as [|n IH]; intros [|q p] s p1 Hn; simpl in *; try lia;
    try (intros [= <- <-]; done).
  destruct (q =? ch_backslash).
  - destruct p as [|q2 p]; [done|]. simpl in *.
    destruct (sub_pattern p) as [[s' r]|] eqn:Hs; [|done]. apply IH in Hs; [|lia].
    intros [= <- <-]. simpl. lia.
  - destruct ((q =? ch_underscore) || (q =? ch_percent)); [by intros [= <- <-]|].
    destruct (sub_pattern p) as [[s' r]|] eqn:Hs; [|done]. apply IH in Hs; [|lia].
    intros [= <- <-]. simpl. lia.
Qed.

Lemma nondet_loop_total rec coll sub t n : ∀ t1, (length t1 ≤ n)%nat →
  (∀ t, is_Some (rec t)) → is_Some (nondet_loop NextChar n rec coll sub t t1).
Proof.
  induction n as [|n IH]; intros [|c t1] Hn Hrec; simpl in *; try lia;
    (destruct (coll sub _); [|try done]).
  1,2: by destruct (Hrec []) as [[[]|] ->].
  - assert (is_Some (nondet_loop NextChar n rec coll sub t (NextChar (c :: t1)))) as Hs.
    { apply IH; [|done]. specialize (NextChar_shorter c t1). lia. }
    by destruct (Hrec (c :: t1)) as [[[]|] ->].
  - apply IH; [|done]. specialize (NextChar_shorter c t1). lia.
Qed.

Lemma match_nondet_total rec coll t q p :
  q ≠ ch_percent → q ≠ ch_underscore →
  (∀ t p', (length p' ≤ length p)%nat → is_Some (rec t p')) →
  is_Some (match_nondet NextChar rec coll t (q :: p)).
Proof.
  intros Hq1 Hq2 Hrec. unfold match_nondet.
  destruct (sub_pattern (q :: p)) as [[s [|q1 p1]]|] eqn:Hs; [done| |done].
  apply nondet_loop_total; [lia|]. intros t'. apply Hrec.
  pose proof (sub_pattern_rest _ _ _ _ (le_n _) Hs) as Hl. simpl in Hl.
  assert (s ≠ []); [|destruct s; simpl in *; [done|lia]].
  intros ->. simpl in Hs. destruct (q =? ch_backslash).
  - destruct p as [|q2 p]; [done|]. by destruct (sub_pattern p) as [[]|].
  - destruct (Z.eqb_spec q ch_underscore), (Z.eqb_spec q ch_percent); try done.
    by destruct (sub_pattern p) as [[]|].
Qed.

Lemma match_loop_total rec n : ∀ t p, (length p ≤ n)%nat →
  (∀ t p', (length p' < length p)%nat → is_Some (rec t p')) →
  is_Some (match_loop GETCHAR NextChar nd rec t p).
Proof.
  induction n as [|n IH]; intros [|c t] [|q p] Hn Hrec; simpl in *; try done; try lia.
  assert (IH' : ∀ t p', (length p' ≤ length p)%nat →
    is_Some (match_loop GETCHAR NextChar nd rec t p')).
  { intros t' p' Hp'. apply IH; [lia|]. intros t'' p'' ?. apply Hrec. lia. }
  destruct (q =? ch_backslash).
  { destruct p as [|q2 p]; [done|]. destruct (_ =? _); [|done]. apply IH'. simpl. lia. }
  destruct (Z.eqb_spec q ch_percent).
  { apply match_percent_total. intros t' p' ?. apply Hrec. lia. }
  destruct (Z.eqb_spec q ch_underscore); [by apply IH'|].
  destruct nd as [coll|].
  - apply match_nondet_total; [done|done|]. intros t' p' ?. apply Hrec. lia.
  - destruct (_ =? _); [|done]. by apply IH'.
Qed.

Lemma MatchText_total n : ∀ t p, (length p < n)%nat →
  is_Some (MatchText GETCHAR NextChar nd n t p).
Proof.
  induction n as [|n IH]; intros t p Hn; simpl; [lia|].
  case_bool_decide; [done|]. apply (match_loop_total _ (length p)); [done|].
  intros t' p' ?. apply IH. lia.
Qed.

End total.

(** ** Correctness of the single-byte instances *)

Section correct.
  Context (fold : Z → Z).

  Abbreviation toks := (tokens (Some ch_backslash)).
  Abbreviation Loop := (match_loop fold NextByte None).

(** [rec] answers correctly for the patterns shorter than [n]. *)
Definition rec_ok (rec : list Z → list Z → option (result like_result)) (n : nat) : Prop :=
  ∀ t p ps, (length p < n)%nat → toks p = Some ps →
    ∃ r, rec t p = Some (Ok r) ∧ result_ok fold ps t r.

Lemma matches_many ps t : matches fold (TMany :: ps) t = true ↔ some_suffix fold ps t.
Proof.
  induction t as [|c t IH]; simpl in *.
  - rewrite orb_false_r. split.
    + intros H. by exists [].
    + by intros (s & ->%suffix_nil_inv & H).
  - rewrite orb_true_iff, IH. split.
    + intros [H|(s & Hs & H)]; [by exists (c :: t)|]. exists s. split; [by apply suffix_cons_r|done].
    + intros (s & [->|Hs]%suffix_cons_cases & H); [by left|right]. by exists s.
Qed.

Lemma some_suffix_many ps t : some_suffix fold (TMany :: ps) t ↔ some_suffix fold ps t.
Proof.
  unfold some_suffix at 1. setoid_rewrite matches_many. split.
  - intros (s & Hs & s' & Hs' & H). exists s'. split; [by etrans|done].
  - intros H. by exists t.
Qed.

Lemma some_suffix_any ps c t : some_suffix fold (TAny :: ps) (c :: t) ↔ some_suffix fold ps t.
Proof.
  split.
  - intros ([|x s] & Hs & H); [done|]. exists s. split; [|done].
    apply suffix_cons_cases in Hs as [[= -> ->]|Hs]; [done|]. by eapply suffix_cons_l.
  - intros (s & [k ->] & H). destruct k as [|x k _] using rev_ind.
    + exists (c :: s). by split.
    + exists (x :: s). split; [|done]. exists (c :: k). simpl. by rewrite <- app_assoc.
Qed.

Lemma some_suffix_nil a ps : ¬ some_suffix fold (TLit a :: ps) [] ∧ ¬ some_suffix fold (TAny :: ps) [].
Proof. split; by intros (s & ->%suffix_nil_inv & H). Qed.

(** One pattern character against one text character. *)
Lemma result_ok_lit a c ps t r : fold a = fold c → result_ok fold ps t r →
  result_ok fold (TLit a :: ps) (c :: t) r.
Proof.
  intros He [Ht Ha]. split; [simpl; by rewrite He, Z.eqb_refl|]. intros Hr s Hs.
  apply suffix_cons_cases in Hs as [->|Hs]; simpl.
  - rewrite Ha; [apply andb_false_r|done|done].
  - destruct s as [|x s]; [done|]. rewrite Ha; [apply andb_false_r|done|by eapply suffix_cons_l].
Qed.

Lemma result_ok_any c ps t r : result_ok fold ps t r → result_ok fold (TAny :: ps) (c :: t) r.
Proof.
  intros [Ht Ha]. split; [done|]. intros Hr s Hs.
  apply suffix_cons_cases in Hs as [->|Hs]; simpl; [by apply Ha|].
  destruct s as [|x s]; [done|]. apply Ha; [done|]. by eapply suffix_cons_l.
Qed.

Lemma result_ok_false ps t : matches fold ps t = false → result_ok fold ps t LIKE_FALSE.
Proof. intros H. split; [|done]. rewrite H. by split. Qed.

Lemma result_ok_many ps t r : r ≠ LIKE_FALSE → (r = LIKE_TRUE ↔ some_suffix fold ps t) →
  result_ok fold (TMany :: ps) t r.
Proof.
  intros Hf Ht. split; [by rewrite matches_many|]. intros -> s Hs.
  apply not_true_iff_false. rewrite matches_many. intros (s' & Hs' & H).
  assert (LIKE_ABORT = LIKE_TRUE); [|done]. apply Ht. exists s'. split; [by etrans|done].
Qed.

Lemma toks_cons q p : q ≠ ch_backslash →
  toks (q :: p) = cons (if q =? ch_percent then TMany
                        else if q =? ch_underscore then TAny else TLit q) <$> toks p.
Proof.
  intros Hq. simpl. rewrite bool_decide_false by congruence.
  by destruct (q =? ch_percent), (q =? ch_underscore).
Qed.

Lemma toks_escape p : toks (ch_backslash :: p) =
  match p with [] => None | q2 :: p'' => cons (TLit q2) <$> toks p'' end.
Proof. done. Qed.

(** End of text: only percent signs may be left. *)
Lemma trailing_percents p : ∀ ps, toks p = Some ps →
  matches fold ps [] = forallb (Z.eqb ch_percent) p.
Proof.
  induction p as [|q p IH]; intros ps.
  { by intros [= <-]. }
  destruct (decide (q = ch_backslash)) as [->|Hq].
  { rewrite toks_escape. destruct p; [done|]. destruct (toks p); [|done]. by intros [= <-]. }
  rewrite toks_cons by done. destruct (toks p) as [ps'|]; [|done]. intros [= <-].
  cbn [forallb]. rewrite (Z.eqb_sym ch_percent), <- (IH ps' eq_refl).
  destruct (q =? ch_percent); [simpl; by rewrite orb_false_r|].
  by destruct (q =? ch_underscore).
Qed.

Lemma skip_wildcards_spec p : ∀ t ps, toks p = Some ps →
  match skip_wildcards NextByte t p with
  | None => ¬ some_suffix fold ps t
  | Some (t1, p1) => ∃ ps1, toks p1 = Some ps1 ∧
      (some_suffix fold ps t ↔ some_suffix fold ps1 t1) ∧
      match p1 with [] => True | q :: _ => q ≠ ch_percent ∧ q ≠ ch_underscore end
  end.
Proof.
  induction p as [|q p IH]; intros t ps Hps; cbn [skip_wildcards]; [by exists ps|].
  destruct (Z.eqb_spec q ch_percent) as [->|Hq1].
  { rewrite toks_cons in Hps by done. destruct (toks p) as [ps'|]; [|done]. injection Hps as <-.
    specialize (IH t ps' eq_refl).
    destruct (skip_wildcards NextByte t p) as [[t1 p1]|]; setoid_rewrite some_suffix_many; done. }
  destruct (Z.eqb_spec q ch_underscore) as [->|Hq2]; [|by exists ps].
  rewrite toks_cons in Hps by done. destruct (toks p) as [ps'|]; [|done]. injection Hps as <-.
  destruct t as [|c t]; [apply (some_suffix_nil 0)|]. specialize (IH t ps' eq_refl).
  change (NextByte (c :: t)) with t.
  destruct (skip_wildcards NextByte t p) as [[t1 p1]|]; setoid_rewrite some_suffix_any; done.
Qed.

Lemma scan_text_spec rec a ps n : ∀ t, (length t ≤ n)%nat →
  (∀ t, ∃ r, rec t = Some (Ok r) ∧ result_ok fold (TLit a :: ps) t r) →
  ∃ r, scan_text fold NextByte None n rec (fold a) t = Some (Ok r) ∧ r ≠ LIKE_FALSE ∧
    (r = LIKE_TRUE ↔ some_suffix fold (TLit a :: ps) t).
Proof.
  assert (Hnil : LIKE_ABORT = LIKE_TRUE ↔ some_suffix fold (TLit a :: ps) []).
  { split; [done|]. by intros H%some_suffix_nil. }
  induction n as [|n IH]; intros [|c t] Hn Hrec; simpl in Hn; try lia; try (by eexists).
  assert (Hskip : matches fold (TLit a :: ps) (c :: t) = false →
    some_suffix fold (TLit a :: ps) (c :: t) ↔ some_suffix fold (TLit a :: ps) t).
  { intros Hm. split.
    - intros (s & [->|Hs]%suffix_cons_cases & H); [congruence|by exists s].
    - intros (s & Hs & H). exists s. split; [by apply suffix_cons_r|done]. }
  destruct (IH t ltac:(lia) Hrec) as (r & Hr & Hne & Ht).
  cbn [scan_text]. change (NextByte (c :: t)) with t. rewrite bool_decide_false, orb_false_r by (by intros []).
  destruct (Z.eqb_spec (fold c) (fold a)) as [He|He].
  - destruct (Hrec (c :: t)) as (m & -> & Hm & Hab). destruct m.
    + exists LIKE_TRUE. split_and!; [done|done|]. split; [|done]. intros _.
      exists (c :: t). split; [done|]. by apply Hm.
    + exists r. rewrite Hskip; [done|]. apply not_true_iff_false. rewrite <- Hm. done.
    + exists LIKE_ABORT. split_and!; [done|done|]. split; [done|].
      intros (s & Hs & H). by rewrite Hab in H.
  - exists r. rewrite Hskip; [done|]. cbn [matches]. destruct (Z.eqb_spec (fold a) (fold c)); done.
Qed.

Lemma match_percent_spec rec t p ps : rec_ok rec (S (length p)) → toks p = Some ps →
  ∃ r, match_percent fold NextByte None rec t p = Some (Ok r) ∧ result_ok fold (TMany :: ps) t r.
Proof.
  intros Hrec Hps. unfold match_percent. pose proof (skip_wildcards_spec p t ps Hps) as Hs.
  destruct (skip_wildcards NextByte t p) as [[t1 p1]|] eqn:Hsk.
  2: { eexists. split; [done|]. apply result_ok_many; [done|]. by split. }
  apply skip_wildcards_shorter in Hsk.
  destruct Hs as (ps1 & Hps1 & Hiff & Hw). destruct p1 as [|q p1].
  { injection Hps1 as <-. eexists. split; [done|]. apply result_ok_many; [done|].
    rewrite Hiff. split; [|done]. intros _. exists []. split; [apply suffix_nil|done]. }
  assert (Hscan : ∀ a ps', ps1 = TLit a :: ps' →
    ∃ r, scan_text fold NextByte None (length t1) (λ t, rec t (q :: p1)) (fold a) t1 = Some (Ok r) ∧
      result_ok fold (TMany :: ps) t r).
  { intros a ps' ->. destruct (scan_text_spec (λ t, rec t (q :: p1)) a ps' (length t1) t1)
      as (r & Hr & Hne & Ht); [done| |].
    - intros t'. apply Hrec; [lia|done].
    - exists r. split; [done|]. apply result_ok_many; [done|]. by rewrite Hiff. }
  destruct (Z.eqb_spec q ch_backslash) as [->|Hq].
  - rewrite toks_escape in Hps1. destruct p1 as [|q2 p1]; [done|].
    destruct (toks p1) as [ps'|]; [|done]. injection Hps1 as <-. by eapply Hscan.
  - rewrite toks_cons in Hps1 by done. destruct (toks p1) as [ps'|]; [|done].
    destruct Hw as [Hw1 Hw2]. apply Z.eqb_neq in Hw1, Hw2. rewrite Hw1, Hw2 in Hps1.
    injection Hps1 as <-. by eapply Hscan.
Qed.

Lemma match_loop_spec rec n : ∀ t p ps, (length p ≤ n)%nat → rec_ok rec (length p) →
  toks p = Some ps → ∃ r, Loop rec t p = Some (Ok r) ∧ result_ok fold ps t r.
Proof.
  induction n as [|n IH]; intros t p ps Hn Hrec Hps; destruct p as [|q p]; simpl in Hn; try lia.
  1,2: injection Hps as <-; destruct t as [|c t]; eexists; (split; [done|]);
    [split; [done|]; done|by apply result_ok_false].
  destruct t as [|c t].
  { eexists. split; [done|]. rewrite <- (trailing_percents _ _ Hps).
    split; [by destruct (matches fold ps [])|]. destruct (matches fold ps []) eqn:Hm; [done|].
    by intros _ s ->%suffix_nil_inv. }
  assert (Hmono : ∀ p' : list Z, (length p' ≤ length p)%nat → rec_ok rec (length p')).
  { intros p' Hp' t' p'' ps'' Hlt. apply Hrec. simpl. lia. }
  cbn [match_loop]. destruct (Z.eqb_spec q ch_backslash) as [->|Hq].
  - rewrite toks_escape in Hps. destruct p as [|q2 p]; [done|].
    destruct (toks p) as [ps'|] eqn:Hp; [|done]. injection Hps as <-.
    destruct (Z.eqb_spec (fold q2) (fold c)) as [He|He].
    + destruct (IH t p ps') as (r & -> & Hr); [simpl in Hn; lia|apply Hmono; simpl; lia|done|].
      exists r. split; [done|]. by apply result_ok_lit.
    + eexists. split; [done|]. apply result_ok_false. simpl.
      by apply Z.eqb_neq in He as ->.
  - rewrite toks_cons in Hps by done. destruct (toks p) as [ps'|] eqn:Hp; [|done].
    injection Hps as <-. destruct (Z.eqb_spec q ch_percent) as [->|Hq1].
    { by apply match_percent_spec. }
    destruct (Z.eqb_spec q ch_underscore) as [->|Hq2].
    { change (NextByte (c :: t)) with t.
      destruct (IH t p ps') as (r & -> & Hr); [lia|by apply Hmono|done|].
      exists r. split; [done|]. by apply result_ok_any. }
    destruct (Z.eqb_spec (fold q) (fold c)) as [He|He].
    + destruct (IH t p ps') as (r & -> & Hr); [lia|by apply Hmono|done|].
      exists r. split; [done|]. by apply result_ok_lit.
    + eexists. split; [done|]. apply result_ok_false. simpl. by apply Z.eqb_neq in He as ->.
Qed.

Lemma MatchText_spec n : rec_ok (MatchText fold NextByte None n) n.
Proof.
  induction n as [|n IH]; intros t p ps Hn Hps; [lia|]. cbn [MatchText].
  case_bool_decide as Hp.
  - subst p. injection Hps as <-. eexists. split; [done|]. apply result_ok_many; [done|].
    split; [|done]. intros _. exists []. split; [apply suffix_nil|done].
  - apply (match_loop_spec _ (length p)); [done| |done].
    intros t' p' ps' Hlt. apply IH. lia.
Qed.

(** A pattern that ends with an escape never matches. *)
Lemma dangling_skip p : ∀ t t1 p1, toks p = None →
  skip_wildcards NextByte t p = Some (t1, p1) → toks p1 = None.
Proof.
  induction p as [|q p IH]; intros t t1 p1 Hp; cbn [skip_wildcards]; [done|].
  destruct (Z.eqb_spec q ch_percent) as [->|Hq1].
  { apply IH. rewrite toks_cons in Hp by done. by destruct (toks p). }
  destruct (Z.eqb_spec q ch_underscore) as [->|Hq2]; [|by intros [= <- <-]].
  destruct t; [done|]. apply IH. rewrite toks_cons in Hp by done. by destruct (toks p).
Qed.

Lemma dangling_scan rec a n : ∀ t, (∀ t, rec t ≠ Some (Ok LIKE_TRUE)) →
  scan_text fold NextByte None n rec a t ≠ Some (Ok LIKE_TRUE).
Proof.
  induction n as [|n IH]; intros [|c t] Hrec; simpl; try done.
  destruct (_ || _); [|by apply IH]. pose proof (Hrec (c :: t)).
  destruct (rec (c :: t)) as [[[]|]|]; try done. by apply IH.
Qed.

Lemma dangling_loop rec n : ∀ t p, (length p ≤ n)%nat →
  (∀ t p', (length p' < length p)%nat → toks p' = None → rec t p' ≠ Some (Ok LIKE_TRUE)) →
  toks p = None → Loop rec t p ≠ Some (Ok LIKE_TRUE).
Proof.
  induction n as [|n IH]; intros t [|q p] Hn Hrec Hp; try done; simpl in Hn; try lia.
  destruct t as [|c t]; cbn [match_loop].
  { destruct (forallb _ _) eqn:Hf; [|done]. exfalso. revert Hp Hf. clear.
    induction (q :: p) as [|x l IH]; [done|]. cbn [forallb]. intros Hp [Hx Hl]%andb_prop.
    apply Z.eqb_eq in Hx as <-. apply IH; [|done]. rewrite toks_cons in Hp by done.
    by destruct (toks l). }
  assert (IH' : ∀ t p', (length p' ≤ length p)%nat → toks p' = None →
    Loop rec t p' ≠ Some (Ok LIKE_TRUE)).
  { intros t' p' Hle. apply IH; [lia|]. intros t'' p'' Hlt. apply Hrec. simpl. lia. }
  destruct (Z.eqb_spec q ch_backslash) as [->|Hq].
  { rewrite toks_escape in Hp. destruct p as [|q2 p]; [done|].
    destruct (_ =? _); [|done]. apply IH'; [simpl; lia|by destruct (toks p)]. }
  rewrite toks_cons in Hp by done. assert (Hp' : toks p = None) by (by destruct (toks p)).
  destruct (Z.eqb_spec q ch_percent).
  - unfold match_percent. destruct (skip_wildcards NextByte (c :: t) p) as [[t1 p1]|] eqn:Hs; [|done].
    pose proof (skip_wildcards_shorter _ _ _ _ _ Hs) as Hl. apply dangling_skip in Hs; [|done].
    destruct p1 as [|q1 p1]; [done|].
    assert (∀ a, scan_text fold NextByte None (length t1) (λ t, rec t (q1 :: p1)) a t1
      ≠ Some (Ok LIKE_TRUE)) as Hsc.
    { intros a. apply dangling_scan. intros t'. apply Hrec; [simpl in *; lia|done]. }
    destruct (q1 =? ch_backslash); [destruct p1; done|done].
  - destruct (q =? ch_underscore); [by apply IH'|]. destruct (_ =? _); [by apply IH'|done].
Qed.

Lemma dangling_MatchText n : ∀ t p, toks p = None →
  MatchText fold NextByte None n t p ≠ Some (Ok LIKE_TRUE).
Proof.
  induction n as [|n IH]; intros t p Hp; cbn [MatchText]; [done|].
  case_bool_decide; [by subst|]. apply (dangling_loop _ (length p)); [done|by auto|done].
Qed.

End correct.

(** ** Instances that advance alike agree *)

Section agree.
  Context (GETCHAR : Z → Z) (N1 N2 : list Z → list Z) (nd : option (list Z → list Z → bool)).
  Context (P : list Z → Prop).
  Context (P_tail : ∀ c t, P (c :: t) → P t).
  Context (P_next : ∀ t, P t → N1 t = N2 t ∧ P (N2 t)).

Lemma skip_agree p : ∀ t, P t →
  skip_wildcards N1 t p = skip_wildcards N2 t p ∧
  ∀ t1 p1, skip_wildcards N2 t p = Some (t1, p1) → P t1.
Proof.
  induction p as [|q p IH]; intros t Ht; simpl; [split; [done|]; by intros ? ? [= <- <-]|].
  destruct (q =? ch_percent); [by apply IH|].
  destruct (q =? ch_underscore); [|split; [done|]; by intros ? ? [= <- <-]].
  destruct t as [|c t]; [done|]. destruct (P_next _ Ht) as [-> HP]. by apply IH.
Qed.

Lemma scan_agree r1 r2 a n : ∀ t, P t → (∀ t, P t → r1 t = r2 t) →
  scan_text GETCHAR N1 nd n r1 a t = scan_text GETCHAR N2 nd n r2 a t.
Proof.
  induction n as [|n IH]; intros [|c t] Ht Hr; simpl; try done.
  destruct (P_next _ Ht) as [-> HP]. rewrite Hr, (IH (N2 (c :: t))) by done. done.
Qed.

Lemma nondet_agree r1 r2 coll sub t n : ∀ t1, P t1 → (∀ t, P t → r1 t = r2 t) →
  nondet_loop N1 n r1 coll sub t t1 = nondet_loop N2 n r2 coll sub t t1.
Proof.
  induction n as [|n IH]; intros t1 Ht Hr; simpl; rewrite Hr by done; [done|].
  destruct (P_next _ Ht) as [-> HP]. rewrite (IH (N2 t1)) by done. done.
Qed.

Lemma loop_agree r1 r2 n : (∀ t p, P t → r1 t p = r2 t p) → ∀ t p, (length p ≤ n)%nat → P t →
  match_loop GETCHAR N1 nd r1 t p = match_loop GETCHAR N2 nd r2 t p.
Proof.
  intros Hr. induction n as [|n IH]; intros [|c t] [|q p] Hn Ht; simpl in *; try done; try lia.
  destruct (P_next _ Ht) as [Hnx HP]. pose proof (P_tail _ _ Ht) as Ht'.
  destruct (q =? ch_backslash).
  { destruct p as [|q2 p]; [done|]. rewrite (IH t p) by (simpl in *; lia || done). done. }
  destruct (q =? ch_percent).
  { unfold match_percent. destruct (skip_agree p _ Ht) as [-> Hsk].
    destruct (skip_wildcards N2 (c :: t) p) as [[t1 [|q1 p1]]|]; [done| |done].
    specialize (Hsk _ _ eq_refl).
    rewrite (scan_agree _ (λ t, r2 t (q1 :: p1)) (GETCHAR q1)) by auto.
    destruct p1 as [|q2 p1]; [done|].
    by rewrite (scan_agree _ (λ t, r2 t (q1 :: q2 :: p1)) (GETCHAR q2)) by auto. }
  destruct (q =? ch_underscore); [rewrite Hnx; apply IH; [lia|done]|].
  destruct nd as [coll|]; [|rewrite (IH t p) by (lia || done); done].
  unfold match_nondet. destruct (sub_pattern (q :: p)) as [[s [|q1 p1]]|]; [done| |done].
  apply nondet_agree; auto.
Qed.

Lemma MatchText_agree n : ∀ t p, P t → MatchText GETCHAR N1 nd n t p = MatchText GETCHAR N2 nd n t p.
Proof.
  induction n as [|n IH]; intros t p Ht; simpl; [done|].
  case_bool_decide; [done|]. by apply (loop_agree _ _ (length p)).
Qed.

End agree.

Lemma utf8_next_ascii t : Forall (λ c, 0 ≤ c < 128) t →
  UTF8_NextChar t = NextByte t ∧ Forall (λ c, 0 ≤ c < 128) (NextByte t).
Proof.
  intros Ht. assert (Hn : Forall (λ c, 0 ≤ c < 128) (NextByte t)) by (by apply Forall_drop).
  split; [|done]. unfold UTF8_NextChar, NextByte in *.
  destruct Hn as [|c l Hc _]; [done|]. simpl. destruct (Z.eqb_spec (Z.land c 192) 128) as [He|]; [|done].
  exfalso. assert (Hb : Z.testbit (Z.land c 192) 7 = true) by (by rewrite He).
  rewrite Z.land_spec in Hb. apply andb_prop in Hb as [Hb _].
  rewrite Z.testbit_true, Z.div_small in Hb by lia. done.
Qed.

(** ** Escapes *)

Lemma convert_after e c p : e ≠ ch_backslash →
  convert_escapes e true (c :: p) = c :: convert_escapes e false p.
Proof.
  intros He. simpl. rewrite andb_false_r. by destruct (Z.eqb_spec c ch_backslash) as [->|].
Qed.

Lemma convert_tokens e n : e ≠ ch_backslash → ∀ p, (length p ≤ n)%nat →
  tokens (Some ch_backslash) (convert_escapes e false p) = tokens (Some e) p.
Proof.
  intros He. induction n as [|n IH]; intros [|c p] Hn; simpl in Hn; try done; try lia.
  cbn [convert_escapes tokens]. rewrite andb_true_r. destruct (Z.eqb_spec c e) as [->|Hce].
  { rewrite (bool_decide_true (Some e = Some e)) by done. destruct p as [|q p]; [done|].
    rewrite convert_after by done. simpl. rewrite IH by (simpl in *; lia). done. }
  rewrite (bool_decide_false (Some c = Some e)) by congruence.
  destruct (Z.eqb_spec c ch_backslash) as [->|Hcb].
  { simpl. by rewrite IH by lia. }
  rewrite <- (IH p) by lia. rewrite toks_cons by done.
  by destruct (c =? ch_percent), (c =? ch_underscore).
Qed.

Lemma double_tokens p : tokens (Some ch_backslash) (double_backslashes p) = tokens None p.
Proof.
  induction p as [|c p IH]; [done|]. cbn [double_backslashes tokens].
  rewrite (bool_decide_false (Some c = None)) by done.
  destruct (Z.eqb_spec c ch_backslash) as [->|Hcb]; [simpl; by rewrite IH|].
  rewrite toks_cons, IH by done. by destruct (c =? ch_percent), (c =? ch_underscore).
Qed.

(** ** Properties *)


(** On ASCII names the UTF-8 instance of [namelike] answers as the
    single-byte one, whatever the pattern and the collation. *)
Theorem namelike_utf8_ascii collation name pat : Forall (λ c, 0 ≤ c < 128) name →
  namelike PG_UTF8 collation name pat = namelike SingleByte collation name pat.
Proof.
  intros Hn. unfold namelike, GenericMatchText. destruct collation as [nd|]; [|done].
  unfold UTF8_MatchText, SB_MatchText.
  rewrite (MatchText_agree id UTF8_NextChar NextByte nd (Forall (λ c, 0 ≤ c < 128))); [done| | |done].
  - intros c t H. by inv H.
  - apply utf8_next_ascii.
Qed.

Lemma namelike_utf8_ascii_witness :
  namelike PG_UTF8 (Some None) (bytes "autoindex_t_c") like_pattern =
    namelike SingleByte (Some None) (bytes "autoindex_t_c") like_pattern.
Proof. apply namelike_utf8_ascii. repeat constructor; lia. Defined.

(** The pattern by which AutoIndex recognises its indexes accepts exactly the
    names that start with [autoindex] and have at least one more character: the
    underscore of the pattern is a wildcard. *)
Theorem autoindex_pattern name :
  ∃ b, namelike SingleByte (Some None) name like_pattern = Some (Ok b) ∧
    (b = true ↔ ∃ c rest, name = bytes "autoindex" ++ c :: rest).
Proof.
  unfold namelike, GenericMatchText, SB_MatchText.
  destruct (MatchText_spec id (S (length like_pattern)) name like_pattern
    ((TLit <$> bytes "autoindex") ++ [TAny; TMany])) as (r & -> & Hr & _); [lia|done|].
  eexists. split; [done|]. rewrite bool_decide_eq_true, Hr. clear.
  set (w := bytes "autoindex"). clearbody w. revert name.
  induction w as [|a w IH]; intros [|x name].
  - split; [done|]. by intros (c & rest & ?).
  - change (matches id [TMany] name = true ↔ ∃ c rest, x :: name = [] ++ c :: rest).
    rewrite matches_many. split; [intros _; by eauto|]. intros _. exists [].
    split; [apply suffix_nil|done].
  - split; [done|]. by intros (c & rest & ?).
  - cbn [matches app fmap list_fmap]. rewrite andb_true_iff, IH. unfold id. rewrite Z.eqb_eq. split.
    + intros [-> (c & rest & ->)]. eauto.
    + intros (c & rest & [= -> ->]). eauto.
Qed.

(** [do_like_escape] translates a pattern with any single escape byte, or
    none, into the backslash convention: the result has the same meaning under
    [\] as the argument has under its own escape. *)
Theorem like_escape_correct pat esc :
  match esc with
  | [] => ∃ p, SB_do_like_escape pat esc = Ok p ∧
            tokens (Some ch_backslash) p = tokens None pat
  | [e] => ∃ p, SB_do_like_escape pat esc = Ok p ∧
            tokens (Some ch_backslash) p = tokens (Some e) pat
  | _ :: _ :: _ => SB_do_like_escape pat esc = Err (ErrReport "invalid escape string")
  end.
Proof.
  destruct esc as [|e [|]]; simpl; [|destruct (Z.eqb_spec e ch_backslash) as [->|]|done].
  - eexists. split; [done|]. apply double_tokens.
  - eauto.
  - eexists. split; [done|]. by apply (convert_tokens e (length pat)).
Qed.

(** Under a nondeterministic collation the copy of the sub-pattern loses escaped
    backslashes: with a collation that compares bytes, the text [a\b] matches
    the pattern [a\\b] in the deterministic branch only. *)
Lemma nondet_escaped_backslash :
  let t := [97; ch_backslash; 98] in
  let p := [97; ch_backslash; ch_backslash; 98] in
  SB_MatchText None t p = Some (Ok LIKE_TRUE) ∧
  SB_MatchText (Some (λ a b, bool_decide (a = b))) t p = Some (Ok LIKE_FALSE).
Proof. by vm_compute. Qed.
