(* ===== verification/Keywords.v ===== *)
(** * SQL keywords

    The keyword list of [kwlist.h], in its order, with the category that decides
    where a keyword may be used as a name. *)
From stdpp Require Import base list strings.

Inductive KeywordCategory : Type :=
| UNRESERVED_KEYWORD
| COL_NAME_KEYWORD
| TYPE_FUNC_NAME_KEYWORD
| RESERVED_KEYWORD.

#[global] Instance KeywordCategory_eq_dec : EqDecision KeywordCategory.
Proof. solve_decision. Defined.

Definition kwlist_a_c : list (string * KeywordCategory) := [
  ("abort", UNRESERVED_KEYWORD);
  ("absent", UNRESERVED_KEYWORD);
  ("absolute", UNRESERVED_KEYWORD);
  ("access", UNRESERVED_KEYWORD);
  ("action", UNRESERVED_KEYWORD);
  ("add", UNRESERVED_KEYWORD);
  ("admin", UNRESERVED_KEYWORD);
  ("after", UNRESERVED_KEYWORD);
  ("aggregate", UNRESERVED_KEYWORD);
  ("all", RESERVED_KEYWORD);
  ("also", UNRESERVED_KEYWORD);
  ("alter", UNRESERVED_KEYWORD);
  ("always", UNRESERVED_KEYWORD);
  ("analyse", RESERVED_KEYWORD);
  ("analyze", RESERVED_KEYWORD);
  ("and", RESERVED_KEYWORD);
  ("any", RESERVED_KEYWORD);
  ("array", RESERVED_KEYWORD);
  ("as", RESERVED_KEYWORD);
  ("asc", RESERVED_KEYWORD);
  ("asensitive", UNRESERVED_KEYWORD);
  ("assertion", UNRESERVED_KEYWORD);
  ("assignment", UNRESERVED_KEYWORD);
  ("asymmetric", RESERVED_KEYWORD);
  ("at", UNRESERVED_KEYWORD);
  ("atomic", UNRESERVED_KEYWORD);
  ("attach", UNRESERVED_KEYWORD);
  ("attribute", UNRESERVED_KEYWORD);
  ("authorization", TYPE_FUNC_NAME_KEYWORD);
  ("backward", UNRESERVED_KEYWORD);
  ("before", UNRESERVED_KEYWORD);
  ("begin", UNRESERVED_KEYWORD);
  ("between", COL_NAME_KEYWORD);
  ("bigint", COL_NAME_KEYWORD);
  ("binary", TYPE_FUNC_NAME_KEYWORD);
  ("bit", COL_NAME_KEYWORD);
  ("boolean", COL_NAME_KEYWORD);
  ("both", RESERVED_KEYWORD);
  ("breadth", UNRESERVED_KEYWORD);
  ("by", UNRESERVED_KEYWORD);
  ("cache", UNRESERVED_KEYWORD);
  ("call", UNRESERVED_KEYWORD);
  ("called", UNRESERVED_KEYWORD);
  ("cascade", UNRESERVED_KEYWORD);
  ("cascaded", UNRESERVED_KEYWORD);
  ("case", RESERVED_KEYWORD);
  ("cast", RESERVED_KEYWORD);
  ("catalog", UNRESERVED_KEYWORD);
  ("chain", UNRESERVED_KEYWORD);
  ("char", COL_NAME_KEYWORD);
  ("character", COL_NAME_KEYWORD);
  ("characteristics", UNRESERVED_KEYWORD);
  ("check", RESERVED_KEYWORD);
  ("checkpoint", UNRESERVED_KEYWORD);
  ("class", UNRESERVED_KEYWORD);
  ("close", UNRESERVED_KEYWORD);
  ("cluster", UNRESERVED_KEYWORD);
  ("coalesce", COL_NAME_KEYWORD);
  ("collate", RESERVED_KEYWORD);
  ("collation", TYPE_FUNC_NAME_KEYWORD);
  ("column", RESERVED_KEYWORD);
  ("columns", UNRESERVED_KEYWORD);
  ("comment", UNRESERVED_KEYWORD);
  ("comments", UNRESERVED_KEYWORD);
  ("commit", UNRESERVED_KEYWORD);
  ("committed", UNRESERVED_KEYWORD);
  ("compression", UNRESERVED_KEYWORD);
  ("concurrently", TYPE_FUNC_NAME_KEYWORD);
  ("conditional", UNRESERVED_KEYWORD);
  ("configuration", UNRESERVED_KEYWORD);
  ("conflict", UNRESERVED_KEYWORD);
  ("connection", UNRESERVED_KEYWORD);
  ("constraint", RESERVED_KEYWORD);
  ("constraints", UNRESERVED_KEYWORD);
  ("content", UNRESERVED_KEYWORD);
  ("continue", UNRESERVED_KEYWORD);
  ("conversion", UNRESERVED_KEYWORD);
  ("copy", UNRESERVED_KEYWORD);
  ("cost", UNRESERVED_KEYWORD);
  ("create", RESERVED_KEYWORD);
  ("cross", TYPE_FUNC_NAME_KEYWORD);
  ("csv", UNRESERVED_KEYWORD);
  ("cube", UNRESERVED_KEYWORD);
  ("current", UNRESERVED_KEYWORD);
  ("current_catalog", RESERVED_KEYWORD);
  ("current_date", RESERVED_KEYWORD);
  ("current_role", RESERVED_KEYWORD);
  ("current_schema", TYPE_FUNC_NAME_KEYWORD);
  ("current_time", RESERVED_KEYWORD);
  ("current_timestamp", RESERVED_KEYWORD);
  ("current_user", RESERVED_KEYWORD);
  ("cursor", UNRESERVED_KEYWORD);
  ("cycle", UNRESERVED_KEYWORD)].

Definition kwlist_d_h : list (string * KeywordCategory) := [
  ("data", UNRESERVED_KEYWORD);
  ("database", UNRESERVED_KEYWORD);
  ("day", UNRESERVED_KEYWORD);
  ("deallocate", UNRESERVED_KEYWORD);
  ("dec", COL_NAME_KEYWORD);
  ("decimal", COL_NAME_KEYWORD);
  ("declare", UNRESERVED_KEYWORD);
  ("default", RESERVED_KEYWORD);
  ("defaults", UNRESERVED_KEYWORD);
  ("deferrable", RESERVED_KEYWORD);
  ("deferred", UNRESERVED_KEYWORD);
  ("definer", UNRESERVED_KEYWORD);
  ("delete", UNRESERVED_KEYWORD);
  ("delimiter", UNRESERVED_KEYWORD);
  ("delimiters", UNRESERVED_KEYWORD);
  ("depends", UNRESERVED_KEYWORD);
  ("depth", UNRESERVED_KEYWORD);
  ("desc", RESERVED_KEYWORD);
  ("destination", UNRESERVED_KEYWORD);
  ("detach", UNRESERVED_KEYWORD);
  ("dictionary", UNRESERVED_KEYWORD);
  ("disable", UNRESERVED_KEYWORD);
  ("discard", UNRESERVED_KEYWORD);
  ("distinct", RESERVED_KEYWORD);
  ("do", RESERVED_KEYWORD);
  ("document", UNRESERVED_KEYWORD);
  ("domain", UNRESERVED_KEYWORD);
  ("double", UNRESERVED_KEYWORD);
  ("drop", UNRESERVED_KEYWORD);
  ("each", UNRESERVED_KEYWORD);
  ("edge", UNRESERVED_KEYWORD);
  ("else", RESERVED_KEYWORD);
  ("empty", UNRESERVED_KEYWORD);
  ("enable", UNRESERVED_KEYWORD);
  ("encoding", UNRESERVED_KEYWORD);
  ("encrypted", UNRESERVED_KEYWORD);
  ("end", RESERVED_KEYWORD);
  ("enforced", UNRESERVED_KEYWORD);
  ("enum", UNRESERVED_KEYWORD);
  ("error", UNRESERVED_KEYWORD);
  ("escape", UNRESERVED_KEYWORD);
  ("event", UNRESERVED_KEYWORD);
  ("except", RESERVED_KEYWORD);
  ("exclude", UNRESERVED_KEYWORD);
  ("excluding", UNRESERVED_KEYWORD);
  ("exclusive", UNRESERVED_KEYWORD);
  ("execute", UNRESERVED_KEYWORD);
  ("exists", COL_NAME_KEYWORD);
  ("explain", UNRESERVED_KEYWORD);
  ("expression", UNRESERVED_KEYWORD);
  ("extension", UNRESERVED_KEYWORD);
  ("external", UNRESERVED_KEYWORD);
  ("extract", COL_NAME_KEYWORD);
  ("false", RESERVED_KEYWORD);
  ("family", UNRESERVED_KEYWORD);
  ("fetch", RESERVED_KEYWORD);
  ("filter", UNRESERVED_KEYWORD);
  ("finalize", UNRESERVED_KEYWORD);
  ("first", UNRESERVED_KEYWORD);
  ("float", COL_NAME_KEYWORD);
  ("following", UNRESERVED_KEYWORD);
  ("for", RESERVED_KEYWORD);
  ("force", UNRESERVED_KEYWORD);
  ("foreign", RESERVED_KEYWORD);
  ("format", UNRESERVED_KEYWORD);
  ("forward", UNRESERVED_KEYWORD);
  ("freeze", TYPE_FUNC_NAME_KEYWORD);
  ("from", RESERVED_KEYWORD);
  ("full", TYPE_FUNC_NAME_KEYWORD);
  ("function", UNRESERVED_KEYWORD);
  ("functions", UNRESERVED_KEYWORD);
  ("generated", UNRESERVED_KEYWORD);
  ("global", UNRESERVED_KEYWORD);
  ("grant", RESERVED_KEYWORD);
  ("granted", UNRESERVED_KEYWORD);
  ("graph", UNRESERVED_KEYWORD);
  ("graph_table", COL_NAME_KEYWORD);
  ("greatest", COL_NAME_KEYWORD);
  ("group", RESERVED_KEYWORD);
  ("grouping", COL_NAME_KEYWORD);
  ("groups", UNRESERVED_KEYWORD);
  ("handler", UNRESERVED_KEYWORD);
  ("having", RESERVED_KEYWORD);
  ("header", UNRESERVED_KEYWORD);
  ("hold", UNRESERVED_KEYWORD);
  ("hour", UNRESERVED_KEYWORD)].

Definition kwlist_i_o : list (string * KeywordCategory) := [
  ("identity", UNRESERVED_KEYWORD);
  ("if", UNRESERVED_KEYWORD);
  ("ignore", UNRESERVED_KEYWORD);
  ("ilike", TYPE_FUNC_NAME_KEYWORD);
  ("immediate", UNRESERVED_KEYWORD);
  ("immutable", UNRESERVED_KEYWORD);
  ("implicit", UNRESERVED_KEYWORD);
  ("import", UNRESERVED_KEYWORD);
  ("in", RESERVED_KEYWORD);
  ("include", UNRESERVED_KEYWORD);
  ("including", UNRESERVED_KEYWORD);
  ("increment", UNRESERVED_KEYWORD);
  ("indent", UNRESERVED_KEYWORD);
  ("index", UNRESERVED_KEYWORD);
  ("indexes", UNRESERVED_KEYWORD);
  ("inherit", UNRESERVED_KEYWORD);
  ("inherits", UNRESERVED_KEYWORD);
  ("initially", RESERVED_KEYWORD);
  ("inline", UNRESERVED_KEYWORD);
  ("inner", TYPE_FUNC_NAME_KEYWORD);
  ("inout", COL_NAME_KEYWORD);
  ("input", UNRESERVED_KEYWORD);
  ("insensitive", UNRESERVED_KEYWORD);
  ("insert", UNRESERVED_KEYWORD);
  ("instead", UNRESERVED_KEYWORD);
  ("int", COL_NAME_KEYWORD);
  ("integer", COL_NAME_KEYWORD);
  ("intersect", RESERVED_KEYWORD);
  ("interval", COL_NAME_KEYWORD);
  ("into", RESERVED_KEYWORD);
  ("invoker", UNRESERVED_KEYWORD);
  ("is", TYPE_FUNC_NAME_KEYWORD);
  ("isnull", TYPE_FUNC_NAME_KEYWORD);
  ("isolation", UNRESERVED_KEYWORD);
  ("join", TYPE_FUNC_NAME_KEYWORD);
  ("json", COL_NAME_KEYWORD);
  ("json_array", COL_NAME_KEYWORD);
  ("json_arrayagg", COL_NAME_KEYWORD);
  ("json_exists", COL_NAME_KEYWORD);
  ("json_object", COL_NAME_KEYWORD);
  ("json_objectagg", COL_NAME_KEYWORD);
  ("json_query", COL_NAME_KEYWORD);
  ("json_scalar", COL_NAME_KEYWORD);
  ("json_serialize", COL_NAME_KEYWORD);
  ("json_table", COL_NAME_KEYWORD);
  ("json_value", COL_NAME_KEYWORD);
  ("keep", UNRESERVED_KEYWORD);
  ("key", UNRESERVED_KEYWORD);
  ("keys", UNRESERVED_KEYWORD);
  ("label", UNRESERVED_KEYWORD);
  ("language", UNRESERVED_KEYWORD);
  ("large", UNRESERVED_KEYWORD);
  ("last", UNRESERVED_KEYWORD);
  ("lateral", RESERVED_KEYWORD);
  ("leading", RESERVED_KEYWORD);
  ("leakproof", UNRESERVED_KEYWORD);
  ("least", COL_NAME_KEYWORD);
  ("left", TYPE_FUNC_NAME_KEYWORD);
  ("level", UNRESERVED_KEYWORD);
  ("like", TYPE_FUNC_NAME_KEYWORD);
  ("limit", RESERVED_KEYWORD);
  ("listen", UNRESERVED_KEYWORD);
  ("load", UNRESERVED_KEYWORD);
  ("local", UNRESERVED_KEYWORD);
  ("localtime", RESERVED_KEYWORD);
  ("localtimestamp", RESERVED_KEYWORD);
  ("location", UNRESERVED_KEYWORD);
  ("lock", UNRESERVED_KEYWORD);
  ("locked", UNRESERVED_KEYWORD);
  ("logged", UNRESERVED_KEYWORD);
  ("lsn", UNRESERVED_KEYWORD);
  ("mapping", UNRESERVED_KEYWORD);
  ("match", UNRESERVED_KEYWORD);
  ("matched", UNRESERVED_KEYWORD);
  ("materialized", UNRESERVED_KEYWORD);
  ("maxvalue", UNRESERVED_KEYWORD);
  ("merge", UNRESERVED_KEYWORD);
  ("merge_action", COL_NAME_KEYWORD);
  ("method", UNRESERVED_KEYWORD);
  ("minute", UNRESERVED_KEYWORD);
  ("minvalue", UNRESERVED_KEYWORD);
  ("mode", UNRESERVED_KEYWORD);
  ("month", UNRESERVED_KEYWORD);
  ("move", UNRESERVED_KEYWORD);
  ("name", UNRESERVED_KEYWORD);
  ("names", UNRESERVED_KEYWORD);
  ("national", COL_NAME_KEYWORD);
  ("natural", TYPE_FUNC_NAME_KEYWORD);
  ("nchar", COL_NAME_KEYWORD);
  ("nested", UNRESERVED_KEYWORD);
  ("new", UNRESERVED_KEYWORD);
  ("next", UNRESERVED_KEYWORD);
  ("nfc", UNRESERVED_KEYWORD);
  ("nfd", UNRESERVED_KEYWORD);
  ("nfkc", UNRESERVED_KEYWORD);
  ("nfkd", UNRESERVED_KEYWORD);
  ("no", UNRESERVED_KEYWORD);
  ("node", UNRESERVED_KEYWORD);
  ("none", COL_NAME_KEYWORD);
  ("normalize", COL_NAME_KEYWORD);
  ("normalized", UNRESERVED_KEYWORD);
  ("not", RESERVED_KEYWORD);
  ("nothing", UNRESERVED_KEYWORD);
  ("notify", UNRESERVED_KEYWORD);
  ("notnull", TYPE_FUNC_NAME_KEYWORD);
  ("nowait", UNRESERVED_KEYWORD);
  ("null", RESERVED_KEYWORD);
  ("nullif", COL_NAME_KEYWORD);
  ("nulls", UNRESERVED_KEYWORD);
  ("numeric", COL_NAME_KEYWORD);
  ("object", UNRESERVED_KEYWORD);
  ("objects", UNRESERVED_KEYWORD);
  ("of", UNRESERVED_KEYWORD);
  ("off", UNRESERVED_KEYWORD);
  ("offset", RESERVED_KEYWORD);
  ("oids", UNRESERVED_KEYWORD);
  ("old", UNRESERVED_KEYWORD);
  ("omit", UNRESERVED_KEYWORD);
  ("on", RESERVED_KEYWORD);
  ("only", RESERVED_KEYWORD);
  ("operator", UNRESERVED_KEYWORD);
  ("option", UNRESERVED_KEYWORD);
  ("options", UNRESERVED_KEYWORD);
  ("or", RESERVED_KEYWORD);
  ("order", RESERVED_KEYWORD);
  ("ordinality", UNRESERVED_KEYWORD);
  ("others", UNRESERVED_KEYWORD);
  ("out", COL_NAME_KEYWORD);
  ("outer", TYPE_FUNC_NAME_KEYWORD);
  ("over", UNRESERVED_KEYWORD);
  ("overlaps", TYPE_FUNC_NAME_KEYWORD);
  ("overlay", COL_NAME_KEYWORD);
  ("overriding", UNRESERVED_KEYWORD);
  ("owned", UNRESERVED_KEYWORD);
  ("owner", UNRESERVED_KEYWORD)].

Definition kwlist_p_s : list (string * KeywordCategory) := [
  ("parallel", UNRESERVED_KEYWORD);
  ("parameter", UNRESERVED_KEYWORD);
  ("parser", UNRESERVED_KEYWORD);
  ("partial", UNRESERVED_KEYWORD);
  ("partition", UNRESERVED_KEYWORD);
  ("partitions", UNRESERVED_KEYWORD);
  ("passing", UNRESERVED_KEYWORD);
  ("password", UNRESERVED_KEYWORD);
  ("path", UNRESERVED_KEYWORD);
  ("period", UNRESERVED_KEYWORD);
  ("placing", RESERVED_KEYWORD);
  ("plan", UNRESERVED_KEYWORD);
  ("plans", UNRESERVED_KEYWORD);
  ("policy", UNRESERVED_KEYWORD);
  ("portion", UNRESERVED_KEYWORD);
  ("position", COL_NAME_KEYWORD);
  ("preceding", UNRESERVED_KEYWORD);
  ("precision", COL_NAME_KEYWORD);
  ("prepare", UNRESERVED_KEYWORD);
  ("prepared", UNRESERVED_KEYWORD);
  ("preserve", UNRESERVED_KEYWORD);
  ("primary", RESERVED_KEYWORD);
  ("prior", UNRESERVED_KEYWORD);
  ("privileges", UNRESERVED_KEYWORD);
  ("procedural", UNRESERVED_KEYWORD);
  ("procedure", UNRESERVED_KEYWORD);
  ("procedures", UNRESERVED_KEYWORD);
  ("program", UNRESERVED_KEYWORD);
  ("properties", UNRESERVED_KEYWORD);
  ("property", UNRESERVED_KEYWORD);
  ("publication", UNRESERVED_KEYWORD);
  ("quote", UNRESERVED_KEYWORD);
  ("quotes", UNRESERVED_KEYWORD);
  ("range", UNRESERVED_KEYWORD);
  ("read", UNRESERVED_KEYWORD);
  ("real", COL_NAME_KEYWORD);
  ("reassign", UNRESERVED_KEYWORD);
  ("recursive", UNRESERVED_KEYWORD);
  ("ref", UNRESERVED_KEYWORD);
  ("references", RESERVED_KEYWORD);
  ("referencing", UNRESERVED_KEYWORD);
  ("refresh", UNRESERVED_KEYWORD);
  ("reindex", UNRESERVED_KEYWORD);
  ("relationship", UNRESERVED_KEYWORD);
  ("relative", UNRESERVED_KEYWORD);
  ("release", UNRESERVED_KEYWORD);
  ("rename", UNRESERVED_KEYWORD);
  ("repack", UNRESERVED_KEYWORD);
  ("repeatable", UNRESERVED_KEYWORD);
  ("replace", UNRESERVED_KEYWORD);
  ("replica", UNRESERVED_KEYWORD);
  ("reset", UNRESERVED_KEYWORD);
  ("respect", UNRESERVED_KEYWORD);
  ("restart", UNRESERVED_KEYWORD);
  ("restrict", UNRESERVED_KEYWORD);
  ("return", UNRESERVED_KEYWORD);
  ("returning", RESERVED_KEYWORD);
  ("returns", UNRESERVED_KEYWORD);
  ("revoke", UNRESERVED_KEYWORD);
  ("right", TYPE_FUNC_NAME_KEYWORD);
  ("role", UNRESERVED_KEYWORD);
  ("rollback", UNRESERVED_KEYWORD);
  ("rollup", UNRESERVED_KEYWORD);
  ("routine", UNRESERVED_KEYWORD);
  ("routines", UNRESERVED_KEYWORD);
  ("row", COL_NAME_KEYWORD);
  ("rows", UNRESERVED_KEYWORD);
  ("rule", UNRESERVED_KEYWORD);
  ("savepoint", UNRESERVED_KEYWORD);
  ("scalar", UNRESERVED_KEYWORD);
  ("schema", UNRESERVED_KEYWORD);
  ("schemas", UNRESERVED_KEYWORD);
  ("scroll", UNRESERVED_KEYWORD);
  ("search", UNRESERVED_KEYWORD);
  ("second", UNRESERVED_KEYWORD);
  ("security", UNRESERVED_KEYWORD);
  ("select", RESERVED_KEYWORD);
  ("sequence", UNRESERVED_KEYWORD);
  ("sequences", UNRESERVED_KEYWORD);
  ("serializable", UNRESERVED_KEYWORD);
  ("server", UNRESERVED_KEYWORD);
  ("session", UNRESERVED_KEYWORD);
  ("session_user", RESERVED_KEYWORD);
  ("set", UNRESERVED_KEYWORD);
  ("setof", COL_NAME_KEYWORD);
  ("sets", UNRESERVED_KEYWORD);
  ("share", UNRESERVED_KEYWORD);
  ("show", UNRESERVED_KEYWORD);
  ("similar", TYPE_FUNC_NAME_KEYWORD);
  ("simple", UNRESERVED_KEYWORD);
  ("skip", UNRESERVED_KEYWORD);
  ("smallint", COL_NAME_KEYWORD);
  ("snapshot", UNRESERVED_KEYWORD);
  ("some", RESERVED_KEYWORD);
  ("source", UNRESERVED_KEYWORD);
  ("split", UNRESERVED_KEYWORD);
  ("sql", UNRESERVED_KEYWORD);
  ("stable", UNRESERVED_KEYWORD);
  ("standalone", UNRESERVED_KEYWORD);
  ("start", UNRESERVED_KEYWORD);
  ("statement", UNRESERVED_KEYWORD);
  ("statistics", UNRESERVED_KEYWORD);
  ("stdin", UNRESERVED_KEYWORD);
  ("stdout", UNRESERVED_KEYWORD);
  ("storage", UNRESERVED_KEYWORD);
  ("stored", UNRESERVED_KEYWORD);
  ("strict", UNRESERVED_KEYWORD);
  ("string", UNRESERVED_KEYWORD);
  ("strip", UNRESERVED_KEYWORD);
  ("subscription", UNRESERVED_KEYWORD);
  ("substring", COL_NAME_KEYWORD);
  ("support", UNRESERVED_KEYWORD);
  ("symmetric", RESERVED_KEYWORD);
  ("sysid", UNRESERVED_KEYWORD);
  ("system", UNRESERVED_KEYWORD);
  ("system_user", RESERVED_KEYWORD)].

Definition kwlist_t_z : list (string * KeywordCategory) := [
  ("table", RESERVED_KEYWORD);
  ("tables", UNRESERVED_KEYWORD);
  ("tablesample", TYPE_FUNC_NAME_KEYWORD);
  ("tablespace", UNRESERVED_KEYWORD);
  ("target", UNRESERVED_KEYWORD);
  ("temp", UNRESERVED_KEYWORD);
  ("template", UNRESERVED_KEYWORD);
  ("temporary", UNRESERVED_KEYWORD);
  ("text", UNRESERVED_KEYWORD);
  ("then", RESERVED_KEYWORD);
  ("ties", UNRESERVED_KEYWORD);
  ("time", COL_NAME_KEYWORD);
  ("timestamp", COL_NAME_KEYWORD);
  ("to", RESERVED_KEYWORD);
  ("trailing", RESERVED_KEYWORD);
  ("transaction", UNRESERVED_KEYWORD);
  ("transform", UNRESERVED_KEYWORD);
  ("treat", COL_NAME_KEYWORD);
  ("trigger", UNRESERVED_KEYWORD);
  ("trim", COL_NAME_KEYWORD);
  ("true", RESERVED_KEYWORD);
  ("truncate", UNRESERVED_KEYWORD);
  ("trusted", UNRESERVED_KEYWORD);
  ("type", UNRESERVED_KEYWORD);
  ("types", UNRESERVED_KEYWORD);
  ("uescape", UNRESERVED_KEYWORD);
  ("unbounded", UNRESERVED_KEYWORD);
  ("uncommitted", UNRESERVED_KEYWORD);
  ("unconditional", UNRESERVED_KEYWORD);
  ("unencrypted", UNRESERVED_KEYWORD);
  ("union", RESERVED_KEYWORD);
  ("unique", RESERVED_KEYWORD);
  ("unknown", UNRESERVED_KEYWORD);
  ("unlisten", UNRESERVED_KEYWORD);
  ("unlogged", UNRESERVED_KEYWORD);
  ("until", UNRESERVED_KEYWORD);
  ("update", UNRESERVED_KEYWORD);
  ("user", RESERVED_KEYWORD);
  ("using", RESERVED_KEYWORD);
  ("vacuum", UNRESERVED_KEYWORD);
  ("valid", UNRESERVED_KEYWORD);
  ("validate", UNRESERVED_KEYWORD);
  ("validator", UNRESERVED_KEYWORD);
  ("value", UNRESERVED_KEYWORD);
  ("values", COL_NAME_KEYWORD);
  ("varchar", COL_NAME_KEYWORD);
  ("variadic", RESERVED_KEYWORD);
  ("varying", UNRESERVED_KEYWORD);
  ("verbose", TYPE_FUNC_NAME_KEYWORD);
  ("version", UNRESERVED_KEYWORD);
  ("vertex", UNRESERVED_KEYWORD);
  ("view", UNRESERVED_KEYWORD);
  ("views", UNRESERVED_KEYWORD);
  ("virtual", UNRESERVED_KEYWORD);
  ("volatile", UNRESERVED_KEYWORD);
  ("wait", UNRESERVED_KEYWORD);
  ("when", RESERVED_KEYWORD);
  ("where", RESERVED_KEYWORD);
  ("whitespace", UNRESERVED_KEYWORD);
  ("window", RESERVED_KEYWORD);
  ("with", RESERVED_KEYWORD);
  ("within", UNRESERVED_KEYWORD);
  ("without", UNRESERVED_KEYWORD);
  ("work", UNRESERVED_KEYWORD);
  ("wrapper", UNRESERVED_KEYWORD);
  ("write", UNRESERVED_KEYWORD);
  ("xml", UNRESERVED_KEYWORD);
  ("xmlattributes", COL_NAME_KEYWORD);
  ("xmlconcat", COL_NAME_KEYWORD);
  ("xmlelement", COL_NAME_KEYWORD);
  ("xmlexists", COL_NAME_KEYWORD);
  ("xmlforest", COL_NAME_KEYWORD);
  ("xmlnamespaces", COL_NAME_KEYWORD);
  ("xmlparse", COL_NAME_KEYWORD);
  ("xmlpi", COL_NAME_KEYWORD);
  ("xmlroot", COL_NAME_KEYWORD);
  ("xmlserialize", COL_NAME_KEYWORD);
  ("xmltable", COL_NAME_KEYWORD);
  ("year", UNRESERVED_KEYWORD);
  ("yes", UNRESERVED_KEYWORD);
  ("zone", UNRESERVED_KEYWORD)].

Definition kwlist : list (string * KeywordCategory) :=
  kwlist_a_c ++ kwlist_d_h ++ kwlist_i_o ++ kwlist_p_s ++ kwlist_t_z.
