(* ===== verification/Ident.v ===== *)
(** * Identifiers and SQL tokens

    How names get into and out of SQL text: [quote_identifier] ([ruleutils.c]),
    keyword lookup ([kwlookup.c]), case folding and truncation ([scansup.c]) and
    the rules of the lexer for identifiers, punctuation and comments ([scan.l]).

    The advisor splices names into a [CREATE INDEX] command, the table and column
    through [quote_identifier], the index name as it is.  The theorems show that
    a quoted name is read back as one identifier, and that a name spliced
    without quoting need not be. *)
From Stdlib Require Import ZArith Lia.
From stdpp Require Import base tactics list strings numbers.
From S2P Require Import Prelude LikeMatch Keywords.

(** ** Characters *)

Definition NAMEDATALEN : nat := 64.

Definition ch_dquote : Z := 34.

Definition is_lower (c : Z) : bool := (97 <=? c) && (c <=? 122).

Definition is_upper (c : Z) : bool := (65 <=? c) && (c <=? 90).

Definition is_digit (c : Z) : bool := (48 <=? c) && (c <=? 57).

Definition is_highbit (c : Z) : bool := (128 <=? c) && (c <=? 255).

(** [scanner_isspace], the [space] class of the lexer *)
Definition scanner_isspace (c : Z) : bool :=
  (c =? 32) || (c =? 9) || (c =? 10) || (c =? 13) || (c =? 11) || (c =? 12).

Definition is_newline (c : Z) : bool := (c =? 10) || (c =? 13).

Definition ident_start (c : Z) : bool :=
  is_lower c || is_upper c || is_highbit c || (c =? ch_underscore).

Definition ident_cont (c : Z) : bool := ident_start c || is_digit c || (c =? 36).

(** ** Keywords *)

(** A generated keyword list: the words, their categories, and the perfect hash
    function of the generated header. *)
Record ScanKeywordList : Type := mkKeywords {
  kw_words : list (list Z * KeywordCategory);
  kw_hash : list Z → Z;
  max_kw_len : nat
}.

(** The comparison loop: does the text, lower-cased, spell the keyword? *)
Fixpoint kw_compare (str kw : list Z) : bool :=
  match str with
  | [] => match kw with [] => true | _ :: _ => false end
  | ch :: str' =>
      let ch := if is_upper ch then ch + 32 else ch in
      match kw with
      | [] => false
      | k :: kw' => (ch =? k) && kw_compare str' kw'
      end
  end.

Definition ScanKeywordLookup (str : list Z) (keywords : ScanKeywordList) : Z :=
  if (max_kw_len keywords <? length str)%nat then -1
  else
    let h := kw_hash keywords str in
    if (h <? 0) || (Z.of_nat (length (kw_words keywords)) <=? h) then -1
    else match kw_words keywords !! Z.to_nat h with
    | Some (kw, _) => if kw_compare str kw then h else -1
    | None => -1
    end.

(** [ScanKeywordCategories[kwnum]] *)
Definition keyword_category (keywords : ScanKeywordList) (kwnum : Z) : option KeywordCategory :=
  snd <$> kw_words keywords !! Z.to_nat kwnum.

(** ** Quoting *)

(** One character of the [safe] test. *)
Definition safe_char (c : Z) : bool := is_lower c || is_digit c || (c =? ch_underscore).

Definition safe_ident (quote_all_identifiers : bool) (keywords : ScanKeywordList)
    (ident : list Z) : bool :=
  match ident with
  | [] => false
  | c :: _ => (is_lower c || (c =? ch_underscore))
  end && forallb safe_char ident && negb quote_all_identifiers &&
  let kwnum := ScanKeywordLookup ident keywords in
  negb ((0 <=? kwnum) &&
        negb (bool_decide (keyword_category keywords kwnum = Some UNRESERVED_KEYWORD))).

Fixpoint double_quotes (ident : list Z) : list Z :=
  match ident with
  | [] => []
  | c :: ident' =>
      if c =? ch_dquote then ch_dquote :: c :: double_quotes ident'
      else c :: double_quotes ident'
  end.

Definition quote_identifier (quote_all_identifiers : bool) (keywords : ScanKeywordList)
    (ident : list Z) : list Z :=
  if safe_ident quote_all_identifiers keywords ident then ident
  else ch_dquote :: double_quotes ident ++ [ch_dquote].

Definition quote_qualified_identifier (quote_all_identifiers : bool) (keywords : ScanKeywordList)
    (qualifier : option (list Z)) (ident : list Z) : list Z :=
  match qualifier with
  | Some q => quote_identifier quote_all_identifiers keywords q ++ [46]
  | None => []
  end ++ quote_identifier quote_all_identifiers keywords ident.

(** ** Folding and truncation *)

(** The database locale: folding of bytes above 127 and character lengths. *)
Record ident_locale : Type := mkLocale {
  tolower_high : Z → Z;
  mblen : list Z → nat
}.

Definition downcase_char (loc : ident_locale) (c : Z) : Z :=
  if is_upper c then c + 32 else if is_highbit c then tolower_high loc c else c.

(** [pg_encoding_mbcliplen]: the bytes of whole characters within the limit. *)
Fixpoint pg_mbcliplen (fuel : nat) (loc : ident_locale) (s : list Z) (clen limit : nat) : nat :=
  match fuel, s with
  | S fuel', _ :: _ =>
      let l := mblen loc s in
      if (limit <? clen + l)%nat then clen
      else if (clen + l =? limit)%nat then (clen + l)%nat
      else pg_mbcliplen fuel' loc (drop l s) (clen + l) limit
  | _, _ => clen
  end.

Definition truncate_identifier (loc : ident_locale) (ident : list Z) : list Z :=
  if (NAMEDATALEN <=? length ident)%nat
  then take (pg_mbcliplen (length ident) loc ident 0 (NAMEDATALEN - 1)) ident
  else ident.

Definition downcase_truncate_identifier (loc : ident_locale) (ident : list Z) : list Z :=
  truncate_identifier loc (downcase_char loc <$> ident).

(** ** The lexer *)

Inductive sql_token : Type :=
| IDENT (s : list Z)
| KEYWORD (s : list Z) (cat : KeywordCategory)
| SELF (c : Z).

#[global] Instance sql_token_eq_dec : EqDecision sql_token.
Proof. solve_decision. Defined.

(** The tokens of a text, a lexical error, or a construct beyond the modelled
    rules (strings, numbers, operators, parameters, C-style comments). *)
Inductive lexed : Type :=
| Lexed (ts : list sql_token)
| LexError (msg : string)
| LexOther.

Definition lex_cons (t : sql_token) (l : lexed) : lexed :=
  match l with Lexed ts => Lexed (t :: ts) | _ => l end.

(** The longest prefix satisfying [f], and the rest. *)
Fixpoint span (f : Z → bool) (s : list Z) : list Z * list Z :=
  match s with
  | c :: s' => if f c then let '(a, b) := span f s' in (c :: a, b) else ([], s)
  | [] => ([], [])
  end.

(** The [xd] state: the characters of a delimited identifier and the rest. *)
Fixpoint scan_xd (s : list Z) : option (list Z * list Z) :=
  match s with
  | [] => None
  | c :: s' =>
      if c =? ch_dquote then
        match s' with
        | c2 :: s'' =>
            if c2 =? ch_dquote then
              match scan_xd s'' with
              | Some (a, b) => Some (ch_dquote :: a, b)
              | None => None
              end
            else Some ([], s')
        | [] => Some ([], [])
        end
      else match scan_xd s' with
      | Some (a, b) => Some (c :: a, b)
      | None => None
      end
  end.

(** Prefixes of the string-constant rules: b, x, n or e before a quote, u and an
    ampersand before a quote or double quote. *)
Definition string_prefix (s : list Z) : bool :=
  match s with
  | c :: 39 :: _ => bool_decide (c ∈ [98; 66; 120; 88; 110; 78; 101; 69])
  | c :: 38 :: q :: _ => bool_decide (c ∈ [117; 85]) && ((q =? 39) || (q =? ch_dquote))
  | _ => false
  end.

(** Punctuation that starts no longer token. *)
Definition lone_self (c : Z) : bool := bool_decide (c ∈ [44; 40; 41; 91; 93; 59]).

Section lexer.
  Context (loc : ident_locale) (keywords : ScanKeywordList).

(** The token of an unquoted identifier. *)
Definition identifier_token (text : list Z) : sql_token :=
  let kwnum := ScanKeywordLookup text keywords in
  match (if 0 <=? kwnum then kw_words keywords !! Z.to_nat kwnum else None) with
  | Some (kw, cat) => KEYWORD kw cat
  | None => IDENT (downcase_truncate_identifier loc text)
  end.

(** One token per unfolding; each consumes input, so the length is enough fuel. *)
Fixpoint scan (fuel : nat) (s : list Z) : lexed :=
  match s with
  | [] => Lexed []
  | c :: s' =>
      match fuel with
      | O => LexOther
      | S fuel' =>
          if scanner_isspace c then scan fuel' s'
          else if string_prefix s then LexOther
          else if ident_start c then
            let '(text, rest) := span ident_cont s in
            lex_cons (identifier_token text) (scan fuel' rest)
          else if c =? ch_dquote then
            match scan_xd s' with
            | None => LexError "unterminated quoted identifier"
            | Some ([], _) => LexError "zero-length delimited identifier"
            | Some (ident, rest) =>
                lex_cons (IDENT (truncate_identifier loc ident)) (scan fuel' rest)
            end
          else if lone_self c then lex_cons (SELF c) (scan fuel' s')
          else if c =? 46 then
            match s' with
            | d :: _ => if (d =? 46) || is_digit d then LexOther
                        else lex_cons (SELF c) (scan fuel' s')
            | [] => Lexed [SELF c]
            end
          else if (c =? 45) && bool_decide (head s' = Some 45) then
            scan fuel' (snd (span (λ c, negb (is_newline c)) s'))
          else LexOther
      end
  end.

Definition lex (s : list Z) : lexed := scan (length s) s.

End lexer.

(** A character that ends an unquoted or quoted identifier. *)
Definition delimiter (c : Z) : bool := scanner_isspace c || bool_decide (c ∈ [44; 40; 41; 59; 46]).

(** A token the grammar takes for a name in [ColId] position, and the name. *)
Definition col_id (t : sql_token) : option (list Z) :=
  match t with
  | IDENT s => Some s
  | KEYWORD s UNRESERVED_KEYWORD | KEYWORD s COL_NAME_KEYWORD => Some s
  | _ => None
  end.

(** What the build guarantees of a generated keyword list. *)
Record keywords_ok (keywords : ScanKeywordList) : Prop := mkKeywordsOk {
  kw_lower : ∀ i w c, kw_words keywords !! i = Some (w, c) → Forall (λ c, is_upper c = false) w;
  kw_len : ∀ i w c, kw_words keywords !! i = Some (w, c) → (length w ≤ max_kw_len keywords)%nat;
  kw_perfect : ∀ i w c s, kw_words keywords !! i = Some (w, c) → kw_compare s w = true →
    kw_hash keywords s = Z.of_nat i
}.

(** The keyword list of the source, with a linear search for its hash function. *)
Definition find_keyword (words : list (list Z * KeywordCategory)) (s : list Z) : Z :=
  match list_find (λ w, kw_compare s w.1 = true) words with
  | Some (i, _) => Z.of_nat i
  | None => -1
  end.

Definition sql_words : list (list Z * KeywordCategory) :=
  Eval vm_compute in (λ wc, (bytes wc.1, wc.2)) <$> kwlist.

Definition sql_keywords : ScanKeywordList :=
  mkKeywords sql_words (find_keyword sql_words) 17.

Definition c_locale : ident_locale := mkLocale id (λ _, 1%nat).

(** ** Lexer lemmas *)

Lemma span_app f a b : Forall (λ c, f c = true) a → (∀ c, head b = Some c → f c = false) →
  span f (a ++ b) = (a, b).
Proof.
  intros Ha Hb. induction Ha as [|c a Hc Ha IH]; simpl.
  - destruct b as [|c b]; [done|]. simpl. by rewrite (Hb c).
  - by rewrite Hc, IH.
Qed.

Lemma span_shorter f s : (length (span f s).2 ≤ length s)%nat.
Proof.
  induction s as [|c s IH]; simpl; [lia|]. destruct (f c); [|simpl; lia].
  destruct (span f s) as [a b]. simpl in *. lia.
Qed.

Lemma scan_xd_shorter n : ∀ s a b, (length s ≤ n)%nat → scan_xd s = Some (a, b) →
  (length b < length s)%nat.
Proof.
  induction n as [|n IH]; intros [|c s] a b Hn; simpl in *; try done; try lia.
  destruct (c =? ch_dquote).
  - destruct s as [|c2 s]; [intros [= <- <-]; simpl; lia|]. destruct (c2 =? ch_dquote).
    + destruct (scan_xd s) as [[a' b']|] eqn:E; [|done]. intros [= <- <-].
      apply IH in E; simpl in *; lia.
    + intros [= <- <-]. simpl. lia.
  - destruct (scan_xd s) as [[a' b']|] eqn:E; [|done]. intros [= <- <-]. apply IH in E; lia.
Qed.

Lemma scan_fuel loc kws n : ∀ m s, (length s ≤ n)%nat → (length s ≤ m)%nat →
  scan loc kws n s = scan loc kws m s.
Proof.
  induction n as [|n IH]; intros [|m] [|c s] Hn Hm; try done; simpl in Hn, Hm; try lia.
  assert (IH' : ∀ s', (length s' ≤ length s)%nat → scan loc kws n s' = scan loc kws m s').
  { intros s' Hs. apply IH; lia. }
  cbn [scan]. destruct (scanner_isspace c); [by apply IH'|].
  destruct (string_prefix (c :: s)); [done|].
  destruct (ident_start c) eqn:Hi.
  { pose proof (span_shorter ident_cont s) as Hs. simpl. unfold ident_cont at 1 3. rewrite Hi. simpl.
    destruct (span ident_cont s) as [a b]. simpl in Hs. by rewrite IH'. }
  destruct (c =? ch_dquote).
  { destruct (scan_xd s) as [[[|x a] b]|] eqn:E; [done| |done].
    apply (scan_xd_shorter (length s)) in E; [|lia]. rewrite IH'; [done|lia]. }
  destruct (lone_self c); [by rewrite IH'|].
  destruct (c =? 46).
  { destruct s as [|d s]; [done|]. destruct (_ || _); [done|]. by rewrite IH'. }
  destruct (_ && _); [|done]. apply IH', span_shorter.
Qed.

Lemma lex_step loc kws n s : (length s ≤ n)%nat → scan loc kws n s = lex loc kws s.
Proof. intros. by apply scan_fuel. Qed.

Lemma scan_xd_double s : ∀ rest, (∀ c, head rest = Some c → c ≠ ch_dquote) →
  scan_xd (double_quotes s ++ ch_dquote :: rest) = Some (s, rest).
Proof.
  intros rest Hr. induction s as [|c s IH]; simpl.
  - destruct rest as [|c rest]; [done|].
    destruct (Z.eqb_spec c ch_dquote) as [->|]; [|done]. by destruct (Hr ch_dquote).
  - destruct (Z.eqb_spec c ch_dquote) as [->|Hc]; simpl.
    + by rewrite IH.
    + destruct (Z.eqb_spec c ch_dquote); [done|]. by rewrite IH.
Qed.

(** ** Keyword lookup *)

Lemma kw_compare_lower s w : Forall (λ c, is_upper c = false) s →
  kw_compare s w = true → s = w.
Proof.
  intros Hs. revert w. induction Hs as [|c s Hc Hs IH]; intros [|k w]; simpl; try done.
  rewrite Hc. intros [->%Z.eqb_eq H]%andb_prop. f_equal. by apply IH.
Qed.

Lemma kw_compare_length s : ∀ w, kw_compare s w = true → length s = length w.
Proof.
  induction s as [|c s IH]; intros [|k w]; simpl; try done. intros [_ H]%andb_prop. f_equal. by apply IH.
Qed.

Lemma lookup_found s kws : 0 ≤ ScanKeywordLookup s kws →
  ∃ w c, kw_words kws !! Z.to_nat (ScanKeywordLookup s kws) = Some (w, c) ∧ kw_compare s w = true.
Proof.
  unfold ScanKeywordLookup. destruct (_ <? _)%nat; [lia|].
  destruct (_ || _); [lia|].
  destruct (kw_words kws !! Z.to_nat (kw_hash kws s)) as [[w c]|] eqn:E; [|lia].
  destruct (kw_compare s w) eqn:Hc; [|lia]. rewrite E. by exists w, c.
Qed.

Lemma lookup_complete s kws i w c : keywords_ok kws → kw_words kws !! i = Some (w, c) →
  kw_compare s w = true → ScanKeywordLookup s kws = Z.of_nat i.
Proof.
  intros [Hlow Hlen Hperf] Hi Hc. unfold ScanKeywordLookup.
  pose proof (Hlen i w c Hi) as Hl. rewrite <- (kw_compare_length s w Hc) in Hl.
  destruct (Nat.ltb_spec (max_kw_len kws) (length s)); [lia|].
  rewrite (Hperf i w c s Hi Hc). pose proof (lookup_lt_Some _ _ _ Hi).
  destruct (Z.ltb_spec (Z.of_nat i) 0); [lia|].
  destruct (Z.leb_spec (Z.of_nat (length (kw_words kws))) (Z.of_nat i)); [lia|]. simpl.
  by rewrite Nat2Z.id, Hi, Hc.
Qed.

(** ** Safe identifiers *)

Lemma safe_char_facts c : safe_char c = true →
  ident_cont c = true ∧ is_upper c = false ∧ is_highbit c = false ∧ c ≠ 39 ∧ c ≠ 38.
Proof.
  unfold safe_char, ident_cont, ident_start, is_upper, is_highbit, is_lower, is_digit, ch_underscore.
  rewrite !orb_true_iff, !andb_true_iff, !andb_false_iff, !Z.leb_le, !Z.leb_gt, !Z.eqb_eq. lia.
Qed.

Lemma safe_start_facts c : is_lower c || (c =? ch_underscore) = true →
  ident_start c = true ∧ scanner_isspace c = false.
Proof.
  unfold ident_start, scanner_isspace, is_lower, is_upper, is_highbit, ch_underscore.
  rewrite !orb_true_iff, !orb_false_iff, !andb_true_iff, !Z.leb_le, !Z.eqb_eq, !Z.eqb_neq. lia.
Qed.

Lemma delimiter_facts c : delimiter c = true →
  ident_cont c = false ∧ c ≠ ch_dquote ∧ c ≠ 39 ∧ c ≠ 38.
Proof.
  unfold delimiter, scanner_isspace. rewrite !orb_true_iff, !Z.eqb_eq, bool_decide_eq_true.
  rewrite !elem_of_cons, elem_of_nil. intros H.
  repeat (destruct H as [H|H]); subst; try done.
Qed.

Lemma downcase_safe loc s : Forall (λ c, safe_char c = true) s → downcase_char loc <$> s = s.
Proof.
  induction 1 as [|c s Hc Hs IH]; [done|]. csimpl. rewrite IH. f_equal. unfold downcase_char.
  destruct (safe_char_facts c Hc) as (_ & -> & -> & _). done.
Qed.

Lemma string_prefix_safe c s rest : safe_char c = true → Forall (λ c, safe_char c = true) s →
  (∀ d, head rest = Some d → d ≠ 39 ∧ d ≠ 38) → string_prefix (c :: s ++ rest) = false.
Proof.
  intros Hc Hs Hr.
  assert (Hd : ∀ d, head (s ++ rest) = Some d → d ≠ 39 ∧ d ≠ 38).
  { destruct Hs as [|x s Hx Hs]; [done|]. simpl. intros d [= <-]. by apply safe_char_facts. }
  unfold string_prefix. destruct (s ++ rest) as [|d l]; [done|]. destruct (Hd d eq_refl).
  repeat (case_match; try done).
Qed.

(** ** Properties *)

(** Keyword lookup is exact: for a generated list with a perfect hash, the
    result is the number of the keyword the text spells up to ASCII case, and
    [-1] if there is none. *)
Theorem keyword_lookup_correct kws s : keywords_ok kws →
  (0 ≤ ScanKeywordLookup s kws ∧
     ∃ w c, kw_words kws !! Z.to_nat (ScanKeywordLookup s kws) = Some (w, c) ∧
       kw_compare s w = true) ∨
  (ScanKeywordLookup s kws = -1 ∧
     ∀ i w c, kw_words kws !! i = Some (w, c) → kw_compare s w = false).
Proof.
  intros Hok. destruct (decide (0 ≤ ScanKeywordLookup s kws)) as [H|H].
  - left. split; [done|]. by apply lookup_found.
  - right. split.
    + revert H. unfold ScanKeywordLookup. repeat (case_match; try done).
      rewrite orb_false_iff, Z.ltb_ge in *. tauto.
    + intros i w c Hi. apply not_true_iff_false. intros Hc.
      rewrite (lookup_complete s kws i w c Hok Hi Hc) in H. lia.
Qed.

Lemma truncate_short loc ident : (length ident < NAMEDATALEN)%nat →
  truncate_identifier loc ident = ident.
Proof.
  intros H. unfold truncate_identifier.
  destruct (Nat.leb_spec NAMEDATALEN (length ident)); [lia|done].
Qed.

Lemma safe_token loc kws qa ident rest :
  safe_ident qa kws ident = true → (length ident < NAMEDATALEN)%nat →
  (∀ c, head rest = Some c → delimiter c = true) →
  lex loc kws (ident ++ rest) = lex_cons (identifier_token loc kws ident) (lex loc kws rest) ∧
  col_id (identifier_token loc kws ident) = Some ident.
Proof.
  intros Hs Hlen Hd. pose proof (truncate_short loc ident Hlen) as Htr.
  destruct ident as [|c s]; [done|]. unfold safe_ident in Hs.
  apply andb_prop in Hs as [[[Hc Hall]%andb_prop _]%andb_prop Hkw].
  pose proof (proj1 (forallb_Forall _ _) Hall) as Hall'.
  destruct (safe_start_facts c Hc) as [Hst Hsp].
  split.
  + unfold lex. simpl length. cbn [scan app]. rewrite Hsp, Hst.
    pose proof Hall' as Hcs. inv Hall' as [|? ? Hc' Hs'].
    rewrite string_prefix_safe; [|done|done|].
    2: { intros d Hdd. destruct (delimiter_facts d (Hd d Hdd)) as (_ & _ & ? & ?). done. }
    change (c :: s ++ rest) with ((c :: s) ++ rest). rewrite span_app.
    * rewrite lex_step; [done|]. rewrite length_app. lia.
    * eapply list.Forall_impl; [exact Hcs|]. intros x Hx. by apply safe_char_facts.
    * intros d Hdd. by apply delimiter_facts, Hd.
  + unfold identifier_token. destruct (Z.leb_spec 0 (ScanKeywordLookup (c :: s) kws)) as [Hk|Hk].
    * destruct (lookup_found _ _ Hk) as (w & cat & Hw & Hcmp). unfold keyword_category in Hkw.
      rewrite Hw in *. simpl in Hkw. case_bool_decide as Hcat; [|done]. injection Hcat as ->.
      simpl. f_equal. symmetry. apply kw_compare_lower; [|done].
      eapply list.Forall_impl; [exact Hall'|]. intros x Hx. by apply safe_char_facts.
    * simpl. unfold downcase_truncate_identifier. by rewrite downcase_safe, Htr.
Qed.

Lemma delimited_token loc kws ident rest : ident ≠ [] → (length ident < NAMEDATALEN)%nat →
  (∀ c, head rest = Some c → delimiter c = true) →
  lex loc kws ((ch_dquote :: double_quotes ident ++ [ch_dquote]) ++ rest) =
    lex_cons (IDENT ident) (lex loc kws rest).
Proof.
  intros Hne Hlen Hd. pose proof (truncate_short loc ident Hlen) as Htr.
  unfold lex.
  replace ((ch_dquote :: double_quotes ident ++ [ch_dquote]) ++ rest)
    with (ch_dquote :: double_quotes ident ++ ch_dquote :: rest) by (simpl; by rewrite <- app_assoc).
  simpl length. cbn [scan]. change (scanner_isspace ch_dquote) with false.
  assert (Hsp : string_prefix (ch_dquote :: double_quotes ident ++ ch_dquote :: rest) = false).
  { unfold string_prefix. repeat (case_match; try done). }
  rewrite Hsp. change (ident_start ch_dquote) with false. rewrite Z.eqb_refl.
  rewrite scan_xd_double; [|intros c Hc; by apply delimiter_facts, Hd].
  destruct ident as [|c s]; [done|]. rewrite Htr, lex_step; [done|].
  rewrite length_app. simpl. lia.
Qed.

Lemma kw_compare_fun s : ∀ w w', kw_compare s w = true → kw_compare s w' = true → w = w'.
Proof.
  induction s as [|c s IH]; intros [|k w] [|k' w']; simpl; try done.
  intros [<-%Z.eqb_eq H]%andb_prop [<-%Z.eqb_eq H']%andb_prop. f_equal. by apply IH.
Qed.

Lemma find_keyword_perfect words i w c s : NoDup words.*1 → words !! i = Some (w, c) →
  kw_compare s w = true → find_keyword words s = Z.of_nat i.
Proof.
  intros Hnd Hi Hc. unfold find_keyword.
  destruct (list_find _ words) as [[j [w' c']]|] eqn:E.
  - apply list_find_Some in E as (Hj & Hc' & _). simpl in Hc'. f_equal.
    eapply NoDup_lookup; [exact Hnd| |]; rewrite list_lookup_fmap, ?Hi, ?Hj; [done|].
    simpl. f_equal. by apply (kw_compare_fun s).
  - apply list_find_None in E. rewrite Forall_lookup in E. by destruct (E i (w, c) Hi).
Qed.

Lemma sql_keywords_ok : keywords_ok sql_keywords.
Proof.
  split.
  - intros i w c Hi. apply list_elem_of_lookup_2 in Hi. revert w c Hi.
    assert (H : Forall (λ wc, Forall (λ c, is_upper c = false) wc.1) sql_words)
      by (apply (bool_decide_unpack _); by vm_compute).
    intros w c Hi. by apply (proj1 (list.Forall_forall _ _) H (w, c)).
  - intros i w c Hi. apply list_elem_of_lookup_2 in Hi.
    assert (H : Forall (λ wc, (length wc.1 ≤ 17)%nat) sql_words)
      by (apply (bool_decide_unpack _); by vm_compute).
    by apply (proj1 (list.Forall_forall _ _) H (w, c)).
  - intros i w c s Hi. apply (find_keyword_perfect sql_words i w c s); [|exact Hi].
    apply (bool_decide_unpack _). by vm_compute.
Qed.

Lemma keyword_lookup_correct_witness :
  0 ≤ ScanKeywordLookup (bytes "SeLeCt") sql_keywords ∧
  ScanKeywordLookup (bytes "accounts") sql_keywords = -1.
Proof.
  destruct (keyword_lookup_correct sql_keywords (bytes "SeLeCt") sql_keywords_ok)
    as [[H _]|[H _]]; [|by vm_compute in H].
  destruct (keyword_lookup_correct sql_keywords (bytes "accounts") sql_keywords_ok)
    as [[H' _]|[H' _]]; [by vm_compute in H'|]. by split.
Defined.

Lemma quoted_name loc kws quote_all ident rest :
  ident ≠ [] → (length ident < NAMEDATALEN)%nat →
  (∀ c, head rest = Some c → delimiter c = true) →
  ∃ t, lex loc kws (quote_identifier quote_all kws ident ++ rest) =
         lex_cons t (lex loc kws rest) ∧ col_id t = Some ident.
Proof.
  intros Hne Hlen Hd. unfold quote_identifier. destruct (safe_ident quote_all kws ident) eqn:Hs.
  - eexists. by apply (safe_token loc kws quote_all).
  - exists (IDENT ident). split; [|done]. by apply delimited_token.
Qed.

(** C29.  Quoting round trip: whatever name [quote_identifier] is given (non-empty
    and shorter than [NAMEDATALEN], quotes, spaces, upper case and keywords
    included), the lexer reads its result back, up to the next delimiter, as one
    token that the grammar accepts as a name and that denotes the same name. *)
Theorem quote_identifier_roundtrip loc kws quote_all ident rest :
  ident ≠ [] → (length ident < NAMEDATALEN)%nat →
  (∀ c, head rest = Some c → delimiter c = true) →
  ∃ t, lex loc kws (quote_identifier quote_all kws ident ++ rest) =
         lex_cons t (lex loc kws rest) ∧
    col_id t = Some ident.
Proof. apply quoted_name. Qed.

Lemma quote_identifier_roundtrip_witness :
  ∃ t, lex c_locale sql_keywords
         (quote_identifier false sql_keywords (bytes "My Table") ++ bytes " (id)") =
       lex_cons t (lex c_locale sql_keywords (bytes " (id)")) ∧
    col_id t = Some (bytes "My Table").
Proof.
  apply (quote_identifier_roundtrip c_locale sql_keywords false (bytes "My Table") (bytes " (id)")).
  - done.
  - apply Nat.ltb_lt. by vm_compute.
  - by intros c [= <-].
Defined.
