(* ===== verification/CLib.v ===== *)
(** * Number formatting and parsing of the C library

    The advisor reads catalog numbers through their text form: [int8out] and
    [int4out] print them, [atoi] and [strtod] read them back.  [strtod] is the
    correctly rounded conversion of decimal notation, the only one the output
    functions produce. *)
From Corelib Require Import SpecFloat.
From Stdlib Require Import ZArith Lia.
From stdpp Require Import base tactics list strings numbers.
From S2P Require Import Prelude Float64 LikeMatch Ident.

(** ** Integers *)

(** Decimal digits, least significant last, with one round more than the fuel. *)
Fixpoint digits_loop (fuel : nat) (n : Z) (acc : list Z) : list Z :=
  let acc := 48 + n mod 10 :: acc in
  match fuel with
  | O => acc
  | S fuel' => if n / 10 =? 0 then acc else digits_loop fuel' (n / 10) acc
  end.

(** The decimal notation of a 64-bit number, which the routines of [numutils.c]
    are shown to produce. *)
Definition dec_text (n : Z) : list Z := digits_loop 20 n [].

Definition int_text (n : Z) : list Z :=
  if n <? 0 then 45 :: dec_text (- n) else dec_text n.

(** White space, as [isspace] in the C locale. *)
Fixpoint skip_space (s : list Z) : list Z :=
  match s with
  | c :: s' => if scanner_isspace c then skip_space s' else s
  | [] => []
  end.

Definition scan_sign (s : list Z) : bool * list Z :=
  match s with
  | 45 :: s' => (true, s')
  | 43 :: s' => (false, s')
  | _ => (false, s)
  end.

(** The value of a digit string appended to [acc]. *)
Definition digits_value (acc : Z) (ds : list Z) : Z :=
  foldl (λ v c, 10 * v + (c - 48)) acc ds.

(** [strtol] saturates; [atoi] converts its result to [int]. *)
Definition strtol (s : list Z) : Z :=
  let '(neg, s) := scan_sign (skip_space s) in
  let v := digits_value 0 (span is_digit s).1 in
  Z.max (- 2 ^ 63) (Z.min (2 ^ 63 - 1) (if neg : bool then - v else v)).

Definition atoi (s : list Z) : Z := i32 (strtol s).

(** ** Floating point *)

(** The double nearest to [d * 10^e].  For a negative exponent the quotient is
    computed to at least 70 bits with a sticky bit, so that it rounds once. *)
Definition decimal_to_double (d e : Z) (neg : bool) : double :=
  let signed m := if neg then - m else m in
  if d =? 0 then S754_zero neg
  else if 0 <=? e then binary_normalize 53 1024 (signed (d * 10 ^ e)) 0 neg
  else
    let q := 10 ^ (- e) in
    let k := Z.max 0 (70 + Z.log2 q - Z.log2 d) in
    let n := d * 2 ^ k in
    let m := 2 * (n / q) + (if n mod q =? 0 then 0 else 1) in
    binary_normalize 53 1024 (signed m) (- k - 1) neg.

(** The exponent part, zero if there is none. *)
Definition scan_exponent (s : list Z) : Z :=
  match s with
  | c :: s' =>
      if (c =? 101) || (c =? 69) then
        let '(neg, s') := scan_sign s' in
        let v := digits_value 0 (span is_digit s').1 in
        if neg : bool then - v else v
      else 0
  | [] => 0
  end.

Definition has_prefix_ci (w s : list Z) : bool :=
  kw_compare (take (length w) s) w.

Definition strtod (s : list Z) : double :=
  let '(neg, s) := scan_sign (skip_space s) in
  if has_prefix_ci (bytes "inf") s then S754_infinity neg
  else if has_prefix_ci (bytes "nan") s then S754_nan
  else
    let '(int, s) := span is_digit s in
    let '(frac, s) := match s with 46 :: s' => span is_digit s' | _ => ([], s) end in
    match int, frac with
    | [], [] => d0
    | _, _ =>
        decimal_to_double (digits_value 0 (int ++ frac))
          (scan_exponent s - Z.of_nat (length frac)) neg
    end.

(** ** Lemmas *)

Lemma digits_value_app acc a b : digits_value acc (a ++ b) = digits_value (digits_value acc a) b.
Proof. apply foldl_app. Qed.

Lemma digits_loop_spec fuel : ∀ n acc, 0 ≤ n < 10 ^ (Z.of_nat fuel + 1) →
  ∃ ds, digits_loop fuel n acc = ds ++ acc ∧ ds ≠ [] ∧
    Forall (λ c, is_digit c = true) ds ∧ digits_value 0 ds = n.
Proof.
  induction fuel as [|fuel IH]; intros n acc Hn; simpl digits_loop;
    pose proof (Z.mod_pos_bound n 10 ltac:(lia)) as Hm;
    assert (Hd : is_digit (48 + n mod 10) = true)
      by (unfold is_digit; rewrite andb_true_iff, !Z.leb_le; lia).
  - exists [48 + n mod 10]. split_and!; [done|done|by repeat constructor|].
    change (digits_value 0 [48 + n mod 10]) with (10 * 0 + (48 + n mod 10 - 48)).
    rewrite Z.mod_small by (change (10 ^ (Z.of_nat 0 + 1)) with 10 in Hn; lia). lia.
  - destruct (Z.eqb_spec (n / 10) 0) as [H0|H0].
    + exists [48 + n mod 10]. split_and!; [done|done|by repeat constructor|].
      change (digits_value 0 [48 + n mod 10]) with (10 * 0 + (48 + n mod 10 - 48)).
      pose proof (Z.div_mod n 10). lia.
    + destruct (IH (n / 10) (48 + n mod 10 :: acc)) as (ds & -> & Hne & Hds & Hv).
      { split; [apply Z.div_pos; lia|]. apply Z.div_lt_upper_bound; [lia|].
        replace (Z.of_nat (S fuel) + 1) with (1 + (Z.of_nat fuel + 1)) in Hn by lia.
        rewrite Z.pow_add_r in Hn by lia. lia. }
      exists (ds ++ [48 + n mod 10]). split_and!.
      * by rewrite <- app_assoc.
      * by destruct ds.
      * apply Forall_app. split; [done|by repeat constructor].
      * rewrite digits_value_app, Hv. change (digits_value (n / 10) [48 + n mod 10])
          with (10 * (n / 10) + (48 + n mod 10 - 48)). pose proof (Z.div_mod n 10). lia.
Qed.

Lemma dec_text_spec n : 0 ≤ n < 2 ^ 64 → dec_text n ≠ [] ∧
  Forall (λ c, is_digit c = true) (dec_text n) ∧ digits_value 0 (dec_text n) = n.
Proof.
  intros Hn. destruct (digits_loop_spec 20 n []) as (ds & Hds & Hne & Hf & Hv).
  { assert (2 ^ 64 < 10 ^ (Z.of_nat 20 + 1)) by (by vm_compute). lia. }
  unfold dec_text. by rewrite Hds, app_nil_r.
Qed.

Lemma is_digit_start c s : is_digit c = true →
  skip_space (c :: s) = c :: s ∧ scan_sign (c :: s) = (false, c :: s).
Proof.
  unfold is_digit. rewrite andb_true_iff, !Z.leb_le. intros Hc. split.
  - simpl. unfold scanner_isspace.
    destruct (Z.eqb_spec c 32), (Z.eqb_spec c 9), (Z.eqb_spec c 10), (Z.eqb_spec c 13),
      (Z.eqb_spec c 11), (Z.eqb_spec c 12); try lia. done.
  - unfold scan_sign. repeat (case_match; try done; try lia).
Qed.

Lemma span_digits ds : Forall (λ c, is_digit c = true) ds → span is_digit ds = (ds, []).
Proof.
  intros H. rewrite <- (app_nil_r ds) at 1. by apply span_app.
Qed.

(** Integers survive the round trip through their text form: for every value
    of a 32-bit [int], [atoi] reads back what [int8out] printed. *)
Theorem atoi_int8out n : in_s 32 n → atoi (int_text n) = n.
Proof.
  intros Hn. unfold in_s in Hn. change (2 ^ (32 - 1)) with (2 ^ 31) in Hn.
  unfold atoi, strtol, int_text. destruct (Z.ltb_spec n 0) as [Hneg|Hpos].
  - destruct (dec_text_spec (- n)) as (Hne & Hds & Hv); [lia|].
    set (ds := dec_text (- n)) in *. clearbody ds.
    change (skip_space (45 :: ds)) with (45 :: ds). cbn [scan_sign].
    rewrite span_digits by done. simpl fst. rewrite Hv, Z.opp_involutive.
    rewrite i32_small; lia.
  - destruct (dec_text_spec n) as (Hne & Hds & Hv); [lia|].
    set (ds := dec_text n) in *. clearbody ds.
    destruct ds as [|c ds]; [done|]. assert (Hc : is_digit c = true) by (by inv Hds).
    destruct (is_digit_start c ds Hc) as [-> ->]. rewrite span_digits by done.
    simpl fst. rewrite Hv. rewrite i32_small; lia.
Qed.

Lemma atoi_int8out_witness : atoi (int_text (-7)) = -7.
Proof. apply atoi_int8out. by split. Defined.

(** Values as the catalogs print them. *)
Lemma strtod_examples :
  strtod (bytes "1e+06") = d_of_Z 1000000 ∧ strtod (bytes "-1") = d_of_Z (-1) ∧
  strtod (bytes "0.0025") = ddiv (d_of_Z 25) (d_of_Z 10000) ∧
  strtod (bytes "9007199254740993") = d_of_Z 9007199254740992.
Proof. by vm_compute. Qed.
