(* ===== verification/NumUtils.v ===== *)
(** * Integers as text

    [numutils.c]: the digit generation of [pg_ultoa_n] and [pg_ulltoa_n] into a
    caller's buffer, two digits at a time, and the parsers [pg_strtoint16_safe],
    [pg_strtoint32_safe] and [pg_strtoint64_safe] with their fast path, the other
    bases and the digit separators.  Buffers are lists of bytes; a write outside
    of the buffer and a read outside of a table have no result.  A C string is the
    list of its bytes before the terminating NUL. *)
From Stdlib Require Import ZArith Lia.
From stdpp Require Import base tactics list strings numbers.
From S2P Require Import Prelude Float64 LikeMatch Ident CLib.

(** ** Output *)

Definition DIGIT_TABLE : list Z := Eval vm_compute in bytes
"00010203040506070809101112131415161718192021222324252627282930313233343536373839404142434445464748495051525354555657585960616263646566676869707172737475767778798081828384858687888990919293949596979899".

Definition pg_leftmost_one_pos (word : Z) : Z := Z.log2 word.

Definition PowersOfTen32 : list Z := [1; 10; 100; 1000; 10000; 100000; 1000000; 10000000;
  100000000; 1000000000].

Definition PowersOfTen64 : list Z := PowersOfTen32 ++ [10000000000; 100000000000;
  1000000000000; 10000000000000; 100000000000000; 1000000000000000; 10000000000000000;
  100000000000000000; 1000000000000000000; 10000000000000000000].

Definition decimalLength32 (v : Z) : option Z :=
  let t := (pg_leftmost_one_pos v + 1) * 1233 / 4096 in
  p ← PowersOfTen32 !! Z.to_nat t; Some (t + (if p <=? v then 1 else 0)).

Definition decimalLength64 (v : Z) : option Z :=
  let t := (pg_leftmost_one_pos v + 1) * 1233 / 4096 in
  p ← PowersOfTen64 !! Z.to_nat t; Some (t + (if p <=? v then 1 else 0)).

(** [memcpy(a + pos, DIGIT_TABLE + c, 2)] *)
Definition copy2 (pos c : Z) (a : list Z) : option (list Z) :=
  x ← DIGIT_TABLE !! Z.to_nat c;
  y ← DIGIT_TABLE !! Z.to_nat (c + 1);
  if (0 <=? pos) && (pos + 2 <=? Z.of_nat (length a))
  then Some (<[Z.to_nat (pos + 1) := y]> (<[Z.to_nat pos := x]> a)) else None.

(** [*a = ch] *)
Definition store0 (ch : Z) (a : list Z) : option (list Z) :=
  match a with
  | [] => None
  | _ :: a' => Some (ch :: a')
  end.

(** The state of the digit loops: [value], [i] and the buffer. *)
Definition digit_state : Type := Z * Z * list Z.

(** The body of [while (value >= 10000)]. *)
Definition four_digits (olength : Z) (st : digit_state) : option digit_state :=
  let '(value, i, a) := st in
  let c := u32 (value - 10000 * (value / 10000)) in
  let pos := olength - i in
  a ← copy2 (pos - 2) (Z.shiftl (c mod 100) 1) a;
  a ← copy2 (pos - 4) (Z.shiftl (c / 100) 1) a;
  Some (value / 10000, i + 4, a).

(** [while (value >= 10000)]; [None] also when the fuel runs out. *)
Fixpoint four_digits_loop (fuel : nat) (olength : Z) (st : digit_state) : option digit_state :=
  if st.1.1 <? 10000 then Some st
  else match fuel with
  | O => None
  | S fuel' => st ← four_digits olength st; four_digits_loop fuel' olength st
  end.

(** The statements after the loops: the last one to four digits. *)
Definition last_digits (olength : Z) (st : digit_state) : option (list Z) :=
  let '(value, i, a) := st in
  st ← (if 100 <=? value
        then a ← copy2 (olength - i - 2) (Z.shiftl (value mod 100) 1) a;
             Some (value / 100, i + 2, a)
        else Some st);
  let '(value, i, a) := st in
  if 10 <=? value then copy2 (olength - i - 2) (Z.shiftl value 1) a
  else store0 (48 + value) a.

(** The length and the buffer afterwards. *)
Definition pg_ultoa_n (value : Z) (a : list Z) : option (Z * list Z) :=
  if value =? 0 then a ← store0 48 a; Some (1, a)
  else
    olength ← decimalLength32 value;
    st ← four_digits_loop 2 olength (value, 0, a);
    a ← last_digits olength st;
    Some (olength, a).

(** The body of [while (value >= 100000000)]. *)
Definition eight_digits (olength : Z) (st : digit_state) : option digit_state :=
  let '(value, i, a) := st in
  let q := value / 100000000 in
  let value3 := u32 (value - 100000000 * q) in
  let c := value3 mod 10000 in
  let d := value3 / 10000 in
  let pos := olength - i in
  a ← copy2 (pos - 2) (Z.shiftl (c mod 100) 1) a;
  a ← copy2 (pos - 4) (Z.shiftl (c / 100) 1) a;
  a ← copy2 (pos - 6) (Z.shiftl (d mod 100) 1) a;
  a ← copy2 (pos - 8) (Z.shiftl (d / 100) 1) a;
  Some (q, i + 8, a).

Fixpoint eight_digits_loop (fuel : nat) (olength : Z) (st : digit_state) : option digit_state :=
  if st.1.1 <? 100000000 then Some st
  else match fuel with
  | O => None
  | S fuel' => st ← eight_digits olength st; eight_digits_loop fuel' olength st
  end.

Definition pg_ulltoa_n (value : Z) (a : list Z) : option (Z * list Z) :=
  if value =? 0 then a ← store0 48 a; Some (1, a)
  else
    olength ← decimalLength64 value;
    st ← eight_digits_loop 2 olength (value, 0, a);
    let '(value, i, a) := st in
    let value2 := u32 value in
    st ← (if 10000 <=? value2 then four_digits olength (value2, i, a)
          else Some (value2, i, a));
    a ← last_digits olength st;
    Some (olength, a).

(** [a[len++] = '-'], the digits, and the terminating NUL. *)
Definition with_sign (neg : bool) (ntoa : list Z → option (Z * list Z)) (a : list Z) :
    option (Z * list Z) :=
  if neg then
    match a with
    | [] => None
    | _ :: a' =>
        '(len, a') ← ntoa a';
        if 1 + len <? Z.of_nat (length a) then Some (1 + len, <[Z.to_nat (1 + len) := 0]> (45 :: a'))
        else None
    end
  else
    '(len, a) ← ntoa a;
    if len <? Z.of_nat (length a) then Some (len, <[Z.to_nat len := 0]> a) else None.

Definition pg_ltoa (value : Z) (a : list Z) : option (Z * list Z) :=
  let uvalue := u32 value in
  with_sign (value <? 0) (pg_ultoa_n (if value <? 0 then u32 (0 - uvalue) else uvalue)) a.

Definition pg_lltoa (value : Z) (a : list Z) : option (Z * list Z) :=
  let uvalue := u64 value in
  with_sign (value <? 0) (pg_ulltoa_n (if value <? 0 then u64 (0 - uvalue) else uvalue)) a.

Definition pg_itoa (i : Z) (a : list Z) : option (Z * list Z) := pg_ltoa i a.

(** [memset], then the digits moved behind the padding. *)
Definition pg_ultostr_zeropad (str : list Z) (value minwidth : Z) : option (Z * list Z) :=
  if (value <? 100) && (minwidth =? 2) then
    str ← copy2 0 (value * 2) str; Some (2, str)
  else
    '(len, str) ← pg_ultoa_n value str;
    if minwidth <=? len then Some (len, str)
    else if minwidth <=? Z.of_nat (length str) then
      Some (minwidth, replicate (Z.to_nat (minwidth - len)) 48 ++ take (Z.to_nat len) str ++
                      drop (Z.to_nat minwidth) str)
    else None.

Definition pg_ultostr (str : list Z) (value : Z) : option (Z * list Z) := pg_ultoa_n value str.

(** The bytes before the first NUL. *)
Definition c_string (a : list Z) : list Z := (span (λ c, negb (c =? 0)) a).1.

Definition MAXINT8LEN : Z := 20.

(** [palloc] and the stack give memory of any contents, here [mem]. *)
Definition int8out (val : Z) (mem : list Z) : option (list Z) :=
  '(len, buf) ← pg_lltoa val (take (Z.to_nat (MAXINT8LEN + 1)) mem);
  let len := len + 1 in
  if len <=? Z.of_nat (length buf) then Some (c_string (take (Z.to_nat len) buf)) else None.

Definition int4out (arg1 : Z) (mem : list Z) : option (list Z) :=
  '(_, result) ← pg_ltoa arg1 (take 12 mem); Some (c_string result).

Definition int2out (arg1 : Z) (mem : list Z) : option (list Z) :=
  '(_, result) ← pg_itoa arg1 (take 7 mem); Some (c_string result).

(** ** Input *)

Inductive int_type := smallint | integer | bigint.

Definition width (t : int_type) : Z :=
  match t with smallint => 16 | integer => 32 | bigint => 64 end.

Inductive strtoint_error := out_of_range | invalid_syntax.

Definition hexlookup : list Z := Eval vm_compute in
  replicate 48 (-1) ++ [0; 1; 2; 3; 4; 5; 6; 7; 8; 9] ++ replicate 7 (-1) ++
  [10; 11; 12; 13; 14; 15] ++ replicate 26 (-1) ++ [10; 11; 12; 13; 14; 15] ++ replicate 25 (-1).

Definition isxdigit (c : Z) : bool :=
  is_digit c || ((65 <=? c) && (c <=? 70)) || ((97 <=? c) && (c <=? 102)).

(** [pg_neg_u16_overflow], [pg_neg_u32_overflow] and [pg_neg_u64_overflow], which
    compute in the next wider type; [None] when they return true. *)
Definition pg_neg_overflow (t : int_type) (a : Z) : option Z :=
  let res := - a in
  if res <? - 2 ^ (width t - 1) then None else Some res.

(** [-(PG_INT64_MIN / base)] and its siblings; C division truncates. *)
Definition max_before (t : int_type) (base : Z) : Z := - Z.quot (- 2 ^ (width t - 1)) base.

(** The end of both paths. *)
Definition finish (t : int_type) (neg : bool) (tmp : Z) : strtoint_error + Z :=
  if neg then
    match pg_neg_overflow t tmp with
    | None => inl out_of_range
    | Some result => inr result
    end
  else if 2 ^ (width t - 1) - 1 <? tmp then inl out_of_range
  else inr tmp.

(** The digit loop of the fast path: the value and the rest of the string. *)
Fixpoint fast_loop (t : int_type) (tmp : Z) (ptr : list Z) : strtoint_error + (Z * list Z) :=
  match ptr with
  | c :: ptr' =>
      let digit := wrap_u 8 (c - 48) in
      if 10 <=? digit then inr (tmp, ptr)
      else if max_before t 10 <? tmp then inl out_of_range
      else fast_loop t (wrap_u (width t) (tmp * 10 + digit)) ptr'
  | [] => inr (tmp, [])
  end.

Definition fast_sign (s : list Z) : bool * list Z :=
  match s with
  | c :: s' => if c =? 45 then (true, s') else (false, s)
  | [] => (false, s)
  end.

(** [None] is [goto slow]. *)
Definition strtoint_fast (t : int_type) (s : list Z) : bool * option (strtoint_error + Z) :=
  let '(neg, ptr) := fast_sign s in
  (neg, match ptr with
   | c :: ptr =>
       let digit := wrap_u 8 (c - 48) in
       if digit <? 10 then
         match fast_loop t digit ptr with
         | inl e => Some (inl e)
         | inr (tmp, []) => Some (finish t neg tmp)
         | inr (_, _ :: _) => None
         end
       else None
   | [] => None
   end).

(** The digit loops of the slow path.  [moved] is [ptr != firstdigit]; [lead] says
    that an underscore may come first, as it may after a base prefix. *)
Fixpoint slow_loop (t : int_type) (base : Z) (isdig : Z → bool) (val : Z → Z) (lead : bool)
    (moved : bool) (tmp : Z) (ptr : list Z) : strtoint_error + (Z * bool * list Z) :=
  match ptr with
  | c :: ptr' =>
      if isdig c then
        if max_before t base <? tmp then inl out_of_range
        else slow_loop t base isdig val lead true (wrap_u (width t) (tmp * base + val c)) ptr'
      else if c =? 95 then
        if negb lead && negb moved then inl invalid_syntax
        else match ptr' with
          | d :: _ => if isdig d then slow_loop t base isdig val lead true tmp ptr'
                      else inl invalid_syntax
          | [] => inl invalid_syntax
          end
      else inr (tmp, moved, ptr)
  | [] => inr (tmp, moved, [])
  end.

Definition isoctal (c : Z) : bool := (48 <=? c) && (c <=? 55).
Definition isbinary (c : Z) : bool := (48 <=? c) && (c <=? 49).
Definition hexval (c : Z) : Z := default (-1) (hexlookup !! Z.to_nat c).
Definition decval (c : Z) : Z := c - 48.

(** The four [process digits] branches. *)
Definition process_digits (t : int_type) (ptr : list Z) : strtoint_error + (Z * bool * list Z) :=
  match ptr with
  | z :: x :: p =>
      if (z =? 48) && ((x =? 120) || (x =? 88)) then slow_loop t 16 isxdigit hexval true false 0 p
      else if (z =? 48) && ((x =? 111) || (x =? 79)) then slow_loop t 8 isoctal decval true false 0 p
      else if (z =? 48) && ((x =? 98) || (x =? 66)) then slow_loop t 2 isbinary decval true false 0 p
      else slow_loop t 10 is_digit decval false false 0 ptr
  | _ => slow_loop t 10 is_digit decval false false 0 ptr
  end.

(** [handle sign] *)
Definition slow_sign (neg : bool) (ptr : list Z) : bool * list Z :=
  match ptr with
  | c :: p => if c =? 45 then (true, p) else if c =? 43 then (neg, p) else (neg, ptr)
  | [] => (neg, ptr)
  end.

(** From the label [slow] on; [neg] is as the fast path left it. *)
Definition strtoint_slow (t : int_type) (neg : bool) (s : list Z) : strtoint_error + Z :=
  let '(neg, ptr) := slow_sign neg (skip_space s) in
  match process_digits t ptr with
  | inl e => inl e
  | inr (tmp, moved, ptr) =>
      if negb moved then inl invalid_syntax
      else match skip_space ptr with
        | [] => finish t neg tmp
        | _ :: _ => inl invalid_syntax
        end
  end.

Definition strtoint (t : int_type) (s : list Z) : strtoint_error + Z :=
  let '(neg, r) := strtoint_fast t s in
  match r with
  | Some r => r
  | None => strtoint_slow t neg s
  end.

Definition pg_strtoint16_safe (s : list Z) : strtoint_error + Z := strtoint smallint s.
Definition pg_strtoint32_safe (s : list Z) : strtoint_error + Z := strtoint integer s.
Definition pg_strtoint64_safe (s : list Z) : strtoint_error + Z := strtoint bigint s.

(** The output function of each type. *)
Definition int_out (t : int_type) : Z → list Z → option (list Z) :=
  match t with smallint => int2out | integer => int4out | bigint => int8out end.

(** ** The notation of integers

    What a string of digits, underscores, a base prefix, a sign and white space
    denotes, without reference to the parser. *)

(** Digits, each possibly behind one underscore. *)
Inductive grouped (isdig : Z → bool) : list Z → list Z → Prop :=
  | grouped_nil : grouped isdig [] []
  | grouped_digit c s ds : isdig c = true → grouped isdig s ds → grouped isdig (c :: s) (c :: ds)
  | grouped_underscore c s ds : isdig c = true → grouped isdig s ds →
      grouped isdig (95 :: c :: s) (c :: ds).

Definition positional (base : Z) (val : Z → Z) (acc : Z) (ds : list Z) : Z :=
  foldl (λ v c, v * base + val c) acc ds.

Inductive numeral : list Z → Z → Prop :=
  | numeral_dec c s ds : is_digit c = true → grouped is_digit s ds →
      numeral (c :: s) (positional 10 decval 0 (c :: ds))
  | numeral_hex x s ds : x = 120 ∨ x = 88 → grouped isxdigit s ds → ds ≠ [] →
      numeral (48 :: x :: s) (positional 16 hexval 0 ds)
  | numeral_oct x s ds : x = 111 ∨ x = 79 → grouped isoctal s ds → ds ≠ [] →
      numeral (48 :: x :: s) (positional 8 decval 0 ds)
  | numeral_bin x s ds : x = 98 ∨ x = 66 → grouped isbinary s ds → ds ≠ [] →
      numeral (48 :: x :: s) (positional 2 decval 0 ds).

Inductive denotes : list Z → Z → Prop :=
  | denotes_intro lead sign s trail m :
      Forall (λ c, scanner_isspace c = true) lead → sign ∈ [[]; [43]; [45]] → numeral s m →
      Forall (λ c, scanner_isspace c = true) trail →
      denotes (lead ++ sign ++ s ++ trail) (if decide (sign = [45]) then - m else m).

(** The [n] last decimal digits of [v]. *)
Fixpoint digs (n : nat) (v : Z) : list Z :=
  match n with
  | O => []
  | S n' => digs n' (v / 10) ++ [48 + v mod 10]
  end.

(** A buffer whose first [m] bytes are still to be written, followed by the [i]
    last digits of [v]. *)
Definition written (v : Z) (i m : nat) (rest a : list Z) : Prop :=
  ∃ pre, length pre = m ∧ a = pre ++ digs i v ++ rest.

(** [v] has [n] digits. *)
Definition has_digits (n : nat) (v : Z) : Prop :=
  (1 ≤ n)%nat ∧ 10 ^ (Z.of_nat n - 1) ≤ v < 10 ^ Z.of_nat n.

(** ** The digits that are written *)

Lemma decimalLength_by (tab : list Z) (w v : Z) : 0 < v < 2 ^ w →
  forallb (λ k, let t := (k + 1) * 1233 / 4096 in
             (0 <=? t) && bool_decide (tab !! Z.to_nat t = Some (10 ^ t)) &&
             ((t =? 0) || (10 ^ (t - 1) <=? 2 ^ k)) && (2 ^ (k + 1) <=? 10 ^ (t + 1)))
    (seqZ 0 w) = true →
  ∃ n, (let t := (pg_leftmost_one_pos v + 1) * 1233 / 4096 in
        p ← tab !! Z.to_nat t; Some (t + (if p <=? v then 1 else 0))) = Some n ∧
    1 ≤ n ∧ 10 ^ (n - 1) ≤ v < 10 ^ n.
Proof.
  intros Hv Hall. unfold pg_leftmost_one_pos. set (k := Z.log2 v).
  assert (Hk : 0 ≤ k < w) by (split; [apply Z.log2_nonneg|apply Z.log2_lt_pow2; lia]).
  pose proof (Z.log2_spec v ltac:(lia)) as Hlog. fold k in Hlog.
  rewrite forallb_forall in Hall. specialize (Hall k).
  rewrite <- list_elem_of_In, elem_of_seqZ in Hall. specialize (Hall ltac:(lia)).
  cbv zeta in *. set (t := (k + 1) * 1233 / 4096) in *. clearbody t k.
  rewrite !andb_true_iff, orb_true_iff, bool_decide_eq_true, Z.eqb_eq, !Z.leb_le in Hall.
  destruct Hall as [[[Ht Htab] Hlo] Hhi]. rewrite Htab. cbn [mbind option_bind].
  change (Z.succ k) with (k + 1) in Hlog.
  destruct (Z.leb_spec (10 ^ t) v).
  - exists (t + 1). rewrite Z.add_simpl_r. split_and!; [done|lia|lia|lia].
  - exists (t + 0). rewrite Z.add_0_r. destruct Hlo as [->|Hlo]; [lia|].
    assert (1 ≤ t); [|split_and!; [done|lia|lia|lia]].
    destruct (Z.eq_dec t 0) as [->|]; lia.
Qed.

Lemma decimalLength32_spec v : 0 < v < 2 ^ 32 →
  ∃ n, decimalLength32 v = Some n ∧ 1 ≤ n ∧ 10 ^ (n - 1) ≤ v < 10 ^ n.
Proof. intros Hv. by apply (decimalLength_by PowersOfTen32 32). Qed.

Lemma decimalLength64_spec v : 0 < v < 2 ^ 64 →
  ∃ n, decimalLength64 v = Some n ∧ 1 ≤ n ∧ 10 ^ (n - 1) ≤ v < 10 ^ n.
Proof. intros Hv. by apply (decimalLength_by PowersOfTen64 64). Qed.

Lemma digs_length n v : length (digs n v) = n.
Proof. revert v; induction n as [|n IH]; intros v; [done|]. simpl. rewrite length_app, IH. simpl. lia. Qed.

Lemma digs_app m n v : digs (m + n) v = digs m (v / 10 ^ Z.of_nat n) ++ digs n v.
Proof.
  revert v. induction n as [|n IH]; intros v.
  - by rewrite Nat.add_0_r, Z.div_1_r, app_nil_r.
  - replace (m + S n)%nat with (S (m + n)) by lia. cbn [digs]. rewrite IH, app_assoc.
    rewrite Z.div_div, Nat2Z.inj_succ, Z.pow_succ_r by lia. done.
Qed.

Lemma digs_mod n k v : (n ≤ k)%nat → digs n (v mod 10 ^ Z.of_nat k) = digs n v.
Proof.
  revert k v. induction n as [|n IH]; intros k v Hk; [done|].
  destruct k as [|k]; [lia|]. cbn [digs]. rewrite Nat2Z.inj_succ, Z.pow_succ_r by lia.
  rewrite Z.rem_mul_r, (Z.mul_comm 10) by lia.
  f_equal; [|by rewrite Z.mod_add, Z.mod_mod by lia].
  rewrite Z.div_add by lia.
  rewrite (Z.div_small (v mod 10)) by (apply Z.mod_pos_bound; lia).
  rewrite Z.add_0_l. apply IH. lia.
Qed.

Lemma digits_loop_digs fuel n v acc : 0 ≤ v < 10 ^ Z.of_nat n → (1 ≤ n ≤ S fuel)%nat →
  (n = 1%nat ∨ 10 ^ Z.of_nat (n - 1) ≤ v) → digits_loop fuel v acc = digs n v ++ acc.
Proof.
  revert n v acc. induction fuel as [|fuel IH]; intros n v acc Hv Hn Hlo.
  { assert (n = 1%nat) as -> by lia. done. }
  destruct n as [|[|n]]; [lia| |].
  - cbn [digits_loop digs app]. rewrite Z.div_small by (cbn in Hv; lia). done.
  - destruct Hlo as [?|Hlo]; [lia|]. cbn [digits_loop digs].
    replace (S (S n) - 1)%nat with (S n) in Hlo by lia.
    rewrite !Nat2Z.inj_succ, !Z.pow_succ_r in Hv by lia.
    rewrite Nat2Z.inj_succ, Z.pow_succ_r in Hlo by lia.
    assert (10 ^ Z.of_nat n ≤ v / 10) by (apply Z.div_le_lower_bound; lia).
    assert (v / 10 < 10 ^ Z.of_nat (S n))
      by (rewrite Nat2Z.inj_succ, Z.pow_succ_r by lia; apply Z.div_lt_upper_bound; lia).
    assert (0 < 10 ^ Z.of_nat n) by (apply Z.pow_pos_nonneg; lia).
    destruct (Z.eqb_spec (v / 10) 0); [lia|].
    rewrite (IH (S n)).
    + cbn [digs]. by rewrite <- !app_assoc.
    + lia.
    + lia.
    + right. by replace (S n - 1)%nat with n by lia.
Qed.

Lemma DIGIT_TABLE_pair k : 0 ≤ k < 100 →
  DIGIT_TABLE !! Z.to_nat (Z.shiftl k 1) = Some (48 + k / 10) ∧
  DIGIT_TABLE !! Z.to_nat (Z.shiftl k 1 + 1) = Some (48 + k mod 10).
Proof.
  intros Hk.
  assert (Hall : forallb (λ k, bool_decide (DIGIT_TABLE !! Z.to_nat (Z.shiftl k 1) = Some (48 + k / 10))
    && bool_decide (DIGIT_TABLE !! Z.to_nat (Z.shiftl k 1 + 1) = Some (48 + k mod 10)))
    (seqZ 0 100) = true) by (by vm_compute).
  rewrite forallb_forall in Hall. specialize (Hall k).
  rewrite <- list_elem_of_In, elem_of_seqZ, andb_true_iff, !bool_decide_eq_true in Hall.
  by apply Hall.
Qed.

Lemma copy2_written v i m rest a pos k : written v i m rest a → (2 ≤ m)%nat →
  k = v / 10 ^ Z.of_nat i mod 100 → pos = Z.of_nat m - 2 →
  ∃ a', copy2 pos (Z.shiftl k 1) a = Some a' ∧ written v (i + 2) (m - 2) rest a'.
Proof.
  intros (pre & Hm & ->) H2 -> ->. set (q := v / 10 ^ Z.of_nat i).
  pose proof (Z.mod_pos_bound q 100 ltac:(lia)).
  destruct (DIGIT_TABLE_pair (q mod 100)) as [Hx Hy]; [done|].
  unfold copy2. rewrite Hx, Hy. cbn [mbind option_bind].
  destruct (Z.leb_spec 0 (Z.of_nat m - 2)); [|lia].
  destruct (Z.leb_spec (Z.of_nat m - 2 + 2) (Z.of_nat (length (pre ++ digs i v ++ rest))));
    [|rewrite length_app in *; lia].
  cbn [andb]. eexists. split; [done|].
  destruct (lookup_lt_is_Some_2 pre (m - 2)) as [x Hpx]; [lia|].
  destruct (lookup_lt_is_Some_2 pre (m - 1)) as [y Hpy]; [lia|].
  exists (take (m - 2) pre). split; [rewrite length_take; lia|].
  rewrite <- (take_drop (m - 2) pre) at 1. rewrite (drop_S _ _ _ Hpx).
  replace (S (m - 2)) with (m - 1)%nat by lia. rewrite (drop_S _ _ _ Hpy).
  replace (S (m - 1)) with m by lia. rewrite (drop_ge pre m) by lia.
  rewrite <- app_assoc.
  assert (Hl : length (take (m - 2) pre) = (m - 2)%nat) by (rewrite length_take; lia).
  replace (Z.to_nat (Z.of_nat m - 2 + 1)) with (length (take (m - 2) pre) + 1)%nat by lia.
  replace (Z.to_nat (Z.of_nat m - 2)) with (length (take (m - 2) pre) + 0)%nat by lia.
  rewrite !insert_app_r. f_equal. cbn [app insert list_insert].
  replace (i + 2)%nat with (2 + i)%nat by lia. rewrite digs_app. fold q.
  rewrite <- (digs_mod 2 2 q) by lia. change (10 ^ Z.of_nat 2) with 100.
  cbn [digs app]. rewrite (Z.mod_small (q mod 100 / 10) 10); [done|].
  split; [apply Z.div_pos; lia|apply Z.div_lt_upper_bound; lia].
Qed.

Lemma store0_written v i rest a : 0 ≤ v → written v i 1 rest a → v / 10 ^ Z.of_nat i < 10 →
  store0 (48 + v / 10 ^ Z.of_nat i) a = Some (digs (S i) v ++ rest).
Proof.
  intros H0 (pre & Hm & ->) Hlt. destruct pre as [|x [|]]; [done| |done].
  cbn [app store0]. change (S i) with (1 + i)%nat. rewrite digs_app. cbn [digs app].
  rewrite Z.mod_small; [done|]. split; [|done]. apply Z.div_pos; lia.
Qed.

Lemma written_done v i rest a : written v i 0 rest a → a = digs i v ++ rest.
Proof. intros (pre & Hm & ->). by destruct pre. Qed.

Lemma has_digits_div n i m v : has_digits n v → (n = i + m)%nat → (1 ≤ m)%nat →
  has_digits m (v / 10 ^ Z.of_nat i).
Proof.
  intros [Hn Hv] -> Hm. split; [done|].
  assert (0 < 10 ^ Z.of_nat i) by (apply Z.pow_pos_nonneg; lia). split.
  - apply Z.div_le_lower_bound; [done|]. rewrite <- Z.pow_add_r by lia.
    replace (Z.of_nat i + (Z.of_nat m - 1)) with (Z.of_nat (i + m) - 1) by lia. lia.
  - apply Z.div_lt_upper_bound; [done|]. rewrite <- Z.pow_add_r by lia.
    replace (Z.of_nat i + Z.of_nat m) with (Z.of_nat (i + m)) by lia. lia.
Qed.

Lemma has_digits_gt n v k : has_digits n v → 0 ≤ k → 10 ^ k ≤ v → k < Z.of_nat n.
Proof.
  intros [Hn Hv] Hk Hle. destruct (Z.lt_ge_cases k (Z.of_nat n)) as [|Hge]; [done|].
  pose proof (Z.pow_le_mono_r 10 _ _ ltac:(lia) Hge). lia.
Qed.

Lemma has_digits_le n v k : has_digits n v → 0 ≤ k → v < 10 ^ k → Z.of_nat n ≤ k.
Proof.
  intros [Hn Hv] Hk Hlt. destruct (Z.le_gt_cases (Z.of_nat n) k) as [|Hgt]; [done|].
  pose proof (Z.pow_le_mono_r 10 k (Z.of_nat n - 1) ltac:(lia) ltac:(lia)). lia.
Qed.

Lemma has_digits_pos n v : has_digits n v → 0 < v.
Proof. intros [Hn Hv]. assert (0 < 10 ^ (Z.of_nat n - 1)) by (apply Z.pow_pos_nonneg; lia). lia. Qed.

Lemma div_mod_swap a b c : 0 < b → 0 < c → a mod (b * c) / b = a / b mod c.
Proof.
  intros Hb Hc. rewrite Z.rem_mul_r by lia.
  rewrite (Z.mul_comm b (_ mod c)), Z.div_add by lia.
  rewrite Z.div_small by (apply Z.mod_pos_bound; lia). lia.
Qed.

Lemma div_pow10 v i k : v / 10 ^ Z.of_nat i / 10 ^ Z.of_nat k = v / 10 ^ Z.of_nat (i + k).
Proof.
  rewrite Z.div_div by (try apply Z.pow_nonzero; try apply Z.pow_pos_nonneg; lia).
  by rewrite Nat2Z.inj_add, Z.pow_add_r by lia.
Qed.

Lemma u32_rem a b : 0 < b ≤ 2 ^ 32 → u32 (a - b * (a / b)) = a mod b.
Proof.
  intros Hb. rewrite <- Z.mod_eq by lia. pose proof (Z.mod_pos_bound a b). apply u32_small. lia.
Qed.

Lemma four_digits_written v i m rest a : written v i m rest a → (4 ≤ m)%nat →
  ∃ a', four_digits (Z.of_nat (i + m)) (v / 10 ^ Z.of_nat i, Z.of_nat i, a) =
      Some (v / 10 ^ Z.of_nat (i + 4), Z.of_nat (i + 4), a') ∧
    written v (i + 4) (m - 4) rest a'.
Proof.
  intros Hw Hm. unfold four_digits. rewrite u32_rem by lia.
  set (q := v / 10 ^ Z.of_nat i).
  destruct (copy2_written v i m rest a (Z.of_nat (i + m) - Z.of_nat i - 2) (q mod 10000 mod 100))
    as (a1 & -> & Hw1); [done|lia| |lia|].
  { change 10000 with (100 * 100). rewrite Z.rem_mul_r, (Z.mul_comm 100 (_ mod _)) by lia.
    by rewrite Z.mod_add, Z.mod_mod by lia. }
  cbn [mbind option_bind].
  destruct (copy2_written v (i + 2) (m - 2) rest a1 (Z.of_nat (i + m) - Z.of_nat i - 4)
    (q mod 10000 / 100)) as (a2 & -> & Hw2); [done|lia| |lia|].
  { change 10000 with (100 * 100). rewrite div_mod_swap by lia. unfold q.
    change 100 with (10 ^ Z.of_nat 2) at 1. by rewrite div_pow10. }
  cbn [mbind option_bind]. exists a2. split.
  - unfold q. change 10000 with (10 ^ Z.of_nat 4). rewrite div_pow10. repeat f_equal. lia.
  - replace (i + 4)%nat with (i + 2 + 2)%nat by lia.
    by replace (m - 4)%nat with (m - 2 - 2)%nat by lia.
Qed.

Lemma last_digits_written v i m n rest a : written v i m rest a → has_digits n v →
  n = (i + m)%nat → (1 ≤ m)%nat → v / 10 ^ Z.of_nat i < 10000 →
  last_digits (Z.of_nat n) (v / 10 ^ Z.of_nat i, Z.of_nat i, a) = Some (digs n v ++ rest).
Proof.
  intros Hw Hn -> Hm Hlt. pose proof (has_digits_pos _ _ Hn) as Hpos.
  pose proof (has_digits_div _ i m v Hn eq_refl Hm) as Hd.
  pose proof (has_digits_le m _ 4 Hd ltac:(lia) Hlt) as Hm4.
  destruct Hd as [_ Hd]. unfold last_digits. set (q := v / 10 ^ Z.of_nat i) in *.
  assert (Hq2 : q / 100 = v / 10 ^ Z.of_nat (i + 2)).
  { unfold q. change 100 with (10 ^ Z.of_nat 2). by rewrite div_pow10. }
  assert (m = 1 ∨ m = 2 ∨ m = 3 ∨ m = 4)%nat as [-> |[-> |[-> | ->]]] by lia;
    cbn in Hd; destruct (Z.leb_spec 100 q); try lia; cbn [mbind option_bind].
  - destruct (Z.leb_spec 10 q); [lia|]. rewrite Nat.add_1_r. by apply store0_written; [lia|..].
  - destruct (Z.leb_spec 10 q); [|lia].
    destruct (copy2_written v i 2 rest a (Z.of_nat (i + 2) - Z.of_nat i - 2) q)
      as (a1 & -> & Hw1); [done|lia| |lia|].
    { by rewrite Z.mod_small by (fold q; lia). }
    by rewrite (written_done _ _ _ _ Hw1).
  - destruct (copy2_written v i 3 rest a (Z.of_nat (i + 3) - Z.of_nat i - 2) (q mod 100))
      as (a1 & -> & Hw1); [done|lia|done|lia|].
    cbn [mbind option_bind]. assert (q / 100 < 10) by (apply Z.div_lt_upper_bound; lia).
    destruct (Z.leb_spec 10 (q / 100)); [lia|]. rewrite Hq2.
    replace (i + 3)%nat with (S (i + 2)) by lia. apply store0_written; [lia|done|lia].
  - destruct (copy2_written v i 4 rest a (Z.of_nat (i + 4) - Z.of_nat i - 2) (q mod 100))
      as (a1 & -> & Hw1); [done|lia|done|lia|].
    cbn [mbind option_bind]. assert (10 ≤ q / 100) by (apply Z.div_le_lower_bound; lia).
    assert (q / 100 < 100) by (apply Z.div_lt_upper_bound; lia).
    destruct (Z.leb_spec 10 (q / 100)); [|lia]. rewrite Hq2 in *.
    destruct (copy2_written v (i + 2) 2 rest a1 (Z.of_nat (i + 4) - (Z.of_nat i + 2) - 2)
      (v / 10 ^ Z.of_nat (i + 2))) as (a2 & -> & Hw2); [done|lia| |lia|].
    { by rewrite Z.mod_small by lia. }
    rewrite (written_done _ _ _ _ Hw2). by replace (i + 2 + 2)%nat with (i + 4)%nat by lia.
Qed.

Lemma four_digits_loop_written v n rest fuel : ∀ i m a, written v i m rest a → has_digits n v →
  n = (i + m)%nat → (1 ≤ m)%nat → (m ≤ 4 * fuel + 4)%nat →
  ∃ i' m' a', four_digits_loop fuel (Z.of_nat n) (v / 10 ^ Z.of_nat i, Z.of_nat i, a) =
      Some (v / 10 ^ Z.of_nat i', Z.of_nat i', a') ∧ written v i' m' rest a' ∧
    n = (i' + m')%nat ∧ (1 ≤ m')%nat ∧ v / 10 ^ Z.of_nat i' < 10000.
Proof.
  induction fuel as [|fuel IH]; intros i m a Hw Hn -> Hm Hf; cbn [four_digits_loop fst snd];
    pose proof (has_digits_div _ i m v Hn eq_refl Hm) as Hd;
    (destruct (Z.ltb_spec (v / 10 ^ Z.of_nat i) 10000) as [|Hge]; [by exists i, m, a|]);
    pose proof (has_digits_gt m _ 4 Hd ltac:(lia) Hge); [lia|].
  destruct (four_digits_written v i m rest a Hw) as (a' & -> & Hw'); [lia|].
  cbn [mbind option_bind]. eapply IH; [done|done|lia|lia|lia].
Qed.

Lemma eight_digits_written v i m rest a : written v i m rest a → (8 ≤ m)%nat →
  ∃ a', eight_digits (Z.of_nat (i + m)) (v / 10 ^ Z.of_nat i, Z.of_nat i, a) =
      Some (v / 10 ^ Z.of_nat (i + 8), Z.of_nat (i + 8), a') ∧
    written v (i + 8) (m - 8) rest a'.
Proof.
  intros Hw Hm. unfold eight_digits. rewrite u32_rem by lia.
  set (q := v / 10 ^ Z.of_nat i).
  assert (Hlow : q mod 100000000 mod 10000 = q mod 10000).
  { change 100000000 with (10000 * 10000). rewrite Z.rem_mul_r, (Z.mul_comm 10000 (_ mod _)) by lia.
    by rewrite Z.mod_add, Z.mod_mod by lia. }
  assert (Hhigh : q mod 100000000 / 10000 = v / 10 ^ Z.of_nat (i + 4) mod 10000).
  { change 100000000 with (10000 * 10000). rewrite div_mod_swap by lia. unfold q.
    change 10000 with (10 ^ Z.of_nat 4) at 1. by rewrite div_pow10. }
  rewrite Hlow, Hhigh. clear Hlow Hhigh.
  destruct (four_digits_written v i m rest a Hw) as (a1 & H1 & Hw1); [lia|].
  destruct (four_digits_written v (i + 4) (m - 4) rest a1 Hw1) as (a2 & H2 & Hw2); [lia|].
  unfold four_digits in H1, H2. rewrite u32_rem in H1, H2 by lia. fold q in H1.
  destruct (copy2 (Z.of_nat (i + m) - Z.of_nat i - 2) _ a) as [b|]; [|done]. cbn [mbind option_bind] in *.
  destruct (copy2 (Z.of_nat (i + m) - Z.of_nat i - 4) _ b) as [b1|]; [|done]. cbn [mbind option_bind] in *.
  injection H1 as _ _ ->.
  replace (Z.of_nat (i + 4 + (m - 4)) - Z.of_nat (i + 4) - 2)
    with (Z.of_nat (i + m) - Z.of_nat i - 6) in H2 by lia.
  replace (Z.of_nat (i + 4 + (m - 4)) - Z.of_nat (i + 4) - 4)
    with (Z.of_nat (i + m) - Z.of_nat i - 8) in H2 by lia.
  destruct (copy2 (Z.of_nat (i + m) - Z.of_nat i - 6) _ a1) as [b2|]; [|done]. cbn [mbind option_bind] in *.
  destruct (copy2 (Z.of_nat (i + m) - Z.of_nat i - 8) _ b2) as [b3|]; [|done]. cbn [mbind option_bind] in *.
  injection H2 as _ _ ->. exists a2. split.
  - unfold q. change 100000000 with (10 ^ Z.of_nat 8). rewrite div_pow10. repeat f_equal. lia.
  - replace (i + 8)%nat with (i + 4 + 4)%nat by lia.
    by replace (m - 8)%nat with (m - 4 - 4)%nat by lia.
Qed.

Lemma eight_digits_loop_written v n rest fuel : ∀ i m a, written v i m rest a → has_digits n v →
  n = (i + m)%nat → (1 ≤ m)%nat → (m ≤ 8 * fuel + 8)%nat →
  ∃ i' m' a', eight_digits_loop fuel (Z.of_nat n) (v / 10 ^ Z.of_nat i, Z.of_nat i, a) =
      Some (v / 10 ^ Z.of_nat i', Z.of_nat i', a') ∧ written v i' m' rest a' ∧
    n = (i' + m')%nat ∧ (1 ≤ m')%nat ∧ v / 10 ^ Z.of_nat i' < 100000000.
Proof.
  induction fuel as [|fuel IH]; intros i m a Hw Hn -> Hm Hf; cbn [eight_digits_loop fst snd];
    pose proof (has_digits_div _ i m v Hn eq_refl Hm) as Hd;
    (destruct (Z.ltb_spec (v / 10 ^ Z.of_nat i) 100000000) as [|Hge]; [by exists i, m, a|]);
    pose proof (has_digits_gt m _ 8 Hd ltac:(lia) Hge); [lia|].
  destruct (eight_digits_written v i m rest a Hw) as (a' & -> & Hw'); [lia|].
  cbn [mbind option_bind]. eapply IH; [done|done|lia|lia|lia].
Qed.

Lemma dec_text_digs n v : has_digits n v → (n ≤ 20)%nat → dec_text v = digs n v.
Proof.
  intros Hn Hle. pose proof (has_digits_pos _ _ Hn). destruct Hn as [H1 Hv]. unfold dec_text.
  rewrite (digits_loop_digs 20 n); [by rewrite app_nil_r|lia|lia|].
  right. replace (Z.of_nat (n - 1)) with (Z.of_nat n - 1) by lia. lia.
Qed.

Lemma written_start v n a : (n ≤ length a)%nat → written v 0 n (drop n a) a.
Proof.
  intros Hn. exists (take n a). split; [rewrite length_take; lia|]. cbn [digs app].
  by rewrite take_drop.
Qed.

Lemma pg_ultoa_n_zero (a : list Z) : (1 ≤ length a)%nat →
  store0 48 a = Some (dec_text 0 ++ drop 1 a).
Proof. destruct a; [simpl; lia|done]. Qed.

Lemma pg_ultoa_n_spec v a : 0 ≤ v < 2 ^ 32 → (length (dec_text v) ≤ length a)%nat →
  pg_ultoa_n v a = Some (Z.of_nat (length (dec_text v)), dec_text v ++ drop (length (dec_text v)) a).
Proof.
  intros Hv Ha. unfold pg_ultoa_n. destruct (Z.eqb_spec v 0) as [->|Hne].
  { by rewrite pg_ultoa_n_zero. }
  destruct (decimalLength32_spec v) as (nz & -> & Hnz & Hd); [lia|]. cbn [mbind option_bind].
  set (n := Z.to_nat nz). assert (Hn : has_digits n v).
  { split; [lia|]. unfold n. by rewrite Z2Nat.id by lia. }
  replace nz with (Z.of_nat n) by lia. clearbody n. clear nz Hnz Hd.
  pose proof (has_digits_le n v 10 Hn ltac:(lia) ltac:(lia)) as H10.
  rewrite (dec_text_digs n), digs_length in * by (done || lia).
  destruct (four_digits_loop_written v n (drop n a) 2 0 n a) as (i & m & a1 & Hl & Hw & Hnm & Hm & Hlt);
    [by apply written_start|done|done|by destruct Hn|lia|].
  rewrite Z.div_1_r in Hl. change (Z.of_nat 0) with 0 in Hl. rewrite Hl. cbn [mbind option_bind].
  by rewrite (last_digits_written v i m n (drop n a) a1).
Qed.

Lemma pg_ulltoa_n_spec v a : 0 ≤ v < 2 ^ 64 → (length (dec_text v) ≤ length a)%nat →
  pg_ulltoa_n v a = Some (Z.of_nat (length (dec_text v)), dec_text v ++ drop (length (dec_text v)) a).
Proof.
  intros Hv Ha. unfold pg_ulltoa_n. destruct (Z.eqb_spec v 0) as [->|Hne].
  { by rewrite pg_ultoa_n_zero. }
  destruct (decimalLength64_spec v) as (nz & -> & Hnz & Hd); [lia|]. cbn [mbind option_bind].
  set (n := Z.to_nat nz). assert (Hn : has_digits n v).
  { split; [lia|]. unfold n. by rewrite Z2Nat.id by lia. }
  replace nz with (Z.of_nat n) by lia. clearbody n. clear nz Hnz Hd.
  pose proof (has_digits_le n v 20 Hn ltac:(lia) ltac:(lia)) as H20.
  rewrite (dec_text_digs n), digs_length in * by (done || lia).
  destruct (eight_digits_loop_written v n (drop n a) 2 0 n a) as (i & m & a1 & Hl & Hw & Hnm & Hm & Hlt);
    [by apply written_start|done|done|by destruct Hn|lia|].
  rewrite Z.div_1_r in Hl. change (Z.of_nat 0) with 0 in Hl. rewrite Hl. cbn [mbind option_bind].
  pose proof (has_digits_div n i m v Hn Hnm Hm) as Hdm. pose proof (has_digits_pos _ _ Hdm).
  rewrite u32_small by lia. destruct (Z.leb_spec 10000 (v / 10 ^ Z.of_nat i)) as [Hge|].
  - pose proof (has_digits_gt m _ 4 Hdm ltac:(lia) Hge).
    destruct (four_digits_written v i m (drop n a) a1 Hw) as (a2 & H2 & Hw2); [lia|].
    rewrite <- Hnm in H2. rewrite H2. cbn [mbind option_bind].
    rewrite (last_digits_written v (i + 4) (m - 4) n (drop n a) a2); [done|done|done|lia|lia|].
    rewrite <- (div_pow10 v i 4). apply Z.div_lt_upper_bound; [done|].
    change (10 ^ Z.of_nat 4) with 10000. lia.
  - cbn [mbind option_bind]. by rewrite (last_digits_written v i m n (drop n a) a1).
Qed.

Lemma with_sign_spec (neg : bool) ntoa a (ds : list Z) :
  (∀ b, (length ds ≤ length b)%nat → ntoa b = Some (Z.of_nat (length ds), ds ++ drop (length ds) b)) →
  (length ((if neg then [45%Z] else []) ++ ds) < length a)%nat →
  with_sign neg ntoa a = Some (Z.of_nat (length ((if neg then [45] else []) ++ ds)),
    ((if neg then [45] else []) ++ ds) ++ 0 :: drop (S (length ((if neg then [45%Z] else []) ++ ds))) a).
Proof.
  intros Hn Hlen. assert (Hput : ∀ b, (length ds < length b)%nat →
    <[length ds := 0]> (ds ++ drop (length ds) b) = ds ++ 0 :: drop (S (length ds)) b).
  { intros b Hb. destruct (lookup_lt_is_Some_2 b (length ds) Hb) as [x Hx].
    rewrite (drop_S _ _ _ Hx). replace (length ds) with (length ds + 0)%nat at 1 by lia.
    by rewrite insert_app_r. }
  unfold with_sign. destruct neg; cbn [app length] in *.
  - destruct a as [|x a]; [simpl in Hlen; lia|]. cbn [length drop] in *.
    rewrite Hn by lia. cbn [mbind option_bind].
    destruct (Z.ltb_spec (1 + Z.of_nat (length ds)) (Z.of_nat (S (length a)))); [|lia].
    replace (1 + Z.of_nat (length ds)) with (Z.of_nat (S (length ds))) by lia.
    rewrite Nat2Z.id. cbn [insert list_insert]. by rewrite Hput by lia.
  - rewrite Hn by lia. cbn [mbind option_bind].
    destruct (Z.ltb_spec (Z.of_nat (length ds)) (Z.of_nat (length (ds ++ drop (length ds) a))));
      [|rewrite length_app, length_drop in *; lia].
    rewrite Nat2Z.id. by rewrite Hput.
Qed.

Lemma int_text_sign v : int_text v = (if v <? 0 then [45] else []) ++ dec_text (Z.abs v).
Proof.
  unfold int_text. destruct (Z.ltb_spec v 0); cbn [app].
  - by rewrite Z.abs_neq by lia.
  - by rewrite Z.abs_eq by lia.
Qed.

Lemma pg_lltoa_spec v a : in_s 64 v → (length (int_text v) < length a)%nat →
  pg_lltoa v a = Some (Z.of_nat (length (int_text v)),
    int_text v ++ 0 :: drop (S (length (int_text v))) a).
Proof.
  unfold in_s. change (2 ^ (64 - 1)) with (2 ^ 63). intros Hv.
  rewrite !int_text_sign. intros Hlen. unfold pg_lltoa. apply with_sign_spec; [|done].
  intros b Hb. replace (if v <? 0 then u64 (0 - u64 v) else u64 v) with (Z.abs v).
  { apply pg_ulltoa_n_spec; [lia|done]. }
  destruct (Z.ltb_spec v 0).
  - unfold u64, wrap_u. rewrite Zminus_mod_idemp_r, Z.mod_small by lia. lia.
  - rewrite u64_small; lia.
Qed.

Lemma pg_ltoa_spec v a : in_s 32 v → (length (int_text v) < length a)%nat →
  pg_ltoa v a = Some (Z.of_nat (length (int_text v)),
    int_text v ++ 0 :: drop (S (length (int_text v))) a).
Proof.
  unfold in_s. change (2 ^ (32 - 1)) with (2 ^ 31). intros Hv.
  rewrite !int_text_sign. intros Hlen. unfold pg_ltoa. apply with_sign_spec; [|done].
  intros b Hb. replace (if v <? 0 then u32 (0 - u32 v) else u32 v) with (Z.abs v).
  { apply pg_ultoa_n_spec; [lia|done]. }
  destruct (Z.ltb_spec v 0).
  - unfold u32, wrap_u. rewrite Zminus_mod_idemp_r, Z.mod_small by lia. lia.
  - rewrite u32_small; lia.
Qed.

Lemma dec_text_length v k : 0 ≤ v < 10 ^ k → 1 ≤ k ≤ 19 → Z.of_nat (length (dec_text v)) ≤ k.
Proof.
  intros Hv Hk. destruct (Z.eq_dec v 0) as [->|Hne].
  { change (Z.of_nat (length (dec_text 0))) with 1. lia. }
  pose proof (Z.pow_le_mono_r 10 k 19 ltac:(lia) ltac:(lia)).
  destruct (decimalLength64_spec v) as (nz & _ & Hnz & Hd); [lia|].
  assert (Hn : has_digits (Z.to_nat nz) v).
  { split; [lia|]. by rewrite Z2Nat.id by lia. }
  pose proof (has_digits_le _ _ k Hn ltac:(lia) ltac:(lia)).
  rewrite (dec_text_digs (Z.to_nat nz)) by (done || lia). rewrite digs_length. lia.
Qed.

Lemma in_s_width t v : in_s (width t) v → match t with
    | smallint => -32768 ≤ v < 32768
    | integer => -2147483648 ≤ v < 2147483648
    | bigint => -9223372036854775808 ≤ v < 9223372036854775808
    end.
Proof. by destruct t. Qed.

Lemma int_text_length t v : in_s (width t) v →
  Z.of_nat (length (int_text v)) ≤ match t with smallint => 6 | integer => 11 | bigint => 20 end.
Proof.
  intros Hv. rewrite int_text_sign, length_app.
  assert (length (if (v <? 0)%Z then [45%Z] else []) ≤ 1)%nat by (destruct (v <? 0); simpl; lia).
  apply in_s_width in Hv. destruct t; [pose proof (dec_text_length (Z.abs v) 5)
    |pose proof (dec_text_length (Z.abs v) 10)|pose proof (dec_text_length (Z.abs v) 19)]; lia.
Qed.

Lemma int_text_chars v : - 2 ^ 63 ≤ v < 2 ^ 63 → Forall (λ c, negb (c =? 0) = true) (int_text v).
Proof.
  intros Hv. rewrite int_text_sign. destruct (dec_text_spec (Z.abs v)) as (_ & Hds & _); [lia|].
  apply Forall_app. split; [destruct (v <? 0); by repeat constructor|].
  eapply list.Forall_impl; [exact Hds|]. intros c. cbn beta. unfold is_digit.
  rewrite andb_true_iff, !Z.leb_le, negb_true_iff, Z.eqb_neq. lia.
Qed.

Lemma c_string_app s a : Forall (λ c, negb (c =? 0) = true) s → c_string (s ++ 0 :: a) = s.
Proof. intros Hs. unfold c_string. rewrite span_app; [done|done|]. by intros c [= <-]. Qed.

Lemma int_out_spec t v mem : in_s (width t) v → (21 ≤ length mem)%nat →
  int_out t v mem = Some (int_text v).
Proof.
  intros Hv Hmem. pose proof (int_text_length t v Hv) as Hlen.
  assert (H64 : - 2 ^ 63 ≤ v < 2 ^ 63) by (apply in_s_width in Hv; destruct t; lia).
  pose proof (int_text_chars v H64) as Hc.
  destruct t; cbn [int_out]; unfold int2out, int4out, int8out, pg_itoa.
  - rewrite pg_ltoa_spec; [|apply in_s_width in Hv; split; lia|rewrite length_take; lia].
    cbn [mbind option_bind]. by rewrite c_string_app.
  - rewrite pg_ltoa_spec; [|done|rewrite length_take; lia].
    cbn [mbind option_bind]. by rewrite c_string_app.
  - change (Z.to_nat (MAXINT8LEN + 1)) with 21%nat.
    rewrite pg_lltoa_spec; [|done|rewrite length_take; lia].
    cbn [mbind option_bind]. set (s := int_text v) in *. clearbody s.
    destruct (Z.leb_spec (Z.of_nat (length s) + 1)
      (Z.of_nat (length (s ++ 0 :: drop (S (length s)) (take 21 mem)))));
      [|rewrite length_app in *; cbn [length] in *; lia].
    replace (Z.to_nat (Z.of_nat (length s) + 1)) with (length s + 1)%nat by lia.
    rewrite take_app_add. cbn [take]. by rewrite c_string_app.
Qed.

(** ** The parser against the notation *)

Lemma half_range t : 2 ^ 15 ≤ 2 ^ (width t - 1) ∧ 2 ^ width t = 2 * 2 ^ (width t - 1).
Proof. by destruct t. Qed.

Lemma grouped_app_digits (isdig : Z → bool) ds : Forall (λ c, isdig c = true) ds → grouped isdig ds ds.
Proof. induction 1; by constructor. Qed.

Lemma grouped_digits isdig s ds : grouped isdig s ds → Forall (λ c, isdig c = true) ds.
Proof. by induction 1; constructor. Qed.

Section base.
  Context (t : int_type) (base : Z) (isdig : Z → bool) (val : Z → Z) (lead : bool).
  Hypothesis base_range : 2 ≤ base ≤ 16.
  Hypothesis isdig_val : ∀ c, isdig c = true → 0 ≤ val c < base.
  Hypothesis isdig_underscore : isdig 95 = false.

  Local Abbreviation loop := (slow_loop t base isdig val lead).
  Local Abbreviation value := (positional base val).

Lemma max_before_range :
  0 ≤ max_before t base ∧ max_before t base * base ≤ 2 ^ (width t - 1) < (max_before t base + 1) * base.
Proof.
  destruct (half_range t) as [H _]. unfold max_before.
  rewrite Z.quot_opp_l, Z.opp_involutive by lia.
  rewrite Z.quot_div_nonneg by lia.
  pose proof (Z.div_mod (2 ^ (width t - 1)) base). pose proof (Z.mod_pos_bound (2 ^ (width t - 1)) base).
  pose proof (Z.div_pos (2 ^ (width t - 1)) base). lia.
Qed.

Lemma step_small tmp c : isdig c = true → 0 ≤ tmp ≤ max_before t base →
  wrap_u (width t) (tmp * base + val c) = tmp * base + val c.
Proof.
  intros Hc Htmp. specialize (isdig_val c Hc). destruct (half_range t), max_before_range.
  unfold wrap_u. apply Z.mod_small. nia.
Qed.

Lemma value_ge ds tmp : Forall (λ c, isdig c = true) ds → 0 ≤ tmp → tmp ≤ value tmp ds.
Proof.
  intros Hds. revert tmp. induction Hds as [|c ds Hc Hds IH]; intros tmp Htmp; [done|].
  specialize (isdig_val c Hc). unfold positional in *. cbn [foldl].
  specialize (IH (tmp * base + val c)). nia.
Qed.

Lemma value_overflow c ds tmp : isdig c = true → Forall (λ c, isdig c = true) ds →
  max_before t base < tmp → 2 ^ (width t - 1) < value tmp (c :: ds).
Proof.
  intros Hc Hds Htmp. pose proof max_before_range. pose proof (isdig_val c Hc).
  pose proof (value_ge ds (tmp * base + val c) Hds). unfold positional in *. cbn [foldl]. nia.
Qed.

(** A digit string is read to its end, or the value is too large. *)
Lemma slow_loop_complete s ds rest : grouped isdig s ds →
  (∀ c, head rest = Some c → isdig c = false ∧ c ≠ 95) → ∀ moved tmp, 0 ≤ tmp →
  lead = true ∨ moved = true ∨ head s ≠ Some 95 →
  loop moved tmp (s ++ rest) = inr (value tmp ds, match ds with [] => moved | _ => true end, rest) ∨
  (loop moved tmp (s ++ rest) = inl out_of_range ∧ 2 ^ (width t - 1) < value tmp ds).
Proof.
  intros Hs Hrest. induction Hs as [|c s ds Hc Hs IH|c s ds Hc Hs IH]; intros moved tmp Htmp Hlead.
  - left. destruct rest as [|c rest]; [done|]. destruct (Hrest c eq_refl) as [Hd Hu]. simpl.
    rewrite Hd. by destruct (Z.eqb_spec c 95).
  - cbn [app slow_loop]. rewrite Hc. destruct (Z.ltb_spec (max_before t base) tmp).
    { right. split; [done|]. apply value_overflow; [done|by eapply grouped_digits|done]. }
    rewrite step_small by (done || lia). pose proof (isdig_val c Hc).
    destruct (IH true (tmp * base + val c)) as [->|[-> Hv]]; [nia|by right; left| |by right].
    left. by destruct ds.
  - cbn [app slow_loop]. rewrite isdig_underscore. cbn [Z.eqb Pos.eqb].
    replace (negb lead && negb moved) with false.
    2: { destruct Hlead as [->|[->|Hl]]; [done|by destruct lead|done]. }
    rewrite Hc. destruct (Z.ltb_spec (max_before t base) tmp).
    { right. split; [done|]. apply value_overflow; [done|by eapply grouped_digits|done]. }
    rewrite step_small by (done || lia). pose proof (isdig_val c Hc).
    destruct (IH true (tmp * base + val c)) as [->|[-> Hv]]; [nia|by right; left| |by right].
    left. by destruct ds.
Qed.

Lemma slow_loop_sound ptr : ∀ moved tmp tmp' moved' rest, 0 ≤ tmp →
  loop moved tmp ptr = inr (tmp', moved', rest) →
  ∃ s ds, ptr = s ++ rest ∧ grouped isdig s ds ∧ tmp' = value tmp ds ∧
    moved' = match ds with [] => moved | _ => true end ∧
    (lead = true ∨ moved = true ∨ head s ≠ Some 95) ∧
    (∀ c, head rest = Some c → isdig c = false ∧ c ≠ 95).
Proof.
  induction ptr as [|c ptr IH]; intros moved tmp tmp' moved' rest Htmp H; cbn [slow_loop] in H.
  { injection H as <- <- <-. exists [], []. split_and!; try done; [constructor|by right; right]. }
  destruct (isdig c) eqn:Hc; [|destruct (Z.eqb_spec c 95) as [->|Hu]].
  - destruct (Z.ltb_spec (max_before t base) tmp); [done|].
    rewrite step_small in H by (done || lia). pose proof (isdig_val c Hc).
    destruct (IH _ (tmp * base + val c) _ _ _ ltac:(nia) H) as (s & ds & -> & Hs & -> & -> & _ & Hr).
    exists (c :: s), (c :: ds). split_and!; try done; [by constructor|by destruct ds|].
    right; right. cbn [head]. congruence.
  - destruct (negb lead && negb moved) eqn:Hl; [done|].
    destruct ptr as [|d ptr]; [done|]. destruct (isdig d) eqn:Hd; [|done].
    destruct (IH _ _ _ _ _ Htmp H) as (s & ds & Heq & Hs & -> & -> & _ & Hr).
    destruct s as [|d' s].
    { simpl in Heq. subst rest. destruct (Hr d eq_refl). congruence. }
    simplify_eq/=. inversion Hs as [|? ? ds' Hd' Hs' E1 E2|? ? ? Hc' Hs' E1 E2]; subst; [|congruence].
    exists (95 :: d' :: s), (d' :: ds'). split_and!; try done; [by constructor|].
    apply andb_false_iff in Hl. rewrite !negb_false_iff in Hl. tauto.
  - injection H as <- <- <-. exists [], []. split_and!; try done; [constructor|by right; right|].
    by intros c' [= <-].
Qed.
End base.

Lemma is_space_cases c : scanner_isspace c = true → c ∈ [32; 9; 10; 13; 11; 12].
Proof.
  unfold scanner_isspace. rewrite !orb_true_iff, !Z.eqb_eq. rewrite !elem_of_cons. tauto.
Qed.

Lemma space_ends (isdig : Z → bool) rest :
  forallb (λ c, negb (isdig c)) [32; 9; 10; 13; 11; 12] = true →
  (∀ c, head rest = Some c → scanner_isspace c = true) →
  ∀ c, head rest = Some c → isdig c = false ∧ c ≠ 95.
Proof.
  intros Hall Hrest c Hc. specialize (Hrest c Hc). apply is_space_cases in Hrest.
  rewrite forallb_forall in Hall. specialize (Hall c). rewrite <- list_elem_of_In in Hall.
  split; [by apply negb_true_iff, Hall|]. intros ->.
  repeat (apply elem_of_cons in Hrest as [?|Hrest]; [done|]). by apply elem_of_nil in Hrest.
Qed.

Lemma decval_range lo hi c : (48 <=? c) && (c <=? hi) = true → hi = 47 + lo → 0 ≤ decval c < lo.
Proof. unfold decval. rewrite andb_true_iff, !Z.leb_le. lia. Qed.

Lemma hexval_range c : isxdigit c = true → 0 ≤ hexval c < 16.
Proof.
  intros Hc. assert (Hr : 0 ≤ c < 128).
  { unfold isxdigit, is_digit in Hc.
    rewrite !orb_true_iff, !andb_true_iff, !Z.leb_le in Hc. lia. }
  assert (Hall : forallb (λ c, negb (isxdigit c) || ((0 <=? hexval c) && (hexval c <? 16)))
    (seqZ 0 128) = true) by (by vm_compute).
  rewrite forallb_forall in Hall. specialize (Hall c).
  rewrite <- list_elem_of_In, elem_of_seqZ in Hall. specialize (Hall ltac:(lia)).
  rewrite Hc in Hall. cbn [negb orb] in Hall. rewrite andb_true_iff, Z.leb_le, Z.ltb_lt in Hall. lia.
Qed.

Lemma process_digits_complete t s m rest : numeral s m →
  (∀ c, head rest = Some c → scanner_isspace c = true) →
  process_digits t (s ++ rest) = inr (m, true, rest) ∨
  (process_digits t (s ++ rest) = inl out_of_range ∧ 2 ^ (width t - 1) < m).
Proof.
  intros Hs Hrest. destruct Hs as [c s ds Hc Hs|x s ds Hx Hs Hne|x s ds Hx Hs Hne|x s ds Hx Hs Hne].
  - assert (Heq : process_digits t ((c :: s) ++ rest) =
      slow_loop t 10 is_digit decval false false 0 ((c :: s) ++ rest)).
    { unfold process_digits. cbn [app]. destruct (s ++ rest) as [|x p] eqn:E; [done|].
      assert (Hx : is_digit x = true ∨ x = 95 ∨ scanner_isspace x = true).
      { inversion Hs; subst; simplify_eq/=; [right; right; by apply Hrest|by left|by right; left]. }
      assert (x ∉ [120; 88; 111; 79; 98; 66]) as Hn.
      { intros Hin. rewrite list_elem_of_In in Hin. cbn in Hin.
        destruct Hx as [Hx|[->|Hx]]; destruct_or! Hin; subst; done || discriminate. }
      rewrite !not_elem_of_cons in Hn. destruct Hn as (? & ? & ? & ? & ? & ? & _).
      rewrite !(λ k, proj2 (Z.eqb_neq x k)) by done. cbn [orb]. by rewrite !andb_false_r. }
    rewrite Heq.
    destruct (slow_loop_complete t 10 is_digit decval false ltac:(lia)
      (λ c H, decval_range 10 57 c H eq_refl) eq_refl (c :: s) (c :: ds) rest
      ltac:(by constructor) (space_ends is_digit rest eq_refl Hrest) false 0 ltac:(lia)) as [->|[-> Hv]];
      [|by left|by right]. right; right. cbn. intros [= ->]. done.
  - assert (Heq : process_digits t ((48 :: x :: s) ++ rest) =
      slow_loop t 16 isxdigit hexval true false 0 (s ++ rest)) by (by destruct Hx as [-> | ->]).
    rewrite Heq. destruct (slow_loop_complete t 16 isxdigit hexval true ltac:(lia)
      hexval_range eq_refl s ds rest Hs (space_ends isxdigit rest eq_refl Hrest) false 0 ltac:(lia))
      as [->|[-> Hv]]; [by left|left; by destruct ds|by right].
  - assert (Heq : process_digits t ((48 :: x :: s) ++ rest) =
      slow_loop t 8 isoctal decval true false 0 (s ++ rest)) by (by destruct Hx as [-> | ->]).
    rewrite Heq. destruct (slow_loop_complete t 8 isoctal decval true ltac:(lia)
      (λ c H, decval_range 8 55 c H eq_refl) eq_refl s ds rest Hs
      (space_ends isoctal rest eq_refl Hrest) false 0 ltac:(lia))
      as [->|[-> Hv]]; [by left|left; by destruct ds|by right].
  - assert (Heq : process_digits t ((48 :: x :: s) ++ rest) =
      slow_loop t 2 isbinary decval true false 0 (s ++ rest)) by (by destruct Hx as [-> | ->]).
    rewrite Heq. destruct (slow_loop_complete t 2 isbinary decval true ltac:(lia)
      (λ c H, decval_range 2 49 c H eq_refl) eq_refl s ds rest Hs
      (space_ends isbinary rest eq_refl Hrest) false 0 ltac:(lia))
      as [->|[-> Hv]]; [by left|left; by destruct ds|by right].
Qed.

(** The decimal branch on its own, for any string. *)
Lemma decimal_sound t ptr tmp rest :
  slow_loop t 10 is_digit decval false false 0 ptr = inr (tmp, true, rest) →
  ∃ s, ptr = s ++ rest ∧ numeral s tmp.
Proof.
  intros H. destruct (slow_loop_sound t 10 is_digit decval false ltac:(lia)
    (λ c H, decval_range 10 57 c H eq_refl) eq_refl ptr false 0 _ _ _ ltac:(lia) H)
    as (s & ds & -> & Hs & -> & Hm & Hl & _).
  exists s. split; [done|]. destruct Hs; [done|by constructor|].
  destruct Hl as [?|[?|Hl]]; [done|done|by destruct Hl].
Qed.

Lemma prefixed_sound t base isdig val ptr tmp rest :
  2 ≤ base ≤ 16 → (∀ c, isdig c = true → 0 ≤ val c < base) → isdig 95 = false →
  slow_loop t base isdig val true false 0 ptr = inr (tmp, true, rest) →
  ∃ s ds, ptr = s ++ rest ∧ grouped isdig s ds ∧ ds ≠ [] ∧ tmp = positional base val 0 ds.
Proof.
  intros Hb Hv Hu H.
  destruct (slow_loop_sound t base isdig val true Hb Hv Hu ptr false 0 _ _ _ ltac:(lia) H)
    as (s & ds & -> & Hs & -> & Hm & _ & _).
  exists s, ds. split_and!; try done. by destruct ds.
Qed.

Lemma process_digits_sound t ptr tmp rest : process_digits t ptr = inr (tmp, true, rest) →
  ∃ s, ptr = s ++ rest ∧ numeral s tmp.
Proof.
  unfold process_digits. destruct ptr as [|z [|x p]]; [apply decimal_sound..|].
  destruct (Z.eqb_spec z 48) as [->|_]; cbn [andb]; [|apply decimal_sound].
  destruct ((x =? 120) || (x =? 88)) eqn:Hx; [|destruct ((x =? 111) || (x =? 79)) eqn:Ho;
    [|destruct ((x =? 98) || (x =? 66)) eqn:Hb; [|apply decimal_sound]]]; intros H.
  - apply prefixed_sound in H as (s & ds & -> & Hs & Hne & ->); [|lia|exact hexval_range|done].
    exists (48 :: x :: s). split; [done|]. apply numeral_hex; [lia|done..].
  - apply prefixed_sound in H as (s & ds & -> & Hs & Hne & ->);
      [|lia|exact (λ c H, decval_range 8 55 c H eq_refl)|done].
    exists (48 :: x :: s). split; [done|]. apply numeral_oct; [lia|done..].
  - apply prefixed_sound in H as (s & ds & -> & Hs & Hne & ->);
      [|lia|exact (λ c H, decval_range 2 49 c H eq_refl)|done].
    exists (48 :: x :: s). split; [done|]. apply numeral_bin; [lia|done..].
Qed.

Lemma skip_space_split s : ∃ lead, s = lead ++ skip_space s ∧
  Forall (λ c, scanner_isspace c = true) lead.
Proof.
  induction s as [|c s (lead & IH & Hl)]; [by exists []|]. cbn [skip_space].
  destruct (scanner_isspace c) eqn:Hc; [|by exists []].
  exists (c :: lead). split; [simpl; by f_equal|by constructor].
Qed.

Lemma skip_space_app lead s : Forall (λ c, scanner_isspace c = true) lead →
  (∀ c, head s = Some c → scanner_isspace c = false) → skip_space (lead ++ s) = s.
Proof.
  induction 1 as [|c lead Hc _ IH]; intros Hs; cbn [app skip_space].
  - destruct s as [|c s]; [done|]. cbn [skip_space]. by rewrite (Hs c).
  - by rewrite Hc, IH.
Qed.

Lemma digit_not_space c : is_digit c = true → scanner_isspace c = false ∧ c ≠ 45 ∧ c ≠ 43.
Proof.
  intros Hc. split.
  - destruct (scanner_isspace c) eqn:Hs; [|done]. apply is_space_cases in Hs.
    rewrite list_elem_of_In in Hs. cbn in Hs. destruct_or! Hs; by subst.
  - split; by intros ->.
Qed.

Lemma numeral_head s m : numeral s m → ∃ c p, s = c :: p ∧ is_digit c = true.
Proof. destruct 1; eauto. Qed.

Lemma numeral_nonneg s m : numeral s m → 0 ≤ m.
Proof.
  destruct 1 as [c s ds Hc Hs|x s ds Hx Hs|x s ds Hx Hs|x s ds Hx Hs].
  - apply (value_ge 10 is_digit decval ltac:(lia) (λ c H, decval_range 10 57 c H eq_refl)); [|done].
    constructor; [done|by eapply grouped_digits].
  - apply (value_ge 16 isxdigit hexval ltac:(lia) hexval_range); [by eapply grouped_digits|done].
  - apply (value_ge 8 isoctal decval ltac:(lia) (λ c H, decval_range 8 55 c H eq_refl));
      [by eapply grouped_digits|done].
  - apply (value_ge 2 isbinary decval ltac:(lia) (λ c H, decval_range 2 49 c H eq_refl));
      [by eapply grouped_digits|done].
Qed.

(** What the fast path leaves in [neg] agrees with the sign the slow path finds. *)
Lemma slow_sign_sound s neg ptr : slow_sign (fast_sign s).1 (skip_space s) = (neg, ptr) →
  ∃ lead sign, s = lead ++ sign ++ ptr ∧ Forall (λ c, scanner_isspace c = true) lead ∧
    sign ∈ [[]; [43]; [45]] ∧ neg = bool_decide (sign = [45]).
Proof.
  destruct (skip_space_split s) as (lead & Hs & Hl). intros H.
  assert (Hneg : (fast_sign s).1 = true → head (skip_space s) = Some 45).
  { destruct s as [|c s']; [done|]. cbn [fast_sign]. destruct (Z.eqb_spec c 45) as [->|]; done. }
  destruct (fast_sign s).1.
  - specialize (Hneg eq_refl). destruct (skip_space s) as [|c p]; [done|].
    injection Hneg as ->. cbn in H. injection H as <- <-. exists lead, [45].
    split_and!; [done|done|by apply list_elem_of_In; cbn; tauto|done].
  - destruct (skip_space s) as [|c p]; cbn [slow_sign] in H.
    { injection H as <- <-. exists lead, []. split_and!; [done|done|by apply list_elem_of_In; cbn; tauto|done]. }
    destruct (Z.eqb_spec c 45) as [->|]; [|destruct (Z.eqb_spec c 43) as [->|]];
      injection H as <- <-;
      [exists lead, [45]|exists lead, [43]|exists lead, []]; (split_and!; [done|done|by apply list_elem_of_In; cbn; tauto|done]).
Qed.

Lemma slow_sign_complete lead sign c p : Forall (λ c, scanner_isspace c = true) lead →
  sign ∈ [[]; [43]; [45]] → is_digit c = true →
  let s := lead ++ sign ++ c :: p in
  slow_sign (fast_sign s).1 (skip_space s) = (bool_decide (sign = [45]), c :: p).
Proof.
  intros Hl Hsign Hc s. destruct (digit_not_space c Hc) as (Hsp & Hm & Hp). unfold s.
  rewrite skip_space_app; [|done|].
  2: { intros d Hd. rewrite list_elem_of_In in Hsign. cbn in Hsign.
       destruct_or! Hsign; subst sign; cbn in Hd; by simplify_eq. }
  destruct lead as [|d lead].
  - rewrite list_elem_of_In in Hsign. cbn in Hsign. destruct_or! Hsign; subst sign; try done.
    cbn [app fast_sign slow_sign]. rewrite (proj2 (Z.eqb_neq c 45)) by done. cbn [fst].
    by rewrite (proj2 (Z.eqb_neq c 43)) by done.
  - inv Hl as [|? ? Hd Hl']. assert (d ≠ 45) by (by intros ->).
    cbn [app fast_sign]. rewrite (proj2 (Z.eqb_neq d 45)) by done. cbn [fst].
    rewrite list_elem_of_In in Hsign. cbn in Hsign. destruct_or! Hsign; subst sign; try done.
    cbn [app slow_sign]. rewrite (proj2 (Z.eqb_neq c 45)) by done.
    by rewrite (proj2 (Z.eqb_neq c 43)) by done.
Qed.

Lemma strtoint_finish t (neg : bool) m : 0 ≤ m → let v := if neg then - m else m in
  (in_s (width t) v → finish t neg m = inr v) ∧
  (¬ in_s (width t) v → finish t neg m = inl out_of_range).
Proof.
  intros Hm v. unfold in_s, finish, pg_neg_overflow. unfold v. clear v.
  destruct (half_range t) as [Hh _]. destruct neg.
  - destruct (Z.ltb_spec (- m) (- 2 ^ (width t - 1))); split; intros; lia || done.
  - destruct (Z.ltb_spec (2 ^ (width t - 1) - 1) m); split; intros; lia || done.
Qed.

Lemma fast_digit c : 0 ≤ c < 256 →
  (is_digit c = true ∧ wrap_u 8 (c - 48) = decval c ∧ 0 ≤ decval c < 10) ∨
  (is_digit c = false ∧ 10 ≤ wrap_u 8 (c - 48)).
Proof.
  intros Hc. unfold wrap_u, decval, is_digit. change (2 ^ 8) with 256.
  destruct (Z.leb_spec 48 c), (Z.leb_spec c 57); cbn [andb].
  - left. rewrite Z.mod_small by lia. lia.
  - right. rewrite Z.mod_small by lia. lia.
  - right. split; [done|]. rewrite <- (Z.mod_add _ 1 256), Z.mod_small by lia. lia.
  - lia.
Qed.

Lemma fast_loop_slow t ptr : Forall (λ c, 0 ≤ c < 256) ptr → ∀ tmp,
  match fast_loop t tmp ptr with
  | inl e => slow_loop t 10 is_digit decval false true tmp ptr = inl e
  | inr (tmp', []) => slow_loop t 10 is_digit decval false true tmp ptr = inr (tmp', true, [])
  | inr _ => True
  end ∧ (∀ c, head ptr = Some c → is_digit c = false → fast_loop t tmp ptr = inr (tmp, ptr)).
Proof.
  induction 1 as [|c ptr Hc _ IH]; intros tmp; [done|]. cbn [fast_loop slow_loop].
  destruct (fast_digit c Hc) as [(Hd & -> & Hr)|(Hd & Hr)].
  - rewrite Hd. destruct (Z.leb_spec 10 (decval c)); [lia|]. split.
    + destruct (Z.ltb_spec (max_before t 10) tmp); [done|]. apply IH.
    + intros c' [= <-]. congruence.
  - destruct (Z.leb_spec 10 (wrap_u 8 (c - 48))); [|lia]. done.
Qed.

Lemma process_digits_decimal t c ptr : is_digit c = true →
  (∀ d, head ptr = Some d → is_digit d = true) →
  process_digits t (c :: ptr) = slow_loop t 10 is_digit decval false true (decval c) ptr.
Proof.
  intros Hc Hptr. transitivity (slow_loop t 10 is_digit decval false false 0 (c :: ptr)).
  - unfold process_digits. destruct ptr as [|x p]; [done|]. specialize (Hptr x eq_refl).
    unfold is_digit in Hptr. rewrite andb_true_iff, !Z.leb_le in Hptr.
    rewrite !(λ k, proj2 (Z.eqb_neq x k)) by lia. cbn [orb]. by rewrite !andb_false_r.
  - cbn [slow_loop]. rewrite Hc. pose proof (max_before_range t 10 ltac:(lia)).
    destruct (Z.ltb_spec (max_before t 10) 0); [lia|].
    rewrite (step_small t 10 is_digit decval); [done|lia| |done|lia].
    exact (λ c H, decval_range 10 57 c H eq_refl).
Qed.

(** The fast path gives the answer of the slow one whenever it gives one. *)
Lemma strtoint_fast_slow t s neg r : Forall (λ c, 0 ≤ c < 256) s →
  strtoint_fast t s = (neg, Some r) → strtoint_slow t neg s = r.
Proof.
  intros Hs. unfold strtoint_fast. destruct (fast_sign s) as [neg' ptr] eqn:Hf.
  destruct ptr as [|c ptr]; [by intros [= -> ?]|].
  assert (Hb : Forall (λ c, 0 ≤ c < 256) (c :: ptr)).
  { destruct s as [|d s]; [done|]. cbn in Hf. destruct (d =? 45); simplify_eq; [by inv Hs|done]. }
  inv Hb as [|? ? Hc Hptr]. destruct (fast_digit c Hc) as [(Hd & -> & Hr)|(Hd & Hr)].
  2: { destruct (Z.ltb_spec (wrap_u 8 (c - 48)) 10); [lia|]. by intros [= -> ?]. }
  destruct (Z.ltb_spec (decval c) 10); [|lia]. intros [= -> Heq].
  assert (Hsign : slow_sign neg (skip_space s) = (neg, c :: ptr)).
  { destruct (digit_not_space c Hd) as (Hsp & H45 & H43).
    destruct s as [|d s]; [done|]. cbn [fast_sign] in Hf.
    destruct (Z.eqb_spec d 45) as [->|]; simplify_eq; cbn [skip_space]; [done|].
    rewrite Hsp. cbn [slow_sign]. rewrite (proj2 (Z.eqb_neq c 45)) by done.
    by rewrite (proj2 (Z.eqb_neq c 43)) by done. }
  unfold strtoint_slow. rewrite Hsign.
  destruct (fast_loop_slow t ptr Hptr (decval c)) as [Hl Hend].
  rewrite process_digits_decimal; [|done|].
  - destruct (fast_loop t (decval c) ptr) as [e|[tmp' [|x p]]];
      [|cbn in Heq|done]; injection Heq as <-; by rewrite Hl.
  - intros x Hx. destruct (is_digit x) eqn:Hxd; [done|]. specialize (Hend x Hx Hxd).
    rewrite Hend in Heq. by destruct ptr.
Qed.

Lemma strtoint_is_slow t s : Forall (λ c, 0 ≤ c < 256) s →
  strtoint t s = strtoint_slow t (fast_sign s).1 s.
Proof.
  intros Hs. unfold strtoint. destruct (strtoint_fast t s) as [neg [r|]] eqn:Hf.
  - assert (neg = (fast_sign s).1) as <-
      by (unfold strtoint_fast in Hf; by destruct (fast_sign s); injection Hf).
    symmetry. by apply strtoint_fast_slow.
  - by replace (fast_sign s).1 with neg
      by (unfold strtoint_fast in Hf; by destruct (fast_sign s); injection Hf).
Qed.

Lemma slow_complete t s v : denotes s v →
  (in_s (width t) v → strtoint_slow t (fast_sign s).1 s = inr v) ∧
  (¬ in_s (width t) v → strtoint_slow t (fast_sign s).1 s = inl out_of_range).
Proof.
  intros [lead sign p trail m Hlead Hsign Hp Htrail].
  pose proof (numeral_nonneg p m Hp) as Hm. destruct (numeral_head p m Hp) as (c & p' & Hp' & Hc).
  unfold strtoint_slow. rewrite Hp' at 1 2 3 4. cbn [app].
  rewrite slow_sign_complete by done. rewrite app_comm_cons, <- Hp'.
  assert (Hend : ∀ c, head trail = Some c → scanner_isspace c = true).
  { intros d Hd. destruct Htrail; [done|]. by injection Hd as <-. }
  assert (Hskip : skip_space trail = []) by (rewrite <- (app_nil_r trail); by rewrite skip_space_app).
  destruct (process_digits_complete t p m trail Hp Hend) as [->|[-> Hbig]].
  - cbn [negb]. rewrite Hskip. rewrite bool_decide_decide.
    destruct (strtoint_finish t (if decide (sign = [45]) then true else false) m Hm) as [H1 H2].
    destruct (decide (sign = [45])); done.
  - split; [|done]. intros Hin. exfalso. unfold in_s in Hin. destruct (decide (sign = [45])); lia.
Qed.

Lemma slow_sound t s v : strtoint_slow t (fast_sign s).1 s = inr v →
  denotes s v ∧ in_s (width t) v.
Proof.
  unfold strtoint_slow. destruct (slow_sign _ _) as [neg ptr] eqn:Hsign.
  apply slow_sign_sound in Hsign as (lead & sign & -> & Hlead & Hin & ->).
  destruct (process_digits t ptr) as [|[[tmp moved] rest]] eqn:Hp; [done|].
  destruct moved; cbn [negb]; [|done]. destruct (skip_space rest) as [|] eqn:Hr; [|done].
  apply process_digits_sound in Hp as (p & -> & Hnum). intros Hfin.
  destruct (skip_space_split rest) as (trail & Ht & Hsp). rewrite Hr, app_nil_r in Ht. subst trail.
  pose proof (numeral_nonneg p tmp Hnum) as Hm.
  destruct (strtoint_finish t (bool_decide (sign = [45])) tmp Hm) as [H1 H2].
  set (v' := if bool_decide (sign = [45]) then - tmp else tmp) in *.
  assert (Hv : in_s (width t) v').
  { unfold in_s in *. destruct (Z.lt_ge_cases v' (- 2 ^ (width t - 1)));
      [rewrite H2 in Hfin by lia; done|].
    destruct (Z.lt_ge_cases v' (2 ^ (width t - 1))); [lia|]. rewrite H2 in Hfin by lia. done. }
  rewrite H1 in Hfin by done. injection Hfin as <-. split; [|done].
  unfold v'. rewrite bool_decide_decide.
  pose proof (denotes_intro lead sign p rest tmp Hlead Hin Hnum Hsp).
  by destruct (decide (sign = [45])).
Qed.

Lemma positional_dec ds acc : positional 10 decval acc ds = digits_value acc ds.
Proof.
  revert acc. induction ds as [|c ds IH]; intros acc; [done|].
  unfold positional, digits_value in *. cbn [foldl]. rewrite IH. unfold decval. f_equal. lia.
Qed.

Lemma int_text_denotes v : - 2 ^ 63 ≤ v < 2 ^ 63 → denotes (int_text v) v.
Proof.
  intros Hv. rewrite int_text_sign.
  destruct (dec_text_spec (Z.abs v)) as (Hne & Hds & Hval); [lia|].
  set (ds := dec_text (Z.abs v)) in *. clearbody ds. destruct ds as [|c ds]; [done|].
  assert (Hnum : numeral (c :: ds) (Z.abs v)).
  { replace (Z.abs v) with (positional 10 decval 0 (c :: ds)).
    - inv Hds. constructor; [done|by apply grouped_app_digits].
    - by rewrite positional_dec. }
  rewrite <- (app_nil_r (c :: ds)). destruct (Z.ltb_spec v 0).
  - replace v with (if decide ([45] = [45]) then - Z.abs v else Z.abs v)
      by (rewrite decide_True by done; lia).
    apply (denotes_intro [] [45]); [constructor|apply list_elem_of_In; cbn; tauto|done|constructor].
  - replace v with (if decide ([] = [45]) then - Z.abs v else Z.abs v)
      by (rewrite decide_False by done; lia).
    apply (denotes_intro [] [] (c :: ds) []); [constructor|apply list_elem_of_In; cbn; tauto|done|constructor].
Qed.

(** ** Properties *)

(** [int2out], [int4out] and [int8out] print every value of their type as its
    decimal notation: the digit pairs of [pg_ultoa_n] and [pg_ulltoa_n] are
    complete and in order, the most negative value included, and no write
    falls outside of the 7, 12 and 21 bytes that are reserved. *)
Theorem int_out_correct t v mem : in_s (width t) v → (21 ≤ length mem)%nat →
  int_out t v mem = Some (int_text v).
Proof. apply int_out_spec. Qed.

Lemma int_out_correct_witness :
  int_out bigint (-9223372036854775808) (replicate 21 255) = Some (bytes "-9223372036854775808").
Proof. apply int_out_correct; [by split|by apply Nat.leb_le]. Defined.



(** What an output function prints, the input function of the type reads back
    as the same value. *)
Theorem int_roundtrip t v mem : in_s (width t) v → (21 ≤ length mem)%nat →
  ∃ s, int_out t v mem = Some s ∧ strtoint t s = inr v.
Proof.
  intros Hv Hmem. exists (int_text v). split; [by apply int_out_spec|].
  assert (H64 : - 2 ^ 63 ≤ v < 2 ^ 63) by (apply in_s_width in Hv; destruct t; lia).
  rewrite strtoint_is_slow.
  - by apply slow_complete; [apply int_text_denotes|].
  - rewrite int_text_sign. destruct (dec_text_spec (Z.abs v)) as (_ & Hds & _); [lia|].
    apply Forall_app. split; [destruct (v <? 0); repeat constructor; lia|].
    eapply list.Forall_impl; [exact Hds|]. intros c. cbn beta. unfold is_digit.
    rewrite andb_true_iff, !Z.leb_le. lia.
Qed.

Lemma int_roundtrip_witness : ∃ s, int_out integer (-2147483648) (replicate 21 7) = Some s ∧
  strtoint integer s = inr (-2147483648).
Proof. apply int_roundtrip; [by split|by apply Nat.leb_le]. Defined.

(** [pg_ultostr_zeropad] pads with zeros on the left to the minimum width, in its
    short cut for two digits as in the general case. *)
Theorem ultostr_zeropad_correct str value minwidth : 0 ≤ value < 2 ^ 32 → 0 < minwidth →
  (length (dec_text value) `max` Z.to_nat minwidth ≤ length str)%nat →
  ∃ str', pg_ultostr_zeropad str value minwidth =
      Some (Z.max (Z.of_nat (length (dec_text value))) minwidth, str') ∧
    take (length (dec_text value) `max` Z.to_nat minwidth) str' =
      replicate (Z.to_nat minwidth - length (dec_text value)) 48 ++ dec_text value.
Proof.
  intros Hv Hw Hlen. unfold pg_ultostr_zeropad.
  destruct ((value <? 100) && (minwidth =? 2)) eqn:Hshort.
  - rewrite andb_true_iff, Z.ltb_lt, Z.eqb_eq in Hshort. destruct Hshort as [H100 ->].
    assert (Hall : forallb (λ v, bool_decide (digs 2 v = replicate (2 - length (dec_text v)) 48 ++ dec_text v)
      && (length (dec_text v) <=? 2)%nat) (seqZ 0 100) = true) by (by vm_compute).
    rewrite forallb_forall in Hall. specialize (Hall value).
    rewrite <- list_elem_of_In, elem_of_seqZ, andb_true_iff, bool_decide_eq_true, Nat.leb_le in Hall.
    destruct (Hall ltac:(lia)) as [Hd Hl]. replace (value * 2) with (Z.shiftl value 1)
      by (rewrite Z.shiftl_mul_pow2 by lia; lia).
    destruct (copy2_written value 0 2 (drop 2 str) str 0 value) as (a & -> & Ha);
      [apply written_start; lia|lia|rewrite Z.div_1_r, Z.mod_small by lia; done|done|].
    apply written_done in Ha as ->. cbn [mbind option_bind]. exists (digs 2 value ++ drop 2 str).
    split; [repeat f_equal; lia|]. change (Z.to_nat 2) with 2%nat.
    replace (length (dec_text value) `max` 2)%nat with 2%nat by lia. rewrite <- Hd.
    by rewrite take_app_length' by (by rewrite digs_length).
  - rewrite pg_ultoa_n_spec by lia. cbn [mbind option_bind].
    set (ds := dec_text value) in *. clearbody ds.
    destruct (Z.leb_spec minwidth (Z.of_nat (length ds))).
    + eexists. split; [repeat f_equal; lia|]. replace (Z.to_nat minwidth - length ds)%nat with 0%nat by lia.
      by rewrite take_app_length' by lia.
    + destruct (Z.leb_spec minwidth (Z.of_nat (length (ds ++ drop (length ds) str))));
        [|rewrite length_app, length_drop in *; lia].
      eexists. split; [repeat f_equal; lia|].
      rewrite Nat2Z.id, take_app_length, app_assoc.
      rewrite take_app_length' by (rewrite length_app, length_replicate; lia).
      f_equal. f_equal. lia.
Qed.
