(* ===== verification/Visibility.v ===== *)
(** * Tuple visibility

    [HeapTupleSatisfiesMVCC] with its hint bits ([heapam_visibility.c]),
    [XidInMVCCSnapshot] ([snapmgr.c]) and the modular comparison of transaction
    ids ([transam.h]).  The commit log, the stack of current transactions and
    the multixact store are the fields of [xact_env]; what a backend may write
    into a buffer is [buffer_env].

    The catalog reads of the AutoIndex worker go through this test; the result
    used there is that a snapshot hides the rows written by commands of the
    same transaction from its [curcid] on. *)
From stdpp Require Import base tactics list strings numbers.
From Stdlib Require Import ZArith Lia Bool.
From S2P Require Import Prelude.

(** ** Transaction ids *)

Definition FirstNormalTransactionId : Z := 3.

Definition TransactionIdIsNormal (x : Z) : bool := FirstNormalTransactionId <=? x.

Definition TransactionIdPrecedes (id1 id2 : Z) : bool :=
  if negb (TransactionIdIsNormal id1) || negb (TransactionIdIsNormal id2) then id1 <? id2
  else i32 (id1 - id2) <? 0.

Definition TransactionIdFollowsOrEquals (id1 id2 : Z) : bool :=
  if negb (TransactionIdIsNormal id1) || negb (TransactionIdIsNormal id2) then id2 <=? id1
  else 0 <=? i32 (id1 - id2).

(** ** Snapshots *)

Record SnapshotData : Type := mkSnapshot {
  snap_xmin : Z;
  snap_xmax : Z;
  xip : list Z;
  subxip : list Z;
  suboverflowed : bool;
  takenDuringRecovery : bool;
  curcid : Z
}.

(** What a backend can find out about transactions. *)
Record xact_env : Type := mkXactEnv {
  TransactionIdIsCurrentTransactionId : Z → bool;
  TransactionIdIsInProgress : Z → bool;
  TransactionIdDidCommit : Z → bool;
  SubTransGetTopmostTransaction : Z → Z;
  MultiXactIdGetUpdateXid : Z → Z;
  comboCids : list (Z * Z)                  (* (cmin, cmax) pairs *)
}.

Definition pg_lfind32 (key : Z) (base : list Z) : bool := existsb (Z.eqb key) base.

Definition XidInMVCCSnapshot (env : xact_env) (xid : Z) (snapshot : SnapshotData) : bool :=
  if TransactionIdPrecedes xid (snap_xmin snapshot) then false
  else if TransactionIdFollowsOrEquals xid (snap_xmax snapshot) then true
  else if negb (takenDuringRecovery snapshot) then
    if negb (suboverflowed snapshot) then
      if pg_lfind32 xid (subxip snapshot) then true else pg_lfind32 xid (xip snapshot)
    else
      let xid := SubTransGetTopmostTransaction env xid in
      if TransactionIdPrecedes xid (snap_xmin snapshot) then false
      else pg_lfind32 xid (xip snapshot)
  else if suboverflowed snapshot then
    let xid := SubTransGetTopmostTransaction env xid in
    if TransactionIdPrecedes xid (snap_xmin snapshot) then false
    else pg_lfind32 xid (subxip snapshot)
  else pg_lfind32 xid (subxip snapshot).

(** ** Tuple headers *)

Definition HEAP_XMAX_KEYSHR_LOCK : Z := 0x0010.

Definition HEAP_COMBOCID : Z := 0x0020.

Definition HEAP_XMAX_EXCL_LOCK : Z := 0x0040.

Definition HEAP_XMAX_LOCK_ONLY : Z := 0x0080.

Definition HEAP_LOCK_MASK : Z := Z.lor HEAP_XMAX_EXCL_LOCK HEAP_XMAX_KEYSHR_LOCK.

Definition HEAP_XMIN_COMMITTED : Z := 0x0100.

Definition HEAP_XMIN_INVALID : Z := 0x0200.

Definition HEAP_XMIN_FROZEN : Z := Z.lor HEAP_XMIN_COMMITTED HEAP_XMIN_INVALID.

Definition HEAP_XMAX_COMMITTED : Z := 0x0400.

Definition HEAP_XMAX_INVALID : Z := 0x0800.

Definition HEAP_XMAX_IS_MULTI : Z := 0x1000.

Definition HEAP_MOVED_OFF : Z := 0x4000.

Definition HEAP_MOVED_IN : Z := 0x8000.

(** [t_field3] holds the command id, or the xid of an old VACUUM FULL. *)
Record HeapTupleHeader : Type := mkTuple {
  t_xmin : Z;
  t_xmax : Z;
  t_field3 : Z;
  t_infomask : Z
}.

(** [(infomask & bits) != 0] *)
Definition hasb (infomask bits : Z) : bool := negb (Z.land infomask bits =? 0).

Definition HEAP_XMAX_IS_LOCKED_ONLY (infomask : Z) : bool :=
  hasb infomask HEAP_XMAX_LOCK_ONLY ||
  (Z.land infomask (Z.lor HEAP_XMAX_IS_MULTI HEAP_LOCK_MASK) =? HEAP_XMAX_EXCL_LOCK).

Definition HeapTupleHeaderXminCommitted (tup : HeapTupleHeader) : bool :=
  hasb (t_infomask tup) HEAP_XMIN_COMMITTED.

Definition HeapTupleHeaderXminInvalid (tup : HeapTupleHeader) : bool :=
  Z.land (t_infomask tup) HEAP_XMIN_FROZEN =? HEAP_XMIN_INVALID.

Definition HeapTupleHeaderXminFrozen (tup : HeapTupleHeader) : bool :=
  Z.land (t_infomask tup) HEAP_XMIN_FROZEN =? HEAP_XMIN_FROZEN.

Definition combo_cid (env : xact_env) (cid : Z) : Z * Z :=
  default (0, 0) (comboCids env !! Z.to_nat cid).

Definition HeapTupleHeaderGetCmin (env : xact_env) (tup : HeapTupleHeader) : Z :=
  if hasb (t_infomask tup) HEAP_COMBOCID then (combo_cid env (t_field3 tup)).1
  else t_field3 tup.

Definition HeapTupleHeaderGetCmax (env : xact_env) (tup : HeapTupleHeader) : Z :=
  if hasb (t_infomask tup) HEAP_COMBOCID then (combo_cid env (t_field3 tup)).2
  else t_field3 tup.

(** [HeapTupleGetUpdateXid]: the updating member of a multixact. *)
Definition HeapTupleGetUpdateXid (env : xact_env) (tup : HeapTupleHeader) : Z :=
  MultiXactIdGetUpdateXid env (t_xmax tup).

(** ** Hint bits *)

Inductive SetHintBitsState : Type := SHB_INITIAL | SHB_DISABLED | SHB_ENABLED.

#[global] Instance SetHintBitsState_eq_dec : EqDecision SetHintBitsState.
Proof. solve_decision. Defined.

(** The buffer's persistence, whether a commit record is neither flushed nor
    covered by the page's LSN, and whether hint bits may be written now. *)
Record buffer_env : Type := mkBufferEnv {
  BufferIsPermanent : bool;
  commit_unflushed : Z → bool;
  BufferBeginSetHintBits : bool;
  BufferSetHintBits16 : bool
}.

Definition or_infomask (tup : HeapTupleHeader) (bits : Z) : HeapTupleHeader :=
  mkTuple (t_xmin tup) (t_xmax tup) (t_field3 tup) (Z.lor (t_infomask tup) bits).

Definition SetHintBitsExt (buf : buffer_env) (tup : HeapTupleHeader) (infomask xid : Z)
    (state : option SetHintBitsState) : HeapTupleHeader * option SetHintBitsState :=
  if bool_decide (state = Some SHB_DISABLED) then (tup, state)
  else if negb (xid =? 0) && (BufferIsPermanent buf && commit_unflushed buf xid) then (tup, state)
  else match state with
  | None => ((if BufferSetHintBits16 buf then or_infomask tup infomask else tup), None)
  | Some SHB_INITIAL =>
      if negb (BufferBeginSetHintBits buf) then (tup, Some SHB_DISABLED)
      else (or_infomask tup infomask, Some SHB_ENABLED)
  | Some _ => (or_infomask tup infomask, state)
  end.

Definition SetHintBits (buf : buffer_env) (tup : HeapTupleHeader) (infomask xid : Z) :
    HeapTupleHeader :=
  (SetHintBitsExt buf tup infomask xid None).1.

(** The row of an old VACUUM FULL: is it possibly visible? *)
Definition HeapTupleCleanMoved (env : xact_env) (buf : buffer_env) (tup : HeapTupleHeader) :
    result (bool * HeapTupleHeader) :=
  if negb (hasb (t_infomask tup) (Z.lor HEAP_MOVED_OFF HEAP_MOVED_IN)) then Ok (true, tup)
  else
    let xvac := t_field3 tup in
    if TransactionIdIsCurrentTransactionId env xvac then
      Err (ErrReport "encountered tuple with HEAP_MOVED considered current")
    else if TransactionIdIsInProgress env xvac then
      Err (ErrReport "encountered tuple with HEAP_MOVED considered in-progress")
    else if hasb (t_infomask tup) HEAP_MOVED_OFF then
      if TransactionIdDidCommit env xvac then Ok (false, SetHintBits buf tup HEAP_XMIN_INVALID 0)
      else Ok (true, SetHintBits buf tup HEAP_XMIN_COMMITTED 0)
    else if hasb (t_infomask tup) HEAP_MOVED_IN then
      if TransactionIdDidCommit env xvac then Ok (true, SetHintBits buf tup HEAP_XMIN_COMMITTED 0)
      else Ok (false, SetHintBits buf tup HEAP_XMIN_INVALID 0)
    else Ok (true, tup).

(** ** HeapTupleSatisfiesMVCC *)

Section satisfies.
  Context (env : xact_env) (buf : buffer_env) (snapshot : SnapshotData).

  Abbreviation answer := (bool * HeapTupleHeader * option SetHintBitsState)%type.

(** Inserted by the current transaction. *)
Definition mvcc_own_insert (tup : HeapTupleHeader) (state : option SetHintBitsState) : answer :=
  if curcid snapshot <=? HeapTupleHeaderGetCmin env tup then (false, tup, state)
  else if hasb (t_infomask tup) HEAP_XMAX_INVALID then (true, tup, state)
  else if HEAP_XMAX_IS_LOCKED_ONLY (t_infomask tup) then (true, tup, state)
  else if hasb (t_infomask tup) HEAP_XMAX_IS_MULTI then
    let xmax := HeapTupleGetUpdateXid env tup in
    if negb (TransactionIdIsCurrentTransactionId env xmax) then (true, tup, state)
    else ((curcid snapshot <=? HeapTupleHeaderGetCmax env tup), tup, state)
  else if negb (TransactionIdIsCurrentTransactionId env (t_xmax tup)) then
    let '(tup, state) := SetHintBitsExt buf tup HEAP_XMAX_INVALID 0 state in (true, tup, state)
  else ((curcid snapshot <=? HeapTupleHeaderGetCmax env tup), tup, state).

(** By here, the inserting transaction has committed. *)
Definition mvcc_check_xmax (tup : HeapTupleHeader) (state : option SetHintBitsState) : answer :=
  if hasb (t_infomask tup) HEAP_XMAX_INVALID then (true, tup, state)
  else if HEAP_XMAX_IS_LOCKED_ONLY (t_infomask tup) then (true, tup, state)
  else if hasb (t_infomask tup) HEAP_XMAX_IS_MULTI then
    let xmax := HeapTupleGetUpdateXid env tup in
    if TransactionIdIsCurrentTransactionId env xmax then
      ((curcid snapshot <=? HeapTupleHeaderGetCmax env tup), tup, state)
    else if XidInMVCCSnapshot env xmax snapshot then (true, tup, state)
    else if TransactionIdDidCommit env xmax then (false, tup, state)
    else (true, tup, state)
  else if negb (hasb (t_infomask tup) HEAP_XMAX_COMMITTED) then
    if TransactionIdIsCurrentTransactionId env (t_xmax tup) then
      ((curcid snapshot <=? HeapTupleHeaderGetCmax env tup), tup, state)
    else if XidInMVCCSnapshot env (t_xmax tup) snapshot then (true, tup, state)
    else if negb (TransactionIdDidCommit env (t_xmax tup)) then
      let '(tup, state) := SetHintBitsExt buf tup HEAP_XMAX_INVALID 0 state in (true, tup, state)
    else
      let '(tup, state) := SetHintBitsExt buf tup HEAP_XMAX_COMMITTED (t_xmax tup) state in
      (false, tup, state)
  else if XidInMVCCSnapshot env (t_xmax tup) snapshot then (true, tup, state)
  else (false, tup, state).

Definition HeapTupleSatisfiesMVCC (tup : HeapTupleHeader) (state : option SetHintBitsState) :
    result answer :=
  if negb (HeapTupleHeaderXminCommitted tup) then
    if HeapTupleHeaderXminInvalid tup then Ok (false, tup, state)
    else
      '(ok, tup) ← HeapTupleCleanMoved env buf tup;
      if negb (ok : bool) then Ok (false, tup, state)
      else if TransactionIdIsCurrentTransactionId env (t_xmin tup) then
        Ok (mvcc_own_insert tup state)
      else if XidInMVCCSnapshot env (t_xmin tup) snapshot then Ok (false, tup, state)
      else if TransactionIdDidCommit env (t_xmin tup) then
        let '(tup, state) := SetHintBitsExt buf tup HEAP_XMIN_COMMITTED (t_xmin tup) state in
        Ok (mvcc_check_xmax tup state)
      else
        let '(tup, state) := SetHintBitsExt buf tup HEAP_XMIN_INVALID 0 state in
        Ok (false, tup, state)
  else if negb (HeapTupleHeaderXminFrozen tup) && XidInMVCCSnapshot env (t_xmin tup) snapshot then
    Ok (false, tup, state)
  else Ok (mvcc_check_xmax tup state).

End satisfies.

(** ** Specification *)

(** Does the snapshot see what transaction [xid] did in its command [cid]? *)
Definition sees (env : xact_env) (snap : SnapshotData) (xid cid : Z) : bool :=
  if TransactionIdIsCurrentTransactionId env xid then cid <? curcid snap
  else negb (XidInMVCCSnapshot env xid snap) && TransactionIdDidCommit env xid.

(** The transaction that deleted or replaced the tuple, if any. *)
Definition deleter (env : xact_env) (tup : HeapTupleHeader) : option Z :=
  if hasb (t_infomask tup) HEAP_XMAX_INVALID || HEAP_XMAX_IS_LOCKED_ONLY (t_infomask tup) then None
  else Some (if hasb (t_infomask tup) HEAP_XMAX_IS_MULTI
             then HeapTupleGetUpdateXid env tup else t_xmax tup).

Definition inserted (env : xact_env) (snap : SnapshotData) (tup : HeapTupleHeader) : bool :=
  HeapTupleHeaderXminFrozen tup || sees env snap (t_xmin tup) (HeapTupleHeaderGetCmin env tup).

Definition deleted (env : xact_env) (snap : SnapshotData) (tup : HeapTupleHeader) : bool :=
  match deleter env tup with
  | Some x => sees env snap x (HeapTupleHeaderGetCmax env tup)
  | None => false
  end.

Definition mvcc_visible (env : xact_env) (snap : SnapshotData) (tup : HeapTupleHeader) : bool :=
  inserted env snap tup && negb (deleted env snap tup).

(** The hint bits of a tuple tell the truth, it is not left over from an old
    VACUUM FULL, and only our own transaction can have deleted our rows. *)
Record tuple_ok (env : xact_env) (tup : HeapTupleHeader) : Prop := mkTupleOk {
  ok_xmin_committed : HeapTupleHeaderXminCommitted tup = true →
    HeapTupleHeaderXminFrozen tup = false →
    TransactionIdIsCurrentTransactionId env (t_xmin tup) = false ∧
    TransactionIdDidCommit env (t_xmin tup) = true;
  ok_xmin_invalid : HeapTupleHeaderXminInvalid tup = true →
    TransactionIdIsCurrentTransactionId env (t_xmin tup) = false ∧
    TransactionIdDidCommit env (t_xmin tup) = false;
  ok_xmax_committed : hasb (t_infomask tup) HEAP_XMAX_COMMITTED = true →
    hasb (t_infomask tup) HEAP_XMAX_IS_MULTI = false → is_Some (deleter env tup) →
    TransactionIdIsCurrentTransactionId env (t_xmax tup) = false ∧
    TransactionIdDidCommit env (t_xmax tup) = true;
  ok_moved : hasb (t_infomask tup) (Z.lor HEAP_MOVED_OFF HEAP_MOVED_IN) = false;
  ok_own : TransactionIdIsCurrentTransactionId env (t_xmin tup) = true →
    HeapTupleHeaderXminFrozen tup = false → ∀ x, deleter env tup = Some x →
    TransactionIdIsCurrentTransactionId env x = false → TransactionIdDidCommit env x = false
}.

(** The running transactions of a snapshot, as unwrapped 64-bit ids. *)
Record running : Type := mkRunning {
  run_xmin : Z;
  run_xmax : Z;
  run_xip : list Z;
  run_subxip : list Z
}.

Definition snapshot_of (r : running) (cid : Z) : SnapshotData :=
  mkSnapshot (u32 (run_xmin r)) (u32 (run_xmax r)) (u32 <$> run_xip r) (u32 <$> run_subxip r)
    false false cid.

(** A normal id, once truncated. *)
Definition normal_xid (x : Z) : Prop := FirstNormalTransactionId ≤ u32 x ∧ 0 ≤ x.

Record running_ok (r : running) : Prop := mkRunningOk {
  run_bounds : Forall (λ x, run_xmin r ≤ x < run_xmax r) (run_xip r ++ run_subxip r);
  run_normal : normal_xid (run_xmin r) ∧ normal_xid (run_xmax r);
  run_window : run_xmin r ≤ run_xmax r < run_xmin r + 2 ^ 31
}.

(** What an answer of the visibility test has to satisfy. *)
Definition answer_ok (env : xact_env) (snap : SnapshotData) (tup : HeapTupleHeader)
    (r : bool * HeapTupleHeader * option SetHintBitsState) : Prop :=
  r.1.1 = mvcc_visible env snap tup ∧ tuple_ok env r.1.2 ∧
  ∀ snap', mvcc_visible env snap' r.1.2 = mvcc_visible env snap' tup.

(** A hint that may be set: it is one of the four, and true. *)
Inductive true_hint (env : xact_env) (tup : HeapTupleHeader) : Z → Prop :=
| hint_xmin_committed :
    hasb (t_infomask tup) HEAP_XMIN_INVALID = false →
    TransactionIdIsCurrentTransactionId env (t_xmin tup) = false →
    TransactionIdDidCommit env (t_xmin tup) = true → true_hint env tup HEAP_XMIN_COMMITTED
| hint_xmin_invalid :
    HeapTupleHeaderXminCommitted tup = false →
    TransactionIdIsCurrentTransactionId env (t_xmin tup) = false →
    TransactionIdDidCommit env (t_xmin tup) = false → true_hint env tup HEAP_XMIN_INVALID
| hint_xmax_committed :
    TransactionIdIsCurrentTransactionId env (t_xmax tup) = false →
    TransactionIdDidCommit env (t_xmax tup) = true →
    true_hint env tup HEAP_XMAX_COMMITTED
| hint_xmax_invalid :
    hasb (t_infomask tup) HEAP_XMAX_IS_MULTI = false →
    TransactionIdIsCurrentTransactionId env (t_xmax tup) = false →
    TransactionIdDidCommit env (t_xmax tup) = false → true_hint env tup HEAP_XMAX_INVALID.

(** A transaction 100 that has created a row in its second command. *)
Definition example_env : xact_env :=
  mkXactEnv (λ x, x =? 100) (λ x, x =? 100) (λ x, x <? 100) id id [].

Definition example_snap (cid : Z) : SnapshotData := mkSnapshot 90 105 [95] [] false false cid.

Definition example_buf : buffer_env := mkBufferEnv true (λ _, false) true true.

Definition own_row (cid : Z) : HeapTupleHeader := mkTuple 100 0 cid HEAP_XMAX_INVALID.

(** ** Masks *)

Lemma land_bit m k : 0 ≤ k → Z.land m (2 ^ k) = if Z.testbit m k then 2 ^ k else 0.
Proof.
  intros Hk. apply Z.bits_inj'. intros n Hn. rewrite Z.land_spec, Z.pow2_bits_eqb by done.
  destruct (Z.eqb_spec k n) as [->|Hne].
  - rewrite andb_true_r. destruct (Z.testbit m n); [by rewrite Z.pow2_bits_true|].
    by rewrite Z.testbit_0_l.
  - rewrite andb_false_r. destruct (Z.testbit m k); [|by rewrite Z.testbit_0_l].
    symmetry. by apply Z.pow2_bits_false.
Qed.

Lemma hasb_bit m k : 0 ≤ k → hasb m (2 ^ k) = Z.testbit m k.
Proof.
  intros Hk. unfold hasb. rewrite land_bit by done. destruct (Z.testbit m k); [|done].
  assert (0 < 2 ^ k) by lia. by destruct (Z.eqb_spec (2 ^ k) 0); [lia|].
Qed.

Lemma hasb_lor m a b : hasb (Z.lor m a) b = hasb m b || hasb a b.
Proof.
  unfold hasb. rewrite Z.land_lor_distr_l.
  destruct (Z.eqb_spec (Z.land m b) 0) as [->|Hm]; simpl.
  - by rewrite Z.lor_0_l.
  - destruct (Z.eqb_spec (Z.lor (Z.land m b) (Z.land a b)) 0) as [E|]; [|done].
    by apply Z.lor_eq_0_iff in E as [? _].
Qed.

Lemma land_lor_disjoint m a b : Z.land a b = 0 → Z.land (Z.lor m a) b = Z.land m b.
Proof. intros H. by rewrite Z.land_lor_distr_l, H, Z.lor_0_r. Qed.

Lemma xmin_mask m : Z.land m HEAP_XMIN_FROZEN =
  (if hasb m HEAP_XMIN_COMMITTED then HEAP_XMIN_COMMITTED else 0) +
  (if hasb m HEAP_XMIN_INVALID then HEAP_XMIN_INVALID else 0).
Proof.
  change HEAP_XMIN_FROZEN with (Z.lor (2 ^ 8) (2 ^ 9)). rewrite Z.land_lor_distr_r, !land_bit by lia.
  change HEAP_XMIN_COMMITTED with (2 ^ 8). change HEAP_XMIN_INVALID with (2 ^ 9).
  rewrite !hasb_bit by lia. by destruct (Z.testbit m 8), (Z.testbit m 9).
Qed.

Lemma frozen_iff tup : HeapTupleHeaderXminFrozen tup =
  HeapTupleHeaderXminCommitted tup && hasb (t_infomask tup) HEAP_XMIN_INVALID.
Proof.
  unfold HeapTupleHeaderXminFrozen, HeapTupleHeaderXminCommitted. rewrite xmin_mask.
  by destruct (hasb _ HEAP_XMIN_COMMITTED), (hasb _ HEAP_XMIN_INVALID).
Qed.

Lemma xmin_invalid_iff tup : HeapTupleHeaderXminInvalid tup =
  negb (HeapTupleHeaderXminCommitted tup) && hasb (t_infomask tup) HEAP_XMIN_INVALID.
Proof.
  unfold HeapTupleHeaderXminInvalid, HeapTupleHeaderXminCommitted. rewrite xmin_mask.
  by destruct (hasb _ HEAP_XMIN_COMMITTED), (hasb _ HEAP_XMIN_INVALID).
Qed.

(** ** Hint bits do not change the answer *)

Lemma locked_only_lor m a :
  hasb a HEAP_XMAX_LOCK_ONLY = false → Z.land a (Z.lor HEAP_XMAX_IS_MULTI HEAP_LOCK_MASK) = 0 →
  HEAP_XMAX_IS_LOCKED_ONLY (Z.lor m a) = HEAP_XMAX_IS_LOCKED_ONLY m.
Proof.
  intros H1 H2. unfold HEAP_XMAX_IS_LOCKED_ONLY.
  by rewrite hasb_lor, H1, orb_false_r, land_lor_disjoint.
Qed.

Lemma true_hint_facts env tup bits : true_hint env tup bits →
  HEAP_XMAX_IS_LOCKED_ONLY (Z.lor (t_infomask tup) bits) =
    HEAP_XMAX_IS_LOCKED_ONLY (t_infomask tup) ∧
  hasb (Z.lor (t_infomask tup) bits) HEAP_XMAX_IS_MULTI =
    hasb (t_infomask tup) HEAP_XMAX_IS_MULTI ∧
  hasb (Z.lor (t_infomask tup) bits) HEAP_COMBOCID = hasb (t_infomask tup) HEAP_COMBOCID ∧
  hasb (Z.lor (t_infomask tup) bits) (Z.lor HEAP_MOVED_OFF HEAP_MOVED_IN) =
    hasb (t_infomask tup) (Z.lor HEAP_MOVED_OFF HEAP_MOVED_IN) ∧
  HeapTupleHeaderXminFrozen (or_infomask tup bits) = HeapTupleHeaderXminFrozen tup.
Proof.
  intros H. split_and!; [by apply locked_only_lor; destruct H|rewrite hasb_lor; destruct H; apply orb_false_r..|].
  rewrite !frozen_iff. unfold HeapTupleHeaderXminCommitted, or_infomask; simpl.
  rewrite !hasb_lor. destruct H as [H|H| |]; simpl in *.
  - change (hasb HEAP_XMIN_COMMITTED HEAP_XMIN_INVALID) with false.
    by rewrite H, !andb_false_r.
  - unfold HeapTupleHeaderXminCommitted in H. rewrite H. done.
  - by rewrite !orb_false_r.
  - by rewrite !orb_false_r.
Qed.

Lemma hint_cids env tup bits : true_hint env tup bits →
  HeapTupleHeaderGetCmin env (or_infomask tup bits) = HeapTupleHeaderGetCmin env tup ∧
  HeapTupleHeaderGetCmax env (or_infomask tup bits) = HeapTupleHeaderGetCmax env tup.
Proof.
  intros H. destruct (true_hint_facts env tup bits H) as (_ & _ & Hc & _).
  unfold HeapTupleHeaderGetCmin, HeapTupleHeaderGetCmax, or_infomask; simpl. by rewrite Hc.
Qed.

Lemma hint_deleter env tup bits : true_hint env tup bits →
  deleter env (or_infomask tup bits) =
    if hasb bits HEAP_XMAX_INVALID then None else deleter env tup.
Proof.
  intros H. destruct (true_hint_facts env tup bits H) as (Hl & Hm & _).
  unfold deleter, or_infomask, HeapTupleGetUpdateXid; simpl. rewrite hasb_lor, Hl, Hm.
  by destruct (hasb (t_infomask tup) HEAP_XMAX_INVALID), (hasb bits HEAP_XMAX_INVALID).
Qed.

Lemma hint_visible env tup bits snap : true_hint env tup bits →
  mvcc_visible env snap (or_infomask tup bits) = mvcc_visible env snap tup.
Proof.
  intros H. destruct (true_hint_facts env tup bits H) as (_ & _ & _ & _ & Hf).
  destruct (hint_cids env tup bits H) as [Hmin Hmax].
  unfold mvcc_visible, inserted, deleted. rewrite Hf, Hmin, Hmax, hint_deleter by done.
  f_equal. destruct H as [| | |Hm Hc Hd]; [done..|]. simpl. f_equal. symmetry.
  unfold deleter, sees. rewrite Hm. destruct (_ || _); [done|].
  by rewrite Hc, Hd, andb_false_r.
Qed.

Lemma hint_tuple_ok env tup bits : true_hint env tup bits → tuple_ok env tup →
  tuple_ok env (or_infomask tup bits).
Proof.
  intros H [Hc Hi Hx Hm Ho].
  destruct (true_hint_facts env tup bits H) as (Hl & Hmu & Hcc & Hmo & Hf).
  pose proof (hint_deleter env tup bits H) as Hd.
  assert (Hd' : ∀ x, deleter env (or_infomask tup bits) = Some x → deleter env tup = Some x).
  { intros x. rewrite Hd. by destruct (hasb bits HEAP_XMAX_INVALID). }
  split; rewrite ?Hf, ?xmin_invalid_iff; unfold HeapTupleHeaderXminCommitted; simpl;
    rewrite ?Hmu, ?Hmo, ?hasb_lor.
  - intros Hcom Hfr. rewrite orb_true_iff in Hcom. destruct Hcom as [Hcom|Hcom]; [by apply Hc|].
    by destruct H.
  - rewrite xmin_invalid_iff in Hi. unfold HeapTupleHeaderXminCommitted in Hi.
    rewrite andb_true_iff, negb_true_iff, orb_false_iff, orb_true_iff.
    intros [[H1 H2] [H3|H3]]; [apply Hi; by rewrite H1, H3|]. by destruct H.
  - rewrite orb_true_iff. intros [Hcom|Hcom] Hmf [x Hs].
    + apply Hx; [done|done|]. exists x. by apply Hd'.
    + by destruct H.
  - done.
  - intros Hcur Hfr x Hs. apply Ho; [done|done|by apply Hd'].
Qed.

Lemma SetHintBitsExt_spec env buf tup bits xid state : tuple_ok env tup → true_hint env tup bits →
  let r := SetHintBitsExt buf tup bits xid state in
  tuple_ok env r.1 ∧ (∀ snap, mvcc_visible env snap r.1 = mvcc_visible env snap tup) ∧
  (r.1 = tup ∨ r.1 = or_infomask tup bits).
Proof.
  intros Hok Ht r. assert (Hr : r.1 = tup ∨ r.1 = or_infomask tup bits).
  { unfold r, SetHintBitsExt. repeat case_match; simpl; auto. }
  destruct Hr as [Hr|Hr]; rewrite Hr; split_and!; auto.
  - by apply hint_tuple_ok.
  - intros snap. by apply hint_visible.
Qed.

Lemma answer_ok_same env snap tup b state : tuple_ok env tup → b = mvcc_visible env snap tup →
  answer_ok env snap tup (b, tup, state).
Proof. by intros. Qed.

Lemma answer_ok_hint env snap buf tup bits xid state b : tuple_ok env tup →
  true_hint env tup bits → b = mvcc_visible env snap tup →
  answer_ok env snap tup
    (let '(t, s) := SetHintBitsExt buf tup bits xid state in (b, t, s)).
Proof.
  intros Hok Ht Hb. pose proof (SetHintBitsExt_spec env buf tup bits xid state Hok Ht) as (H1 & H2 & _).
  by destruct (SetHintBitsExt buf tup bits xid state) as [t s].
Qed.

Lemma own_insert_ok env buf snap tup state : tuple_ok env tup →
  HeapTupleHeaderXminFrozen tup = false →
  TransactionIdIsCurrentTransactionId env (t_xmin tup) = true →
  answer_ok env snap tup (mvcc_own_insert env buf snap tup state).
Proof.
  intros Hok Hf Hcur. pose proof (ok_own env tup Hok Hcur Hf) as Hown.
  assert (Hv : mvcc_visible env snap tup =
    (HeapTupleHeaderGetCmin env tup <? curcid snap) && negb (deleted env snap tup)).
  { unfold mvcc_visible, inserted, sees. by rewrite Hf, Hcur. }
  unfold mvcc_own_insert. destruct (Z.leb_spec (curcid snap) (HeapTupleHeaderGetCmin env tup)).
  { apply answer_ok_same; [done|]. rewrite Hv. by destruct (Z.ltb_spec (HeapTupleHeaderGetCmin env tup) (curcid snap)); [lia|]. }
  assert (Hv' : mvcc_visible env snap tup = negb (deleted env snap tup)).
  { rewrite Hv. by destruct (Z.ltb_spec (HeapTupleHeaderGetCmin env tup) (curcid snap)); [|lia]. }
  clear Hv. unfold deleted, deleter in Hv', Hown.
  destruct (hasb (t_infomask tup) HEAP_XMAX_INVALID); [by apply answer_ok_same|].
  destruct (HEAP_XMAX_IS_LOCKED_ONLY (t_infomask tup)); [by apply answer_ok_same|]. simpl in *.
  assert (Hle : (curcid snap <=? HeapTupleHeaderGetCmax env tup) =
    negb (HeapTupleHeaderGetCmax env tup <? curcid snap)) by (by rewrite Z.leb_antisym).
  destruct (hasb (t_infomask tup) HEAP_XMAX_IS_MULTI) eqn:Hmu; unfold sees in Hv'.
  - destruct (TransactionIdIsCurrentTransactionId env (HeapTupleGetUpdateXid env tup)) eqn:Hc; simpl.
    + apply answer_ok_same; [done|]. by rewrite Hv'.
    + apply answer_ok_same; [done|]. rewrite Hv', (Hown _ eq_refl Hc). by rewrite andb_false_r.
  - destruct (TransactionIdIsCurrentTransactionId env (t_xmax tup)) eqn:Hc; simpl.
    + apply answer_ok_same; [done|]. by rewrite Hv'.
    + apply answer_ok_hint; [done|by constructor; auto|].
      rewrite Hv', (Hown _ eq_refl Hc). by rewrite andb_false_r.
Qed.

Lemma check_xmax_ok env buf snap tup state : tuple_ok env tup →
  inserted env snap tup = true →
  answer_ok env snap tup (mvcc_check_xmax env buf snap tup state).
Proof.
  intros Hok Hins. assert (Hv : mvcc_visible env snap tup = negb (deleted env snap tup)).
  { unfold mvcc_visible. by rewrite Hins. }
  pose proof (ok_xmax_committed env tup Hok) as Hxc.
  unfold mvcc_check_xmax. unfold deleted, deleter in Hv, Hxc.
  destruct (hasb (t_infomask tup) HEAP_XMAX_INVALID); [by apply answer_ok_same|].
  destruct (HEAP_XMAX_IS_LOCKED_ONLY (t_infomask tup)); [by apply answer_ok_same|]. simpl in *.
  assert (Hle : (curcid snap <=? HeapTupleHeaderGetCmax env tup) =
    negb (HeapTupleHeaderGetCmax env tup <? curcid snap)) by (by rewrite Z.leb_antisym).
  destruct (hasb (t_infomask tup) HEAP_XMAX_IS_MULTI) eqn:Hmu; unfold sees in Hv.
  { rewrite Hle. destruct (TransactionIdIsCurrentTransactionId env _);
      [|destruct (XidInMVCCSnapshot env _ snap); [|destruct (TransactionIdDidCommit env _)]];
      by apply answer_ok_same. }
  destruct (hasb (t_infomask tup) HEAP_XMAX_COMMITTED); simpl.
  - destruct (Hxc eq_refl eq_refl ltac:(done)) as [Hc Hd]. rewrite Hc, Hd in Hv.
    destruct (XidInMVCCSnapshot env (t_xmax tup) snap); by apply answer_ok_same.
  - destruct (TransactionIdIsCurrentTransactionId env (t_xmax tup)) eqn:Hc.
    { apply answer_ok_same; [done|]. by rewrite Hv. }
    destruct (XidInMVCCSnapshot env (t_xmax tup) snap); [by apply answer_ok_same|].
    destruct (TransactionIdDidCommit env (t_xmax tup)) eqn:Hd; simpl;
      (apply answer_ok_hint; [done|by constructor|done]).
Qed.

Lemma answer_ok_trans env snap tup tup' r :
  (∀ snap, mvcc_visible env snap tup' = mvcc_visible env snap tup) →
  answer_ok env snap tup' r → answer_ok env snap tup r.
Proof.
  intros H (H1 & H2 & H3). split_and!; [by rewrite H1|done|]. intros snap'. by rewrite H3.
Qed.

Lemma HeapTupleSatisfiesMVCC_ok env buf snap tup state : tuple_ok env tup →
  ∃ r, HeapTupleSatisfiesMVCC env buf snap tup state = Ok r ∧ answer_ok env snap tup r.
Proof.
  intros Hok. unfold HeapTupleSatisfiesMVCC. pose proof (frozen_iff tup) as Hfr.
  destruct (HeapTupleHeaderXminCommitted tup) eqn:Hcom; simpl.
  - assert (Hins : inserted env snap tup = HeapTupleHeaderXminFrozen tup ||
      negb (XidInMVCCSnapshot env (t_xmin tup) snap)).
    { unfold inserted. destruct (HeapTupleHeaderXminFrozen tup) eqn:Hf; [done|]. simpl.
      destruct (ok_xmin_committed env tup Hok Hcom Hf) as [Hc Hd]. unfold sees.
      by rewrite Hc, Hd, andb_true_r. }
    destruct (negb (HeapTupleHeaderXminFrozen tup) && XidInMVCCSnapshot env (t_xmin tup) snap) eqn:Hb.
    + apply andb_prop in Hb as [Hf%negb_true_iff Hx]. eexists. split; [done|].
      apply answer_ok_same; [done|]. unfold mvcc_visible. by rewrite Hins, Hf, Hx.
    + eexists. split; [done|]. apply check_xmax_ok; [done|].
      rewrite Hins. by destruct (HeapTupleHeaderXminFrozen tup), (XidInMVCCSnapshot env (t_xmin tup) snap).
  - assert (Hins : inserted env snap tup =
      sees env snap (t_xmin tup) (HeapTupleHeaderGetCmin env tup)).
    { unfold inserted. by rewrite Hfr. }
    destruct (HeapTupleHeaderXminInvalid tup) eqn:Hinv.
    { destruct (ok_xmin_invalid env tup Hok Hinv) as [Hc Hd]. eexists. split; [done|].
      apply answer_ok_same; [done|]. unfold mvcc_visible. rewrite Hins. unfold sees.
      by rewrite Hc, Hd, andb_false_r. }
    unfold HeapTupleCleanMoved. rewrite (ok_moved env tup Hok). simpl.
    destruct (TransactionIdIsCurrentTransactionId env (t_xmin tup)) eqn:Hc.
    { eexists. split; [done|]. by apply own_insert_ok. }
    unfold sees in Hins. rewrite Hc in Hins.
    destruct (XidInMVCCSnapshot env (t_xmin tup) snap) eqn:Hx.
    { eexists. split; [done|]. apply answer_ok_same; [done|]. unfold mvcc_visible. by rewrite Hins. }
    rewrite xmin_invalid_iff, Hcom in Hinv. simpl in Hinv.
    destruct (TransactionIdDidCommit env (t_xmin tup)) eqn:Hd; simpl in Hins.
    + pose proof (hint_xmin_committed env tup Hinv Hc Hd) as Ht.
      pose proof (SetHintBitsExt_spec env buf tup HEAP_XMIN_COMMITTED (t_xmin tup) state Hok Ht)
        as (Hok' & Hvis & Hr).
      destruct (SetHintBitsExt buf tup HEAP_XMIN_COMMITTED (t_xmin tup) state) as [t s]. simpl in *.
      eexists. split; [done|]. apply (answer_ok_trans _ _ _ _ _ Hvis), check_xmax_ok; [done|].
      destruct Hr as [-> | ->]; [done|]. unfold inserted, sees; simpl. rewrite Hc, Hx, Hd.
      by rewrite orb_true_r.
    + eexists. split; [|apply (answer_ok_hint env snap buf tup HEAP_XMIN_INVALID 0 state false);
        [done|by constructor|]].
      * by destruct (SetHintBitsExt buf tup HEAP_XMIN_INVALID 0 state).
      * unfold mvcc_visible. by rewrite Hins.
Qed.

(** ** Transaction ids wrap around *)

Lemma i32_sub_u32 a b : - 2 ^ 31 ≤ a - b < 2 ^ 31 → i32 (u32 a - u32 b) = a - b.
Proof.
  intros H. unfold i32, u32, wrap_s, wrap_u. change (32 - 1) with 31.
  replace (a mod 2 ^ 32 - b mod 2 ^ 32 + 2 ^ 31)
    with ((a - b + 2 ^ 31) + (b / 2 ^ 32 - a / 2 ^ 32) * 2 ^ 32)
    by (pose proof (Z.div_mod a (2 ^ 32)); pose proof (Z.div_mod b (2 ^ 32)); lia).
  rewrite Z.mod_add by lia. rewrite Z.mod_small by lia. lia.
Qed.

Lemma precedes_full a b : normal_xid a → normal_xid b → - 2 ^ 31 ≤ a - b < 2 ^ 31 →
  TransactionIdPrecedes (u32 a) (u32 b) = (a <? b) ∧
  TransactionIdFollowsOrEquals (u32 a) (u32 b) = (b <=? a).
Proof.
  intros [Ha _] [Hb _] Hd. unfold TransactionIdPrecedes, TransactionIdFollowsOrEquals, TransactionIdIsNormal.
  apply Z.leb_le in Ha, Hb. rewrite Ha, Hb. simpl. rewrite i32_sub_u32 by done.
  split; apply eq_true_iff_eq; rewrite ?Z.ltb_lt, ?Z.leb_le; lia.
Qed.

Lemma u32_inj_window a b : - 2 ^ 31 ≤ a - b < 2 ^ 31 → u32 a = u32 b → a = b.
Proof. intros Hd He. pose proof (i32_sub_u32 a b Hd) as H. rewrite He, Z.sub_diag in H. change (i32 0) with 0 in H. lia. Qed.

Lemma lfind_full x l : Forall (λ y, - 2 ^ 31 ≤ x - y < 2 ^ 31) l →
  pg_lfind32 (u32 x) (u32 <$> l) = bool_decide (x ∈ l).
Proof.
  induction 1 as [|y l Hy Hl IH]; [done|]. change (((u32 x =? u32 y) || pg_lfind32 (u32 x) (u32 <$> l)) = bool_decide (x ∈ y :: l)).
  rewrite IH. apply eq_true_iff_eq. rewrite orb_true_iff, !bool_decide_eq_true, Z.eqb_eq, elem_of_cons.
  split; (intros [H|H]; [left|by right]); [by apply u32_inj_window|by subst].
Qed.

(** ** Properties *)

(** C9.  [HeapTupleSatisfiesMVCC] decides snapshot visibility: a tuple is visible
    exactly when the snapshot sees its insertion and not its deletion, where an
    action of the current transaction is seen if its command id is below
    [curcid], and an action of another one if it had committed when the snapshot
    was taken.  Whatever hint bits the call manages to set are true and change
    the visibility of the tuple for no snapshot. *)
Theorem mvcc_correct env buf snap tup state : tuple_ok env tup →
  ∃ b tup' state', HeapTupleSatisfiesMVCC env buf snap tup state = Ok (b, tup', state') ∧
    b = mvcc_visible env snap tup ∧ tuple_ok env tup' ∧
    ∀ snap', mvcc_visible env snap' tup' = mvcc_visible env snap' tup.
Proof.
  intros Hok. destruct (HeapTupleSatisfiesMVCC_ok env buf snap tup state Hok)
    as ([[b t] s] & Hr & H). by exists b, t, s.
Qed.

Lemma own_row_ok cid : tuple_ok example_env (own_row cid).
Proof. by split. Qed.

Lemma mvcc_correct_witness :
  (∃ t s, HeapTupleSatisfiesMVCC example_env example_buf (example_snap 1) (own_row 1) None
     = Ok (false, t, s)) ∧
  (∃ t s, HeapTupleSatisfiesMVCC example_env example_buf (example_snap 2) (own_row 1) None
     = Ok (true, t, s)).
Proof.
  destruct (mvcc_correct example_env example_buf (example_snap 1) (own_row 1) None (own_row_ok 1))
    as (b1 & t1 & s1 & H1 & E1 & _).
  destruct (mvcc_correct example_env example_buf (example_snap 2) (own_row 1) None (own_row_ok 1))
    as (b2 & t2 & s2 & H2 & E2 & _).
  split; [exists t1, s1|exists t2, s2]; [rewrite H1, E1|rewrite H2, E2]; reflexivity.
Defined.

(** [XidInMVCCSnapshot] works on 32-bit ids that wrap around; within the
    window of 2^31 transactions the system keeps, it answers as if ids were
    unbounded: a transaction counts as running if it started after the snapshot
    or is one of those the snapshot lists. *)
Theorem xid_in_snapshot_correct env r cid x : running_ok r → normal_xid x →
  - 2 ^ 31 ≤ x - run_xmin r < 2 ^ 31 → - 2 ^ 31 ≤ x - run_xmax r < 2 ^ 31 →
  XidInMVCCSnapshot env (u32 x) (snapshot_of r cid) =
    bool_decide (run_xmax r ≤ x ∨ x ∈ run_xip r ++ run_subxip r).
Proof.
  intros [Hb [Hn1 Hn2] Hw] Hx Hd1 Hd2. unfold XidInMVCCSnapshot; simpl.
  destruct (precedes_full x (run_xmin r)) as [-> _]; [done..|].
  destruct (precedes_full x (run_xmax r)) as [_ ->]; [done..|].
  assert (Hin : x ∈ run_xip r ++ run_subxip r → run_xmin r ≤ x < run_xmax r).
  { intros Hx'. by apply (proj1 (list.Forall_forall _ _) Hb). }
  destruct (Z.ltb_spec x (run_xmin r)).
  { rewrite bool_decide_false; [done|]. intros [?|?%Hin]; lia. }
  destruct (Z.leb_spec (run_xmax r) x); [by rewrite bool_decide_true by auto|].
  assert (Hwin : Forall (λ y, - 2 ^ 31 ≤ x - y < 2 ^ 31) (run_xip r ++ run_subxip r)).
  { eapply list.Forall_impl; [exact Hb|]. simpl. lia. }
  apply Forall_app in Hwin as [Hw1 Hw2]. rewrite !lfind_full by done.
  destruct (decide (x ∈ run_subxip r)) as [Hs|Hs].
  - rewrite !bool_decide_true; [done| |done]. right. apply elem_of_app. by right.
  - rewrite (bool_decide_false (x ∈ run_subxip r)) by done.
    apply bool_decide_ext. rewrite elem_of_app. split; [by auto|]. intros [?|[?|?]]; [lia|done|done].
Qed.

Lemma xid_in_snapshot_correct_witness :
  let r := mkRunning (2 ^ 32 - 2) (2 ^ 32 + 10) [2 ^ 32 - 2; 2 ^ 32 + 4] [] in
  XidInMVCCSnapshot example_env (u32 (2 ^ 32 + 4)) (snapshot_of r 0) = true ∧
  XidInMVCCSnapshot example_env (u32 (2 ^ 32 + 5)) (snapshot_of r 0) = false.
Proof.
  intros r. assert (Hr : running_ok r).
  { split; [|by split; split|split; done]. repeat constructor; simpl; lia. }
  split.
  - rewrite (xid_in_snapshot_correct example_env r 0 (2 ^ 32 + 4) Hr); [by vm_compute|by split|split; done..].
  - rewrite (xid_in_snapshot_correct example_env r 0 (2 ^ 32 + 5) Hr); [by vm_compute|by split|split; done..].
Defined.
