(* ===== verification/Clog.v ===== *)
(** * The commit log

    [clog.c]: two status bits per transaction, packed four to a byte and 32768
    to a page, and the order in which a commit or an abort of a transaction with
    its committed subtransactions writes them ([TransactionIdSetTreeStatus]).
    [subtrans.c]: the parent of a subtransaction.  [transam.c]: the status of a
    transaction as a reader finds it, with its one-entry cache.

    A tree status change is the list of its single bit-field writes, so that its
    intermediate states can be named.  The theorems show that a status survives
    writes to the other transactions of its byte, and that the commit of a tree
    is atomic to a reader: after every single write either all transactions of
    the tree have committed or none has. *)
From stdpp Require Import base tactics list gmap numbers.
From Stdlib Require Import ZArith Lia Bool.
From S2P Require Import Prelude Visibility.

(** ** Pages, bytes and bits *)

Definition CLOG_BITS_PER_XACT : Z := 2.

Definition CLOG_XACTS_PER_BYTE : Z := 4.

Definition CLOG_XACTS_PER_PAGE : Z := BLCKSZ * CLOG_XACTS_PER_BYTE.

Definition CLOG_XACT_BITMASK : Z := Z.shiftl 1 CLOG_BITS_PER_XACT - 1.

Definition TransactionIdToPage (xid : Z) : Z := xid / CLOG_XACTS_PER_PAGE.

Definition TransactionIdToPgIndex (xid : Z) : Z := xid mod CLOG_XACTS_PER_PAGE.

Definition TransactionIdToByte (xid : Z) : Z := TransactionIdToPgIndex xid / CLOG_XACTS_PER_BYTE.

Definition TransactionIdToBIndex (xid : Z) : Z := xid mod CLOG_XACTS_PER_BYTE.

Definition TRANSACTION_STATUS_IN_PROGRESS : Z := 0.

Definition TRANSACTION_STATUS_COMMITTED : Z := 1.

Definition TRANSACTION_STATUS_ABORTED : Z := 2.

Definition TRANSACTION_STATUS_SUB_COMMITTED : Z := 3.

(** The pages, as bytes at (page, offset); a byte never written is zero. *)
Abbreviation clog := (gmap (Z * Z) Z).

Definition page_buffer (c : clog) (pageno byteno : Z) : Z := default 0 (c !! (pageno, byteno)).

(** Outside of recovery. *)
Definition TransactionIdSetStatusBit (xid status : Z) (c : clog) : clog :=
  let pageno := TransactionIdToPage xid in
  let byteno := TransactionIdToByte xid in
  let bshift := TransactionIdToBIndex xid * CLOG_BITS_PER_XACT in
  let byteval := page_buffer c pageno byteno in
  let byteval := Z.land byteval (Z.lnot (Z.shiftl (Z.shiftl 1 CLOG_BITS_PER_XACT - 1) bshift)) in
  let byteval := Z.lor byteval (Z.shiftl status bshift) in
  <[(pageno, byteno) := wrap_u 8 byteval]> c.

Definition TransactionIdGetStatus (c : clog) (xid : Z) : Z :=
  let bshift := TransactionIdToBIndex xid * CLOG_BITS_PER_XACT in
  Z.land (Z.shiftr (page_buffer c (TransactionIdToPage xid) (TransactionIdToByte xid)) bshift)
    CLOG_XACT_BITMASK.

(** [SimpleLruZeroPage]: every byte of the page becomes zero. *)
Definition SimpleLruZeroPage (pageno : Z) (c : clog) : clog :=
  filter (λ kv, kv.1.1 ≠ pageno) c.

Definition ExtendCLOG (newestXact : Z) (c : clog) : clog :=
  if negb (TransactionIdToPgIndex newestXact =? 0) && negb (newestXact =? FirstNormalTransactionId) then c
  else SimpleLruZeroPage (TransactionIdToPage newestXact) c.

(** ** The writes of a tree status change *)

(** One call of [TransactionIdSetStatusBit]. *)
Definition write : Type := Z * Z.

Definition mark (status : Z) (xids : list Z) : list write := (λ x, (x, status)) <$> xids.

Definition run_writes (ws : list write) (c : clog) : clog :=
  foldl (λ c w, TransactionIdSetStatusBit w.1 w.2 c) c ws.

Definition InvalidTransactionId : Z := 0.

Definition TransactionIdIsValid (xid : Z) : bool := negb (xid =? InvalidTransactionId).

Definition TransactionIdSetPageStatusInternal (xid : Z) (subxids : list Z) (status : Z) : list write :=
  (if TransactionIdIsValid xid then
     (if status =? TRANSACTION_STATUS_COMMITTED then mark TRANSACTION_STATUS_SUB_COMMITTED subxids
      else []) ++ [(xid, status)]
   else []) ++ mark status subxids.

(** With or without the help of a group leader, the update is the one above. *)
Definition TransactionIdSetPageStatus (xid : Z) (subxids : list Z) (status : Z) : list write :=
  TransactionIdSetPageStatusInternal xid subxids status.

(** The inner loop of [set_status_by_pages]: the transactions from the front
    of the array that are on the page, and the others. *)
Fixpoint num_on_page (pageno : Z) (subxids : list Z) : nat :=
  match subxids with
  | x :: xs => if TransactionIdToPage x =? pageno then S (num_on_page pageno xs) else 0
  | [] => 0
  end.

Fixpoint set_status_loop (fuel : nat) (pageno : Z) (subxids : list Z) (status : Z) : list write :=
  match fuel, subxids with
  | S fuel', _ :: _ =>
      let n := num_on_page pageno subxids in
      let rest := drop n subxids in
      let nextpageno := match rest with x :: _ => TransactionIdToPage x | [] => pageno end in
      TransactionIdSetPageStatus InvalidTransactionId (take n subxids) status ++
      set_status_loop fuel' nextpageno rest status
  | _, _ => []
  end.

Definition set_status_by_pages (subxids : list Z) (status : Z) : list write :=
  match subxids with
  | x :: _ => set_status_loop (length subxids) (TransactionIdToPage x) subxids status
  | [] => []
  end.

Definition TransactionIdSetTreeStatus (xid : Z) (subxids : list Z) (status : Z) : list write :=
  let i := num_on_page (TransactionIdToPage xid) subxids in
  if (i =? length subxids)%nat then TransactionIdSetPageStatus xid subxids status
  else
    (if status =? TRANSACTION_STATUS_COMMITTED
     then set_status_by_pages (drop i subxids) TRANSACTION_STATUS_SUB_COMMITTED else []) ++
    TransactionIdSetPageStatus xid (take i subxids) status ++
    set_status_by_pages (drop i subxids) status.

Definition TransactionIdCommitTree (xid : Z) (xids : list Z) : list write :=
  TransactionIdSetTreeStatus xid xids TRANSACTION_STATUS_COMMITTED.

Definition TransactionIdAbortTree (xid : Z) (xids : list Z) : list write :=
  TransactionIdSetTreeStatus xid xids TRANSACTION_STATUS_ABORTED.

(** ** Readers *)

Abbreviation subtrans := (gmap Z Z).

Definition SubTransSetParent (xid parent : Z) (s : subtrans) : subtrans :=
  if default InvalidTransactionId (s !! xid) =? parent then s else <[xid := parent]> s.

Definition SubTransGetParent (s : subtrans) (xid : Z) : Z :=
  if negb (TransactionIdIsNormal xid) then InvalidTransactionId
  else default InvalidTransactionId (s !! xid).

Definition BootstrapTransactionId : Z := 1.

Definition FrozenTransactionId : Z := 2.

(** [cachedFetchXid] and [cachedFetchXidStatus] *)
Definition fetch_cache : Type := Z * Z.

Definition TransactionLogFetch (c : clog) (cache : fetch_cache) (xid : Z) : fetch_cache * Z :=
  if xid =? cache.1 then (cache, cache.2)
  else if negb (TransactionIdIsNormal xid) then
    (cache, if xid =? BootstrapTransactionId then TRANSACTION_STATUS_COMMITTED
            else if xid =? FrozenTransactionId then TRANSACTION_STATUS_COMMITTED
            else TRANSACTION_STATUS_ABORTED)
  else
    let xidstatus := TransactionIdGetStatus c xid in
    (if negb (xidstatus =? TRANSACTION_STATUS_IN_PROGRESS) &&
        negb (xidstatus =? TRANSACTION_STATUS_SUB_COMMITTED) then (xid, xidstatus) else cache,
     xidstatus).

(** [TransactionIdDidCommit] and [TransactionIdDidAbort] walk up the parents of
    subcommitted transactions; [None] when the fuel does not suffice. *)
Fixpoint TransactionIdDidCommit (fuel : nat) (c : clog) (s : subtrans) (TransactionXmin : Z)
    (cache : fetch_cache) (xid : Z) : option (fetch_cache * bool) :=
  match fuel with
  | O => None
  | S fuel' =>
      let '(cache', xidstatus) := TransactionLogFetch c cache xid in
      if xidstatus =? TRANSACTION_STATUS_COMMITTED then Some (cache', true)
      else if xidstatus =? TRANSACTION_STATUS_SUB_COMMITTED then
        if TransactionIdPrecedes xid TransactionXmin then Some (cache', false)
        else
          let parentXid := SubTransGetParent s xid in
          if negb (TransactionIdIsValid parentXid) then Some (cache', false)
          else TransactionIdDidCommit fuel' c s TransactionXmin cache' parentXid
      else Some (cache', false)
  end.

Fixpoint TransactionIdDidAbort (fuel : nat) (c : clog) (s : subtrans) (TransactionXmin : Z)
    (cache : fetch_cache) (xid : Z) : option (fetch_cache * bool) :=
  match fuel with
  | O => None
  | S fuel' =>
      let '(cache', xidstatus) := TransactionLogFetch c cache xid in
      if xidstatus =? TRANSACTION_STATUS_ABORTED then Some (cache', true)
      else if xidstatus =? TRANSACTION_STATUS_SUB_COMMITTED then
        if TransactionIdPrecedes xid TransactionXmin then Some (cache', true)
        else
          let parentXid := SubTransGetParent s xid in
          if negb (TransactionIdIsValid parentXid) then Some (cache', true)
          else TransactionIdDidAbort fuel' c s TransactionXmin cache' parentXid
      else Some (cache', false)
  end.

(** [TransactionIdLatest] scans the array from the back. *)
Definition TransactionIdLatest (mainxid : Z) (xids : list Z) : Z :=
  foldr (λ x result, if TransactionIdPrecedes result x then x else result) mainxid xids.

(** ** What the theorems assume *)

Definition xid32 (x : Z) : Prop := 3 ≤ x < 2 ^ 32.

(** The transactions of one commit: the subtransactions in the order in which
    they got their ids, each with its parent in [pg_subtrans], and none of them
    older than the reader's [TransactionXmin]. *)
Record xact_tree (s : subtrans) (TransactionXmin xid : Z) (children : list Z) : Prop := mkTree {
  tree_nodup : NoDup (xid :: children);
  tree_ids : Forall xid32 (xid :: children);
  tree_parent : ∀ i x, children !! i = Some x → SubTransGetParent s x ∈ xid :: take i children;
  tree_xmin : Forall (λ x, TransactionIdPrecedes x TransactionXmin = false) children
}.

(** A cache entry repeats a final status of the log. *)
Definition cache_ok (c : clog) (cache : fetch_cache) : Prop :=
  cache.1 = InvalidTransactionId ∨
  (cache.2 = TransactionIdGetStatus c cache.1 ∧
   (cache.2 = TRANSACTION_STATUS_COMMITTED ∨ cache.2 = TRANSACTION_STATUS_ABORTED)).

(** ** The bit fields *)

Lemma shift_cases xid : ∃ k, TransactionIdToBIndex xid * CLOG_BITS_PER_XACT = k ∧
  (k = 0 ∨ k = 2 ∨ k = 4 ∨ k = 6).
Proof.
  unfold TransactionIdToBIndex, CLOG_XACTS_PER_BYTE, CLOG_BITS_PER_XACT.
  pose proof (Z.mod_pos_bound xid 4). eexists. split; [done|]. lia.
Qed.

(** The place of a transaction in the log determines it. *)
Lemma place_inj x y :
  TransactionIdToPage x = TransactionIdToPage y → TransactionIdToByte x = TransactionIdToByte y →
  TransactionIdToBIndex x * CLOG_BITS_PER_XACT = TransactionIdToBIndex y * CLOG_BITS_PER_XACT → x = y.
Proof.
  unfold TransactionIdToPage, TransactionIdToByte, TransactionIdToPgIndex, TransactionIdToBIndex,
    CLOG_XACTS_PER_BYTE, CLOG_BITS_PER_XACT.
  change CLOG_XACTS_PER_PAGE with 32768. intros Hp Hb Hi. Z.to_euclidean_division_equations. lia.
Qed.

Lemma field_bits b k : 0 ≤ k →
  Z.land (Z.shiftr b k) CLOG_XACT_BITMASK = Z.b2z (Z.testbit b k) + 2 * Z.b2z (Z.testbit b (k + 1)).
Proof.
  intros Hk. change CLOG_XACT_BITMASK with (Z.ones 2). rewrite Z.land_ones by lia.
  change (2 ^ 2) with (2 * 2). rewrite Z.rem_mul_r by lia.
  rewrite <- !Z.bit0_mod, <- Z.div2_div, Z.div2_spec, Z.shiftr_shiftr, !Z.bit0_mod, <- !Z.bit0_mod by lia.
  rewrite !Z.shiftr_spec by lia. by rewrite Z.add_0_l, Z.add_0_l.
Qed.

Lemma set_field_bit b st k j n : 0 ≤ st < 4 → 0 ≤ k → 0 ≤ j → 0 ≤ n < 2 → j + n < 8 →
  (j + 2 ≤ k ∨ k + 2 ≤ j ∨ j = k) →
  Z.testbit (wrap_u 8 (Z.lor (Z.land b (Z.lnot (Z.shiftl (Z.shiftl 1 CLOG_BITS_PER_XACT - 1) k)))
    (Z.shiftl st k))) (j + n) =
  if j =? k then Z.testbit st n else Z.testbit b (j + n).
Proof.
  intros Hst Hk Hj Hn H8 Hc. unfold wrap_u. rewrite Z.mod_pow2_bits_low by lia.
  rewrite Z.lor_spec, Z.land_spec, Z.lnot_spec by lia. rewrite !Z.shiftl_spec by lia.
  change (Z.shiftl 1 CLOG_BITS_PER_XACT - 1) with (Z.ones 2).
  destruct (Z.eqb_spec j k) as [->|Hne].
  - replace (k + n - k) with n by lia. rewrite Z.ones_spec_low by lia. simpl. by rewrite andb_false_r.
  - destruct Hc as [Hc|[Hc|Hc]]; [ | | lia].
    + rewrite (Z.testbit_neg_r (Z.ones 2)), (Z.testbit_neg_r st) by lia. simpl. by rewrite andb_true_r, orb_false_r.
    + rewrite Z.ones_spec_high by lia. simpl.
      rewrite <- (Z.mod_small st (2 ^ 2)), Z.mod_pow2_bits_high by (simpl; lia).
      by rewrite andb_true_r, orb_false_r.
Qed.

Lemma status_field st : 0 ≤ st < 4 → st = Z.b2z (Z.testbit st 0) + 2 * Z.b2z (Z.testbit st 1).
Proof. intros H. assert (st = 0 ∨ st = 1 ∨ st = 2 ∨ st = 3) as Hc by lia. by destruct Hc as [->|[->|[->| ->]]]. Qed.

(** A status that was written is read back, and the statuses of the other
    transactions, those in the same byte included, stay. *)
Lemma get_set_status c xid st x : 0 ≤ st < 4 →
  TransactionIdGetStatus (TransactionIdSetStatusBit xid st c) x =
  if x =? xid then st else TransactionIdGetStatus c x.
Proof.
  intros Hst. unfold TransactionIdGetStatus, TransactionIdSetStatusBit, page_buffer. cbv zeta.
  destruct (shift_cases xid) as (k & Hk & Hkc), (shift_cases x) as (j & Hj & Hjc). rewrite Hk, Hj.
  destruct (decide ((TransactionIdToPage xid, TransactionIdToByte xid) =
                    (TransactionIdToPage x, TransactionIdToByte x))) as [He|Hne].
  - injection He as Hp Hb. rewrite Hp, Hb, lookup_insert_eq. simpl.
    rewrite field_bits by lia. rewrite <- (Z.add_0_r j) at 1.
    rewrite !set_field_bit by lia. destruct (Z.eqb_spec x xid) as [->|Hx].
    + assert (j = k) as -> by congruence. rewrite Z.eqb_refl. symmetry. by apply status_field.
    + rewrite (proj2 (Z.eqb_neq j k)) by (intros ->; apply Hx, place_inj; congruence).
      rewrite Z.add_0_r. symmetry. apply field_bits. lia.
  - rewrite lookup_insert_ne by done. by rewrite (proj2 (Z.eqb_neq x xid)) by congruence.
Qed.

Lemma run_writes_app ws ws' c : run_writes (ws ++ ws') c = run_writes ws' (run_writes ws c).
Proof. apply foldl_app. Qed.

Lemma run_mark st xids c x : 0 ≤ st < 4 →
  TransactionIdGetStatus (run_writes (mark st xids) c) x =
  if bool_decide (x ∈ xids) then st else TransactionIdGetStatus c x.
Proof.
  intros Hst. revert c. induction xids as [|y xids IH]; intros c; [done|].
  change (run_writes (mark st (y :: xids)) c) with (run_writes (mark st xids) (TransactionIdSetStatusBit y st c)).
  rewrite IH, get_set_status by done.
  destruct (Z.eqb_spec x y) as [->|Hne].
  - rewrite (bool_decide_eq_true_2 (y ∈ y :: xids)) by left. by destruct (bool_decide _).
  - by rewrite (bool_decide_ext (x ∈ y :: xids) (x ∈ xids)) by (rewrite elem_of_cons; split; [by intros [?|?]|by right]).
Qed.

(** A page that is zeroed holds only transactions in progress. *)
Lemma zero_page_status pageno c x :
  TransactionIdGetStatus (SimpleLruZeroPage pageno c) x =
  if TransactionIdToPage x =? pageno then TRANSACTION_STATUS_IN_PROGRESS else TransactionIdGetStatus c x.
Proof.
  unfold TransactionIdGetStatus, SimpleLruZeroPage, page_buffer. destruct (Z.eqb_spec (TransactionIdToPage x) pageno) as [He|Hne].
  - rewrite (proj2 (map_lookup_filter_None _ _ _)) by (right; intros v _ H; simpl in H; congruence).
    simpl. by rewrite Z.shiftr_0_l.
  - f_equal. f_equal. f_equal. destruct (c !! (TransactionIdToPage x, TransactionIdToByte x)) as [v|] eqn:Hl.
    + by apply map_lookup_filter_Some.
    + apply map_lookup_filter_None. by left.
Qed.

(** ** The order of the writes *)

Lemma mark_app st xs ys : mark st (xs ++ ys) = mark st xs ++ mark st ys.
Proof. apply fmap_app. Qed.

Lemma num_on_page_pos x xs : (0 < num_on_page (TransactionIdToPage x) (x :: xs))%nat.
Proof. simpl. rewrite Z.eqb_refl. lia. Qed.

Lemma set_status_loop_mark fuel x xs st : (length (x :: xs) ≤ fuel)%nat →
  set_status_loop fuel (TransactionIdToPage x) (x :: xs) st = mark st (x :: xs).
Proof.
  revert x xs. induction fuel as [|fuel IH]; intros x xs Hf; [simpl in Hf; lia|].
  pose proof (num_on_page_pos x xs) as Hn. cbn [set_status_loop].
  set (n := num_on_page _ _) in *. rewrite <- (take_drop n (x :: xs)) at 4. rewrite mark_app.
  change (TransactionIdSetPageStatus InvalidTransactionId (take n (x :: xs)) st) with (mark st (take n (x :: xs))).
  f_equal. destruct (drop n (x :: xs)) as [|y ys] eqn:Hd.
  - by destruct fuel.
  - apply IH. rewrite <- Hd, length_drop. simpl in *. lia.
Qed.

Lemma set_status_by_pages_mark xs st : set_status_by_pages xs st = mark st xs.
Proof. destruct xs; [done|]. by apply set_status_loop_mark. Qed.

Lemma num_on_page_le pageno xs : (num_on_page pageno xs ≤ length xs)%nat.
Proof. induction xs as [|x xs IH]; simpl; [lia|]. destruct (_ =? _); lia. Qed.

(** A commit marks every subtransaction subcommitted, then the transaction
    itself committed, and then the subtransactions. *)
Lemma commit_tree_writes xid xids : TransactionIdIsValid xid = true →
  ∃ early, Permutation early xids ∧
    TransactionIdCommitTree xid xids =
      mark TRANSACTION_STATUS_SUB_COMMITTED early ++ (xid, TRANSACTION_STATUS_COMMITTED) ::
      mark TRANSACTION_STATUS_COMMITTED xids.
Proof.
  intros Hv. unfold TransactionIdCommitTree, TransactionIdSetTreeStatus, TransactionIdSetPageStatus,
    TransactionIdSetPageStatusInternal. rewrite Hv, Z.eqb_refl.
  set (n := num_on_page _ _). destruct (Nat.eqb_spec n (length xids)) as [_|_].
  - exists xids. split; [done|]. by rewrite <- app_assoc.
  - exists (drop n xids ++ take n xids). split; [by rewrite Permutation_app_comm, take_drop|].
    rewrite !set_status_by_pages_mark, mark_app, <- !app_assoc. simpl. rewrite <- mark_app, take_drop. done.
Qed.

Lemma abort_tree_writes xid xids : TransactionIdIsValid xid = true →
  TransactionIdAbortTree xid xids = mark TRANSACTION_STATUS_ABORTED (xid :: xids).
Proof.
  intros Hv. unfold TransactionIdAbortTree, TransactionIdSetTreeStatus, TransactionIdSetPageStatus,
    TransactionIdSetPageStatusInternal. rewrite Hv. change (TRANSACTION_STATUS_ABORTED =? TRANSACTION_STATUS_COMMITTED) with false.
  set (n := num_on_page _ _). destruct (Nat.eqb_spec n (length xids)) as [_|_]; [done|].
  rewrite !set_status_by_pages_mark. simpl. by rewrite <- mark_app, take_drop.
Qed.

(** ** Readers of a tree *)

Lemma fetch_status c cache x : cache_ok c cache → xid32 x →
  ∃ cache', TransactionLogFetch c cache x = (cache', TransactionIdGetStatus c x) ∧ cache_ok c cache'.
Proof.
  intros Hc [Hx _]. unfold TransactionLogFetch. destruct (Z.eqb_spec x cache.1) as [->|Hne].
  { destruct Hc as [H0|[He Hf]]; [rewrite H0 in Hx; unfold InvalidTransactionId in Hx; lia|].
    rewrite <- He. exists cache. split; [done|]. by right. }
  unfold TransactionIdIsNormal, FirstNormalTransactionId. rewrite (proj2 (Z.leb_le 3 x)) by done. cbn [negb].
  eexists. split; [done|]. destruct (Z.eqb_spec (TransactionIdGetStatus c x) TRANSACTION_STATUS_IN_PROGRESS) as [|H1]; [done|].
  destruct (Z.eqb_spec (TransactionIdGetStatus c x) TRANSACTION_STATUS_SUB_COMMITTED) as [|H3]; [done|].
  right. split; [done|]. simpl. pose proof (field_bits (page_buffer c (TransactionIdToPage x) (TransactionIdToByte x))
    (TransactionIdToBIndex x * CLOG_BITS_PER_XACT)) as Hb. fold (TransactionIdGetStatus c x) in Hb.
  destruct (shift_cases x) as (k & Hk & Hkc). rewrite Hb in H1, H3 |- * by lia.
  by destruct (Z.testbit _ _), (Z.testbit _ _); auto.
Qed.

Lemma not_sub_committed_zero x : xid32 x → TransactionIdIsValid x = true.
Proof. intros [H _]. unfold TransactionIdIsValid, InvalidTransactionId. apply negb_true_iff, Z.eqb_neq. lia. Qed.

Section tree.
  Context (s : subtrans) (TransactionXmin xid : Z) (children : list Z).
  Context (Htree : xact_tree s TransactionXmin xid children).

Lemma tree_xid32 x : x ∈ xid :: children → xid32 x.
Proof. intros H. by apply (proj1 (list.Forall_forall _ _) (tree_ids _ _ _ _ Htree)). Qed.

(** A member other than the root has its parent at a smaller index. *)
Lemma tree_up (i : nat) x : (xid :: children) !! i = Some x →
  (i = O ∧ x = xid) ∨
  ∃ j : nat, (j < i)%nat ∧ (xid :: children) !! j = Some (SubTransGetParent s x) ∧
    x ∈ children ∧ TransactionIdPrecedes x TransactionXmin = false.
Proof.
  destruct i as [|i]; intros Hx; [left; split; [done|]; by injection Hx as ->|]. right. simpl in Hx.
  pose proof (tree_parent _ _ _ _ Htree i x Hx) as Hp. pose proof (list_elem_of_lookup_2 _ _ _ Hx) as Hin.
  apply list_elem_of_lookup in Hp as [j Hj].
  assert (j < S i)%nat by (apply lookup_lt_Some in Hj; simpl in Hj; rewrite length_take in Hj; lia).
  exists j. split_and!; [done| |done|by apply (proj1 (list.Forall_forall _ _) (tree_xmin _ _ _ _ Htree))].
  destruct j as [|j]; [done|]. simpl in *. by apply lookup_take_Some in Hj as [? _].
Qed.

(** While the root has not committed and no member is marked committed, no
  member reads as committed; once the root is, all members do. *)
Lemma tree_reads c (b : bool) :
  (if b then TransactionIdGetStatus c xid = TRANSACTION_STATUS_COMMITTED ∧
     Forall (λ x, TransactionIdGetStatus c x = TRANSACTION_STATUS_COMMITTED ∨
                  TransactionIdGetStatus c x = TRANSACTION_STATUS_SUB_COMMITTED) children
   else TransactionIdGetStatus c xid ≠ TRANSACTION_STATUS_COMMITTED ∧
     TransactionIdGetStatus c xid ≠ TRANSACTION_STATUS_SUB_COMMITTED ∧
     Forall (λ x, TransactionIdGetStatus c x ≠ TRANSACTION_STATUS_COMMITTED) children) →
  ∀ (i fuel : nat) cache x, (xid :: children) !! i = Some x → (i < fuel)%nat → cache_ok c cache →
    ∃ cache', TransactionIdDidCommit fuel c s TransactionXmin cache x = Some (cache', b) ∧ cache_ok c cache'.
Proof.
  intros Hb i. induction (lt_wf i) as [i _ IH]; intros fuel cache x Hx Hf Hc.
  destruct fuel as [|fuel]; [lia|]. pose proof (list_elem_of_lookup_2 _ _ _ Hx) as Hin.
  destruct (fetch_status c cache x Hc (tree_xid32 x Hin)) as (cache' & Hfetch & Hc').
  cbn [TransactionIdDidCommit]. rewrite Hfetch.
  destruct (tree_up i x Hx) as [[-> ->]|(j & Hj & Hp & Hch & Hxm)].
  - destruct b.
    + destruct Hb as [-> _]. by exists cache'.
    + destruct Hb as (H1 & H3 & _). apply Z.eqb_neq in H1, H3. rewrite H1, H3. by exists cache'.
  - rewrite Hxm. pose proof (list_elem_of_lookup_2 _ _ _ Hp) as Hpin.
    rewrite (not_sub_committed_zero _ (tree_xid32 _ Hpin)). cbn [negb].
    pose proof (IH j Hj fuel cache' _ Hp ltac:(lia) Hc') as Hrec.
    destruct b.
    + destruct Hb as [_ Hb]. rewrite list.Forall_forall in Hb.
      destruct (Hb x Hch) as [-> | ->]; [by exists cache'|]. done.
    + destruct Hb as (_ & _ & Hb). rewrite list.Forall_forall in Hb. apply Hb, Z.eqb_neq in Hch. rewrite Hch.
      destruct (_ =? TRANSACTION_STATUS_SUB_COMMITTED); [done|]. by exists cache'.
Qed.
End tree.

Lemma write_status ws c x : Forall (λ w, 0 ≤ w.2 < 4) ws → x ∉ ws.*1 →
  TransactionIdGetStatus (run_writes ws c) x = TransactionIdGetStatus c x.
Proof.
  revert c. induction ws as [|[y st] ws IH]; intros c Hf Hx; [done|].
  apply list.Forall_cons in Hf as [Hst Hf]. simpl in Hx, Hst. apply not_elem_of_cons in Hx as [Hne Hx].
  change (run_writes ((y, st) :: ws) c) with (run_writes ws (TransactionIdSetStatusBit y st c)).
  rewrite IH, get_set_status by done. by rewrite (proj2 (Z.eqb_neq x y)).
Qed.

Lemma take_mark n st xs : take n (mark st xs) = mark st (take n xs).
Proof. symmetry. apply fmap_take. Qed.

(** The writes of a commit up to some moment. *)
Lemma commit_prefix xid xids n : TransactionIdIsValid xid = true →
  ∃ early late, early ⊆ xids ∧ late ⊆ xids ∧
    take n (TransactionIdCommitTree xid xids) =
      (if (n <=? length xids)%nat then mark TRANSACTION_STATUS_SUB_COMMITTED early
      else mark TRANSACTION_STATUS_SUB_COMMITTED early ++ (xid, TRANSACTION_STATUS_COMMITTED) ::
           mark TRANSACTION_STATUS_COMMITTED late) ∧
    ((length xids < n)%nat → xids ⊆ early).
Proof.
  intros Hv. destruct (commit_tree_writes xid xids Hv) as (early & Hperm & ->).
  pose proof (Permutation_length Hperm) as Hlen.
  destruct (Nat.leb_spec n (length xids)) as [Hn|Hn].
  - exists (take n early), []. split_and!; [|by apply list_subseteq_nil| |lia].
    + intros x Hx. rewrite <- Hperm. by apply elem_of_take in Hx as (i & Hx%list_elem_of_lookup_2 & _).
    + rewrite take_app_le by (unfold mark; rewrite length_fmap; lia). apply take_mark.
  - destruct (n - length xids)%nat as [|k] eqn:Hk; [lia|]. exists early, (take k xids). split_and!.
    + intros x Hx. by rewrite <- Hperm.
    + intros x Hx. by apply elem_of_take in Hx as (i & Hx%list_elem_of_lookup_2 & _).
    + rewrite take_app_ge by (unfold mark; rewrite length_fmap; lia). f_equal.
      unfold mark at 1. rewrite length_fmap, Hlen, Hk.
      cbn [take]. f_equal. apply take_mark.
    + intros _ x Hx. by rewrite Hperm.
Qed.

Lemma commit_prefix_written xid xids n w : TransactionIdIsValid xid = true →
  w ∈ take n (TransactionIdCommitTree xid xids) → w.1 ∈ xid :: xids ∧ 0 ≤ w.2 < 4.
Proof.
  intros Hv Hw. apply elem_of_take in Hw as (i & Hw%list_elem_of_lookup_2 & _).
  destruct (commit_tree_writes xid xids Hv) as (early & Hperm & He). rewrite He in Hw.
  apply elem_of_app in Hw as [Hw|[->|Hw]%elem_of_cons]; [| split; [left|done] |];
    apply list_elem_of_fmap in Hw as (y & -> & Hy); (split; [right; by rewrite ?Hperm in Hy|done]).
Qed.

(** The statuses of the tree at a moment of its commit. *)
Lemma commit_prefix_status xid xids n c : NoDup (xid :: xids) → Forall xid32 (xid :: xids) →
  Forall (λ x, TransactionIdGetStatus c x = TRANSACTION_STATUS_IN_PROGRESS) (xid :: xids) →
  let c' := run_writes (take n (TransactionIdCommitTree xid xids)) c in
  if (n <=? length xids)%nat then
    TransactionIdGetStatus c' xid = TRANSACTION_STATUS_IN_PROGRESS ∧
    Forall (λ x, TransactionIdGetStatus c' x ≠ TRANSACTION_STATUS_COMMITTED) xids
  else
    TransactionIdGetStatus c' xid = TRANSACTION_STATUS_COMMITTED ∧
    Forall (λ x, TransactionIdGetStatus c' x = TRANSACTION_STATUS_COMMITTED ∨
                 TransactionIdGetStatus c' x = TRANSACTION_STATUS_SUB_COMMITTED) xids.
Proof.
  intros Hnd Hids Hin. cbv zeta. apply list.Forall_cons in Hin as [Hroot Hin], Hids as [Hid _]. apply list.NoDup_cons in Hnd as [Hnin _].
  destruct (commit_prefix xid xids n (not_sub_committed_zero _ Hid)) as (early & late & He & Hl & -> & Hall).
  destruct (Nat.leb_spec n (length xids)) as [Hn|Hn]; rewrite list.Forall_forall in *.
  - rewrite run_mark by done. rewrite bool_decide_eq_false_2 by (intros H; by apply Hnin, He). split; [done|].
    intros x Hx. rewrite run_mark by done. by case_bool_decide; [|rewrite (Hin x Hx)].
  - rewrite run_writes_app.
    change (run_writes ((xid, TRANSACTION_STATUS_COMMITTED) :: mark TRANSACTION_STATUS_COMMITTED late))
      with (run_writes (mark TRANSACTION_STATUS_COMMITTED (xid :: late))).
    split; [rewrite run_mark by done; by rewrite (bool_decide_eq_true_2 (xid ∈ xid :: late)) by left|].
    intros x Hx. rewrite !run_mark by done. rewrite (bool_decide_eq_true_2 (x ∈ early)) by exact (Hall Hn x Hx).
    destruct (bool_decide _); auto.
Qed.

(** The statuses after a commit. *)
Lemma commit_tree_status xid xids c x : TransactionIdIsValid xid = true →
  TransactionIdGetStatus (run_writes (TransactionIdCommitTree xid xids) c) x =
  if bool_decide (x ∈ xid :: xids) then TRANSACTION_STATUS_COMMITTED else TransactionIdGetStatus c x.
Proof.
  intros Hv. destruct (commit_tree_writes xid xids Hv) as (early & Hperm & ->). rewrite run_writes_app.
  change (run_writes ((xid, TRANSACTION_STATUS_COMMITTED) :: mark TRANSACTION_STATUS_COMMITTED xids))
    with (run_writes (mark TRANSACTION_STATUS_COMMITTED (xid :: xids))).
  rewrite !run_mark by done. case_bool_decide as Hin; [done|]. rewrite bool_decide_eq_false_2; [done|].
  intros He. apply Hin. right. by rewrite <- Hperm.
Qed.

(** ** Properties *)

(** C10.  The commit of a transaction with its subtransactions is atomic: at every
    moment of [TransactionIdCommitTree], that is after each single write of a
    status, a reader finds either all transactions of the tree committed or none,
    whatever its cache holds; they have committed from the moment the status of
    the transaction itself is written.  The status of every other transaction
    stays, and so do the cache entries of the readers. *)
Theorem commit_tree_atomic (s : subtrans) TransactionXmin xid xids c n :
  xact_tree s TransactionXmin xid xids →
  Forall (λ x, TransactionIdGetStatus c x = TRANSACTION_STATUS_IN_PROGRESS) (xid :: xids) →
  let c' := run_writes (take n (TransactionIdCommitTree xid xids)) c in
  (∀ x cache, x ∈ xid :: xids → cache_ok c' cache →
     ∃ cache', TransactionIdDidCommit (S (length xids)) c' s TransactionXmin cache x =
                 Some (cache', length xids <? n)%nat ∧ cache_ok c' cache') ∧
  (∀ x, x ∉ xid :: xids → TransactionIdGetStatus c' x = TransactionIdGetStatus c x) ∧
  (∀ cache, cache_ok c cache → cache_ok c' cache).
Proof.
  intros Htree Hin c'. pose proof (not_sub_committed_zero _ (tree_xid32 _ _ _ _ Htree xid ltac:(left))) as Hv.
  assert (Hother : ∀ x, x ∉ xid :: xids → TransactionIdGetStatus c' x = TransactionIdGetStatus c x).
  { intros x Hx. apply write_status; [apply list.Forall_forall; intros w Hw; by apply commit_prefix_written in Hw as [_ ?]|].
    intros (w & -> & Hw)%list_elem_of_fmap. by apply commit_prefix_written in Hw as [? _]. }
  split_and!; [|done|].
  - intros x cache Hx Hc. apply list_elem_of_lookup in Hx as [i Hi].
    pose proof (commit_prefix_status xid xids n c (tree_nodup _ _ _ _ Htree) (tree_ids _ _ _ _ Htree) Hin) as Hst.
    fold c' in Hst. eapply tree_reads; [done| |done| |done].
    + rewrite Nat.leb_antisym in Hst. destruct (length xids <? n)%nat; simpl in Hst; [done|].
      destruct Hst as [-> Hst]. done.
    + apply lookup_lt_Some in Hi. simpl in Hi. lia.
  - intros cache [H0|[Hs Hf]]; [by left|]. right. split; [|done]. rewrite Hother; [done|].
    intros Hx. rewrite list.Forall_forall in Hin. rewrite (Hin _ Hx) in Hs. by destruct Hf as [Hf|Hf]; rewrite Hf in Hs.
Qed.

Lemma commit_tree_atomic_witness :
  let s : subtrans := {[32770 := 32766; 32767 := 32766; 32769 := 32767]} in
  let c' := run_writes (take 5 (TransactionIdCommitTree 32766 [32767; 32769; 32770])) ∅ in
  ∃ cache', TransactionIdDidCommit 4 c' s 3 (0, 0) 32769 = Some (cache', true) ∧ cache_ok c' cache'.
Proof.
  refine (proj1 (commit_tree_atomic {[32770 := 32766; 32767 := 32766; 32769 := 32767]} 3 32766 [32767; 32769; 32770] ∅ 5
    _ _) 32769 (0, 0) _ _).
  - split.
    + apply (bool_decide_unpack _); vm_compute; done.
    + repeat constructor; unfold xid32; lia.
    + intros [|[|[|i]]] x H; simplify_eq/=; apply (bool_decide_unpack _); vm_compute; done.
    + by repeat constructor.
  - by repeat constructor.
  - apply (bool_decide_unpack _); vm_compute; done.
  - by left.
Defined.
