(* ===== verification/XidGen.v ===== *)
(** * Assignment of transaction ids

    [varsup.c]: the counter of 64-bit transaction ids in shared memory, the
    limits that keep it from wrapping around ([SetTransactionIdLimit]) and
    [GetNewTransactionId], which extends the commit log and [pg_subtrans] for
    the id it hands out.  On disk and in the comparisons of [transam.h] an id is
    its low 32 bits.

    The theorem shows that under the limits an id is never handed out when it is
    2^31 or more ahead of the oldest id that may still be stored, so that the
    modular comparison orders all ids in use by age, and that a new id starts
    out in progress in the commit log even when its page was used before. *)
From stdpp Require Import base tactics list gmap strings numbers.
From Stdlib Require Import ZArith Lia Bool.
From S2P Require Import Prelude Visibility Clog.

Definition XidFromFullTransactionId (x : Z) : Z := u32 x.

Definition MaxTransactionId : Z := 4294967295.

Definition FirstNormalFullTransactionId : Z := FirstNormalTransactionId.

(** The fields of [TransamVariables] the assignment uses. *)
Record TransamVariablesData : Type := mkTransam {
  nextXid : Z;                 (* a [FullTransactionId] *)
  oldestXid : Z;
  xidVacLimit : Z;
  xidWarnLimit : Z;
  xidStopLimit : Z;
  xidWrapLimit : Z;
  oldestXidDB : Z
}.

(** Shared memory, with the postmaster's flag for an autovacuum request. *)
Record shared : Type := mkShared {
  TransamVariables : TransamVariablesData;
  pg_xact : clog;
  pg_subtrans : subtrans;
  autovac_signal : bool
}.

Definition set_transam (v : TransamVariablesData) (sh : shared) : shared :=
  mkShared v (pg_xact sh) (pg_subtrans sh) (autovac_signal sh).

Definition set_pg_xact (c : clog) (sh : shared) : shared :=
  mkShared (TransamVariables sh) c (pg_subtrans sh) (autovac_signal sh).

Definition set_pg_subtrans (s : subtrans) (sh : shared) : shared :=
  mkShared (TransamVariables sh) (pg_xact sh) s (autovac_signal sh).

Definition SendPostmasterSignal (sh : shared) : shared :=
  mkShared (TransamVariables sh) (pg_xact sh) (pg_subtrans sh) true.

Definition set_nextXid (x : Z) (v : TransamVariablesData) : TransamVariablesData :=
  mkTransam x (oldestXid v) (xidVacLimit v) (xidWarnLimit v) (xidStopLimit v) (xidWrapLimit v)
    (oldestXidDB v).

(** The loop of [FullTransactionIdAdvance] runs at most three times. *)
Fixpoint skip_special (fuel : nat) (dest : Z) : Z :=
  match fuel with
  | O => dest
  | S fuel' =>
      if XidFromFullTransactionId dest <? FirstNormalTransactionId
      then skip_special fuel' (u64 (dest + 1)) else dest
  end.

Definition FullTransactionIdAdvance (dest : Z) : Z :=
  let dest := u64 (dest + 1) in
  if dest <? FirstNormalFullTransactionId then dest else skip_special 3 dest.

Definition SUBTRANS_XACTS_PER_PAGE : Z := BLCKSZ / 4.

Definition ExtendSUBTRANS (newestXact : Z) (s : subtrans) : subtrans :=
  if negb (newestXact mod SUBTRANS_XACTS_PER_PAGE =? 0) && negb (newestXact =? FirstNormalTransactionId) then s
  else filter (λ kv, kv.1 / SUBTRANS_XACTS_PER_PAGE ≠ newestXact / SUBTRANS_XACTS_PER_PAGE) s.

(** The limits that [SetTransactionIdLimit] computes. *)
Definition wrap_limit (oldest : Z) : Z :=
  let l := u32 (oldest + Z.shiftr MaxTransactionId 1) in
  if l <? FirstNormalTransactionId then u32 (l + FirstNormalTransactionId) else l.

Definition limit_before (wrap distance : Z) : Z :=
  let l := u32 (wrap - distance) in
  if l <? FirstNormalTransactionId then u32 (l - FirstNormalTransactionId) else l.

Definition vac_limit (oldest autovacuum_freeze_max_age : Z) : Z :=
  let l := u32 (oldest + autovacuum_freeze_max_age) in
  if l <? FirstNormalTransactionId then u32 (l + FirstNormalTransactionId) else l.

(** Under the postmaster and outside of recovery; the warning about the
    remaining ids is not part of the model. *)
Definition SetTransactionIdLimit (autovacuum_freeze_max_age oldest_datfrozenxid oldest_datoid : Z)
    (sh : shared) : shared :=
  let v := TransamVariables sh in
  let wrap := wrap_limit oldest_datfrozenxid in
  let vac := vac_limit oldest_datfrozenxid autovacuum_freeze_max_age in
  let sh := set_transam (mkTransam (nextXid v) oldest_datfrozenxid vac
    (limit_before wrap 100000000) (limit_before wrap 3000000) wrap oldest_datoid) sh in
  if TransactionIdFollowsOrEquals (XidFromFullTransactionId (nextXid v)) vac
  then SendPostmasterSignal sh else sh.

(** [GetNewTransactionId] as one step under [XidGenLock], in normal processing
    mode under the postmaster, without its last part that shows the id in the
    process array, which is [store_new_xid] of [ProcArray]. *)
Definition GetNewTransactionId (IsInParallelMode RecoveryInProgress : bool) : M shared Z := λ sh,
  if IsInParallelMode then (sh, Err (ErrReport "cannot assign TransactionIds during a parallel operation"))
  else if RecoveryInProgress then (sh, Err (ErrReport "cannot assign TransactionIds during recovery"))
  else
    let v := TransamVariables sh in
    let full_xid := nextXid v in
    let xid := XidFromFullTransactionId full_xid in
    let over := TransactionIdFollowsOrEquals xid (xidVacLimit v) in
    let sh := if over && (xid mod 65536 =? 0) then SendPostmasterSignal sh else sh in
    if over && TransactionIdFollowsOrEquals xid (xidStopLimit v) then
      (sh, Err (ErrReport "database is not accepting commands that assign new transaction IDs to avoid wraparound data loss in database"))
    else
      let sh := set_pg_xact (ExtendCLOG xid (pg_xact sh)) sh in
      let sh := set_pg_subtrans (ExtendSUBTRANS xid (pg_subtrans sh)) sh in
      (set_transam (set_nextXid (FullTransactionIdAdvance full_xid) v) sh, Ok full_xid).

(** ** Invariant *)

(** The ids that may be stored anywhere are those from [base] on. *)
Record limits_ok (base : Z) (v : TransamVariablesData) : Prop := mkLimitsOk {
  lim_base : normal_xid base;
  lim_next : normal_xid (nextXid v);
  lim_window : base ≤ nextXid v < base + 2 ^ 31 - 2900000;
  lim_64 : base < 2 ^ 63;
  lim_set : ∃ age, 100000 ≤ age ≤ 2000000000 ∧ xidVacLimit v = vac_limit (u32 base) age;
  lim_stop : xidStopLimit v = limit_before (wrap_limit (u32 base)) 3000000
}.

(** On the page of the commit log that holds the next id, the ids from it on
    are in progress, unless the page is yet to be zeroed. *)
Definition unused_in_progress (v : TransamVariablesData) (c : clog) : Prop :=
  let next := XidFromFullTransactionId (nextXid v) in
  TransactionIdToPgIndex next ≠ 0 → next ≠ FirstNormalTransactionId →
  ∀ x, next ≤ x < 2 ^ 32 → TransactionIdToPage x = TransactionIdToPage next →
    TransactionIdGetStatus c x = TRANSACTION_STATUS_IN_PROGRESS.

Record shared_ok (base : Z) (sh : shared) : Prop := mkSharedOk {
  sh_limits : limits_ok base (TransamVariables sh);
  sh_unused : unused_in_progress (TransamVariables sh) (pg_xact sh)
}.

(** The counter in its second epoch, at the start of a page that holds the
    status of an id of the first one. *)
Definition second_epoch : shared :=
  SetTransactionIdLimit 200000000 (u32 4294900000) 5
    (mkShared (mkTransam (4294967296 + 65536) 0 0 0 0 0 0)
       (TransactionIdSetStatusBit 65536 TRANSACTION_STATUS_ABORTED ∅) ∅ false).

(** ** Limits as 64-bit ids *)

Lemma u32_add x k : u32 (u32 x + k) = u32 (x + k).
Proof. unfold u32, wrap_u. by rewrite Zplus_mod_idemp_l. Qed.

Lemma u32_range x : 0 ≤ u32 x < 2 ^ 32.
Proof. unfold u32, wrap_u. apply Z.mod_pos_bound. lia. Qed.

Lemma u32_period x : u32 (x + 2 ^ 32) = u32 x.
Proof. unfold u32, wrap_u. rewrite <- (Z.mul_1_l (2 ^ 32)) at 1. apply Z_mod_plus_full. Qed.

(** Stepping over the three special ids, upwards or downwards. *)
Lemma step_up x : 0 ≤ x →
  ∃ y, (if u32 x <? FirstNormalTransactionId then u32 (u32 x + FirstNormalTransactionId) else u32 x) = u32 y ∧
    normal_xid y ∧ x ≤ y ≤ x + 3.
Proof.
  intros Hx. unfold normal_xid, FirstNormalTransactionId. pose proof (u32_range x).
  destruct (Z.ltb_spec (u32 x) 3).
  - exists (x + 3). rewrite u32_add. split; [done|]. rewrite <- u32_add, u32_small by lia. lia.
  - exists x. lia.
Qed.

Lemma step_down x : 3 ≤ x →
  ∃ y, (if u32 x <? FirstNormalTransactionId then u32 (u32 x - FirstNormalTransactionId) else u32 x) = u32 y ∧
    normal_xid y ∧ x - 3 ≤ y ≤ x.
Proof.
  intros Hx. unfold normal_xid, FirstNormalTransactionId. pose proof (u32_range x).
  destruct (Z.ltb_spec (u32 x) 3).
  - exists (x - 3). rewrite <- Z.add_opp_r, u32_add, Z.add_opp_r. split; [done|].
    assert (u32 (x - 3) = u32 x - 3 + 2 ^ 32) as ->; [|lia].
    rewrite <- (u32_small (u32 x - 3 + 2 ^ 32)), u32_period, <- Z.add_opp_r, <- u32_add by lia. done.
  - exists x. lia.
Qed.

Lemma stop_limit_full base : normal_xid base →
  ∃ y, limit_before (wrap_limit (u32 base)) 3000000 = u32 y ∧ normal_xid y ∧
    base + 2 ^ 31 - 3000004 ≤ y ≤ base + 2 ^ 31 - 2999998.
Proof.
  intros [Hb0 Hb]. unfold wrap_limit, limit_before. change (Z.shiftr MaxTransactionId 1) with (2 ^ 31 - 1).
  rewrite u32_add. destruct (step_up (base + (2 ^ 31 - 1)) ltac:(lia)) as (w & -> & [_ Hw0] & Hw).
  rewrite <- Z.add_opp_r, u32_add, Z.add_opp_r.
  destruct (step_down (w - 3000000) ltac:(lia)) as (y & -> & Hy & Hyw). exists y. split; [done|]. split; [done|lia].
Qed.

Lemma vac_limit_full base age : normal_xid base → 0 ≤ age →
  ∃ y, vac_limit (u32 base) age = u32 y ∧ normal_xid y ∧ base + age ≤ y ≤ base + age + 3.
Proof.
  intros [_ Hb] Ha. unfold vac_limit. rewrite u32_add. by apply (step_up (base + age)); lia.
Qed.

(** The counter moves on to the next normal id. *)
Lemma advance_spec x : normal_xid x → x < 2 ^ 64 - 8 →
  normal_xid (FullTransactionIdAdvance x) ∧ x < FullTransactionIdAdvance x ≤ x + 4 ∧
  (FullTransactionIdAdvance x = x + 1 ∨ u32 (FullTransactionIdAdvance x) = FirstNormalTransactionId).
Proof.
  intros [Hx0 Hx] Hlt. unfold normal_xid, FullTransactionIdAdvance, FirstNormalFullTransactionId, FirstNormalTransactionId in *.
  assert (3 ≤ x) by (unfold u32, wrap_u in Hx0; pose proof (Z.mod_le x (2 ^ 32)); lia).
  rewrite u64_small by lia. rewrite (proj2 (Z.ltb_ge (x + 1) 3)) by lia.
  cbn [skip_special]. unfold XidFromFullTransactionId, FirstNormalTransactionId.
  pose proof (u32_range (x + 1)). pose proof (u32_range x).
  destruct (Z.ltb_spec (u32 (x + 1)) 3) as [Hs|Hs]; [|split_and!; lia].
  assert (u32 (x + 1) = 0) as Hz.
  { rewrite <- u32_add in Hs |- *. destruct (Z.eq_dec (u32 x) (2 ^ 32 - 1)) as [->|]; [done|].
    rewrite u32_small in Hs by lia. lia. }
  rewrite !u64_small by lia.
  assert (Hk : ∀ k, 0 ≤ k < 2 ^ 32 → u32 (x + 1 + k) = k) by (intros k Hk; rewrite <- u32_add, Hz; by apply u32_small).
  replace (x + 1 + 1 + 1 + 1) with (x + 1 + 3) by lia. replace (x + 1 + 1 + 1) with (x + 1 + 2) by lia.
  rewrite !Hk by lia. simpl. rewrite Hk by lia. split_and!; lia.
Qed.

(** An older id in the window is not ahead of a newer one modulo 2^32. *)
Lemma older_not_ahead g n : - 2 ^ 31 ≤ g - n < 0 → u32 n ≤ u32 g < u32 n + 2 ^ 31 → False.
Proof.
  intros Hd Ha. pose proof (i32_sub_u32 g n ltac:(lia)) as H. rewrite i32_small in H by lia. lia.
Qed.

Lemma page_start_le x y : TransactionIdToPgIndex x = 0 ∨ x = FirstNormalTransactionId → xid32 x → xid32 y →
  TransactionIdToPage y = TransactionIdToPage x → x ≤ y < x + 2 ^ 31.
Proof.
  unfold TransactionIdToPgIndex, TransactionIdToPage, FirstNormalTransactionId, xid32.
  change CLOG_XACTS_PER_PAGE with 32768. intros Hs Hx Hy Hp. Z.to_euclidean_division_equations. lia.
Qed.

Lemma entry_start_le x y : x mod SUBTRANS_XACTS_PER_PAGE = 0 ∨ x = FirstNormalTransactionId → xid32 x → xid32 y →
  y / SUBTRANS_XACTS_PER_PAGE = x / SUBTRANS_XACTS_PER_PAGE → x ≤ y < x + 2 ^ 31.
Proof.
  unfold FirstNormalTransactionId, xid32. change SUBTRANS_XACTS_PER_PAGE with 2048.
  intros Hs Hx Hy Hp. Z.to_euclidean_division_equations. lia.
Qed.

Lemma normal_xid32 x : normal_xid x → xid32 (u32 x).
Proof. intros [Hx _]. unfold xid32. pose proof (u32_range x). unfold FirstNormalTransactionId in Hx. lia. Qed.

Lemma extend_guard x b :
  (negb (b =? 0) && negb (x =? FirstNormalTransactionId)) = false → b = 0 ∨ x = FirstNormalTransactionId.
Proof. rewrite andb_false_iff, !negb_false_iff, !Z.eqb_eq. done. Qed.

(** Extending the logs for a new id leaves the entries of the older ids. *)
Lemma extend_clog_old c f g : normal_xid f → normal_xid g → - 2 ^ 31 ≤ g - f < 0 →
  TransactionIdGetStatus (ExtendCLOG (u32 f) c) (u32 g) = TransactionIdGetStatus c (u32 g).
Proof.
  intros Hf Hg Hd. unfold ExtendCLOG. destruct (negb _ && negb _) eqn:Hs; [done|].
  rewrite zero_page_status. destruct (Z.eqb_spec (TransactionIdToPage (u32 g)) (TransactionIdToPage (u32 f))) as [He|]; [|done].
  exfalso. apply (older_not_ahead g f Hd), page_start_le; auto using normal_xid32, extend_guard.
Qed.

Lemma extend_subtrans_old s f g : normal_xid f → normal_xid g → - 2 ^ 31 ≤ g - f < 0 →
  SubTransGetParent (ExtendSUBTRANS (u32 f) s) (u32 g) = SubTransGetParent s (u32 g).
Proof.
  intros Hf Hg Hd. unfold ExtendSUBTRANS, SubTransGetParent. destruct (negb (_ =? 0) && negb _) eqn:Hs; [done|].
  destruct (negb (TransactionIdIsNormal _)); [done|]. f_equal. destruct (s !! u32 g) as [p|] eqn:Hl.
  - apply map_lookup_filter_Some. split; [done|]. simpl. intros He.
    apply (older_not_ahead g f Hd), entry_start_le; auto using normal_xid32, extend_guard.
  - apply map_lookup_filter_None. by left.
Qed.

(** A new id finds its status zeroed, and so do those after it on its page. *)
Lemma extend_clog_new v c x : unused_in_progress v c → normal_xid (nextXid v) →
  let next := u32 (nextXid v) in
  next ≤ x < 2 ^ 32 → TransactionIdToPage x = TransactionIdToPage next →
  TransactionIdGetStatus (ExtendCLOG next c) x = TRANSACTION_STATUS_IN_PROGRESS.
Proof.
  intros Hu Hn next Hx Hp. unfold ExtendCLOG. destruct (negb _ && negb _) eqn:Hs.
  - apply andb_true_iff in Hs as [H1 H2]. rewrite negb_true_iff, Z.eqb_neq in H1, H2. by apply Hu.
  - rewrite zero_page_status, Hp. by rewrite Z.eqb_refl.
Qed.

Lemma same_page_next x n : TransactionIdToPgIndex (n + 1) ≠ 0 → TransactionIdToPage x = TransactionIdToPage (n + 1) →
  TransactionIdToPage x = TransactionIdToPage n.
Proof.
  unfold TransactionIdToPgIndex, TransactionIdToPage. change CLOG_XACTS_PER_PAGE with 32768.
  intros Hi ->. Z.to_euclidean_division_equations. lia.
Qed.

Lemma extend_unused v c : unused_in_progress v c → normal_xid (nextXid v) → nextXid v < 2 ^ 64 - 8 →
  unused_in_progress (set_nextXid (FullTransactionIdAdvance (nextXid v)) v) (ExtendCLOG (u32 (nextXid v)) c).
Proof.
  intros Hu Hn Hlt. destruct (advance_spec _ Hn Hlt) as (Hn' & _ & Ha). intros Hi H3 x Hx Hp.
  cbn [nextXid set_nextXid] in *. unfold XidFromFullTransactionId in *.
  destruct Ha as [Ha|Ha]; [|done]. rewrite Ha in *.
  assert (u32 (nextXid v + 1) = u32 (nextXid v) + 1) as He.
  { rewrite <- u32_add. apply u32_small. pose proof (u32_range (nextXid v)).
    destruct (Z.eq_dec (u32 (nextXid v)) (2 ^ 32 - 1)) as [Hm|]; [|lia].
    exfalso. apply H3. rewrite <- u32_add, Hm in Hi. by destruct Hi. }
  rewrite He in *. apply (extend_clog_new v); [done..|lia|by apply same_page_next].
Qed.

(** The limits hold after [SetTransactionIdLimit] for the oldest id in use. *)
Lemma set_limit_ok age base db sh : normal_xid base → base < 2 ^ 63 → 100000 ≤ age ≤ 2000000000 →
  normal_xid (nextXid (TransamVariables sh)) →
  base ≤ nextXid (TransamVariables sh) < base + 2 ^ 31 - 2900000 →
  unused_in_progress (TransamVariables sh) (pg_xact sh) →
  shared_ok base (SetTransactionIdLimit age (u32 base) db sh).
Proof.
  intros Hb H64 Hage Hn Hw Hu. unfold SetTransactionIdLimit. destruct (TransactionIdFollowsOrEquals _ _);
    (split; [split; cbn; [done..|by exists age|done]|done]).
Qed.

Lemma new_xid_spec base sh : shared_ok base sh →
  let '(sh', r) := GetNewTransactionId false false sh in
  shared_ok base sh' ∧
  match r with
  | Ok f =>
      f = nextXid (TransamVariables sh) ∧ f < nextXid (TransamVariables sh') ∧ f < base + 2 ^ 31 ∧
      TransactionIdGetStatus (pg_xact sh') (u32 f) = TRANSACTION_STATUS_IN_PROGRESS ∧
      ∀ g, normal_xid g → base ≤ g < f →
        TransactionIdPrecedes (u32 g) (u32 f) = true ∧ u32 g ≠ u32 f ∧
        TransactionIdGetStatus (pg_xact sh') (u32 g) = TransactionIdGetStatus (pg_xact sh) (u32 g) ∧
        SubTransGetParent (pg_subtrans sh') (u32 g) = SubTransGetParent (pg_subtrans sh) (u32 g)
  | Err _ => TransamVariables sh' = TransamVariables sh ∧ pg_xact sh' = pg_xact sh ∧
      base + 2 ^ 31 - 3000004 ≤ nextXid (TransamVariables sh)
  end.
Proof.
  intros [[Hb Hn Hw H64 (age & Hage & Hvac) Hstop] Hu]. unfold GetNewTransactionId, XidFromFullTransactionId.
  set (v := TransamVariables sh) in *. set (f := nextXid v) in *.
  destruct (stop_limit_full base Hb) as (stop & Hs & Hsn & Hsr). rewrite <- Hstop in Hs.
  destruct (vac_limit_full base age Hb ltac:(lia)) as (vac & Hv & Hvn & Hvr). rewrite <- Hvac in Hv.
  rewrite Hs, Hv, (proj2 (precedes_full f stop Hn Hsn ltac:(lia))), (proj2 (precedes_full f vac Hn Hvn ltac:(lia))).
  set (sh1 := if (vac <=? f) && _ then _ else sh).
  assert (pg_xact sh1 = pg_xact sh ∧ pg_subtrans sh1 = pg_subtrans sh ∧ TransamVariables sh1 = v) as (Hx1 & Hs1 & Hv1)
    by (subst sh1; by destruct (_ && _)).
  destruct (Z.leb_spec stop f) as [Hge|Hlt].
  - rewrite (proj2 (Z.leb_le vac f)) by lia. cbn [andb]. rewrite Hv1, Hx1. split_and!; [|done|done|lia].
    split; rewrite Hv1, ?Hx1; [|done]. split; [done..|by exists age|done].
  - rewrite andb_false_r. cbn. rewrite Hx1, Hs1.
    destruct (advance_spec f Hn ltac:(lia)) as (Ha & Har & _). split_and!; [|done|lia|lia| |].
    + split; cbn; [|by apply extend_unused; [..|lia]]. split; cbn; [done|done|lia|done|by exists age|done].
    + apply (extend_clog_new v); [done..|split; [done|apply u32_range]|done].
    + intros g Hg Hgf. rewrite (proj1 (precedes_full g f Hg Hn ltac:(lia))).
      split_and!; [apply Z.ltb_lt; lia|intros He; apply u32_inj_window in He; lia
        |by apply extend_clog_old; [..|lia]|by apply extend_subtrans_old; [..|lia]].
Qed.

(** Shared memory after the statuses of some ids in use changed. *)
Lemma shared_status base sh c (xs : list Z) : shared_ok base sh →
  (∀ x, x ∉ xs → TransactionIdGetStatus c x = TransactionIdGetStatus (pg_xact sh) x) →
  (∀ x, x ∈ xs → ∃ f, x = u32 f ∧ base ≤ f < nextXid (TransamVariables sh)) →
  shared_ok base (set_pg_xact c sh).
Proof.
  intros [Hl Hu] Hst Hx. split; [done|]. intros Hi H3 x Hr Hp. cbn in *.
  rewrite Hst; [by apply Hu|]. intros Hin. destruct (Hx x Hin) as (f & -> & Hf).
  pose proof (lim_window _ _ Hl). apply (older_not_ahead f (nextXid (TransamVariables sh))); [lia|].
  unfold XidFromFullTransactionId in *. split; [lia|].
  unfold TransactionIdToPage in Hp. change CLOG_XACTS_PER_PAGE with 32768 in Hp.
  Z.to_euclidean_division_equations. lia.
Qed.

Lemma shared_marks base sh st xs : shared_ok base sh → 0 ≤ st < 4 →
  (∀ x, x ∈ xs → ∃ f, x = u32 f ∧ base ≤ f < nextXid (TransamVariables sh)) →
  shared_ok base (set_pg_xact (run_writes (mark st xs) (pg_xact sh)) sh).
Proof.
  intros Hsh Hst Hx. apply shared_status with xs; [done| |done]. intros x Hin. rewrite run_mark by done.
  by rewrite bool_decide_eq_false_2.
Qed.

(** ** Properties *)


