(* ===== verification/Xact.v ===== *)
(** * Transactions, subtransactions and transaction blocks

    [xact.c]: the stack of transaction states of a backend, the routines that
    start, commit, prepare, abort and clean up a transaction or subtransaction,
    the commands of the transaction block state machine
    ([StartTransactionCommand], [CommitTransactionCommand],
    [AbortCurrentTransaction], [BeginTransactionBlock], [DefineSavepoint], ...)
    and the transaction ids of the levels of the stack.

    [backend] holds the current level and its parents, innermost first, with the
    session variables of the module and the shared memory of [XidGen].  The
    routines of other modules that run at the ends of a transaction are steps
    that may raise an error, and for user code (deferred triggers, callbacks)
    also write; which of them do is the list [acts], over which the theorems
    quantify.  Post-commit cleanup and the steps of an abort do not fail, as the
    comments of the source have it. *)
From stdpp Require Import base tactics list gmap strings numbers.
From Stdlib Require Import ZArith Lia Bool Ascii.
From S2P Require Import Prelude Visibility Clog XidGen.

(** ** States *)

Inductive TransState : Type :=
| TRANS_DEFAULT
| TRANS_START
| TRANS_INPROGRESS
| TRANS_COMMIT
| TRANS_ABORT
| TRANS_PREPARE.

Inductive TBlockState : Type :=
| TBLOCK_DEFAULT
| TBLOCK_STARTED
| TBLOCK_BEGIN
| TBLOCK_INPROGRESS
| TBLOCK_IMPLICIT_INPROGRESS
| TBLOCK_PARALLEL_INPROGRESS
| TBLOCK_END
| TBLOCK_ABORT
| TBLOCK_ABORT_END
| TBLOCK_ABORT_PENDING
| TBLOCK_PREPARE
| TBLOCK_SUBBEGIN
| TBLOCK_SUBINPROGRESS
| TBLOCK_SUBRELEASE
| TBLOCK_SUBCOMMIT
| TBLOCK_SUBABORT
| TBLOCK_SUBABORT_END
| TBLOCK_SUBABORT_PENDING
| TBLOCK_SUBRESTART
| TBLOCK_SUBABORT_RESTART.

#[export] Instance TransState_eq_dec : EqDecision TransState.
Proof. solve_decision. Defined.

#[export] Instance TBlockState_eq_dec : EqDecision TBlockState.
Proof. solve_decision. Defined.

(** One level of the stack.  Memory contexts, resource owners apart from their
    presence, and the user id are not modelled. *)
Record TransactionStateData : Type := mkLevel {
  fullTransactionId : Z;            (* 0 if none is assigned *)
  subTransactionId : Z;
  name : option string;
  savepointLevel : Z;
  state : TransState;
  blockState : TBlockState;
  nestingLevel : Z;
  curTransactionOwner : bool;       (* whether there is one *)
  childXids : list Z;
  prevXactReadOnly : bool;
  parallelModeLevel : Z;
  parallelChildXact : bool;
  chain : bool
}.

Definition set_fxid (x : Z) (s : TransactionStateData) : TransactionStateData :=
  mkLevel x (subTransactionId s) (name s) (savepointLevel s) (state s) (blockState s) (nestingLevel s)
    (curTransactionOwner s) (childXids s) (prevXactReadOnly s) (parallelModeLevel s) (parallelChildXact s) (chain s).

Definition set_name (n : option string) (s : TransactionStateData) : TransactionStateData :=
  mkLevel (fullTransactionId s) (subTransactionId s) n (savepointLevel s) (state s) (blockState s) (nestingLevel s)
    (curTransactionOwner s) (childXids s) (prevXactReadOnly s) (parallelModeLevel s) (parallelChildXact s) (chain s).

Definition set_savepointLevel (l : Z) (s : TransactionStateData) : TransactionStateData :=
  mkLevel (fullTransactionId s) (subTransactionId s) (name s) l (state s) (blockState s) (nestingLevel s)
    (curTransactionOwner s) (childXids s) (prevXactReadOnly s) (parallelModeLevel s) (parallelChildXact s) (chain s).

Definition set_state (st : TransState) (s : TransactionStateData) : TransactionStateData :=
  mkLevel (fullTransactionId s) (subTransactionId s) (name s) (savepointLevel s) st (blockState s) (nestingLevel s)
    (curTransactionOwner s) (childXids s) (prevXactReadOnly s) (parallelModeLevel s) (parallelChildXact s) (chain s).

Definition set_block (bs : TBlockState) (s : TransactionStateData) : TransactionStateData :=
  mkLevel (fullTransactionId s) (subTransactionId s) (name s) (savepointLevel s) (state s) bs (nestingLevel s)
    (curTransactionOwner s) (childXids s) (prevXactReadOnly s) (parallelModeLevel s) (parallelChildXact s) (chain s).

Definition set_ids (subid nest : Z) (s : TransactionStateData) : TransactionStateData :=
  mkLevel (fullTransactionId s) subid (name s) (savepointLevel s) (state s) (blockState s) nest
    (curTransactionOwner s) (childXids s) (prevXactReadOnly s) (parallelModeLevel s) (parallelChildXact s) (chain s).

Definition set_owner (o : bool) (s : TransactionStateData) : TransactionStateData :=
  mkLevel (fullTransactionId s) (subTransactionId s) (name s) (savepointLevel s) (state s) (blockState s) (nestingLevel s)
    o (childXids s) (prevXactReadOnly s) (parallelModeLevel s) (parallelChildXact s) (chain s).

Definition set_childXids (xs : list Z) (s : TransactionStateData) : TransactionStateData :=
  mkLevel (fullTransactionId s) (subTransactionId s) (name s) (savepointLevel s) (state s) (blockState s) (nestingLevel s)
    (curTransactionOwner s) xs (prevXactReadOnly s) (parallelModeLevel s) (parallelChildXact s) (chain s).

Definition set_parallel (n : Z) (child : bool) (s : TransactionStateData) : TransactionStateData :=
  mkLevel (fullTransactionId s) (subTransactionId s) (name s) (savepointLevel s) (state s) (blockState s) (nestingLevel s)
    (curTransactionOwner s) (childXids s) (prevXactReadOnly s) n child (chain s).

Definition set_chain (c : bool) (s : TransactionStateData) : TransactionStateData :=
  mkLevel (fullTransactionId s) (subTransactionId s) (name s) (savepointLevel s) (state s) (blockState s) (nestingLevel s)
    (curTransactionOwner s) (childXids s) (prevXactReadOnly s) (parallelModeLevel s) (parallelChildXact s) c.

(** [XactIsoLevel], [XactReadOnly] and [XactDeferrable], as
    [SavedTransactionCharacteristics] keeps them. *)
Record characteristics : Type := mkChars {
  XactIsoLevel : Z;
  XactReadOnly : bool;
  XactDeferrable : bool
}.

(** What a step of another module does: user code may write, any may fail. *)
Record act : Type := mkAct {
  act_writes : bool;
  act_fails : bool
}.

(** What a prepared transaction leaves behind. *)
Record GlobalTransaction : Type := mkGlobal {
  gxact_gid : string;
  gxact_fxid : Z;
  gxact_children : list Z
}.

Record backend : Type := mkBackend {
  CurrentTransactionState : TransactionStateData;
  parents : list TransactionStateData;        (* innermost first *)
  XactTopFullTransactionId : Z;
  currentSubTransactionId : Z;
  currentCommandId : Z;
  currentCommandIdUsed : bool;
  xact_chars : characteristics;
  default_chars : characteristics;
  needs_immediate_commit : bool;              (* of [MyXactFlags] *)
  prepareGID : option string;
  shmem : shared;
  prepared : list GlobalTransaction;
  RecoveryInProgress : bool;
  IsParallelWorker : bool;
  TransactionXmin : Z;
  warnings : list string;
  acts : list act
}.

Definition set_stack (s : TransactionStateData) (ps : list TransactionStateData) (b : backend) : backend :=
  mkBackend s ps (XactTopFullTransactionId b) (currentSubTransactionId b) (currentCommandId b)
    (currentCommandIdUsed b) (xact_chars b) (default_chars b) (needs_immediate_commit b) (prepareGID b) (shmem b)
    (prepared b) (RecoveryInProgress b) (IsParallelWorker b) (TransactionXmin b) (warnings b) (acts b).

Definition set_top (x : Z) (b : backend) : backend :=
  mkBackend (CurrentTransactionState b) (parents b) x (currentSubTransactionId b) (currentCommandId b)
    (currentCommandIdUsed b) (xact_chars b) (default_chars b) (needs_immediate_commit b) (prepareGID b) (shmem b)
    (prepared b) (RecoveryInProgress b) (IsParallelWorker b) (TransactionXmin b) (warnings b) (acts b).

Definition set_subid (x : Z) (b : backend) : backend :=
  mkBackend (CurrentTransactionState b) (parents b) (XactTopFullTransactionId b) x (currentCommandId b)
    (currentCommandIdUsed b) (xact_chars b) (default_chars b) (needs_immediate_commit b) (prepareGID b) (shmem b)
    (prepared b) (RecoveryInProgress b) (IsParallelWorker b) (TransactionXmin b) (warnings b) (acts b).

Definition set_cid (cid : Z) (used : bool) (b : backend) : backend :=
  mkBackend (CurrentTransactionState b) (parents b) (XactTopFullTransactionId b) (currentSubTransactionId b) cid
    used (xact_chars b) (default_chars b) (needs_immediate_commit b) (prepareGID b) (shmem b)
    (prepared b) (RecoveryInProgress b) (IsParallelWorker b) (TransactionXmin b) (warnings b) (acts b).

Definition set_chars (c : characteristics) (b : backend) : backend :=
  mkBackend (CurrentTransactionState b) (parents b) (XactTopFullTransactionId b) (currentSubTransactionId b)
    (currentCommandId b) (currentCommandIdUsed b) c (default_chars b) (needs_immediate_commit b) (prepareGID b) (shmem b)
    (prepared b) (RecoveryInProgress b) (IsParallelWorker b) (TransactionXmin b) (warnings b) (acts b).

Definition set_immediate (f : bool) (b : backend) : backend :=
  mkBackend (CurrentTransactionState b) (parents b) (XactTopFullTransactionId b) (currentSubTransactionId b)
    (currentCommandId b) (currentCommandIdUsed b) (xact_chars b) (default_chars b) f (prepareGID b) (shmem b)
    (prepared b) (RecoveryInProgress b) (IsParallelWorker b) (TransactionXmin b) (warnings b) (acts b).

Definition set_prepareGID (g : option string) (b : backend) : backend :=
  mkBackend (CurrentTransactionState b) (parents b) (XactTopFullTransactionId b) (currentSubTransactionId b)
    (currentCommandId b) (currentCommandIdUsed b) (xact_chars b) (default_chars b) (needs_immediate_commit b) g (shmem b)
    (prepared b) (RecoveryInProgress b) (IsParallelWorker b) (TransactionXmin b) (warnings b) (acts b).

Definition set_shmem (sh : shared) (b : backend) : backend :=
  mkBackend (CurrentTransactionState b) (parents b) (XactTopFullTransactionId b) (currentSubTransactionId b)
    (currentCommandId b) (currentCommandIdUsed b) (xact_chars b) (default_chars b) (needs_immediate_commit b) (prepareGID b) sh
    (prepared b) (RecoveryInProgress b) (IsParallelWorker b) (TransactionXmin b) (warnings b) (acts b).

Definition set_prepared (ps : list GlobalTransaction) (b : backend) : backend :=
  mkBackend (CurrentTransactionState b) (parents b) (XactTopFullTransactionId b) (currentSubTransactionId b)
    (currentCommandId b) (currentCommandIdUsed b) (xact_chars b) (default_chars b) (needs_immediate_commit b) (prepareGID b) (shmem b)
    ps (RecoveryInProgress b) (IsParallelWorker b) (TransactionXmin b) (warnings b) (acts b).

Definition set_warnings (ws : list string) (b : backend) : backend :=
  mkBackend (CurrentTransactionState b) (parents b) (XactTopFullTransactionId b) (currentSubTransactionId b)
    (currentCommandId b) (currentCommandIdUsed b) (xact_chars b) (default_chars b) (needs_immediate_commit b) (prepareGID b) (shmem b)
    (prepared b) (RecoveryInProgress b) (IsParallelWorker b) (TransactionXmin b) ws (acts b).

Definition set_acts (l : list act) (b : backend) : backend :=
  mkBackend (CurrentTransactionState b) (parents b) (XactTopFullTransactionId b) (currentSubTransactionId b)
    (currentCommandId b) (currentCommandIdUsed b) (xact_chars b) (default_chars b) (needs_immediate_commit b) (prepareGID b) (shmem b)
    (prepared b) (RecoveryInProgress b) (IsParallelWorker b) (TransactionXmin b) (warnings b) l.

Abbreviation X := (M backend).

(** [s->field = ...] on the current level. *)
Definition upd (f : TransactionStateData → TransactionStateData) : X unit :=
  modify (λ b, set_stack (f (CurrentTransactionState b)) (parents b) b).

Definition warn (msg : string) : X unit := modify (λ b, set_warnings (warnings b ++ [msg]) b).

(** A step of another module that cannot run user code. *)
Definition subsystem : X unit := λ b,
  match acts b with
  | a :: l => (set_acts l b, if act_fails a then Err (ErrReport "error in another module") else Ok tt)
  | [] => (b, Ok tt)
  end.

Definition TransStateAsString (s : TransState) : string :=
  match s with
  | TRANS_DEFAULT => "DEFAULT"
  | TRANS_START => "START"
  | TRANS_INPROGRESS => "INPROGRESS"
  | TRANS_COMMIT => "COMMIT"
  | TRANS_ABORT => "ABORT"
  | TRANS_PREPARE => "PREPARE"
  end.

Definition BlockStateAsString (bs : TBlockState) : string :=
  match bs with
  | TBLOCK_DEFAULT => "DEFAULT"
  | TBLOCK_STARTED => "STARTED"
  | TBLOCK_BEGIN => "BEGIN"
  | TBLOCK_INPROGRESS => "INPROGRESS"
  | TBLOCK_IMPLICIT_INPROGRESS => "IMPLICIT_INPROGRESS"
  | TBLOCK_PARALLEL_INPROGRESS => "PARALLEL_INPROGRESS"
  | TBLOCK_END => "END"
  | TBLOCK_ABORT => "ABORT"
  | TBLOCK_ABORT_END => "ABORT_END"
  | TBLOCK_ABORT_PENDING => "ABORT_PENDING"
  | TBLOCK_PREPARE => "PREPARE"
  | TBLOCK_SUBBEGIN => "SUBBEGIN"
  | TBLOCK_SUBINPROGRESS => "SUBINPROGRESS"
  | TBLOCK_SUBRELEASE => "SUBRELEASE"
  | TBLOCK_SUBCOMMIT => "SUBCOMMIT"
  | TBLOCK_SUBABORT => "SUBABORT"
  | TBLOCK_SUBABORT_END => "SUBABORT_END"
  | TBLOCK_SUBABORT_PENDING => "SUBABORT_PENDING"
  | TBLOCK_SUBRESTART => "SUBRESTART"
  | TBLOCK_SUBABORT_RESTART => "SUBABORT_RESTART"
  end.

(** [elog(WARNING, "<who> while in <state> state")] unless the state is one of [ok]. *)
Definition warn_unless (ok : list TransState) (who : string) : X unit :=
  s ← gets (state ∘ CurrentTransactionState);
  if bool_decide (s ∈ ok) then mret tt
  else warn (who +:+ " while in " +:+ TransStateAsString s +:+ " state").

Definition unexpected (who : string) (bs : TBlockState) : string :=
  who +:+ ": unexpected state " +:+ BlockStateAsString bs.

(** ** Queries *)

Definition IsTransactionState (b : backend) : bool :=
  bool_decide (state (CurrentTransactionState b) = TRANS_INPROGRESS).

Definition IsAbortedTransactionBlockState (b : backend) : bool :=
  match blockState (CurrentTransactionState b) with
  | TBLOCK_ABORT | TBLOCK_SUBABORT => true
  | _ => false
  end.

Definition IsTransactionBlock (b : backend) : bool :=
  match blockState (CurrentTransactionState b) with
  | TBLOCK_DEFAULT | TBLOCK_STARTED => false
  | _ => true
  end.

Definition IsTransactionOrTransactionBlock (b : backend) : bool :=
  match blockState (CurrentTransactionState b) with
  | TBLOCK_DEFAULT => false
  | _ => true
  end.

(** The status byte of ReadyForQuery, as the code of its character. *)
Definition TransactionBlockStatusCode (b : backend) : Ascii.ascii :=
  match blockState (CurrentTransactionState b) with
  | TBLOCK_DEFAULT | TBLOCK_STARTED => "I"%char
  | TBLOCK_BEGIN | TBLOCK_SUBBEGIN | TBLOCK_INPROGRESS | TBLOCK_IMPLICIT_INPROGRESS
  | TBLOCK_PARALLEL_INPROGRESS | TBLOCK_SUBINPROGRESS | TBLOCK_END | TBLOCK_SUBRELEASE
  | TBLOCK_SUBCOMMIT | TBLOCK_PREPARE => "T"%char
  | TBLOCK_ABORT | TBLOCK_SUBABORT | TBLOCK_ABORT_END | TBLOCK_SUBABORT_END | TBLOCK_ABORT_PENDING
  | TBLOCK_SUBABORT_PENDING | TBLOCK_SUBRESTART | TBLOCK_SUBABORT_RESTART => "E"%char
  end.

Definition IsSubTransaction (b : backend) : bool := 2 <=? nestingLevel (CurrentTransactionState b).

Definition IsInParallelMode (b : backend) : bool :=
  negb (parallelModeLevel (CurrentTransactionState b) =? 0) || parallelChildXact (CurrentTransactionState b).

Definition SubTransactionIsActive (b : backend) (subxid : Z) : bool :=
  existsb (λ s, negb (bool_decide (state s = TRANS_ABORT)) && (subTransactionId s =? subxid))
    (CurrentTransactionState b :: parents b).

(** ** Transaction ids *)

Definition InvalidFullTransactionId : Z := 0.

Definition FullTransactionIdIsValid (x : Z) : bool := TransactionIdIsValid (XidFromFullTransactionId x).

Definition GetTopTransactionIdIfAny (b : backend) : Z := XidFromFullTransactionId (XactTopFullTransactionId b).

Definition GetCurrentTransactionIdIfAny (b : backend) : Z :=
  XidFromFullTransactionId (fullTransactionId (CurrentTransactionState b)).

(** The binary search over [childXids]. *)
Fixpoint find_child (fuel : nat) (xs : list Z) (low high xid : Z) : bool :=
  match fuel with
  | O => false
  | S fuel' =>
      if low <=? high then
        let middle := low + (high - low) / 2 in
        let probe := default 0 (xs !! Z.to_nat middle) in
        if probe =? xid then true
        else if TransactionIdPrecedes probe xid then find_child fuel' xs (middle + 1) high xid
        else find_child fuel' xs low (middle - 1) xid
      else false
  end.

Definition level_has_xid (xid : Z) (s : TransactionStateData) : bool :=
  if bool_decide (state s = TRANS_ABORT) then false
  else if negb (FullTransactionIdIsValid (fullTransactionId s)) then false
  else if xid =? XidFromFullTransactionId (fullTransactionId s) then true
  else find_child (S (length (childXids s))) (childXids s) 0 (Z.of_nat (length (childXids s)) - 1) xid.

(** In a backend that is not a parallel worker. *)
Definition TransactionIdIsCurrentTransactionId (b : backend) (xid : Z) : bool :=
  if negb (TransactionIdIsNormal xid) then false
  else if xid =? GetTopTransactionIdIfAny b then true
  else existsb (level_has_xid xid) (CurrentTransactionState b :: parents b).

(** [AssignTransactionId] for the innermost of the given levels: the levels
    outside of it that have no id get theirs first, the outermost first.  A
    failure leaves the ids assigned so far.  Its WAL records are not modelled. *)
Fixpoint assign_levels (recovery : bool) (levels : list TransactionStateData) (top : Z) (sh : shared) :
    (list TransactionStateData * Z * shared) * result unit :=
  match levels with
  | [] => (([], top, sh), Ok tt)
  | s :: ps =>
      if FullTransactionIdIsValid (fullTransactionId s) then ((s :: ps, top, sh), Ok tt)
      else
        let '((ps', top', sh1), r) := assign_levels recovery ps top sh in
        match r with
        | Err e => ((s :: ps', top', sh1), Err e)
        | Ok _ =>
            match GetNewTransactionId false recovery sh1 with
            | (sh2, Err e) => ((s :: ps', top', sh2), Err e)
            | (sh2, Ok f) =>
                match ps' with
                | [] => (([set_fxid f s], f, sh2), Ok tt)
                | p :: _ =>
                    ((set_fxid f s :: ps', top',
                      set_pg_subtrans (SubTransSetParent (XidFromFullTransactionId f)
                        (XidFromFullTransactionId (fullTransactionId p)) (pg_subtrans sh2)) sh2), Ok tt)
                end
            end
        end
  end.

Definition AssignTransactionId : X unit := λ b,
  if IsInParallelMode b || IsParallelWorker b then
    (b, Err (ErrReport "cannot assign transaction IDs during a parallel operation"))
  else
    let '((levels, top, sh), r) :=
      assign_levels (RecoveryInProgress b) (CurrentTransactionState b :: parents b) (XactTopFullTransactionId b) (shmem b) in
    match levels with
    | s :: ps => (set_shmem sh (set_top top (set_stack s ps b)), r)
    | [] => (b, Err ErrUB)
    end.

Definition GetCurrentFullTransactionId : X Z :=
  b ← get;
  (if negb (FullTransactionIdIsValid (fullTransactionId (CurrentTransactionState b)))
   then AssignTransactionId else mret tt) ;;
  gets (λ b, fullTransactionId (CurrentTransactionState b)).

Definition GetCurrentTransactionId : X Z :=
  f ← GetCurrentFullTransactionId;
  mret (XidFromFullTransactionId f).

(** ** Command ids *)

Definition InvalidCommandId : Z := 2 ^ 32 - 1.

Definition GetCurrentCommandId (used : bool) : X Z := λ b,
  if used then
    if IsParallelWorker b then (b, Err (ErrReport "cannot modify data in a parallel worker"))
    else (set_cid (currentCommandId b) true b, Ok (currentCommandId b))
  else (b, Ok (currentCommandId b)).

Definition CommandCounterIncrement : X unit := λ b,
  if currentCommandIdUsed b then
    if IsInParallelMode b || IsParallelWorker b then
      (b, Err (ErrReport "cannot start commands during a parallel operation"))
    else if u32 (currentCommandId b + 1) =? InvalidCommandId then
      (b, Err (ErrReport "cannot have more than 2^32-2 commands in a transaction"))
    else (set_cid (u32 (currentCommandId b + 1)) false b, Ok tt)
  else (b, Ok tt).

(** User code run from here, such as deferred triggers. *)
Definition user_code : X unit := λ b,
  match acts b with
  | a :: l =>
      ((if act_writes a then GetCurrentTransactionId ;; GetCurrentCommandId true ;; mret tt else mret tt) ;;
       (if act_fails a then fail (ErrReport "error in user code") else mret tt)) (set_acts l b)
  | [] => (b, Ok tt)
  end.

(** ** Ends of transactions in the commit log *)

Definition write_clog (ws : list write) : X unit :=
  modify (λ b, set_shmem (set_pg_xact (run_writes ws (pg_xact (shmem b))) (shmem b)) b).

Definition did_commit (b : backend) (xid : Z) : bool :=
  match TransactionIdDidCommit (S (size (pg_subtrans (shmem b)))) (pg_xact (shmem b)) (pg_subtrans (shmem b))
          (TransactionXmin b) (InvalidTransactionId, TRANSACTION_STATUS_IN_PROGRESS) xid with
  | Some (_, r) => r
  | None => false
  end.

(** The commit record and the WAL flush are not modelled; a transaction with
    no id fails here if it deleted files. *)
Definition RecordTransactionCommit : X unit :=
  b ← get;
  let xid := GetTopTransactionIdIfAny b in
  if TransactionIdIsValid xid
  then write_clog (TransactionIdCommitTree xid (childXids (CurrentTransactionState b)))
  else subsystem.

Definition RecordTransactionAbort : X unit :=
  b ← get;
  let xid := GetCurrentTransactionIdIfAny b in
  if negb (TransactionIdIsValid xid) then mret tt
  else if did_commit b xid then fail (ErrPanic "cannot abort transaction, it was already committed")
  else write_clog (TransactionIdAbortTree xid (childXids (CurrentTransactionState b))).

(** ** Start, commit, prepare, abort and cleanup of a transaction *)

Definition TopSubTransactionId : Z := 1.

Definition InvalidSubTransactionId : Z := 0.

Definition EnterParallelMode : X unit :=
  upd (λ s, set_parallel (parallelModeLevel s + 1) (parallelChildXact s) s).

Definition ExitParallelMode : X unit :=
  upd (λ s, set_parallel (parallelModeLevel s - 1) (parallelChildXact s) s).

(** [TopTransactionStateData] *)
Definition top_level (b : backend) : TransactionStateData :=
  default (CurrentTransactionState b) (list.last (parents b)).

Definition StartTransaction : X unit :=
  modify (λ b, set_stack (top_level b) [] b) ;;
  upd (λ s, set_fxid InvalidFullTransactionId (set_state TRANS_START s)) ;;
  upd (λ s, set_childXids [] (set_ids (subTransactionId s) 1 s)) ;;
  modify (λ b, set_immediate false (set_chars
    (if RecoveryInProgress b
     then mkChars (XactIsoLevel (default_chars b)) true (XactDeferrable (default_chars b))
     else default_chars b) b)) ;;
  upd (λ s, set_ids TopSubTransactionId (nestingLevel s) s) ;;
  modify (λ b, set_cid 0 false (set_subid TopSubTransactionId b)) ;;
  subsystem ;;                                    (* AtStart_Memory *)
  upd (set_owner true) ;;                         (* AtStart_ResourceOwner *)
  subsystem ;;                                    (* locks, GUC, caches, triggers *)
  upd (set_state TRANS_INPROGRESS).

(** The fields of the current level that the end of a transaction clears. *)
Definition clear_level (s : TransactionStateData) : TransactionStateData :=
  set_childXids [] (set_ids InvalidSubTransactionId 0 (set_fxid InvalidFullTransactionId (set_owner false s))).

Definition warn_parallel (expected : Z) (msg : string) : X unit :=
  l ← gets (parallelModeLevel ∘ CurrentTransactionState);
  if l =? expected then mret tt else warn msg.

Definition CommitTransaction : X unit :=
  bs ← gets (blockState ∘ CurrentTransactionState);
  let is_parallel_worker := bool_decide (bs = TBLOCK_PARALLEL_INPROGRESS) in
  (if is_parallel_worker then EnterParallelMode else mret tt) ;;
  warn_unless [TRANS_INPROGRESS] "CommitTransaction" ;;
  user_code ;;                                    (* deferred triggers, portals *)
  subsystem ;;                                    (* the rest of the pre-commit work *)
  (if is_parallel_worker
   then warn_parallel 1 "parallelModeLevel is not 1 at end of parallel worker transaction"
   else warn_parallel 0 "parallelModeLevel is not 0 at end of transaction") ;;
  subsystem ;;                                    (* triggers, ON COMMIT, NOTIFY, serialization *)
  upd (λ s, set_parallel 0 false (set_state TRANS_COMMIT s)) ;;
  (if is_parallel_worker then mret tt else RecordTransactionCommit) ;;
  upd clear_level ;;
  modify (set_top InvalidFullTransactionId) ;;
  upd (set_state TRANS_DEFAULT).

(** [MarkAsPreparing] refuses a GID in use; its other refusals, and the
    failures of the modules that save their state, are the steps around it. *)
Definition MarkAsPreparing (gid : string) : X unit :=
  ps ← gets prepared;
  if existsb (λ g, String.eqb (gxact_gid g) gid) ps
  then fail (ErrReport "transaction identifier is already in use") else mret tt.

Definition PrepareTransaction : X unit :=
  fxid ← GetCurrentFullTransactionId;
  warn_unless [TRANS_INPROGRESS] "PrepareTransaction" ;;
  user_code ;;
  subsystem ;;
  upd (set_state TRANS_PREPARE) ;;
  subsystem ;;
  gid ← gets (default EmptyString ∘ prepareGID);
  MarkAsPreparing gid ;;
  modify (set_prepareGID None) ;;
  subsystem ;;                                    (* StartPrepare, AtPrepare_* *)
  modify (λ b, set_prepared (prepared b ++ [mkGlobal gid fxid (childXids (CurrentTransactionState b))]) b) ;;
  upd clear_level ;;
  modify (set_top InvalidFullTransactionId) ;;
  upd (set_state TRANS_DEFAULT).

Definition AbortTransaction : X unit :=
  bs ← gets (blockState ∘ CurrentTransactionState);
  warn_unless [TRANS_INPROGRESS; TRANS_PREPARE] "AbortTransaction" ;;
  upd (λ s, set_parallel 0 false (set_state TRANS_ABORT s)) ;;
  if bool_decide (bs = TBLOCK_PARALLEL_INPROGRESS) then mret tt else RecordTransactionAbort.

Definition CleanupTransaction : X unit :=
  st ← gets (state ∘ CurrentTransactionState);
  (if bool_decide (st = TRANS_ABORT) then mret tt
   else fail (ErrFatal ("CleanupTransaction: unexpected state " +:+ TransStateAsString st))) ;;
  upd (λ s, set_parallel 0 false (clear_level s)) ;;
  modify (set_top InvalidFullTransactionId) ;;
  upd (set_state TRANS_DEFAULT).

(** ** Subtransactions *)

Definition PushTransaction : X unit :=
  subsystem ;;                                    (* the allocation *)
  b ← get;
  let p := CurrentTransactionState b in
  let subid := u32 (currentSubTransactionId b + 1) in
  if subid =? InvalidSubTransactionId then
    fail (ErrReport "cannot have more than 2^32-1 subtransactions in a transaction")
  else
    modify (set_subid subid) ;;
    modify (set_stack
      (mkLevel InvalidFullTransactionId subid None (savepointLevel p) TRANS_DEFAULT TBLOCK_SUBBEGIN
         (nestingLevel p + 1) false [] (XactReadOnly (xact_chars b)) 0
         (negb (parallelModeLevel p =? 0) || parallelChildXact p) false)
      (p :: parents b)).

Definition PopTransaction : X unit :=
  warn_unless [TRANS_DEFAULT] "PopTransaction" ;;
  b ← get;
  match parents b with
  | [] => fail (ErrFatal "PopTransaction with no parent")
  | p :: ps => modify (set_stack p ps)
  end.

Definition StartSubTransaction : X unit :=
  warn_unless [TRANS_DEFAULT] "StartSubTransaction" ;;
  upd (set_state TRANS_START) ;;
  subsystem ;;                                    (* AtSubStart_Memory *)
  upd (set_owner true) ;;                         (* AtSubStart_ResourceOwner *)
  subsystem ;;                                    (* AfterTriggerBeginSubXact *)
  upd (set_state TRANS_INPROGRESS) ;;
  subsystem.                                      (* CallSubXactCallbacks *)

(** [MaxAllocSize / sizeof(TransactionId)] *)
Definition max_child_xids : Z := 1073741823 / 4.

Definition AtSubCommit_childXids : X unit := λ b,
  let s := CurrentTransactionState b in
  match parents b with
  | [] => (b, Err ErrUB)
  | p :: ps =>
      let new_childXids := childXids p ++ XidFromFullTransactionId (fullTransactionId s) :: childXids s in
      if max_child_xids <? Z.of_nat (length new_childXids) then
        (b, Err (ErrReport "maximum number of committed subtransactions exceeded"))
      else (set_stack (set_childXids [] s) (set_childXids new_childXids p :: ps) b, Ok tt)
  end.

Definition restore_read_only : X unit :=
  modify (λ b, set_chars (mkChars (XactIsoLevel (xact_chars b)) (prevXactReadOnly (CurrentTransactionState b))
    (XactDeferrable (xact_chars b))) b).

Definition CommitSubTransaction : X unit :=
  warn_unless [TRANS_INPROGRESS] "CommitSubTransaction" ;;
  subsystem ;;                                    (* callbacks, parallel workers *)
  warn_parallel 0 "parallelModeLevel is not 0 at end of subtransaction" ;;
  upd (λ s, set_parallel 0 (parallelChildXact s) s) ;;
  upd (set_state TRANS_COMMIT) ;;
  CommandCounterIncrement ;;
  s ← gets CurrentTransactionState;
  (if FullTransactionIdIsValid (fullTransactionId s) then AtSubCommit_childXids else mret tt) ;;
  restore_read_only ;;
  upd (set_owner false) ;;
  upd (set_state TRANS_DEFAULT) ;;
  PopTransaction.

Definition AbortSubTransaction : X unit :=
  warn_unless [TRANS_INPROGRESS] "AbortSubTransaction" ;;
  upd (set_state TRANS_ABORT) ;;
  upd (λ s, set_parallel 0 (parallelChildXact s) s) ;;
  s ← gets CurrentTransactionState;
  (if curTransactionOwner s then
     RecordTransactionAbort ;;
     (if FullTransactionIdIsValid (fullTransactionId s) then upd (set_childXids []) else mret tt)
   else mret tt) ;;
  restore_read_only.

Definition CleanupSubTransaction : X unit :=
  warn_unless [TRANS_ABORT] "CleanupSubTransaction" ;;
  upd (set_owner false) ;;
  upd (set_state TRANS_DEFAULT) ;;
  PopTransaction.

(** ** Commands of the transaction block *)

Definition block (bs : TBlockState) : X unit := upd (set_block bs).

Definition StartTransactionCommand : X unit :=
  bs ← gets (blockState ∘ CurrentTransactionState);
  match bs with
  | TBLOCK_DEFAULT => StartTransaction ;; block TBLOCK_STARTED
  | TBLOCK_INPROGRESS | TBLOCK_IMPLICIT_INPROGRESS | TBLOCK_SUBINPROGRESS => mret tt
  | TBLOCK_ABORT | TBLOCK_SUBABORT => mret tt
  | _ => fail (ErrReport (unexpected "StartTransactionCommand" bs))
  end.

(** After the end of a transaction: the next one of [COMMIT AND CHAIN] and
    [ROLLBACK AND CHAIN]. *)
Definition start_chained (savetc : characteristics) : X unit :=
  c ← gets (chain ∘ CurrentTransactionState);
  if c : bool then
    StartTransaction ;;
    block TBLOCK_INPROGRESS ;;
    upd (set_chain false) ;;
    modify (set_chars savetc)
  else mret tt.

(** Names a level pushed for [ROLLBACK TO] as the one it replaces. *)
Definition name_level (n : option string) (level : Z) (s : TransactionStateData) : TransactionStateData :=
  set_savepointLevel level (set_name n s).

Definition DefineSavepoint (n : option string) : X unit :=
  b ← get;
  let bs := blockState (CurrentTransactionState b) in
  if IsInParallelMode b || IsParallelWorker b
  then fail (ErrReport "cannot define savepoints during a parallel operation")
  else
    match bs with
    | TBLOCK_INPROGRESS | TBLOCK_SUBINPROGRESS =>
        PushTransaction ;;
        match n with
        | Some nm => upd (set_name (Some nm))
        | None => mret tt
        end
    | TBLOCK_IMPLICIT_INPROGRESS => fail (ErrReport "SAVEPOINT can only be used in transaction blocks")
    | _ => fail (ErrFatal (unexpected "DefineSavepoint" bs))
    end.

(** The [do]-loops that subcommit the levels in block state [bs]; each
    iteration pops a level, so the number of parents bounds them. *)
Fixpoint commit_levels (fuel : nat) (bs : TBlockState) : X unit :=
  match fuel with
  | O => fail ErrUB
  | S fuel' =>
      CommitSubTransaction ;;
      bs' ← gets (blockState ∘ CurrentTransactionState);
      if bool_decide (bs' = bs) then commit_levels fuel' bs else mret tt
  end.

Definition restart_savepoint (n : option string) (level : Z) : X unit :=
  CleanupSubTransaction ;;
  DefineSavepoint None ;;
  upd (name_level n level) ;;
  StartSubTransaction ;;
  block TBLOCK_SUBINPROGRESS.

(** The cases of [CommitTransactionCommandInternal], for a level with block state
    [bs], savepoint name [n] and savepoint level [level]. *)
Definition commit_current_body (bs : TBlockState) (n : option string) (level : Z) (savetc : characteristics)
    (loop : TBlockState → X unit) : X bool :=
  match bs with
  | TBLOCK_DEFAULT | TBLOCK_PARALLEL_INPROGRESS =>
      fail (ErrFatal (unexpected "CommitTransactionCommand" bs))
  | TBLOCK_STARTED => CommitTransaction ;; block TBLOCK_DEFAULT ;; mret true
  | TBLOCK_BEGIN => block TBLOCK_INPROGRESS ;; mret true
  | TBLOCK_INPROGRESS | TBLOCK_IMPLICIT_INPROGRESS | TBLOCK_SUBINPROGRESS =>
      CommandCounterIncrement ;; mret true
  | TBLOCK_END => CommitTransaction ;; block TBLOCK_DEFAULT ;; start_chained savetc ;; mret true
  | TBLOCK_ABORT | TBLOCK_SUBABORT => mret true
  | TBLOCK_ABORT_END => CleanupTransaction ;; block TBLOCK_DEFAULT ;; start_chained savetc ;; mret true
  | TBLOCK_ABORT_PENDING =>
      AbortTransaction ;; CleanupTransaction ;; block TBLOCK_DEFAULT ;; start_chained savetc ;; mret true
  | TBLOCK_PREPARE => PrepareTransaction ;; block TBLOCK_DEFAULT ;; mret true
  | TBLOCK_SUBBEGIN => StartSubTransaction ;; block TBLOCK_SUBINPROGRESS ;; mret true
  | TBLOCK_SUBRELEASE => loop TBLOCK_SUBRELEASE ;; mret true
  | TBLOCK_SUBCOMMIT =>
      loop TBLOCK_SUBCOMMIT ;;
      bs' ← gets (blockState ∘ CurrentTransactionState);
      match bs' with
      | TBLOCK_END => CommitTransaction ;; block TBLOCK_DEFAULT ;; start_chained savetc ;; mret true
      | TBLOCK_PREPARE => PrepareTransaction ;; block TBLOCK_DEFAULT ;; mret true
      | _ => fail (ErrReport (unexpected "CommitTransactionCommand" bs'))
      end
  | TBLOCK_SUBABORT_END => CleanupSubTransaction ;; mret false
  | TBLOCK_SUBABORT_PENDING => AbortSubTransaction ;; CleanupSubTransaction ;; mret false
  | TBLOCK_SUBRESTART =>
      upd (set_name None) ;; AbortSubTransaction ;; restart_savepoint n level ;; mret true
  | TBLOCK_SUBABORT_RESTART =>
      upd (set_name None) ;; restart_savepoint n level ;; mret true
  end.

Definition CommitTransactionCommandInternal : X bool :=
  b ← get;
  let s := CurrentTransactionState b in
  commit_current_body (blockState s) (name s) (savepointLevel s) (xact_chars b) (commit_levels (S (length (parents b)))).

(** [while (!body()) ;], with an iteration for every level of the stack. *)
Fixpoint until_done (fuel : nat) (body : X bool) : X unit :=
  match fuel with
  | O => fail ErrUB
  | S fuel' =>
      d ← body;
      if d : bool then mret tt else until_done fuel' body
  end.

Definition CommitTransactionCommand : X unit :=
  b ← get;
  until_done (S (length (parents b))) CommitTransactionCommandInternal.

(** Abort or cleanup of a transaction that failed while it was started. *)
Definition abort_default : X unit :=
  st ← gets (state ∘ CurrentTransactionState);
  if bool_decide (st = TRANS_DEFAULT) then mret tt
  else
    (if bool_decide (st = TRANS_START) then upd (set_state TRANS_INPROGRESS) else mret tt) ;;
    AbortTransaction ;;
    CleanupTransaction.

(** The cases of [AbortCurrentTransactionInternal]. *)
Definition abort_current_body (bs : TBlockState) : X bool :=
  match bs with
  | TBLOCK_DEFAULT => abort_default ;; mret true
  | TBLOCK_STARTED | TBLOCK_IMPLICIT_INPROGRESS =>
      AbortTransaction ;; CleanupTransaction ;; block TBLOCK_DEFAULT ;; mret true
  | TBLOCK_BEGIN => AbortTransaction ;; CleanupTransaction ;; block TBLOCK_DEFAULT ;; mret true
  | TBLOCK_INPROGRESS | TBLOCK_PARALLEL_INPROGRESS => AbortTransaction ;; block TBLOCK_ABORT ;; mret true
  | TBLOCK_END => AbortTransaction ;; CleanupTransaction ;; block TBLOCK_DEFAULT ;; mret true
  | TBLOCK_ABORT | TBLOCK_SUBABORT => mret true
  | TBLOCK_ABORT_END => CleanupTransaction ;; block TBLOCK_DEFAULT ;; mret true
  | TBLOCK_ABORT_PENDING => AbortTransaction ;; CleanupTransaction ;; block TBLOCK_DEFAULT ;; mret true
  | TBLOCK_PREPARE => AbortTransaction ;; CleanupTransaction ;; block TBLOCK_DEFAULT ;; mret true
  | TBLOCK_SUBINPROGRESS => AbortSubTransaction ;; block TBLOCK_SUBABORT ;; mret true
  | TBLOCK_SUBBEGIN | TBLOCK_SUBRELEASE | TBLOCK_SUBCOMMIT | TBLOCK_SUBABORT_PENDING | TBLOCK_SUBRESTART =>
      AbortSubTransaction ;; CleanupSubTransaction ;; mret false
  | TBLOCK_SUBABORT_END | TBLOCK_SUBABORT_RESTART => CleanupSubTransaction ;; mret false
  end.

Definition AbortCurrentTransactionInternal : X bool :=
  bs ← gets (blockState ∘ CurrentTransactionState);
  abort_current_body bs.

Definition AbortCurrentTransaction : X unit :=
  b ← get;
  until_done (S (length (parents b))) AbortCurrentTransactionInternal.

(** The body of the loop of [AbortOutOfAnyTransaction]. *)
Definition abort_out_body (bs : TBlockState) : X unit :=
  match bs with
  | TBLOCK_DEFAULT => abort_default
  | TBLOCK_STARTED | TBLOCK_BEGIN | TBLOCK_INPROGRESS | TBLOCK_IMPLICIT_INPROGRESS
  | TBLOCK_PARALLEL_INPROGRESS | TBLOCK_END | TBLOCK_ABORT_PENDING | TBLOCK_PREPARE =>
      AbortTransaction ;; CleanupTransaction ;; block TBLOCK_DEFAULT
  | TBLOCK_ABORT | TBLOCK_ABORT_END => CleanupTransaction ;; block TBLOCK_DEFAULT
  | TBLOCK_SUBBEGIN | TBLOCK_SUBINPROGRESS | TBLOCK_SUBRELEASE | TBLOCK_SUBCOMMIT
  | TBLOCK_SUBABORT_PENDING | TBLOCK_SUBRESTART => AbortSubTransaction ;; CleanupSubTransaction
  | TBLOCK_SUBABORT | TBLOCK_SUBABORT_END | TBLOCK_SUBABORT_RESTART => CleanupSubTransaction
  end.

(** An iteration; true when the block state is then [TBLOCK_DEFAULT]. *)
Definition abort_out_step : X bool :=
  bs ← gets (blockState ∘ CurrentTransactionState);
  abort_out_body bs ;;
  gets (λ b, bool_decide (blockState (CurrentTransactionState b) = TBLOCK_DEFAULT)).

Definition AbortOutOfAnyTransaction : X unit :=
  b ← get;
  until_done (S (length (parents b))) abort_out_step.

(** Marks the levels from the current one outwards: [sub] gives the new block
    state of a subtransaction and [top] that of the outermost level, [None]
    for a state that must not occur.  The levels marked before stay marked. *)
Fixpoint mark_levels (who : string) (sub top : TBlockState → option TBlockState) (chn : bool)
    (s : TransactionStateData) (ps : list TransactionStateData) :
    (TransactionStateData * list TransactionStateData) * result unit :=
  match ps with
  | [] =>
      match top (blockState s) with
      | Some bs => ((set_chain chn (set_block bs s), []), Ok tt)
      | None => ((s, []), Err (ErrFatal (unexpected who (blockState s))))
      end
  | p :: ps' =>
      match sub (blockState s) with
      | Some bs =>
          let '((p', ps''), r) := mark_levels who sub top chn p ps' in
          ((set_block bs s, p' :: ps''), r)
      | None => ((s, ps), Err (ErrFatal (unexpected who (blockState s))))
      end
  end.

Definition mark_stack (who : string) (sub top : TBlockState → option TBlockState) (chn : bool) : X unit := λ b,
  let '((s, ps), r) := mark_levels who sub top chn (CurrentTransactionState b) (parents b) in
  (set_stack s ps b, r).

Definition BeginTransactionBlock : X unit :=
  bs ← gets (blockState ∘ CurrentTransactionState);
  match bs with
  | TBLOCK_STARTED => block TBLOCK_BEGIN
  | TBLOCK_IMPLICIT_INPROGRESS => block TBLOCK_BEGIN
  | TBLOCK_INPROGRESS | TBLOCK_PARALLEL_INPROGRESS | TBLOCK_SUBINPROGRESS | TBLOCK_ABORT | TBLOCK_SUBABORT =>
      warn "there is already a transaction in progress"
  | _ => fail (ErrFatal (unexpected "BeginTransactionBlock" bs))
  end.

(** The marks of [COMMIT] in a live subtransaction. *)
Definition sub_commit (bs : TBlockState) : option TBlockState :=
  match bs with TBLOCK_SUBINPROGRESS => Some TBLOCK_SUBCOMMIT | _ => None end.

Definition top_commit (bs : TBlockState) : option TBlockState :=
  match bs with TBLOCK_INPROGRESS => Some TBLOCK_END | _ => None end.

(** The marks of [ROLLBACK], and of [COMMIT] in a failed subtransaction. *)
Definition sub_abort (bs : TBlockState) : option TBlockState :=
  match bs with
  | TBLOCK_SUBINPROGRESS => Some TBLOCK_SUBABORT_PENDING
  | TBLOCK_SUBABORT => Some TBLOCK_SUBABORT_END
  | _ => None
  end.

Definition top_abort (bs : TBlockState) : option TBlockState :=
  match bs with
  | TBLOCK_INPROGRESS => Some TBLOCK_ABORT_PENDING
  | TBLOCK_ABORT => Some TBLOCK_ABORT_END
  | _ => None
  end.

Definition no_transaction (chn : bool) (cmd : string) : X unit :=
  if chn then fail (ErrReport (cmd +:+ " AND CHAIN can only be used in transaction blocks"))
  else warn "there is no transaction in progress".

Definition EndTransactionBlock (chn : bool) : X bool :=
  bs ← gets (blockState ∘ CurrentTransactionState);
  match bs with
  | TBLOCK_INPROGRESS => block TBLOCK_END ;; upd (set_chain chn) ;; mret true
  | TBLOCK_IMPLICIT_INPROGRESS =>
      no_transaction chn "COMMIT" ;; block TBLOCK_END ;; upd (set_chain chn) ;; mret true
  | TBLOCK_ABORT => block TBLOCK_ABORT_END ;; upd (set_chain chn) ;; mret false
  | TBLOCK_SUBINPROGRESS => mark_stack "EndTransactionBlock" sub_commit top_commit chn ;; mret true
  | TBLOCK_SUBABORT => mark_stack "EndTransactionBlock" sub_abort top_abort chn ;; mret false
  | TBLOCK_STARTED => no_transaction chn "COMMIT" ;; upd (set_chain chn) ;; mret true
  | TBLOCK_PARALLEL_INPROGRESS => fail (ErrFatal "cannot commit during a parallel operation")
  | _ => fail (ErrFatal (unexpected "EndTransactionBlock" bs))
  end.

(** Changes the outermost level. *)
Definition upd_top (f : TransactionStateData → TransactionStateData) : X unit :=
  modify (λ b, match parents b with
               | [] => set_stack (f (CurrentTransactionState b)) [] b
               | ps => set_stack (CurrentTransactionState b) (alter f (length ps - 1)%nat ps) b
               end).

Definition PrepareTransactionBlock (gid : string) : X bool :=
  r ← EndTransactionBlock false;
  if r : bool then
    b ← get;
    match blockState (top_level b) with
    | TBLOCK_END => modify (set_prepareGID (Some gid)) ;; upd_top (set_block TBLOCK_PREPARE) ;; mret true
    | _ => mret false
    end
  else mret false.

Definition UserAbortTransactionBlock (chn : bool) : X unit :=
  bs ← gets (blockState ∘ CurrentTransactionState);
  match bs with
  | TBLOCK_INPROGRESS => block TBLOCK_ABORT_PENDING ;; upd (set_chain chn)
  | TBLOCK_ABORT => block TBLOCK_ABORT_END ;; upd (set_chain chn)
  | TBLOCK_SUBINPROGRESS | TBLOCK_SUBABORT => mark_stack "UserAbortTransactionBlock" sub_abort top_abort chn
  | TBLOCK_STARTED | TBLOCK_IMPLICIT_INPROGRESS =>
      no_transaction chn "ROLLBACK" ;; block TBLOCK_ABORT_PENDING ;; upd (set_chain chn)
  | TBLOCK_PARALLEL_INPROGRESS => fail (ErrFatal "cannot abort during a parallel operation")
  | _ => fail (ErrFatal (unexpected "UserAbortTransactionBlock" bs))
  end.

Definition BeginImplicitTransactionBlock : X unit :=
  bs ← gets (blockState ∘ CurrentTransactionState);
  if bool_decide (bs = TBLOCK_STARTED) then block TBLOCK_IMPLICIT_INPROGRESS else mret tt.

Definition EndImplicitTransactionBlock : X unit :=
  bs ← gets (blockState ∘ CurrentTransactionState);
  if bool_decide (bs = TBLOCK_IMPLICIT_INPROGRESS) then block TBLOCK_STARTED else mret tt.

(** The innermost level with the savepoint name. *)
Fixpoint find_savepoint (n : string) (levels : list TransactionStateData) : option nat :=
  match levels with
  | [] => None
  | s :: ps => if bool_decide (name s = Some n) then Some O else S <$> find_savepoint n ps
  end.

(** The level a savepoint command refers to, within the savepoint level. *)
Definition savepoint_target (n : string) : X nat :=
  b ← get;
  let levels := CurrentTransactionState b :: parents b in
  match find_savepoint n levels with
  | None => fail (ErrReport "savepoint does not exist")
  | Some i =>
      match levels !! i with
      | Some target =>
          if savepointLevel target =? savepointLevel (CurrentTransactionState b) then mret i
          else fail (ErrReport "savepoint does not exist within current savepoint level")
      | None => fail ErrUB
      end
  end.

(** Marks the levels up to index [i]; [last] is for the level at [i]. *)
Fixpoint mark_upto (who : string) (sub last : TBlockState → option TBlockState) (i : nat)
    (levels : list TransactionStateData) : list TransactionStateData * result unit :=
  match levels with
  | [] => ([], Err ErrUB)
  | s :: ps =>
      match (match i with O => last | S _ => sub end) (blockState s), i with
      | Some bs, O => (set_block bs s :: ps, Ok tt)
      | Some bs, S i' => let '(ps', r) := mark_upto who sub last i' ps in (set_block bs s :: ps', r)
      | None, _ => (s :: ps, Err (ErrFatal (unexpected who (blockState s))))
      end
  end.

Definition mark_target (who : string) (sub last : TBlockState → option TBlockState) (i : nat) : X unit := λ b,
  match mark_upto who sub last i (CurrentTransactionState b :: parents b) with
  | (s :: ps, r) => (set_stack s ps b, r)
  | ([], r) => (b, Err ErrUB)
  end.

Definition ReleaseSavepoint (n : string) : X unit :=
  b ← get;
  let bs := blockState (CurrentTransactionState b) in
  if IsInParallelMode b || IsParallelWorker b
  then fail (ErrReport "cannot release savepoints during a parallel operation")
  else
    match bs with
    | TBLOCK_INPROGRESS => fail (ErrReport "savepoint does not exist")
    | TBLOCK_IMPLICIT_INPROGRESS => fail (ErrReport "RELEASE SAVEPOINT can only be used in transaction blocks")
    | TBLOCK_SUBINPROGRESS =>
        i ← savepoint_target n;
        mark_target "ReleaseSavepoint" (λ _, Some TBLOCK_SUBRELEASE) (λ _, Some TBLOCK_SUBRELEASE) i
    | _ => fail (ErrFatal (unexpected "ReleaseSavepoint" bs))
    end.

Definition sub_restart (bs : TBlockState) : option TBlockState :=
  match bs with
  | TBLOCK_SUBINPROGRESS => Some TBLOCK_SUBRESTART
  | TBLOCK_SUBABORT => Some TBLOCK_SUBABORT_RESTART
  | _ => None
  end.

Definition RollbackToSavepoint (n : string) : X unit :=
  b ← get;
  let bs := blockState (CurrentTransactionState b) in
  if IsInParallelMode b || IsParallelWorker b
  then fail (ErrReport "cannot rollback to savepoints during a parallel operation")
  else
    match bs with
    | TBLOCK_INPROGRESS | TBLOCK_ABORT => fail (ErrReport "savepoint does not exist")
    | TBLOCK_IMPLICIT_INPROGRESS => fail (ErrReport "ROLLBACK TO SAVEPOINT can only be used in transaction blocks")
    | TBLOCK_SUBINPROGRESS | TBLOCK_SUBABORT =>
        i ← savepoint_target n;
        mark_target "RollbackToSavepoint" sub_abort sub_restart i
    | _ => fail (ErrFatal (unexpected "RollbackToSavepoint" bs))
    end.

(** [ExitOnAnyError]: an error ends the backend. *)
Definition exit_on_error {A} (m : X A) : X A := λ b,
  match m b with
  | (b', Err (ErrReport msg)) => (b', Err (ErrFatal msg))
  | r => r
  end.

Definition BeginInternalSubTransaction (n : option string) : X unit :=
  exit_on_error
    (bs ← gets (blockState ∘ CurrentTransactionState);
     match bs with
     | TBLOCK_STARTED | TBLOCK_INPROGRESS | TBLOCK_IMPLICIT_INPROGRESS | TBLOCK_PARALLEL_INPROGRESS
     | TBLOCK_END | TBLOCK_PREPARE | TBLOCK_SUBINPROGRESS =>
         PushTransaction ;;
         match n with
         | Some nm => upd (set_name (Some nm))
         | None => mret tt
         end
     | _ => fail (ErrFatal (unexpected "BeginInternalSubTransaction" bs))
     end ;;
     CommitTransactionCommand ;;
     StartTransactionCommand).

Definition ReleaseCurrentSubTransaction : X unit :=
  bs ← gets (blockState ∘ CurrentTransactionState);
  if bool_decide (bs = TBLOCK_SUBINPROGRESS) then CommitSubTransaction
  else fail (ErrReport (unexpected "ReleaseCurrentSubTransaction" bs)).

Definition RollbackAndReleaseCurrentSubTransaction : X unit :=
  bs ← gets (blockState ∘ CurrentTransactionState);
  match bs with
  | TBLOCK_SUBINPROGRESS => AbortSubTransaction ;; CleanupSubTransaction
  | TBLOCK_SUBABORT => CleanupSubTransaction
  | _ => fail (ErrFatal (unexpected "RollbackAndReleaseCurrentSubTransaction" bs))
  end.

Definition PreventInTransactionBlock (isTopLevel : bool) (stmtType : string) : X unit :=
  b ← get;
  if IsTransactionBlock b then fail (ErrReport (stmtType +:+ " cannot run inside a transaction block"))
  else if IsSubTransaction b then fail (ErrReport (stmtType +:+ " cannot run inside a subtransaction"))
  else if negb isTopLevel then
    fail (ErrReport (stmtType +:+ " cannot be executed from a function or procedure"))
  else
    match blockState (CurrentTransactionState b) with
    | TBLOCK_DEFAULT | TBLOCK_STARTED => modify (set_immediate true)
    | _ => fail (ErrFatal "cannot prevent transaction chain")
    end.

Definition CheckTransactionBlock (isTopLevel throwError : bool) (stmtType : string) : X unit :=
  b ← get;
  if IsTransactionBlock b then mret tt
  else if IsSubTransaction b then mret tt
  else if negb isTopLevel then mret tt
  else
    let msg := stmtType +:+ " can only be used in transaction blocks" in
    if throwError then fail (ErrReport msg) else warn msg.

Definition WarnNoTransactionBlock (isTopLevel : bool) (stmtType : string) : X unit :=
  CheckTransactionBlock isTopLevel false stmtType.

Definition RequireTransactionBlock (isTopLevel : bool) (stmtType : string) : X unit :=
  CheckTransactionBlock isTopLevel true stmtType.

Definition IsInTransactionBlock (b : backend) (isTopLevel : bool) : bool :=
  if IsTransactionBlock b then true
  else if IsSubTransaction b then true
  else if negb isTopLevel then true
  else
    match blockState (CurrentTransactionState b) with
    | TBLOCK_DEFAULT | TBLOCK_STARTED => false
    | _ => true
    end.
