(* ===== verification/XactInv.v ===== *)
(** * Invariants of the transaction stack

    What holds of a backend of [Xact] at every point where control can leave a
    routine, an error included: the block state and the low-level state of each
    level agree, the levels are numbered, each level's transaction ids are in
    the order of their assignment and follow those of its parent, and the commit
    log has them in progress or aborted as the level is.

    The theorems show that [TransactionIdIsCurrentTransactionId] finds exactly
    the ids of the levels that are not aborted, and that from any state in which
    an error can occur [AbortCurrentTransaction] and [AbortOutOfAnyTransaction]
    terminate in the state they promise with every id of the levels they give up
    aborted in the log. *)
From stdpp Require Import base tactics list gmap strings numbers sorting.
From Stdlib Require Import ZArith Lia Bool.
From S2P Require Import Prelude Visibility Clog XidGen Xact.

Definition levels (b : backend) : list TransactionStateData := CurrentTransactionState b :: parents b.

(** The ids a level answers for: its own and those of its committed children. *)
Definition owned (s : TransactionStateData) : list Z :=
  if fullTransactionId s =? InvalidFullTransactionId then []
  else XidFromFullTransactionId (fullTransactionId s) :: childXids s.

(** The ids of the levels, the innermost first, from [base] on and below [hi]:
    a level with an id has parents with ids, and its own and its children's
    follow all of theirs. *)
Fixpoint xids_ok (base hi : Z) (ls : list TransactionStateData) : Prop :=
  match ls with
  | [] => True
  | s :: ps =>
      if fullTransactionId s =? InvalidFullTransactionId then childXids s = [] ∧ xids_ok base hi ps
      else
        ∃ fulls, childXids s = u32 <$> fulls ∧
          Forall normal_xid (fullTransactionId s :: fulls) ∧
          StronglySorted Z.lt (fullTransactionId s :: fulls) ∧
          Forall (λ x, base ≤ x < hi) (fullTransactionId s :: fulls) ∧
          Forall (λ p, fullTransactionId p ≠ InvalidFullTransactionId) ps ∧
          xids_ok base (fullTransactionId s) ps
  end.

Definition sub_block (bs : TBlockState) : bool :=
  match bs with
  | TBLOCK_SUBBEGIN | TBLOCK_SUBINPROGRESS | TBLOCK_SUBRELEASE | TBLOCK_SUBCOMMIT | TBLOCK_SUBABORT
  | TBLOCK_SUBABORT_END | TBLOCK_SUBABORT_PENDING | TBLOCK_SUBRESTART | TBLOCK_SUBABORT_RESTART => true
  | _ => false
  end.

(** The low-level states a block state goes with at the current level. *)
Definition state_fits (bs : TBlockState) (st : TransState) : bool :=
  match bs with
  | TBLOCK_DEFAULT => bool_decide (st ∈ [TRANS_DEFAULT; TRANS_START])
  | TBLOCK_SUBBEGIN => bool_decide (st ∈ [TRANS_DEFAULT; TRANS_START; TRANS_INPROGRESS])
  | TBLOCK_ABORT | TBLOCK_ABORT_END | TBLOCK_SUBABORT | TBLOCK_SUBABORT_END | TBLOCK_SUBABORT_RESTART =>
      bool_decide (st = TRANS_ABORT)
  | TBLOCK_PARALLEL_INPROGRESS => false
  | _ => bool_decide (st ∈ [TRANS_INPROGRESS; TRANS_COMMIT; TRANS_PREPARE])
  end.

(** The block states of a level with a subtransaction inside of it. *)
Definition parent_block (bs : TBlockState) : bool :=
  match bs with
  | TBLOCK_STARTED | TBLOCK_INPROGRESS | TBLOCK_IMPLICIT_INPROGRESS | TBLOCK_END | TBLOCK_ABORT_PENDING
  | TBLOCK_PREPARE | TBLOCK_SUBINPROGRESS | TBLOCK_SUBRELEASE | TBLOCK_SUBCOMMIT
  | TBLOCK_SUBABORT_PENDING | TBLOCK_SUBRESTART => true
  | _ => false
  end.

(** No parallel operation is in progress. *)
Definition not_parallel (s : TransactionStateData) : Prop :=
  parallelModeLevel s = 0 ∧ parallelChildXact s = false.

Fixpoint parents_ok (ps : list TransactionStateData) : Prop :=
  match ps with
  | [] => True
  | p :: ps' =>
      parent_block (blockState p) = true ∧ state p = TRANS_INPROGRESS ∧ curTransactionOwner p = true ∧
      sub_block (blockState p) = negb (bool_decide (ps' = [])) ∧
      nestingLevel p = 1 + Z.of_nat (length ps') ∧ parents_ok ps'
  end.

(** The current level above [n] parents. *)
Record cur_ok (n : nat) (s : TransactionStateData) : Prop := mkCurOk {
  cur_block : sub_block (blockState s) = (0 <? n)%nat;
  cur_state : state_fits (blockState s) (state s) = true;
  cur_nest : nestingLevel s = if bool_decide (blockState s = TBLOCK_DEFAULT ∧ state s = TRANS_DEFAULT)
                              then 0 else 1 + Z.of_nat n;
  cur_owner : fullTransactionId s ≠ InvalidFullTransactionId → curTransactionOwner s = true;
  cur_fresh : blockState s = TBLOCK_DEFAULT ∨ blockState s = TBLOCK_SUBBEGIN →
              fullTransactionId s = InvalidFullTransactionId
}.

Definition level_status (c : clog) (s : TransactionStateData) : Prop :=
  Forall (λ x, TransactionIdGetStatus c x =
    if bool_decide (state s = TRANS_ABORT) then TRANSACTION_STATUS_ABORTED
    else TRANSACTION_STATUS_IN_PROGRESS) (owned s).

(** All but the conditions on the current level. *)
Record core (base : Z) (b : backend) : Prop := mkCore {
  core_shared : shared_ok base (shmem b);
  core_xids : xids_ok base (nextXid (TransamVariables (shmem b))) (levels b);
  core_top : XactTopFullTransactionId b = fullTransactionId (top_level b);
  core_status : Forall (level_status (pg_xact (shmem b))) (levels b);
  core_parents : parents_ok (parents b);
  core_plain : Forall not_parallel (levels b) ∧ IsParallelWorker b = false
}.

Record inv (base : Z) (b : backend) : Prop := mkInv {
  inv_core : core base b;
  inv_cur : cur_ok (length (parents b)) (CurrentTransactionState b)
}.

Definition idle (b : backend) : Prop :=
  parents b = [] ∧ blockState (CurrentTransactionState b) = TBLOCK_DEFAULT ∧
  state (CurrentTransactionState b) = TRANS_DEFAULT.

(** ** Transaction ids of the levels *)

Lemma valid_full x : normal_xid x → FullTransactionIdIsValid x = true ∧ x ≠ InvalidFullTransactionId.
Proof.
  intros Hx. split; [apply not_sub_committed_zero, (normal_xid32 x Hx)|].
  intros ->. destruct Hx as [Hx _]. by vm_compute in Hx.
Qed.

Lemma invalid_full : FullTransactionIdIsValid InvalidFullTransactionId = false.
Proof. done. Qed.

Lemma xids_valid base hi s ps : xids_ok base hi (s :: ps) →
  FullTransactionIdIsValid (fullTransactionId s) = negb (fullTransactionId s =? InvalidFullTransactionId).
Proof.
  simpl. destruct (Z.eqb_spec (fullTransactionId s) InvalidFullTransactionId) as [->|Hne]; [done|].
  intros (fulls & _ & Hn & _). apply list.Forall_cons in Hn as [Hn _]. by apply valid_full.
Qed.

Lemma xids_mono base hi hi' ls : hi ≤ hi' → xids_ok base hi ls → xids_ok base hi' ls.
Proof.
  intros Hh. induction ls as [|s ps IH]; [done|]. simpl. destruct (_ =? _).
  - intros [H1 H2]. split; [done|]. by apply IH.
  - intros (fulls & H1 & H2 & H3 & H4 & H5 & H6). exists fulls. split_and!; try done.
    eapply list.Forall_impl; [exact H4|]. simpl. lia.
Qed.

Lemma xids_tail base hi s ps : xids_ok base hi (s :: ps) → xids_ok base hi ps.
Proof.
  cbn [xids_ok]. destruct (_ =? _); [by intros [_ H]|]. intros (fulls & _ & _ & _ & Hr & _ & H).
  apply list.Forall_cons in Hr as [Hr _]. apply (xids_mono _ (fullTransactionId s)); [lia|done].
Qed.

(** An id of the levels as a 64-bit id below [hi]. *)
Lemma owned_full base hi s ps x : xids_ok base hi (s :: ps) → x ∈ owned s →
  ∃ f, x = u32 f ∧ normal_xid f ∧ base ≤ f < hi ∧ fullTransactionId s ≤ f.
Proof.
  unfold owned. simpl. destruct (_ =? _); [intros _ H; by apply elem_of_nil in H|].
  intros (fulls & Hc & Hn & Hs & Hr & _) Hx. rewrite Hc in Hx.
  change (x ∈ u32 <$> (fullTransactionId s :: fulls)) in Hx.
  apply list_elem_of_fmap in Hx as (f & -> & Hf). exists f.
  rewrite list.Forall_forall in Hn, Hr. split_and!; [done|by apply Hn|by apply Hr..|].
  apply elem_of_cons in Hf as [->|Hf]; [done|].
  apply StronglySorted_inv in Hs as [_ Hs]. rewrite list.Forall_forall in Hs. specialize (Hs f Hf). lia.
Qed.

Lemma parents_owned_full base hi ls s x : xids_ok base hi ls → s ∈ ls → x ∈ owned s →
  ∃ f, x = u32 f ∧ normal_xid f ∧ base ≤ f < hi.
Proof.
  revert hi. induction ls as [|s0 ps IH]; intros hi Hok Hs Hx; [by apply elem_of_nil in Hs|].
  apply elem_of_cons in Hs as [->|Hs].
  - destruct (owned_full _ _ _ _ _ Hok Hx) as (f & ? & ? & ? & _). by exists f.
  - simpl in Hok. destruct (_ =? _); [by apply (IH hi (proj2 Hok))|].
    destruct Hok as (fulls & _ & _ & _ & Hr & _ & Hok). apply list.Forall_cons in Hr as [Hr _].
    destruct (IH _ Hok Hs Hx) as (f & ? & ? & ?). exists f. split_and!; try done; lia.
Qed.

(** The ids of the current level differ from those of its parents. *)
Lemma owned_disjoint base hi s ps p x : xids_ok base hi (s :: ps) → hi ≤ base + 2 ^ 31 →
  p ∈ ps → x ∈ owned s → x ∉ owned p.
Proof.
  intros Hok Hw Hp Hs Hpx. destruct (owned_full _ _ _ _ _ Hok Hs) as (f & -> & _ & Hf & Hsf).
  simpl in Hok. unfold owned in Hs. destruct (_ =? _); [by apply elem_of_nil in Hs|].
  destruct Hok as (fulls & _ & _ & _ & _ & _ & Hok).
  destruct (parents_owned_full _ _ _ _ _ Hok Hp Hpx) as (g & He & _ & Hg).
  apply u32_inj_window in He; lia.
Qed.

(** ** The search for an id *)

Lemma find_child_sound fuel xs low high xid : 0 ≤ low → high < Z.of_nat (length xs) →
  find_child fuel xs low high xid = true → xid ∈ xs.
Proof.
  revert low high. induction fuel as [|fuel IH]; intros low high Hl Hh; [done|]. cbn [find_child].
  destruct (Z.leb_spec low high); [|done]. set (m := low + (high - low) / 2).
  assert (low ≤ m ≤ high) by (subst m; Z.to_euclidean_division_equations; lia).
  destruct (lookup_lt_is_Some_2 xs (Z.to_nat m)) as [y Hy]; [lia|]. rewrite Hy. cbn [default from_option id].
  destruct (Z.eqb_spec y xid) as [->|]; [intros _; by eapply list_elem_of_lookup_2|].
  destruct (TransactionIdPrecedes y xid); apply IH; lia.
Qed.

Lemma sorted_lookup (l : list Z) i j x y : StronglySorted Z.lt l → l !! i = Some x → l !! j = Some y →
  (i < j)%nat → x < y.
Proof.
  intros Hs. revert i j. induction Hs as [|a l Hs IH Hf]; intros i j Hi Hj Hij; [done|].
  destruct j as [|j]; [lia|]. simpl in Hj. destruct i as [|i]; [|apply (IH i j); [done..|lia]].
  injection Hi as ->. rewrite list.Forall_forall in Hf. apply Hf. by eapply list_elem_of_lookup_2.
Qed.

Lemma find_child_complete fuel fulls low high (k : nat) g :
  StronglySorted Z.lt fulls → Forall normal_xid fulls →
  (∀ x y, x ∈ fulls → y ∈ fulls → - 2 ^ 31 ≤ x - y < 2 ^ 31) →
  fulls !! k = Some g → 0 ≤ low ≤ Z.of_nat k → Z.of_nat k ≤ high < Z.of_nat (length fulls) →
  high - low < Z.of_nat fuel →
  find_child fuel (u32 <$> fulls) low high (u32 g) = true.
Proof.
  intros Hs Hn Hw Hk. revert low high. induction fuel as [|fuel IH]; intros low high Hl Hh Hf; [lia|].
  cbn [find_child]. rewrite (proj2 (Z.leb_le low high)) by lia. set (m := low + (high - low) / 2).
  assert (low ≤ m ≤ high) by (subst m; Z.to_euclidean_division_equations; lia).
  destruct (lookup_lt_is_Some_2 fulls (Z.to_nat m)) as [y Hy]; [lia|].
  rewrite list_lookup_fmap, Hy. cbn [fmap option_fmap option_map default from_option id].
  pose proof (list_elem_of_lookup_2 _ _ _ Hy) as Hyin. pose proof (list_elem_of_lookup_2 _ _ _ Hk) as Hgin.
  rewrite list.Forall_forall in Hn.
  rewrite (proj1 (precedes_full y g (Hn y Hyin) (Hn g Hgin) (Hw y g Hyin Hgin))).
  destruct (Z.eqb_spec (u32 y) (u32 g)) as [|Hne]; [done|].
  destruct (Nat.lt_trichotomy (Z.to_nat m) k) as [Hlt|[He|Hgt]].
  - pose proof (sorted_lookup _ _ _ _ _ Hs Hy Hk Hlt). rewrite (proj2 (Z.ltb_lt y g)) by done.
    apply IH; lia.
  - rewrite He, Hk in Hy. by simplify_eq.
  - pose proof (sorted_lookup _ _ _ _ _ Hs Hk Hy Hgt). rewrite (proj2 (Z.ltb_ge y g)) by lia.
    apply IH; lia.
Qed.

Lemma xids_level base hi ls s : xids_ok base hi ls → s ∈ ls → ∃ hi' ps, hi' ≤ hi ∧ xids_ok base hi' (s :: ps).
Proof.
  revert hi. induction ls as [|s0 ps IH]; intros hi Hok Hs; [by apply elem_of_nil in Hs|].
  apply elem_of_cons in Hs as [->|Hs]; [by exists hi, ps|]. simpl in Hok. destruct (_ =? _); [by apply (IH hi (proj2 Hok))|].
  destruct Hok as (fulls & _ & _ & _ & Hr & _ & Hok). apply list.Forall_cons in Hr as [Hr _].
  destruct (IH _ Hok Hs) as (hi' & ps' & Hh & H). exists hi', ps'. split; [lia|done].
Qed.

Lemma level_has_xid_spec base hi s ps xid : xids_ok base hi (s :: ps) → hi ≤ base + 2 ^ 31 →
  level_has_xid xid s = true ↔ state s ≠ TRANS_ABORT ∧ xid ∈ owned s.
Proof.
  intros Hok Hw. unfold level_has_xid. rewrite (xids_valid _ _ _ _ Hok), negb_involutive.
  destruct (decide (state s = TRANS_ABORT)) as [Ha|Ha]; [rewrite bool_decide_eq_true_2 by done; split; [done|by intros [? _]]|].
  rewrite bool_decide_eq_false_2 by done. unfold owned. simpl in Hok.
  destruct (Z.eqb_spec (fullTransactionId s) InvalidFullTransactionId) as [|Hne].
  { split; [done|]. intros [_ H]. by apply elem_of_nil in H. }
  destruct Hok as (fulls & Hc & Hn & Hs & Hr & _). apply list.Forall_cons in Hn as [_ Hn].
  apply StronglySorted_inv in Hs as [Hs _]. apply list.Forall_cons in Hr as [_ Hr]. rewrite Hc, elem_of_cons, length_fmap.
  destruct (Z.eqb_spec xid (XidFromFullTransactionId (fullTransactionId s))) as [->|Hx]; [split; [split; [done|by left]|done]|].
  split.
  - intros Hf. apply find_child_sound in Hf; [auto|lia|rewrite length_fmap; lia].
  - intros (_ & [->|Hin]); [done|]. apply list_elem_of_fmap in Hin as (g & -> & Hg).
    apply list_elem_of_lookup in Hg as [k Hk]. pose proof (lookup_lt_Some _ _ _ Hk).
    eapply find_child_complete; try done; [|lia..].
    intros x y Hix Hiy. rewrite list.Forall_forall in Hr. pose proof (Hr x Hix). pose proof (Hr y Hiy). lia.
Qed.

Lemma top_level_in b : top_level b ∈ levels b.
Proof.
  unfold top_level, levels. destruct (list.last (parents b)) as [p|] eqn:Hl; [|left].
  right. apply last_Some in Hl as [l ->]. set_solver.
Qed.

Lemma current_xid_spec base b xid : core base b →
  TransactionIdIsCurrentTransactionId b xid = true ↔
    (∃ s, s ∈ levels b ∧ state s ≠ TRANS_ABORT ∧ xid ∈ owned s) ∨
    (fullTransactionId (top_level b) ≠ InvalidFullTransactionId ∧
     xid = XidFromFullTransactionId (fullTransactionId (top_level b))).
Proof.
  intros [Hsh Hx Htop _ _ _]. set (hi := nextXid _) in Hx.
  assert (Hw : hi ≤ base + 2 ^ 31) by (pose proof (lim_window _ _ (sh_limits _ _ Hsh)); fold hi in H; lia).
  assert (Hlev : ∀ s, s ∈ levels b → level_has_xid xid s = true ↔ state s ≠ TRANS_ABORT ∧ xid ∈ owned s).
  { intros s Hs. destruct (xids_level _ _ _ _ Hx Hs) as (hi' & ps & Hh & Hok). eapply level_has_xid_spec; [done|lia]. }
  assert (Hown : ∀ s, s ∈ levels b → xid ∈ owned s → TransactionIdIsNormal xid = true).
  { intros s Hs Hin. destruct (parents_owned_full _ _ _ _ _ Hx Hs Hin) as (f & -> & [Hf _] & _). by apply Z.leb_le. }
  assert (Htv : fullTransactionId (top_level b) ≠ InvalidFullTransactionId →
    XidFromFullTransactionId (fullTransactionId (top_level b)) ∈ owned (top_level b)).
  { intros Hne. unfold owned. rewrite (proj2 (Z.eqb_neq _ _)) by done. left. }
  unfold TransactionIdIsCurrentTransactionId, GetTopTransactionIdIfAny. rewrite Htop.
  destruct (TransactionIdIsNormal xid) eqn:Hnorm; simpl negb; cbv iota.
  - destruct (Z.eqb_spec xid (XidFromFullTransactionId (fullTransactionId (top_level b)))) as [He|Hne].
    + split; [intros _; right; split; [|done]|done]. intros H0. rewrite He, H0 in Hnorm. done.
    + rewrite existsb_exists. setoid_rewrite <- list_elem_of_In. fold (levels b).
      split; [intros (s & Hs & H); left; exists s; by apply (Hlev s Hs) in H|].
      intros [(s & Hs & H)|[_ ?]]; [|done]. exists s. by rewrite (Hlev s Hs).
  - split; [done|]. intros [(s & Hs & _ & Hin)|[Hne ->]].
    + pose proof (Hown s Hs Hin). congruence.
    + pose proof (Hown _ (top_level_in b) (Htv Hne)). congruence.
Qed.

(** ** Changes that keep the core *)

Lemma core_intro base b b' : core base b →
  shmem b' = shmem b → XactTopFullTransactionId b' = XactTopFullTransactionId b →
  IsParallelWorker b' = IsParallelWorker b → levels b' = levels b → core base b'.
Proof.
  intros [H1 H2 H3 H4 H5 [H6 H7]] Hs Ht Hp Hl. assert (top_level b' = top_level b) as Htl.
  { unfold levels in Hl. injection Hl as Hc Hps. unfold top_level. by rewrite Hc, Hps. }
  split; rewrite ?Hs, ?Ht, ?Hl, ?Htl, ?Hp; try done. unfold levels in Hl. by injection Hl as _ ->.
Qed.

(** A change of the current level that keeps its ids. *)
Record keeps_ids (f : TransactionStateData → TransactionStateData) (s : TransactionStateData) : Prop := mkKeeps {
  keeps_fxid : fullTransactionId (f s) = fullTransactionId s;
  keeps_children : childXids (f s) = childXids s;
  keeps_plain : not_parallel s → not_parallel (f s);
  keeps_abort : state (f s) = TRANS_ABORT ↔ state s = TRANS_ABORT
}.

Lemma owned_keeps f s : keeps_ids f s → owned (f s) = owned s.
Proof. intros [H1 H2 _ _]. unfold owned. by rewrite H1, H2. Qed.

Lemma xids_same base hi s s' ps : fullTransactionId s' = fullTransactionId s → childXids s' = childXids s →
  xids_ok base hi (s :: ps) → xids_ok base hi (s' :: ps).
Proof. intros H1 H2. simpl. by rewrite H1, H2. Qed.

Lemma core_cur base b f : core base b → keeps_ids f (CurrentTransactionState b) →
  core base (set_stack (f (CurrentTransactionState b)) (parents b) b).
Proof.
  intros [H1 H2 H3 H4 H5 [H6 H7]] Hk. pose proof Hk as [Kf Kc Kp Ka].
  split; cbn [shmem set_stack XactTopFullTransactionId IsParallelWorker parents]; [done| | | |done|split; [|done]].
  - by eapply xids_same.
  - rewrite H3. unfold top_level. cbn [parents set_stack CurrentTransactionState].
    by destruct (list.last (parents b)).
  - apply list.Forall_cons in H4 as [H4 H4']. apply list.Forall_cons. split; [|done].
    cbn [CurrentTransactionState set_stack]. unfold level_status in *. rewrite (owned_keeps f _ Hk). eapply list.Forall_impl; [exact H4|]. intros x ->. by rewrite (bool_decide_ext _ _ Ka).
  - apply list.Forall_cons in H6 as [H6 H6']. apply list.Forall_cons. auto.
Qed.

(** ** Aborting a level *)

(** The commit log after the abort of the current level. *)
Definition mark_owned (st : Z) (b : backend) : backend :=
  set_shmem (set_pg_xact (run_writes (mark st (owned (CurrentTransactionState b))) (pg_xact (shmem b))) (shmem b)) b.

Lemma did_commit_in_progress b xid : xid32 xid →
  TransactionIdGetStatus (pg_xact (shmem b)) xid = TRANSACTION_STATUS_IN_PROGRESS → did_commit b xid = false.
Proof.
  intros Hx Hs. unfold did_commit. cbn [TransactionIdDidCommit].
  destruct (fetch_status (pg_xact (shmem b)) (InvalidTransactionId, TRANSACTION_STATUS_IN_PROGRESS) xid) as (c & -> & _);
    [by left|done|]. by rewrite Hs.
Qed.

(** [RecordTransactionAbort] for a level that the log has in progress. *)
Lemma record_abort_run base hi b : xids_ok base hi (levels b) →
  Forall (λ x, TransactionIdGetStatus (pg_xact (shmem b)) x = TRANSACTION_STATUS_IN_PROGRESS)
    (owned (CurrentTransactionState b)) →
  RecordTransactionAbort b = (mark_owned TRANSACTION_STATUS_ABORTED b, Ok tt).
Proof.
  intros Hx Hs. pose proof (xids_valid _ _ _ _ Hx) as Hv.
  unfold RecordTransactionAbort, get, mbind, M_bind, GetCurrentTransactionIdIfAny.
  unfold FullTransactionIdIsValid in Hv. rewrite Hv, negb_involutive. unfold mark_owned, owned in *.
  destruct (Z.eqb_spec (fullTransactionId (CurrentTransactionState b)) InvalidFullTransactionId) as [He|Hne].
  - unfold mret, M_ret. f_equal. by destruct b as [? ? ? ? ? ? ? ? ? ? []].
  - apply list.Forall_cons in Hs as [Hs _]. rewrite did_commit_in_progress; [|..|done].
    + unfold write_clog, modify. rewrite abort_tree_writes; [done|]. by rewrite Hv.
    + simpl in Hx. rewrite (proj2 (Z.eqb_neq _ _)) in Hx by done. destruct Hx as (fulls & _ & Hn & _).
      apply list.Forall_cons in Hn as [Hn _]. by apply normal_xid32.
Qed.

(** The current level turned aborted, with its ids marked in the log. *)
Definition abort_cur (s' : TransactionStateData) (b : backend) : backend :=
  mark_owned TRANSACTION_STATUS_ABORTED (set_stack s' (parents b) b).

Lemma core_abort base b s' : core base b →
  fullTransactionId s' = fullTransactionId (CurrentTransactionState b) →
  childXids s' = childXids (CurrentTransactionState b) → not_parallel s' → state s' = TRANS_ABORT →
  core base (abort_cur s' b).
Proof.
  intros Hcore Hf Hc Hp Ha. pose proof Hcore as [H1 H2 H3 H4 H5 [H6 H7]].
  assert (Hown : owned s' = owned (CurrentTransactionState b)) by (unfold owned; by rewrite Hf, Hc).
  split; [| | | |done|split; [|done]].
  - apply shared_marks; [done|done|]. cbn. rewrite Hown. intros x Hx.
    destruct (owned_full _ _ _ _ _ H2 Hx) as (f & ? & _ & ? & _). by exists f.
  - eapply xids_same; [exact Hf|exact Hc|exact H2].
  - cbn. rewrite H3. unfold top_level. cbn. by destruct (list.last (parents b)).
  - apply list.Forall_cons in H4 as [_ H4']. apply list.Forall_cons. split.
    + apply list.Forall_forall. intros x Hx. cbn in Hx |- *. rewrite run_mark by done.
      rewrite (bool_decide_eq_true_2 (x ∈ owned s')) by done. by rewrite (bool_decide_eq_true_2 (state s' = _)).
    + apply list.Forall_forall. intros p Hpin. rewrite list.Forall_forall in H4'. specialize (H4' p Hpin).
      unfold level_status in *. rewrite list.Forall_forall in *. intros x Hx. rewrite <- (H4' x Hx).
      change (abort_cur s' b) with (mark_owned TRANSACTION_STATUS_ABORTED (set_stack s' (parents b) b)).
      cbn. rewrite run_mark, Hown by done. rewrite bool_decide_eq_false_2; [done|]. intros Hin.
      pose proof (lim_window _ _ (sh_limits _ _ H1)). exact (owned_disjoint _ _ _ _ p x H2 ltac:(lia) Hpin Hin Hx).
  - apply list.Forall_cons in H6 as [_ H6]. by apply list.Forall_cons.
Qed.

(** What giving up levels does to shared memory: the ids [xs] become aborted. *)
Record gave_up (xs : list Z) (sh sh' : shared) : Prop := mkGaveUp {
  gave_transam : TransamVariables sh' = TransamVariables sh;
  gave_subtrans : pg_subtrans sh' = pg_subtrans sh;
  gave_status : ∀ x, TransactionIdGetStatus (pg_xact sh') x =
    if bool_decide (x ∈ xs) then TRANSACTION_STATUS_ABORTED else TransactionIdGetStatus (pg_xact sh) x
}.

Lemma gave_up_refl sh : gave_up [] sh sh.
Proof. split; [done..|]. intros x. by rewrite bool_decide_eq_false_2 by apply not_elem_of_nil. Qed.

Lemma gave_up_trans xs ys sh1 sh2 sh3 : gave_up xs sh1 sh2 → gave_up ys sh2 sh3 → gave_up (xs ++ ys) sh1 sh3.
Proof.
  intros [H1 H2 H3] [H4 H5 H6]. split; [congruence..|]. intros x. rewrite H6, H3.
  rewrite (bool_decide_ext _ _ (elem_of_app xs ys x)), bool_decide_or.
  by destruct (bool_decide (x ∈ xs)), (bool_decide (x ∈ ys)).
Qed.

Lemma gave_up_mark xs sh : gave_up xs sh (set_pg_xact (run_writes (mark TRANSACTION_STATUS_ABORTED xs) (pg_xact sh)) sh).
Proof. split; [done..|]. intros x. by apply run_mark. Qed.

(** Marking ids that are aborted already changes nothing. *)
Lemma gave_up_again xs ys sh sh' : gave_up xs sh sh' →
  Forall (λ x, TransactionIdGetStatus (pg_xact sh) x = TRANSACTION_STATUS_ABORTED) ys → gave_up (xs ++ ys) sh sh'.
Proof.
  intros [H1 H2 H3] Hy. split; [done..|]. intros x. rewrite H3, (bool_decide_ext _ _ (elem_of_app xs ys x)), bool_decide_or.
  destruct (bool_decide (x ∈ xs)); [done|]. simpl. case_bool_decide as Hin; [|done].
  rewrite list.Forall_forall in Hy. by apply Hy.
Qed.

Lemma warn_unless_run ok who b : ∃ ws, warn_unless ok who b = (set_warnings ws b, Ok tt).
Proof.
  unfold warn_unless, gets, warn, modify, mbind, M_bind, mret, M_ret. destruct (bool_decide _); [|by eexists].
  exists (warnings b). by destruct b.
Qed.

(** The core does not depend on the session variables. *)
Lemma core_warnings base ws b : core base (set_warnings ws b) ↔ core base b.
Proof. split; intros H; (eapply core_intro; [exact H|done..]). Qed.

(** ** Runs of the routines that cannot fail *)

Definition aborted (s : TransactionStateData) : TransactionStateData := set_parallel 0 false (set_state TRANS_ABORT s).

Lemma status_in_progress base b : core base b → state (CurrentTransactionState b) ≠ TRANS_ABORT →
  Forall (λ x, TransactionIdGetStatus (pg_xact (shmem b)) x = TRANSACTION_STATUS_IN_PROGRESS)
    (owned (CurrentTransactionState b)).
Proof.
  intros Hc Ha. pose proof (core_status _ _ Hc) as H. apply list.Forall_cons in H as [H _].
  unfold level_status in H. by rewrite bool_decide_eq_false_2 in H.
Qed.

Lemma abort_transaction_run base b : core base b → state (CurrentTransactionState b) ≠ TRANS_ABORT →
  blockState (CurrentTransactionState b) ≠ TBLOCK_PARALLEL_INPROGRESS →
  ∃ ws, AbortTransaction b = (abort_cur (aborted (CurrentTransactionState b)) (set_warnings ws b), Ok tt).
Proof.
  intros Hc Ha Hp. destruct (warn_unless_run [TRANS_INPROGRESS; TRANS_PREPARE] "AbortTransaction" b) as [ws Hw].
  exists ws. unfold AbortTransaction. unfold gets at 1, mbind at 1, M_bind at 1. rewrite (bind_ok _ _ _ _ _ Hw).
  unfold mbind, M_bind, upd, modify. rewrite bool_decide_eq_false_2 by done.
  apply (record_abort_run base (nextXid (TransamVariables (shmem b)))).
  - eapply xids_same; [..|exact (core_xids _ _ Hc)]; done.
  - exact (status_in_progress _ _ Hc Ha).
Qed.

Definition cleaned (b : backend) : backend :=
  set_stack (set_state TRANS_DEFAULT (set_parallel 0 false (clear_level (CurrentTransactionState b)))) (parents b)
    (set_top InvalidFullTransactionId b).

Lemma cleanup_transaction_run b : state (CurrentTransactionState b) = TRANS_ABORT →
  CleanupTransaction b = (cleaned b, Ok tt).
Proof. intros H. unfold CleanupTransaction, gets, mbind, M_bind, compose. by rewrite H. Qed.

Lemma core_cleared base b s' : core base b → parents b = [] →
  fullTransactionId s' = InvalidFullTransactionId → childXids s' = [] → not_parallel s' →
  core base (set_stack s' [] (set_top InvalidFullTransactionId b)).
Proof.
  intros [H1 H2 H3 H4 H5 [H6 H7]] Hps Hf Hc Hn. split; cbn; [done| |done| |done|split; [|done]].
  - rewrite Hf, Hc. done.
  - apply list.Forall_cons. split; [|constructor]. unfold level_status, owned. cbn. rewrite Hf. constructor.
  - by apply list.Forall_cons.
Qed.

Lemma core_pop base b p ps : core base b → parents b = p :: ps → core base (set_stack p ps b).
Proof.
  intros [H1 H2 H3 H4 H5 [H6 H7]] Hps. unfold levels in *. rewrite Hps in *.
  split; cbn; [done| | | |by destruct H5 as (_ & _ & _ & _ & _ & ?)|split; [|done]].
  - exact (xids_tail _ _ _ _ H2).
  - rewrite H3. unfold top_level. cbn [parents set_stack CurrentTransactionState]. rewrite Hps, last_cons.
    by destruct (list.last ps).
  - by apply list.Forall_cons in H4 as [_ H4].
  - by apply list.Forall_cons in H6 as [_ H6].
Qed.

Lemma cleanup_sub_run b p ps : parents b = p :: ps →
  ∃ ws, CleanupSubTransaction b = (set_stack p ps (set_warnings ws b), Ok tt).
Proof.
  intros Hps. destruct (warn_unless_run [TRANS_ABORT] "CleanupSubTransaction" b) as [ws Hw]. exists ws.
  unfold CleanupSubTransaction. rewrite (bind_ok _ _ _ _ _ Hw). unfold PopTransaction, warn_unless, upd, modify, gets, get, mbind, M_bind.
  cbn. rewrite Hps. done.
Qed.

Lemma set_childXids_same s xs : childXids s = xs → set_childXids xs s = s.
Proof. intros <-. by destruct s. Qed.

Lemma mark_owned_none st b : owned (CurrentTransactionState b) = [] → mark_owned st b = b.
Proof. intros H. unfold mark_owned. rewrite H. by destruct b as [? ? ? ? ? ? ? ? ? ? []]. Qed.

Lemma set_stack_same b : set_stack (CurrentTransactionState b) (parents b) b = b.
Proof. by destruct b. Qed.

Lemma owned_nil base hi s ps : xids_ok base hi (s :: ps) → fullTransactionId s = InvalidFullTransactionId →
  owned s = [] ∧ childXids s = [].
Proof. intros H He. unfold owned. simpl in H. rewrite He in H |- *. simpl in *. by destruct H. Qed.

(** A subtransaction is aborted: the state of its level, and the levels. *)
Definition sub_aborted (ws : list string) (c : characteristics) (b : backend) : backend :=
  let s' := aborted (CurrentTransactionState b) in
  set_chars c (set_stack (set_childXids [] s') (parents b) (abort_cur s' (set_warnings ws b))).

Lemma abort_sub_run base b : core base b → state (CurrentTransactionState b) ≠ TRANS_ABORT →
  (fullTransactionId (CurrentTransactionState b) ≠ InvalidFullTransactionId →
   curTransactionOwner (CurrentTransactionState b) = true) →
  ∃ ws c, AbortSubTransaction b = (sub_aborted ws c b, Ok tt).
Proof.
  intros Hc Ha Ho. destruct (warn_unless_run [TRANS_INPROGRESS] "AbortSubTransaction" b) as [ws Hw].
  pose proof (core_xids _ _ Hc) as Hx. pose proof (status_in_progress _ _ Hc Ha) as Hs.
  destruct (core_plain _ _ Hc) as [Hp _]. apply list.Forall_cons in Hp as [[_ Hp] _].
  exists ws. eexists. unfold AbortSubTransaction. rewrite (bind_ok _ _ _ _ _ Hw).
  set (s' := aborted (CurrentTransactionState b)).
  set (b1 := set_stack s' (parents b) (set_warnings ws b)).
  assert (Hx1 : xids_ok base (nextXid (TransamVariables (shmem b))) (levels b1))
    by (eapply xids_same; [..|exact Hx]; done).
  pose proof (record_abort_run base _ b1 Hx1 Hs) as Hrec.
  unfold upd, modify, gets, mbind, M_bind. cbn [CurrentTransactionState set_stack set_warnings parents parallelChildXact set_state curTransactionOwner set_parallel fullTransactionId].
  rewrite Hp. change (set_stack (set_parallel 0 false (set_state TRANS_ABORT (CurrentTransactionState b))) _ _) with b1.
  rewrite (xids_valid _ _ _ _ Hx). destruct (Z.eqb_spec (fullTransactionId (CurrentTransactionState b)) InvalidFullTransactionId) as [He|Hne].
  - destruct (owned_nil _ _ _ _ Hx He) as [Hown Hch].
    destruct (curTransactionOwner _); cbn [negb]; [rewrite Hrec, mark_owned_none by exact Hown|];
      unfold mret, M_ret, restore_read_only, modify; f_equal; unfold sub_aborted, abort_cur; fold s';
      rewrite mark_owned_none by exact Hown; rewrite set_childXids_same by exact Hch; done.
  - rewrite Ho by done. cbn [negb]. rewrite Hrec. unfold restore_read_only, modify, mret, M_ret. f_equal.
Qed.

Lemma core_chars base c b : core base b → core base (set_chars c b).
Proof. intros H. by eapply core_intro. Qed.

Lemma core_drop_children base b : core base b → state (CurrentTransactionState b) = TRANS_ABORT →
  core base (set_stack (set_childXids [] (CurrentTransactionState b)) (parents b) b).
Proof.
  intros [H1 H2 H3 H4 H5 [H6 H7]] Ha. split; [done| | | |done|split; [|done]].
  - unfold levels in *. cbn in *. destruct (_ =? _); [by destruct H2|]. destruct H2 as (fulls & _ & Hn & _ & Hr & Hv & H2).
    exists []. apply list.Forall_cons in Hn as [Hn _], Hr as [Hr _].
    split_and!; [done|by apply Forall_singleton|by repeat constructor|by apply Forall_singleton|done..].
  - cbn. rewrite H3. unfold top_level. cbn. by destruct (list.last (parents b)).
  - apply list.Forall_cons in H4 as [H4 H4']. apply list.Forall_cons. split; [|done].
    unfold level_status, owned in *. cbn in *. destruct (_ =? _); [done|]. apply list.Forall_cons in H4 as [H4 _].
    by repeat constructor.
  - apply list.Forall_cons in H6 as [H6 H6']. by apply list.Forall_cons.
Qed.

Lemma then_ok {A} (m : X unit) (k : X A) b b' : m b = (b', Ok tt) → (m ;; k) b = k b'.
Proof. intros H. exact (bind_ok m (λ _, k) b b' tt H). Qed.

(** ** Error recovery *)

(** A level whose transaction has ended. *)
Record blank (s : TransactionStateData) : Prop := mkBlank {
  blank_state : state s = TRANS_DEFAULT;
  blank_fxid : fullTransactionId s = InvalidFullTransactionId;
  blank_children : childXids s = [];
  blank_nest : nestingLevel s = 0
}.

Definition ended (base : Z) (b : backend) : Prop :=
  core base b ∧ parents b = [] ∧ blank (CurrentTransactionState b).

Definition with_block (bs : TBlockState) (b : backend) : backend :=
  set_stack (set_block bs (CurrentTransactionState b)) (parents b) b.

Lemma core_block base bs b : core base b → core base (with_block bs b).
Proof. intros H. by apply core_cur. Qed.

Lemma ended_idle base b : ended base b → inv base (with_block TBLOCK_DEFAULT b) ∧ idle (with_block TBLOCK_DEFAULT b).
Proof.
  intros (Hc & Hp & [Hs Hf Hch Hn]). split; [|unfold idle; by cbn]. split; [by apply core_block|].
  cbn. rewrite Hp. split; cbn; rewrite ?Hs, ?Hf, ?Hn; try done.
Qed.

Lemma cur_ok_parent p ps : parents_ok (p :: ps) → cur_ok (length ps) p.
Proof.
  intros (Hb & Hs & Ho & Hsub & Hn & _). split.
  - rewrite Hsub. by destruct ps.
  - rewrite Hs. by destruct (blockState p).
  - rewrite bool_decide_eq_false_2; [done|]. intros [H _]. by rewrite H in Hb.
  - done.
  - intros [H|H]; by rewrite H in Hb.
Qed.

Lemma gave_up_abort s' b ws : owned s' = owned (CurrentTransactionState b) →
  gave_up (owned (CurrentTransactionState b)) (shmem b) (shmem (abort_cur s' (set_warnings ws b))).
Proof. intros <-. apply gave_up_mark. Qed.

(** The same savepoint, whatever has become of it. *)
Definition same_savepoint (s s' : TransactionStateData) : Prop :=
  name s' = name s ∧ savepointLevel s' = savepointLevel s ∧ chain s' = chain s.

Lemma abort_clean_run base b : core base b → parents b = [] → state (CurrentTransactionState b) ≠ TRANS_ABORT →
  blockState (CurrentTransactionState b) ≠ TBLOCK_PARALLEL_INPROGRESS →
  ∃ b', AbortTransaction b = (b', Ok tt) ∧ CleanupTransaction b' = (cleaned b', Ok tt) ∧ ended base (cleaned b') ∧
    gave_up (owned (CurrentTransactionState b)) (shmem b) (shmem (cleaned b')) ∧
    same_savepoint (CurrentTransactionState b) (CurrentTransactionState (cleaned b')).
Proof.
  intros Hc Hp Ha Hb. destruct (abort_transaction_run base b Hc Ha Hb) as [ws Hr].
  set (b' := abort_cur _ _) in Hr. exists b'. split_and!; [done|by apply cleanup_transaction_run| |by apply gave_up_abort|done].
  split_and!; [|exact Hp|done]. unfold cleaned. replace (parents b') with (@nil TransactionStateData).
  apply core_cleared; [|exact Hp|done..]. by apply core_abort; [apply core_warnings|..].
Qed.

Lemma abort_top_run base b : core base b → parents b = [] → state (CurrentTransactionState b) ≠ TRANS_ABORT →
  blockState (CurrentTransactionState b) ≠ TBLOCK_PARALLEL_INPROGRESS →
  ∃ b', AbortTransaction b = (b', Ok tt) ∧ core base b' ∧ parents b' = [] ∧
    CurrentTransactionState b' = aborted (CurrentTransactionState b) ∧
    gave_up (owned (CurrentTransactionState b)) (shmem b) (shmem b').
Proof.
  intros Hc Hp Ha Hb. destruct (abort_transaction_run base b Hc Ha Hb) as [ws Hr].
  eexists. split_and!; [exact Hr| |exact Hp|done|by apply gave_up_abort].
  by apply core_abort; [apply core_warnings|..].
Qed.

Lemma core_sub_aborted base ws c b : core base b → core base (sub_aborted ws c b).
Proof.
  intros Hc. unfold sub_aborted. apply core_chars.
  assert (core base (abort_cur (aborted (CurrentTransactionState b)) (set_warnings ws b))) as H
    by (by apply core_abort; [apply core_warnings|..]).
  exact (core_drop_children _ _ H eq_refl).
Qed.

(** An aborted subtransaction is popped. *)
Lemma abort_sub_pop_run base b p ps : core base b → parents b = p :: ps →
  state (CurrentTransactionState b) ≠ TRANS_ABORT →
  (fullTransactionId (CurrentTransactionState b) ≠ InvalidFullTransactionId →
   curTransactionOwner (CurrentTransactionState b) = true) →
  ∃ b1 b', AbortSubTransaction b = (b1, Ok tt) ∧ CleanupSubTransaction b1 = (b', Ok tt) ∧ inv base b' ∧
    levels b' = p :: ps ∧ gave_up (owned (CurrentTransactionState b)) (shmem b) (shmem b').
Proof.
  intros Hc Hp Ha Ho. destruct (abort_sub_run base b Hc Ha Ho) as (ws & c & Hr).
  destruct (cleanup_sub_run (sub_aborted ws c b) p ps Hp) as [ws' Hcl].
  do 2 eexists. split_and!; [exact Hr|exact Hcl| |done|exact (gave_up_abort (aborted (CurrentTransactionState b)) b ws eq_refl)].
  split.
  - apply core_pop; [|exact Hp]. by apply core_warnings, core_sub_aborted.
  - apply (cur_ok_parent p ps). rewrite <- Hp. by apply (core_parents base).
Qed.

Lemma cleanup_pop_run base b p ps : core base b → parents b = p :: ps →
  ∃ b', CleanupSubTransaction b = (b', Ok tt) ∧ inv base b' ∧ levels b' = p :: ps ∧ shmem b' = shmem b.
Proof.
  intros Hc Hp. destruct (cleanup_sub_run b p ps Hp) as [ws Hcl]. eexists. split_and!; [exact Hcl| |done..].
  split; [apply core_pop; [by apply core_warnings|done]|]. apply (cur_ok_parent p ps). rewrite <- Hp. by apply (core_parents base).
Qed.

(** Where [AbortCurrentTransaction] stops with the block still open. *)
Definition stays_open (bs : TBlockState) : bool :=
  match bs with
  | TBLOCK_INPROGRESS | TBLOCK_ABORT | TBLOCK_SUBINPROGRESS | TBLOCK_SUBABORT => true
  | _ => false
  end.

(** The current level failed, waiting for the client to end the block. *)
Definition failed (b : backend) : Prop :=
  state (CurrentTransactionState b) = TRANS_ABORT ∧
  blockState (CurrentTransactionState b) = if bool_decide (parents b = []) then TBLOCK_ABORT else TBLOCK_SUBABORT.

Lemma cur_parents n s : cur_ok n s → n = (if sub_block (blockState s) then S (n - 1) else O)%nat.
Proof. intros [H _ _ _ _]. rewrite H. destruct n; simpl; lia. Qed.

Lemma no_parents b : cur_ok (length (parents b)) (CurrentTransactionState b) →
  sub_block (blockState (CurrentTransactionState b)) = false → parents b = [].
Proof. intros H Hs. apply cur_parents in H. rewrite Hs in H. by destruct (parents b). Qed.

Lemma has_parent b : cur_ok (length (parents b)) (CurrentTransactionState b) →
  sub_block (blockState (CurrentTransactionState b)) = true → ∃ p ps, parents b = p :: ps.
Proof. intros H Hs. apply cur_parents in H. rewrite Hs in H. destruct (parents b); [done|by eexists _, _]. Qed.

Lemma failed_status base b : core base b → state (CurrentTransactionState b) = TRANS_ABORT →
  gave_up (owned (CurrentTransactionState b)) (shmem b) (shmem b).
Proof.
  intros Hc Ha. apply (gave_up_again [] _ _ _ (gave_up_refl _)).
  pose proof (core_status _ _ Hc) as H. apply list.Forall_cons in H as [H _].
  unfold level_status in H. by rewrite bool_decide_eq_true_2 in H.
Qed.

Lemma fits_not_abort bs st : state_fits bs st = true → 
  match bs with TBLOCK_ABORT | TBLOCK_ABORT_END | TBLOCK_SUBABORT | TBLOCK_SUBABORT_END | TBLOCK_SUBABORT_RESTART => st = TRANS_ABORT
  | TBLOCK_PARALLEL_INPROGRESS => False | _ => st ≠ TRANS_ABORT end.
Proof. by destruct bs, st. Qed.

(** One iteration of [AbortCurrentTransaction]. *)
Definition abort_result (base : Z) (b b' : backend) (d : bool) : Prop :=
  inv base b' ∧ gave_up (owned (CurrentTransactionState b)) (shmem b) (shmem b') ∧
  if d then
    same_savepoint (CurrentTransactionState b) (CurrentTransactionState b') ∧
    if stays_open (blockState (CurrentTransactionState b)) then failed b' ∧ parents b' = parents b
    else idle b' ∧ parents b = []
  else levels b' = parents b ∧ stays_open (blockState (CurrentTransactionState b)) = false.

(** The states outside of subtransactions. *)
Lemma abort_to_idle base b : inv base b → parents b = [] → state (CurrentTransactionState b) ≠ TRANS_ABORT →
  blockState (CurrentTransactionState b) ≠ TBLOCK_PARALLEL_INPROGRESS →
  ∃ b1 b2 b', AbortTransaction b = (b1, Ok tt) ∧ CleanupTransaction b1 = (b2, Ok tt) ∧
    block TBLOCK_DEFAULT b2 = (b', Ok tt) ∧ inv base b' ∧ idle b' ∧ gave_up (owned (CurrentTransactionState b)) (shmem b) (shmem b') ∧
    same_savepoint (CurrentTransactionState b) (CurrentTransactionState b').
Proof.
  intros Hi Hp Ha Hb. destruct (abort_clean_run base b (inv_core _ _ Hi) Hp Ha Hb) as (b1 & H1 & H2 & He & Hg & Hsp).
  exists b1, (cleaned b1), (with_block TBLOCK_DEFAULT (cleaned b1)). by destruct (ended_idle base _ He) as [Hi' Hid].
Qed.

Lemma abort_to_failed base b : inv base b → parents b = [] → blockState (CurrentTransactionState b) = TBLOCK_INPROGRESS →
  ∃ b', (AbortTransaction ;; block TBLOCK_ABORT ;; mret true) b = (b', Ok true) ∧ abort_result base b b' true.
Proof.
  intros [Hc Hcur] Hp Hb. pose proof (fits_not_abort _ _ (cur_state _ _ Hcur)) as Ha. rewrite Hb in Ha.
  destruct (abort_top_run base b Hc Hp Ha ltac:(by rewrite Hb)) as (b1 & H1 & Hc1 & Hp1 & Hs1 & Hg).
  exists (with_block TBLOCK_ABORT b1). split; [by rewrite (bind_ok _ _ _ _ _ H1)|].
  unfold abort_result. rewrite Hb. cbn [stays_open]. split_and!; [|done|unfold same_savepoint; cbn; by rewrite Hs1| |by rewrite Hp].
  - split; [by apply core_block|]. cbn. rewrite Hp1, Hs1. destruct Hcur as [_ _ Hn Ho _].
    rewrite Hp in Hn. rewrite bool_decide_eq_false_2 in Hn by (rewrite Hb; by intros [? _]).
    split; cbn; [done|done|done|done|by intros [?|?]].
  - unfold failed. cbn. by rewrite Hs1, Hp1.
Qed.

Lemma abort_to_subfailed base b : inv base b → blockState (CurrentTransactionState b) = TBLOCK_SUBINPROGRESS →
  ∃ b', (AbortSubTransaction ;; block TBLOCK_SUBABORT ;; mret true) b = (b', Ok true) ∧ abort_result base b b' true.
Proof.
  intros [Hc Hcur] Hb. pose proof (fits_not_abort _ _ (cur_state _ _ Hcur)) as Ha. rewrite Hb in Ha.
  destruct (has_parent b Hcur) as (p & ps & Hp); [by rewrite Hb|].
  destruct (abort_sub_run base b Hc Ha (cur_owner _ _ Hcur)) as (ws & c & H1).
  exists (with_block TBLOCK_SUBABORT (sub_aborted ws c b)). split; [by rewrite (bind_ok _ _ _ _ _ H1)|].
  unfold abort_result. rewrite Hb. cbn [stays_open]. split_and!; [| |done| |done].
  - split; [by apply core_block, core_sub_aborted|]. cbn. rewrite Hp. destruct Hcur as [_ _ Hn Ho _].
    rewrite Hp in Hn. rewrite bool_decide_eq_false_2 in Hn by (rewrite Hb; by intros [? _]).
    split; cbn; [done|done|done|done|by intros [?|?]].
  - exact (gave_up_abort (aborted (CurrentTransactionState b)) b ws eq_refl).
  - unfold failed. cbn. by rewrite Hp.
Qed.

Lemma abort_default_run base b : inv base b → blockState (CurrentTransactionState b) = TBLOCK_DEFAULT →
  ∃ b', abort_default b = (b', Ok tt) ∧ inv base b' ∧ idle b' ∧
    gave_up (owned (CurrentTransactionState b)) (shmem b) (shmem b') ∧
    same_savepoint (CurrentTransactionState b) (CurrentTransactionState b').
Proof.
  intros [Hc Hcur] Hb. pose proof (no_parents b Hcur ltac:(by rewrite Hb)) as Hp.
  pose proof (cur_state _ _ Hcur) as Hf. rewrite Hb in Hf. apply bool_decide_eq_true in Hf.
  rewrite elem_of_cons, list_elem_of_singleton in Hf. destruct Hf as [Hs|Hs].
  - exists b. split; [unfold abort_default, gets, mbind, M_bind, compose; by rewrite Hs|]. split; [done|]. split; [done|].
    split; [|done]. unfold owned. rewrite (cur_fresh _ _ Hcur (or_introl Hb)). apply gave_up_refl.
  - set (b1 := set_stack (set_state TRANS_INPROGRESS (CurrentTransactionState b)) (parents b) b).
    assert (core base b1) as Hc1 by (apply core_cur; [done|split; cbn; rewrite ?Hs; done]).
    destruct (abort_clean_run base b1 Hc1 Hp) as (b2 & H1 & H2 & He & Hg & Hsp); [done|cbn; by rewrite Hb|].
    assert (abort_default b = (AbortTransaction ;; CleanupTransaction) b1) as ->
      by (unfold abort_default, gets, mbind, M_bind, compose; by rewrite Hs).
    exists (cleaned b2). rewrite (bind_ok _ _ _ _ _ H1), H2. split; [done|].
    destruct He as (Hc2 & Hp2 & Hbl). assert (blockState (CurrentTransactionState (cleaned b2)) = TBLOCK_DEFAULT) as Hb2.
    { cbn. destruct (abort_transaction_run base b1 Hc1) as [ws Hr]; [done|cbn; by rewrite Hb|].
      rewrite Hr in H1. injection H1 as <-. cbn. done. }
    assert (with_block TBLOCK_DEFAULT (cleaned b2) = cleaned b2) as Hw.
    { unfold with_block. rewrite <- Hb2 at 1. by destruct (cleaned b2) as [[] ?]. }
    destruct (ended_idle base (cleaned b2)) as [Hi' Hid]; [done|]. rewrite Hw in Hi', Hid. done.
Qed.

Lemma cleanup_to_idle base b : inv base b → blockState (CurrentTransactionState b) = TBLOCK_ABORT_END ∨
    blockState (CurrentTransactionState b) = TBLOCK_ABORT →
  ∃ b', (CleanupTransaction ;; block TBLOCK_DEFAULT) b = (b', Ok tt) ∧
    inv base b' ∧ idle b' ∧ gave_up (owned (CurrentTransactionState b)) (shmem b) (shmem b') ∧
    same_savepoint (CurrentTransactionState b) (CurrentTransactionState b').
Proof.
  intros [Hc Hcur] Hb. pose proof (no_parents b Hcur ltac:(destruct Hb as [Hb|Hb]; by rewrite Hb)) as Hp.
  assert (state (CurrentTransactionState b) = TRANS_ABORT) as Ha.
  { pose proof (fits_not_abort _ _ (cur_state _ _ Hcur)) as H. by destruct Hb as [Hb|Hb]; rewrite Hb in H. }
  pose proof (cleanup_transaction_run b Ha) as Hr. exists (with_block TBLOCK_DEFAULT (cleaned b)).
  destruct (ended_idle base (cleaned b)) as [Hi Hid].
  { split_and!; [|done|done]. unfold cleaned. rewrite Hp. by apply core_cleared. }
  split_and!; [by rewrite (bind_ok _ _ _ _ _ Hr)|done|done|exact (failed_status base b Hc Ha)|done..].
Qed.

Lemma abort_step base b : inv base b →
  ∃ b' d, AbortCurrentTransactionInternal b = (b', Ok d) ∧ abort_result base b b' d.
Proof.
  intros Hi. pose proof Hi as [Hc Hcur]. pose proof (fits_not_abort _ _ (cur_state _ _ Hcur)) as Ha.
  pose proof (no_parents b Hcur) as Hnp. pose proof (has_parent b Hcur) as Hhp.
  change (AbortCurrentTransactionInternal b) with (abort_current_body (blockState (CurrentTransactionState b)) b).
  assert (Hidle : ∀ b', inv base b' ∧ idle b' ∧ gave_up (owned (CurrentTransactionState b)) (shmem b) (shmem b') ∧
    same_savepoint (CurrentTransactionState b) (CurrentTransactionState b') → stays_open (blockState (CurrentTransactionState b)) = false → sub_block (blockState (CurrentTransactionState b)) = false →
    abort_result base b b' true).
  { intros b' (H1 & H2 & H3 & H4) Hs Hsub. unfold abort_result. rewrite Hs. split_and!; auto. }
  assert (Hstay : state (CurrentTransactionState b) = TRANS_ABORT → stays_open (blockState (CurrentTransactionState b)) = true →
    abort_result base b b true).
  { intros Hab Hs. unfold abort_result. rewrite Hs. split_and!; [done|by eapply failed_status|done| |done]. split; [done|].
    destruct (blockState _) eqn:Hb; try done; [rewrite Hnp by done; done|destruct Hhp as (p & ps & ->); done]. }
  assert (Hpop : state (CurrentTransactionState b) ≠ TRANS_ABORT → sub_block (blockState (CurrentTransactionState b)) = true →
    stays_open (blockState (CurrentTransactionState b)) = false →
    ∃ b', (AbortSubTransaction ;; CleanupSubTransaction ;; mret false) b = (b', Ok false) ∧ abort_result base b b' false).
  { intros Hna Hs Hso. destruct (Hhp Hs) as (p & ps & Hp).
    destruct (abort_sub_pop_run base b p ps Hc Hp Hna (cur_owner _ _ Hcur)) as (b1 & b' & H1 & H2 & Hi' & Hl & Hg).
    exists b'. split; [by rewrite (bind_ok _ _ _ _ _ H1), (bind_ok _ _ _ _ _ H2)|]. unfold abort_result. by rewrite Hp. }
  assert (Hcl : state (CurrentTransactionState b) = TRANS_ABORT → sub_block (blockState (CurrentTransactionState b)) = true →
    stays_open (blockState (CurrentTransactionState b)) = false →
    ∃ b', (CleanupSubTransaction ;; mret false) b = (b', Ok false) ∧ abort_result base b b' false).
  { intros Hab Hs Hso. destruct (Hhp Hs) as (p & ps & Hp). destruct (cleanup_pop_run base b p ps Hc Hp) as (b' & H1 & Hi' & Hl & Hsh).
    exists b'. split; [by rewrite (bind_ok _ _ _ _ _ H1)|]. unfold abort_result. rewrite Hp, Hsh. split_and!; [done|by eapply failed_status|done..]. }
  destruct (blockState (CurrentTransactionState b)) eqn:Hb; cbn [abort_current_body];
    try (destruct (abort_to_idle base b Hi (Hnp eq_refl) Ha ltac:(by rewrite Hb)) as (b1 & b2 & b' & H1 & H2 & H3 & H);
         exists b', true; split; [by rewrite (then_ok _ _ _ _ H1), (then_ok _ _ _ _ H2), (then_ok _ _ _ _ H3)|by apply Hidle]);
    try (destruct (Hpop Ha eq_refl eq_refl) as (b' & Hr & H); exists b', false; by split);
    try (destruct (Hcl Ha eq_refl eq_refl) as (b' & Hr & H); exists b', false; by split);
    try (exists b, true; split; [done|by apply Hstay]).
  - destruct (abort_default_run base b Hi Hb) as (b' & Hr & H). exists b', true. rewrite (then_ok _ _ _ _ Hr). split; [done|by apply Hidle].
  - destruct (abort_to_failed base b Hi (Hnp eq_refl) Hb) as (b' & Hr & H). by exists b', true.
  - destruct (cleanup_to_idle base b Hi (or_introl Hb)) as (b' & Hr & H). exists b', true. split; [|by apply Hidle].
    unfold mbind, M_bind in Hr |- *. destruct (CleanupTransaction b) as [b1 [[]|e]]; [|done]. by rewrite Hr.
  - destruct (abort_to_subfailed base b Hi Hb) as (b' & Hr & H). by exists b', true.
Qed.

Lemma until_done_more fuel body b b' : body b = (b', Ok false) → until_done (S fuel) body b = until_done fuel body b'.
Proof. intros H. cbn [until_done]. by rewrite (bind_ok _ _ _ _ _ H). Qed.

Lemma until_done_last fuel body b b' : body b = (b', Ok true) → until_done (S fuel) body b = (b', Ok tt).
Proof. intros H. cbn [until_done]. by rewrite (bind_ok _ _ _ _ _ H). Qed.

Lemma abort_loop base fuel b : inv base b → (length (parents b) < fuel)%nat →
  ∃ b' k s, until_done fuel AbortCurrentTransactionInternal b = (b', Ok tt) ∧ inv base b' ∧
    levels b !! k = Some s ∧ Forall (λ s, stays_open (blockState s) = false) (take k (levels b)) ∧
    gave_up (concat (owned <$> take (S k) (levels b))) (shmem b) (shmem b') ∧
    same_savepoint s (CurrentTransactionState b') ∧
    if stays_open (blockState s) then failed b' ∧ parents b' = drop (S k) (levels b)
    else idle b' ∧ drop (S k) (levels b) = [].
Proof.
  revert b. induction fuel as [|fuel IH]; intros b Hi Hf; [lia|].
  destruct (abort_step base b Hi) as (b1 & d & Hr & Hi1 & Hg & Hd). destruct d.
  - exists b1, O, (CurrentTransactionState b). rewrite (until_done_last _ _ _ _ Hr). cbn. rewrite app_nil_r, drop_0.
    destruct Hd as [Hsp Hd]. split_and!; try done.
  - destruct Hd as [Hl Hso]. rewrite (until_done_more _ _ _ _ Hr).
    destruct (IH b1 Hi1) as (b' & k & s & Hr' & Hi' & Hk & Hall & Hg' & Hsp & Hfin).
    { assert (length (levels b1) = length (parents b)) as H by (by rewrite Hl). simpl in H. lia. }
    rewrite Hl in *. exists b', (S k), s. split_and!; try done.
    + by constructor.
    + cbn. exact (gave_up_trans _ _ _ _ _ Hg Hg').
Qed.

(** One iteration of [AbortOutOfAnyTransaction]. *)
Lemma abort_out_step_run base b : inv base b →
  ∃ b' d, abort_out_step b = (b', Ok d) ∧ inv base b' ∧
    gave_up (owned (CurrentTransactionState b)) (shmem b) (shmem b') ∧
    if (d : bool) then idle b' ∧ parents b = [] else levels b' = parents b.
Proof.
  intros Hi. pose proof Hi as [Hc Hcur]. pose proof (fits_not_abort _ _ (cur_state _ _ Hcur)) as Ha.
  pose proof (no_parents b Hcur) as Hnp. pose proof (has_parent b Hcur) as Hhp.
  set (test := gets (λ b, bool_decide (blockState (CurrentTransactionState b) = TBLOCK_DEFAULT)) : X bool).
  assert (Hidle : ∀ m b', m b = (b', Ok tt) → inv base b' ∧ idle b' ∧ gave_up (owned (CurrentTransactionState b)) (shmem b) (shmem b') ∧
    same_savepoint (CurrentTransactionState b) (CurrentTransactionState b') → parents b = [] → ∃ b' d, (m ;; test) b = (b', Ok d) ∧ inv base b' ∧
      gave_up (owned (CurrentTransactionState b)) (shmem b) (shmem b') ∧ if (d : bool) then idle b' ∧ parents b = [] else levels b' = parents b).
  { intros m b' Hm (H1 & H2 & H3 & _) Hp. rewrite (then_ok _ _ _ _ Hm). exists b', true. unfold test, gets.
    destruct H2 as (Hp' & Hb' & Hs'). rewrite Hb'. by split_and!. }
  assert (Hpop : ∀ m b' p ps, parents b = p :: ps → m b = (b', Ok tt) → inv base b' → levels b' = p :: ps →
    gave_up (owned (CurrentTransactionState b)) (shmem b) (shmem b') →
    ∃ b' d, (m ;; test) b = (b', Ok d) ∧ inv base b' ∧
      gave_up (owned (CurrentTransactionState b)) (shmem b) (shmem b') ∧ if (d : bool) then idle b' ∧ parents b = [] else levels b' = parents b).
  { intros m b' p ps Hp Hm Hi' Hl Hg. rewrite (then_ok _ _ _ _ Hm). exists b', false. unfold test, gets.
    injection Hl as Hcb Hps. rewrite Hcb, Hp. pose proof (core_parents _ _ Hc) as Hpo. rewrite Hp in Hpo. destruct Hpo as (Hpb & _).
    split_and!; [|done|done|unfold levels; by rewrite Hcb, Hps]. do 2 f_equal.
    apply bool_decide_eq_false_2. intros H. by rewrite H in Hpb. }
  change (abort_out_step b) with ((abort_out_body (blockState (CurrentTransactionState b)) ;; test) b).
  destruct (blockState (CurrentTransactionState b)) eqn:Hb; cbn [abort_out_body];
    try (destruct (abort_to_idle base b Hi (Hnp eq_refl) Ha ltac:(by rewrite Hb)) as (b1 & b2 & b' & H1 & H2 & H3 & H);
         eapply Hidle; [rewrite (then_ok _ _ _ _ H1), (then_ok _ _ _ _ H2); exact H3|exact H|by apply Hnp]);
    try (destruct (Hhp eq_refl) as (p & ps & Hp);
         destruct (abort_sub_pop_run base b p ps Hc Hp Ha (cur_owner _ _ Hcur)) as (b1 & b' & H1 & H2 & Hi' & Hl & Hg);
         eapply Hpop; [exact Hp|rewrite (then_ok _ _ _ _ H1); exact H2|done..]);
    try (destruct (Hhp eq_refl) as (p & ps & Hp); destruct (cleanup_pop_run base b p ps Hc Hp) as (b' & H1 & Hi' & Hl & Hsh);
         eapply Hpop; [exact Hp|exact H1|done..|rewrite Hsh; by eapply failed_status]).
  - destruct (abort_default_run base b Hi Hb) as (b' & Hr & H). eapply Hidle; [exact Hr|exact H|by apply Hnp].
  - done.
  - destruct (cleanup_to_idle base b Hi (or_intror Hb)) as (b' & Hr & H). eapply Hidle; [exact Hr|exact H|by apply Hnp].
  - destruct (cleanup_to_idle base b Hi (or_introl Hb)) as (b' & Hr & H). eapply Hidle; [exact Hr|exact H|by apply Hnp].
Qed.

Lemma abort_out_loop base fuel b : inv base b → (length (parents b) < fuel)%nat →
  ∃ b', until_done fuel abort_out_step b = (b', Ok tt) ∧ inv base b' ∧ idle b' ∧
    gave_up (concat (owned <$> levels b)) (shmem b) (shmem b').
Proof.
  revert b. induction fuel as [|fuel IH]; intros b Hi Hf; [lia|].
  destruct (abort_out_step_run base b Hi) as (b1 & d & Hr & Hi1 & Hg & Hd). destruct d.
  - destruct Hd as [Hid Hp]. exists b1. rewrite (until_done_last _ _ _ _ Hr). unfold levels. rewrite Hp. cbn.
    by rewrite app_nil_r.
  - rewrite (until_done_more _ _ _ _ Hr). destruct (IH b1 Hi1) as (b' & Hr' & Hi' & Hid & Hg').
    { assert (length (levels b1) = length (parents b)) as H by (by rewrite Hd). simpl in H. lia. }
    rewrite Hd in Hg'. exists b'. split_and!; try done. cbn. exact (gave_up_trans _ _ _ _ _ Hg Hg').
Qed.

(** ** Assignment of ids to levels *)

(** Levels that differ at most in the id of one that had none, from [lo] on. *)
Definition id_assigned (lo : Z) (s s' : TransactionStateData) : Prop :=
  s' = set_fxid (fullTransactionId s') s ∧
  (fullTransactionId s' = fullTransactionId s ∨
   (fullTransactionId s = InvalidFullTransactionId ∧ lo ≤ fullTransactionId s')).

Lemma id_assigned_refl lo s : id_assigned lo s s.
Proof. split; [by destruct s|by left]. Qed.

(** Shared memory after new ids: those in use keep their status and parent. *)
Record ids_added (base : Z) (sh sh' : shared) : Prop := mkIdsAdded {
  added_ok : shared_ok base sh';
  added_next : nextXid (TransamVariables sh) ≤ nextXid (TransamVariables sh');
  added_status : ∀ f, normal_xid f → base ≤ f < nextXid (TransamVariables sh) →
    TransactionIdGetStatus (pg_xact sh') (u32 f) = TransactionIdGetStatus (pg_xact sh) (u32 f)
}.

Lemma ids_added_refl base sh : shared_ok base sh → ids_added base sh sh.
Proof. by split. Qed.

Lemma ids_added_trans base sh1 sh2 sh3 : ids_added base sh1 sh2 → ids_added base sh2 sh3 → ids_added base sh1 sh3.
Proof.
  intros [H1 H2 H3] [H4 H5 H6]. split; [done|lia|]. intros f Hf Hr. rewrite H6, H3; try done. lia.
Qed.

(** The status of a level's ids is kept when others are added. *)
Lemma level_status_added base hi s ps sh sh' : ids_added base sh sh' → hi ≤ nextXid (TransamVariables sh) →
  xids_ok base hi (s :: ps) → level_status (pg_xact sh) s → level_status (pg_xact sh') s.
Proof.
  intros [_ _ Ha] Hh Hx Hs. unfold level_status in *. rewrite list.Forall_forall in *. intros x Hin.
  rewrite <- (Hs x Hin). destruct (owned_full _ _ _ _ _ Hx Hin) as (f & -> & Hn & Hr & _). apply Ha; [done|lia].
Qed.

Lemma levels_status_added base hi ls sh sh' : ids_added base sh sh' → hi ≤ nextXid (TransamVariables sh) →
  xids_ok base hi ls → Forall (level_status (pg_xact sh)) ls → Forall (level_status (pg_xact sh')) ls.
Proof.
  intros Ha. revert hi. induction ls as [|s ps IH]; intros hi Hh Hx Hs; [constructor|].
  apply list.Forall_cons in Hs as [Hs Hps]. constructor; [by eapply level_status_added|].
  eapply IH; [exact Hh|exact (xids_tail _ _ _ _ Hx)|done].
Qed.

Lemma get_new_run base recovery sh : shared_ok base sh →
  ∃ sh' r, GetNewTransactionId false recovery sh = (sh', r) ∧ ids_added base sh sh' ∧
    match r with
    | Ok f => f = nextXid (TransamVariables sh) ∧ f < nextXid (TransamVariables sh') ∧ normal_xid f ∧ base ≤ f ∧
        TransactionIdGetStatus (pg_xact sh') (u32 f) = TRANSACTION_STATUS_IN_PROGRESS
    | Err e => ∃ msg, e = ErrReport msg
    end.
Proof.
  intros Hsh. destruct recovery.
  { eexists sh, _. split; [done|]. split; [by apply ids_added_refl|by eexists]. }
  pose proof (new_xid_spec base sh Hsh) as H. assert (∀ sh' e, GetNewTransactionId false false sh = (sh', Err e) → ∃ msg, e = ErrReport msg) as He.
  { intros sh' e. unfold GetNewTransactionId. cbv zeta. destruct (_ && _); [|done]. intros [= _ <-]. by eexists. }
  destruct (GetNewTransactionId false false sh) as [sh' r]. exists sh', r. split; [done|].
  destruct H as [Hok H]. pose proof (sh_limits _ _ Hsh) as Hl. destruct r as [f|e].
  - destruct H as (-> & H1 & _ & H2 & H3). split; [|split_and!; try done; [apply lim_next with base|apply (lim_window base)]; done].
    split; [done|lia|]. intros f Hf Hr. by apply H3.
  - destruct H as (H1 & H2 & _). split; [|by eapply He]. split; [done|by rewrite H1|]. intros f _ _. by rewrite H2.
Qed.

Lemma set_subtrans_added base sh s : shared_ok base sh → ids_added base sh (set_pg_subtrans s sh).
Proof. by intros [H1 H2]. Qed.

Definition top_xid (ls : list TransactionStateData) : Z :=
  default InvalidFullTransactionId (fullTransactionId <$> list.last ls).

Lemma top_xid_cons s ps : fullTransactionId s = InvalidFullTransactionId → top_xid (s :: ps) = top_xid ps.
Proof. intros H. unfold top_xid. rewrite last_cons. destruct (list.last ps); [done|]. simpl. by rewrite H. Qed.

Lemma top_xid_level b : top_xid (levels b) = fullTransactionId (top_level b).
Proof. unfold top_xid, top_level, levels. rewrite last_cons. by destruct (list.last (parents b)). Qed.

(** What an assignment leaves behind. *)
Record levels_ok (base : Z) (sh : shared) (top : Z) (ls : list TransactionStateData) : Prop := mkLevelsOk {
  lv_xids : xids_ok base (nextXid (TransamVariables sh)) ls;
  lv_status : Forall (level_status (pg_xact sh)) ls;
  lv_top : top = top_xid ls
}.

(** A level without an id in front of levels that are as they should be. *)
Lemma levels_ok_cons base sh top s ps : fullTransactionId s = InvalidFullTransactionId → childXids s = [] →
  levels_ok base sh top ps ↔ levels_ok base sh top (s :: ps).
Proof.
  intros Hf Hc. split; intros [H1 H2 H3]; split.
  - simpl. by rewrite Hf, Hc.
  - constructor; [|done]. unfold level_status, owned. by rewrite Hf.
  - by rewrite top_xid_cons.
  - exact (xids_tail _ _ _ _ H1).
  - by apply list.Forall_cons in H2 as [_ H2].
  - by rewrite top_xid_cons in H3.
Qed.

Lemma levels_ok_added base sh sh' top ls : ids_added base sh sh' → levels_ok base sh top ls → levels_ok base sh' top ls.
Proof.
  intros Ha [H1 H2 H3]. split; [by eapply xids_mono; [apply (added_next base)|]|by eapply levels_status_added|done].
Qed.

(** A new id for a level whose parents all have one. *)
Lemma levels_ok_new base sh sh' top s ps f : levels_ok base sh top ps → ids_added base sh sh' →
  Forall (λ p, fullTransactionId p ≠ InvalidFullTransactionId) ps → childXids s = [] → state s ≠ TRANS_ABORT →
  f = nextXid (TransamVariables sh) → f < nextXid (TransamVariables sh') → normal_xid f → base ≤ f →
  TransactionIdGetStatus (pg_xact sh') (u32 f) = TRANSACTION_STATUS_IN_PROGRESS →
  levels_ok base sh' (match ps with [] => f | _ => top end) (set_fxid f s :: ps).
Proof.
  intros Hps Ha Hall Hch Hab Hf Hlt Hn Hb Hst. destruct (valid_full f Hn) as [_ Hne]. pose proof Hps as [H1 H2 H3].
  destruct (levels_ok_added _ _ _ _ _ Ha Hps) as [_ H2' _]. split.
  - simpl. rewrite (proj2 (Z.eqb_neq _ _)) by done. exists []. rewrite Hch, <- Hf in *.
    split_and!; [done|by apply Forall_singleton|by repeat constructor|by apply Forall_singleton|done|done].
  - constructor; [|done]. unfold level_status, owned. cbn. rewrite (proj2 (Z.eqb_neq _ _)) by done.
    rewrite Hch, bool_decide_eq_false_2 by done. by apply Forall_singleton.
  - destruct ps as [|p ps]; [done|]. rewrite H3. unfold top_xid. rewrite (last_cons (set_fxid f s)), last_cons. by destruct (list.last ps).
Qed.

Lemma assign_levels_run base recovery ls top sh : shared_ok base sh → levels_ok base sh top ls →
  Forall (λ s, state s ≠ TRANS_ABORT) ls →
  ∃ ls' top' sh' r, assign_levels recovery ls top sh = ((ls', top', sh'), r) ∧
    Forall2 (id_assigned (nextXid (TransamVariables sh))) ls ls' ∧ ids_added base sh sh' ∧ levels_ok base sh' top' ls' ∧
    match r with
    | Ok _ => Forall (λ s, fullTransactionId s ≠ InvalidFullTransactionId) ls'
    | Err e => (∃ msg, e = ErrReport msg) ∧ head ls' = head ls
    end.
Proof.
  intros Hsh Hl Hab. induction ls as [|s ps IH].
  { exists [], top, sh, (Ok tt). split_and!; try done. }
  apply list.Forall_cons in Hab as [Hs Hab]. cbn [assign_levels].
  pose proof (lv_xids _ _ _ _ Hl) as Hx. rewrite (xids_valid _ _ _ _ Hx). simpl in Hx.
  destruct (Z.eqb_spec (fullTransactionId s) InvalidFullTransactionId) as [Hf|Hf]; cbn [negb].
  - destruct Hx as [Hch Hx].
    destruct IH as (ps' & top' & sh1 & r & -> & H2 & Ha & Hl' & Hr); [by eapply levels_ok_cons|done|]. destruct r as [[]|e].
    + destruct (get_new_run base recovery sh1 (added_ok _ _ _ Ha)) as (sh2 & [f|e] & -> & Ha2 & Hr2).
      * destruct Hr2 as (Hf1 & Hf2 & Hf3 & Hf4 & Hf5).
        pose proof (levels_ok_new base sh1 sh2 top' s ps' f Hl' Ha2 Hr Hch Hs Hf1 Hf2 Hf3 Hf4 Hf5) as Hnew.
        destruct (valid_full f Hf3) as [_ Hne].
        destruct ps' as [|p ps']; (do 4 eexists; split; [done|]; split_and!; [constructor; [split; [done|right; split; [done|]]|done]| | |by constructor]);
          [cbn; rewrite Hf1; apply (added_next _ _ _ Ha)|exact (ids_added_trans _ _ _ _ Ha Ha2)|done
          |cbn; rewrite Hf1; apply (added_next _ _ _ Ha)| |by destruct Hnew].
        refine (ids_added_trans _ _ _ _ (ids_added_trans _ _ _ _ Ha Ha2) _). apply set_subtrans_added, (added_ok _ _ _ Ha2).
      * exists (s :: ps'), top', sh2, (Err e). split_and!; [done|constructor; [apply id_assigned_refl|done]| | |done|done].
        -- exact (ids_added_trans _ _ _ _ Ha Ha2).
        -- apply levels_ok_cons; [done..|]. by eapply levels_ok_added.
    + exists (s :: ps'), top', sh1, (Err e). split_and!; [done|constructor; [apply id_assigned_refl|done]|done| |by destruct Hr|done].
      by apply levels_ok_cons.
  - destruct Hx as (fulls & _ & _ & _ & _ & Hall & _). exists (s :: ps), top, sh, (Ok tt). split_and!; try done.
    + apply Forall2_same_length_lookup. split; [done|]. intros i x y H1 H2. simplify_eq. apply id_assigned_refl.
    + by constructor.
Qed.

Lemma parents_ok_assigned lo ps ps' : Forall2 (id_assigned lo) ps ps' → parents_ok ps → parents_ok ps'.
Proof.
  induction 1 as [|p p' ps ps' [Hp _] Hps IH]; [done|]. intros (H1 & H2 & H3 & H4 & H5 & H6).
  pose proof (Forall2_length _ _ _ Hps) as Hlen. simpl. rewrite Hp. cbn. rewrite <- Hlen. split_and!; auto.
  rewrite H4. f_equal. apply bool_decide_ext. by destruct Hps.
Qed.

Lemma plain_assigned lo ls ls' : Forall2 (id_assigned lo) ls ls' → Forall not_parallel ls → Forall not_parallel ls'.
Proof.
  induction 1 as [|s s' ls ls' [Hs _] Hl IH]; [done|]. intros H. apply list.Forall_cons in H as [Hp H].
  constructor; [by rewrite Hs|auto].
Qed.

(** What [AssignTransactionId] changes. *)
Record assigned (base : Z) (b b' : backend) : Prop := mkAssigned {
  asg_core : core base b';
  asg_levels : Forall2 (id_assigned (nextXid (TransamVariables (shmem b)))) (levels b) (levels b');
  asg_ids : ids_added base (shmem b) (shmem b');
  asg_rest : b' = set_shmem (shmem b') (set_top (XactTopFullTransactionId b')
               (set_stack (CurrentTransactionState b') (parents b') b))
}.

Lemma assigned_refl base b : core base b → assigned base b b.
Proof.
  intros Hc. split; [done| |apply ids_added_refl, (core_shared _ _ Hc)|by destruct b].
  apply Forall2_same_length_lookup. split; [done|]. intros i x y H1 H2. simplify_eq. apply id_assigned_refl.
Qed.

Lemma assign_run base b : core base b → state (CurrentTransactionState b) ≠ TRANS_ABORT →
  ∃ b' r, AssignTransactionId b = (b', r) ∧ assigned base b b' ∧
    match r with
    | Ok _ => fullTransactionId (CurrentTransactionState b') ≠ InvalidFullTransactionId
    | Err e => (∃ msg, e = ErrReport msg) ∧ CurrentTransactionState b' = CurrentTransactionState b
    end.
Proof.
  intros Hc Ha. pose proof Hc as [H1 H2 H3 H4 H5 [H6 H7]].
  assert (Forall (λ s, state s ≠ TRANS_ABORT) (levels b)) as Hab.
  { constructor; [done|]. clear -H5. induction (parents b) as [|p ps IH]; [done|].
    destruct H5 as (_ & Hs & _ & _ & _ & H5). constructor; [by rewrite Hs|auto]. }
  assert (levels_ok base (shmem b) (XactTopFullTransactionId b) (levels b)) as Hl.
  { split; [done..|]. by rewrite top_xid_level. }
  destruct (assign_levels_run base (RecoveryInProgress b) (levels b) (XactTopFullTransactionId b) (shmem b) H1 Hl Hab)
    as (ls' & top' & sh' & r & Hr & Hf2 & Hadd & Hl' & Hres).
  unfold AssignTransactionId. pose proof H6 as Hpl. apply list.Forall_cons in H6 as [[Hp1 Hp2] H6]. unfold IsInParallelMode. rewrite Hp1, Hp2, H7.
  cbn [orb negb Z.eqb]. fold (levels b). rewrite Hr. inversion Hf2 as [|s s' ps ps' Hs' Hps' E1 E2]. subst s ps ls'.
  set (b' := set_shmem sh' _). exists b', r. split; [done|]. split.
  - split; [|exact Hf2|exact Hadd|done]. destruct Hl' as [L1 L2 L3]. split; cbn; [apply (added_ok _ _ _ Hadd)|exact L1| |exact L2| |].
    + rewrite L3. exact (top_xid_level b').
    + by eapply parents_ok_assigned.
    + split; [|done]. by eapply plain_assigned.
  - destruct r as [[]|e]; [by apply list.Forall_cons in Hres as [? _]|].
    destruct Hres as [? Hh]. split; [done|]. by injection Hh as ->.
Qed.

(** ** A stack *)

(** Ids of the second epoch, the statuses all in progress. *)
Definition young : shared :=
  SetTransactionIdLimit 200000000 (u32 4294900000) 5
    (mkShared (mkTransam (4294967296 + 104) 0 0 0 0 0 0) ∅ ∅ false).

(** A transaction with a committed subtransaction and two nested ones, the inner
    of which is being released. *)
Definition releasing : backend :=
  let level f subid n bs nest kids :=
    mkLevel f subid n 1 TRANS_INPROGRESS bs nest true kids false 0 false false in
  mkBackend (level (4294967296 + 103) 4 (Some "inner") TBLOCK_SUBRELEASE 3 [])
    [level (4294967296 + 102) 3 (Some "outer") TBLOCK_SUBINPROGRESS 2 [];
     level (4294967296 + 100) 1 None TBLOCK_INPROGRESS 1 [101]]
    (4294967296 + 100) 4 7 true (mkChars 1 false false) (mkChars 1 false false) false None young [] false false 100 [] [].

Lemma young_ok : shared_ok 4294900000 young.
Proof.
  apply set_limit_ok; [split; vm_compute; done|done|lia|split; vm_compute; done|split; vm_compute; done|].
  intros _ _ x _ _. unfold TransactionIdGetStatus, page_buffer. cbn [pg_xact].
  rewrite lookup_empty. cbn [default from_option id]. by rewrite Z.shiftr_0_l.
Qed.

Lemma releasing_inv : inv 4294900000 releasing.
Proof.
  split; [split|].
  - apply young_ok.
  - cbn. exists []. split_and!; [done|by repeat constructor|by repeat constructor|by repeat constructor|by repeat constructor|].
    exists []. split_and!; [done|by repeat constructor|by repeat constructor|by repeat constructor|by repeat constructor|].
    exists [4294967296 + 101]. split_and!; by repeat constructor.
  - done.
  - by repeat (apply list.Forall_cons; split; [by repeat constructor|]).
  - by cbn.
  - split; [by repeat constructor|done].
  - split; cbn; try done. by intros [?|?].
Qed.

(** ** Properties *)

(** [TransactionIdIsCurrentTransactionId], with its binary search over ids
    compared modulo 2^32, answers true exactly for the ids of the levels that are
    not aborted, that is their own ids and those of their committed
    subtransactions, and for the id of the main transaction, which it reports
    until the transaction is cleaned up. *)
Theorem current_xid_correct base b xid : core base b →
  TransactionIdIsCurrentTransactionId b xid = true ↔
    (∃ s, s ∈ levels b ∧ state s ≠ TRANS_ABORT ∧ xid ∈ owned s) ∨
    (fullTransactionId (top_level b) ≠ InvalidFullTransactionId ∧
     xid = XidFromFullTransactionId (fullTransactionId (top_level b))).
Proof. apply current_xid_spec. Qed.

Lemma current_xid_correct_witness : TransactionIdIsCurrentTransactionId releasing 101 = true.
Proof.
  apply (current_xid_correct 4294900000 releasing 101 (inv_core _ _ releasing_inv)). left.
  eexists. split; [do 2 right; left|]. split; [done|]. cbn. right. left.
Defined.



(** C32.  [AbortOutOfAnyTransaction], called when a backend exits, terminates in
    the idle state from every state in which control can leave a routine, with
    the ids of all levels aborted in the commit log. *)
Theorem abort_out_idle base b : inv base b →
  ∃ b', AbortOutOfAnyTransaction b = (b', Ok tt) ∧ inv base b' ∧ idle b' ∧
    gave_up (concat (owned <$> levels b)) (shmem b) (shmem b').
Proof. intros Hi. apply abort_out_loop; [done|lia]. Qed.

Lemma abort_out_idle_witness : ∃ b', AbortOutOfAnyTransaction releasing = (b', Ok tt) ∧ idle b' ∧
  TransactionIdGetStatus (pg_xact (shmem b')) 101 = TRANSACTION_STATUS_ABORTED.
Proof.
  destruct (abort_out_idle 4294900000 releasing releasing_inv) as (b' & Hr & _ & Hi & Hg).
  exists b'. split_and!; [done..|]. by rewrite (gave_status _ _ _ Hg).
Defined.
