(* ===== verification/XactCmd.v ===== *)
(** * What the transaction commands do to the writes of a session

    Each write of a session carries the transaction id of the level that made
    it; [h] lists the ids of all writes so far.  The content of a backend is the
    set of the writes that are committed and, for every level of the stack, the
    set of those that stand or fall with it.

    The lemmas of this file give, for each routine of [Xact], the content it
    leaves behind when it succeeds; if it reports an error instead, the state
    satisfies the invariant of [XactInv] and no write has become committed.
    There is no third outcome: none of the fatal errors of the source is reached
    from the states described here, whatever the steps of other modules do. *)
From stdpp Require Import base tactics list gmap strings numbers sorting.
From Stdlib Require Import ZArith Lia Bool.
From S2P Require Import Prelude Visibility Clog XidGen Xact XactInv.

(** ** Content *)

(** The positions of the writes with an id that satisfies [P]. *)
Definition writes (P : Z → bool) (h : list Z) : gset nat :=
  list_to_set (filter (λ i, match h !! i with Some x => P x | None => false end = true) (seq 0 (length h))).

Definition done_writes (h : list Z) (sh : shared) : gset nat :=
  writes (λ x, TransactionIdGetStatus (pg_xact sh) x =? TRANSACTION_STATUS_COMMITTED) h.

Definition level_writes (h : list Z) (s : TransactionStateData) : gset nat :=
  if bool_decide (state s = TRANS_ABORT) then ∅ else writes (λ x, bool_decide (x ∈ owned s)) h.

(** A level as the client sees it. *)
Record view : Type := mkView {
  v_name : option string;
  v_savepointLevel : Z;
  v_block : TBlockState;
  v_chain : bool;
  v_writes : gset nat
}.

Definition view_of (h : list Z) (s : TransactionStateData) : view :=
  mkView (name s) (savepointLevel s) (blockState s) (chain s) (level_writes h s).

Definition v_set_block (bs : TBlockState) (v : view) : view :=
  mkView (v_name v) (v_savepointLevel v) bs (v_chain v) (v_writes v).

Definition v_set_writes (w : gset nat) (v : view) : view :=
  mkView (v_name v) (v_savepointLevel v) (v_block v) (v_chain v) w.

Definition v_set_chain (c : bool) (v : view) : view :=
  mkView (v_name v) (v_savepointLevel v) (v_block v) c (v_writes v).

Definition v_set_name (n : option string) (l : Z) (v : view) : view :=
  mkView n l (v_block v) (v_chain v) (v_writes v).

(** The ids of the writes have been assigned. *)
Definition in_use (base : Z) (h : list Z) (sh : shared) : Prop :=
  Forall (λ x, ∃ f, x = u32 f ∧ normal_xid f ∧ base ≤ f < nextXid (TransamVariables sh)) h.

Record tracked (base : Z) (h : list Z) (K : gset nat) (vs : list view) (b : backend) : Prop := mkTracked {
  tr_core : core base b;
  tr_use : in_use base h (shmem b);
  tr_done : done_writes h (shmem b) = K;
  tr_levels : view_of h <$> levels b = vs
}.

(** The block states of a level that is being started. *)
Definition starting (bs : TBlockState) : bool :=
  match bs with TBLOCK_DEFAULT | TBLOCK_SUBBEGIN => true | _ => false end.

Definition head_starting (vs : list view) : bool :=
  match vs with v :: _ => starting (v_block v) | [] => false end.

(** A level past its start has its resource owner. *)
Definition owner_ok (st : TransState) (s : TransactionStateData) : Prop :=
  st ≠ TRANS_DEFAULT → st ≠ TRANS_START → (st = TRANS_ABORT → fullTransactionId s ≠ InvalidFullTransactionId) →
  curTransactionOwner s = true.

(** The levels [vs] with the current one in low-level state [st]. *)
Record live (base : Z) (h : list Z) (K : gset nat) (vs : list view) (st : TransState) (b : backend) : Prop := mkLive {
  live_tracked : tracked base h K vs b;
  live_state : state (CurrentTransactionState b) = st;
  live_nest : nestingLevel (CurrentTransactionState b) = Z.of_nat (length vs);
  live_owner : owner_ok st (CurrentTransactionState b);
  live_fresh : head_starting vs = true → fullTransactionId (CurrentTransactionState b) = InvalidFullTransactionId
}.

(** What may happen in [m] from [P]: it succeeds with [Q], or reports an error in
    a state that satisfies the invariant and [E]. *)
Definition safe {A} (base : Z) (E P : backend → Prop) (m : X A) (Q : A → backend → Prop) : Prop :=
  ∀ b, P b →
    match m b with
    | (b', Ok a) => Q a b'
    | (b', Err (ErrReport _)) => inv base b' ∧ E b'
    | (_, Err _) => False
    end.

(** The levels that error recovery leaves: those from the first whose block
    stays open, which fails. *)
Fixpoint open_part (vs : list view) : list view :=
  match vs with
  | [] => []
  | v :: vs' => if stays_open (v_block v) then vs else open_part vs'
  end.

Definition fail_views (vs : list view) : list view :=
  match vs with
  | [] => []
  | v :: vs' => v_set_block (if vs' is [] then TBLOCK_ABORT else TBLOCK_SUBABORT) (v_set_writes ∅ v) :: vs'
  end.

(** The names of a stack: all levels are of savepoint level 0, and the outermost
    one is not a savepoint. *)
Definition named (vs : list view) : Prop :=
  Forall (λ v, v_savepointLevel v = 0) vs ∧ v_name <$> list.last vs = Some None.

(** After an error the writes [K] are the committed ones, and recovery leaves the
    levels [f]. *)
Record recoverable (base : Z) (h : list Z) (K : gset nat) (f : list view) (b : backend) : Prop := mkRecoverable {
  rec_use : in_use base h (shmem b);
  rec_done : done_writes h (shmem b) = K;
  rec_levels : fail_views (open_part (view_of h <$> levels b)) = f;
  rec_names : named (view_of h <$> levels b)
}.

(** ** Writes *)

Lemma elem_of_writes P h i : i ∈ writes P h ↔ ∃ x, h !! i = Some x ∧ P x = true.
Proof.
  unfold writes. rewrite elem_of_list_to_set, list_elem_of_filter, elem_of_seq. split.
  - intros [Hp _]. destruct (h !! i) as [x|]; [by exists x|done].
  - intros (x & Hx & Hp). rewrite Hx. split; [done|]. apply lookup_lt_Some in Hx. lia.
Qed.

Lemma writes_ext P Q h : (∀ x, x ∈ h → P x = Q x) → writes P h = writes Q h.
Proof.
  intros H. apply leibniz_equiv. intros i. rewrite !elem_of_writes.
  split; intros (x & Hx & Hp); exists x; (split; [done|]); rewrite <- Hp; [symmetry|]; apply H;
    by eapply list_elem_of_lookup_2.
Qed.

Lemma writes_union P Q R h : (∀ x, x ∈ h → R x = P x || Q x) → writes R h = writes P h ∪ writes Q h.
Proof.
  intros H. rewrite (writes_ext R (λ x, P x || Q x)) by done. apply leibniz_equiv. intros i.
  rewrite elem_of_union, !elem_of_writes. setoid_rewrite orb_true_iff.
  split; [intros (x & Hx & [Hp|Hp]); [left|right]; by exists x|intros [(x & Hx & Hp)|(x & Hx & Hp)]; exists x; auto].
Qed.

Lemma writes_none P h : (∀ x, x ∈ h → P x = false) → writes P h = ∅.
Proof.
  intros H. apply leibniz_equiv. intros i. rewrite elem_of_writes. split; [|by intros ?%elem_of_empty].
  intros (x & Hx & Hp). rewrite H in Hp; [done|]. by eapply list_elem_of_lookup_2.
Qed.

(** ** Changes that keep the content *)

Section tracking.
Context (base : Z) (h : list Z).

Lemma tracked_frame K vs b b' : tracked base h K vs b →
  shmem b' = shmem b → XactTopFullTransactionId b' = XactTopFullTransactionId b →
  IsParallelWorker b' = IsParallelWorker b → levels b' = levels b → tracked base h K vs b'.
Proof.
  intros [H1 H2 H3 H4] Hs Ht Hp Hl. split; [by eapply core_intro|by rewrite Hs|by rewrite Hs|by rewrite Hl].
Qed.

Lemma level_writes_keeps f s : keeps_ids f s → level_writes h (f s) = level_writes h s.
Proof.
  intros Hk. unfold level_writes. rewrite (owned_keeps f s Hk), (bool_decide_ext _ _ (keeps_abort f s Hk)). done.
Qed.

Lemma tracked_cur K v vs b f : tracked base h K (v :: vs) b → keeps_ids f (CurrentTransactionState b) →
  tracked base h K (view_of h (f (CurrentTransactionState b)) :: vs)
    (set_stack (f (CurrentTransactionState b)) (parents b) b).
Proof.
  intros [H1 H2 H3 H4] Hk. split; [by apply core_cur|done|done|]. cbn in *. by injection H4 as _ ->.
Qed.

(** An old write is not with an id assigned since. *)
Lemma writes_assigned sh sh' s s' hi ps hi' ps' : in_use base h sh → ids_added base sh sh' →
  id_assigned (nextXid (TransamVariables sh)) s s' → xids_ok base hi (s :: ps) → xids_ok base hi' (s' :: ps') →
  hi' ≤ nextXid (TransamVariables sh') → level_writes h s' = level_writes h s.
Proof.
  intros Hu Hadd [Hs Hk] Hx Hx' Hh. unfold level_writes. rewrite Hs. cbn [state set_fxid].
  destruct (bool_decide _); [done|]. apply writes_ext. intros x Hin. apply bool_decide_ext. rewrite <- Hs.
  destruct Hk as [Hk|[H0 Hlo]]; [unfold owned; rewrite Hs; cbn; by rewrite Hk|].
  destruct (owned_nil _ _ _ _ Hx H0) as [-> Hch]. split; [|by intros ?%elem_of_nil]. intros Ho. exfalso.
  destruct (owned_full _ _ _ _ _ Hx' Ho) as (f & Hf & _ & Hr & Hle).
  unfold in_use in Hu. rewrite list.Forall_forall in Hu. destruct (Hu x Hin) as (g & Hg & _ & Hgr).
  pose proof (lim_window _ _ (sh_limits _ _ (added_ok _ _ _ Hadd))). pose proof (added_next _ _ _ Hadd).
  rewrite Hf in Hg. apply u32_inj_window in Hg; lia.
Qed.

Lemma in_use_added sh sh' : in_use base h sh → ids_added base sh sh' → in_use base h sh'.
Proof.
  intros Hu Hadd. eapply list.Forall_impl; [exact Hu|]. intros x (f & ? & ? & ?). exists f.
  pose proof (added_next _ _ _ Hadd). split_and!; try done; lia.
Qed.

Lemma done_added sh sh' : in_use base h sh → ids_added base sh sh' → done_writes h sh' = done_writes h sh.
Proof.
  intros Hu Hadd. apply writes_ext. intros x Hx. unfold in_use in Hu. rewrite list.Forall_forall in Hu.
  destruct (Hu x Hx) as (f & -> & Hf & Hr). by rewrite (added_status _ _ _ Hadd f Hf Hr).
Qed.

Lemma views_assigned sh sh' ls ls' hi hi' : in_use base h sh → ids_added base sh sh' →
  Forall2 (id_assigned (nextXid (TransamVariables sh))) ls ls' → xids_ok base hi ls → xids_ok base hi' ls' →
  hi' ≤ nextXid (TransamVariables sh') → view_of h <$> ls' = view_of h <$> ls.
Proof.
  intros Hu Hadd Hf. revert hi hi'. induction Hf as [|s s' ls ls' Hs Hls IH]; intros hi hi' Hx Hx' Hh; [done|].
  rewrite !fmap_cons. f_equal.
  - unfold view_of. rewrite (writes_assigned sh sh' s s' hi ls hi' ls') by done. destruct Hs as [-> _]. done.
  - by eapply IH; [exact (xids_tail _ _ _ _ Hx)|exact (xids_tail _ _ _ _ Hx')|].
Qed.

Lemma tracked_assigned K vs b b' : tracked base h K vs b → assigned base b b' → tracked base h K vs b'.
Proof.
  intros [H1 H2 H3 H4] [A1 A2 A3 A4]. split; [done|by eapply in_use_added|by rewrite (done_added (shmem b))|].
  rewrite <- H4. eapply views_assigned; [exact H2|exact A3|exact A2|exact (core_xids _ _ H1)|exact (core_xids _ _ A1)|done].
Qed.

End tracking.

(** ** Rules for [safe] *)

Section rules.
Context (base : Z) (E : backend → Prop).

Lemma safe_bind {A B} P (m : X A) Q (k : A → X B) R :
  safe base E P m Q → (∀ a, safe base E (Q a) (k a) R) → safe base E P (m ≫= k) R.
Proof.
  intros Hm Hk b Hb. specialize (Hm b Hb). unfold mbind, M_bind. destruct (m b) as [b' [a|e]]; [by apply Hk|done].
Qed.

Lemma safe_then {A} P (m : X unit) Q (k : X A) R :
  safe base E P m (λ _, Q) → safe base E Q k R → safe base E P (m ;; k) R.
Proof. intros Hm Hk. by eapply safe_bind. Qed.

Lemma safe_conseq {A} (P P' : backend → Prop) (m : X A) (Q Q' : A → backend → Prop) :
  safe base E P m Q → (∀ b, P' b → P b) → (∀ a b, Q a b → Q' a b) → safe base E P' m Q'.
Proof.
  intros Hm Hp Hq b Hb. specialize (Hm b (Hp b Hb)). destruct (m b) as [b' [a|e]]; [by apply Hq|done].
Qed.

Lemma safe_pre {A} (P P' : backend → Prop) (m : X A) (Q : A → backend → Prop) :
  safe base E P m Q → (∀ b, P' b → P b) → safe base E P' m Q.
Proof. intros Hm Hp. by eapply safe_conseq. Qed.

Lemma safe_ret {A} (a : A) (P : backend → Prop) (Q : A → backend → Prop) : (∀ b, P b → Q a b) →
  safe base E P (mret a) Q.
Proof. intros H b Hb. by apply H. Qed.

Lemma safe_modify f (P : backend → Prop) (Q : unit → backend → Prop) :
  (∀ b, P b → Q tt (f b)) → safe base E P (modify f) Q.
Proof. intros H b Hb. by apply H. Qed.

(** A value read from the state is known from the precondition. *)
Lemma safe_gets {A B} (f : backend → A) (a : A) (P : backend → Prop) (k : A → X B) Q :
  (∀ b, P b → f b = a) → safe base E P (k a) Q → safe base E P (gets f ≫= k) Q.
Proof. intros Ha Hk b Hb. specialize (Hk b Hb). unfold gets, mbind, M_bind. by rewrite Ha. Qed.

Lemma safe_get {B} (P : backend → Prop) (k : backend → X B) Q :
  (∀ b, P b → safe base E (λ x, x = b) (k b) Q) → safe base E P (get ≫= k) Q.
Proof. intros Hk b Hb. by apply (Hk b Hb b). Qed.

Lemma safe_report {A} msg (P : backend → Prop) (Q : A → backend → Prop) : (∀ b, P b → inv base b ∧ E b) →
  safe base E P (fail (ErrReport msg)) Q.
Proof. intros H b Hb. by apply H. Qed.

Lemma safe_subsystem (P : backend → Prop) : (∀ b, P b → inv base b ∧ E b) → (∀ b l, P b → P (set_acts l b)) →
  safe base E P subsystem (λ _, P).
Proof.
  intros Hi Hs b Hb. unfold subsystem. destruct (acts b) as [|a l]; [done|].
  destruct (act_fails a); [by apply Hi, Hs|by apply Hs].
Qed.

Lemma safe_warn_unless ok who (P : backend → Prop) : (∀ b ws, P b → P (set_warnings ws b)) →
  safe base E P (warn_unless ok who) (λ _, P).
Proof. intros Hs b Hb. destruct (warn_unless_run ok who b) as [ws ->]. by apply Hs. Qed.

(** A run of code that cannot fail. *)
Lemma safe_run {A} (P : backend → Prop) (m : X A) Q : (∀ b, P b → ∃ b' a, m b = (b', Ok a) ∧ Q a b') → safe base E P m Q.
Proof. intros H b Hb. by destruct (H b Hb) as (b' & a & -> & HQ). Qed.
End rules.

(** ** Live levels *)

(** The block state of the innermost level goes with the low-level state and
    with there being parents, and recovery from here leaves [f]. *)
Definition fits (f : list view) (vs : list view) (st : TransState) : Prop :=
  match vs with
  | [] => False
  | v :: ps =>
      sub_block (v_block v) = negb (bool_decide (ps = [])) ∧
      state_fits (v_block v) st = true ∧
      (v_block v = TBLOCK_DEFAULT → st ≠ TRANS_DEFAULT) ∧
      fail_views (open_part vs) = f ∧ named vs
  end.

Section live.
Context (base : Z) (h : list Z) (K : gset nat) (f : list view).
Abbreviation E := (recoverable base h K f).
Abbreviation live := (live base h K).

Lemma live_frame vs st b b' : live vs st b →
  shmem b' = shmem b → XactTopFullTransactionId b' = XactTopFullTransactionId b →
  IsParallelWorker b' = IsParallelWorker b → levels b' = levels b → live vs st b'.
Proof.
  intros [H1 H2 H3 H4 H5] Hs Ht Hp Hl. pose proof Hl as Hl'. unfold levels in Hl'. injection Hl' as Hc _.
  split; [by eapply tracked_frame|by rewrite Hc..].
Qed.

Lemma live_length vs st b : live vs st b → length vs = S (length (parents b)).
Proof. intros [[_ _ _ <-] _ _ _ _]. by rewrite length_fmap. Qed.

Lemma live_view v vs st b : live (v :: vs) st b → v = view_of h (CurrentTransactionState b).
Proof. intros [[_ _ _ Hv] _ _ _ _]. simpl in Hv. by injection Hv as <- _. Qed.

Lemma live_parents v vs st b : live (v :: vs) st b → view_of h <$> parents b = vs.
Proof. intros [[_ _ _ Hv] _ _ _ _]. simpl in Hv. by injection Hv as _ <-. Qed.

Lemma live_block v vs st b : live (v :: vs) st b → blockState (CurrentTransactionState b) = v_block v.
Proof. intros Hl. by rewrite (live_view _ _ _ _ Hl). Qed.

Lemma live_core vs st b : live vs st b → core base b.
Proof. intros [[H _ _ _] _ _ _ _]. exact H. Qed.

Lemma live_inv vs st b : live vs st b → fits f vs st → inv base b ∧ E b.
Proof.
  intros Hl Hf. destruct vs as [|v vs]; [done|]. destruct Hf as (Hsub & Hst & Hd & Hrec & Hnm).
  pose proof (live_length _ _ _ Hl) as Hlen. pose proof (live_block _ _ _ _ Hl) as Hbs.
  destruct Hl as [[Hc Hu Hk Hv] Hs Hn Ho Hfr]. split; [|rewrite <- Hv in Hrec, Hnm; done]. split; [done|].
  simpl in Hlen. injection Hlen as Hlen. split; rewrite ?Hbs.
  - rewrite Hsub, <- Hlen. by destruct vs.
  - by rewrite Hs.
  - rewrite Hn, <- Hlen, bool_decide_eq_false_2; [simpl; lia|]. intros [H1 H2]. apply (Hd H1). congruence.
  - intros Hne. apply Ho; [intros ->; apply Hne, Hfr; simpl; by destruct (v_block v)..|done].
  - intros H. apply Hfr. simpl. by destruct H as [-> | ->].
Qed.

(** A change of the current level. *)
Lemma live_cur v v' vs st st' b g : live (v :: vs) st b → keeps_ids g (CurrentTransactionState b) →
  nestingLevel (g (CurrentTransactionState b)) = nestingLevel (CurrentTransactionState b) →
  owner_ok st' (g (CurrentTransactionState b)) →
  (starting (v_block v') = true → starting (v_block v) = true) →
  view_of h (g (CurrentTransactionState b)) = v' → state (g (CurrentTransactionState b)) = st' →
  live (v' :: vs) st' (set_stack (g (CurrentTransactionState b)) (parents b) b).
Proof.
  intros [H1 H2 H3 H4 H5] Hk Hn Ho Hfr <- Hst. split; [by eapply tracked_cur|done|by cbn; rewrite Hn|done|].
  cbn. intros H. rewrite (keeps_fxid _ _ Hk). by apply H5, Hfr.
Qed.

Lemma live_assigned vs st b b' : head_starting vs = false → st ≠ TRANS_ABORT → live vs st b → assigned base b b' → live vs st b'.
Proof.
  intros Hst Hab [H1 H2 H3 H4 H5] Ha. pose proof (asg_levels _ _ _ Ha) as Hl. unfold levels in Hl.
  apply Forall2_cons in Hl as [[Hs _] _]. split; [by eapply tracked_assigned|by rewrite Hs..| |by rewrite Hst].
  intros Hd Hs1 _. rewrite Hs. by apply H4.
Qed.

(** Steps of other modules at a live level. *)
Lemma subsystem_live vs st : fits f vs st → safe base E (live vs st) subsystem (λ _, live vs st).
Proof. intros Hf. apply safe_subsystem; [intros b Hb; by eapply live_inv|intros b l Hb; by eapply live_frame]. Qed.

Lemma warn_live vs st ok who : safe base E (live vs st) (warn_unless ok who) (λ _, live vs st).
Proof. apply safe_warn_unless. intros b ws Hb. by eapply live_frame. Qed.

Lemma get_xid_live vs : fits f vs TRANS_INPROGRESS → head_starting vs = false →
  safe base E (live vs TRANS_INPROGRESS) GetCurrentFullTransactionId
    (λ x b, live vs TRANS_INPROGRESS b ∧ x = fullTransactionId (CurrentTransactionState b) ∧
            x ≠ InvalidFullTransactionId).
Proof.
  intros Hf Hst b Hb. unfold GetCurrentFullTransactionId. unfold get at 1, mbind at 1, M_bind at 1.
  pose proof (live_core _ _ _ Hb) as Hc. rewrite (xids_valid _ _ _ _ (core_xids _ _ Hc)), negb_involutive.
  destruct (Z.eqb_spec (fullTransactionId (CurrentTransactionState b)) InvalidFullTransactionId) as [H0|H0]; [|done].
  destruct (assign_run base b Hc) as (b' & r & Hr & Ha & Hres); [by rewrite (live_state _ _ _ _ _ _ Hb)|].
  unfold mbind, M_bind. rewrite Hr. pose proof (live_assigned _ TRANS_INPROGRESS _ _ Hst ltac:(done) Hb Ha) as Hb'. destruct r as [[]|e]; [done|].
  destruct Hres as [[msg ->] _]. by eapply live_inv.
Qed.

Lemma user_code_live vs : fits f vs TRANS_INPROGRESS → head_starting vs = false →
  safe base E (live vs TRANS_INPROGRESS) user_code (λ _, live vs TRANS_INPROGRESS).
Proof.
  intros Hf Hst b Hb. unfold user_code. destruct (acts b) as [|a l]; [done|].
  assert (live vs TRANS_INPROGRESS (set_acts l b)) as Hl by (by eapply live_frame).
  revert Hl. generalize (set_acts l b). clear b Hb.
  change (safe base E (live vs TRANS_INPROGRESS)
    ((if act_writes a then GetCurrentTransactionId ;; GetCurrentCommandId true ;; mret tt else mret tt) ;;
     (if act_fails a then fail (ErrReport "error in user code") else mret tt)) (λ _, live vs TRANS_INPROGRESS)).
  apply safe_then with (live vs TRANS_INPROGRESS).
  - destruct (act_writes a); [|by apply safe_ret]. unfold GetCurrentTransactionId.
    eapply safe_bind; [eapply safe_bind; [by apply get_xid_live|intros x; by apply safe_ret with (Q := λ _, live vs TRANS_INPROGRESS); intros b (? & _)]|intros x].
    intros b1 H1. unfold GetCurrentCommandId, mbind, M_bind.
    rewrite (proj2 (core_plain _ _ (live_core _ _ _ H1))). by eapply live_frame.
  - destruct (act_fails a); [apply safe_report; intros b1 H1; by eapply live_inv|by apply safe_ret].
Qed.
End live.

(** ** Assignments to the current level *)

(** [g] turns a level with view [v] in state [st] into one with [v'] in [st']. *)
Record changes (h : list Z) (v v' : view) (st st' : TransState) (g : TransactionStateData → TransactionStateData)
    (s : TransactionStateData) : Prop := mkChanges {
  ch_keeps : keeps_ids g s;
  ch_nest : nestingLevel (g s) = nestingLevel s;
  ch_owner : owner_ok st s → owner_ok st' (g s);
  ch_view : view_of h (g s) = v';
  ch_state : state (g s) = st'
}.

Lemma level_writes_state h s st : state s ≠ TRANS_ABORT → st ≠ TRANS_ABORT →
  level_writes h (set_state st s) = level_writes h s.
Proof. intros H1 H2. unfold level_writes. by rewrite !bool_decide_eq_false_2. Qed.

Section assignments.
Context (base : Z) (h : list Z) (K : gset nat) (E : backend → Prop).
Abbreviation live := (live base h K).

Lemma upd_live v v' vs st st' g : (starting (v_block v') = true → starting (v_block v) = true) →
  (∀ s, view_of h s = v → state s = st → changes h v v' st st' g s) →
  safe base E (live (v :: vs) st) (upd g) (λ _, live (v' :: vs) st').
Proof.
  intros Hs Hg. apply safe_modify. intros b Hb.
  destruct (Hg (CurrentTransactionState b)) as [H1 H2 H3 H4 H5]; [by rewrite (live_view _ _ _ _ _ _ _ Hb)|by apply Hb|].
  eapply live_cur; [exact Hb|done..| |done|done|done]. apply H3. by apply Hb.
Qed.

Lemma block_live v vs st bs : starting bs = false →
  safe base E (live (v :: vs) st) (block bs) (λ _, live (v_set_block bs v :: vs) st).
Proof.
  intros Hbs. apply upd_live; [by cbn; rewrite Hbs|]. intros s <- Hst.
  split; [split|..]; by try (cbn; rewrite Hst).
Qed.

Lemma chain_live v vs st c : safe base E (live (v :: vs) st) (upd (set_chain c)) (λ _, live (v_set_chain c v :: vs) st).
Proof. apply upd_live; [done|]. intros s <- Hst. split; [split|..]; by try (cbn; rewrite Hst). Qed.

Lemma name_live v vs st n : safe base E (live (v :: vs) st) (upd (set_name n))
  (λ _, live (v_set_name n (v_savepointLevel v) v :: vs) st).
Proof. apply upd_live; [done|]. intros s <- Hst. split; [split|..]; by try (cbn; rewrite Hst). Qed.

Lemma name_level_live v vs st n l : safe base E (live (v :: vs) st) (upd (name_level n l))
  (λ _, live (v_set_name n l v :: vs) st).
Proof. apply upd_live; [done|]. intros s <- Hst. split; [split|..]; by try (cbn; rewrite Hst). Qed.

Lemma state_live v vs st st' : st ≠ TRANS_ABORT → st' ≠ TRANS_ABORT →
  ((st = TRANS_DEFAULT ∨ st = TRANS_START) → st' = TRANS_DEFAULT ∨ st' = TRANS_START) →
  safe base E (live (v :: vs) st) (upd (set_state st')) (λ _, live (v :: vs) st').
Proof.
  intros Ha Ha' Ho. apply upd_live; [done|]. intros s <- Hst. split; [split; cbn; by rewrite ?Hst|done| | |done].
  - intros H1 H2 H3 _. apply H1; [intros ->; destruct Ho; auto..|]. by intros ->.
  - unfold view_of. by rewrite level_writes_state by (by rewrite ?Hst).
Qed.

Lemma owner_live v vs st : safe base E (live (v :: vs) st) (upd (set_owner true)) (λ _, live (v :: vs) st).
Proof. apply upd_live; [done|]. intros s <- Hst. split; [split|..]; by try (cbn; rewrite Hst). Qed.

Lemma parallel_live v vs st : safe base E (live (v :: vs) st)
  (upd (λ s, set_parallel 0 (parallelChildXact s) s)) (λ _, live (v :: vs) st).
Proof.
  apply upd_live; [done|]. intros s <- Hst. split; [split|..]; try done. by intros [_ H].
Qed.

(** No parallel operation has been left open. *)
Lemma warn_parallel_live vs st msg : safe base E (live vs st) (warn_parallel 0 msg) (λ _, live vs st).
Proof.
  apply (safe_gets _ _ _ 0); [|by apply safe_ret]. intros b Hb. destruct (core_plain _ _ (live_core _ _ _ _ _ _ Hb)) as [H _].
  by apply list.Forall_cons in H as [[H _] _].
Qed.
End assignments.

(** ** Starting a transaction *)

(** The backend is between transactions. *)
Definition at_rest (base : Z) (h : list Z) (K : gset nat) (v : view) (b : backend) : Prop :=
  tracked base h K [v] b ∧ blank (CurrentTransactionState b) ∧ v_block v = TBLOCK_DEFAULT.

(** The transaction has ended; its level, now of the next one, has no writes. *)
Definition over (base : Z) (h : list Z) (K : gset nat) (v : view) (b : backend) : Prop :=
  tracked base h K [v_set_writes ∅ v] b ∧ blank (CurrentTransactionState b).

Lemma level_writes_blank h s : fullTransactionId s = InvalidFullTransactionId → level_writes h s = ∅.
Proof.
  intros Hf. unfold level_writes, owned. rewrite Hf. destruct (bool_decide _); [done|]. by apply writes_none.
Qed.

Lemma tracked_single base h K v b : tracked base h K [v] b → parents b = [] ∧ v = view_of h (CurrentTransactionState b).
Proof.
  intros [_ _ _ Hv]. unfold levels in Hv. simpl in Hv. injection Hv as <- Hp. split; [by destruct (parents b)|done].
Qed.

Lemma live_single base h K v st b : live base h K [v] st b → parents b = [].
Proof. intros [Ht _ _ _ _]. by apply tracked_single in Ht as [? _]. Qed.

Lemma at_rest_inv base h K v b : at_rest base h K v b → named [v] → inv base b ∧ recoverable base h K [] b.
Proof.
  intros (Ht & Hb & Hv) Hn0. destruct (tracked_single _ _ _ _ _ Ht) as [Hp He]. destruct Ht as [Hc Hu Hd Hl].
  destruct Hb as [Hs Hf Hch Hn]. assert (blockState (CurrentTransactionState b) = TBLOCK_DEFAULT) as Hbs by (by rewrite <- Hv, He).
  split; [split; [done|]; rewrite Hp; split; rewrite ?Hbs, ?Hs, ?Hf, ?Hn; done|].
  split; rewrite ?Hl; [done..| |done]. simpl. by rewrite Hv.
Qed.

Section starts.
Context (base : Z) (h : list Z) (K : gset nat) (f : list view).
Abbreviation E := (recoverable base h K f).
Abbreviation live := (live base h K).

(** A level being started that has its resource owner. *)
Definition owning (vs : list view) (b : backend) : Prop :=
  live vs TRANS_START b ∧ curTransactionOwner (CurrentTransactionState b) = true.

Lemma set_owner_owning v vs : safe base E (live (v :: vs) TRANS_START) (upd (set_owner true)) (λ _, owning (v :: vs)).
Proof.
  apply safe_modify. intros b Hb. split; [|done]. eapply live_cur; [exact Hb|by split|done..| |].
  - by rewrite (live_view _ _ _ _ _ _ _ Hb).
  - by apply Hb.
Qed.

Lemma subsystem_owning vs : fits f vs TRANS_START → safe base E (owning vs) subsystem (λ _, owning vs).
Proof.
  intros Hf. apply safe_subsystem; [intros b [Hb _]; by eapply live_inv|].
  intros b l [Hb Ho]. split; [by eapply live_frame|done].
Qed.

Lemma in_progress_owning v vs : safe base E (owning (v :: vs)) (upd (set_state TRANS_INPROGRESS))
  (λ _, live (v :: vs) TRANS_INPROGRESS).
Proof.
  apply safe_modify. intros b [Hb Ho]. pose proof (live_state _ _ _ _ _ _ Hb) as Hs.
  eapply live_cur; [exact Hb|split; cbn; by rewrite ?Hs|done|by intros _ _ _|done| |done].
  rewrite (live_view _ _ _ _ _ _ _ Hb). unfold view_of. by rewrite level_writes_state by (by rewrite ?Hs).
Qed.

Lemma start_levels v vs : fits f (v :: vs) TRANS_START →
  safe base E (live (v :: vs) TRANS_START)
    (subsystem ;; upd (set_owner true) ;; subsystem ;; upd (set_state TRANS_INPROGRESS))
    (λ _, live (v :: vs) TRANS_INPROGRESS).
Proof.
  intros Hf. eapply safe_then; [by apply subsystem_live|]. eapply safe_then; [apply set_owner_owning|].
  eapply safe_then; [by apply subsystem_owning|]. apply in_progress_owning.
Qed.
End starts.

(** Runs the assignments at the front of a sequence. *)
Ltac assignments := repeat (erewrite then_ok by reflexivity).

Lemma start_transaction_safe base h K v : named [v] → safe base (recoverable base h K []) (at_rest base h K v) StartTransaction
  (λ _, live base h K [v] TRANS_INPROGRESS).
Proof.
  intros Hnm b (Ht & [Hs Hf Hch Hn] & Hv). destruct (tracked_single _ _ _ _ _ Ht) as [Hp He].
  destruct Ht as [Hc Hu Hd Hl]. assert (top_level b = CurrentTransactionState b) as Htop by (unfold top_level; by rewrite Hp).
  destruct (core_plain _ _ Hc) as [Hpl _]. apply list.Forall_cons in Hpl as [Hpl _].
  unfold StartTransaction. assignments. rewrite Htop. set (b1 := set_cid 0 false _).
  assert (live base h K [v] TRANS_START b1) as Hst.
  { split; [split| | |by intros ??|]; try done.
    - assert (core base (set_stack (CurrentTransactionState b1) [] (set_top InvalidFullTransactionId b))) as H
        by (by apply core_cleared).
      eapply core_intro; [exact H|done| |done|done]. cbn. by rewrite (core_top _ _ Hc), Htop.
    - cbn. rewrite He. unfold view_of. cbn. by rewrite !level_writes_blank. }
  clearbody b1. revert b1 Hst. apply start_levels. by cbn; rewrite Hv.
Qed.

(** ** The end of a transaction *)

(** The assignments after the commit record. *)
Definition forget_transaction : X unit :=
  upd clear_level ;; modify (set_top InvalidFullTransactionId) ;; upd (set_state TRANS_DEFAULT).

Lemma over_rest base E h K v : safe base E (over base h K v) (block TBLOCK_DEFAULT)
  (λ _, at_rest base h K (v_set_block TBLOCK_DEFAULT (v_set_writes ∅ v))).
Proof.
  apply safe_modify. intros b [Ht [H1 H2 H3 H4]]. destruct (tracked_single _ _ _ _ _ Ht) as [Hp Hv]. split; [|done].
  pose proof (tracked_cur base h K _ _ b (set_block TBLOCK_DEFAULT) Ht ltac:(done)) as H.
  replace (v_set_block TBLOCK_DEFAULT (v_set_writes ∅ v)) with (view_of h (set_block TBLOCK_DEFAULT (CurrentTransactionState b))); [done|].
  rewrite Hv. done.
Qed.

Section ends.
Context (base : Z) (h : list Z) (K : gset nat).
Abbreviation E := (recoverable base h K []).
Abbreviation live := (live base h K).

(** Shared memory in which the ids [xs] of the only level got another status and
    are forgotten by the backend. *)
Lemma forget_over K' v st b c (xs : list Z) : live [v] st b →
  (∀ x, x ∉ xs → TransactionIdGetStatus c x = TransactionIdGetStatus (pg_xact (shmem b)) x) →
  (∀ x, x ∈ xs → x ∈ owned (CurrentTransactionState b)) →
  done_writes h (set_pg_xact c (shmem b)) = K' →
  ∃ b', forget_transaction (set_shmem (set_pg_xact c (shmem b)) b) = (b', Ok tt) ∧ over base h K' v b'.
Proof.
  intros Hl Hst Hxs HK. pose proof (live_single _ _ _ _ _ _ Hl) as Hp. pose proof (live_view _ _ _ _ _ _ _ Hl) as Hv.
  destruct Hl as [[[H1 H2 H3 H4 H5 [H6 H7]] Hu Hd _] Hs Hn Ho _].
  eexists. split; [done|]. apply list.Forall_cons in H6 as [H6 _]. split; [|done].
  assert (shared_ok base (set_pg_xact c (shmem b))) as Hsh.
  { eapply shared_status; [done|exact Hst|]. intros x Hx. apply Hxs in Hx.
    destruct (owned_full _ _ _ _ _ H2 Hx) as (f & ? & _ & ? & _). by exists f. }
  split; [|exact Hu|exact HK|].
  - split; cbn; rewrite ?Hp; [exact Hsh|done|done| |done|split; [|done]].
    + constructor; [|constructor]. by constructor.
    + by constructor; [|constructor].
  - cbn. rewrite Hp, Hv. unfold view_of, v_set_writes. cbn. by rewrite level_writes_blank.
Qed.

(** The writes of a level that is not aborted. *)
Lemma live_writes v vs st b : live (v :: vs) st b → st ≠ TRANS_ABORT →
  v_writes v = writes (λ x, bool_decide (x ∈ owned (CurrentTransactionState b))) h.
Proof.
  intros Hl Ha. rewrite (live_view _ _ _ _ _ _ _ Hl). cbn. unfold level_writes.
  by rewrite (live_state _ _ _ _ _ _ Hl), bool_decide_eq_false_2.
Qed.

Lemma live_writes_none v vs st b : live (v :: vs) st b →
  fullTransactionId (CurrentTransactionState b) = InvalidFullTransactionId → v_writes v = ∅.
Proof. intros Hl Hf. rewrite (live_view _ _ _ _ _ _ _ Hl). cbn. by apply level_writes_blank. Qed.

Lemma set_pg_xact_same b : set_shmem (set_pg_xact (pg_xact (shmem b)) (shmem b)) b = b.
Proof. by destruct b as [? ? ? ? ? ? ? ? ? ? []]. Qed.

Lemma commit_record_safe v : fits [] [v] TRANS_COMMIT →
  safe base E (live [v] TRANS_COMMIT) (RecordTransactionCommit ;; forget_transaction)
    (λ _, over base h (K ∪ v_writes v) v).
Proof.
  intros Hf b Hb. pose proof (live_core _ _ _ _ _ _ Hb) as Hc. pose proof (xids_valid _ _ _ _ (core_xids _ _ Hc)) as Hval.
  unfold RecordTransactionCommit. unfold get at 1, mbind at 1, M_bind at 1. unfold mbind at 1, M_bind at 1.
  unfold GetTopTransactionIdIfAny. rewrite (core_top _ _ Hc). unfold top_level. rewrite (live_single _ _ _ _ _ _ Hb).
  cbn [list.last default from_option]. unfold FullTransactionIdIsValid in Hval. rewrite Hval.
  destruct (Z.eqb_spec (fullTransactionId (CurrentTransactionState b)) InvalidFullTransactionId) as [H0|H0]; cbn [negb].
  - rewrite (live_writes_none _ _ _ _ Hb H0), union_empty_r_L. pose proof (subsystem_live base h K [] [v] TRANS_COMMIT Hf b Hb) as Hsub.
    destruct (subsystem b) as [b1 [[]|[]]]; try done.
    destruct (forget_over K v TRANS_COMMIT b1 (pg_xact (shmem b1)) [] Hsub) as (b' & Hr & Ho); [done|by intros x ?%elem_of_nil| |].
    { destruct Hsub as [[_ _ <- _] _ _ _ _]. by destruct (shmem b1). }
    rewrite set_pg_xact_same in Hr. by rewrite Hr.
  - unfold write_clog, modify. set (c := run_writes _ _).
    assert (Hcs : ∀ x, TransactionIdGetStatus c x = if bool_decide (x ∈ owned (CurrentTransactionState b))
      then TRANSACTION_STATUS_COMMITTED else TransactionIdGetStatus (pg_xact (shmem b)) x).
    { intros x. subst c. rewrite commit_tree_status; [|exact Hval].
      unfold owned. by rewrite (proj2 (Z.eqb_neq _ _) H0). }
    destruct (forget_over (K ∪ v_writes v) v TRANS_COMMIT b c (owned (CurrentTransactionState b)) Hb) as (b' & Hr & Ho);
      [intros x Hx0; rewrite Hcs; by rewrite bool_decide_eq_false_2|done| |by rewrite Hr].
    rewrite (live_writes _ _ _ _ Hb) by done. destruct Hb as [[_ _ <- _] _ _ _ _]. apply writes_union. intros x _. cbn. rewrite Hcs.
    by destruct (bool_decide _); rewrite ?orb_true_r, ?orb_false_r.
Qed.

Lemma commit_transaction_safe v : v_block v ∈ [TBLOCK_STARTED; TBLOCK_END] → named [v] →
  safe base E (live [v] TRANS_INPROGRESS) CommitTransaction (λ _, over base h (K ∪ v_writes v) v).
Proof.
  intros Hv Hnm. assert (fits [] [v] TRANS_INPROGRESS ∧ fits [] [v] TRANS_COMMIT ∧ starting (v_block v) = false ∧
    v_block v ≠ TBLOCK_PARALLEL_INPROGRESS) as (H1 & H2 & H3 & H4).
  { rewrite elem_of_cons, list_elem_of_singleton in Hv. cbn. by destruct Hv as [-> | ->]. }
  eapply safe_gets; [intros b Hb; exact (live_block _ _ _ _ _ _ _ Hb)|]. cbv zeta. rewrite bool_decide_eq_false_2 by done.
  eapply safe_then; [by apply safe_ret with (Q := λ _, live [v] TRANS_INPROGRESS)|].
  eapply safe_then; [apply warn_live|]. eapply safe_then; [by apply user_code_live|].
  eapply safe_then; [by apply subsystem_live|]. eapply safe_then; [apply warn_parallel_live|].
  eapply safe_then; [by apply subsystem_live|].
  eapply (safe_then _ _ _ _ (live [v] TRANS_COMMIT)); [|exact (commit_record_safe v H2)].
  apply upd_live; [done|]. intros s <- Hs. split; [split; cbn; by rewrite ?Hs|done| | |done].
  - by intros Ho _ _ _; apply Ho.
  - unfold view_of. cbn. f_equal. exact (level_writes_state h s TRANS_COMMIT ltac:(by rewrite Hs) ltac:(done)).
Qed.
End ends.

(** ** Aborts *)

Lemma done_gave_up h xs sh sh' : gave_up xs sh sh' →
  Forall (λ x, TransactionIdGetStatus (pg_xact sh) x ≠ TRANSACTION_STATUS_COMMITTED) xs →
  done_writes h sh' = done_writes h sh.
Proof.
  intros Hg Hx. apply writes_ext. intros x _. rewrite (gave_status _ _ _ Hg). case_bool_decide as Hin; [|done].
  rewrite list.Forall_forall in Hx. by rewrite (proj2 (Z.eqb_neq _ _) (Hx x Hin)).
Qed.

Lemma in_use_gave_up base h xs sh sh' : gave_up xs sh sh' → in_use base h sh → in_use base h sh'.
Proof. intros Hg. unfold in_use. by rewrite (gave_transam _ _ _ Hg). Qed.

(** The ids of a level on the stack have not been committed. *)
Lemma owned_not_done base b : core base b →
  Forall (λ x, TransactionIdGetStatus (pg_xact (shmem b)) x ≠ TRANSACTION_STATUS_COMMITTED) (owned (CurrentTransactionState b)).
Proof.
  intros Hc. pose proof (core_status _ _ Hc) as H. apply list.Forall_cons in H as [H _].
  eapply list.Forall_impl; [exact H|]. intros x. simpl. intros ->. by destruct (bool_decide _).
Qed.

Section aborts.
Context (base : Z) (h : list Z) (K : gset nat) (E : backend → Prop).
Abbreviation live := (live base h K).

(** The current level turned aborted. *)
Lemma live_abort v vs b b' : live (v :: vs) TRANS_INPROGRESS b → core base b' →
  gave_up (owned (CurrentTransactionState b)) (shmem b) (shmem b') → parents b' = parents b →
  view_of h (CurrentTransactionState b') = v_set_writes ∅ v → state (CurrentTransactionState b') = TRANS_ABORT →
  nestingLevel (CurrentTransactionState b') = nestingLevel (CurrentTransactionState b) →
  curTransactionOwner (CurrentTransactionState b') = curTransactionOwner (CurrentTransactionState b) →
  fullTransactionId (CurrentTransactionState b') = fullTransactionId (CurrentTransactionState b) →
  live (v_set_writes ∅ v :: vs) TRANS_ABORT b'.
Proof.
  intros Hl Hc Hg Hp Hv Hs Hn Ho Hf. pose proof (live_parents _ _ _ _ _ _ _ Hl) as Hvs.
  pose proof (owned_not_done _ _ (live_core _ _ _ _ _ _ Hl)) as Hnd. destruct Hl as [[H1 H2 H3 H4] L2 L3 L4 L5].
  split; [split|done|by rewrite Hn|intros _ _ _; rewrite Ho; by apply L4|by rewrite Hf].
  - done.
  - by eapply in_use_gave_up.
  - rewrite <- H3. by eapply done_gave_up.
  - unfold levels. by rewrite fmap_cons, Hp, Hv, Hvs.
Qed.

Lemma abort_transaction_live v : v_block v ≠ TBLOCK_PARALLEL_INPROGRESS →
  safe base E (live [v] TRANS_INPROGRESS) AbortTransaction (λ _, live [v_set_writes ∅ v] TRANS_ABORT).
Proof.
  intros Hv b Hb. pose proof (live_core _ _ _ _ _ _ Hb) as Hc. pose proof (live_state _ _ _ _ _ _ Hb) as Hs.
  destruct (abort_transaction_run base b Hc) as [ws ->]; [by rewrite Hs|by rewrite (live_block _ _ _ _ _ _ _ Hb)|].
  eapply live_abort; [exact Hb| |by apply gave_up_abort|done| |done..].
  - by apply core_abort; [apply core_warnings|..].
  - by rewrite (live_view _ _ _ _ _ _ _ Hb).
Qed.

Lemma cleanup_transaction_live v : safe base E (live [v] TRANS_ABORT) CleanupTransaction (λ _, over base h K v).
Proof.
  intros b Hb. rewrite (cleanup_transaction_run b (live_state _ _ _ _ _ _ Hb)). pose proof (live_single _ _ _ _ _ _ Hb) as Hp.
  pose proof (live_view _ _ _ _ _ _ _ Hb) as Hv. destruct Hb as [[H1 H2 H3 H4] _ _ _ _]. split; [split|by split]; try done.
  - unfold cleaned. rewrite Hp. by apply core_cleared.
  - cbn. rewrite Hp, Hv. unfold view_of. cbn. by rewrite level_writes_blank.
Qed.

Lemma abort_sub_live v vs : safe base E (live (v :: vs) TRANS_INPROGRESS) AbortSubTransaction
  (λ _, live (v_set_writes ∅ v :: vs) TRANS_ABORT).
Proof.
  intros b Hb. pose proof (live_core _ _ _ _ _ _ Hb) as Hc. pose proof (live_state _ _ _ _ _ _ Hb) as Hs.
  destruct (abort_sub_run base b Hc) as (ws & c & ->); [by rewrite Hs|intros _; by apply Hb|].
  eapply live_abort; [exact Hb|by apply core_sub_aborted| |done| |done..].
  - exact (gave_up_abort (aborted (CurrentTransactionState b)) b ws eq_refl).
  - by rewrite (live_view _ _ _ _ _ _ _ Hb).
Qed.

(** The parent of a level that is popped. *)
Lemma live_popped v p vs st b b' : live (v :: p :: vs) st b → core base b' → levels b' = parents b →
  in_use base h (shmem b') → done_writes h (shmem b') = K → live (p :: vs) TRANS_INPROGRESS b'.
Proof.
  intros Hl Hc Hlv Hu Hd. pose proof (live_parents _ _ _ _ _ _ _ Hl) as Hv. pose proof (core_parents _ _ (live_core _ _ _ _ _ _ Hl)) as Hpo.
  rewrite <- Hlv in Hv, Hpo. unfold levels in Hpo. destruct Hpo as (Hb & Hs & Ho & _ & Hn & _).
  assert (length vs = length (parents b')) as Hlen by (apply (f_equal length) in Hv; rewrite length_fmap in Hv; simpl in Hv; lia).
  split; [by split|done|rewrite Hn, <- Hlen; simpl; lia|by intros _ _ _|].
  cbn in Hv. injection Hv as <- _. cbn. by destruct (blockState _).
Qed.

Lemma cleanup_sub_live v p vs : safe base E (live (v :: p :: vs) TRANS_ABORT) CleanupSubTransaction
  (λ _, live (p :: vs) TRANS_INPROGRESS).
Proof.
  intros b Hb. pose proof (live_parents _ _ _ _ _ _ _ Hb) as Hv. destruct (parents b) as [|p0 ps] eqn:Hp; [done|].
  destruct (cleanup_pop_run base b p0 ps (live_core _ _ _ _ _ _ Hb) Hp) as (b' & -> & [Hc _] & Hl & Hsh).
  eapply live_popped; [exact Hb|done|by rewrite Hl|rewrite Hsh; apply Hb..].
Qed.
End aborts.

(** ** Subtransactions *)

(** The level of a new subtransaction of [v]. *)
Definition new_view (v : view) : view := mkView None (v_savepointLevel v) TBLOCK_SUBBEGIN false ∅.

(** The parent [p] with the writes of its committed subtransaction [v]. *)
Definition merge_view (v p : view) : view := v_set_writes (v_writes p ∪ v_writes v) p.

Section subtransactions.
Context (base : Z) (h : list Z) (K : gset nat) (f : list view).
Abbreviation E := (recoverable base h K f).
Abbreviation live := (live base h K).

Lemma core_push b s : core base b → cur_ok (length (parents b)) (CurrentTransactionState b) →
  parent_block (blockState (CurrentTransactionState b)) = true → state (CurrentTransactionState b) = TRANS_INPROGRESS →
  curTransactionOwner (CurrentTransactionState b) = true →
  fullTransactionId s = InvalidFullTransactionId → childXids s = [] → not_parallel s →
  core base (set_stack s (levels b) b).
Proof.
  intros [H1 H2 H3 H4 H5 [H6 H7]] [C1 _ C3 _ _] Hb Hs Ho Hf Hch Hpl. split; cbn [shmem set_stack]; [done| | | | |split; [|done]].
  - cbn. by rewrite Hf, Hch.
  - cbn. rewrite H3. unfold top_level, levels. cbn [parents set_stack]. rewrite last_cons. by destruct (list.last (parents b)).
  - constructor; [|done]. unfold level_status, owned. cbn. by rewrite Hf.
  - cbn. split_and!; [done..| | |done].
    + rewrite C1. by destruct (parents b).
    + rewrite C3, bool_decide_eq_false_2; [done|]. rewrite Hs. by intros [_ ?].
  - by constructor.
Qed.

Lemma push_live v vs : fits f (v :: vs) TRANS_INPROGRESS → v_block v ∈ [TBLOCK_INPROGRESS; TBLOCK_SUBINPROGRESS] →
  safe base E (live (v :: vs) TRANS_INPROGRESS) PushTransaction (λ _, live (new_view v :: v :: vs) TRANS_DEFAULT).
Proof.
  intros Hf Hv. eapply safe_then; [by apply subsystem_live|]. intros b Hb. unfold get, mbind, M_bind. cbv zeta.
  destruct (live_inv base h K f _ _ b Hb Hf) as [[Hc Hcur] HE]. destruct (_ =? _); [done|].
  unfold modify. pose proof (core_plain _ _ Hc) as [Hpl _]. apply list.Forall_cons in Hpl as [[Hpl1 Hpl2] _].
  set (s := mkLevel _ _ _ _ _ _ _ _ _ _ _ _ _). pose proof (live_view _ _ _ _ _ _ _ Hb) as Hvw.
  assert (core base (set_stack s (levels b) b)) as Hc'.
  { apply core_push; try done.
    - rewrite (live_block _ _ _ _ _ _ _ Hb). rewrite elem_of_cons, list_elem_of_singleton in Hv. by destruct Hv as [-> | ->].
    - by apply Hb.
    - by apply Hb.
    - split; [done|]. cbn. by rewrite Hpl1, Hpl2. }
  destruct Hb as [[_ Hu Hd Hl] Hs Hn Ho _]. split; [split| | |by intros ?|]; try done.
  - by eapply core_intro.
  - cbn in Hl |- *. rewrite Hl, Hvw. unfold new_view, view_of. cbn. by rewrite level_writes_blank.
  - cbn. rewrite Hn. simpl. lia.
Qed.

Lemma start_sub_live v vs : v_block v = TBLOCK_SUBBEGIN → vs ≠ [] → fail_views (open_part vs) = f → named (v :: vs) →
  safe base E (live (v :: vs) TRANS_DEFAULT) StartSubTransaction (λ _, live (v :: vs) TRANS_INPROGRESS).
Proof.
  intros Hv Hvs Hf Hnm. assert (∀ st, st ∈ [TRANS_DEFAULT; TRANS_START; TRANS_INPROGRESS] → fits f (v :: vs) st) as Hfit.
  { intros st Hst. cbn. rewrite Hv, bool_decide_eq_false_2 by done. cbn. by rewrite bool_decide_eq_true_2. }
  eapply safe_then; [apply warn_live|].
  eapply safe_then; [apply state_live; [done..|]; auto|].
  eapply safe_then; [apply subsystem_live, Hfit; right; left|]. eapply safe_then; [apply set_owner_owning|].
  eapply safe_then; [apply subsystem_owning, Hfit; right; left|]. eapply safe_then; [apply in_progress_owning|].
  apply subsystem_live, Hfit. do 2 right. left.
Qed.

Lemma cci_live vs st : fits f vs st → safe base E (live vs st) CommandCounterIncrement (λ _, live vs st).
Proof.
  intros Hf b Hb. unfold CommandCounterIncrement. destruct (currentCommandIdUsed b); [|done].
  destruct (_ || _); [by eapply live_inv|]. destruct (_ =? _); [by eapply live_inv|]. by eapply live_frame.
Qed.

(** ** The commit of a subtransaction *)

Lemma owned_app s p : fullTransactionId s ≠ InvalidFullTransactionId → fullTransactionId p ≠ InvalidFullTransactionId →
  owned (set_childXids (childXids p ++ XidFromFullTransactionId (fullTransactionId s) :: childXids s) p) = owned p ++ owned s.
Proof. intros Hs Hp. unfold owned. cbn. by rewrite !(proj2 (Z.eqb_neq _ _)). Qed.

Lemma xids_merge hi s p ps : xids_ok base hi (s :: p :: ps) → fullTransactionId s ≠ InvalidFullTransactionId →
  fullTransactionId p ≠ InvalidFullTransactionId ∧
  xids_ok base hi (set_childXids (childXids p ++ XidFromFullTransactionId (fullTransactionId s) :: childXids s) p :: ps).
Proof.
  intros Hx Hs. simpl in Hx. rewrite (proj2 (Z.eqb_neq _ _) Hs) in Hx.
  destruct Hx as (fs & Hcs & Hns & Hss & Hrs & Hval & Hx). apply list.Forall_cons in Hval as [Hp Hval].
  rewrite (proj2 (Z.eqb_neq _ _) Hp) in Hx. destruct Hx as (fp & Hcp & Hnp & Hsp & Hrp & _ & Hx).
  split; [done|]. simpl. rewrite (proj2 (Z.eqb_neq _ _) Hp). exists (fp ++ fullTransactionId s :: fs).
  rewrite fmap_app, fmap_cons, Hcp, Hcs. change (fullTransactionId p :: fp ++ fullTransactionId s :: fs) with ((fullTransactionId p :: fp) ++ (fullTransactionId s :: fs)).
  split_and!; [done|by apply Forall_app| | |done|done].
  - apply StronglySorted_app_2; [|done..]. intros x1 x2 H1 H2. rewrite list.Forall_forall in Hrp. pose proof (Hrp x1 H1).
    apply StronglySorted_inv in Hss as [_ Hss]. rewrite list.Forall_forall in Hss. apply elem_of_cons in H2 as [->|H2]; [lia|].
    pose proof (Hss x2 H2). lia.
  - apply Forall_app. split; [|done]. eapply list.Forall_impl; [exact Hrp|]. simpl. apply list.Forall_cons in Hrs as [Hrs _]. lia.
Qed.

Lemma core_merge b p ps : core base b → parents b = p :: ps → state (CurrentTransactionState b) ≠ TRANS_ABORT →
  fullTransactionId (CurrentTransactionState b) ≠ InvalidFullTransactionId →
  core base (set_stack (set_childXids (childXids p ++ XidFromFullTransactionId (fullTransactionId (CurrentTransactionState b))
    :: childXids (CurrentTransactionState b)) p) ps b).
Proof.
  intros Hc Hp Ha Hf. pose proof (core_pop _ _ _ _ Hc Hp) as [_ _ H3 H4 H5 [H6 H7]].
  pose proof (status_in_progress _ _ Hc Ha) as Hst. pose proof (core_xids _ _ Hc) as Hx. unfold levels in Hx. rewrite Hp in Hx.
  destruct (xids_merge _ _ _ _ Hx Hf) as [Hpf Hx']. pose proof (core_parents _ _ Hc) as Hpo. rewrite Hp in Hpo. destruct Hpo as (_ & Hps & _).
  split; [apply Hc|exact Hx'| | |done|split; [|done]].
  - cbn in H3 |- *. rewrite H3. unfold top_level. cbn. by destruct (list.last ps).
  - apply list.Forall_cons in H4 as [H4 H4']. constructor; [|done]. unfold level_status in *. cbn in H4 |- *.
    rewrite owned_app, Hps in * by done. apply Forall_app. split; [done|]. exact Hst.
  - apply list.Forall_cons in H6 as [H6 H6']. by constructor.
Qed.

Lemma pop_run b p ps : parents b = p :: ps → state (CurrentTransactionState b) = TRANS_DEFAULT →
  PopTransaction b = (set_stack p ps b, Ok tt).
Proof.
  intros Hp Hs. unfold PopTransaction. rewrite (then_ok _ _ b b).
  - unfold get, mbind, M_bind. by rewrite Hp.
  - unfold warn_unless, gets, mbind, M_bind, compose. by rewrite Hs.
Qed.

(** The end of [CommitSubTransaction]. *)
Definition leave_sub : X unit :=
  restore_read_only ;; upd (set_owner false) ;; upd (set_state TRANS_DEFAULT) ;; PopTransaction.

Lemma leave_sub_run b p ps : parents b = p :: ps → ∃ c, leave_sub b = (set_chars c (set_stack p ps b), Ok tt).
Proof.
  intros Hp. eexists. unfold leave_sub. assignments. rewrite (pop_run _ p ps); [done|exact Hp|done].
Qed.

Lemma sub_commit_record v p vs : fits f (v :: p :: vs) TRANS_COMMIT →
  safe base E (live (v :: p :: vs) TRANS_COMMIT)
    (s ← gets CurrentTransactionState;
     (if FullTransactionIdIsValid (fullTransactionId s) then AtSubCommit_childXids else mret tt) ;; leave_sub)
    (λ _, live (merge_view v p :: vs) TRANS_INPROGRESS).
Proof.
  intros Hf b Hb. pose proof (live_core _ _ _ _ _ _ Hb) as Hc. pose proof (live_parents _ _ _ _ _ _ _ Hb) as Hv.
  pose proof (live_state _ _ _ _ _ _ Hb) as Hs. destruct (parents b) as [|p0 ps] eqn:Hp; [done|]. injection Hv as Hv Hvs.
  unfold gets at 1, mbind at 1, M_bind at 1. rewrite (xids_valid _ _ _ _ (core_xids _ _ Hc)).
  destruct (Z.eqb_spec (fullTransactionId (CurrentTransactionState b)) InvalidFullTransactionId) as [H0|H0]; cbn [negb].
  - destruct (leave_sub_run b p0 ps Hp) as [c Hr]. erewrite then_ok by done. rewrite Hr.
    assert (merge_view v p = p) as ->.
    { unfold merge_view. rewrite (live_writes_none _ _ _ _ _ _ _ Hb H0), union_empty_r_L. by destruct p. }
    eapply live_popped; [exact Hb|by apply core_chars, core_pop|by rewrite Hp|apply Hb..].
  - unfold mbind, M_bind, AtSubCommit_childXids. rewrite Hp. cbv zeta. destruct (_ <? _); [by eapply live_inv|].
    set (p' := set_childXids _ p0). set (b1 := set_stack _ _ b).
    destruct (leave_sub_run b1 p' ps eq_refl) as [c ->]. pose proof (core_parents _ _ Hc) as Hpo. rewrite Hp in Hpo.
    destruct Hpo as (Hpb & Hps & Hpo & _ & Hpn & _). pose proof (core_xids _ _ Hc) as Hx. unfold levels in Hx. rewrite Hp in Hx.
    destruct (xids_merge _ _ _ _ Hx H0) as [Hpf _]. pose proof (live_writes _ _ _ _ _ _ _ Hb ltac:(done)) as Hw.
    destruct Hb as [[_ Hu Hd _] _ Hn _ _]. split; [split|done| |by intros _ _ _|]; try done.
    + apply core_chars. eapply core_intro; [apply (core_merge b p0 ps); try done; by rewrite Hs|done..].
    + change (view_of h p' :: (view_of h <$> ps) = merge_view v p :: vs). f_equal; [|exact Hvs]. rewrite <- Hv. unfold merge_view, view_of, v_set_writes. cbn. f_equal. unfold level_writes at 1 2.
      subst p'. cbn [state set_childXids]. rewrite Hps, bool_decide_eq_false_2 by done. rewrite Hw.
      apply writes_union. intros x _. rewrite owned_app by done. rewrite (bool_decide_ext _ _ (elem_of_app _ _ _)). apply bool_decide_or.
    + cbn. rewrite Hpn, <- Hvs. change (list_fmap _ _ _ ps) with (view_of h <$> ps). rewrite length_fmap. lia.
    + cbn. rewrite <- Hv. cbn. by destruct (blockState p0).
Qed.

Lemma commit_sub_live v p vs : fits f (v :: p :: vs) TRANS_INPROGRESS → starting (v_block v) = false →
  safe base E (live (v :: p :: vs) TRANS_INPROGRESS) CommitSubTransaction
    (λ _, live (merge_view v p :: vs) TRANS_INPROGRESS).
Proof.
  intros Hf Hst. assert (fits f (v :: p :: vs) TRANS_COMMIT) as Hf'.
  { destruct Hf as (H1 & H2 & H3 & H4 & H5). split_and!; try done. by destruct (v_block v). }
  eapply safe_then; [apply warn_live|]. eapply safe_then; [by apply subsystem_live|].
  eapply safe_then; [apply warn_parallel_live|]. eapply safe_then; [apply parallel_live|].
  eapply safe_then; [apply state_live; [done..|by intros [|]]|]. eapply safe_then; [by apply cci_live|].
  exact (sub_commit_record v p vs Hf').
Qed.
End subtransactions.
