(* ===== verification/XactBlock.v ===== *)
(** * The commands of transaction blocks

    What the pairs of a command ([EndTransactionBlock], [ReleaseSavepoint], ...)
    and the [CommitTransactionCommand] after it do to the content of a backend:
    the command marks levels of the stack with block states, and
    [CommitTransactionCommand] carries out what the marks say.  As in [XactCmd],
    each lemma covers success and failure. *)
From stdpp Require Import base tactics list gmap strings numbers sorting.
From Stdlib Require Import ZArith Lia Bool.
From S2P Require Import Prelude Visibility Clog XidGen Xact XactInv XactCmd.

(** ** Blocks without pending commands *)

(** The block states of a stack in which no level is marked. *)
Fixpoint steady (bs : list TBlockState) : Prop :=
  match bs with
  | [] => False
  | [b] => b = TBLOCK_INPROGRESS
  | b :: bs' => b = TBLOCK_SUBINPROGRESS ∧ steady bs'
  end.

(** The stack after a failure of its innermost level. *)
Definition failed_blocks (bs : list TBlockState) : Prop :=
  match bs with
  | [] => False
  | [b] => b = TBLOCK_ABORT
  | b :: bs' => b = TBLOCK_SUBABORT ∧ steady bs'
  end.

Lemma steady_cons b bs : bs ≠ [] → steady (b :: bs) ↔ b = TBLOCK_SUBINPROGRESS ∧ steady bs.
Proof. by destruct bs. Qed.

Lemma steady_tail b bs : bs ≠ [] → steady (b :: bs) → steady bs.
Proof. intros Hbs. rewrite steady_cons by done. by intros [_ ?]. Qed.

Lemma steady_head b bs : steady (b :: bs) → b ∈ [TBLOCK_INPROGRESS; TBLOCK_SUBINPROGRESS].
Proof. destruct bs as [|b' bs]; [intros ->; left|]. intros [-> _]. right. left. Qed.

Lemma steady_open v vs : steady (v_block <$> v :: vs) → open_part (v :: vs) = v :: vs.
Proof. cbn. destruct vs; [by intros ->|]. by intros [-> _]. Qed.

Lemma failed_open v vs : failed_blocks (v_block <$> v :: vs) → open_part (v :: vs) = v :: vs.
Proof. cbn. destruct vs; [by intros ->|]. by intros [-> _]. Qed.

Lemma steady_fits v vs : steady (v_block <$> v :: vs) → named (v :: vs) → fits (fail_views (v :: vs)) (v :: vs) TRANS_INPROGRESS.
Proof.
  intros Hs Hn. pose proof (steady_open _ _ Hs) as Ho. unfold fits. rewrite Ho. cbn in Hs.
  destruct vs as [|p vs]; [by rewrite Hs|]. destruct Hs as [-> _]. by rewrite bool_decide_eq_false_2.
Qed.

Lemma failed_fits v vs : failed_blocks (v_block <$> v :: vs) → named (v :: vs) → fits (fail_views (v :: vs)) (v :: vs) TRANS_ABORT.
Proof.
  intros Hs Hn. pose proof (failed_open _ _ Hs) as Ho. unfold fits. rewrite Ho. cbn in Hs.
  destruct vs as [|p vs]; [by rewrite Hs|]. destruct Hs as [-> _]. by rewrite bool_decide_eq_false_2.
Qed.

Lemma fail_views_failed v vs : steady (v_block <$> v :: vs) ∨ failed_blocks (v_block <$> v :: vs) →
  failed_blocks (v_block <$> fail_views (v :: vs)).
Proof. destruct vs as [|p vs]; [done|]. cbn. intros [[_ ?]|[_ ?]]; done. Qed.

Lemma named_one v : named [v] ↔ v_savepointLevel v = 0 ∧ v_name v = None.
Proof.
  unfold named. rewrite Forall_singleton. cbn. split; intros [? H]; (split; [done|]); [by injection H|by rewrite H].
Qed.

(** The names do not depend on the rest of a view. *)
Lemma named_as v v' : v_savepointLevel v' = v_savepointLevel v → v_name v' = v_name v → named [v] → named [v'].
Proof. intros Hl Hn. rewrite !named_one. by rewrite Hl, Hn. Qed.

Lemma named_cons v vs : vs ≠ [] → named (v :: vs) ↔ v_savepointLevel v = 0 ∧ named vs.
Proof.
  intros Hvs. unfold named. rewrite list.Forall_cons, last_cons. destruct (list.last vs) eqn:Hl; [tauto|].
  by apply last_None in Hl.
Qed.

Lemma named_tail pre vs : vs ≠ [] → named (pre ++ vs) → named vs.
Proof.
  intros Hvs. induction pre as [|v pre IH]; [done|]. cbn [app]. rewrite named_cons; [|by destruct pre]. intros [_ ?]. auto.
Qed.

(** ** Rules for the loops *)

Section rules.
Context (base : Z) (h : list Z) (K : gset nat).
Abbreviation live := (live base h K).

Lemma safe_weaken {A} (E E' P : backend → Prop) (m : X A) Q : safe base E P m Q → (∀ b, E b → E' b) → safe base E' P m Q.
Proof.
  intros Hm He b Hb. specialize (Hm b Hb). destruct (m b) as [b' [a|[]]]; try done. destruct Hm as [? ?]. auto.
Qed.

Lemma until_done_once E P n body Q : safe base E P body (λ d b, d = true ∧ Q b) → safe base E P (until_done (S n) body) (λ _, Q).
Proof. intros H. eapply safe_bind; [exact H|]. intros d b [-> Hb]. exact Hb. Qed.

Lemma until_done_again E P n body Q R : safe base E P body (λ d b, d = false ∧ Q b) →
  safe base E Q (until_done n body) R → safe base E P (until_done (S n) body) R.
Proof. intros H Hr. eapply safe_bind; [exact H|]. intros d b [-> Hb]. by apply Hr. Qed.

(** The fuel of [CommitTransactionCommand]. *)
Lemma commit_command_fuel E vs st Q :
  safe base E (live vs st) (until_done (length vs) CommitTransactionCommandInternal) Q →
  safe base E (live vs st) CommitTransactionCommand Q.
Proof.
  intros H b Hb. specialize (H b Hb). unfold CommitTransactionCommand, get, mbind, M_bind.
  by rewrite <- (live_length _ _ _ _ _ _ Hb).
Qed.

(** The case of [CommitTransactionCommandInternal] for the block state. *)
Lemma commit_command_case E v vs st Q :
  (∀ c, safe base E (live (v :: vs) st)
          (commit_current_body (v_block v) (v_name v) (v_savepointLevel v) c (commit_levels (length (v :: vs)))) Q) →
  safe base E (live (v :: vs) st) CommitTransactionCommandInternal Q.
Proof.
  intros H b Hb. specialize (H (xact_chars b) b Hb). unfold CommitTransactionCommandInternal, get, mbind, M_bind. cbv zeta.
  rewrite (live_length _ _ _ _ _ _ Hb), (live_view _ _ _ _ _ _ _ Hb) in H. exact H.
Qed.
End rules.

(** ** The end of a transaction and the next one *)

(** After the end of a transaction with the level [v]: the next one is there if
    the command was to chain. *)
Definition after_end (base : Z) (h : list Z) (K : gset nat) (v : view) (b : backend) : Prop :=
  if v_chain v
  then live base h K [v_set_chain false (v_set_block TBLOCK_INPROGRESS (v_set_writes ∅ v))] TRANS_INPROGRESS b
  else at_rest base h K (v_set_block TBLOCK_DEFAULT (v_set_writes ∅ v)) b.

Section ends.
Context (base : Z) (h : list Z).

Lemma start_chained_safe K c v : named [v] → safe base (λ b, v_chain v = true ∧ recoverable base h K [] b)
  (at_rest base h K (v_set_block TBLOCK_DEFAULT (v_set_writes ∅ v))) (start_chained c) (λ _, after_end base h K v).
Proof.
  intros Hn. unfold after_end. eapply (safe_gets _ _ _ (v_chain v)).
  { intros b (Ht & _). destruct (tracked_single _ _ _ _ _ Ht) as [_ He]. by apply (f_equal v_chain) in He. }
  destruct (v_chain v); [|by apply safe_ret]. apply (safe_weaken _ (recoverable base h K [])); [|done].
  eapply safe_then; [by apply start_transaction_safe, (named_as v)|].
  eapply safe_then; [by apply block_live|]. eapply safe_then; [apply chain_live|].
  apply safe_modify. intros b Hb. by eapply live_frame.
Qed.

(** The rest of the cases that end a transaction. *)
Lemma finish_safe K c v : named [v] → safe base (λ b, v_chain v = true ∧ recoverable base h K [] b) (over base h K v)
  (block TBLOCK_DEFAULT ;; start_chained c ;; mret true) (λ d b, d = true ∧ after_end base h K v b).
Proof.
  intros Hn. eapply safe_then; [apply over_rest|]. eapply safe_then; [by apply start_chained_safe|]. by apply safe_ret.
Qed.

(** A failure while the transaction is ended has committed nothing; one in the
    next transaction leaves the first committed. *)
Definition end_error (K K' : gset nat) (chn : bool) (b : backend) : Prop :=
  recoverable base h K [] b ∨ (chn = true ∧ recoverable base h K' [] b).

Lemma commit_end_safe K c v : v_block v = TBLOCK_END → named [v] →
  safe base (end_error K (K ∪ v_writes v) (v_chain v)) (live base h K [v] TRANS_INPROGRESS)
    (CommitTransaction ;; block TBLOCK_DEFAULT ;; start_chained c ;; mret true)
    (λ d b, d = true ∧ after_end base h (K ∪ v_writes v) v b).
Proof.
  intros Hv Hn. eapply safe_then.
  - eapply safe_weaken; [apply commit_transaction_safe; [rewrite Hv; right; left|done]|by left].
  - eapply safe_weaken; [by apply finish_safe|by right].
Qed.

Lemma abort_end_safe K c v : v_block v ≠ TBLOCK_PARALLEL_INPROGRESS → named [v] →
  safe base (λ b, v_chain v = true ∧ recoverable base h K [] b) (live base h K [v] TRANS_INPROGRESS)
    (AbortTransaction ;; CleanupTransaction ;; block TBLOCK_DEFAULT ;; start_chained c ;; mret true)
    (λ d b, d = true ∧ after_end base h K v b).
Proof.
  intros Hv Hn. eapply safe_then; [by apply abort_transaction_live|]. eapply safe_then; [apply cleanup_transaction_live|].
  by apply (finish_safe K c (v_set_writes ∅ v)), (named_as v).
Qed.
End ends.

(** ** [CommitTransactionCommand] on a stack with pending commands *)

Section commands.
Context (base : Z) (h : list Z) (K : gset nat).
Abbreviation live := (live base h K).

(** The end of a single statement, and of an implicit block. *)
Lemma commit_command_started v : v_block v = TBLOCK_STARTED → named [v] →
  safe base (recoverable base h K []) (live [v] TRANS_INPROGRESS) CommitTransactionCommand
    (λ _, at_rest base h (K ∪ v_writes v) (v_set_block TBLOCK_DEFAULT (v_set_writes ∅ v))).
Proof.
  intros Hv Hn. apply commit_command_fuel, until_done_once, commit_command_case. intros c. rewrite Hv. cbn [commit_current_body].
  eapply safe_then; [apply commit_transaction_safe; [rewrite Hv; left|done]|]. eapply safe_then; [apply over_rest|]. by apply safe_ret.
Qed.

Lemma commit_command_begin E v : v_block v = TBLOCK_BEGIN →
  safe base E (live [v] TRANS_INPROGRESS) CommitTransactionCommand
    (λ _, live [v_set_block TBLOCK_INPROGRESS v] TRANS_INPROGRESS).
Proof.
  intros Hv. apply commit_command_fuel, until_done_once, commit_command_case. intros c. rewrite Hv. cbn [commit_current_body].
  eapply safe_then; [by apply block_live|]. by apply safe_ret.
Qed.

Lemma commit_command_steady v vs : steady (v_block <$> v :: vs) → named (v :: vs) →
  safe base (recoverable base h K (fail_views (v :: vs))) (live (v :: vs) TRANS_INPROGRESS) CommitTransactionCommand
    (λ _, live (v :: vs) TRANS_INPROGRESS).
Proof.
  intros Hs Hn. apply commit_command_fuel, until_done_once, commit_command_case. intros c.
  assert (commit_current_body (v_block v) (v_name v) (v_savepointLevel v) c (commit_levels (length (v :: vs))) =
    (CommandCounterIncrement ;; mret true)) as ->.
  { apply steady_head in Hs. rewrite elem_of_cons, list_elem_of_singleton in Hs. by destruct Hs as [-> | ->]. }
  eapply safe_then; [apply cci_live; by apply steady_fits|]. by apply safe_ret.
Qed.

Lemma commit_command_failed E v vs : failed_blocks (v_block <$> v :: vs) →
  safe base E (live (v :: vs) TRANS_ABORT) CommitTransactionCommand (λ _, live (v :: vs) TRANS_ABORT).
Proof.
  intros Hs. apply commit_command_fuel, until_done_once, commit_command_case. intros c.
  assert (commit_current_body (v_block v) (v_name v) (v_savepointLevel v) c (commit_levels (length (v :: vs))) = mret true) as ->.
  { cbn in Hs. destruct vs; [by rewrite Hs|]. by destruct Hs as [-> _]. }
  by apply safe_ret.
Qed.

Lemma commit_command_end v : v_block v = TBLOCK_END → named [v] →
  safe base (end_error base h K (K ∪ v_writes v) (v_chain v)) (live [v] TRANS_INPROGRESS) CommitTransactionCommand
    (λ _, after_end base h (K ∪ v_writes v) v).
Proof.
  intros Hv Hn. apply commit_command_fuel, until_done_once, commit_command_case. intros c. rewrite Hv. by apply commit_end_safe.
Qed.

(** The new level of [SAVEPOINT]. *)
Lemma commit_command_subbegin v vs : v_block v = TBLOCK_SUBBEGIN → vs ≠ [] → named (v :: vs) →
  safe base (recoverable base h K (fail_views (open_part vs))) (live (v :: vs) TRANS_DEFAULT) CommitTransactionCommand
    (λ _, live (v_set_block TBLOCK_SUBINPROGRESS v :: vs) TRANS_INPROGRESS).
Proof.
  intros Hv Hvs Hn. apply commit_command_fuel, until_done_once, commit_command_case. intros c. rewrite Hv. cbn [commit_current_body].
  eapply safe_then; [by apply start_sub_live|]. eapply safe_then; [by apply block_live|]. by apply safe_ret.
Qed.
End commands.

(** ** Loops over marked levels *)

Definition all_writes (vs : list view) : gset nat := ⋃ (v_writes <$> vs).

Lemma open_part_skip pre vs : Forall (λ v, stays_open (v_block v) = false) pre → open_part (pre ++ vs) = open_part vs.
Proof. induction 1 as [|v pre Hv _ IH]; [done|]. cbn. by rewrite Hv. Qed.

Section loops.
Context (base : Z) (h : list Z) (K : gset nat).
Abbreviation live := (live base h K).
Abbreviation next := CommitTransactionCommandInternal.

Lemma commit_levels_safe bs f n v pre tgt rest : bs = TBLOCK_SUBRELEASE ∨ bs = TBLOCK_SUBCOMMIT →
  v_block v = bs → Forall (λ p, v_block p = bs) pre → v_block tgt ≠ bs → named (v :: pre ++ tgt :: rest) → (length pre ≤ n)%nat →
  fail_views (open_part (tgt :: rest)) = f →
  safe base (recoverable base h K f) (live (v :: pre ++ tgt :: rest) TRANS_INPROGRESS) (commit_levels (S n) bs)
    (λ _, live (v_set_writes (v_writes tgt ∪ all_writes (v :: pre)) tgt :: rest) TRANS_INPROGRESS).
Proof.
  intros Hbs Hv Hpre Htgt Hnm Hn Hf.
  assert (Hfits : ∀ v pre, v_block v = bs → Forall (λ p, v_block p = bs) pre → named (v :: pre ++ tgt :: rest) → fits f (v :: pre ++ tgt :: rest) TRANS_INPROGRESS ∧ starting (v_block v) = false).
  { clear v pre Hv Hpre Hn Hnm. intros v pre Hv Hpre Hnm. split; [|rewrite Hv; by destruct Hbs as [-> | ->]].
    split_and!; [|rewrite Hv; by destruct Hbs as [-> | ->]..| |done].
    - rewrite Hv, bool_decide_eq_false_2 by (by destruct pre). by destruct Hbs as [-> | ->].
    - rewrite <- Hf. change (v :: pre ++ tgt :: rest) with ((v :: pre) ++ tgt :: rest). rewrite open_part_skip; [done|].
      constructor; [rewrite Hv; by destruct Hbs as [-> | ->]|]. eapply list.Forall_impl; [exact Hpre|]. simpl. intros p ->. by destruct Hbs as [-> | ->]. }
  revert v n Hv Hpre Hnm Hn. induction pre as [|p pre IH]; intros v n Hv Hpre Hnm Hn; cbn [commit_levels app].
  - eapply safe_then; [apply commit_sub_live; by apply (Hfits v [])|].
    eapply safe_gets; [intros b Hb; exact (live_block _ _ _ _ _ _ _ Hb)|]. cbn [merge_view v_block v_set_writes].
    rewrite bool_decide_eq_false_2 by done. apply safe_ret. intros b Hb. unfold all_writes. cbn. by rewrite union_empty_r_L.
  - destruct n as [|n]; [simpl in Hn; lia|]. apply list.Forall_cons in Hpre as [Hp Hpre].
    eapply safe_then; [apply commit_sub_live; apply (Hfits v (p :: pre) Hv); try done; by constructor|].
    eapply safe_gets; [intros b Hb; exact (live_block _ _ _ _ _ _ _ Hb)|]. cbn [merge_view v_block v_set_writes].
    rewrite bool_decide_eq_true_2 by done. eapply safe_conseq; [apply (IH (merge_view v p) n); [done..| |simpl in Hn; lia]|done|].
    { rewrite named_cons in Hnm by done. cbn [app] in Hnm. destruct Hnm as [_ Hnm].
      rewrite named_cons in Hnm |- * by (by destruct pre). exact Hnm. }
    intros [] b Hb. replace (all_writes (v :: p :: pre)) with (all_writes (merge_view v p :: pre)); [done|].
    unfold all_writes. cbn. by rewrite (union_comm_L (v_writes p)), union_assoc_L.
Qed.

(** Levels that are given up one after the other. *)
Lemma pop_pending E v p vs n Q : v_block v = TBLOCK_SUBABORT_PENDING →
  safe base E (live (p :: vs) TRANS_INPROGRESS) (until_done n next) Q →
  safe base E (live (v :: p :: vs) TRANS_INPROGRESS) (until_done (S n) next) Q.
Proof.
  intros Hv. apply until_done_again. apply commit_command_case. intros c. rewrite Hv. cbn [commit_current_body].
  eapply safe_then; [apply abort_sub_live|]. eapply safe_then; [apply cleanup_sub_live|]. by apply safe_ret.
Qed.

Lemma pop_failed E v p vs n Q : v_block v = TBLOCK_SUBABORT_END →
  safe base E (live (p :: vs) TRANS_INPROGRESS) (until_done n next) Q →
  safe base E (live (v :: p :: vs) TRANS_ABORT) (until_done (S n) next) Q.
Proof.
  intros Hv. apply until_done_again. apply commit_command_case. intros c. rewrite Hv. cbn [commit_current_body].
  eapply safe_then; [apply cleanup_sub_live|]. by apply safe_ret.
Qed.

Lemma pop_all E pre tgt rest n Q : Forall (λ v, v_block v = TBLOCK_SUBABORT_PENDING) pre →
  safe base E (live (tgt :: rest) TRANS_INPROGRESS) (until_done n next) Q →
  safe base E (live (pre ++ tgt :: rest) TRANS_INPROGRESS) (until_done (length pre + n) next) Q.
Proof.
  intros Hpre H. induction Hpre as [|v pre Hv Hpre IH]; [done|]. cbn [app length Nat.add].
  destruct pre as [|p pre]; by apply pop_pending.
Qed.

(** ** Savepoints *)

Lemma live_not_parallel vs st b : live vs st b → IsInParallelMode b || IsParallelWorker b = false.
Proof.
  intros Hb. destruct (core_plain _ _ (live_core _ _ _ _ _ _ Hb)) as [Hp Hw]. apply list.Forall_cons in Hp as [[H1 H2] _].
  unfold IsInParallelMode. by rewrite H1, H2, Hw.
Qed.

Lemma define_savepoint_safe nm v vs : steady (v_block <$> v :: vs) → named (v :: vs) →
  safe base (recoverable base h K (fail_views (v :: vs))) (live (v :: vs) TRANS_INPROGRESS) (DefineSavepoint nm)
    (λ _, live (v_set_name nm (v_savepointLevel v) (new_view v) :: v :: vs) TRANS_DEFAULT).
Proof.
  intros Hs Hn. assert (safe base (recoverable base h K (fail_views (v :: vs))) (live (v :: vs) TRANS_INPROGRESS)
    (PushTransaction ;; match nm with Some n => upd (set_name (Some n)) | None => mret tt end)
    (λ _, live (v_set_name nm (v_savepointLevel v) (new_view v) :: v :: vs) TRANS_DEFAULT)) as H.
  { eapply safe_then; [apply push_live; [by apply steady_fits|by eapply steady_head]|].
    destruct nm as [n|]; [|by apply safe_ret]. apply (name_live base h K _ (new_view v)). }
  intros b Hb. specialize (H b Hb). unfold DefineSavepoint. unfold get at 1, mbind at 1, M_bind at 1. cbv zeta.
  rewrite (live_not_parallel _ _ _ Hb), (live_block _ _ _ _ _ _ _ Hb).
  apply steady_head in Hs. rewrite elem_of_cons, list_elem_of_singleton in Hs. by destruct Hs as [-> | ->].
Qed.

Lemma restart_safe n l v p vs : steady (v_block <$> p :: vs) → l = 0 → named (p :: vs) →
  safe base (recoverable base h K (fail_views (p :: vs))) (live (v :: p :: vs) TRANS_ABORT) (restart_savepoint n l)
    (λ _, live (mkView n l TBLOCK_SUBINPROGRESS false ∅ :: p :: vs) TRANS_INPROGRESS).
Proof.
  intros Hs -> Hn. eapply safe_then; [apply cleanup_sub_live|]. eapply safe_then; [by apply define_savepoint_safe|].
  eapply safe_then; [apply name_level_live|]. eapply safe_then.
  - apply start_sub_live; [done|done|by rewrite steady_open|by rewrite named_cons].
  - by apply block_live.
Qed.

Lemma commit_command_restart v p vs : v_block v = TBLOCK_SUBRESTART → steady (v_block <$> p :: vs) → named (v :: p :: vs) →
  safe base (recoverable base h K (fail_views (p :: vs))) (live (v :: p :: vs) TRANS_INPROGRESS) next
    (λ d b, d = true ∧ live (mkView (v_name v) (v_savepointLevel v) TBLOCK_SUBINPROGRESS false ∅ :: p :: vs) TRANS_INPROGRESS b).
Proof.
  intros Hv Hs Hn. rewrite named_cons in Hn by done. destruct Hn as [Hn Hn']. apply commit_command_case. intros c. rewrite Hv. cbn [commit_current_body].
  eapply safe_then; [apply name_live|]. eapply safe_then; [apply abort_sub_live|].
  eapply safe_then; [by apply restart_safe|]. by apply safe_ret.
Qed.

Lemma commit_command_abort_restart v p vs : v_block v = TBLOCK_SUBABORT_RESTART → steady (v_block <$> p :: vs) → named (v :: p :: vs) →
  safe base (recoverable base h K (fail_views (p :: vs))) (live (v :: p :: vs) TRANS_ABORT) next
    (λ d b, d = true ∧ live (mkView (v_name v) (v_savepointLevel v) TBLOCK_SUBINPROGRESS false ∅ :: p :: vs) TRANS_INPROGRESS b).
Proof.
  intros Hv Hs Hn. rewrite named_cons in Hn by done. destruct Hn as [Hn Hn']. apply commit_command_case. intros c. rewrite Hv. cbn [commit_current_body].
  eapply safe_then; [apply name_live|]. eapply safe_then; [by apply restart_safe|]. by apply safe_ret.
Qed.
End loops.

(** ** Marks *)

(** A level with another block state and chain flag. *)
Definition remarked (s s' : TransactionStateData) : Prop := ∃ bs c, s' = set_chain c (set_block bs s).

Lemma remark_block bs s : remarked s (set_block bs s).
Proof. exists bs, (chain s). by destruct s. Qed.

Lemma remark_refl s : remarked s s.
Proof. exists (blockState s), (chain s). by destruct s. Qed.

Lemma xids_remarked base hi ls ls' : Forall2 remarked ls ls' → xids_ok base hi ls → xids_ok base hi ls'.
Proof.
  intros H. revert hi. induction H as [|s s' ls ls' (bs & c & ->) Hl IH]; intros hi; [done|]. simpl. destruct (_ =? _).
  - intros [H1 H2]. auto.
  - intros (fulls & H1 & H2 & H3 & H4 & H5 & H6). exists fulls. split_and!; try done; [|by apply IH].
    clear -Hl H5. induction Hl as [|p p' ls ls' (bs & c & ->) _ IH]; [done|]. apply list.Forall_cons in H5 as [? ?]. constructor; auto.
Qed.

Lemma parents_remarked ps ps' : Forall2 remarked ps ps' → Forall (λ p, parent_block (blockState p) = true) ps' →
  sub_block ∘ blockState <$> ps' = sub_block ∘ blockState <$> ps → parents_ok ps → parents_ok ps'.
Proof.
  induction 1 as [|p p' ps ps' (bs & c & ->) Hl IH]; [done|]. intros Hb Hs. apply list.Forall_cons in Hb as [Hb Hbs].
  rewrite !fmap_cons in Hs. injection Hs as Hs Hss. intros (_ & H2 & H3 & H4 & H5 & H6). pose proof (Forall2_length _ _ _ Hl) as Hlen.
  simpl. rewrite <- Hlen. split_and!; auto. cbn in Hs. rewrite Hs, H4. f_equal. apply bool_decide_ext. by destruct Hl.
Qed.

Lemma top_xid_remarked ls ls' : Forall2 remarked ls ls' → top_xid ls' = top_xid ls.
Proof.
  unfold top_xid. induction 1 as [|s s' ls ls' (bs & c & ->) Hl IH]; [done|]. rewrite !last_cons.
  destruct Hl as [|s1 s1' l1 l1' H1 H2]; [done|]. rewrite !last_cons in IH |- *.
  destruct (list.last l1), (list.last l1'); done.
Qed.

Lemma core_remarked base b s' ps' : core base b → Forall2 remarked (levels b) (s' :: ps') →
  Forall (λ p, parent_block (blockState p) = true) ps' →
  sub_block ∘ blockState <$> ps' = sub_block ∘ blockState <$> parents b → core base (set_stack s' ps' b).
Proof.
  intros [H1 H2 H3 H4 H5 [H6 H7]] Hl Hb Hs. split; [done| | | | |split; [|done]].
  - by eapply xids_remarked.
  - rewrite <- top_xid_level. cbn [XactTopFullTransactionId set_stack]. rewrite H3, <- top_xid_level. symmetry.
    exact (top_xid_remarked _ _ Hl).
  - clear -Hl H4. unfold levels. cbn [CurrentTransactionState set_stack parents shmem].
    induction Hl as [|s s0 ls ls' (bs & c & ->) _ IH]; [done|]. apply list.Forall_cons in H4 as [? ?]. constructor; [done|auto].
  - unfold levels in Hl. apply Forall2_cons in Hl as [_ Hl]. by eapply parents_remarked.
  - clear -Hl H6. unfold levels. cbn [CurrentTransactionState set_stack parents].
    induction Hl as [|s s0 ls ls' (bs & c & ->) _ IH]; [done|]. apply list.Forall_cons in H6 as [? ?]. constructor; [done|auto].
Qed.

Lemma live_remarked base h K v vs st b s' ps' v' vs' : live base h K (v :: vs) st b → Forall2 remarked (levels b) (s' :: ps') →
  view_of h <$> s' :: ps' = v' :: vs' → starting (v_block v') = false →
  Forall (λ p, parent_block (v_block p) = true) vs' → sub_block ∘ v_block <$> vs' = sub_block ∘ v_block <$> vs →
  live base h K (v' :: vs') st (set_stack s' ps' b).
Proof.
  intros Hl Hr Hv Hst Hpar Hsub. pose proof (live_parents _ _ _ _ _ _ _ Hl) as Hps. rewrite fmap_cons in Hv.
  injection Hv as Hv Hvs. rewrite <- Hps, <- Hvs in Hsub. pose proof (Forall2_length _ _ _ Hr) as Hlen. simpl in Hlen.
  destruct Hl as [[Hc Hu Hd Hl] Hs Hn Ho _]. split; [split| | | |].
  - apply core_remarked; [done..| |].
    + rewrite <- Hvs in Hpar. by apply Forall_fmap in Hpar.
    + rewrite <- !list_fmap_compose in Hsub. exact Hsub.
  - done.
  - done.
  - cbn. by rewrite Hv, <- Hvs.
  - unfold levels in Hr. apply Forall2_cons in Hr as [(bs & c & ->) _]. exact Hs.
  - unfold levels in Hr. apply Forall2_cons in Hr as [(bs & c & ->) _]. cbn. rewrite Hn. apply (f_equal length) in Hl, Hvs.
    rewrite length_fmap in Hl, Hvs. simpl in *. lia.
  - unfold levels in Hr. apply Forall2_cons in Hr as [(bs & c & ->) _]. exact Ho.
  - cbn. by rewrite Hst.
Qed.

(** All levels marked, [sub] for the subtransactions and [top] for the outermost
    one. *)
Fixpoint mark_views (sub top : TBlockState) (chn : bool) (vs : list view) : list view :=
  match vs with
  | [] => []
  | [v] => [v_set_chain chn (v_set_block top v)]
  | v :: vs' => v_set_block sub v :: mark_views sub top chn vs'
  end.

Fixpoint marked (sub top : TBlockState) (chn : bool) (ls : list TransactionStateData) : list TransactionStateData :=
  match ls with
  | [] => []
  | [s] => [set_chain chn (set_block top s)]
  | s :: ls' => set_block sub s :: marked sub top chn ls'
  end.

Lemma marked_views h sub top chn ls : view_of h <$> marked sub top chn ls = mark_views sub top chn (view_of h <$> ls).
Proof.
  induction ls as [|s ls IH]; [done|]. destruct ls as [|s' ls]; [done|].
  change (marked sub top chn (s :: s' :: ls)) with (set_block sub s :: marked sub top chn (s' :: ls)). by rewrite fmap_cons, IH.
Qed.

Lemma marked_remarked sub top chn ls : Forall2 remarked ls (marked sub top chn ls).
Proof.
  induction ls as [|s ls IH]; [done|]. destruct ls as [|s' ls]; [|by constructor; [apply remark_block|]].
  constructor; [|done]. by exists top, chn.
Qed.

Lemma mark_levels_steady who fsub ftop sub top chn s ps : fsub TBLOCK_SUBINPROGRESS = Some sub → ftop TBLOCK_INPROGRESS = Some top →
  steady (blockState <$> s :: ps) →
  ∃ s' ps', mark_levels who fsub ftop chn s ps = ((s', ps'), Ok tt) ∧ s' :: ps' = marked sub top chn (s :: ps).
Proof.
  intros Hsub Htop. revert s. induction ps as [|p ps IH]; intros s Hs.
  - cbn in Hs. cbn [mark_levels]. rewrite Hs, Htop. by eexists _, _.
  - destruct Hs as [Hb Hs]. destruct (IH p Hs) as (p' & ps' & Hr & He). cbn [mark_levels]. rewrite Hb, Hsub, Hr.
    eexists _, _. split; [done|].
    change (marked sub top chn (s :: p :: ps)) with (set_block sub s :: marked sub top chn (p :: ps)). by rewrite <- He.
Qed.

(** The pairs of marks the commands use. *)
Definition mark_pair (sub top : TBlockState) : Prop :=
  (sub = TBLOCK_SUBCOMMIT ∧ top = TBLOCK_END) ∨ (sub = TBLOCK_SUBABORT_PENDING ∧ top = TBLOCK_ABORT_PENDING).

Lemma mark_views_blocks sub top chn vs : mark_pair sub top → steady (v_block <$> vs) →
  Forall (λ p, parent_block (v_block p) = true ∧ starting (v_block p) = false) (mark_views sub top chn vs) ∧
  sub_block ∘ v_block <$> mark_views sub top chn vs = sub_block ∘ v_block <$> vs.
Proof.
  intros Hm. induction vs as [|v vs IH]; [done|]. intros Hs. destruct vs as [|v' vs].
  - cbn in Hs |- *. rewrite Hs. split; [apply Forall_singleton; cbn|]; by destruct Hm as [[_ ->]|[_ ->]].
  - destruct Hs as [Hv Hs]. destruct (IH Hs) as [H1 H2].
    change (mark_views sub top chn (v :: v' :: vs)) with (v_set_block sub v :: mark_views sub top chn (v' :: vs)). split.
    + constructor; [|done]. by destruct Hm as [[-> _]|[-> _]].
    + rewrite fmap_cons, H2. unfold compose at 1. cbn. rewrite Hv. by destruct Hm as [[-> _]|[-> _]].
Qed.

Section marks.
Context (base : Z) (h : list Z) (K : gset nat) (E : backend → Prop).
Abbreviation live := (live base h K).

Lemma live_blocks vs st b : live vs st b → blockState <$> levels b = v_block <$> vs.
Proof. intros [[_ _ _ <-] _ _ _ _]. by rewrite <- list_fmap_compose. Qed.

Lemma mark_stack_steady who fsub ftop sub top chn v vs : fsub TBLOCK_SUBINPROGRESS = Some sub →
  ftop TBLOCK_INPROGRESS = Some top → mark_pair sub top → steady (v_block <$> v :: vs) →
  safe base E (live (v :: vs) TRANS_INPROGRESS) (mark_stack who fsub ftop chn)
    (λ _, live (mark_views sub top chn (v :: vs)) TRANS_INPROGRESS).
Proof.
  intros Hsub Htop Hm Hs. apply safe_run. intros b Hb. pose proof (live_blocks _ _ _ Hb) as Hbl.
  destruct (mark_levels_steady who fsub ftop sub top chn (CurrentTransactionState b) (parents b) Hsub Htop) as (s' & ps' & Hr & He);
    [by rewrite <- Hbl in Hs|].
  unfold mark_stack. rewrite Hr. eexists _, _. split; [done|].
  destruct (mark_views_blocks sub top chn (v :: vs) Hm Hs) as [H1 H2].
  assert (view_of h <$> s' :: ps' = mark_views sub top chn (v :: vs)) as Hv.
  { rewrite He, marked_views. f_equal. by destruct Hb as [[_ _ _ ?] _ _ _ _]. }
  destruct (mark_views sub top chn (v :: vs)) as [|v' vs'] eqn:Hmv; [done|].
  apply list.Forall_cons in H1 as [[_ Hst] H1]. rewrite !fmap_cons in H2. injection H2 as _ H2.
  eapply live_remarked; [exact Hb| |exact Hv|done| |done].
  - rewrite He. apply marked_remarked.
  - eapply list.Forall_impl; [exact H1|]. by intros ? [? _].
Qed.

(** [COMMIT] and [ROLLBACK] in a failed subtransaction. *)
Lemma mark_stack_failed who chn v vs : vs ≠ [] → failed_blocks (v_block <$> v :: vs) →
  safe base E (live (v :: vs) TRANS_ABORT) (mark_stack who sub_abort top_abort chn)
    (λ _, live (v_set_block TBLOCK_SUBABORT_END v :: mark_views TBLOCK_SUBABORT_PENDING TBLOCK_ABORT_PENDING chn vs) TRANS_ABORT).
Proof.
  intros Hne Hs. apply safe_run. intros b Hb. pose proof (live_blocks _ _ _ Hb) as Hbl. pose proof (live_parents _ _ _ _ _ _ _ Hb) as Hps.
  pose proof (live_view _ _ _ _ _ _ _ Hb) as Hvw.
  assert (v_block v = TBLOCK_SUBABORT ∧ steady (v_block <$> vs)) as [Hv Hst] by (by destruct vs).
  unfold levels in Hbl. rewrite !fmap_cons in Hbl. injection Hbl as Hb1 Hb2. rewrite Hv in Hb1.
  destruct (parents b) as [|p ps] eqn:Hp; [by rewrite <- Hps in Hne|].
  destruct (mark_levels_steady who sub_abort top_abort TBLOCK_SUBABORT_PENDING TBLOCK_ABORT_PENDING chn p ps) as (p' & ps' & Hr & He);
    [done..|by rewrite Hb2|].
  unfold mark_stack. rewrite Hp. cbn [mark_levels]. rewrite Hb1. cbn [sub_abort]. rewrite Hr. eexists _, _. split; [done|].
  destruct (mark_views_blocks TBLOCK_SUBABORT_PENDING TBLOCK_ABORT_PENDING chn vs ltac:(by right) Hst) as [H1 H2].
  eapply live_remarked; [exact Hb| | |done| |exact H2].
  - unfold levels. rewrite Hp. constructor; [apply remark_block|]. rewrite He. apply marked_remarked.
  - rewrite fmap_cons, He, marked_views, Hps, Hvw. done.
  - eapply list.Forall_impl; [exact H1|]. by intros ? [? _].
Qed.

Lemma mark_upto_run who fsub flast (F : TBlockState → TBlockState) t pre tgt rest :
  Forall (λ s, fsub (blockState s) = Some (F (blockState s))) pre → flast (blockState tgt) = Some t →
  mark_upto who fsub flast (length pre) (pre ++ tgt :: rest) =
    (((λ s, set_block (F (blockState s)) s) <$> pre) ++ set_block t tgt :: rest, Ok tt).
Proof.
  intros Hpre Ht. induction Hpre as [|s pre Hs _ IH]; cbn [mark_upto length app fmap list_fmap].
  - by rewrite Ht.
  - by rewrite Hs, IH.
Qed.

(** The levels up to a savepoint marked. *)
Lemma mark_target_live who fsub flast F t pre tgt rest st v' vs' :
  Forall (λ v, fsub (v_block v) = Some (F (v_block v))) pre → flast (v_block tgt) = Some t →
  ((λ v, v_set_block (F (v_block v)) v) <$> pre) ++ v_set_block t tgt :: rest = v' :: vs' →
  starting (v_block v') = false → Forall (λ p, parent_block (v_block p) = true) vs' →
  sub_block ∘ v_block <$> v' :: vs' = sub_block ∘ v_block <$> pre ++ tgt :: rest →
  safe base E (live (pre ++ tgt :: rest) st) (mark_target who fsub flast (length pre)) (λ _, live (v' :: vs') st).
Proof.
  intros Hpre Ht Hv' Hst Hpar Hsub. apply safe_run. intros b Hb.
  assert (view_of h <$> levels b = pre ++ tgt :: rest) as Hl by apply Hb.
  apply fmap_app_inv in Hl as (lpre & l2 & Hlp & Hl2 & Hl). symmetry in Hl2. apply fmap_cons_inv in Hl2 as (ltgt & lrest & Htg & Hrest & ->).
  assert (mark_upto who fsub flast (length pre) (levels b) =
    (((λ s, set_block (F (blockState s)) s) <$> lpre) ++ set_block t ltgt :: lrest, Ok tt)) as Hr.
  { rewrite Hl, Hlp, length_fmap. apply mark_upto_run; [|by rewrite Htg in Ht]. rewrite Hlp in Hpre. by apply Forall_fmap in Hpre. }
  unfold mark_target. fold (levels b). rewrite Hr.
  assert (view_of h <$> ((λ s, set_block (F (blockState s)) s) <$> lpre) ++ set_block t ltgt :: lrest = v' :: vs') as Hv.
  { rewrite <- Hv', fmap_app, fmap_cons, Hlp, Htg, Hrest. f_equal. by rewrite <- !list_fmap_compose. }
  assert (Forall2 remarked (levels b) (((λ s, set_block (F (blockState s)) s) <$> lpre) ++ set_block t ltgt :: lrest)) as Hrm.
  { rewrite Hl. apply Forall2_app; [|constructor; [apply remark_block|]].
    - apply Forall2_fmap_r. apply Forall2_same_length_lookup. split; [done|]. intros i x y H1 H2. simplify_eq. apply remark_block.
    - apply Forall2_same_length_lookup. split; [done|]. intros i x y H1 H2. simplify_eq. apply remark_refl. }
  destruct (((λ s, set_block (F (blockState s)) s) <$> lpre) ++ set_block t ltgt :: lrest) as [|s' ps']; [done|].
  eexists _, _. split; [done|].
  destruct (pre ++ tgt :: rest) as [|v vs] eqn:Hvs; [by destruct pre|]. rewrite !fmap_cons in Hsub. injection Hsub as _ Hsub.
  by eapply live_remarked.
Qed.
End marks.

(** ** Commands that end the block *)

Lemma named_ext vs vs' : (λ v, (v_name v, v_savepointLevel v)) <$> vs' = (λ v, (v_name v, v_savepointLevel v)) <$> vs →
  named vs → named vs'.
Proof.
  revert vs. induction vs' as [|v' vs' IH]; intros [|v vs]; try done. rewrite !fmap_cons. intros [= Hn Hl Hr] Hnm.
  destruct vs' as [|w' vs'], vs as [|w vs]; try done; [by eapply named_as; [..|exact Hnm]|].
  rewrite named_cons in Hnm |- * by done. destruct Hnm as [H1 H2]. split; [congruence|]. by eapply IH.
Qed.

Lemma mark_views_app sub top chn pre tgt :
  mark_views sub top chn (pre ++ [tgt]) = (v_set_block sub <$> pre) ++ [v_set_chain chn (v_set_block top tgt)].
Proof. induction pre as [|v pre IH]; [done|]. cbn [app]. rewrite fmap_cons. cbn [app]. rewrite <- IH. by destruct pre. Qed.

Lemma mark_views_names sub top chn vs :
  (λ v, (v_name v, v_savepointLevel v)) <$> mark_views sub top chn vs = (λ v, (v_name v, v_savepointLevel v)) <$> vs.
Proof.
  induction vs as [|v vs IH]; [done|]. destruct vs as [|w vs]; [done|].
  change (mark_views sub top chn (v :: w :: vs)) with (v_set_block sub v :: mark_views sub top chn (w :: vs)).
  by rewrite !fmap_cons, IH.
Qed.

Lemma all_writes_app pre tgt : all_writes (pre ++ [tgt]) = v_writes tgt ∪ all_writes pre.
Proof.
  unfold all_writes. rewrite fmap_app, union_list_app_L. cbn. rewrite union_empty_r_L. apply union_comm_L.
Qed.

Lemma all_writes_blocks bs pre : all_writes (v_set_block bs <$> pre) = all_writes pre.
Proof. unfold all_writes. by rewrite <- list_fmap_compose. Qed.

(** A transaction has ended with the writes [K] committed, and the next one is
    there if the command was to chain. *)
Definition block_ended (base : Z) (h : list Z) (chn : bool) (K : gset nat) (b : backend) : Prop :=
  if chn then ∃ v, live base h K [v] TRANS_INPROGRESS b ∧ v_block v = TBLOCK_INPROGRESS ∧ v_writes v = ∅ ∧ named [v]
  else ∃ v, at_rest base h K v b ∧ named [v].

Lemma after_end_ended base h K v b : named [v] → after_end base h K v b → block_ended base h (v_chain v) K b.
Proof.
  intros Hn. unfold after_end, block_ended. destruct (v_chain v); intros Hb; eexists; (split; [exact Hb|]);
    [split_and!; [done..|]|]; by apply (named_as v).
Qed.

Section ending.
Context (base : Z) (h : list Z) (K : gset nat).
Abbreviation live := (live base h K).

Lemma commit_command_commit chn pre tgt : named (pre ++ [tgt]) →
  safe base (end_error base h K (K ∪ all_writes (pre ++ [tgt])) chn)
    (live (mark_views TBLOCK_SUBCOMMIT TBLOCK_END chn (pre ++ [tgt])) TRANS_INPROGRESS) CommitTransactionCommand
    (λ _, block_ended base h chn (K ∪ all_writes (pre ++ [tgt]))).
Proof.
  intros Hn. pose proof (named_ext _ _ (mark_views_names TBLOCK_SUBCOMMIT TBLOCK_END chn (pre ++ [tgt])) Hn) as Hm.
  rewrite mark_views_app in *. rewrite all_writes_app. set (t := v_set_chain chn (v_set_block TBLOCK_END tgt)) in *.
  assert (named [t]) as Ht by (by apply named_tail in Hm). destruct pre as [|v pre].
  - cbn [fmap list_fmap app]. replace (v_writes tgt ∪ all_writes []) with (v_writes t) by (symmetry; apply union_empty_r_L).
    eapply safe_conseq; [apply (commit_command_end _ _ _ t); done|done|]. intros [] b. by apply (after_end_ended base h _ t).
  - rewrite fmap_cons in Hm |- *. cbn [app] in Hm |- *. apply commit_command_fuel, until_done_once, commit_command_case. intros c.
    cbn [v_block v_set_block commit_current_body]. eapply safe_then.
    + eapply safe_weaken; [apply (commit_levels_safe base h K TBLOCK_SUBCOMMIT []); [by right|done| |done|done| |done]|by left].
      * apply Forall_fmap. by apply list.Forall_forall.
      * change (length (v_set_block TBLOCK_SUBCOMMIT <$> pre) ≤ length ((v_set_block TBLOCK_SUBCOMMIT <$> pre) ++ [t]))%nat. rewrite length_app. lia.
    + change (v_set_block TBLOCK_SUBCOMMIT v :: (v_set_block TBLOCK_SUBCOMMIT <$> pre))
        with (v_set_block TBLOCK_SUBCOMMIT <$> v :: pre). rewrite all_writes_blocks.
      eapply safe_gets; [intros b Hb; exact (live_block _ _ _ _ _ _ _ Hb)|]. cbn [v_block v_set_writes t v_set_chain v_set_block].
      set (w := v_set_writes _ t). eapply safe_conseq; [apply (commit_end_safe base h K c w); [done|by apply (named_as t)]|done|].
      intros d b [-> Hb]. split; [done|]. apply after_end_ended in Hb; [exact Hb|by apply (named_as t)].
Qed.

Lemma commit_command_rollback chn pre tgt : named (pre ++ [tgt]) →
  safe base (λ b, chn = true ∧ recoverable base h K [] b)
    (live (mark_views TBLOCK_SUBABORT_PENDING TBLOCK_ABORT_PENDING chn (pre ++ [tgt])) TRANS_INPROGRESS)
    (until_done (length (pre ++ [tgt])) CommitTransactionCommandInternal) (λ _, block_ended base h chn K).
Proof.
  intros Hn. apply named_tail in Hn; [|done]. rewrite mark_views_app, length_app, <- (length_fmap (v_set_block TBLOCK_SUBABORT_PENDING) pre).
  apply pop_all; [apply Forall_fmap; by apply list.Forall_forall|]. set (t := v_set_chain chn (v_set_block TBLOCK_ABORT_PENDING tgt)).
  assert (named [t]) as Ht by (by apply (named_as tgt)).
  apply until_done_once, commit_command_case. intros c. cbn [v_block t v_set_chain v_set_block commit_current_body].
  eapply safe_conseq; [apply (abort_end_safe base h K c t); done|done|].
  intros d b [-> Hb]. split; [done|]. by apply (after_end_ended base h K t).
Qed.

(** The end of a failed block. *)
Lemma commit_command_abort_end chn v : named [v] →
  safe base (λ b, chn = true ∧ recoverable base h K [] b)
    (live [v_set_chain chn (v_set_block TBLOCK_ABORT_END v)] TRANS_ABORT) CommitTransactionCommand
    (λ _, block_ended base h chn K).
Proof.
  intros Hn. set (t := v_set_chain chn (v_set_block TBLOCK_ABORT_END v)). assert (named [t]) as Ht by (by apply (named_as v)).
  apply commit_command_fuel, until_done_once, commit_command_case. intros c. cbn [v_block t v_set_chain v_set_block commit_current_body].
  eapply safe_then; [apply cleanup_transaction_live|]. eapply safe_conseq; [apply (finish_safe base h K c t Ht)|done|].
  intros d b [-> Hb]. split; [done|]. by apply (after_end_ended base h K t).
Qed.

Lemma commit_command_failed_rollback chn v pre tgt : named (pre ++ [tgt]) →
  safe base (λ b, chn = true ∧ recoverable base h K [] b)
    (live (v_set_block TBLOCK_SUBABORT_END v :: mark_views TBLOCK_SUBABORT_PENDING TBLOCK_ABORT_PENDING chn (pre ++ [tgt])) TRANS_ABORT)
    CommitTransactionCommand (λ _, block_ended base h chn K).
Proof.
  intros Hn. apply commit_command_fuel. pose proof (commit_command_rollback chn pre tgt Hn) as H. revert H.
  rewrite mark_views_app. destruct pre as [|p pre]; [by apply pop_failed|].
  rewrite fmap_cons. cbn [app length]. rewrite !length_app, length_fmap. by apply pop_failed.
Qed.
End ending.

(** ** Commands on a savepoint *)

Fixpoint find_name (n : string) (ns : list (option string)) : option nat :=
  match ns with
  | [] => None
  | m :: ns' => if bool_decide (m = Some n) then Some O else S <$> find_name n ns'
  end.

Lemma find_savepoint_names n ls : find_savepoint n ls = find_name n (name <$> ls).
Proof. induction ls as [|s ls IH]; [done|]. cbn. by rewrite IH. Qed.

Lemma find_name_lookup n ns i : find_name n ns = Some i → ns !! i = Some (Some n).
Proof.
  revert i. induction ns as [|m ns IH]; intros i; [done|]. cbn. case_bool_decide as Hm; [intros [= <-]; by rewrite Hm|].
  destruct (find_name n ns) as [j|]; [|done]. intros [= <-]. by apply IH.
Qed.

(** A savepoint is not the outermost level. *)
Lemma find_name_split n vs i : find_name n (v_name <$> vs) = Some i → named vs →
  ∃ pre tgt p rest, vs = pre ++ tgt :: p :: rest ∧ length pre = i ∧ v_name tgt = Some n.
Proof.
  intros Hi Hn. apply find_name_lookup in Hi. rewrite list_lookup_fmap in Hi.
  destruct (vs !! i) as [tgt|] eqn:Ht; [|done]. injection Hi as Hi.
  exists (take i vs), tgt. pose proof (take_drop_middle _ _ _ Ht) as He. pose proof (lookup_lt_Some _ _ _ Ht) as Hlt.
  destruct (drop (S i) vs) as [|p rest].
  - rewrite <- He in Hn. apply named_tail in Hn; [|done]. apply named_one in Hn as [_ Hn]. congruence.
  - exists p, rest. split_and!; [done|rewrite length_take; lia|done].
Qed.

Lemma steady_app pre vs : vs ≠ [] → steady (v_block <$> pre ++ vs) ↔
  Forall (λ v, v_block v = TBLOCK_SUBINPROGRESS) pre ∧ steady (v_block <$> vs).
Proof.
  intros Hvs. induction pre as [|v pre IH]; [split; [done|by intros [_ ?]]|]. cbn [app]. rewrite fmap_cons.
  rewrite steady_cons; [|by destruct pre, vs]. rewrite IH, list.Forall_cons. tauto.
Qed.

Section savepoints.
Context (base : Z) (h : list Z) (K : gset nat).
Abbreviation live := (live base h K).

Lemma savepoint_target_safe n v vs st f : fits f (v :: vs) st →
  safe base (recoverable base h K f) (live (v :: vs) st) (savepoint_target n)
    (λ i b, live (v :: vs) st b ∧ find_name n (v_name <$> v :: vs) = Some i).
Proof.
  intros Hf b Hb. unfold savepoint_target, get, mbind, M_bind. cbv zeta. fold (levels b).
  assert (Hv : view_of h <$> levels b = v :: vs) by apply Hb.
  rewrite find_savepoint_names. replace (name <$> levels b) with (v_name <$> v :: vs) by (rewrite <- Hv, <- list_fmap_compose; done).
  destruct (find_name n _) as [i|] eqn:Hi; [|by eapply live_inv].
  pose proof (find_name_lookup _ _ _ Hi) as Hl. rewrite <- Hv, <- list_fmap_compose, list_lookup_fmap in Hl.
  destruct (levels b !! i) as [s|] eqn:Hs; [|done].
  assert (savepointLevel s = 0) as ->.
  { destruct Hf as (_ & _ & _ & _ & [Hz _]). rewrite <- Hv in Hz. rewrite Forall_fmap, list.Forall_forall in Hz.
    apply Hz. by eapply list_elem_of_lookup_2. }
  replace (savepointLevel (CurrentTransactionState b)) with 0; [done|].
  destruct Hf as (_ & _ & _ & _ & [Hz _]). apply list.Forall_cons in Hz as [Hz _]. by rewrite (live_view _ _ _ _ _ _ _ Hb) in Hz.
Qed.

(** [RELEASE]: the levels marked, and what [CommitTransactionCommand] makes of it. *)
Lemma commit_command_release pre p rest v : steady (v_block <$> p :: rest) → named (v :: pre ++ p :: rest) →
  v_block v = TBLOCK_SUBRELEASE → Forall (λ v, v_block v = TBLOCK_SUBRELEASE) pre →
  safe base (recoverable base h K (fail_views (p :: rest))) (live (v :: pre ++ p :: rest) TRANS_INPROGRESS) CommitTransactionCommand
    (λ _, live (v_set_writes (v_writes p ∪ all_writes (v :: pre)) p :: rest) TRANS_INPROGRESS).
Proof.
  intros Hs Hn Hv Hpre. apply commit_command_fuel, until_done_once, commit_command_case. intros c. rewrite Hv. cbn [commit_current_body].
  eapply safe_then; [|by apply safe_ret]. cbn [length]. apply commit_levels_safe; [by left|done..| |done| |by rewrite steady_open].
  - apply steady_head in Hs. rewrite elem_of_cons, list_elem_of_singleton in Hs. by destruct Hs as [-> | ->].
  - rewrite length_app. lia.
Qed.

Lemma steady_parents vs : steady (v_block <$> vs) →
  Forall (λ v, parent_block (v_block v) = true ∧ starting (v_block v) = false) vs.
Proof.
  induction vs as [|v vs IH]; [done|]. intros Hs. constructor.
  - apply steady_head in Hs. rewrite elem_of_cons, list_elem_of_singleton in Hs. by destruct Hs as [-> | ->].
  - destruct vs as [|w vs]; [done|]. apply IH. by destruct Hs.
Qed.

(** A level marked as part of a command on a savepoint. *)
Definition sub_mark (bs : TBlockState) : Prop := parent_block bs = true ∧ sub_block bs = true ∧ starting bs = false.

Lemma sub_marks_blocks sub t pre tgt p rest : sub_mark sub → sub_mark t → steady (v_block <$> pre ++ tgt :: p :: rest) →
  Forall (λ v, parent_block (v_block v) = true ∧ starting (v_block v) = false) ((v_set_block sub <$> pre) ++ v_set_block t tgt :: p :: rest) ∧
  sub_block ∘ v_block <$> (v_set_block sub <$> pre) ++ v_set_block t tgt :: p :: rest = sub_block ∘ v_block <$> pre ++ tgt :: p :: rest.
Proof.
  intros (S1 & S2 & S3) (T1 & T2 & T3) Hs. apply steady_app in Hs as [Hpre [Ht Hs]]; [|done].
  pose proof (steady_parents _ Hs) as Hrest. split.
  - apply Forall_app. split; [apply Forall_fmap; by apply list.Forall_forall|]. by constructor.
  - rewrite !fmap_app, !fmap_cons, <- list_fmap_compose. f_equal; [|unfold compose; cbn; by rewrite T2, Ht].
    clear -Hpre S2. induction Hpre as [|v pre Hv _ IH]; [done|]. rewrite !fmap_cons, IH. unfold compose. cbn. by rewrite S2, Hv.
Qed.

Lemma mark_target_steady E who fsub flast sub t pre tgt p rest st : fsub TBLOCK_SUBINPROGRESS = Some sub →
  flast TBLOCK_SUBINPROGRESS = Some t → sub_mark sub → sub_mark t → steady (v_block <$> pre ++ tgt :: p :: rest) →
  safe base E (live (pre ++ tgt :: p :: rest) st) (mark_target who fsub flast (length pre))
    (λ _, live ((v_set_block sub <$> pre) ++ v_set_block t tgt :: p :: rest) st).
Proof.
  intros Hsub Ht Ms Mt Hs. destruct (sub_marks_blocks sub t pre tgt p rest Ms Mt Hs) as [Hall Hblk].
  apply steady_app in Hs as [Hpre [Htg _]]; [|done].
  destruct ((v_set_block sub <$> pre) ++ v_set_block t tgt :: p :: rest) as [|v' vs'] eqn:Hv'; [by destruct pre|].
  apply list.Forall_cons in Hall as [[_ Hst] Hall].
  apply (mark_target_live base h K E who fsub flast (λ _, sub) t).
  - eapply list.Forall_impl; [exact Hpre|]. by intros v ->.
  - by rewrite Htg.
  - done.
  - done.
  - eapply list.Forall_impl; [exact Hall|]. by intros ? [? _].
  - done.
Qed.

(** A command after the checks that it starts with. *)
Lemma safe_at {A} E vs st (m m' : X A) Q : (∀ b, live vs st b → m b = m' b) → safe base E (live vs st) m' Q → safe base E (live vs st) m Q.
Proof. intros He H b Hb. rewrite He by done. by apply H. Qed.

(** The savepoint found, and the levels up to it marked by [m]. *)
Lemma target_marks n v vs st f (m : nat → X unit) (R : list view → view → view → list view → backend → Prop) : fits f (v :: vs) st →
  (∀ pre tgt p rest, v :: vs = pre ++ tgt :: p :: rest →
    safe base (recoverable base h K f) (live (pre ++ tgt :: p :: rest) st) (m (length pre)) (λ _, R pre tgt p rest)) →
  safe base (recoverable base h K f) (live (v :: vs) st) (i ← savepoint_target n; m i)
    (λ _ b, ∃ pre tgt p rest, v :: vs = pre ++ tgt :: p :: rest ∧ find_name n (v_name <$> v :: vs) = Some (length pre) ∧
       R pre tgt p rest b).
Proof.
  intros Hf Hm. eapply safe_bind; [by apply savepoint_target_safe|]. intros i b [Hb Hi].
  destruct (find_name_split _ _ _ Hi) as (pre & tgt & p & rest & He & <- & _); [by destruct Hf as (_ & _ & _ & _ & ?)|].
  specialize (Hm _ _ _ _ He b). rewrite <- He in Hm. specialize (Hm Hb). destruct (m (length pre) b) as [b' [[]|[]]]; try done.
  exists pre, tgt, p, rest. by rewrite Hi.
Qed.

Lemma release_marks n v vs : steady (v_block <$> v :: vs) → named (v :: vs) →
  safe base (recoverable base h K (fail_views (v :: vs))) (live (v :: vs) TRANS_INPROGRESS) (ReleaseSavepoint n)
    (λ _ b, ∃ pre tgt p rest, v :: vs = pre ++ tgt :: p :: rest ∧ find_name n (v_name <$> v :: vs) = Some (length pre) ∧
       live ((v_set_block TBLOCK_SUBRELEASE <$> pre) ++ v_set_block TBLOCK_SUBRELEASE tgt :: p :: rest) TRANS_INPROGRESS b).
Proof.
  intros Hs Hn. pose proof (steady_fits _ _ Hs Hn) as Hf.
  apply safe_at with (match vs with [] => fail (ErrReport "savepoint does not exist") | _ =>
    i ← savepoint_target n; mark_target "ReleaseSavepoint" (λ _, Some TBLOCK_SUBRELEASE) (λ _, Some TBLOCK_SUBRELEASE) i end).
  { intros b Hb. unfold ReleaseSavepoint. unfold get at 1, mbind at 1, M_bind at 1. cbv zeta.
    rewrite (live_not_parallel _ _ _ _ _ _ Hb), (live_block _ _ _ _ _ _ _ Hb).
    destruct vs; [cbn in Hs; by rewrite Hs|]. by destruct Hs as [-> _]. }
  destruct vs as [|p0 vs]; [apply safe_report; intros b Hb; by eapply live_inv|].
  apply target_marks; [done|]. intros pre tgt p rest He. apply mark_target_steady; [done..|by rewrite <- He].
Qed.

(** [ROLLBACK TO] in a live block. *)
Lemma rollback_marks n v vs : steady (v_block <$> v :: vs) → named (v :: vs) →
  safe base (recoverable base h K (fail_views (v :: vs))) (live (v :: vs) TRANS_INPROGRESS) (RollbackToSavepoint n)
    (λ _ b, ∃ pre tgt p rest, v :: vs = pre ++ tgt :: p :: rest ∧ find_name n (v_name <$> v :: vs) = Some (length pre) ∧
       live ((v_set_block TBLOCK_SUBABORT_PENDING <$> pre) ++ v_set_block TBLOCK_SUBRESTART tgt :: p :: rest) TRANS_INPROGRESS b).
Proof.
  intros Hs Hn. pose proof (steady_fits _ _ Hs Hn) as Hf.
  apply safe_at with (match vs with [] => fail (ErrReport "savepoint does not exist") | _ =>
    i ← savepoint_target n; mark_target "RollbackToSavepoint" sub_abort sub_restart i end).
  { intros b Hb. unfold RollbackToSavepoint. unfold get at 1, mbind at 1, M_bind at 1. cbv zeta.
    rewrite (live_not_parallel _ _ _ _ _ _ Hb), (live_block _ _ _ _ _ _ _ Hb).
    destruct vs; [cbn in Hs; by rewrite Hs|]. by destruct Hs as [-> _]. }
  destruct vs as [|p0 vs]; [apply safe_report; intros b Hb; by eapply live_inv|].
  apply target_marks; [done|]. intros pre tgt p rest He. apply mark_target_steady; [done..|by rewrite <- He].
Qed.

(** The new level of a savepoint that is rolled back to. *)
Definition restarted (v : view) : view := mkView (v_name v) (v_savepointLevel v) TBLOCK_SUBINPROGRESS false ∅.

Lemma commit_command_rollback_to pre tgt p rest : steady (v_block <$> p :: rest) → named (pre ++ tgt :: p :: rest) →
  safe base (recoverable base h K (fail_views (p :: rest)))
    (live ((v_set_block TBLOCK_SUBABORT_PENDING <$> pre) ++ v_set_block TBLOCK_SUBRESTART tgt :: p :: rest) TRANS_INPROGRESS)
    (until_done (length (pre ++ tgt :: p :: rest)) CommitTransactionCommandInternal)
    (λ _, live (restarted tgt :: p :: rest) TRANS_INPROGRESS).
Proof.
  intros Hs Hn. apply named_tail in Hn; [|done]. rewrite length_app, <- (length_fmap (v_set_block TBLOCK_SUBABORT_PENDING) pre).
  apply pop_all; [apply Forall_fmap; by apply list.Forall_forall|].
  apply until_done_once, (commit_command_restart base h K (v_set_block TBLOCK_SUBRESTART tgt)); [done..|].
  rewrite named_cons in Hn |- * by done. exact Hn.
Qed.

(** The marks of [ROLLBACK TO] in a failed block. *)
Definition failed_marks (pre : list view) (tgt : view) : list view :=
  match pre with
  | [] => [v_set_block TBLOCK_SUBABORT_RESTART tgt]
  | v :: pre' => v_set_block TBLOCK_SUBABORT_END v :: (v_set_block TBLOCK_SUBABORT_PENDING <$> pre') ++ [v_set_block TBLOCK_SUBRESTART tgt]
  end.

Lemma mark_target_failed E pre tgt p rest : failed_blocks (v_block <$> pre ++ tgt :: p :: rest) →
  safe base E (live (pre ++ tgt :: p :: rest) TRANS_ABORT) (mark_target "RollbackToSavepoint" sub_abort sub_restart (length pre))
    (λ _, live (failed_marks pre tgt ++ p :: rest) TRANS_ABORT).
Proof.
  intros Hs. destruct pre as [|v pre].
  - destruct Hs as [Ht Hs]. apply (mark_target_live base h K E _ _ _ (λ bs, bs) TBLOCK_SUBABORT_RESTART []); try done.
    + cbn. by rewrite Ht.
    + eapply list.Forall_impl; [exact (steady_parents _ Hs)|]. by intros ? [? _].
    + rewrite !fmap_cons. f_equal. unfold compose. cbn. by rewrite Ht.
  - assert (v_block v = TBLOCK_SUBABORT ∧ steady (v_block <$> pre ++ tgt :: p :: rest)) as [Hv Hs'] by (by destruct pre).
    destruct (sub_marks_blocks TBLOCK_SUBABORT_PENDING TBLOCK_SUBRESTART pre tgt p rest) as [Hall Hblk]; [done..|].
    pose proof (steady_app pre (tgt :: p :: rest) ltac:(done)) as [Hsp _]. destruct (Hsp Hs') as [Hpre [Ht _]].
    set (F := λ bs, default bs (sub_abort bs)).
    assert ((λ v, v_set_block (F (v_block v)) v) <$> pre = v_set_block TBLOCK_SUBABORT_PENDING <$> pre) as HF.
    { clear -Hpre. induction Hpre as [|w pre Hw _ IH]; [done|]. rewrite !fmap_cons, IH. unfold F. by rewrite Hw. }
    unfold failed_marks. cbn [app]. rewrite <- app_assoc. cbn [app].
    apply (mark_target_live base h K E _ _ _ F TBLOCK_SUBRESTART (v :: pre)).
    + constructor; [unfold F; by rewrite Hv|]. eapply list.Forall_impl; [exact Hpre|]. intros w Hw. unfold F. by rewrite Hw.
    + by rewrite Ht.
    + rewrite fmap_cons, HF. unfold F. by rewrite Hv.
    + done.
    + eapply list.Forall_impl; [exact Hall|]. by intros ? [? _].
    + cbn [app]. rewrite !fmap_cons, Hblk. f_equal. unfold compose. cbn. by rewrite Hv.
Qed.

Lemma failed_rollback_marks n v vs : failed_blocks (v_block <$> v :: vs) → named (v :: vs) →
  safe base (recoverable base h K (fail_views (v :: vs))) (live (v :: vs) TRANS_ABORT) (RollbackToSavepoint n)
    (λ _ b, ∃ pre tgt p rest, v :: vs = pre ++ tgt :: p :: rest ∧ find_name n (v_name <$> v :: vs) = Some (length pre) ∧
       live (failed_marks pre tgt ++ p :: rest) TRANS_ABORT b).
Proof.
  intros Hs Hn. pose proof (failed_fits _ _ Hs Hn) as Hf.
  apply safe_at with (match vs with [] => fail (ErrReport "savepoint does not exist") | _ =>
    i ← savepoint_target n; mark_target "RollbackToSavepoint" sub_abort sub_restart i end).
  { intros b Hb. unfold RollbackToSavepoint. unfold get at 1, mbind at 1, M_bind at 1. cbv zeta.
    rewrite (live_not_parallel _ _ _ _ _ _ Hb), (live_block _ _ _ _ _ _ _ Hb).
    destruct vs; [cbn in Hs; by rewrite Hs|]. by destruct Hs as [-> _]. }
  destruct vs as [|p0 vs]; [apply safe_report; intros b Hb; by eapply live_inv|].
  apply target_marks; [done|]. intros pre tgt p rest He. apply mark_target_failed. by rewrite <- He.
Qed.

Lemma commit_command_failed_rollback_to pre tgt p rest : steady (v_block <$> p :: rest) → named (pre ++ tgt :: p :: rest) →
  safe base (recoverable base h K (fail_views (p :: rest))) (live (failed_marks pre tgt ++ p :: rest) TRANS_ABORT)
    CommitTransactionCommand (λ _, live (restarted tgt :: p :: rest) TRANS_INPROGRESS).
Proof.
  intros Hs Hn. apply commit_command_fuel. destruct pre as [|v pre]; cbn [failed_marks app length].
  - apply until_done_once, (commit_command_abort_restart base h K (v_set_block TBLOCK_SUBABORT_RESTART tgt)); [done..|].
    cbn [app] in Hn. rewrite named_cons in Hn |- * by done. exact Hn.
  - cbn [app] in Hn. rewrite named_cons in Hn by (by destruct pre). destruct Hn as [_ Hn].
    pose proof (commit_command_rollback_to pre tgt p rest Hs Hn) as H. rewrite <- app_assoc. cbn [app].
    revert H. rewrite !length_app, length_fmap. cbn [length]. destruct pre as [|w pre]; [by apply pop_failed|].
    rewrite fmap_cons. by apply pop_failed.
Qed.
End savepoints.
