(* ===== verification/XactClient.v ===== *)
(** * A client session and what it may rely on

    The simple-query loop of [tcop/postgres.c] ([start_xact_command],
    [finish_xact_command], [exec_simple_query] and the error branch of
    [PostgresMain]) with the transaction commands of [tcop/utility.c], on the
    backend of [Xact].  A statement other than a transaction command may write
    and may fail; each write is recorded with the id of its transaction.

    [content] is what a client may rely on, without stacks, ids and states: a set
    of committed writes and, in a block, one set of writes for every savepoint.
    The theorems show that the session implements it, whatever steps of other
    modules fail, and that reads see exactly its writes. *)
From stdpp Require Import base tactics list gmap strings numbers sorting.
From Stdlib Require Import ZArith Lia Bool.
From S2P Require Import Prelude Visibility Clog XidGen Xact XactInv XactCmd XactBlock.

(** ** The session *)

Inductive TransactionStmtKind : Type :=
| TRANS_STMT_BEGIN
| TRANS_STMT_COMMIT (chain : bool)
| TRANS_STMT_ROLLBACK (chain : bool)
| TRANS_STMT_SAVEPOINT (savepoint_name : string)
| TRANS_STMT_RELEASE (savepoint_name : string)
| TRANS_STMT_ROLLBACK_TO (savepoint_name : string).

Inductive RawStmt : Type :=
| TransactionStmt (kind : TransactionStmtKind)
| PlainStmt (writes : bool).

Record client : Type := mkClient {
  bk : backend;
  xact_started : bool;
  heap : list Z               (* the transaction id of every write so far *)
}.

Definition set_bk (b : backend) (c : client) : client := mkClient b (xact_started c) (heap c).

Definition set_started (x : bool) (c : client) : client := mkClient (bk c) x (heap c).

Definition in_backend {A} (m : X A) : M client A := λ c, let '(b, r) := m (bk c) in (set_bk b c, r).

Definition start_xact_command : M client unit :=
  started ← gets xact_started;
  if started : bool then mret tt
  else in_backend StartTransactionCommand ;; modify (set_started true).

Definition finish_xact_command : M client unit :=
  started ← gets xact_started;
  if started : bool then in_backend CommitTransactionCommand ;; modify (set_started false)
  else mret tt.

Definition IsTransactionExitStmt (st : RawStmt) : bool :=
  match st with
  | TransactionStmt (TRANS_STMT_COMMIT _ | TRANS_STMT_ROLLBACK _ | TRANS_STMT_ROLLBACK_TO _) => true
  | _ => false
  end.

(** The transaction commands of [standard_ProcessUtility], at top level.  The step
    after [BeginTransactionBlock] stands for the options of [BEGIN]. *)
Definition standard_ProcessUtility (kind : TransactionStmtKind) : X unit :=
  match kind with
  | TRANS_STMT_BEGIN => BeginTransactionBlock ;; subsystem
  | TRANS_STMT_COMMIT chain => EndTransactionBlock chain ;; mret tt
  | TRANS_STMT_ROLLBACK chain => UserAbortTransactionBlock chain
  | TRANS_STMT_SAVEPOINT n => RequireTransactionBlock true "SAVEPOINT" ;; DefineSavepoint (Some n)
  | TRANS_STMT_RELEASE n => RequireTransactionBlock true "RELEASE SAVEPOINT" ;; ReleaseSavepoint n
  | TRANS_STMT_ROLLBACK_TO n => RequireTransactionBlock true "ROLLBACK TO SAVEPOINT" ;; RollbackToSavepoint n
  end.

(** A statement that writes, if it does, under the current transaction id, and
    may fail after that. *)
Definition run_plain (writes : bool) : M client unit :=
  (if writes then
     xid ← in_backend GetCurrentTransactionId;
     in_backend (GetCurrentCommandId true) ;;
     modify (λ c, mkClient (bk c) (xact_started c) (heap c ++ [xid]))
   else mret tt) ;;
  in_backend subsystem.

Definition run_stmt (st : RawStmt) : M client unit :=
  match st with
  | TransactionStmt kind => in_backend (standard_ProcessUtility kind)
  | PlainStmt writes => run_plain writes
  end.

(** The loop of [exec_simple_query] over the statements of a query string; the
    first step of a statement is its analysis and planning. *)
Fixpoint exec_stmts (use_implicit_block : bool) (l : list RawStmt) : M client unit :=
  match l with
  | [] => mret tt
  | st :: rest =>
      b ← gets bk;
      if IsAbortedTransactionBlockState b && negb (IsTransactionExitStmt st) then
        fail (ErrReport "current transaction is aborted, commands ignored until end of transaction block")
      else
        start_xact_command ;;
        (if use_implicit_block then in_backend BeginImplicitTransactionBlock else mret tt) ;;
        in_backend subsystem ;;
        run_stmt st ;;
        match rest with
        | [] =>
            (if use_implicit_block then in_backend EndImplicitTransactionBlock else mret tt) ;;
            finish_xact_command
        | _ =>
            match st with
            | TransactionStmt _ => finish_xact_command
            | PlainStmt _ => in_backend CommandCounterIncrement
            end
        end ;;
        exec_stmts use_implicit_block rest
  end.

(** The step is the parser. *)
Definition exec_simple_query (l : list RawStmt) : M client unit :=
  start_xact_command ;;
  in_backend subsystem ;;
  exec_stmts (1 <? length l)%nat l ;;
  finish_xact_command.

(** A query of the main loop: the result is the error reported to the client. *)
Definition PostgresMain_query (l : list RawStmt) : M client (option string) := λ c,
  match exec_simple_query l c with
  | (c', Ok _) => (c', Ok None)
  | (c', Err (ErrReport msg)) =>
      match AbortCurrentTransaction (bk c') with
      | (b', Ok _) => (mkClient b' false (heap c'), Ok (Some msg))
      | (b', Err e) => (set_bk b' c', Err e)
      end
  | (c', Err e) => (c', Err e)
  end.

(** The queries of a session, one after the other. *)
Fixpoint PostgresMain (qs : list (list RawStmt)) : M client (list (option string)) :=
  match qs with
  | [] => mret []
  | l :: qs' =>
      r ← PostgresMain_query l;
      rs ← PostgresMain qs';
      mret (r :: rs)
  end.

(** The writes a statement of the session can see: those of its own transaction
    and the committed ones. *)
Definition visible_writes (c : client) : gset nat :=
  writes (λ x, TransactionIdIsCurrentTransactionId (bk c) x ||
               (TransactionIdGetStatus (pg_xact (shmem (bk c))) x =? TRANSACTION_STATUS_COMMITTED)) (heap c).

(** ** What a client may rely on *)

(** A savepoint, or the block itself without a name, with the writes since. *)
Definition frame : Type := option string * gset nat.

(** [Auto] is the state outside of a block, with the writes of the statements of
    the query string so far.  The frames of a block are the innermost first; in a
    failed one those of the innermost are gone. *)
Inductive block_content : Type :=
| Auto (pending : gset nat)
| Open (frames : list frame)
| Failed (frames : list frame).

Record content : Type := mkContent {
  next_write : nat;
  committed : gset nat;
  block_of : block_content
}.

Definition frame_writes (fs : list frame) : gset nat := ⋃ (snd <$> fs).

Definition fail_frame (fs : list frame) : list frame :=
  match fs with
  | [] => []
  | (n, _) :: fs' => (n, ∅) :: fs'
  end.

Fixpoint find_frame (n : string) (fs : list frame) : option nat :=
  match fs with
  | [] => None
  | (m, _) :: fs' => if bool_decide (m = Some n) then Some O else S <$> find_frame n fs'
  end.

(** The frames up to [i] become part of the next one. *)
Definition release_frames (i : nat) (fs : list frame) : list frame :=
  match drop (S i) fs with
  | [] => []
  | (n, w) :: fs' => (n, w ∪ frame_writes (take (S i) fs)) :: fs'
  end.

(** The frame [i] is begun again, those inside of it are gone. *)
Definition restart_frames (i : nat) (fs : list frame) : list frame := fail_frame (drop i fs).

Definition fresh_block (chain : bool) : block_content := if chain then Open [(None, ∅)] else Auto ∅.

Definition with_block_of (bc : block_content) (s : content) : content := mkContent (next_write s) (committed s) bc.

Definition commit_writes (w : gset nat) (bc : block_content) (s : content) : content :=
  mkContent (next_write s) (committed s ∪ w) bc.

Definition count_write (w : bool) (s : content) : content :=
  mkContent (if w then S (next_write s) else next_write s) (committed s) (block_of s).

Definition add_write (w : bool) (s : content) (x : gset nat) : gset nat := if w then x ∪ {[next_write s]} else x.

(** The content after a statement that succeeds, if it can. *)
Definition succeed (st : RawStmt) (s : content) : option content :=
  match st, block_of s with
  | PlainStmt w, Auto x => Some (with_block_of (Auto (add_write w s x)) (count_write w s))
  | PlainStmt w, Open ((n, x) :: fs) => Some (with_block_of (Open ((n, add_write w s x) :: fs)) (count_write w s))
  | TransactionStmt TRANS_STMT_BEGIN, Auto x => Some (with_block_of (Open [(None, x)]) s)
  | TransactionStmt TRANS_STMT_BEGIN, Open _ => Some s
  | TransactionStmt (TRANS_STMT_COMMIT false), Auto x => Some (commit_writes x (Auto ∅) s)
  | TransactionStmt (TRANS_STMT_COMMIT chain), Open fs => Some (commit_writes (frame_writes fs) (fresh_block chain) s)
  | TransactionStmt (TRANS_STMT_ROLLBACK false), Auto _ => Some (with_block_of (Auto ∅) s)
  | TransactionStmt (TRANS_STMT_COMMIT chain), Failed _
  | TransactionStmt (TRANS_STMT_ROLLBACK chain), (Open _ | Failed _) => Some (with_block_of (fresh_block chain) s)
  | TransactionStmt (TRANS_STMT_SAVEPOINT n), Open fs => Some (with_block_of (Open ((Some n, ∅) :: fs)) s)
  | TransactionStmt (TRANS_STMT_RELEASE n), Open fs =>
      i ← find_frame n fs; Some (with_block_of (Open (release_frames i fs)) s)
  | TransactionStmt (TRANS_STMT_ROLLBACK_TO n), (Open fs | Failed fs) =>
      i ← find_frame n fs; Some (with_block_of (Open (restart_frames i fs)) s)
  | _, _ => None
  end.

(** An error outside of a block loses the query string so far, one in a block its
    innermost frame. *)
Definition after_error (s : content) : content :=
  with_block_of (match block_of s with
                 | Auto _ => Auto ∅
                 | Open fs | Failed fs => Failed (fail_frame fs)
                 end) s.

(** The contents after a statement that fails. *)
Definition fails (st : RawStmt) (s : content) : list content :=
  after_error s ::
  match st, block_of s with
  | PlainStmt w, (Auto _ | Open _) => [after_error (count_write w s)]
  | TransactionStmt TRANS_STMT_BEGIN, _ => []
  | TransactionStmt (TRANS_STMT_COMMIT chain), Open fs =>
      with_block_of (Auto ∅) s :: if chain then [commit_writes (frame_writes fs) (Auto ∅) s] else []
  | TransactionStmt (TRANS_STMT_COMMIT _), Failed _
  | TransactionStmt (TRANS_STMT_ROLLBACK _), (Open _ | Failed _) => [with_block_of (Auto ∅) s]
  | TransactionStmt (TRANS_STMT_RELEASE n), Open fs
  | TransactionStmt (TRANS_STMT_ROLLBACK_TO n), (Open fs | Failed fs) =>
      match find_frame n fs with
      | Some i => [with_block_of (Failed (fail_frame (drop (S i) fs))) s]
      | None => []
      end
  | _, _ => []
  end.

(** The end of the query string. *)
Definition close (s : content) : content :=
  match block_of s with
  | Auto x => commit_writes x (Auto ∅) s
  | _ => s
  end.

(** What a statement reads. *)
Definition readable (s : content) : gset nat :=
  committed s ∪ match block_of s with
                | Auto x => x
                | Open fs | Failed fs => frame_writes fs
                end.

(** A query string, with whether it ends in an error. *)
Inductive query : list RawStmt → content → bool → content → Prop :=
| query_end s : query [] s false (close s)
| query_error l s : query l s true (after_error s)
| query_step st l s s1 e s2 : succeed st s = Some s1 → query l s1 e s2 → query (st :: l) s e s2
| query_fail st l s s1 : s1 ∈ fails st s → query (st :: l) s true s1.

(** The queries of a session, with those that end in an error. *)
Inductive session : list (list RawStmt) → content → list bool → content → Prop :=
| session_end s : session [] s [] s
| session_query l qs s e s1 es s2 : query l s e s1 → session qs s1 es s2 → session (l :: qs) s (e :: es) s2.

(** ** How a session implements a content *)

Definition frames_of (vs : list view) : list frame := (λ v, (v_name v, v_writes v)) <$> vs.

(** The block states of a transaction that is not a block. *)
Definition auto_blocks (implicit : bool) : list TBlockState :=
  if implicit then [TBLOCK_STARTED; TBLOCK_IMPLICIT_INPROGRESS] else [TBLOCK_STARTED].

Section relation.
Context (base : Z) (h : list Z) (K : gset nat).

(** [started] is [None] between queries and [Some implicit] in one. *)
Definition implements (bc : block_content) (started : option bool) (b : backend) : Prop :=
  match bc with
  | Auto x =>
      match started with
      | Some implicit =>
          ∃ v, live base h K [v] TRANS_INPROGRESS b ∧ v_block v ∈ auto_blocks implicit ∧ v_writes v = x ∧ named [v]
      | None => x = ∅ ∧ ∃ v, at_rest base h K v b ∧ named [v]
      end
  | Open fs =>
      ∃ vs, live base h K vs TRANS_INPROGRESS b ∧ steady (v_block <$> vs) ∧ frames_of vs = fs ∧ named vs
  | Failed fs =>
      ∃ vs, live base h K vs TRANS_ABORT b ∧ failed_blocks (v_block <$> vs) ∧ frames_of vs = fs ∧ named vs
  end.

(** An error after which recovery leaves the content. *)
Definition leaves (bc : block_content) (b : backend) : Prop :=
  match bc with
  | Auto x => x = ∅ ∧ recoverable base h K [] b
  | Open _ => False
  | Failed fs => ∃ f, recoverable base h K f b ∧ failed_blocks (v_block <$> f) ∧ frames_of f = fs
  end.
End relation.

Record related (base : Z) (started : option bool) (s : content) (c : client) : Prop := mkRelated {
  rel_next : next_write s = length (heap c);
  rel_started : xact_started c = match started with Some _ => true | None => false end;
  rel_block : implements base (heap c) (committed s) (block_of s) started (bk c)
}.

Record erred (base : Z) (s : content) (c : client) : Prop := mkErred {
  err_inv : inv base (bk c);
  err_next : next_write s = length (heap c);
  err_block : leaves base (heap c) (committed s) (block_of s) (bk c)
}.

(** ** Recovery *)

Lemma open_part_all (vs : list view) : Forall (λ v, stays_open (v_block v) = false) vs → open_part vs = [].
Proof. induction 1 as [|v vs Hv _ IH]; [done|]. cbn. by rewrite Hv. Qed.

Section recovery.
Context (base : Z) (h : list Z) (K : gset nat).

(** The views of the levels around the one where recovery stops. *)
Lemma views_split b k s : levels b !! k = Some s → Forall (λ s, stays_open (blockState s) = false) (take k (levels b)) →
  view_of h <$> levels b = (view_of h <$> take k (levels b)) ++ view_of h s :: (view_of h <$> drop (S k) (levels b)) ∧
  Forall (λ v, stays_open (v_block v) = false) (view_of h <$> take k (levels b)).
Proof.
  intros Hk Hall. split; [|by apply Forall_fmap]. rewrite <- fmap_cons, <- fmap_app. f_equal.
  rewrite <- (take_drop_middle _ _ _ Hk) at 1. done.
Qed.

Lemma gave_up_owned b k : core base b →
  Forall (λ x, TransactionIdGetStatus (pg_xact (shmem b)) x ≠ TRANSACTION_STATUS_COMMITTED) (concat (owned <$> take k (levels b))).
Proof.
  intros Hc. pose proof (core_status _ _ Hc) as Hs. apply (list.Forall_take _ k) in Hs.
  induction Hs as [|s ls Hs _ IH]; [done|]. cbn. apply Forall_app. split; [|exact IH].
  eapply list.Forall_impl; [exact Hs|]. intros x. simpl. intros ->. by destruct (bool_decide _).
Qed.

Lemma recover f b : inv base b → recoverable base h K f b →
  ∃ b', AbortCurrentTransaction b = (b', Ok tt) ∧ named (view_of h <$> levels b') ∧
    match f with
    | [] => ∃ v, at_rest base h K v b'
    | _ => live base h K f TRANS_ABORT b' ∧ named f
    end.
Proof.
  intros Hi [Hu Hd Hf Hn]. destruct (abort_loop base (S (length (parents b))) b Hi ltac:(lia))
    as (b' & k & s & Hr & [Hc' Hcur'] & Hk & Hall & Hg & (Hs1 & Hs2 & Hs3) & Hfin).
  exists b'. split; [exact Hr|]. destruct (views_split _ _ _ Hk Hall) as [Hv Hpre].
  pose proof (gave_up_owned b (S k) (inv_core _ _ Hi)) as Hnd.
  assert (in_use base h (shmem b') ∧ done_writes h (shmem b') = K) as [Hu' Hd'].
  { split; [by eapply in_use_gave_up|]. rewrite <- Hd. by eapply done_gave_up. }
  rewrite Hv in Hf, Hn. rewrite open_part_skip in Hf by done. apply named_tail in Hn; [|done].
  remember (drop (S k) (levels b)) as ds eqn:Hds. clear Hds Hv.
  destruct (stays_open (blockState s)) eqn:Hso.
  - destruct Hfin as [[Ha Hb'] Hp]. cbn in Hf. rewrite Hso in Hf. subst f. cbn [fail_views].
    assert (view_of h <$> levels b' = fail_views (view_of h s :: (view_of h <$> ds))) as Hvs.
    { unfold levels at 1. rewrite fmap_cons, Hp. cbn [fail_views]. f_equal. unfold view_of, v_set_block, v_set_writes. cbn.
      rewrite Hs1, Hs2, Hs3, Hb', Hp. unfold level_writes. rewrite (bool_decide_eq_true_2 (state _ = _)) by done.
      f_equal. by destruct (ds). }
    rewrite Hvs. cbn [fail_views].
    assert (named (fail_views (view_of h s :: (view_of h <$> ds)))) as Hnm.
    { cbn [fail_views]. destruct (view_of h <$> ds); [by apply (named_as (view_of h s))|].
      rewrite named_cons in Hn |- * by done. exact Hn. }
    split; [done|]. split; [|done]. split; [by split|done| | |].
    + rewrite (cur_nest _ _ Hcur'), bool_decide_eq_false_2 by (rewrite Ha; by intros [_ ?]). rewrite Hp. cbn [length]. rewrite length_fmap. lia.
    + intros _ _ Hne. by apply (cur_owner _ _ Hcur'), Hne.
    + cbn. by destruct (view_of h <$> ds).
  - destruct Hfin as [(Hp & Hb' & Ha) Hdrop]. cbn in Hf. rewrite Hso, Hdrop in Hf. cbn in Hf. subst f.
    assert (named [view_of h (CurrentTransactionState b')]) as Hnm.
    { rewrite Hdrop in Hn. by apply (named_as (view_of h s)). }
    unfold levels. rewrite Hp. split; [done|]. eexists. split; [split; [done..|by unfold levels; rewrite Hp]|].
    split; [|done]. pose proof (cur_fresh _ _ Hcur' (or_introl Hb')) as Hfx.
    destruct (owned_nil _ _ _ _ (core_xids _ _ Hc') Hfx) as [_ Hch]. split; try done.
    rewrite (cur_nest _ _ Hcur'), bool_decide_eq_true_2 by done. done.
Qed.
End recovery.

Lemma recover_erred base s c : erred base s c →
  ∃ b', AbortCurrentTransaction (bk c) = (b', Ok tt) ∧ related base None s (mkClient b' false (heap c)).
Proof.
  intros [Hi Hn Hl]. destruct (block_of s) as [x|fs|fs] eqn:Hbs; cbn in Hl; [|done|].
  - destruct Hl as [-> Hr]. destruct (recover base (heap c) (committed s) [] (bk c) Hi Hr) as (b' & Ha & Hnm & v & Hv).
    exists b'. split; [done|]. split; [done..|]. rewrite Hbs. cbn. split; [done|]. exists v. split; [done|].
    destruct Hv as ([_ _ _ Hvs] & _). by rewrite Hvs in Hnm.
  - destruct Hl as (f & Hr & Hfb & <-). destruct (recover base (heap c) (committed s) f (bk c) Hi Hr) as (b' & Ha & _ & Hv).
    exists b'. split; [done|]. split; [done..|]. rewrite Hbs. cbn. exists f. destruct f as [|v f]; [done|]. by destruct Hv.
Qed.

(** ** Transaction commands *)

(** The end of the command after a transaction command. *)
Definition close_block (e : bool) : X unit :=
  (if e then EndImplicitTransactionBlock else mret tt) ;; CommitTransactionCommand.

Lemma frames_fail vs : frames_of (fail_views vs) = fail_frame (frames_of vs).
Proof. by destruct vs. Qed.

Lemma frame_writes_views vs : frame_writes (frames_of vs) = all_writes vs.
Proof. unfold frame_writes, all_writes, frames_of. by rewrite <- list_fmap_compose. Qed.

Lemma find_frame_names n fs : find_frame n fs = find_name n (fst <$> fs).
Proof. induction fs as [|[m w] fs IH]; [done|]. cbn. by rewrite IH. Qed.

Lemma frames_names vs : fst <$> frames_of vs = v_name <$> vs.
Proof. unfold frames_of. by rewrite <- list_fmap_compose. Qed.

Section commands.
Context (base : Z) (h : list Z) (s : content).
Abbreviation K := (committed s).
Abbreviation live := (live base h K).

(** The backend after a statement that succeeded, and after one that failed. *)
Definition outcome (st : RawStmt) (b : backend) : Prop :=
  ∃ s', succeed st s = Some s' ∧ next_write s' = next_write s ∧ implements base h (committed s') (block_of s') None b.

Definition mishap (st : RawStmt) (b : backend) : Prop :=
  ∃ s', s' ∈ fails st s ∧ next_write s' = next_write s ∧ leaves base h (committed s') (block_of s') b.

Lemma after_error_mishap st b : leaves base h K (block_of (after_error s)) b → mishap st b.
Proof. intros H. exists (after_error s). split; [left|done]. Qed.

(** The result of a command ignored. *)
Lemma safe_ignore {A} E P (m : X A) Q : safe base E P m (λ _, Q) → safe base E P (m ;; mret tt) (λ _, Q).
Proof. intros H. eapply safe_bind; [exact H|]. intros a. by apply safe_ret. Qed.

(** The commands that end an implicit block leave a marked one alone. *)
Lemma close_block_safe E e vs st Q : (v_block <$> head vs) ≠ Some TBLOCK_IMPLICIT_INPROGRESS →
  safe base E (live vs st) CommitTransactionCommand Q → safe base E (live vs st) (close_block e) Q.
Proof.
  intros Hv H. eapply safe_then; [|exact H]. destruct e; [|by apply safe_ret].
  destruct vs as [|v vs]; [intros b Hb; by apply live_length in Hb|].
  eapply safe_gets; [intros b Hb; exact (live_block _ _ _ _ _ _ _ Hb)|]. rewrite bool_decide_eq_false_2; [by apply safe_ret|].
  cbn in Hv. congruence.
Qed.

Definition in_block (bs : TBlockState) : bool :=
  match bs with TBLOCK_DEFAULT | TBLOCK_STARTED | TBLOCK_IMPLICIT_INPROGRESS => false | _ => true end.

(** A transaction block lets the commands that need one pass. *)
Lemma require_block E v vs st msg (m : X unit) Q : in_block (v_block v) = true →
  safe base E (live (v :: vs) st) m Q → safe base E (live (v :: vs) st) (RequireTransactionBlock true msg ;; m) Q.
Proof.
  intros Hv. apply safe_at. intros b Hb. unfold RequireTransactionBlock, CheckTransactionBlock, IsTransactionBlock, get, mbind, M_bind.
  rewrite (live_block _ _ _ _ _ _ _ Hb). by destruct (v_block v).
Qed.

Lemma ended_outcome K' chn b : block_ended base h chn K' b → implements base h K' (fresh_block chn) None b.
Proof.
  destruct chn; intros (v & Hv & H); [|by split; [done|exists v]]. destruct H as (Hb & Hw & Hn). exists [v].
  split_and!; [done|done| |done]. unfold frames_of. cbn. apply named_one in Hn as [_ ->]. by rewrite Hw.
Qed.

Lemma length_marks sub top chn vs : length (mark_views sub top chn vs) = length vs.
Proof. pose proof (f_equal length (mark_views_names sub top chn vs)) as H. by rewrite !length_fmap in H. Qed.

(** ** Outside of a block *)

Section auto.
Context (x : gset nat) (Hs : block_of s = Auto x) (v : view).
Context (Hb : v_block v ∈ [TBLOCK_STARTED; TBLOCK_IMPLICIT_INPROGRESS]) (Hw : v_writes v = x) (Hn : named [v]).

Lemma auto_lost st b : recoverable base h K [] b → mishap st b.
Proof. intros H. apply after_error_mishap. unfold after_error. by rewrite Hs. Qed.

Lemma auto_fits : fits [] [v] TRANS_INPROGRESS.
Proof. rewrite elem_of_cons, list_elem_of_singleton in Hb. cbn. by destruct Hb as [-> | ->]. Qed.

Lemma auto_report st {A} msg Q : safe base (mishap st) (live [v] TRANS_INPROGRESS) (fail (ErrReport msg) : X A) Q.
Proof.
  apply safe_report. intros b Hl. destruct (live_inv base h K [] _ _ b Hl auto_fits) as [Hi Hr]. split; [done|by apply auto_lost].
Qed.

Lemma auto_begin e : safe base (mishap (TransactionStmt TRANS_STMT_BEGIN)) (live [v] TRANS_INPROGRESS)
  (standard_ProcessUtility TRANS_STMT_BEGIN ;; close_block e) (λ _, outcome (TransactionStmt TRANS_STMT_BEGIN)).
Proof.
  set (v' := v_set_block TBLOCK_BEGIN v). assert (named [v']) as Hn' by (by apply (named_as v)).
  eapply (safe_then _ _ _ _ (live [v'] TRANS_INPROGRESS)).
  - eapply (safe_then _ _ _ _ (live [v'] TRANS_INPROGRESS)).
    + eapply safe_gets; [intros b Hl; exact (live_block _ _ _ _ _ _ _ Hl)|]. rewrite elem_of_cons, list_elem_of_singleton in Hb.
      destruct Hb as [-> | ->]; by apply block_live.
    + eapply safe_weaken; [by apply (subsystem_live base h K [])|apply auto_lost].
  - apply close_block_safe; [done|]. eapply safe_conseq; [apply (commit_command_begin base h K _ v'); done|done|]. intros [] b Hl.
    eexists. unfold succeed. rewrite Hs. split_and!; [done..|]. cbn. eexists. split_and!; [exact Hl|done| |by apply (named_as v)].
    unfold frames_of. cbn. apply named_one in Hn as [_ Hn]. by rewrite Hn, Hw.
Qed.

(** The message of a command outside of a block. *)
Lemma no_transaction_live E cmd : safe base E (live [v] TRANS_INPROGRESS) (no_transaction false cmd) (λ _, live [v] TRANS_INPROGRESS).
Proof. apply safe_modify. intros b Hl. by eapply live_frame. Qed.

Lemma auto_rest K' w b : named [w] → at_rest base h K' w b → implements base h K' (Auto ∅) None b.
Proof. intros Hnw Hr. split; [done|]. by exists w. Qed.

Lemma auto_commit e : safe base (mishap (TransactionStmt (TRANS_STMT_COMMIT false))) (live [v] TRANS_INPROGRESS)
  (standard_ProcessUtility (TRANS_STMT_COMMIT false) ;; close_block e) (λ _, outcome (TransactionStmt (TRANS_STMT_COMMIT false))).
Proof.
  assert (Hout : ∀ b, implements base h (K ∪ x) (Auto ∅) None b → outcome (TransactionStmt (TRANS_STMT_COMMIT false)) b).
  { intros b Hi. eexists. unfold succeed. rewrite Hs. by split_and!. }
  rewrite elem_of_cons, list_elem_of_singleton in Hb. destruct Hb as [Hv|Hv].
  - set (v' := v_set_chain false v). eapply (safe_then _ _ _ _ (live [v'] TRANS_INPROGRESS)).
    + apply safe_ignore.
      eapply safe_gets; [intros b Hl; exact (live_block _ _ _ _ _ _ _ Hl)|]. rewrite Hv.
      eapply safe_then; [apply no_transaction_live|]. eapply safe_then; [apply chain_live|]. by apply safe_ret.
    + apply close_block_safe; [cbn; by rewrite Hv|]. eapply safe_conseq; [eapply safe_weaken; [apply (commit_command_started base h K v')|]|done|].
      * done.
      * by apply (named_as v).
      * apply auto_lost.
      * intros [] b Hr. apply Hout. rewrite <- Hw. eapply auto_rest; [|exact Hr]. by apply (named_as v).
  - set (v' := v_set_chain false (v_set_block TBLOCK_END v)). eapply (safe_then _ _ _ _ (live [v'] TRANS_INPROGRESS)).
    + apply safe_ignore.
      eapply safe_gets; [intros b Hl; exact (live_block _ _ _ _ _ _ _ Hl)|]. rewrite Hv.
      eapply safe_then; [apply no_transaction_live|]. eapply safe_then; [by apply block_live|].
      eapply safe_then; [apply chain_live|]. by apply safe_ret.
    + apply close_block_safe; [done|]. eapply safe_conseq; [eapply safe_weaken; [apply (commit_command_end base h K v')|]|done|].
      * done.
      * by apply (named_as v).
      * intros b [Hr|[? _]]; [by apply auto_lost|done].
      * intros [] b Hr. apply Hout. rewrite <- Hw. eapply auto_rest; [|exact Hr]. by apply (named_as v).
Qed.

Lemma auto_rollback e : safe base (mishap (TransactionStmt (TRANS_STMT_ROLLBACK false))) (live [v] TRANS_INPROGRESS)
  (standard_ProcessUtility (TRANS_STMT_ROLLBACK false) ;; close_block e) (λ _, outcome (TransactionStmt (TRANS_STMT_ROLLBACK false))).
Proof.
  set (v' := mark_views TBLOCK_SUBABORT_PENDING TBLOCK_ABORT_PENDING false [v]). eapply (safe_then _ _ _ _ (live v' TRANS_INPROGRESS)).
  - eapply safe_gets; [intros b Hl; exact (live_block _ _ _ _ _ _ _ Hl)|]. rewrite elem_of_cons, list_elem_of_singleton in Hb.
    destruct Hb as [-> | ->]; (eapply safe_then; [apply no_transaction_live|]; eapply safe_then; [by apply block_live|]; apply chain_live).
  - apply close_block_safe; [done|]. apply commit_command_fuel. eapply safe_conseq; [eapply safe_weaken; [by apply (commit_command_rollback base h K false [] v)|]|done|].
    + by intros b [? _].
    + intros [] b (w & Hr & Hnw). eexists. unfold succeed. rewrite Hs. split_and!; [done..|]. by eapply auto_rest.
Qed.

(** The commands that need a block. *)
Definition needs_block (kind : TransactionStmtKind) : bool :=
  match kind with
  | TRANS_STMT_BEGIN | TRANS_STMT_COMMIT false | TRANS_STMT_ROLLBACK false => false
  | _ => true
  end.

Lemma auto_refused kind : needs_block kind = true →
  ∃ msg, ∀ b, live [v] TRANS_INPROGRESS b → standard_ProcessUtility kind b = (b, Err (ErrReport msg)).
Proof.
  intros Hk. rewrite elem_of_cons, list_elem_of_singleton in Hb.
  destruct kind as [|[]|[]|n|n|n]; try done; destruct Hb as [Hv|Hv]; eexists; intros b Hl;
    pose proof (live_block _ _ _ _ _ _ _ Hl) as Hbs; rewrite Hv in Hbs; pose proof (live_nest _ _ _ _ _ _ Hl) as Hnl;
    pose proof (live_not_parallel _ _ _ _ _ _ Hl) as Hnp;
    unfold standard_ProcessUtility, EndTransactionBlock, UserAbortTransactionBlock, RequireTransactionBlock, CheckTransactionBlock,
      DefineSavepoint, ReleaseSavepoint, RollbackToSavepoint, IsTransactionBlock, IsSubTransaction, gets, get, mbind, M_bind, compose;
    rewrite ?Hbs, ?Hnl; unfold mret, M_ret; rewrite ?Hnp, ?Hbs; reflexivity.
Qed.

Lemma auto_refuses kind e : needs_block kind = true →
  safe base (mishap (TransactionStmt kind)) (live [v] TRANS_INPROGRESS) (standard_ProcessUtility kind ;; close_block e)
    (λ _, outcome (TransactionStmt kind)).
Proof.
  intros Hk. destruct (auto_refused kind Hk) as [msg Hm]. apply safe_at with (fail (ErrReport msg)); [|apply auto_report].
  intros b Hl. unfold mbind, M_bind. by rewrite Hm.
Qed.

Lemma auto_command kind e : safe base (mishap (TransactionStmt kind)) (live [v] TRANS_INPROGRESS)
  (standard_ProcessUtility kind ;; close_block e) (λ _, outcome (TransactionStmt kind)).
Proof.
  destruct (needs_block kind) eqn:Hk; [by apply auto_refuses|].
  destruct kind as [|[]|[]|n|n|n]; try done; [apply auto_begin|apply auto_commit|apply auto_rollback].
Qed.
End auto.

(** ** In a block *)

Section block.
Context (fs : list frame) (v : view) (vs : list view) (Hf : frames_of (v :: vs) = fs) (Hn : named (v :: vs)).

Lemma block_lost st b : block_of s = Open fs ∨ block_of s = Failed fs → steady (v_block <$> v :: vs) ∨ failed_blocks (v_block <$> v :: vs) →
  recoverable base h K (fail_views (v :: vs)) b → mishap st b.
Proof.
  intros Hs Hv Hr. apply after_error_mishap. assert (block_of (after_error s) = Failed (fail_frame fs)) as -> by (unfold after_error; by destruct Hs as [-> | ->]).
  exists (fail_views (v :: vs)). split_and!; [done|by apply fail_views_failed|]. by rewrite frames_fail, Hf.
Qed.

(** The frames around a savepoint. *)
Lemma target_frames pre tgt p rest : v :: vs = pre ++ tgt :: p :: rest →
  drop (length pre) fs = frames_of (tgt :: p :: rest) ∧ drop (S (length pre)) fs = frames_of (p :: rest) ∧
  take (S (length pre)) fs = frames_of (pre ++ [tgt]).
Proof.
  intros He. rewrite <- Hf, He. unfold frames_of. split_and!.
  - rewrite fmap_app, drop_app_length'; [done|]. by rewrite length_fmap.
  - rewrite cons_middle, app_assoc, fmap_app, drop_app_length'; [done|]. rewrite length_fmap, length_app. cbn. lia.
  - rewrite cons_middle, app_assoc, fmap_app, take_app_length'; [done|]. rewrite length_fmap, length_app. cbn. lia.
Qed.

Lemma target_found n i : find_name n (v_name <$> v :: vs) = Some i → find_frame n fs = Some i.
Proof. by rewrite find_frame_names, <- Hf, frames_names. Qed.

Lemma target_lost st pre tgt p rest b : v :: vs = pre ++ tgt :: p :: rest → steady (v_block <$> p :: rest) →
  with_block_of (Failed (fail_frame (drop (S (length pre)) fs))) s ∈ fails st s →
  recoverable base h K (fail_views (p :: rest)) b → mishap st b.
Proof.
  intros He Hs Hin Hr. eexists. split; [exact Hin|]. split; [done|]. exists (fail_views (p :: rest)).
  destruct (target_frames _ _ _ _ He) as (_ & -> & _). split_and!; [done|by apply fail_views_failed; left|apply frames_fail].
Qed.

Lemma restarted_outcome n pre tgt p rest b : v :: vs = pre ++ tgt :: p :: rest → steady (v_block <$> p :: rest) →
  find_name n (v_name <$> v :: vs) = Some (length pre) → block_of s = Open fs ∨ block_of s = Failed fs →
  live (restarted tgt :: p :: rest) TRANS_INPROGRESS b → outcome (TransactionStmt (TRANS_STMT_ROLLBACK_TO n)) b.
Proof.
  intros He Hs Hi Hbs Hb. apply target_found in Hi. destruct (target_frames _ _ _ _ He) as (Hd & _ & _).
  exists (with_block_of (Open (restart_frames (length pre) fs)) s). unfold succeed.
  split; [destruct Hbs as [-> | ->]; by rewrite Hi|]. split; [done|]. exists (restarted tgt :: p :: rest). split_and!; [done..| |].
  - unfold restart_frames. by rewrite Hd.
  - rewrite He in Hn. apply named_tail in Hn; [|done]. by rewrite named_cons in Hn |- *.
Qed.
End block.

(** The end of a block with all its levels marked. *)
Lemma last_split (v : view) vs : ∃ pre tgt, v :: vs = pre ++ [tgt].
Proof. destruct (exists_last (l := v :: vs) ltac:(done)) as (pre & tgt & ->). by exists pre, tgt. Qed.

Lemma marked_head sub top chn vs : sub ≠ TBLOCK_IMPLICIT_INPROGRESS → top ≠ TBLOCK_IMPLICIT_INPROGRESS →
  (v_block <$> head (mark_views sub top chn vs)) ≠ Some TBLOCK_IMPLICIT_INPROGRESS.
Proof. intros H1 H2. destruct vs as [|v [|w vs]]; cbn; congruence. Qed.

Lemma steady_closed v vs : steady (v_block <$> v :: vs) → in_block (v_block v) = true.
Proof.
  intros Hs. apply steady_head in Hs. rewrite elem_of_cons, list_elem_of_singleton in Hs. by destruct Hs as [-> | ->].
Qed.

Lemma failed_closed v vs : failed_blocks (v_block <$> v :: vs) → in_block (v_block v) = true.
Proof. destruct vs as [|p vs]; [by intros ->|by intros [-> _]]. Qed.

Section open.
Context (fs : list frame) (Hs : block_of s = Open fs).
Context (v : view) (vs : list view) (Hv : steady (v_block <$> v :: vs)) (Hf : frames_of (v :: vs) = fs) (Hn : named (v :: vs)).

Lemma open_lost st b : recoverable base h K (fail_views (v :: vs)) b → mishap st b.
Proof. apply (block_lost fs); auto. Qed.

Lemma open_close E e Q : safe base E (live (v :: vs) TRANS_INPROGRESS) CommitTransactionCommand Q →
  safe base E (live (v :: vs) TRANS_INPROGRESS) (close_block e) Q.
Proof. apply close_block_safe. cbn. intros [= H]. pose proof (steady_closed _ _ Hv) as Hc. by rewrite H in Hc. Qed.

Lemma open_begin e : safe base (mishap (TransactionStmt TRANS_STMT_BEGIN)) (live (v :: vs) TRANS_INPROGRESS)
  (standard_ProcessUtility TRANS_STMT_BEGIN ;; close_block e) (λ _, outcome (TransactionStmt TRANS_STMT_BEGIN)).
Proof.
  eapply safe_weaken; [|apply open_lost]. eapply (safe_then _ _ _ _ (live (v :: vs) TRANS_INPROGRESS)).
  - eapply (safe_then _ _ _ _ (live (v :: vs) TRANS_INPROGRESS)); [|by apply subsystem_live, steady_fits].
    eapply safe_gets; [intros b Hl; exact (live_block _ _ _ _ _ _ _ Hl)|].
    apply steady_head in Hv. rewrite elem_of_cons, list_elem_of_singleton in Hv.
    destruct Hv as [-> | ->]; apply safe_modify; intros b Hl; by eapply live_frame.
  - apply open_close. eapply safe_conseq; [by apply commit_command_steady|done|]. intros [] b Hl. exists s. unfold succeed.
    rewrite Hs. split_and!; [done..|]. by exists (v :: vs).
Qed.

(** The marks of [COMMIT] and [ROLLBACK]. *)
Lemma open_commit_marks E chn : safe base E (live (v :: vs) TRANS_INPROGRESS) (EndTransactionBlock chn)
  (λ _, live (mark_views TBLOCK_SUBCOMMIT TBLOCK_END chn (v :: vs)) TRANS_INPROGRESS).
Proof.
  eapply safe_gets; [intros b Hl; exact (live_block _ _ _ _ _ _ _ Hl)|]. destruct vs as [|w ws].
  - cbn in Hv. rewrite Hv. eapply safe_then; [by apply block_live|]. eapply safe_then; [apply chain_live|]. by apply safe_ret.
  - pose proof Hv as [Hb _]. rewrite Hb. eapply safe_then; [apply mark_stack_steady; [done..|by left|done]|]. by apply safe_ret.
Qed.

Lemma open_rollback_marks E chn : safe base E (live (v :: vs) TRANS_INPROGRESS) (UserAbortTransactionBlock chn)
  (λ _, live (mark_views TBLOCK_SUBABORT_PENDING TBLOCK_ABORT_PENDING chn (v :: vs)) TRANS_INPROGRESS).
Proof.
  eapply safe_gets; [intros b Hl; exact (live_block _ _ _ _ _ _ _ Hl)|]. destruct vs as [|w ws].
  - cbn in Hv. rewrite Hv. eapply safe_then; [by apply block_live|]. apply chain_live.
  - pose proof Hv as [Hb _]. rewrite Hb. apply mark_stack_steady; [done..|by right|done].
Qed.

Lemma open_commit chn e : safe base (mishap (TransactionStmt (TRANS_STMT_COMMIT chn))) (live (v :: vs) TRANS_INPROGRESS)
  (standard_ProcessUtility (TRANS_STMT_COMMIT chn) ;; close_block e) (λ _, outcome (TransactionStmt (TRANS_STMT_COMMIT chn))).
Proof.
  eapply safe_then; [apply safe_ignore, open_commit_marks|]. apply close_block_safe; [by apply marked_head|].
  pose proof (f_equal frame_writes Hf) as Hw. rewrite frame_writes_views in Hw. destruct (last_split v vs) as (pre & tgt & He).
  rewrite He in Hn, Hw |- *. eapply safe_conseq; [eapply safe_weaken; [by apply commit_command_commit|]|done|]; rewrite Hw.
  - intros b [Hr|[-> Hr]].
    + exists (with_block_of (Auto ∅) s). split; [|done]. right. rewrite Hs. left.
    + exists (commit_writes (frame_writes fs) (Auto ∅) s). split; [|done]. right. rewrite Hs. right. left.
  - intros [] b Hb. exists (commit_writes (frame_writes fs) (fresh_block chn) s). unfold succeed. rewrite Hs.
    split; [by destruct chn|]. split; [done|]. by apply ended_outcome.
Qed.

Lemma open_rollback chn e : safe base (mishap (TransactionStmt (TRANS_STMT_ROLLBACK chn))) (live (v :: vs) TRANS_INPROGRESS)
  (standard_ProcessUtility (TRANS_STMT_ROLLBACK chn) ;; close_block e) (λ _, outcome (TransactionStmt (TRANS_STMT_ROLLBACK chn))).
Proof.
  eapply safe_then; [apply open_rollback_marks|]. apply close_block_safe; [by apply marked_head|].
  apply commit_command_fuel. rewrite length_marks. destruct (last_split v vs) as (pre & tgt & He).
  rewrite He in Hn |- *. eapply safe_conseq; [eapply safe_weaken; [by apply commit_command_rollback|]|done|].
  - intros b [-> Hr]. exists (with_block_of (Auto ∅) s). split; [|done]. right. rewrite Hs. left.
  - intros [] b Hb. exists (with_block_of (fresh_block chn) s). unfold succeed. rewrite Hs.
    split; [by destruct chn|]. split; [done|]. by apply ended_outcome.
Qed.

Lemma open_savepoint n e : safe base (mishap (TransactionStmt (TRANS_STMT_SAVEPOINT n))) (live (v :: vs) TRANS_INPROGRESS)
  (standard_ProcessUtility (TRANS_STMT_SAVEPOINT n) ;; close_block e) (λ _, outcome (TransactionStmt (TRANS_STMT_SAVEPOINT n))).
Proof.
  eapply safe_weaken; [|apply open_lost]. pose proof (steady_closed _ _ Hv) as Hc.
  eapply safe_then; [apply require_block; [done|by apply define_savepoint_safe]|]. apply close_block_safe; [done|].
  set (w := v_set_name (Some n) (v_savepointLevel v) (new_view v)). assert (named (w :: v :: vs)) as Hw.
  { apply named_cons; [done|]. split; [|done]. destruct Hn as [Hz _]. by apply list.Forall_cons in Hz as [Hz _]. }
  pose proof (commit_command_subbegin base h K w (v :: vs) eq_refl ltac:(done) Hw) as H. rewrite steady_open in H by done.
  eapply safe_conseq; [exact H|done|].
  intros [] b Hb. exists (with_block_of (Open ((Some n, ∅) :: fs)) s). unfold succeed. rewrite Hs. split_and!; [done..|].
  eexists. split_and!; [exact Hb|done| |].
  - by rewrite <- Hf.
  - by rewrite named_cons in Hw |- *.
Qed.

Lemma open_release n e : safe base (mishap (TransactionStmt (TRANS_STMT_RELEASE n))) (live (v :: vs) TRANS_INPROGRESS)
  (standard_ProcessUtility (TRANS_STMT_RELEASE n) ;; close_block e) (λ _, outcome (TransactionStmt (TRANS_STMT_RELEASE n))).
Proof.
  eapply safe_bind; [eapply safe_weaken; [apply require_block; [by eapply steady_closed|by apply release_marks]|apply open_lost]|].
  intros [] b (pre & tgt & p & rest & He & Hi & Hl). revert b Hl. pose proof Hv as Hv'. rewrite He in Hv', Hn.
  apply steady_app in Hv' as [_ [Ht Hp]]; [|done]. set (ms := v_set_block TBLOCK_SUBRELEASE <$> pre ++ [tgt]).
  assert ((v_set_block TBLOCK_SUBRELEASE <$> pre) ++ v_set_block TBLOCK_SUBRELEASE tgt :: p :: rest = ms ++ p :: rest) as ->
    by (unfold ms; by rewrite fmap_app, <- app_assoc).
  assert (named (ms ++ p :: rest)) as Hm.
  { eapply named_ext; [|exact Hn]. unfold ms. by rewrite !fmap_app, <- !list_fmap_compose, <- app_assoc. }
  assert (Forall (λ v, v_block v = TBLOCK_SUBRELEASE) ms) as Hms by (apply Forall_fmap; by apply list.Forall_forall).
  assert (all_writes ms = frame_writes (take (S (length pre)) fs)) as Hw.
  { destruct (target_frames fs v vs Hf _ _ _ _ He) as (_ & _ & ->). unfold ms. by rewrite all_writes_blocks, frame_writes_views. }
  assert (ms ≠ []) as Hne by (unfold ms; by destruct pre). clearbody ms. destruct ms as [|m ms]; [done|].
  apply list.Forall_cons in Hms as [Hmb Hms]. apply target_found with (fs := fs) in Hi; [|done].
  change (safe base (mishap (TransactionStmt (TRANS_STMT_RELEASE n))) (live (m :: ms ++ p :: rest) TRANS_INPROGRESS) (close_block e)
    (λ _, outcome (TransactionStmt (TRANS_STMT_RELEASE n)))).
  apply close_block_safe; [cbn; by rewrite Hmb|].
  eapply safe_conseq; [eapply safe_weaken; [by apply (commit_command_release base h K ms)|]|done|].
  - intros b. eapply target_lost; [done..|]. right. rewrite Hs, Hi. left.
  - intros [] b Hb. exists (with_block_of (Open (release_frames (length pre) fs)) s). unfold succeed. rewrite Hs, Hi.
    split_and!; [done..|]. eexists. split_and!; [exact Hb|done| |].
    + destruct (target_frames fs v vs Hf _ _ _ _ He) as (_ & Hd & _). unfold release_frames. by rewrite Hd, <- Hw.
    + eapply named_ext; [|eapply (named_tail (pre ++ [tgt])); [|rewrite <- app_assoc; exact Hn]]; done.
Qed.

Lemma open_rollback_to n e : safe base (mishap (TransactionStmt (TRANS_STMT_ROLLBACK_TO n))) (live (v :: vs) TRANS_INPROGRESS)
  (standard_ProcessUtility (TRANS_STMT_ROLLBACK_TO n) ;; close_block e) (λ _, outcome (TransactionStmt (TRANS_STMT_ROLLBACK_TO n))).
Proof.
  eapply safe_bind; [eapply safe_weaken; [apply require_block; [by eapply steady_closed|by apply rollback_marks]|apply open_lost]|].
  intros [] b (pre & tgt & p & rest & He & Hi & Hl). revert b Hl. pose proof Hv as Hv'. rewrite He in Hv'.
  apply steady_app in Hv' as [_ [Ht Hp]]; [|done]. pose proof (target_found fs v vs Hf _ _ Hi) as Hi'.
  apply (close_block_safe (mishap _) e); [by destruct pre|]. apply commit_command_fuel.
  rewrite length_app, length_fmap. change (length (?x :: p :: rest)) with (length (tgt :: p :: rest)). rewrite <- length_app.
  eapply safe_conseq; [eapply safe_weaken; [apply commit_command_rollback_to; [done|by rewrite <- He]|]|done|].
  - intros b. eapply target_lost; [done..|]. right. rewrite Hs, Hi'. left.
  - intros [] b. eapply restarted_outcome; [done..|by left].
Qed.

Lemma open_command kind e : safe base (mishap (TransactionStmt kind)) (live (v :: vs) TRANS_INPROGRESS)
  (standard_ProcessUtility kind ;; close_block e) (λ _, outcome (TransactionStmt kind)).
Proof.
  destruct kind; [apply open_begin|apply open_commit|apply open_rollback|apply open_savepoint|apply open_release|apply open_rollback_to].
Qed.
End open.

Section failed.
Context (fs : list frame) (Hs : block_of s = Failed fs).
Context (v : view) (vs : list view) (Hv : failed_blocks (v_block <$> v :: vs)) (Hf : frames_of (v :: vs) = fs) (Hn : named (v :: vs)).

Lemma failed_lost st b : recoverable base h K (fail_views (v :: vs)) b → mishap st b.
Proof. apply (block_lost fs); auto. Qed.

(** [COMMIT] and [ROLLBACK] do the same to a failed block. *)
Definition ends_block (chn : bool) (kind : TransactionStmtKind) : Prop :=
  kind = TRANS_STMT_COMMIT chn ∨ kind = TRANS_STMT_ROLLBACK chn.

Lemma failed_end_marks E chn kind : ends_block chn kind →
  safe base E (live (v :: vs) TRANS_ABORT) (standard_ProcessUtility kind)
    (λ _, match vs with
          | [] => live [v_set_chain chn (v_set_block TBLOCK_ABORT_END v)] TRANS_ABORT
          | _ => live (v_set_block TBLOCK_SUBABORT_END v :: mark_views TBLOCK_SUBABORT_PENDING TBLOCK_ABORT_PENDING chn vs) TRANS_ABORT
          end).
Proof.
  intros Hk. destruct vs as [|w ws].
  - cbn in Hv. destruct Hk as [-> | ->]; [apply safe_ignore|]; (eapply safe_gets; [intros b Hl; exact (live_block _ _ _ _ _ _ _ Hl)|]);
      rewrite Hv; (eapply safe_then; [by apply block_live|]); [|apply chain_live].
    eapply safe_then; [apply chain_live|]. by apply safe_ret.
  - pose proof Hv as [Hb _]. destruct Hk as [-> | ->]; [apply safe_ignore|]; (eapply safe_gets; [intros b Hl; exact (live_block _ _ _ _ _ _ _ Hl)|]);
      rewrite Hb; [eapply safe_then; [by apply mark_stack_failed|]; by apply safe_ret|by apply mark_stack_failed].
Qed.

Lemma failed_end chn kind e : ends_block chn kind → safe base (mishap (TransactionStmt kind)) (live (v :: vs) TRANS_ABORT)
  (standard_ProcessUtility kind ;; close_block e) (λ _, outcome (TransactionStmt kind)).
Proof.
  intros Hk. eapply safe_bind; [by apply failed_end_marks|]. intros [].
  assert (∀ b, chn = true ∧ recoverable base h K [] b → mishap (TransactionStmt kind) b) as Hmis.
  { intros b [-> Hr]. exists (with_block_of (Auto ∅) s). split; [|done]. right. rewrite Hs. destruct Hk as [-> | ->]; left. }
  assert (∀ b, block_ended base h chn K b → outcome (TransactionStmt kind) b) as Hout.
  { intros b Hb. exists (with_block_of (fresh_block chn) s). unfold succeed. rewrite Hs.
    split; [destruct Hk as [-> | ->]; by destruct chn|]. split; [done|]. by apply ended_outcome. }
  destruct vs as [|w ws]; apply close_block_safe; try done;
    (eapply (safe_conseq _ _ _ _ _ (λ _, block_ended base h chn K)); [eapply safe_weaken; [|exact Hmis]|done|intros []; exact Hout]).
  - by apply commit_command_abort_end.
  - rewrite named_cons in Hn by done. destruct Hn as [_ Hn'], (last_split w ws) as (pre & tgt & He).
    rewrite He in Hn' |- *. by apply commit_command_failed_rollback.
Qed.

Lemma failed_rollback_to n e : safe base (mishap (TransactionStmt (TRANS_STMT_ROLLBACK_TO n))) (live (v :: vs) TRANS_ABORT)
  (standard_ProcessUtility (TRANS_STMT_ROLLBACK_TO n) ;; close_block e) (λ _, outcome (TransactionStmt (TRANS_STMT_ROLLBACK_TO n))).
Proof.
  eapply safe_bind; [eapply safe_weaken; [apply require_block; [by eapply failed_closed|by apply failed_rollback_marks]|apply failed_lost]|].
  intros [] b (pre & tgt & p & rest & He & Hi & Hl). revert b Hl. pose proof (target_found fs v vs Hf _ _ Hi) as Hi'.
  assert (steady (v_block <$> p :: rest)) as Hp.
  { rewrite He in Hv. destruct pre as [|w pre]; [by destruct Hv|].
    assert (steady (v_block <$> pre ++ tgt :: p :: rest)) as Hst by (by destruct pre; destruct Hv). by apply steady_app in Hst as [_ [_ ?]]. }
  apply (close_block_safe (mishap _) e); [by destruct pre|].
  eapply safe_conseq; [eapply safe_weaken; [apply commit_command_failed_rollback_to; [done|by rewrite <- He]|]|done|].
  - intros b. eapply target_lost; [done..|]. right. rewrite Hs, Hi'. left.
  - intros [] b. eapply restarted_outcome; [done..|by right].
Qed.

Lemma failed_command kind e : IsTransactionExitStmt (TransactionStmt kind) = true →
  safe base (mishap (TransactionStmt kind)) (live (v :: vs) TRANS_ABORT)
    (standard_ProcessUtility kind ;; close_block e) (λ _, outcome (TransactionStmt kind)).
Proof.
  destruct kind as [|chn|chn|n|n|n]; try done; intros _; [apply (failed_end chn); by left|apply (failed_end chn); by right|apply failed_rollback_to].
Qed.
End failed.
End commands.

(** ** Writes *)

Lemma writes_snoc P h x : writes P (h ++ [x]) = if P x then writes P h ∪ {[length h]} else writes P h.
Proof.
  assert (∀ i, i ∈ writes P (h ++ [x]) ↔ i ∈ writes P h ∨ (P x = true ∧ i = length h)) as H.
  { intros i. rewrite !elem_of_writes. split.
    - intros (y & [Hy|[Hi Hy]]%lookup_snoc_Some & Hp); [left; exists y; tauto|right; subst; auto].
    - intros [(y & Hy & Hp)|[Hp ->]]; [exists y|exists x]; (split; [|done]); apply lookup_snoc_Some; [left|by right].
      split; [by apply lookup_lt_Some in Hy|done]. }
  apply leibniz_equiv. intros i. rewrite H. destruct (P x); [rewrite elem_of_union, elem_of_singleton; tauto|].
  split; [by intros [?|[? _]]|by left].
Qed.

Section writing.
Context (base : Z) (h : list Z) (K : gset nat).

(** A write under the id of the current level. *)
Lemma write_live v vs b : live base h K (v :: vs) TRANS_INPROGRESS b →
  fullTransactionId (CurrentTransactionState b) ≠ InvalidFullTransactionId →
  live base (h ++ [XidFromFullTransactionId (fullTransactionId (CurrentTransactionState b))]) K
    (v_set_writes (v_writes v ∪ {[length h]}) v :: vs) TRANS_INPROGRESS b.
Proof.
  intros Hl Hne. set (s := CurrentTransactionState b). set (x := XidFromFullTransactionId _).
  pose proof (live_core _ _ _ _ _ _ Hl) as Hc. pose proof (core_xids _ _ Hc) as Hx. unfold levels in Hx.
  assert (x ∈ owned s) as Hin by (unfold owned, s; rewrite (proj2 (Z.eqb_neq _ _) Hne); left).
  pose proof (core_status _ _ Hc) as Hst. apply list.Forall_cons in Hst as [Hst _]. unfold level_status in Hst.
  rewrite list.Forall_forall in Hst. specialize (Hst x Hin). rewrite (live_state _ _ _ _ _ _ Hl) in Hst. cbn in Hst.
  pose proof (live_view _ _ _ _ _ _ _ Hl) as Hv. pose proof (live_parents _ _ _ _ _ _ _ Hl) as Hps.
  destruct Hl as [[_ Hu Hd _] H2 H3 H4 H5]. split; [split|done|done|done|done]; [done|..].
  - apply Forall_app. split; [done|]. apply Forall_singleton.
    destruct (owned_full _ _ _ _ _ Hx Hin) as (f & Hf & Hn & Hr & _). by exists f.
  - unfold done_writes. rewrite writes_snoc, Hst. exact Hd.
  - unfold levels. rewrite fmap_cons. f_equal.
    + rewrite Hv. unfold view_of, v_set_writes, level_writes. cbn [v_name v_savepointLevel v_block v_chain v_writes].
      rewrite (bool_decide_eq_false_2 (state _ = _)) by (by rewrite H2). by rewrite writes_snoc, (bool_decide_eq_true_2 (x ∈ _)).
    + rewrite <- Hps. apply list_fmap_ext. intros i p Hp. unfold view_of, level_writes. destruct (bool_decide (state p = TRANS_ABORT)); [done|].
      rewrite writes_snoc, bool_decide_eq_false_2; [done|]. intros Hpx.
      eapply (owned_disjoint _ _ s (parents b) p x Hx); [|by eapply list_elem_of_lookup_2|done|done].
      pose proof (lim_window _ _ (sh_limits _ _ (core_shared _ _ Hc))). lia.
Qed.
End writing.

(** ** Steps of a query *)

Section states.
Context (base : Z) (h : list Z).

Lemma implements_frame K bc o b b' : implements base h K bc o b →
  shmem b' = shmem b → XactTopFullTransactionId b' = XactTopFullTransactionId b →
  IsParallelWorker b' = IsParallelWorker b → levels b' = levels b → implements base h K bc o b'.
Proof.
  intros Hi Hs Ht Hp Hl. destruct bc as [x|fs|fs]; [destruct o as [u|]|..]; cbn in Hi |- *.
  - destruct Hi as (v & Hv & H). exists v. split; [by eapply live_frame|done].
  - destruct Hi as (Hx & v & (Ht' & Hb & Hv) & Hn). split; [done|]. exists v. split; [|done].
    split; [by eapply tracked_frame|]. split; [|done]. unfold levels in Hl. by injection Hl as -> _.
  - destruct Hi as (vs & Hv & H). exists vs. split; [by eapply live_frame|done].
  - destruct Hi as (vs & Hv & H). exists vs. split; [by eapply live_frame|done].
Qed.

Lemma auto_blocks_sub u bs : bs ∈ auto_blocks u → bs ∈ [TBLOCK_STARTED; TBLOCK_IMPLICIT_INPROGRESS].
Proof. destruct u; [done|]. cbn. rewrite list_elem_of_singleton. intros ->. left. Qed.

(** An error is possible in every state. *)
Lemma implements_lost s o b : implements base h (committed s) (block_of s) o b →
  inv base b ∧ leaves base h (committed s) (block_of (after_error s)) b.
Proof.
  unfold after_error. destruct (block_of s) as [x|fs|fs]; [destruct o as [u|]|..]; cbn.
  - intros (v & Hv & Hb & _ & Hn). eapply (live_inv base h _ []) in Hv as [? ?]; [done|]. by eapply auto_fits; [apply (auto_blocks_sub u)|].
  - intros (_ & v & Hv & Hn). by apply at_rest_inv in Hv as [? ?].
  - intros ([|v vs] & Hv & Hst & <- & Hn); [done|]. eapply live_inv in Hv as [? ?]; [|by apply steady_fits]. split; [done|].
    eexists. split_and!; [done|apply fail_views_failed; by left|apply frames_fail].
  - intros ([|v vs] & Hv & Hst & <- & Hn); [done|]. eapply live_inv in Hv as [? ?]; [|by apply failed_fits]. split; [done|].
    eexists. split_and!; [done|apply fail_views_failed; by right|apply frames_fail].
Qed.

Lemma implements_aborted s o b : implements base h (committed s) (block_of s) o b →
  IsAbortedTransactionBlockState b = match block_of s with Failed _ => true | _ => false end.
Proof.
  unfold IsAbortedTransactionBlockState. destruct (block_of s) as [x|fs|fs]; [destruct o as [u|]|..]; cbn.
  - intros (v & Hv & Hb & _). rewrite (live_block _ _ _ _ _ _ _ Hv). apply auto_blocks_sub in Hb.
    rewrite elem_of_cons, list_elem_of_singleton in Hb. by destruct Hb as [-> | ->].
  - intros (_ & v & (Ht & _ & Hv) & _). destruct (tracked_single _ _ _ _ _ Ht) as [_ He]. rewrite He in Hv. cbn in Hv. by rewrite Hv.
  - intros ([|v vs] & Hv & Hst & _); [done|]. rewrite (live_block _ _ _ _ _ _ _ Hv). apply steady_head in Hst.
    rewrite elem_of_cons, list_elem_of_singleton in Hst. by destruct Hst as [-> | ->].
  - intros ([|v vs] & Hv & Hst & _); [done|]. rewrite (live_block _ _ _ _ _ _ _ Hv). cbn in Hst.
    destruct vs; [by rewrite Hst|by destruct Hst as [-> _]].
Qed.

Lemma implements_command s u kind e : (∀ fs, block_of s = Failed fs → IsTransactionExitStmt (TransactionStmt kind) = true) →
  safe base (mishap base h s (TransactionStmt kind)) (implements base h (committed s) (block_of s) (Some u))
    (standard_ProcessUtility kind ;; close_block e) (λ _, outcome base h s (TransactionStmt kind)).
Proof.
  intros Hk b. destruct (block_of s) as [x|fs|fs] eqn:Hs; cbn.
  - intros (v & Hv & Hb & Hw & Hn). revert b Hv. eapply auto_command; [done|by eapply auto_blocks_sub|done..].
  - intros ([|v vs] & Hv & Hst & Hf & Hn); [done|]. revert b Hv. by eapply open_command.
  - intros ([|v vs] & Hv & Hst & Hf & Hn); [done|]. revert b Hv. eapply failed_command; [done..|]. by eapply Hk.
Qed.
End states.

(** As [safe], for the session. *)
Definition csafe {A} (E P : client → Prop) (m : M client A) (Q : A → client → Prop) : Prop :=
  ∀ c, P c →
    match m c with
    | (c', Ok a) => Q a c'
    | (c', Err (ErrReport _)) => E c'
    | (_, Err _) => False
    end.

Lemma csafe_bind {A B} E P (m : M client A) Q (k : A → M client B) R :
  csafe E P m Q → (∀ a, csafe E (Q a) (k a) R) → csafe E P (m ≫= k) R.
Proof.
  intros Hm Hk c Hc. specialize (Hm c Hc). unfold mbind, M_bind. destruct (m c) as [c' [a|e]]; [by apply Hk|done].
Qed.

Lemma csafe_conseq {A} (E E' P P' : client → Prop) (m : M client A) (Q Q' : A → client → Prop) :
  csafe E P m Q → (∀ c, E c → E' c) → (∀ c, P' c → P c) → (∀ a c, Q a c → Q' a c) → csafe E' P' m Q'.
Proof.
  intros Hm He Hp Hq c Hc. specialize (Hm c (Hp c Hc)). destruct (m c) as [c' [a|[]]]; [by apply Hq|by apply He|done..].
Qed.

Lemma csafe_ret {A} E (a : A) (P : client → Prop) (Q : A → client → Prop) : (∀ c, P c → Q a c) → csafe E P (mret a) Q.
Proof. intros H c Hc. by apply H. Qed.

Lemma csafe_gets {A B} E (f : client → A) (a : A) (P : client → Prop) (k : A → M client B) Q :
  (∀ c, P c → f c = a) → csafe E P (k a) Q → csafe E P (gets f ≫= k) Q.
Proof. intros Ha Hk c Hc. specialize (Hk c Hc). unfold gets, mbind, M_bind. by rewrite Ha. Qed.

(** Two programs that agree on the states of the precondition. *)
Lemma csafe_at {A} E (P : client → Prop) (m m' : M client A) Q : (∀ c, P c → m c = m' c) → csafe E P m' Q → csafe E P m Q.
Proof. intros He H c Hc. rewrite He by done. by apply H. Qed.

Section session.
Context (base : Z).
Abbreviation related := (related base).
Abbreviation erred := (erred base).

Lemma csafe_backend {A} (m : X A) s o E Q :
  (∀ h, next_write s = length h →
    safe base (E h) (implements base h (committed s) (block_of s) o) m (Q h)) →
  csafe (λ c, inv base (bk c) ∧ E (heap c) (bk c) ∧ next_write s = length (heap c)) (related o s) (in_backend m)
    (λ a c, Q (heap c) a (bk c) ∧ xact_started c = match o with Some _ => true | None => false end ∧ next_write s = length (heap c)).
Proof.
  intros H c [Hn Hs Hb]. specialize (H (heap c) Hn (bk c) Hb). unfold in_backend.
  destruct (m (bk c)) as [b' [a|[]]]; try done. by destruct H.
Qed.

(** A step of the backend that changes the content to [s'], or gives it up. *)
Lemma csafe_step (m : X unit) s o s' : next_write s' = next_write s →
  (∀ h, safe base (leaves base h (committed s) (block_of (after_error s))) (implements base h (committed s) (block_of s) o) m
    (λ _, implements base h (committed s') (block_of s') o)) →
  csafe (erred (after_error s)) (related o s) (in_backend m) (λ _, related o s').
Proof.
  intros Hn H. eapply csafe_conseq; [apply csafe_backend; intros h _; apply H| |done|].
  - intros c (Hi & Hl & Hw). by split.
  - intros [] c (Hi & Hx & Hw). split; [by rewrite Hn|done..].
Qed.

Lemma subsystem_related s o : csafe (erred (after_error s)) (related o s) (in_backend subsystem) (λ _, related o s).
Proof.
  apply csafe_step; [done|]. intros h. apply safe_subsystem; [intros b; apply implements_lost|].
  intros b l Hb. by eapply implements_frame.
Qed.

Lemma start_command_implements h s u :
  safe base (leaves base h (committed s) (block_of (after_error s))) (implements base h (committed s) (block_of s) None)
    StartTransactionCommand (λ _, implements base h (committed s) (block_of s) (Some u)).
Proof.
  unfold after_error. destruct (block_of s) as [x|fs|fs]; intros b.
  - intros (-> & v & Hv & Hn). assert (v_writes v = ∅) as Hw.
    { destruct Hv as (Ht & [_ Hx _ _] & _). destruct (tracked_single _ _ _ _ _ Ht) as [_ ->]. by apply level_writes_blank. }
    revert b Hv. fold (safe base (leaves base h (committed s) (Auto ∅)) (at_rest base h (committed s) v)
      StartTransactionCommand (λ _, implements base h (committed s) (Auto ∅) (Some u))).
    eapply safe_gets.
    { intros b (Ht & _ & Hv). destruct (tracked_single _ _ _ _ _ Ht) as [_ He]. rewrite He in Hv. exact Hv. }
    eapply safe_then; [eapply safe_weaken; [by apply start_transaction_safe|done]|].
    eapply safe_conseq; [by apply block_live|done|]. intros [] b Hb. eexists. split; [exact Hb|]. split_and!.
    + destruct u; left.
    + done.
    + by apply (named_as v).
  - intros ([|v vs] & Hv & Hst & H); [done|]. unfold StartTransactionCommand, gets, mbind, M_bind, compose.
    rewrite (live_block _ _ _ _ _ _ _ Hv). pose proof (steady_head _ _ Hst) as Hh. rewrite elem_of_cons, list_elem_of_singleton in Hh.
    destruct Hh as [-> | ->]; by exists (v :: vs).
  - intros ([|v vs] & Hv & Hst & H); [done|]. unfold StartTransactionCommand, gets, mbind, M_bind, compose.
    rewrite (live_block _ _ _ _ _ _ _ Hv). assert (v_block v = TBLOCK_ABORT ∨ v_block v = TBLOCK_SUBABORT) as [-> | ->].
    { cbn in Hst. destruct vs; [by left|by destruct Hst; right]. }
    all: by exists (v :: vs).
Qed.

Lemma start_xact_related s o u : o = None ∨ o = Some u →
  csafe (erred (after_error s)) (related o s) start_xact_command (λ _, related (Some u) s).
Proof.
  intros Ho. eapply csafe_gets; [intros c [_ Hx _]; exact Hx|]. destruct Ho as [-> | ->]; [|by apply csafe_ret].
  eapply (csafe_bind _ _ _ (λ _ c, implements base (heap c) (committed s) (block_of s) (Some u) (bk c) ∧ next_write s = length (heap c))).
  - eapply csafe_conseq; [apply csafe_backend; intros h _; apply (start_command_implements h s u)| |done|].
    + intros c (Hi & Hl & Hw). by split.
    + by intros [] c (Hi & _ & Hw).
  - intros [] c (Hi & Hw). by split.
Qed.

(** The content after a statement that is not a transaction command. *)
Lemma plain_succeeds w s o h b : (∀ fs, block_of s ≠ Failed fs) → implements base h (committed s) (block_of s) o b →
  ∃ s1, succeed (PlainStmt w) s = Some s1 ∧ committed s1 = committed s ∧
    next_write s1 = (if w then S (next_write s) else next_write s) ∧ after_error s1 ∈ fails (PlainStmt w) s ∧ (w = false → s1 = s).
Proof.
  intros Hnf Hi. unfold succeed, fails. destruct s as [n k [x|fs|fs]]; [..|by destruct (Hnf fs)].
  - eexists. split_and!; [done..| |by intros ->]. right. left.
  - destruct Hi as ([|v vs] & _ & Hst & <- & _); [done|]. eexists. split_and!; [done..| |by intros ->]. right. left.
Qed.

(** A live level that can write. *)
Lemma implements_running h s u b : (∀ fs, block_of s ≠ Failed fs) → implements base h (committed s) (block_of s) (Some u) b →
  ∃ v vs f, live base h (committed s) (v :: vs) TRANS_INPROGRESS b ∧ fits f (v :: vs) TRANS_INPROGRESS ∧ starting (v_block v) = false ∧
    (∀ b', recoverable base h (committed s) f b' → leaves base h (committed s) (block_of (after_error s)) b') ∧
    (∀ b', live base h (committed s) (v :: vs) TRANS_INPROGRESS b' → implements base h (committed s) (block_of s) (Some u) b') ∧
    (∀ s1 h' b', succeed (PlainStmt true) s = Some s1 →
       live base h' (committed s) (v_set_writes (v_writes v ∪ {[next_write s]}) v :: vs) TRANS_INPROGRESS b' →
       implements base h' (committed s) (block_of s1) (Some u) b').
Proof.
  intros Hnf. unfold after_error, succeed. destruct (block_of s) as [x|fs|fs] eqn:Hs; [..|by destruct (Hnf fs)].
  - intros (v & Hv & Hb & Hw & Hn). exists v, [], []. pose proof (auto_blocks_sub _ _ Hb) as Hb'. split_and!; [done|by apply auto_fits| |done| |].
    + rewrite elem_of_cons, list_elem_of_singleton in Hb'. by destruct Hb' as [-> | ->].
    + intros b' Hl. by exists v.
    + intros s1 h' b' [= <-] Hl. eexists. split_and!; [exact Hl|done|cbn; by rewrite Hw|by apply (named_as v)].
  - intros ([|v vs] & Hv & Hst & <- & Hn); [done|]. exists v, vs, (fail_views (v :: vs)). split_and!; [done|by apply steady_fits| | | |].
    + pose proof (steady_parents _ Hst) as Hp. by apply list.Forall_cons in Hp as [[_ ?] _].
    + intros b' Hr. eexists. split_and!; [done|apply fail_views_failed; by left|apply frames_fail].
    + intros b' Hl. by exists (v :: vs).
    + intros s1 h' b' [= <-] Hl. eexists. split_and!; [exact Hl|done|done|]. by apply (named_ext (v :: vs)).
Qed.

Lemma cci_related s u : (∀ fs, block_of s ≠ Failed fs) →
  csafe (erred (after_error s)) (related (Some u) s) (in_backend CommandCounterIncrement) (λ _, related (Some u) s).
Proof.
  intros Hnf. apply csafe_step; [done|]. intros h b Hb. destruct (implements_running _ _ _ _ Hnf Hb) as (v & vs & f & Hl & Hf & _ & He & Hk & _).
  pose proof (cci_live base h (committed s) f _ _ Hf b Hl) as H. destruct (CommandCounterIncrement b) as [b' [[]|[]]]; try done; [by apply Hk|].
  destruct H as [? ?]. split; [done|by apply He].
Qed.

(** The id and the command id of a write. *)
Lemma write_implements h s s1 u : next_write s = length h → (∀ fs, block_of s ≠ Failed fs) → succeed (PlainStmt true) s = Some s1 →
  safe base (leaves base h (committed s) (block_of (after_error s))) (implements base h (committed s) (block_of s) (Some u))
    (xid ← GetCurrentTransactionId; GetCurrentCommandId true ;; mret xid)
    (λ xid b, implements base (h ++ [xid]) (committed s) (block_of s1) (Some u) b).
Proof.
  intros Hh Hnf H1 b Hb. destruct (implements_running _ _ _ _ Hnf Hb) as (v & vs & f & Hl & Hf & Hst & He & _ & Hw).
  assert (safe base (recoverable base h (committed s) f) (live base h (committed s) (v :: vs) TRANS_INPROGRESS)
    (xid ← GetCurrentTransactionId; GetCurrentCommandId true ;; mret xid)
    (λ xid b, implements base (h ++ [xid]) (committed s) (block_of s1) (Some u) b)) as Hs.
  { unfold GetCurrentTransactionId. eapply safe_bind; [eapply safe_bind; [by apply get_xid_live|]|].
    - intros x. apply safe_ret with (Q := λ xid b, live base h (committed s) (v :: vs) TRANS_INPROGRESS b ∧
        xid = XidFromFullTransactionId (fullTransactionId (CurrentTransactionState b)) ∧
        fullTransactionId (CurrentTransactionState b) ≠ InvalidFullTransactionId).
      by intros b' (? & <- & ?).
    - intros xid b1 (Hl1 & -> & Hne). unfold GetCurrentCommandId, mbind, M_bind. rewrite (proj2 (core_plain _ _ (live_core _ _ _ _ _ _ Hl1))).
      apply (Hw s1 _ _ H1). rewrite Hh. eapply live_frame; [by apply write_live|done..]. }
  specialize (Hs b Hl). destruct ((xid ← GetCurrentTransactionId; GetCurrentCommandId true ;; mret xid) b) as [b' [x|[]]]; try done.
  destruct Hs as [? ?]. split; [done|by apply He].
Qed.

Lemma run_plain_related w s s1 u : (∀ fs, block_of s ≠ Failed fs) → succeed (PlainStmt w) s = Some s1 →
  committed s1 = committed s → next_write s1 = (if w then S (next_write s) else next_write s) → (w = false → s1 = s) →
  csafe (λ c, erred (after_error s) c ∨ erred (after_error s1) c) (related (Some u) s) (run_plain w) (λ _, related (Some u) s1).
Proof.
  intros Hnf Hs1 Hc Hn Hf. apply csafe_bind with (λ _, related (Some u) s1).
  - destruct w; [|rewrite Hf by done; by apply csafe_ret].
    apply csafe_at with (xid ← in_backend (xid ← GetCurrentTransactionId; GetCurrentCommandId true ;; mret xid);
      modify (λ c, mkClient (bk c) (xact_started c) (heap c ++ [xid]))).
    { intros c _. unfold in_backend, mbind, M_bind. destruct (GetCurrentTransactionId (bk c)) as [b [x|e]]; [|done].
      cbn [bk set_bk]. by destruct (GetCurrentCommandId true b) as [b' [y|e]]. }
    eapply csafe_bind.
    + eapply csafe_conseq; [apply csafe_backend; intros h Hh; apply (write_implements h s s1 u); done| |done|intros xid c H; exact H].
      intros c (Hi & Hl & Hw). left. by split.
    + intros xid c (Hi & Hx & Hw). split; cbn; [rewrite length_app, Hn; cbn; lia|done|by rewrite Hc].
  - intros []. eapply csafe_conseq; [apply subsystem_related|by right|done|done].
Qed.

Lemma begin_implicit_related s : csafe (erred (after_error s)) (related (Some true) s) (in_backend BeginImplicitTransactionBlock)
  (λ _, related (Some true) s).
Proof.
  apply csafe_step; [done|]. intros h b Hb. unfold BeginImplicitTransactionBlock. unfold gets at 1, mbind at 1, M_bind at 1, compose.
  destruct (bool_decide_reflect (blockState (CurrentTransactionState b) = TBLOCK_STARTED)) as [Hst|_]; [|done].
  destruct (block_of s) as [x|fs|fs].
  - destruct Hb as (v & Hv & Hin & Hw & Hn). apply (block_live base h (committed s) (λ _, False) v [] TRANS_INPROGRESS TBLOCK_IMPLICIT_INPROGRESS) in Hv; [|done].
    cbn in Hv. eexists. split_and!; [exact Hv|right; left|done|by apply (named_as v)].
  - destruct Hb as ([|v vs] & Hv & Hs & _); [done|]. rewrite (live_block _ _ _ _ _ _ _ Hv) in Hst. apply steady_head in Hs.
    rewrite Hst, elem_of_cons, list_elem_of_singleton in Hs. by destruct Hs.
  - destruct Hb as ([|v vs] & Hv & Hs & _); [done|]. rewrite (live_block _ _ _ _ _ _ _ Hv) in Hst. cbn in Hs. rewrite Hst in Hs.
    destruct vs; [done|by destruct Hs].
Qed.

(** The end of the query string. *)
Lemma close_implements h s u : safe base (leaves base h (committed s) (block_of (after_error s)))
  (implements base h (committed s) (block_of s) (Some u)) (close_block u)
  (λ _, implements base h (committed (close s)) (block_of (close s)) None).
Proof.
  unfold after_error, close. destruct (block_of s) as [x|fs|fs] eqn:Hs; intros b.
  - intros (v & Hv & Hb & Hw & Hn). revert b Hv. set (w := v_set_block TBLOCK_STARTED v).
    apply (safe_then base _ (live base h (committed s) [v] TRANS_INPROGRESS) _ (live base h (committed s) [w] TRANS_INPROGRESS)).
    + destruct u; cbn in Hb.
      * eapply safe_gets; [intros b Hl; exact (live_block _ _ _ _ _ _ _ Hl)|]. rewrite elem_of_cons, list_elem_of_singleton in Hb.
        destruct Hb as [Hb|Hb]; rewrite Hb; [|by apply block_live]. apply safe_ret. intros b. unfold w. rewrite <- Hb. by destruct v.
      * apply safe_ret. intros b. rewrite list_elem_of_singleton in Hb. unfold w. rewrite <- Hb. by destruct v.
    + eapply safe_conseq; [eapply safe_weaken; [apply (commit_command_started base h (committed s) w); [done|by apply (named_as v)]|done]|done|].
      intros [] b Hr. cbn. rewrite <- Hw. split; [done|]. eexists. split; [exact Hr|by apply (named_as v)].
  - intros ([|v vs] & Hv & Hst & <- & Hn); [done|]. revert b Hv. apply (close_block_safe base h s).
    + cbn. intros [= H]. pose proof (steady_closed _ _ Hst) as Hc. by rewrite H in Hc.
    + eapply safe_conseq; [eapply safe_weaken; [by apply commit_command_steady|]|done|].
      * intros b Hr. eexists. split_and!; [done|apply fail_views_failed; by left|apply frames_fail].
      * intros [] b Hl. rewrite Hs. by exists (v :: vs).
  - intros ([|v vs] & Hv & Hst & <- & Hn); [done|]. revert b Hv. apply (close_block_safe base h s).
    + cbn. intros [= H]. pose proof (failed_closed _ _ Hst) as Hc. by rewrite H in Hc.
    + eapply safe_conseq; [by apply commit_command_failed|done|]. intros [] b Hl. rewrite Hs. by exists (v :: vs).
Qed.

(** The end of a command, and of the last statement. *)
Definition end_command (e : bool) : M client unit := in_backend (close_block e) ;; modify (set_started false).

Lemma ending_run (e : bool) c : xact_started c = true →
  (((if e then in_backend EndImplicitTransactionBlock else mret tt) ;; finish_xact_command) : M client unit) c = end_command e c.
Proof.
  intros Hx. unfold end_command, close_block, finish_xact_command, in_backend, gets, mbind, M_bind. destruct e; cbv beta iota.
  - destruct (EndImplicitTransactionBlock (bk c)) as [b [[]|err]]; [|done]. cbn [xact_started set_bk]. rewrite Hx.
    change (bk (set_bk b c)) with b. by destruct (CommitTransactionCommand b) as [b' [[]|err]].
  - cbn. rewrite Hx. done.
Qed.

Lemma finish_run c : xact_started c = true → finish_xact_command c = end_command false c.
Proof. intros Hx. by rewrite <- (ending_run false c Hx). Qed.

Lemma command_run kind e (m : M client unit) c : xact_started c = true →
  (∀ c, xact_started c = true → m c = end_command e c) →
  ((in_backend (standard_ProcessUtility kind) ;; m) : M client unit) c =
    ((in_backend (standard_ProcessUtility kind ;; close_block e) ;; modify (set_started false)) : M client unit) c.
Proof.
  intros Hx Hm. unfold in_backend at 1 2, mbind, M_bind. destruct (standard_ProcessUtility kind (bk c)) as [b [[]|err]]; [|done].
  rewrite Hm by done. unfold end_command, in_backend, mbind, M_bind. cbn [bk set_bk]. by destruct (close_block e b) as [b' [[]|err]].
Qed.

Lemma command_related kind u e s (m : M client unit) :
  (∀ fs, block_of s = Failed fs → IsTransactionExitStmt (TransactionStmt kind) = true) →
  (∀ c, xact_started c = true → m c = end_command e c) →
  csafe (λ c, ∃ s', s' ∈ fails (TransactionStmt kind) s ∧ erred s' c) (related (Some u) s)
    (in_backend (standard_ProcessUtility kind) ;; m)
    (λ _ c, ∃ s', succeed (TransactionStmt kind) s = Some s' ∧ related None s' c).
Proof.
  intros Hk Hm. eapply csafe_at; [intros c [_ Hx _]; by apply command_run|]. eapply csafe_bind.
  - eapply csafe_conseq; [apply csafe_backend; intros h _; by apply implements_command| |done|intros a c H; exact H].
    intros c (Hi & (s' & Hin & Hn & Hl) & Hw). exists s'. split; [done|]. split; [done|congruence|done].
  - intros [] c ((s' & Hs & Hn & Hi) & _ & Hw). exists s'. split; [done|]. split; [cbn; congruence|done|done].
Qed.

Lemma close_related (u : bool) s : csafe (erred (after_error s)) (related (Some u) s)
  ((if u then in_backend EndImplicitTransactionBlock else mret tt) ;; finish_xact_command) (λ _, related None (close s)).
Proof.
  eapply csafe_at; [intros c [_ Hx _]; by apply ending_run|]. eapply csafe_bind.
  - eapply csafe_conseq; [apply csafe_backend; intros h _; apply close_implements| |done|intros a c H; exact H].
    intros c (Hi & Hl & Hw). by split.
  - intros [] c (Hi & _ & Hw). split; [|done..]. cbn. rewrite <- Hw. unfold close. by destruct (block_of s).
Qed.

Lemma close_idle s c : related None s c → close s = s.
Proof.
  intros [_ _ Hi]. destruct s as [n k [x|fs|fs]]; [|done..]. destruct Hi as [-> _]. unfold close, commit_writes. cbn. by rewrite union_empty_r_L.
Qed.

(** One statement of the loop, to the end of its command. *)
Definition finish_stmt (u : bool) (st : RawStmt) (rest : list RawStmt) : M client unit :=
  match rest with
  | [] => (if u then in_backend EndImplicitTransactionBlock else mret tt) ;; finish_xact_command
  | _ =>
      match st with
      | TransactionStmt _ => finish_xact_command
      | PlainStmt _ => in_backend CommandCounterIncrement
      end
  end.

Definition query_error_at (l : list RawStmt) (s : content) (c : client) : Prop := ∃ s', query l s true s' ∧ erred s' c.

(** The content after a statement, for the rest of the query string. *)
Definition stmt_done (u : bool) (st : RawStmt) (rest : list RawStmt) (s : content) (c : client) : Prop :=
  ∃ s', succeed st s = Some s' ∧
    match rest with [] => related None (close s') c | _ => ∃ o, (o = None ∨ o = Some u) ∧ related o s' c end.

Lemma stmt_related u st rest s : (∀ fs, block_of s = Failed fs → IsTransactionExitStmt st = true) →
  csafe (query_error_at (st :: rest) s) (related (Some u) s) (run_stmt st ;; finish_stmt u st rest) (λ _, stmt_done u st rest s).
Proof.
  intros Hk. destruct st as [kind|w].
  - eapply (csafe_conseq (λ c, ∃ s', s' ∈ fails (TransactionStmt kind) s ∧ erred s' c) _ _ _ _
      (λ _ c, ∃ s', succeed (TransactionStmt kind) s = Some s' ∧ related None s' c)); [|clear|done|].
    + destruct rest; [apply (command_related kind u u)|apply (command_related kind u false)]; try done;
        intros c Hx; [by apply ending_run|by apply finish_run].
    + intros c (s' & Hin & He). exists s'. split; [by apply query_fail|done].
    + intros [] c (s' & Hs & Hr). exists s'. split; [done|]. destruct rest; [by rewrite (close_idle s' c Hr)|]. exists None. by split; [left|].
  - assert (∀ fs, block_of s ≠ Failed fs) as Hnf by (intros fs Hf; by specialize (Hk _ Hf)).
    intros c Hc. destruct (plain_succeeds w s _ _ _ Hnf (rel_block _ _ _ _ Hc)) as (s1 & Hs1 & Hcm & Hnw & Hin & Hf).
    assert (∀ fs, block_of s1 ≠ Failed fs) as Hnf1.
    { unfold succeed in Hs1. destruct (block_of s) as [x|[|[n x] fs]|fs]; [..|done]; by simplify_eq/=. }
    revert c Hc. change (csafe (query_error_at (PlainStmt w :: rest) s) (related (Some u) s)
      (run_plain w ;; finish_stmt u (PlainStmt w) rest) (λ _, stmt_done u (PlainStmt w) rest s)).
    assert (∀ c, erred (after_error s1) c → query_error_at (PlainStmt w :: rest) s c) as Hlost.
    { intros c He. exists (after_error s1). split; [|done]. by apply query_fail. }
    eapply csafe_bind.
    + eapply csafe_conseq; [by apply (run_plain_related w s s1 u)| |done|intros a c H; exact H].
      intros c [He|He]; [|by apply Hlost]. exists (after_error s). split; [apply query_error|done].
    + intros []. destruct rest as [|st' rest]; cbn [finish_stmt].
      * eapply csafe_conseq; [apply close_related|done|done|]. intros [] c Hr. by exists s1.
      * eapply csafe_conseq; [by apply cci_related|done|done|]. intros [] c Hr. exists s1. split; [done|]. exists (Some u). by split; [right|].
Qed.

Lemma csafe_assoc {A} E P (m1 m2 : M client unit) (m3 : M client A) Q :
  csafe E P ((m1 ;; m2) ;; m3) Q → csafe E P (m1 ;; m2 ;; m3) Q.
Proof.
  apply csafe_at. intros c _. unfold mbind, M_bind. by destruct (m1 c) as [c' [a|e]].
Qed.

Lemma exec_stmts_related u l s o : l ≠ [] → o = None ∨ o = Some u →
  csafe (query_error_at l s) (related o s) (exec_stmts u l) (λ _ c, ∃ s', query l s false s' ∧ related None s' c).
Proof.
  revert s o. induction l as [|st rest IH]; intros s o Hl Ho; [done|].
  assert (∀ c, erred (after_error s) c → query_error_at (st :: rest) s c) as Hlost.
  { intros c He. exists (after_error s). split; [apply query_error|done]. }
  cbn [exec_stmts]. intros c Hc. unfold gets at 1, mbind at 1, M_bind at 1. rewrite (implements_aborted _ _ _ _ _ (rel_block _ _ _ _ Hc)).
  destruct (_ && _) eqn:Hab.
  { apply Hlost. destruct Hc as [Hn _ Hi]. apply implements_lost in Hi as [? ?]. by split. }
  assert (∀ fs, block_of s = Failed fs → IsTransactionExitStmt st = true) as Hk.
  { intros fs Hf. rewrite Hf in Hab. by destruct (IsTransactionExitStmt st). }
  clear Hab. revert c Hc.
  apply (csafe_bind _ (related o s) _ (λ _, related (Some u) s)); [by eapply csafe_conseq; [apply start_xact_related| |..]|]. intros _.
  apply (csafe_bind _ _ _ (λ _, related (Some u) s)).
  { destruct u; [|by apply csafe_ret]. by eapply csafe_conseq; [apply begin_implicit_related| |..]. }
  intros _. apply (csafe_bind _ _ _ (λ _, related (Some u) s)); [by eapply csafe_conseq; [apply subsystem_related| |..]|]. intros _.
  apply csafe_assoc. eapply csafe_bind; [by apply stmt_related|]. intros []. intros c (s' & Hs & Hd). destruct rest as [|st' rest].
  - exists (close s'). split; [|done]. eapply query_step; [done|apply query_end].
  - destruct Hd as (o' & Ho' & Hr). specialize (IH s' o' ltac:(done) Ho' c Hr).
    destruct (exec_stmts u (st' :: rest) c) as [c' [[]|[]]]; try done.
    + destruct IH as (s2 & Hq & Hr2). exists s2. split; [by eapply query_step|done].
    + destruct IH as (s2 & Hq & Hr2). exists s2. split; [by eapply query_step|done].
Qed.

Lemma exec_simple_query_related l s : csafe (query_error_at l s) (related None s) (exec_simple_query l)
  (λ _ c, ∃ s', query l s false s' ∧ related None s' c).
Proof.
  set (u := (1 <? length l)%nat).
  assert (∀ c, erred (after_error s) c → query_error_at l s c) as Hlost.
  { intros c He. exists (after_error s). split; [apply query_error|done]. }
  apply (csafe_bind _ _ _ (λ _, related (Some u) s)).
  { eapply csafe_conseq; [apply (start_xact_related s None u); by left|done..]. }
  intros _. apply (csafe_bind _ _ _ (λ _, related (Some u) s)); [by eapply csafe_conseq; [apply subsystem_related| |..]|]. intros _.
  fold u. destruct l as [|st rest].
  - eapply csafe_conseq; [apply (close_related u s)|done|done|]. intros [] c Hr. exists (close s). split; [apply query_end|done].
  - eapply csafe_bind; [apply (exec_stmts_related u (st :: rest) s (Some u)); [done|by right]|].
    intros []. eapply csafe_gets; [intros c (s' & _ & [_ Hx _]); exact Hx|]. by apply csafe_ret.
Qed.

Lemma query_related l s c : related None s c →
  ∃ c' r s', PostgresMain_query l c = (c', Ok r) ∧ query l s (bool_decide (is_Some r)) s' ∧ related None s' c'.
Proof.
  intros Hc. pose proof (exec_simple_query_related l s c Hc) as H. unfold PostgresMain_query.
  destruct (exec_simple_query l c) as [c' [[]|[msg| | |]]]; try done; destruct H as (s' & Hq & Hr).
  - by exists c', None, s'.
  - destruct (recover_erred base s' c' Hr) as (b' & -> & Hrel). by eexists _, (Some msg), s'.
Qed.

Lemma main_related qs s c : related None s c →
  ∃ c' rs s', PostgresMain qs c = (c', Ok rs) ∧ session qs s ((λ r, bool_decide (is_Some r)) <$> rs) s' ∧ related None s' c'.
Proof.
  revert s c. induction qs as [|l qs IH]; intros s c Hc; [exists c, [], s; split_and!; [done|constructor|done]|].
  destruct (query_related l s c Hc) as (c1 & r & s1 & Hr & Hq & Hc1). destruct (IH s1 c1 Hc1) as (c2 & rs & s2 & Hrs & Hs & Hc2).
  exists c2, (r :: rs), s2. split_and!; [|by econstructor|done]. cbn [PostgresMain]. unfold mbind, M_bind. by rewrite Hr, Hrs.
Qed.
End session.

(** ** Reads *)

Lemma parents_live ps : parents_ok ps → Forall (λ s, state s ≠ TRANS_ABORT) ps.
Proof. induction ps as [|p ps IH]; [done|]. intros (_ & Hs & _ & _ & _ & H). constructor; [by rewrite Hs|by apply IH]. Qed.

Lemma current_writes base h b : core base b → state (CurrentTransactionState b) ≠ TRANS_ABORT →
  writes (TransactionIdIsCurrentTransactionId b) h = all_writes (view_of h <$> levels b).
Proof.
  intros Hc Ha. assert (Forall (λ s, state s ≠ TRANS_ABORT) (levels b)) as Hl by (constructor; [done|apply parents_live, Hc]).
  rewrite list.Forall_forall in Hl. apply leibniz_equiv. intros i. unfold all_writes. rewrite elem_of_writes, elem_of_union_list.
  setoid_rewrite (current_xid_spec base b _ Hc). split.
  - intros (x & Hx & Hcur). assert (∃ s, s ∈ levels b ∧ x ∈ owned s) as (s & Hs & Ho).
    { destruct Hcur as [(s & Hs & _ & Ho)|[Hne ->]]; [by exists s|]. exists (top_level b). split; [apply top_level_in|].
      unfold owned. rewrite (proj2 (Z.eqb_neq _ _) Hne). left. }
    exists (level_writes h s). split.
    + rewrite <- list_fmap_compose. apply list_elem_of_fmap. by exists s.
    + unfold level_writes. rewrite bool_decide_eq_false_2 by by apply Hl. apply elem_of_writes. exists x. by rewrite bool_decide_eq_true.
  - intros (w & Hw & Hi). rewrite <- list_fmap_compose in Hw. apply list_elem_of_fmap in Hw as (s & -> & Hs). cbn in Hi.
    unfold level_writes in Hi. rewrite bool_decide_eq_false_2 in Hi by by apply Hl. apply elem_of_writes in Hi as (x & Hx & Ho).
    apply bool_decide_eq_true in Ho. exists x. split; [done|]. left. exists s. split_and!; [done|by apply Hl|done].
Qed.

Lemma implements_reads base h s o b : implements base h (committed s) (block_of s) o b → (∀ fs, block_of s ≠ Failed fs) →
  core base b ∧ state (CurrentTransactionState b) ≠ TRANS_ABORT ∧ done_writes h (shmem b) = committed s ∧
  readable s = committed s ∪ all_writes (view_of h <$> levels b).
Proof.
  unfold readable. destruct (block_of s) as [x|fs|fs]; intros Hi Hnf; [destruct o as [u|]|..]; [..|by destruct (Hnf fs)].
  - destruct Hi as (v & [[Hc _ Hd Hv] Hst _ _ _] & _ & <- & _). split_and!; [done|by rewrite Hst|done|].
    rewrite Hv. unfold all_writes. cbn. by rewrite union_empty_r_L.
  - destruct Hi as (-> & v & ([Hc _ Hd Hv] & [Hst Hx _ _] & _) & _). split_and!; [done|by rewrite Hst|done|].
    unfold levels in *. destruct (parents b); [|done]. unfold all_writes. cbn. rewrite level_writes_blank by done. by rewrite (union_empty_r_L ∅).
  - destruct Hi as (vs & [[Hc _ Hd Hv] Hst _ _ _] & _ & <- & _). split_and!; [done|by rewrite Hst|done|]. by rewrite Hv, frame_writes_views.
Qed.

(** ** A session *)

(** A backend that has just started. *)
Definition fresh_backend : backend :=
  mkBackend (mkLevel 0 0 None 0 TRANS_DEFAULT TBLOCK_DEFAULT 0 false [] false 0 false false) []
    0 0 0 false (mkChars 1 false false) (mkChars 1 false false) false None young [] false false 100 [] [].

Definition fresh_client : client := mkClient fresh_backend false [].

Lemma fresh_related : related 4294900000 None (mkContent 0 ∅ (Auto ∅)) fresh_client.
Proof.
  split; [done..|]. split; [done|]. eexists. split; [split; [split; [split|..]|]|].
  - apply young_ok.
  - done.
  - done.
  - by repeat constructor.
  - done.
  - split; [by repeat constructor|done].
  - by constructor.
  - done.
  - cbn. done.
  - split; done.
  - split; [by constructor|done].
Qed.

(** Two writes that are kept and one that is rolled back. *)
Definition savepoint_session : list (list RawStmt) :=
  [[TransactionStmt TRANS_STMT_BEGIN]; [PlainStmt true];
   [TransactionStmt (TRANS_STMT_SAVEPOINT "a"); PlainStmt true]; [TransactionStmt (TRANS_STMT_ROLLBACK_TO "a")];
   [PlainStmt true; TransactionStmt (TRANS_STMT_COMMIT true)]].

(** ** Properties *)



(** Outside of failed blocks a statement of the session sees exactly the
    committed writes and those of the open savepoints of its own block. *)
Theorem session_reads base o s c : related base o s c → (∀ fs, block_of s ≠ Failed fs) → visible_writes c = readable s.
Proof.
  intros [_ _ Hi] Hnf. destruct (implements_reads _ _ _ _ _ Hi Hnf) as (Hc & Ha & Hd & ->). unfold visible_writes.
  rewrite (writes_union (TransactionIdIsCurrentTransactionId (bk c)) (λ x, TransactionIdGetStatus (pg_xact (shmem (bk c))) x =? TRANSACTION_STATUS_COMMITTED)) by done.
  rewrite (current_writes base) by done. rewrite <- Hd. apply union_comm_L.
Qed.

Lemma session_reads_witness : visible_writes fresh_client = ∅.
Proof. rewrite (session_reads 4294900000 None _ _ fresh_related) by (intros fs; discriminate). reflexivity. Defined.
