(* ===== verification/ProcArray.v ===== *)
(** * The process array

    [procarray.c]: the transaction ids that the backends advertise in shared
    memory.  Every backend has a [PGPROC]; the fields that snapshots read are
    repeated in dense arrays of [ProcGlobal], indexed by the backend's position
    in the process array.  Modelled are joining and leaving the array, the
    advertisement of new ids ([GetNewTransactionId] of [varsup.c]), the ends of
    transactions and of subtransactions, [GetSnapshotData] outside of recovery
    with the reuse of snapshots, and [TransactionIdIsInProgress].

    The lemmas of this file show that the dense arrays always repeat the fields
    of the right [PGPROC] and that no access leaves an array.  What snapshots
    mean is the subject of [SnapshotSys]. *)
From stdpp Require Import base tactics list strings numbers sorting.
From Stdlib Require Import ZArith Lia Bool.
From S2P Require Import Prelude Visibility Clog XidGen.

(** ** Shared memory *)

Definition PGPROC_MAX_CACHED_SUBXIDS : nat := 64.

Record XidCacheStatus : Type := mkCacheStatus {
  sub_count : nat;
  overflowed : bool
}.

Record PGPROC : Type := mkProc {
  pgxactoff : nat;
  proc_xid : Z;
  proc_xmin : Z;
  subxidStatus : XidCacheStatus;
  subxids : list Z;                 (* [PGPROC_MAX_CACHED_SUBXIDS] entries *)
  proc_flags : Z
}.

(** [ProcArrayStruct], the arrays of [ProcGlobal] up to [numProcs], all
    [PGPROC]s, and the two fields of [TransamVariables] that belong to the
    process array. *)
Record procs : Type := mkProcs {
  maxProcs : nat;
  pgprocnos : list nat;
  xids : list Z;
  subxidStates : list XidCacheStatus;
  statusFlags : list Z;
  allProcs : list PGPROC;
  latestCompletedXid : Z;
  xactCompletionCount : Z
}.

Definition PROC_IS_AUTOVACUUM : Z := 0x01.

Definition PROC_IN_VACUUM : Z := 0x02.

Definition PROC_IN_SAFE_IC : Z := 0x04.

Definition PROC_VACUUM_FOR_WRAPAROUND : Z := 0x08.

Definition PROC_IN_LOGICAL_DECODING : Z := 0x10.

Definition PROC_VACUUM_STATE_MASK : Z :=
  Z.lor PROC_IN_VACUUM (Z.lor PROC_IN_SAFE_IC PROC_VACUUM_FOR_WRAPAROUND).

Definition numProcs (pa : procs) : nat := length (pgprocnos pa).

Definition set_pgxactoff (i : nat) (p : PGPROC) : PGPROC :=
  mkProc i (proc_xid p) (proc_xmin p) (subxidStatus p) (subxids p) (proc_flags p).

Definition set_proc_xid (x : Z) (p : PGPROC) : PGPROC :=
  mkProc (pgxactoff p) x (proc_xmin p) (subxidStatus p) (subxids p) (proc_flags p).

Definition set_proc_xmin (x : Z) (p : PGPROC) : PGPROC :=
  mkProc (pgxactoff p) (proc_xid p) x (subxidStatus p) (subxids p) (proc_flags p).

Definition set_subxidStatus (s : XidCacheStatus) (p : PGPROC) : PGPROC :=
  mkProc (pgxactoff p) (proc_xid p) (proc_xmin p) s (subxids p) (proc_flags p).

Definition set_subxids (l : list Z) (p : PGPROC) : PGPROC :=
  mkProc (pgxactoff p) (proc_xid p) (proc_xmin p) (subxidStatus p) l (proc_flags p).

Definition set_proc_flags (f : Z) (p : PGPROC) : PGPROC :=
  mkProc (pgxactoff p) (proc_xid p) (proc_xmin p) (subxidStatus p) (subxids p) f.

Definition set_dense (ns : list nat) (xs : list Z) (ss : list XidCacheStatus) (fs : list Z) (pa : procs) : procs :=
  mkProcs (maxProcs pa) ns xs ss fs (allProcs pa) (latestCompletedXid pa) (xactCompletionCount pa).

Definition set_allProcs (ps : list PGPROC) (pa : procs) : procs :=
  mkProcs (maxProcs pa) (pgprocnos pa) (xids pa) (subxidStates pa) (statusFlags pa) ps (latestCompletedXid pa)
    (xactCompletionCount pa).

Definition set_latest (x : Z) (pa : procs) : procs :=
  mkProcs (maxProcs pa) (pgprocnos pa) (xids pa) (subxidStates pa) (statusFlags pa) (allProcs pa) x
    (xactCompletionCount pa).

Definition set_completions (n : Z) (pa : procs) : procs :=
  mkProcs (maxProcs pa) (pgprocnos pa) (xids pa) (subxidStates pa) (statusFlags pa) (allProcs pa)
    (latestCompletedXid pa) n.

(** ** Accesses *)

Abbreviation PA := (M procs).

(** [a[i]], in range. *)
Definition rd {A} (a : list A) (i : nat) : PA A :=
  match a !! i with
  | Some x => mret x
  | None => fail ErrUB
  end.

Definition MyProc (procno : nat) : PA PGPROC :=
  pa ← get;
  rd (allProcs pa) procno.

Definition upd_proc (procno : nat) (f : PGPROC → PGPROC) : PA unit :=
  pa ← get;
  if (procno <? length (allProcs pa))%nat then put (set_allProcs (alter f procno (allProcs pa)) pa) else fail ErrUB.

Definition set_xid_at (i : nat) (x : Z) : PA unit :=
  pa ← get;
  if (i <? length (xids pa))%nat
  then put (set_dense (pgprocnos pa) (<[i := x]> (xids pa)) (subxidStates pa) (statusFlags pa) pa) else fail ErrUB.

Definition set_substate_at (i : nat) (s : XidCacheStatus) : PA unit :=
  pa ← get;
  if (i <? length (subxidStates pa))%nat
  then put (set_dense (pgprocnos pa) (xids pa) (<[i := s]> (subxidStates pa)) (statusFlags pa) pa) else fail ErrUB.

Definition set_flags_at (i : nat) (f : Z) : PA unit :=
  pa ← get;
  if (i <? length (statusFlags pa))%nat
  then put (set_dense (pgprocnos pa) (xids pa) (subxidStates pa) (<[i := f]> (statusFlags pa)) pa) else fail ErrUB.

(** ** Joining and leaving the array *)

(** The position that keeps the array sorted. *)
Fixpoint find_position (pgprocno : nat) (ns : list nat) : nat :=
  match ns with
  | [] => O
  | n :: ns' => if (pgprocno <? n)%nat then O else S (find_position pgprocno ns')
  end.

(** A [memmove] by one that makes room at [i], and one that closes the gap. *)
Definition open_gap {A} (i : nat) (x : A) (a : list A) : list A := take i a ++ x :: drop i a.

Definition close_gap {A} (i : nat) (a : list A) : list A := take i a ++ drop (S i) a.

(** The loops that store the positions from [index] on. *)
Definition renumber (index : nat) : PA unit :=
  pa ← get;
  mfor (seq index (numProcs pa - index))
    (λ i, procno ← rd (pgprocnos pa) i; upd_proc procno (set_pgxactoff i)).

Definition ProcArrayAdd (pgprocno : nat) : PA unit :=
  pa ← get;
  if (maxProcs pa <=? numProcs pa)%nat then fail (ErrFatal "sorry, too many clients already")
  else
    let index := find_position pgprocno (pgprocnos pa) in
    proc ← MyProc pgprocno;
    put (set_dense (open_gap index pgprocno (pgprocnos pa)) (open_gap index (proc_xid proc) (xids pa))
           (open_gap index (subxidStatus proc) (subxidStates pa)) (open_gap index (proc_flags proc) (statusFlags pa)) pa) ;;
    upd_proc pgprocno (set_pgxactoff index) ;;
    renumber (S index).

(** What [InitProcess] makes of the fields of a [PGPROC] taken from a free list;
    the cache of subtransaction ids is as its last owner left it. *)
Definition InitProcess (pgprocno : nat) (autovacuum : bool) : PA unit :=
  upd_proc pgprocno (set_proc_xid InvalidTransactionId) ;;
  upd_proc pgprocno (set_proc_xmin InvalidTransactionId) ;;
  upd_proc pgprocno (set_proc_flags (if autovacuum then PROC_IS_AUTOVACUUM else 0)).

(** The dummy [PGPROC] of a prepared transaction ([twophase.c]): all of it is
    cleared, then it gets the main id and the ids of the children. *)
Definition MarkAsPreparingGuts (pgprocno : nat) (xid : Z) : PA unit :=
  upd_proc pgprocno (λ _, mkProc 0 0 0 (mkCacheStatus 0 false) (replicate PGPROC_MAX_CACHED_SUBXIDS 0) 0) ;;
  upd_proc pgprocno (set_proc_xid xid).

Definition GXactLoadSubxactData (pgprocno : nat) (children : list Z) : PA unit :=
  let nsubxacts := (length children `min` PGPROC_MAX_CACHED_SUBXIDS)%nat in
  (if (PGPROC_MAX_CACHED_SUBXIDS <? length children)%nat
   then upd_proc pgprocno (λ p, set_subxidStatus (mkCacheStatus (sub_count (subxidStatus p)) true) p) else mret tt) ;;
  if (0 <? nsubxacts)%nat then
    upd_proc pgprocno (λ p, set_subxids (take nsubxacts children ++ drop nsubxacts (subxids p)) p) ;;
    upd_proc pgprocno (λ p, set_subxidStatus (mkCacheStatus nsubxacts (overflowed (subxidStatus p))) p)
  else mret tt.

Definition MarkAsPrepared (pgprocno : nat) : PA unit := ProcArrayAdd pgprocno.

(** [FullXidRelativeTo]: the 64-bit id next to [rel] with the low half [xid]. *)
Definition FullXidRelativeTo (rel xid : Z) : Z := u64 (rel + i32 (xid - XidFromFullTransactionId rel)).

Definition MaintainLatestCompletedXid (latestXid : Z) : PA unit :=
  cur_latest ← gets latestCompletedXid;
  if TransactionIdPrecedes (XidFromFullTransactionId cur_latest) latestXid
  then modify (set_latest (FullXidRelativeTo cur_latest latestXid)) else mret tt.

Definition count_completion : PA unit := modify (λ pa, set_completions (u64 (xactCompletionCount pa + 1)) pa).

Definition ProcArrayRemove (pgprocno : nat) (latestXid : Z) : PA unit :=
  proc ← MyProc pgprocno;
  let myoff := pgxactoff proc in
  (if TransactionIdIsValid latestXid then
     MaintainLatestCompletedXid latestXid ;;
     count_completion ;;
     set_xid_at myoff InvalidTransactionId ;;
     set_substate_at myoff (mkCacheStatus 0 false)
   else mret tt) ;;
  set_flags_at myoff 0 ;;
  pa ← get;
  put (set_dense (close_gap myoff (pgprocnos pa)) (close_gap myoff (xids pa))
         (close_gap myoff (subxidStates pa)) (close_gap myoff (statusFlags pa)) pa) ;;
  renumber myoff.

(** ** Transactions *)

Definition hasflags (flags mask : Z) : bool := negb (Z.land flags mask =? 0).

(** The vacuum flags go with the transaction. *)
Definition clear_vacuum_flags (pgprocno : nat) : PA unit :=
  proc ← MyProc pgprocno;
  if hasflags (proc_flags proc) PROC_VACUUM_STATE_MASK then
    let f := Z.ldiff (proc_flags proc) PROC_VACUUM_STATE_MASK in
    upd_proc pgprocno (set_proc_flags f) ;;
    set_flags_at (pgxactoff proc) f
  else mret tt.

Definition clear_subxids (pgprocno : nat) : PA unit :=
  proc ← MyProc pgprocno;
  if (0 <? sub_count (subxidStatus proc))%nat || overflowed (subxidStatus proc) then
    set_substate_at (pgxactoff proc) (mkCacheStatus 0 false) ;;
    upd_proc pgprocno (set_subxidStatus (mkCacheStatus 0 false))
  else mret tt.

Definition ProcArrayEndTransactionInternal (pgprocno : nat) (latestXid : Z) : PA unit :=
  proc ← MyProc pgprocno;
  set_xid_at (pgxactoff proc) InvalidTransactionId ;;
  upd_proc pgprocno (set_proc_xid InvalidTransactionId) ;;
  upd_proc pgprocno (set_proc_xmin InvalidTransactionId) ;;
  clear_vacuum_flags pgprocno ;;
  clear_subxids pgprocno ;;
  MaintainLatestCompletedXid latestXid ;;
  count_completion.

(** With the lock free; otherwise the leader of a group does it for its members. *)
Definition ProcArrayEndTransaction (pgprocno : nat) (latestXid : Z) : PA unit :=
  if TransactionIdIsValid latestXid then ProcArrayEndTransactionInternal pgprocno latestXid
  else
    upd_proc pgprocno (set_proc_xmin InvalidTransactionId) ;;
    clear_vacuum_flags pgprocno.

Definition ProcArrayGroupClearXid (members : list (nat * Z)) : PA unit :=
  mfor members (λ m, ProcArrayEndTransactionInternal m.1 m.2).

(** The transaction has been prepared, its entry is that of the dummy [PGPROC]. *)
Definition ProcArrayClearTransaction (pgprocno : nat) : PA unit :=
  proc ← MyProc pgprocno;
  set_xid_at (pgxactoff proc) InvalidTransactionId ;;
  upd_proc pgprocno (set_proc_xid InvalidTransactionId) ;;
  upd_proc pgprocno (set_proc_xmin InvalidTransactionId) ;;
  count_completion ;;
  clear_subxids pgprocno.

(** The end of [GetNewTransactionId]: the new id is advertised. *)
Definition store_new_xid (pgprocno : nat) (isSubXact : bool) (xid : Z) : PA unit :=
  proc ← MyProc pgprocno;
  if negb isSubXact then
    upd_proc pgprocno (set_proc_xid xid) ;;
    set_xid_at (pgxactoff proc) xid
  else
    pa ← get;
    substat ← rd (subxidStates pa) (pgxactoff proc);
    let nxids := sub_count (subxidStatus proc) in
    if (nxids <? PGPROC_MAX_CACHED_SUBXIDS)%nat then
      l ← lift_result (array_write (subxids proc) nxids xid);
      upd_proc pgprocno (set_subxids l) ;;
      set_substate_at (pgxactoff proc) (mkCacheStatus (S nxids) (overflowed substat)) ;;
      upd_proc pgprocno (set_subxidStatus (mkCacheStatus (S nxids) (overflowed (subxidStatus proc))))
    else
      set_substate_at (pgxactoff proc) (mkCacheStatus (sub_count substat) true) ;;
      upd_proc pgprocno (set_subxidStatus (mkCacheStatus nxids true)).

(** The last of the first [n] entries that is [x]. *)
Fixpoint find_last (x : Z) (a : list Z) (n : nat) : option nat :=
  match n with
  | O => None
  | S j => if bool_decide (a !! j = Some x) then Some j else find_last x a j
  end.

(** Takes an id out of the cache: the last entry takes its place. *)
Definition remove_subxid (pgprocno : nat) (x : Z) : PA unit :=
  proc ← MyProc pgprocno;
  let n := sub_count (subxidStatus proc) in
  match find_last x (subxids proc) n with
  | None => mret tt
  | Some j =>
      moved ← rd (subxids proc) (n - 1);
      upd_proc pgprocno (set_subxids (<[j := moved]> (subxids proc))) ;;
      pa ← get;
      substat ← rd (subxidStates pa) (pgxactoff proc);
      set_substate_at (pgxactoff proc) (mkCacheStatus (sub_count substat - 1) (overflowed substat)) ;;
      upd_proc pgprocno (set_subxidStatus (mkCacheStatus (n - 1) (overflowed (subxidStatus proc))))
  end.

(** The warning about an id that is not found is not part of the model. *)
Definition XidCacheRemoveRunningXids (pgprocno : nat) (xid : Z) (children : list Z) (latestXid : Z) : PA unit :=
  mfor (reverse children) (remove_subxid pgprocno) ;;
  remove_subxid pgprocno xid ;;
  MaintainLatestCompletedXid latestXid ;;
  count_completion.

(** Part of [vacuum_rel]: other backends ignore this one. *)
Definition set_vacuum_flags (pgprocno : nat) (is_wraparound : bool) : PA unit :=
  upd_proc pgprocno (λ p, set_proc_flags (Z.lor (proc_flags p) PROC_IN_VACUUM) p) ;;
  (if is_wraparound then upd_proc pgprocno (λ p, set_proc_flags (Z.lor (proc_flags p) PROC_VACUUM_FOR_WRAPAROUND) p)
   else mret tt) ;;
  proc ← MyProc pgprocno;
  set_flags_at (pgxactoff proc) (proc_flags proc).

(** ** Snapshots *)

Definition TransactionIdAdvance (dest : Z) : Z :=
  let dest := u32 (dest + 1) in
  if dest <? FirstNormalTransactionId then FirstNormalTransactionId else dest.

Definition NormalTransactionIdPrecedes (id1 id2 : Z) : bool := i32 (id1 - id2) <? 0.

(** The local variables of the loop in [GetSnapshotData]. *)
Record scan : Type := mkScan {
  sc_xmin : Z;
  sc_xip : list Z;
  sc_subxip : list Z;
  sc_suboverflowed : bool
}.

(** Before the loop: [mypgxactoff], [xmax] and the initial values. *)
Definition scan_start (pgprocno : nat) : PA (nat * Z * scan) :=
  pa ← get;
  proc ← MyProc pgprocno;
  let mypgxactoff := pgxactoff proc in
  myxid ← rd (xids pa) mypgxactoff;
  let xmax := TransactionIdAdvance (XidFromFullTransactionId (latestCompletedXid pa)) in
  let xmin := if TransactionIdIsNormal myxid && NormalTransactionIdPrecedes myxid xmax then myxid else xmax in
  mret (mypgxactoff, xmax, mkScan xmin [] [] false).

(** An iteration up to the entry of the main id, with whether it goes on. *)
Definition scan_xid (mypgxactoff : nat) (xmax : Z) (i : nat) (sc : scan) : PA (scan * bool) :=
  pa ← get;
  xid ← rd (xids pa) i;
  if xid =? InvalidTransactionId then mret (sc, false)
  else if (i =? mypgxactoff)%nat then mret (sc, false)
  else if negb (NormalTransactionIdPrecedes xid xmax) then mret (sc, false)
  else
    flags ← rd (statusFlags pa) i;
    if hasflags flags (Z.lor PROC_IN_LOGICAL_DECODING PROC_IN_VACUUM) then mret (sc, false)
    else mret (mkScan (if NormalTransactionIdPrecedes xid (sc_xmin sc) then xid else sc_xmin sc)
                 (sc_xip sc ++ [xid]) (sc_subxip sc) (sc_suboverflowed sc), true).

(** The rest of the iteration: the ids of the subtransactions. *)
Definition scan_subxids (i : nat) (sc : scan) : PA scan :=
  if sc_suboverflowed sc then mret sc
  else
    pa ← get;
    st ← rd (subxidStates pa) i;
    if overflowed st then mret (mkScan (sc_xmin sc) (sc_xip sc) (sc_subxip sc) true)
    else if (0 <? sub_count st)%nat then
      pgprocno ← rd (pgprocnos pa) i;
      proc ← rd (allProcs pa) pgprocno;
      mret (mkScan (sc_xmin sc) (sc_xip sc) (sc_subxip sc ++ take (sub_count st) (subxids proc)) false)
    else mret sc.

Fixpoint scan_loop (mypgxactoff : nat) (xmax : Z) (idx : list nat) (sc : scan) : PA scan :=
  match idx with
  | [] => mret sc
  | i :: idx' =>
      '(sc1, more) ← scan_xid mypgxactoff xmax i sc;
      sc2 ← (if more : bool then scan_subxids i sc1 else mret sc1);
      scan_loop mypgxactoff xmax idx' sc2
  end.

(** A snapshot with the count of completed transactions when it was taken; the
    backend's [TransactionXmin] and [RecentXmin]. *)
Record snapshot : Type := mkSnap {
  snap_data : SnapshotData;
  snapXactCompletionCount : Z
}.

Record xmins : Type := mkXmins {
  TransactionXmin : Z;
  RecentXmin : Z
}.

(** The first snapshot of a transaction sets its [xmin]. *)
Definition advertise_xmin (pgprocno : nat) (xmin : Z) (g : xmins) : PA xmins :=
  proc ← MyProc pgprocno;
  if negb (TransactionIdIsValid (proc_xmin proc)) then
    upd_proc pgprocno (set_proc_xmin xmin) ;;
    mret (mkXmins xmin xmin)
  else mret (mkXmins (TransactionXmin g) xmin).

Definition scan_finish (pgprocno : nat) (xmax : Z) (sc : scan) (completions cid : Z) (g : xmins) : PA (snapshot * xmins) :=
  g' ← advertise_xmin pgprocno (sc_xmin sc) g;
  mret (mkSnap (mkSnapshot (sc_xmin sc) xmax (sc_xip sc) (sc_subxip sc) (sc_suboverflowed sc) false cid) completions, g').

(** [GetSnapshotDataReuse], with the snapshot to be replaced. *)
Definition GetSnapshotDataReuse (pgprocno : nat) (snap : snapshot) (cid : Z) (g : xmins) : PA (option (snapshot * xmins)) :=
  count ← gets xactCompletionCount;
  if snapXactCompletionCount snap =? 0 then mret None
  else if negb (count =? snapXactCompletionCount snap) then mret None
  else
    let d := snap_data snap in
    g' ← advertise_xmin pgprocno (snap_xmin d) g;
    mret (Some (mkSnap (mkSnapshot (snap_xmin d) (snap_xmax d) (xip d) (subxip d) (suboverflowed d)
      (takenDuringRecovery d) cid) (snapXactCompletionCount snap), g')).

(** [GetSnapshotData] outside of recovery, when no id is assigned meanwhile; the
    bounds it keeps for vacuum are [maintain_vis] of [Horizons]. *)
Definition GetSnapshotData (pgprocno : nat) (snap : snapshot) (cid : Z) (g : xmins) : PA (snapshot * xmins) :=
  reused ← GetSnapshotDataReuse pgprocno snap cid g;
  match reused with
  | Some r => mret r
  | None =>
      pa ← get;
      '(mypgxactoff, xmax, sc) ← scan_start pgprocno;
      sc' ← scan_loop mypgxactoff xmax (seq 0 (numProcs pa)) sc;
      scan_finish pgprocno xmax sc' (xactCompletionCount pa) cid g
  end.

(** ** Is a transaction running? *)

(** [SubTransGetTopmostTransaction]; [None] when the fuel does not suffice. *)
Fixpoint topmost (fuel : nat) (s : subtrans) (xmin : Z) (parentXid : Z) : option (result Z) :=
  match fuel with
  | O => None
  | S fuel' =>
      if TransactionIdPrecedes parentXid xmin then Some (Ok parentXid)
      else
        let p := SubTransGetParent s parentXid in
        if negb (TransactionIdPrecedes p parentXid) then Some (Err (ErrReport "pg_subtrans contains invalid entry"))
        else if TransactionIdIsValid p then topmost fuel' s xmin p
        else Some (Ok parentXid)
  end.

Definition SubTransGetTopmostTransaction (fuel : nat) (s : subtrans) (xmin xid : Z) : option (result Z) :=
  if TransactionIdIsValid xid then topmost fuel s xmin xid else Some (Ok xid).

(** The loop over the array: found, or the main ids with uncached children. *)
Fixpoint scan_running (mypgxactoff : nat) (xid : Z) (idx : list nat) (found : list Z) : PA (option (list Z)) :=
  match idx with
  | [] => mret (Some found)
  | i :: idx' =>
      if (i =? mypgxactoff)%nat then scan_running mypgxactoff xid idx' found
      else
        pa ← get;
        pxid ← rd (xids pa) i;
        if negb (TransactionIdIsValid pxid) then scan_running mypgxactoff xid idx' found
        else if pxid =? xid then mret None
        else if TransactionIdPrecedes xid pxid then scan_running mypgxactoff xid idx' found
        else
          st ← rd (subxidStates pa) i;
          pgprocno ← rd (pgprocnos pa) i;
          proc ← rd (allProcs pa) pgprocno;
          if bool_decide (xid ∈ take (sub_count st) (subxids proc)) then mret None
          else scan_running mypgxactoff xid idx' (if overflowed st then found ++ [pxid] else found)
  end.

(** [TransactionIdIsInProgress] outside of recovery: [current] is the backend's
    [TransactionIdIsCurrentTransactionId], [cached] its [cachedXidIsNotInProgress]
    and [aborted] stands for [TransactionIdDidAbort].  [None] when the fuel of the
    walk through [pg_subtrans] does not suffice. *)
Definition TransactionIdIsInProgress (pgprocno : nat) (g : xmins) (current aborted : Z → bool) (fuel : nat)
    (s : subtrans) (cached xid : Z) : PA (option (Z * bool)) :=
  if TransactionIdPrecedes xid (RecentXmin g) then mret (Some (cached, false))
  else if cached =? xid then mret (Some (cached, false))
  else if current xid then mret (Some (cached, true))
  else
    pa ← get;
    if TransactionIdPrecedes (XidFromFullTransactionId (latestCompletedXid pa)) xid then mret (Some (cached, true))
    else
      proc ← MyProc pgprocno;
      running ← scan_running (pgxactoff proc) xid (seq 0 (numProcs pa)) [];
      match running with
      | None => mret (Some (cached, true))
      | Some [] => mret (Some (xid, false))
      | Some found =>
          if aborted xid then mret (Some (xid, false))
          else
            match SubTransGetTopmostTransaction fuel s (TransactionXmin g) xid with
            | None => mret None
            | Some (Err e) => fail e
            | Some (Ok topxid) =>
                if negb (topxid =? xid) && bool_decide (topxid ∈ found) then mret (Some (cached, true))
                else mret (Some (xid, false))
            end
      end.

(** ** The arrays and the [PGPROC]s *)

Definition proc_ok (p : PGPROC) : Prop :=
  length (subxids p) = PGPROC_MAX_CACHED_SUBXIDS ∧ (sub_count (subxidStatus p) ≤ PGPROC_MAX_CACHED_SUBXIDS)%nat ∧
  (proc_xid p = InvalidTransactionId → subxidStatus p = mkCacheStatus 0 false).

(** The [PGPROC]s in the order of the array, with the dense arrays as copies of
    their fields. *)
Record tracks (pa : procs) (ps : list PGPROC) : Prop := mkTracks {
  tr_procs : Forall2 (λ n p, allProcs pa !! n = Some p) (pgprocnos pa) ps;
  tr_off : pgxactoff <$> ps = seq 0 (length ps);
  tr_xids : xids pa = proc_xid <$> ps;
  tr_states : subxidStates pa = subxidStatus <$> ps;
  tr_flags : statusFlags pa = proc_flags <$> ps;
  tr_sorted : StronglySorted lt (pgprocnos pa);
  tr_room : (numProcs pa ≤ maxProcs pa)%nat;
  tr_ok : Forall proc_ok ps
}.

(** The process with number [n] at position [i]. *)
Definition at_pos (pa : procs) (ps : list PGPROC) (n i : nat) (p : PGPROC) : Prop :=
  pgprocnos pa !! i = Some n ∧ ps !! i = Some p.

(** A [PGPROC] with its copies replaced. *)
Definition store (n i : nat) (p : PGPROC) (pa : procs) : procs :=
  mkProcs (maxProcs pa) (pgprocnos pa) (<[i := proc_xid p]> (xids pa)) (<[i := subxidStatus p]> (subxidStates pa))
    (<[i := proc_flags p]> (statusFlags pa)) (<[n := p]> (allProcs pa)) (latestCompletedXid pa) (xactCompletionCount pa).

Section arrays.
Context (pa : procs) (ps : list PGPROC) (Ht : tracks pa ps).

Lemma tracks_length : length ps = numProcs pa.
Proof. symmetry. apply (Forall2_length _ _ _ (tr_procs _ _ Ht)). Qed.

Lemma at_pos_proc n i p : at_pos pa ps n i p → allProcs pa !! n = Some p ∧ pgxactoff p = i ∧ (i < length ps)%nat.
Proof.
  intros [Hn Hp]. split_and!; [exact (Forall2_lookup_lr _ _ _ _ _ _ (tr_procs _ _ Ht) Hn Hp)| |by eapply lookup_lt_Some].
  pose proof (f_equal (lookup i) (tr_off _ _ Ht)) as H. rewrite list_lookup_fmap, Hp in H. cbn in H.
  rewrite lookup_seq_lt in H by (by eapply lookup_lt_Some). by injection H.
Qed.

Lemma at_pos_inj n i j p q : at_pos pa ps n i p → at_pos pa ps n j q → i = j.
Proof.
  intros H1 H2. destruct (at_pos_proc _ _ _ H1) as (Hp & <- & _), (at_pos_proc _ _ _ H2) as (Hq & <- & _). congruence.
Qed.

Lemma pos_exists n : n ∈ pgprocnos pa → ∃ i p, at_pos pa ps n i p.
Proof.
  intros [i Hi]%list_elem_of_lookup. destruct (Forall2_lookup_l _ _ _ _ _ (tr_procs _ _ Ht) Hi) as (p & Hp & _). by exists i, p.
Qed.

Lemma store_tracks n i p p' : at_pos pa ps n i p → pgxactoff p' = i → proc_ok p' → tracks (store n i p' pa) (<[i := p']> ps).
Proof.
  intros Hpos Hoff Hok. pose proof (at_pos_proc _ _ _ Hpos) as (Hp & Hi & Hlt). pose proof tracks_length as Hlen.
  assert (n < length (allProcs pa))%nat as Hn by (by eapply lookup_lt_Some).
  split; cbn [pgprocnos allProcs xids subxidStates statusFlags maxProcs store]; try apply Ht.
  - apply Forall2_same_length_lookup. split; [rewrite length_insert; symmetry; exact Hlen|]. intros j m q Hm Hq.
    destruct (decide (j = i)) as [->|Hji].
    + rewrite list_lookup_insert_eq in Hq by done. injection Hq as <-. destruct Hpos as [Hpi _].
      assert (m = n) as -> by congruence. by rewrite list_lookup_insert_eq.
    + rewrite list_lookup_insert_ne in Hq by done. assert (at_pos pa ps m j q) as Hq' by done.
      rewrite list_lookup_insert_ne; [by eapply at_pos_proc|]. intros <-. by apply Hji, (at_pos_inj n j i q p).
  - rewrite list_fmap_insert, length_insert, Hoff, (tr_off _ _ Ht). apply list_insert_id. by rewrite lookup_seq_lt.
  - by rewrite list_fmap_insert, (tr_xids _ _ Ht).
  - by rewrite list_fmap_insert, (tr_states _ _ Ht).
  - by rewrite list_fmap_insert, (tr_flags _ _ Ht).
  - by apply Forall_insert; [apply Ht|].
Qed.

Lemma dense_reads n i p : at_pos pa ps n i p →
  xids pa !! i = Some (proc_xid p) ∧ subxidStates pa !! i = Some (subxidStatus p) ∧ statusFlags pa !! i = Some (proc_flags p).
Proof. intros [_ Hp]. by rewrite (tr_xids _ _ Ht), (tr_states _ _ Ht), (tr_flags _ _ Ht), !list_lookup_fmap, Hp. Qed.
End arrays.

(** ** The operations *)

(** The process [n] at position [i] with the values of its four places. *)
Definition put4 (n i : nat) (p : PGPROC) (x : Z) (s : XidCacheStatus) (f : Z) (pa : procs) : procs :=
  mkProcs (maxProcs pa) (pgprocnos pa) (<[i := x]> (xids pa)) (<[i := s]> (subxidStates pa)) (<[i := f]> (statusFlags pa))
    (<[n := p]> (allProcs pa)) (latestCompletedXid pa) (xactCompletionCount pa).

Lemma alter_insert_same {A} (g : A → A) (i : nat) (x : A) (l : list A) : alter g i (<[i := x]> l) = <[i := g x]> l.
Proof. revert i. induction l as [|y l IH]; intros [|i]; [done..|]. cbn. f_equal. apply IH. Qed.

Section places.
Context (pa : procs) (n i : nat) (Hn : (n < length (allProcs pa))%nat) (Hx : (i < length (xids pa))%nat).
Context (Hs : (i < length (subxidStates pa))%nat) (Hf : (i < length (statusFlags pa))%nat).

Lemma my_put4 p x s f : MyProc n (put4 n i p x s f pa) = (put4 n i p x s f pa, Ok p).
Proof. unfold MyProc, rd, get, mbind, M_bind. cbn. by rewrite list_lookup_insert_eq. Qed.

Lemma upd_put4 g p x s f : upd_proc n g (put4 n i p x s f pa) = (put4 n i (g p) x s f pa, Ok tt).
Proof.
  unfold upd_proc, get, mbind, M_bind. cbn [put4 allProcs]. rewrite length_insert, (proj2 (Nat.ltb_lt _ _) Hn).
  unfold put, set_allProcs, put4. cbn [maxProcs pgprocnos xids subxidStates statusFlags latestCompletedXid xactCompletionCount].
  by rewrite alter_insert_same.
Qed.

Lemma xid_put4 y p x s f : set_xid_at i y (put4 n i p x s f pa) = (put4 n i p y s f pa, Ok tt).
Proof.
  unfold set_xid_at, get, mbind, M_bind. cbn [put4 xids]. rewrite length_insert, (proj2 (Nat.ltb_lt _ _) Hx).
  unfold put, set_dense, put4. cbn. by rewrite list_insert_insert_eq.
Qed.

Lemma substate_put4 y p x s f : set_substate_at i y (put4 n i p x s f pa) = (put4 n i p x y f pa, Ok tt).
Proof.
  unfold set_substate_at, get, mbind, M_bind. cbn [put4 subxidStates]. rewrite length_insert, (proj2 (Nat.ltb_lt _ _) Hs).
  unfold put, set_dense, put4. cbn. by rewrite list_insert_insert_eq.
Qed.

Lemma flags_put4 y p x s f : set_flags_at i y (put4 n i p x s f pa) = (put4 n i p x s y pa, Ok tt).
Proof.
  unfold set_flags_at, get, mbind, M_bind. cbn [put4 statusFlags]. rewrite length_insert, (proj2 (Nat.ltb_lt _ _) Hf).
  unfold put, set_dense, put4. cbn. by rewrite list_insert_insert_eq.
Qed.

(** The two clearing steps, when the copies agree. *)
Lemma clear_flags_put4 p x s : pgxactoff p = i →
  clear_vacuum_flags n (put4 n i p x s (proc_flags p) pa) =
    let f := if hasflags (proc_flags p) PROC_VACUUM_STATE_MASK then Z.ldiff (proc_flags p) PROC_VACUUM_STATE_MASK else proc_flags p in
    (put4 n i (set_proc_flags f p) x s f pa, Ok tt).
Proof.
  intros Hi. unfold clear_vacuum_flags. rewrite (bind_ok _ _ _ _ _ (my_put4 _ _ _ _)). destruct (hasflags _ _); [|by destruct p].
  rewrite (bind_ok _ _ _ _ _ (upd_put4 _ _ _ _ _)), Hi. apply flags_put4.
Qed.

Lemma clear_subxids_put4 p x f : pgxactoff p = i →
  clear_subxids n (put4 n i p x (subxidStatus p) f pa) =
    (put4 n i (set_subxidStatus (mkCacheStatus 0 false) p) x (mkCacheStatus 0 false) f pa, Ok tt).
Proof.
  intros Hi. unfold clear_subxids. rewrite (bind_ok _ _ _ _ _ (my_put4 _ _ _ _)). destruct (_ || _) eqn:Hc.
  - rewrite Hi, (bind_ok _ _ _ _ _ (substate_put4 _ _ _ _ _)). apply upd_put4.
  - apply orb_false_iff in Hc as [Hc Ho]. apply Nat.ltb_ge in Hc. destruct p as [o y m [k b] l g]. cbn in *.
    assert (k = O) as -> by lia. by subst.
Qed.
End places.

(** The process after the end of its transaction. *)
Definition ended_proc (p : PGPROC) : PGPROC :=
  mkProc (pgxactoff p) InvalidTransactionId InvalidTransactionId (mkCacheStatus 0 false) (subxids p)
    (if hasflags (proc_flags p) PROC_VACUUM_STATE_MASK then Z.ldiff (proc_flags p) PROC_VACUUM_STATE_MASK else proc_flags p).

Definition latest_after (latestXid : Z) (pa : procs) : procs :=
  if TransactionIdPrecedes (XidFromFullTransactionId (latestCompletedXid pa)) latestXid
  then set_latest (FullXidRelativeTo (latestCompletedXid pa) latestXid) pa else pa.

Definition counted (pa : procs) : procs := set_completions (u64 (xactCompletionCount pa + 1)) pa.

Lemma maintain_run x pa : MaintainLatestCompletedXid x pa = (latest_after x pa, Ok tt).
Proof. unfold MaintainLatestCompletedXid, latest_after, gets, mbind, M_bind. by destruct (TransactionIdPrecedes _ _). Qed.

Lemma rd_run {A} (a : list A) j x pa : a !! j = Some x → rd a j pa = (pa, Ok x).
Proof. unfold rd. by intros ->. Qed.

Lemma get_run {A} (k : procs → PA A) pa : (get ≫= k) pa = k pa pa.
Proof. done. Qed.

Lemma lift_run {A B} (a : A) (k : A → PA B) pa : (lift_result (Ok a) ≫= k) pa = k a pa.
Proof. done. Qed.

(** Runs the next step by a given equation. *)
Ltac step eq := erewrite bind_ok by (apply eq; assumption).

Section ops.
Context (pa : procs) (ps : list PGPROC) (Ht : tracks pa ps) (n i : nat) (p : PGPROC) (Hpos : at_pos pa ps n i p).

Lemma in_range : (n < length (allProcs pa))%nat ∧ (i < length (xids pa))%nat ∧ (i < length (subxidStates pa))%nat ∧
  (i < length (statusFlags pa))%nat.
Proof.
  destruct (at_pos_proc _ _ Ht _ _ _ Hpos) as (Hp & _ & Hi). rewrite (tr_xids _ _ Ht), (tr_states _ _ Ht), (tr_flags _ _ Ht), !length_fmap.
  split_and!; [by eapply lookup_lt_Some|done..].
Qed.

Lemma put4_same : put4 n i p (proc_xid p) (subxidStatus p) (proc_flags p) pa = pa.
Proof.
  destruct (dense_reads _ _ Ht _ _ _ Hpos) as (H1 & H2 & H3), (at_pos_proc _ _ Ht _ _ _ Hpos) as (Hp & _).
  unfold put4. rewrite !list_insert_id by done. by destruct pa.
Qed.

Lemma store_put4 p' : put4 n i p' (proc_xid p') (subxidStatus p') (proc_flags p') pa = store n i p' pa.
Proof. done. Qed.

Lemma end_run x : ProcArrayEndTransactionInternal n x pa = (counted (latest_after x (store n i (ended_proc p) pa)), Ok tt).
Proof.
  destruct in_range as (Hn & Hx & Hs & Hf). destruct (at_pos_proc _ _ Ht _ _ _ Hpos) as (_ & Hi & _).
  rewrite <- put4_same at 1. unfold ProcArrayEndTransactionInternal.
  step my_put4. rewrite Hi. step xid_put4. step upd_put4. step upd_put4.
  erewrite bind_ok by (apply (clear_flags_put4 pa n i) with (p := set_proc_xmin _ (set_proc_xid _ p)); done).
  erewrite bind_ok by (apply (clear_subxids_put4 pa n i) with (p := set_proc_flags _ (set_proc_xmin _ (set_proc_xid _ p))); done).
  step maintain_run. done.
Qed.

(** The advertisement of a main id. *)
Lemma new_top_run x : store_new_xid n false x pa = (store n i (set_proc_xid x p) pa, Ok tt).
Proof.
  destruct in_range as (Hn & Hx & Hs & Hf). destruct (at_pos_proc _ _ Ht _ _ _ Hpos) as (_ & Hi & _).
  rewrite <- put4_same at 1. unfold store_new_xid. step my_put4. rewrite Hi. cbn [negb].
  step upd_put4. by rewrite xid_put4.
Qed.

(** The cache after the advertisement of the id of a subtransaction. *)
Definition with_subxid (x : Z) (q : PGPROC) : PGPROC :=
  let k := sub_count (subxidStatus q) in
  if (k <? PGPROC_MAX_CACHED_SUBXIDS)%nat
  then set_subxidStatus (mkCacheStatus (S k) (overflowed (subxidStatus q))) (set_subxids (<[k := x]> (subxids q)) q)
  else set_subxidStatus (mkCacheStatus k true) q.

Lemma new_sub_run x : proc_ok p → store_new_xid n true x pa = (store n i (with_subxid x p) pa, Ok tt).
Proof.
  intros (Hlen & Hcnt & _). destruct in_range as (Hn & Hx & Hs & Hf). destruct (at_pos_proc _ _ Ht _ _ _ Hpos) as (_ & Hi & _).
  rewrite <- put4_same at 1. unfold store_new_xid. step my_put4. rewrite Hi. cbn [negb].
  rewrite get_run. erewrite bind_ok by (apply rd_run; by apply list_lookup_insert_eq).
  unfold with_subxid. destruct (Nat.ltb_spec (sub_count (subxidStatus p)) PGPROC_MAX_CACHED_SUBXIDS) as [Hlt|Hge].
  - rewrite array_write_ok, lift_run by lia.
    step upd_put4. step substate_put4. by rewrite upd_put4.
  - step substate_put4. by rewrite upd_put4.
Qed.

(** An id taken out of the cache. *)
Definition without_subxid (x : Z) (q : PGPROC) : PGPROC :=
  let k := sub_count (subxidStatus q) in
  match find_last x (subxids q) k with
  | None => q
  | Some j =>
      set_subxidStatus (mkCacheStatus (k - 1) (overflowed (subxidStatus q)))
        (set_subxids (<[j := default 0 (subxids q !! (k - 1)%nat)]> (subxids q)) q)
  end.

Lemma remove_run x : proc_ok p → remove_subxid n x pa = (store n i (without_subxid x p) pa, Ok tt).
Proof.
  intros (Hlen & Hcnt & _). destruct in_range as (Hn & Hx & Hs & Hf). destruct (at_pos_proc _ _ Ht _ _ _ Hpos) as (_ & Hi & _).
  rewrite <- put4_same at 1. unfold remove_subxid, without_subxid. step my_put4.
  destruct (find_last x (subxids p) (sub_count (subxidStatus p))) as [j|] eqn:Hj; [|by rewrite <- store_put4].
  assert (0 < sub_count (subxidStatus p))%nat as Hpos0 by (destruct (sub_count _); [done|lia]).
  destruct (lookup_lt_is_Some_2 (subxids p) (sub_count (subxidStatus p) - 1)) as [y Hy]; [lia|].
  erewrite bind_ok by (by apply rd_run). rewrite Hy. step upd_put4. rewrite get_run, Hi.
  erewrite bind_ok by (apply rd_run; by apply list_lookup_insert_eq). step substate_put4. by rewrite upd_put4.
Qed.
End ops.

(** ** The cache of subtransaction ids *)

Definition cached (q : PGPROC) : list Z := take (sub_count (subxidStatus q)) (subxids q).

Lemma with_subxid_cached x q : proc_ok q →
  if overflowed (subxidStatus (with_subxid x q)) then True
  else overflowed (subxidStatus q) = false ∧ cached (with_subxid x q) = cached q ++ [x].
Proof.
  intros (Hlen & Hcnt & _). unfold with_subxid, cached. destruct (Nat.ltb_spec (sub_count (subxidStatus q)) PGPROC_MAX_CACHED_SUBXIDS); [|done].
  cbn. destruct (overflowed (subxidStatus q)); [done|]. split; [done|]. apply take_insert_snoc. lia.
Qed.

Lemma with_subxid_in x y q : proc_ok q → y ∈ cached (with_subxid x q) → y = x ∨ y ∈ cached q.
Proof.
  intros (Hlen & Hcnt & _). unfold with_subxid, cached. destruct (Nat.ltb_spec (sub_count (subxidStatus q)) PGPROC_MAX_CACHED_SUBXIDS); [|by right].
  cbn [sub_count subxidStatus set_subxidStatus subxids set_subxids]. rewrite take_insert_snoc by lia.
  rewrite elem_of_app, list_elem_of_singleton. tauto.
Qed.

Lemma with_subxid_ok x q : proc_ok q → proc_xid q ≠ InvalidTransactionId → proc_ok (with_subxid x q).
Proof.
  intros (Hlen & Hcnt & _) Hx. unfold with_subxid. destruct (Nat.ltb_spec (sub_count (subxidStatus q)) PGPROC_MAX_CACHED_SUBXIDS).
  - split_and!; cbn; [by rewrite length_insert|lia|done].
  - split_and!; cbn; [done|done|done].
Qed.

Lemma find_last_Some x a k j : find_last x a k = Some j → a !! j = Some x ∧ (j < k)%nat.
Proof.
  induction k as [|k IH]; [done|]. cbn. case_bool_decide; [intros [= <-]; split; [done|lia]|]. intros H1%IH. split; [|lia]. apply H1.
Qed.

Lemma find_last_None x a k : find_last x a k = None → x ∉ take k a.
Proof.
  induction k as [|k IH]; cbn [find_last]; [intros _ H; by apply elem_of_nil in H|]. case_bool_decide as Hx; [done|]. intros H%IH.
  destruct (a !! k) as [y|] eqn:Hy.
  - rewrite (take_S_r _ _ _ Hy), elem_of_app, list_elem_of_singleton. intros [?|<-]; [done|]. by apply Hx.
  - apply lookup_ge_None in Hy. rewrite take_ge in H |- * by lia. done.
Qed.

(** One occurrence of the id is gone, whatever the order of the rest. *)
Lemma without_subxid_cached x q : proc_ok q →
  overflowed (subxidStatus (without_subxid x q)) = overflowed (subxidStatus q) ∧
  (cached (without_subxid x q) = cached q ∧ x ∉ cached q ∨ cached q ≡ₚ x :: cached (without_subxid x q)).
Proof.
  intros (Hlen & Hcnt & _). unfold without_subxid, cached. set (k := sub_count (subxidStatus q)) in *.
  destruct (find_last x (subxids q) k) as [j|] eqn:Hj.
  - apply find_last_Some in Hj as [Hxj Hjk]. split; [done|]. right. cbn [sub_count subxidStatus set_subxidStatus subxids set_subxids].
    destruct (lookup_lt_is_Some_2 (subxids q) (k - 1)) as [y Hy]; [lia|]. rewrite Hy. cbn [default from_option].
    replace k with (S (k - 1)) at 1 by lia. rewrite (take_S_r _ _ _ Hy). destruct (decide (j = k - 1)%nat) as [->|Hne].
    + assert (y = x) as -> by congruence. rewrite take_insert_ge by lia. symmetry. apply Permutation_cons_append.
    + assert (take (k - 1) (subxids q) !! j = Some x) as Ht by (rewrite lookup_take_lt by lia; done).
      rewrite take_insert_lt by lia. rewrite (insert_take_drop _ j y) by (by eapply lookup_lt_Some). rewrite <- (take_drop_middle _ _ _ Ht) at 1.
      rewrite <- app_assoc. cbn [app id]. rewrite <- Permutation_middle. constructor. apply Permutation_app_head. symmetry. apply Permutation_cons_append.
  - split; [done|]. left. split; [done|]. by apply find_last_None.
Qed.

Lemma without_subxid_ok x q : proc_ok q → proc_ok (without_subxid x q) ∧ pgxactoff (without_subxid x q) = pgxactoff q ∧
  proc_xid (without_subxid x q) = proc_xid q ∧ proc_flags (without_subxid x q) = proc_flags q.
Proof.
  intros (Hlen & Hcnt & H0). unfold without_subxid. destruct (find_last _ _ _) as [j|] eqn:Hj; [|done].
  apply find_last_Some in Hj as [_ Hj]. split; [|done]. split_and!; cbn; [by rewrite length_insert|lia|].
  intros Hx. rewrite H0 in Hj by done. cbn in Hj. lia.
Qed.

(** Several ids taken out, one after the other. *)
Definition without_subxids (l : list Z) (q : PGPROC) : PGPROC := foldl (λ q x, without_subxid x q) q l.

Lemma without_subxids_ok l q : proc_ok q → proc_ok (without_subxids l q) ∧ pgxactoff (without_subxids l q) = pgxactoff q ∧
  proc_xid (without_subxids l q) = proc_xid q ∧ proc_flags (without_subxids l q) = proc_flags q ∧
  overflowed (subxidStatus (without_subxids l q)) = overflowed (subxidStatus q).
Proof.
  revert q. induction l as [|x l IH]; intros q Hq; [done|]. destruct (without_subxid_ok x q Hq) as (H1 & H2 & H3 & H4).
  destruct (without_subxid_cached x q Hq) as [H5 _]. destruct (IH _ H1) as (I1 & I2 & I3 & I4 & I5). cbn. rewrite H2 in I2. rewrite H3 in I3.
  rewrite H4 in I4. by rewrite H5 in I5.
Qed.

Lemma without_subxids_in l q y : proc_ok q → (y ∈ cached (without_subxids l q) → y ∈ cached q) ∧
  (y ∈ cached q → y ∉ l → y ∈ cached (without_subxids l q)).
Proof.
  revert q. induction l as [|x l IH]; intros q Hq; [done|]. destruct (without_subxid_ok x q Hq) as (H1 & _).
  destruct (IH _ H1) as [I1 I2]. destruct (without_subxid_cached x q Hq) as [_ Hc]. cbn.
  destruct Hc as [[Hc _]|Hc].
  - rewrite Hc in I1, I2. split; [done|]. intros Hy [_ Hl]%not_elem_of_cons. by apply I2.
  - split; [intros Hy; rewrite Hc; right; by apply I1|]. rewrite Hc, elem_of_cons, not_elem_of_cons. intros Hy [Hx Hl].
    destruct Hy as [?|Hy]; [done|by apply I2].
Qed.

Lemma store_store n i p q pa : store n i q (store n i p pa) = store n i q pa.
Proof. unfold store. cbn. by rewrite !list_insert_insert_eq. Qed.

Lemma at_pos_store pa ps n i q : (i < length ps)%nat → pgprocnos pa !! i = Some n → at_pos (store n i q pa) (<[i := q]> ps) n i q.
Proof. intros Hi Hn. split; [done|]. by apply list_lookup_insert_eq. Qed.

Lemma remove_all_run pa ps n i p l : tracks pa ps → at_pos pa ps n i p → proc_ok p →
  mfor l (remove_subxid n) pa = (store n i (without_subxids l p) pa, Ok tt).
Proof.
  revert pa ps p. induction l as [|x l IH]; intros pa ps p Ht Hpos Hok; cbn [mfor].
  - rewrite <- (put4_same pa ps Ht n i p Hpos) at 1. done.
  - destruct (without_subxid_ok x p Hok) as (H1 & H2 & _). destruct (at_pos_proc _ _ Ht _ _ _ Hpos) as (_ & Hi & Hlt).
    erewrite bind_ok by (by eapply remove_run). rewrite (IH _ (<[i := without_subxid x p]> ps) (without_subxid x p)); [by rewrite store_store| |..].
    + eapply store_tracks; [done|done| |done]. by rewrite H2.
    + by apply (at_pos_store pa ps n i); [|apply Hpos].
    + done.
Qed.

Lemma remove_running_run pa ps n i p x children latest : tracks pa ps → at_pos pa ps n i p → proc_ok p →
  XidCacheRemoveRunningXids n x children latest pa =
    (counted (latest_after latest (store n i (without_subxids (reverse children ++ [x]) p) pa)), Ok tt).
Proof.
  intros Ht Hpos Hok. unfold XidCacheRemoveRunningXids.
  erewrite bind_ok by (by eapply remove_all_run). destruct (without_subxids_ok (reverse children) p Hok) as (H1 & H2 & _).
  destruct (at_pos_proc _ _ Ht _ _ _ Hpos) as (_ & Hi & Hlt).
  erewrite bind_ok.
  2:{ eapply remove_run; [|by apply (at_pos_store pa ps n i); [|apply Hpos]|done]. eapply store_tracks; [done|done| |done]. by rewrite H2. }
  step maintain_run. rewrite store_store. unfold without_subxids. by rewrite foldl_app.
Qed.

(** What no operation on a single process changes. *)
Lemma tracks_latest x pa ps : tracks pa ps → tracks (latest_after x pa) ps.
Proof. intros []. unfold latest_after. by destruct (TransactionIdPrecedes _ _). Qed.

Lemma tracks_counted pa ps : tracks pa ps → tracks (counted pa) ps.
Proof. by intros []. Qed.

Lemma ended_ok p : proc_ok p → proc_ok (ended_proc p).
Proof. intros (Hl & Hc & _). split_and!; cbn; [done|lia|done]. Qed.

(** ** Joining and leaving *)

Lemma renumber_loop ns pa c k all : NoDup ns → (k + c ≤ length ns)%nat → (∀ m, m ∈ ns → is_Some (all !! m)) →
  ∃ all', mfor (seq k c) (λ i, procno ← rd ns i; upd_proc procno (set_pgxactoff i)) (set_allProcs all pa) = (set_allProcs all' pa, Ok tt) ∧
    length all' = length all ∧
    (∀ i m, (k ≤ i < k + c)%nat → ns !! i = Some m → all' !! m = set_pgxactoff i <$> all !! m) ∧
    (∀ m, (∀ i, (k ≤ i < k + c)%nat → ns !! i ≠ Some m) → all' !! m = all !! m).
Proof.
  intros Hnd. revert k all. induction c as [|c IH]; intros k all Hk Hin.
  { exists all. split_and!; [done|done|lia|done]. }
  destruct (lookup_lt_is_Some_2 ns k) as [n Hn]; [lia|].
  assert (n ∈ ns) as Hnn by (by eapply list_elem_of_lookup_2). destruct (Hin n Hnn) as [p Hp].
  destruct (IH (S k) (alter (set_pgxactoff k) n all)) as (all' & Hrun & Hlen & H1 & H2); [lia| |].
  { intros m Hm. apply lookup_lt_is_Some. rewrite length_alter. apply lookup_lt_is_Some. by apply Hin. }
  exists all'. split_and!.
  - cbn [seq mfor]. erewrite bind_ok; [exact Hrun|]. erewrite bind_ok by (by apply rd_run). unfold upd_proc. rewrite get_run.
    cbn [allProcs set_allProcs]. by rewrite (proj2 (Nat.ltb_lt _ _) (lookup_lt_Some _ _ _ Hp)).
  - by rewrite Hlen, length_alter.
  - intros i m Hi Hm. destruct (decide (i = k)) as [->|Hne].
    + assert (m = n) as -> by congruence. rewrite H2; [by rewrite list_lookup_alter_eq|]. intros j Hj Hjn.
      pose proof (NoDup_lookup _ _ _ _ Hnd Hn Hjn). lia.
    + rewrite (H1 i m) by (done || lia). rewrite list_lookup_alter_ne; [done|]. intros ->. pose proof (NoDup_lookup _ _ _ _ Hnd Hn Hm). lia.
  - intros m Hm. rewrite H2 by (intros j Hj; apply Hm; lia). apply list_lookup_alter_ne. intros ->. apply (Hm k); [lia|done].
Qed.

Definition renumbered (ps : list PGPROC) : list PGPROC := imap set_pgxactoff ps.

Lemma renumbered_lookup ps i : renumbered ps !! i = set_pgxactoff i <$> ps !! i.
Proof. unfold renumbered. by rewrite list_lookup_imap. Qed.

(** The dense arrays in place, only the positions from [k] on are stale. *)
Lemma renumber_tracks pa ps k : Forall2 (λ n p, allProcs pa !! n = Some p) (pgprocnos pa) ps →
  (∀ i p, (i < k)%nat → ps !! i = Some p → pgxactoff p = i) →
  xids pa = proc_xid <$> ps → subxidStates pa = subxidStatus <$> ps → statusFlags pa = proc_flags <$> ps →
  StronglySorted lt (pgprocnos pa) → (numProcs pa ≤ maxProcs pa)%nat → Forall proc_ok ps → (k ≤ numProcs pa)%nat →
  ∃ all', renumber k pa = (set_allProcs all' pa, Ok tt) ∧ tracks (set_allProcs all' pa) (renumbered ps) ∧
    length all' = length (allProcs pa) ∧ ∀ m, m ∉ pgprocnos pa → all' !! m = allProcs pa !! m.
Proof.
  intros Hall Hk Hx Hs Hf Hsort Hroom Hok Hkn.
  assert (NoDup (pgprocnos pa)) as Hnd.
  { clear -Hsort. induction Hsort as [|n ns _ IH Hn]; [constructor|]. constructor; [|done]. intros Hin.
    rewrite list.Forall_forall in Hn. specialize (Hn n Hin). lia. }
  destruct (renumber_loop (pgprocnos pa) pa (numProcs pa - k) k (allProcs pa)) as (all' & Hrun & Hlen & H1 & H2); [done|unfold numProcs in *; lia| |].
  { intros m [i Hi]%list_elem_of_lookup. destruct (Forall2_lookup_l _ _ _ _ _ Hall Hi) as (p & _ & Hp). by exists p. }
  exists all'. split_and!; [|split|done|].
  - unfold renumber. rewrite get_run. by destruct pa.
  - apply Forall2_same_length_lookup. split; [unfold renumbered; rewrite length_imap; by apply Forall2_length in Hall|].
    cbn. intros i n q Hn Hq. rewrite renumbered_lookup in Hq. destruct (ps !! i) as [p|] eqn:Hp; [|done]. injection Hq as <-.
    pose proof (Forall2_lookup_lr _ _ _ _ _ _ Hall Hn Hp) as Hap. cbn in Hap. destruct (decide (i < k)%nat) as [Hi|Hi].
    + rewrite H2, Hap; [|intros j Hj Hjn; pose proof (NoDup_lookup _ _ _ _ Hnd Hn Hjn); lia].
      rewrite <- (Hk i p Hi Hp) at 1. by destruct p.
    + rewrite (H1 i n); [by rewrite Hap| |done]. apply lookup_lt_Some in Hn. unfold numProcs. lia.
  - apply list_eq. intros i. rewrite list_lookup_fmap, renumbered_lookup. unfold renumbered. rewrite length_imap.
    destruct (ps !! i) as [p|] eqn:Hp; cbn; [by rewrite lookup_seq_lt by (by eapply lookup_lt_Some)|].
    apply lookup_ge_None in Hp. symmetry. apply lookup_seq_ge. lia.
  - cbn. rewrite Hx. apply list_eq. intros i. rewrite !list_lookup_fmap, renumbered_lookup. by destruct (ps !! i).
  - cbn. rewrite Hs. apply list_eq. intros i. rewrite !list_lookup_fmap, renumbered_lookup. by destruct (ps !! i).
  - cbn. rewrite Hf. apply list_eq. intros i. rewrite !list_lookup_fmap, renumbered_lookup. by destruct (ps !! i).
  - done.
  - done.
  - apply Forall_lookup. intros i p Hp. rewrite renumbered_lookup in Hp. destruct (ps !! i) as [q|] eqn:Hq; [|done]. injection Hp as <-.
    exact (proj1 (Forall_lookup _ _) Hok i q Hq).
  - intros m Hm. apply H2. intros i _ Hi. apply Hm. by eapply list_elem_of_lookup_2.
Qed.

Lemma find_position_le n ns : (find_position n ns ≤ length ns)%nat.
Proof. induction ns as [|m ns IH]; cbn [find_position length]; [done|]. destruct (n <? m)%nat; lia. Qed.

Lemma find_position_sorted n ns : StronglySorted lt ns → n ∉ ns → StronglySorted lt (open_gap (find_position n ns) n ns).
Proof.
  unfold open_gap. induction 1 as [|m ns Hs IH Hm]; intros Hn; [by repeat constructor|]. cbn [find_position].
  apply not_elem_of_cons in Hn as [Hnm Hn]. destruct (Nat.ltb_spec n m) as [Hlt|Hge].
  - cbn. constructor; [by constructor|]. constructor; [done|]. eapply list.Forall_impl; [exact Hm|]. intros x Hx. simpl in Hx. lia.
  - cbn [take drop app]. constructor; [by apply IH|]. rewrite list.Forall_forall in Hm. apply Forall_app. split.
    + apply list.Forall_forall. intros x Hx. apply Hm. by eapply elem_of_take in Hx as (? & ?%list_elem_of_lookup_2 & _).
    + constructor; [lia|]. apply list.Forall_forall. intros x Hx. apply Hm. rewrite <- (take_drop (find_position n ns) ns), elem_of_app. by right.
Qed.

Lemma close_gap_sublist {A} i (l : list A) : close_gap i l `sublist_of` l.
Proof.
  unfold close_gap. rewrite <- (take_drop i l) at 3. apply sublist_app; [done|].
  replace (drop (S i) l) with (drop 1 (drop i l)) by (rewrite drop_drop; f_equal; lia). apply sublist_drop.
Qed.

Lemma sorted_sublist (ns ms : list nat) : ms `sublist_of` ns → StronglySorted lt ns → StronglySorted lt ms.
Proof.
  induction 1 as [|n ms ns Hsub IH|n ms ns Hsub IH]; [done|..]; intros Hs; apply StronglySorted_inv in Hs as [Hs Hn]; [|by apply IH].
  constructor; [by apply IH|]. rewrite list.Forall_forall in Hn |- *. intros x Hx. apply Hn. by eapply elem_of_submseteq, sublist_submseteq.
Qed.

Lemma fmap_open_gap {A B} (f : A → B) i x (l : list A) : f <$> open_gap i x l = open_gap i (f x) (f <$> l).
Proof. unfold open_gap. by rewrite fmap_app, fmap_cons, fmap_take, fmap_drop. Qed.

Lemma fmap_close_gap {A B} (f : A → B) i (l : list A) : f <$> close_gap i l = close_gap i (f <$> l).
Proof. unfold close_gap. by rewrite fmap_app, fmap_take, fmap_drop. Qed.

Lemma Forall2_open_gap {A B} (R : A → B → Prop) i x y l k : R x y → Forall2 R l k → Forall2 R (open_gap i x l) (open_gap i y k).
Proof. intros Hxy H. apply Forall2_app; [by apply Forall2_take|]. constructor; [done|]. by apply Forall2_drop. Qed.

Lemma Forall2_close_gap {A B} (R : A → B → Prop) i l k : Forall2 R l k → Forall2 R (close_gap i l) (close_gap i k).
Proof. intros H. apply Forall2_app; [by apply Forall2_take|by apply Forall2_drop]. Qed.

Lemma length_open_gap {A} i x (l : list A) : length (open_gap i x l) = S (length l).
Proof. unfold open_gap. rewrite length_app. cbn. rewrite length_take, length_drop. lia. Qed.

Lemma length_close_gap {A} i (l : list A) : (i < length l)%nat → S (length (close_gap i l)) = length l.
Proof. intros Hi. unfold close_gap. rewrite length_app, length_take, length_drop. lia. Qed.

Lemma close_gap_insert {A} i x (l : list A) : close_gap i (<[i := x]> l) = close_gap i l.
Proof. unfold close_gap. by rewrite take_insert_ge, drop_insert_lt by lia. Qed.

Section joining.
Context (pa : procs) (ps : list PGPROC) (Ht : tracks pa ps) (n : nat).

Lemma add_run p : n ∉ pgprocnos pa → allProcs pa !! n = Some p → proc_ok p → (numProcs pa < maxProcs pa)%nat →
  let i := find_position n (pgprocnos pa) in
  ∃ pa', ProcArrayAdd n pa = (pa', Ok tt) ∧ tracks pa' (renumbered (open_gap i p ps)) ∧
    pgprocnos pa' = open_gap i n (pgprocnos pa) ∧ latestCompletedXid pa' = latestCompletedXid pa ∧
    xactCompletionCount pa' = xactCompletionCount pa ∧ ∀ m, m ∉ pgprocnos pa' → allProcs pa' !! m = allProcs pa !! m.
Proof.
  intros Hn Hp Hok Hroom i. pose proof (find_position_le n (pgprocnos pa)) as Hi. fold i in Hi.
  set (p' := set_pgxactoff i p).
  set (pa1 := mkProcs (maxProcs pa) (open_gap i n (pgprocnos pa)) (open_gap i (proc_xid p') (xids pa)) (open_gap i (subxidStatus p') (subxidStates pa))
    (open_gap i (proc_flags p') (statusFlags pa)) (<[n := p']> (allProcs pa)) (latestCompletedXid pa) (xactCompletionCount pa)).
  pose proof (tracks_length _ _ Ht) as Hlen. unfold numProcs in *.
  destruct (renumber_tracks pa1 (open_gap i p' ps) (S i)) as (all' & Hrun & Htr & Hl & Hout); cbn [pa1 pgprocnos allProcs xids subxidStates statusFlags].
  - apply Forall2_open_gap; [by rewrite list_lookup_insert_eq by (by eapply lookup_lt_Some)|].
    apply Forall2_same_length_lookup. split; [done|]. intros j m q Hm Hq. rewrite list_lookup_insert_ne.
    + exact (Forall2_lookup_lr _ _ _ _ _ _ (tr_procs _ _ Ht) Hm Hq).
    + intros <-. apply Hn. by eapply list_elem_of_lookup_2.
  - intros j q Hj. unfold open_gap. destruct (decide (j = i)) as [->|Hne].
    + rewrite lookup_app_r, length_take by (rewrite length_take; lia). replace (i - i `min` length ps)%nat with O by lia. by intros [= <-].
    + rewrite lookup_app_l by (rewrite length_take; lia). rewrite lookup_take_lt by lia. intros Hq.
      destruct (Forall2_lookup_r _ _ _ _ _ (tr_procs _ _ Ht) Hq) as (m & Hm & _). by apply (at_pos_proc _ _ Ht m j q).
  - by rewrite fmap_open_gap, (tr_xids _ _ Ht).
  - by rewrite fmap_open_gap, (tr_states _ _ Ht).
  - by rewrite fmap_open_gap, (tr_flags _ _ Ht).
  - apply find_position_sorted; [apply Ht|done].
  - unfold numProcs. cbn. rewrite length_open_gap. lia.
  - apply Forall_app. split; [apply Forall_take, Ht|]. constructor; [done|]. apply Forall_drop, Ht.
  - unfold numProcs. cbn. rewrite length_open_gap. lia.
  - exists (set_allProcs all' pa1). split; [|split; [|split_and!; [done|done|done|]]].
    3:{ intros m Hm. cbn in Hm |- *. rewrite Hout by done. cbn. rewrite list_lookup_insert_ne; [done|]. intros <-. apply Hm.
        unfold open_gap. rewrite elem_of_app, elem_of_cons. tauto. }
    + unfold ProcArrayAdd. rewrite get_run. unfold numProcs. rewrite (proj2 (Nat.leb_gt _ _)) by done.
      unfold MyProc at 1. erewrite bind_ok by (rewrite get_run; by apply rd_run). fold i.
      erewrite bind_ok by reflexivity. erewrite bind_ok; [exact Hrun|]. unfold upd_proc. rewrite get_run. cbn [allProcs set_dense].
      rewrite (proj2 (Nat.ltb_lt _ _) (lookup_lt_Some _ _ _ Hp)). unfold put, set_allProcs, set_dense, pa1. cbn. do 2 f_equal.
      apply list_eq. intros j. destruct (decide (j = n)) as [->|Hne].
      * by rewrite list_lookup_alter_eq, Hp, list_lookup_insert_eq by (by eapply lookup_lt_Some).
      * by rewrite list_lookup_alter_ne, list_lookup_insert_ne.
    + replace (renumbered (open_gap i p ps)) with (renumbered (open_gap i p' ps)); [exact Htr|].
      apply list_eq. intros j. rewrite !renumbered_lookup. unfold open_gap. destruct (decide (j = i)) as [->|Hne].
      * rewrite !lookup_app_r, length_take by (rewrite length_take; lia). by replace (i - i `min` length ps)%nat with O by lia.
      * destruct (decide (j < i)%nat); [by rewrite !lookup_app_l by (rewrite length_take; lia)|].
        rewrite !lookup_app_r, length_take by (rewrite length_take; lia). by destruct (j - i `min` length ps)%nat eqn:?; [lia|].
Qed.

(** The global part of leaving the array as a prepared transaction. *)
Definition completed (latestXid : Z) (q : procs) : procs :=
  if TransactionIdIsValid latestXid then counted (latest_after latestXid q) else q.

Lemma completed_fields x q : maxProcs (completed x q) = maxProcs q ∧ pgprocnos (completed x q) = pgprocnos q ∧ xids (completed x q) = xids q ∧
  subxidStates (completed x q) = subxidStates q ∧ statusFlags (completed x q) = statusFlags q ∧ allProcs (completed x q) = allProcs q.
Proof. unfold completed, latest_after. destruct (TransactionIdIsValid x); [|done]. by destruct (TransactionIdPrecedes _ _). Qed.

Lemma completed_put4 x i p y s f : completed x (put4 n i p y s f pa) = put4 n i p y s f (completed x pa).
Proof. unfold completed, latest_after. cbn. destruct (TransactionIdIsValid x); [|done]. by destruct (TransactionIdPrecedes _ _). Qed.

Lemma remove_arrays x i p : at_pos pa ps n i p →
  ∃ xs ss, ProcArrayRemove n x pa =
    renumber i (set_dense (close_gap i (pgprocnos pa)) (close_gap i (<[i := xs]> (xids pa))) (close_gap i (<[i := ss]> (subxidStates pa)))
      (close_gap i (<[i := 0]> (statusFlags pa))) (completed x pa)).
Proof.
  intros Hpos. destruct (in_range pa ps Ht n i p Hpos) as (Hn & Hx & Hs & Hf). destruct (at_pos_proc _ _ Ht _ _ _ Hpos) as (Hp & Hi & _).
  destruct (completed_fields x pa) as (E1 & E2 & E3 & E4 & E5 & E6). rewrite <- E6 in Hn. rewrite <- E3 in Hx. rewrite <- E4 in Hs. rewrite <- E5 in Hf.
  unfold ProcArrayRemove. erewrite bind_ok by (unfold MyProc; rewrite get_run; by apply rd_run). cbv zeta. rewrite Hi.
  set (xs := if TransactionIdIsValid x then InvalidTransactionId else proc_xid p).
  set (ss := if TransactionIdIsValid x then mkCacheStatus 0 false else subxidStatus p). exists xs, ss.
  erewrite (bind_ok _ _ pa (put4 n i p xs ss (proc_flags p) (completed x pa))).
  - step flags_put4. rewrite get_run. erewrite bind_ok by reflexivity. f_equal. unfold set_dense, put4. cbn.
    rewrite E1, E2, E3, E4, E5. f_equal. rewrite E6. by apply list_insert_id.
  - rewrite <- (put4_same pa ps Ht n i p Hpos) at 1. unfold xs, ss. pose proof (completed_put4 x i p (proc_xid p) (subxidStatus p) (proc_flags p)) as Hc.
    unfold completed in Hc at 1. destruct (TransactionIdIsValid x).
    + step maintain_run. erewrite bind_ok by reflexivity. fold counted. change (set_completions _ _) with (counted (latest_after x (put4 n i p (proc_xid p) (subxidStatus p) (proc_flags p) pa))).
      rewrite Hc. step xid_put4. by rewrite substate_put4.
    + by rewrite <- Hc.
Qed.

Lemma remove_proc_run x i p : at_pos pa ps n i p →
  ∃ pa', ProcArrayRemove n x pa = (pa', Ok tt) ∧ tracks pa' (renumbered (close_gap i ps)) ∧
    pgprocnos pa' = close_gap i (pgprocnos pa) ∧ latestCompletedXid pa' = latestCompletedXid (completed x pa) ∧
    xactCompletionCount pa' = xactCompletionCount (completed x pa) ∧ ∀ m, m ∉ pgprocnos pa' → allProcs pa' !! m = allProcs pa !! m.
Proof.
  intros Hpos. destruct (remove_arrays x i p Hpos) as (xs & ss & ->). rewrite !close_gap_insert.
  destruct (completed_fields x pa) as (E1 & E2 & E3 & E4 & E5 & E6). destruct (at_pos_proc _ _ Ht _ _ _ Hpos) as (_ & _ & Hlt).
  pose proof (tracks_length _ _ Ht) as Hlen. unfold numProcs in Hlen. pose proof (length_close_gap i (pgprocnos pa) ltac:(lia)) as Hlg.
  set (pa1 := set_dense _ _ _ _ _).
  destruct (renumber_tracks pa1 (close_gap i ps) i) as (all' & Hrun & Htr & _ & Hout); cbn.
  - rewrite E6. apply Forall2_close_gap, Ht.
  - intros j q Hj. unfold close_gap. rewrite lookup_app_l by (rewrite length_take; lia). rewrite lookup_take_lt by lia. intros Hq.
    destruct (Forall2_lookup_r _ _ _ _ _ (tr_procs _ _ Ht) Hq) as (m & Hm & _). by apply (at_pos_proc _ _ Ht m j q).
  - by rewrite fmap_close_gap, (tr_xids _ _ Ht).
  - by rewrite fmap_close_gap, (tr_states _ _ Ht).
  - by rewrite fmap_close_gap, (tr_flags _ _ Ht).
  - eapply sorted_sublist; [apply close_gap_sublist|apply Ht].
  - rewrite E1. pose proof (tr_room _ _ Ht) as Hr. unfold numProcs in *. cbn. lia.
  - apply Forall_app. split; [apply Forall_take, Ht|apply Forall_drop, Ht].
  - unfold numProcs. cbn. lia.
  - exists (set_allProcs all' pa1). split_and!; [done..|]. intros m Hm. cbn in Hm |- *. rewrite Hout by done. cbn. by rewrite E6.
Qed.
End joining.

(** ** Reading the array *)

Section reading.
Context (pa : procs) (ps : list PGPROC) (Ht : tracks pa ps) (n i : nat) (p : PGPROC) (Hpos : at_pos pa ps n i p).

Lemma my_run : MyProc n pa = (pa, Ok p).
Proof. unfold MyProc. rewrite get_run. apply rd_run. by apply (at_pos_proc _ _ Ht _ _ _ Hpos). Qed.

Lemma xmin_run x : upd_proc n (set_proc_xmin x) pa = (store n i (set_proc_xmin x p) pa, Ok tt).
Proof.
  destruct (in_range pa ps Ht n i p Hpos) as (Hn & _). rewrite <- (put4_same pa ps Ht n i p Hpos) at 1. by rewrite upd_put4.
Qed.

(** The process after the end of a transaction without an id. *)
Definition idle_proc (q : PGPROC) : PGPROC :=
  let q := set_proc_xmin InvalidTransactionId q in
  if hasflags (proc_flags q) PROC_VACUUM_STATE_MASK then set_proc_flags (Z.ldiff (proc_flags q) PROC_VACUUM_STATE_MASK) q else q.

Lemma idle_run : ProcArrayEndTransaction n InvalidTransactionId pa = (store n i (idle_proc p) pa, Ok tt).
Proof.
  destruct (in_range pa ps Ht n i p Hpos) as (Hn & Hx & Hs & Hf). destruct (at_pos_proc _ _ Ht _ _ _ Hpos) as (_ & Hi & _).
  rewrite <- (put4_same pa ps Ht n i p Hpos) at 1. unfold ProcArrayEndTransaction. cbn [TransactionIdIsValid].
  change (TransactionIdIsValid InvalidTransactionId) with false. cbn iota. step upd_put4.
  etrans; [apply (clear_flags_put4 pa n i) with (p := set_proc_xmin InvalidTransactionId p); done|]. unfold idle_proc. cbn.
  rewrite <- store_put4. by destruct (hasflags (proc_flags p) _), p.
Qed.

(** The process after its transaction has been handed to a dummy process. *)
Definition cleared_proc (q : PGPROC) : PGPROC :=
  mkProc (pgxactoff q) InvalidTransactionId InvalidTransactionId (mkCacheStatus 0 false) (subxids q) (proc_flags q).

Lemma clear_run : ProcArrayClearTransaction n pa = (counted (store n i (cleared_proc p) pa), Ok tt).
Proof.
  destruct (in_range pa ps Ht n i p Hpos) as (Hn & Hx & Hs & Hf). destruct (at_pos_proc _ _ Ht _ _ _ Hpos) as (_ & Hi & _).
  rewrite <- (put4_same pa ps Ht n i p Hpos) at 1. unfold ProcArrayClearTransaction.
  step my_put4. rewrite Hi. step xid_put4. step upd_put4. step upd_put4. erewrite bind_ok by reflexivity.
  etrans; [apply (clear_subxids_put4 (counted pa) n i) with (p := set_proc_xmin _ (set_proc_xid _ p)); done|]. done.
Qed.

(** The two halves of an iteration of [GetSnapshotData]. *)
Definition seen_xid (mypgxactoff : nat) (xmax : Z) (sc : scan) : scan * bool :=
  if proc_xid p =? InvalidTransactionId then (sc, false)
  else if (i =? mypgxactoff)%nat then (sc, false)
  else if negb (NormalTransactionIdPrecedes (proc_xid p) xmax) then (sc, false)
  else if hasflags (proc_flags p) (Z.lor PROC_IN_LOGICAL_DECODING PROC_IN_VACUUM) then (sc, false)
  else (mkScan (if NormalTransactionIdPrecedes (proc_xid p) (sc_xmin sc) then proc_xid p else sc_xmin sc)
          (sc_xip sc ++ [proc_xid p]) (sc_subxip sc) (sc_suboverflowed sc), true).

Definition seen_subxids (sc : scan) : scan :=
  if sc_suboverflowed sc then sc
  else if overflowed (subxidStatus p) then mkScan (sc_xmin sc) (sc_xip sc) (sc_subxip sc) true
  else mkScan (sc_xmin sc) (sc_xip sc) (sc_subxip sc ++ cached p) false.

Lemma scan_xid_run my xmax sc : scan_xid my xmax i sc pa = (pa, Ok (seen_xid my xmax sc)).
Proof.
  destruct (dense_reads _ _ Ht _ _ _ Hpos) as (H1 & _ & H3). unfold scan_xid, seen_xid. rewrite get_run.
  erewrite bind_ok by (by apply rd_run). destruct (_ =? _); [done|]. destruct (_ =? _)%nat; [done|]. destruct (negb _); [done|].
  erewrite bind_ok by (by apply rd_run). by destruct (hasflags _ _).
Qed.

Lemma scan_subxids_run sc : scan_subxids i sc pa = (pa, Ok (seen_subxids sc)).
Proof.
  destruct (dense_reads _ _ Ht _ _ _ Hpos) as (_ & H2 & _). destruct (at_pos_proc _ _ Ht _ _ _ Hpos) as (Hp & _). destruct Hpos as [Hn _].
  unfold scan_subxids, seen_subxids. destruct (sc_suboverflowed sc) eqn:Hso; [done|]. rewrite get_run.
  erewrite bind_ok by (by apply rd_run). destruct (overflowed _) eqn:Ho; [done|]. unfold cached.
  destruct (Nat.ltb_spec 0 (sub_count (subxidStatus p))) as [Hlt|Hge].
  - erewrite bind_ok by (by apply rd_run). erewrite bind_ok by (by apply rd_run). done.
  - assert (sub_count (subxidStatus p) = O) as -> by lia. cbn. rewrite app_nil_r. unfold mret, M_ret. do 2 f_equal. destruct sc; cbn in *. by rewrite Hso.
Qed.

Lemma scan_start_run : scan_start n pa =
  let xmax := TransactionIdAdvance (XidFromFullTransactionId (latestCompletedXid pa)) in
  (pa, Ok (i, xmax, mkScan (if TransactionIdIsNormal (proc_xid p) && NormalTransactionIdPrecedes (proc_xid p) xmax then proc_xid p else xmax) [] [] false)).
Proof.
  destruct (dense_reads _ _ Ht _ _ _ Hpos) as (H1 & _). destruct (at_pos_proc _ _ Ht _ _ _ Hpos) as (_ & Hi & _).
  unfold scan_start. rewrite get_run. erewrite bind_ok by apply my_run. rewrite Hi. erewrite bind_ok by (by apply rd_run). done.
Qed.

Definition vacuum_proc (is_wraparound : bool) (q : PGPROC) : PGPROC :=
  let f := Z.lor (proc_flags q) PROC_IN_VACUUM in
  set_proc_flags (if is_wraparound then Z.lor f PROC_VACUUM_FOR_WRAPAROUND else f) q.

Lemma vacuum_run w : set_vacuum_flags n w pa = (store n i (vacuum_proc w p) pa, Ok tt).
Proof.
  destruct (in_range pa ps Ht n i p Hpos) as (Hn & Hx & Hs & Hf). destruct (at_pos_proc _ _ Ht _ _ _ Hpos) as (_ & Hi & _).
  rewrite <- (put4_same pa ps Ht n i p Hpos) at 1. unfold set_vacuum_flags. step upd_put4. destruct w.
  - step upd_put4. step my_put4. cbn [pgxactoff set_proc_flags]. rewrite Hi. by rewrite flags_put4.
  - erewrite bind_ok by reflexivity. step my_put4. cbn [pgxactoff set_proc_flags]. rewrite Hi. by rewrite flags_put4.
Qed.

Lemma advertise_run x g : advertise_xmin n x g pa =
  if TransactionIdIsValid (proc_xmin p) then (pa, Ok (mkXmins (TransactionXmin g) x))
  else (store n i (set_proc_xmin x p) pa, Ok (mkXmins x x)).
Proof.
  unfold advertise_xmin. erewrite bind_ok by apply my_run. destruct (TransactionIdIsValid (proc_xmin p)); cbn [negb]; [done|].
  erewrite bind_ok by apply xmin_run. done.
Qed.
End reading.

(** ** Processes outside of the array *)

Lemma upd_run pa n g q : allProcs pa !! n = Some q → upd_proc n g pa = (set_allProcs (<[n := g q]> (allProcs pa)) pa, Ok tt).
Proof.
  intros Hq. unfold upd_proc. rewrite get_run, (proj2 (Nat.ltb_lt _ _) (lookup_lt_Some _ _ _ Hq)). unfold put. do 2 f_equal.
  rewrite <- (list_insert_id (allProcs pa) n q) at 1 by done. apply alter_insert_same.
Qed.

Lemma upd_again pa n g q : (n < length (allProcs pa))%nat →
  upd_proc n g (set_allProcs (<[n := q]> (allProcs pa)) pa) = (set_allProcs (<[n := g q]> (allProcs pa)) pa, Ok tt).
Proof.
  intros Hn. rewrite (upd_run _ _ _ q) by (by apply list_lookup_insert_eq). unfold set_allProcs. cbn. by rewrite list_insert_insert_eq.
Qed.

Lemma outside_tracks pa ps n q : tracks pa ps → n ∉ pgprocnos pa → tracks (set_allProcs (<[n := q]> (allProcs pa)) pa) ps.
Proof.
  intros [] Hn. split; try done. cbn. apply Forall2_same_length_lookup. split; [by eapply Forall2_length|].
  intros i m p Hm Hp. rewrite list_lookup_insert_ne; [exact (Forall2_lookup_lr _ _ _ _ _ _ tr_procs0 Hm Hp)|].
  intros <-. apply Hn. by eapply list_elem_of_lookup_2.
Qed.

Definition fresh_proc (autovacuum : bool) (q : PGPROC) : PGPROC :=
  mkProc (pgxactoff q) InvalidTransactionId InvalidTransactionId (subxidStatus q) (subxids q) (if autovacuum then PROC_IS_AUTOVACUUM else 0).

Lemma init_run pa n auto q : allProcs pa !! n = Some q →
  InitProcess n auto pa = (set_allProcs (<[n := fresh_proc auto q]> (allProcs pa)) pa, Ok tt).
Proof.
  intros Hq. pose proof (lookup_lt_Some _ _ _ Hq). unfold InitProcess. erewrite bind_ok by (by apply upd_run).
  erewrite bind_ok by (by apply upd_again). by rewrite upd_again.
Qed.

(** The dummy of a prepared transaction. *)
Definition dummy_proc (xid : Z) (children : list Z) : PGPROC :=
  let k := (length children `min` PGPROC_MAX_CACHED_SUBXIDS)%nat in
  mkProc 0 xid InvalidTransactionId (mkCacheStatus k (PGPROC_MAX_CACHED_SUBXIDS <? length children)%nat)
    (take k children ++ replicate (PGPROC_MAX_CACHED_SUBXIDS - k) 0) 0.

Lemma dummy_run pa n xid children : (n < length (allProcs pa))%nat →
  (MarkAsPreparingGuts n xid ;; GXactLoadSubxactData n children) pa =
    (set_allProcs (<[n := dummy_proc xid children]> (allProcs pa)) pa, Ok tt).
Proof.
  intros Hn. destruct (lookup_lt_is_Some_2 _ _ Hn) as [q Hq].
  erewrite (bind_ok (MarkAsPreparingGuts n xid)).
  2:{ unfold MarkAsPreparingGuts. erewrite bind_ok by (by apply upd_run). by apply upd_again. }
  unfold GXactLoadSubxactData, dummy_proc. cbv zeta. destruct (Nat.ltb_spec PGPROC_MAX_CACHED_SUBXIDS (length children)) as [Hlt|Hge].
  - erewrite bind_ok by (by apply upd_again). rewrite Nat.min_r by lia. rewrite (proj2 (Nat.ltb_lt _ _)) by (unfold PGPROC_MAX_CACHED_SUBXIDS; lia).
    erewrite bind_ok by (by apply upd_again). rewrite upd_again by done. cbn [subxids set_proc_xid set_subxidStatus]. by rewrite drop_replicate.
  - erewrite bind_ok by reflexivity. rewrite Nat.min_l by lia. destruct (Nat.ltb_spec 0 (length children)) as [Hlt|Hz].
    + erewrite bind_ok by (by apply upd_again). rewrite upd_again by done. cbn [subxids set_proc_xid]. by rewrite drop_replicate.
    + assert (length children = O) as -> by lia. cbn [take app]. by rewrite Nat.sub_0_r.
Qed.

Lemma dummy_ok xid children : xid ≠ InvalidTransactionId → proc_ok (dummy_proc xid children).
Proof. intros Hx. unfold dummy_proc. split_and!; cbn [subxids subxidStatus sub_count proc_xid]; [|lia|done]. rewrite length_app, length_take, length_replicate. lia. Qed.

Lemma dummy_cached xid children : cached (dummy_proc xid children) = take (length children `min` PGPROC_MAX_CACHED_SUBXIDS)%nat children.
Proof. unfold cached, dummy_proc. cbn [sub_count subxidStatus subxids]. apply take_app_length'. rewrite length_take. lia. Qed.

(** ** The arrays in every reachable state *)

(** What backends do to the array. *)
Inductive pa_op : Type :=
| OpJoin (n : nat) (autovacuum : bool)
| OpLeave (n : nat)
| OpVacuum (n : nat) (is_wraparound : bool)
| OpNewXid (n : nat) (isSubXact : bool) (xid : Z)
| OpAbortSubs (n : nat) (xid : Z) (children : list Z) (latestXid : Z)
| OpEnd (n : nat) (latestXid : Z)
| OpGroupEnd (members : list (nat * Z))
| OpPrepare (n dummy : nat) (xid : Z) (children : list Z)
| OpClear (n : nat)
| OpFinishPrepared (dummy : nat) (latestXid : Z)
| OpSnapshot (n : nat) (snap : snapshot) (cid : Z) (g : xmins).

Definition pa_run (op : pa_op) : PA unit :=
  match op with
  | OpJoin n autovacuum => InitProcess n autovacuum ;; ProcArrayAdd n
  | OpLeave n => ProcArrayRemove n InvalidTransactionId
  | OpVacuum n w => set_vacuum_flags n w
  | OpNewXid n isSubXact xid => store_new_xid n isSubXact xid
  | OpAbortSubs n xid children latestXid => XidCacheRemoveRunningXids n xid children latestXid
  | OpEnd n latestXid => ProcArrayEndTransaction n latestXid
  | OpGroupEnd members => ProcArrayGroupClearXid members
  | OpPrepare n dummy xid children => (MarkAsPreparingGuts dummy xid ;; GXactLoadSubxactData dummy children) ;; MarkAsPrepared dummy
  | OpClear n => ProcArrayClearTransaction n
  | OpFinishPrepared dummy latestXid => ProcArrayRemove dummy latestXid
  | OpSnapshot n snap cid g => GetSnapshotData n snap cid g ;; mret tt
  end.

(** When they do it. *)
Definition pa_pre (op : pa_op) (pa : procs) : Prop :=
  match op with
  | OpJoin n _ => (n ∉ pgprocnos pa) ∧ ∃ p, allProcs pa !! n = Some p ∧ proc_xid p = InvalidTransactionId
  | OpNewXid n isSubXact xid =>
      n ∈ pgprocnos pa ∧ xid ≠ InvalidTransactionId ∧
      (isSubXact = true → ∃ p, allProcs pa !! n = Some p ∧ proc_xid p ≠ InvalidTransactionId)
  | OpPrepare n dummy xid _ => n ∈ pgprocnos pa ∧ (dummy ∉ pgprocnos pa) ∧ (dummy < length (allProcs pa))%nat ∧ xid ≠ InvalidTransactionId
  | OpGroupEnd members => Forall (λ m, m.1 ∈ pgprocnos pa) members
  | OpLeave n | OpVacuum n _ | OpAbortSubs n _ _ _ | OpEnd n _ | OpClear n | OpFinishPrepared n _ | OpSnapshot n _ _ _ => n ∈ pgprocnos pa
  end.

(** The array after startup. *)
Definition boot_procs (maxp total : nat) (latest : Z) : procs :=
  mkProcs maxp [] [] [] [] (replicate total (mkProc 0 0 0 (mkCacheStatus 0 false) (replicate PGPROC_MAX_CACHED_SUBXIDS 0) 0)) latest 1.

Inductive pa_reachable (maxp total : nat) (latest : Z) : procs → Prop :=
| pa_reach_boot : pa_reachable maxp total latest (boot_procs maxp total latest)
| pa_reach_op pa op : pa_reachable maxp total latest pa → pa_pre op pa → pa_reachable maxp total latest (pa_run op pa).1.

Definition pa_wf (pa : procs) : Prop := ∃ ps, tracks pa ps ∧ Forall proc_ok (allProcs pa).

Lemma boot_wf maxp total latest : pa_wf (boot_procs maxp total latest).
Proof.
  exists []. split.
  - split; cbn; [constructor|done|done|done|done|constructor|unfold numProcs; cbn; lia|constructor].
  - apply Forall_replicate. split_and!; [apply length_replicate|cbn; lia|done].
Qed.

(** An operation that stores one process. *)
Lemma wf_store pa ps n i p q : tracks pa ps → Forall proc_ok (allProcs pa) → at_pos pa ps n i p → pgxactoff q = pgxactoff p → proc_ok q →
  pa_wf (store n i q pa).
Proof.
  intros Ht Hall Hpos Hoff Hq. exists (<[i := q]> ps). split; [|by apply Forall_insert].
  eapply store_tracks; [done|done| |done]. rewrite Hoff. by apply (at_pos_proc _ _ Ht _ _ _ Hpos).
Qed.

(** An operation that moves entries. *)
Lemma wf_moved pa pa' ps' : Forall proc_ok (allProcs pa) → tracks pa' ps' →
  (∀ m, m ∉ pgprocnos pa' → allProcs pa' !! m = allProcs pa !! m) → pa_wf pa'.
Proof.
  intros Hall Ht Hout. exists ps'. split; [done|]. apply Forall_lookup. intros m q Hq.
  destruct (decide (m ∈ pgprocnos pa')) as [Hm|Hm].
  - destruct (pos_exists _ _ Ht m Hm) as (i & p & Hpos). destruct (at_pos_proc _ _ Ht _ _ _ Hpos) as (Hp & _).
    assert (p = q) as -> by congruence. exact (proj1 (Forall_lookup _ _) (tr_ok _ _ Ht) i q (proj2 Hpos)).
  - rewrite Hout in Hq by done. exact (proj1 (Forall_lookup _ _) Hall m q Hq).
Qed.

Lemma wf_latest x pa : pa_wf pa → pa_wf (latest_after x pa).
Proof. intros (ps & Ht & Hall). exists ps. split; [by apply tracks_latest|]. unfold latest_after. by destruct (TransactionIdPrecedes _ _). Qed.

Lemma wf_counted pa : pa_wf pa → pa_wf (counted pa).
Proof. intros (ps & Ht & Hall). exists ps. by split; [apply tracks_counted|]. Qed.

(** What a step from a well-formed array gives: a well-formed array, and no error
    other than that of a full array. *)
Definition pa_result (op : pa_op) (pa : procs) (out : procs * result unit) : Prop :=
  pa_wf out.1 ∧ (out.2 = Ok tt ∨
    out.2 = Err (ErrFatal "sorry, too many clients already") ∧ numProcs pa = maxProcs pa ∧
    match op with OpJoin _ _ | OpPrepare _ _ _ _ => True | _ => False end).

Section typed.
Context (pa : procs) (ps : list PGPROC) (Ht : tracks pa ps) (Hall : Forall proc_ok (allProcs pa)).

Lemma member_pos n : n ∈ pgprocnos pa → ∃ i p, at_pos pa ps n i p ∧ proc_ok p.
Proof.
  intros (i & p & Hpos)%(pos_exists _ _ Ht). exists i, p. split; [done|]. exact (proj1 (Forall_lookup _ _) (tr_ok _ _ Ht) i p (proj2 Hpos)).
Qed.

Lemma stored n i p q : at_pos pa ps n i p → pgxactoff q = pgxactoff p → proc_ok q → pa_wf (store n i q pa).
Proof. intros Hpos Hoff Hq. by eapply wf_store. Qed.

Lemma joined n q op : n ∉ pgprocnos pa → (n < length (allProcs pa))%nat → proc_ok q →
  match op with OpJoin _ _ | OpPrepare _ _ _ _ => True | _ => False end →
  pa_result op pa (ProcArrayAdd n (set_allProcs (<[n := q]> (allProcs pa)) pa)).
Proof.
  intros Hn Hlt Hq Hop. set (pa1 := set_allProcs _ _).
  assert (tracks pa1 ps) as Ht1 by (by apply outside_tracks). assert (Forall proc_ok (allProcs pa1)) as Hall1 by (by apply Forall_insert).
  destruct (decide (numProcs pa < maxProcs pa)%nat) as [Hroom|Hfull].
  - destruct (add_run pa1 ps Ht1 n q) as (pa' & -> & Ht' & _ & _ & _ & Hout); [done|by apply list_lookup_insert_eq|done|done|].
    split; [by eapply (wf_moved pa1)|by left].
  - pose proof (tr_room _ _ Ht) as Hr. unfold ProcArrayAdd. rewrite get_run. rewrite (proj2 (Nat.leb_le _ _)) by (cbn; unfold numProcs in *; cbn; lia).
    split; [by exists ps|]. right. split_and!; [done|lia|done].
Qed.

Lemma removed n x : n ∈ pgprocnos pa → pa_wf (ProcArrayRemove n x pa).1 ∧ (ProcArrayRemove n x pa).2 = Ok tt.
Proof.
  intros (i & p & Hpos)%(pos_exists _ _ Ht). destruct (remove_proc_run pa ps Ht n x i p Hpos) as (pa' & -> & Ht' & _ & _ & _ & Hout).
  split; [by eapply (wf_moved pa)|done].
Qed.

Lemma ended n x : n ∈ pgprocnos pa →
  let out := ProcArrayEndTransactionInternal n x pa in pa_wf out.1 ∧ out.2 = Ok tt ∧ pgprocnos out.1 = pgprocnos pa.
Proof.
  intros (i & p & Hpos & Hok)%member_pos. rewrite (end_run pa ps Ht n i p Hpos). split_and!; [|done|].
  - apply wf_counted, wf_latest, (stored n i p); [done|done|by apply ended_ok].
  - cbn. unfold latest_after. by destruct (TransactionIdPrecedes _ _).
Qed.

Lemma idle_ok p : proc_ok p → proc_ok (idle_proc p) ∧ pgxactoff (idle_proc p) = pgxactoff p.
Proof. unfold idle_proc. cbn. by destruct (hasflags _ _). Qed.

Lemma scan_loop_run my xmax idx sc : Forall (λ i, (i < numProcs pa)%nat) idx → ∃ sc', scan_loop my xmax idx sc pa = (pa, Ok sc').
Proof.
  intros Hidx. revert sc. induction Hidx as [|i idx Hi _ IH]; intros sc; [by exists sc|]. cbn [scan_loop].
  destruct (lookup_lt_is_Some_2 (pgprocnos pa) i) as [n Hn]; [done|].
  destruct (lookup_lt_is_Some_2 ps i) as [p Hp]; [by rewrite (tracks_length _ _ Ht)|].
  erewrite bind_ok by (by apply (scan_xid_run pa ps Ht n i p)). destruct (seen_xid i p my xmax sc) as [sc1 []].
  - erewrite bind_ok by (by apply (scan_subxids_run pa ps Ht n i p)). apply IH.
  - erewrite bind_ok by reflexivity. apply IH.
Qed.

Lemma advertised n x g : n ∈ pgprocnos pa → pa_wf (advertise_xmin n x g pa).1 ∧ ∃ g', (advertise_xmin n x g pa).2 = Ok g'.
Proof.
  intros (i & p & Hpos & Hok)%member_pos. rewrite (advertise_run pa ps Ht n i p Hpos). destruct (TransactionIdIsValid _).
  - split; [by exists ps|by eexists].
  - split; [by apply (stored n i p)|by eexists].
Qed.

Lemma snapped n snap cid g : n ∈ pgprocnos pa →
  pa_wf (GetSnapshotData n snap cid g pa).1 ∧ ∃ r, (GetSnapshotData n snap cid g pa).2 = Ok r.
Proof.
  intros Hn. destruct (advertised n (snap_xmin (snap_data snap)) g Hn) as [Ha1 [g1 Hg1]].
  assert (∀ cnt, pa_wf ((pa0 ← get; '(my, xmax, sc) ← scan_start n; sc' ← scan_loop my xmax (seq 0 (numProcs pa0)) sc; scan_finish n xmax sc' cnt cid g) pa).1 ∧
    ∃ r, ((pa0 ← get; '(my, xmax, sc) ← scan_start n; sc' ← scan_loop my xmax (seq 0 (numProcs pa0)) sc; scan_finish n xmax sc' cnt cid g) pa).2 = Ok r) as Hscan.
  { intros cnt. rewrite get_run. destruct (member_pos n Hn) as (i & p & Hpos & _). erewrite bind_ok by (by apply (scan_start_run pa ps Ht n i p)).
    destruct (scan_loop_run i (TransactionIdAdvance (XidFromFullTransactionId (latestCompletedXid pa))) (seq 0 (numProcs pa))
      (mkScan (if TransactionIdIsNormal (proc_xid p) && NormalTransactionIdPrecedes (proc_xid p) (TransactionIdAdvance (XidFromFullTransactionId (latestCompletedXid pa)))
        then proc_xid p else TransactionIdAdvance (XidFromFullTransactionId (latestCompletedXid pa))) [] [] false)) as [sc' Hsc].
    { apply list.Forall_forall. intros j Hj%elem_of_seq. lia. }
    erewrite bind_ok by exact Hsc. unfold scan_finish. destruct (advertised n (sc_xmin sc') g Hn) as [Hw [g' Hg']].
    destruct (advertise_xmin n (sc_xmin sc') g pa) as [pa' r'] eqn:Ha. cbn in Hw, Hg'. subst r'. erewrite bind_ok by exact Ha. split; [done|by eexists]. }
  unfold GetSnapshotData, GetSnapshotDataReuse.
  set (d := snap_data snap) in *. destruct (snapXactCompletionCount snap =? 0) eqn:H0; [|destruct (xactCompletionCount pa =? snapXactCompletionCount snap) eqn:H1].
  - erewrite bind_ok by reflexivity. apply Hscan.
  - destruct (advertise_xmin n (snap_xmin d) g pa) as [pa' r'] eqn:Ha. cbn in Ha1, Hg1. subst r'.
    erewrite bind_ok by (erewrite bind_ok by reflexivity; rewrite H1; cbn [negb]; erewrite bind_ok by exact Ha; reflexivity).
    split; [done|by eexists].
  - erewrite bind_ok by (erewrite bind_ok by reflexivity; rewrite H1; reflexivity). apply Hscan.
Qed.
End typed.

Lemma group_ended members pa : pa_wf pa → Forall (λ m, m.1 ∈ pgprocnos pa) members →
  pa_wf (ProcArrayGroupClearXid members pa).1 ∧ (ProcArrayGroupClearXid members pa).2 = Ok tt.
Proof.
  unfold ProcArrayGroupClearXid. revert pa. induction members as [|[n x] members IH]; intros pa Hwf Hin; [done|].
  apply Forall_cons in Hin as [Hn Hin]. destruct Hwf as (ps & Ht & Hall). destruct (ended pa ps Ht Hall n x Hn) as (Hw & He & Hns).
  cbn [mfor fst snd]. destruct (ProcArrayEndTransactionInternal n x pa) as [pa' r'] eqn:Hrun. cbn in Hw, He, Hns. subst r'.
  erewrite bind_ok by exact Hrun. apply IH; [done|]. by rewrite Hns.
Qed.

Lemma pa_step_typed op pa : pa_wf pa → pa_pre op pa → pa_result op pa (pa_run op pa).
Proof.
  intros (ps & Ht & Hall) Hpre. destruct op; cbn [pa_run pa_pre] in *.
  - destruct Hpre as (Hn & p & Hp & Hx). pose proof (proj1 (Forall_lookup _ _) Hall n p Hp) as (Hl & Hc & H0).
    erewrite bind_ok by (by apply init_run). eapply joined; [done|done|done|by eapply lookup_lt_Some| |done].
    split_and!; cbn; [done|done|]. intros _. by apply H0.
  - destruct (removed pa ps Ht Hall n InvalidTransactionId Hpre). split; [done|by left].
  - destruct (member_pos pa ps Ht n Hpre) as (i & p & Hpos & Hok). rewrite (vacuum_run pa ps Ht n i p Hpos). split; [|by left].
    by apply (stored pa ps Ht Hall n i p).
  - destruct Hpre as (Hn & Hx & Hsub). destruct (member_pos pa ps Ht n Hn) as (i & p & Hpos & Hok). destruct isSubXact.
    + rewrite (new_sub_run pa ps Ht n i p Hpos) by done. split; [|by left]. destruct (Hsub eq_refl) as (q & Hq & Hqx).
      destruct (at_pos_proc _ _ Ht _ _ _ Hpos) as (Hp & _). assert (q = p) as -> by congruence.
      apply (stored pa ps Ht Hall n i p); [done| |by apply with_subxid_ok]. unfold with_subxid. by destruct (_ <? _)%nat.
    + rewrite (new_top_run pa ps Ht n i p Hpos). split; [|by left]. apply (stored pa ps Ht Hall n i p); [done|done|].
      destruct Hok as (Hl & Hc & _). by split_and!.
  - destruct (member_pos pa ps Ht n Hpre) as (i & p & Hpos & Hok). rewrite (remove_running_run pa ps n i p) by done.
    destruct (without_subxids_ok (reverse children ++ [xid]) p Hok) as (H1 & H2 & _). split; [|by left].
    by apply wf_counted, wf_latest, (stored pa ps Ht Hall n i p).
  - destruct (TransactionIdIsValid latestXid) eqn:Hv.
    + unfold ProcArrayEndTransaction. rewrite Hv. destruct (ended pa ps Ht Hall n latestXid Hpre) as (H1 & H2 & _). split; [done|by left].
    + apply negb_false_iff, Z.eqb_eq in Hv. subst latestXid. destruct (member_pos pa ps Ht n Hpre) as (i & p & Hpos & Hok).
      rewrite (idle_run pa ps Ht n i p Hpos). destruct (idle_ok p Hok). split; [|by left]. by apply (stored pa ps Ht Hall n i p).
  - destruct (group_ended members pa) as [H1 H2]; [by exists ps|done|]. split; [done|by left].
  - destruct Hpre as (_ & Hd & Hlt & Hx). erewrite bind_ok by (by apply dummy_run). eapply joined; [done|done|done|done|by apply dummy_ok|done].
  - destruct (member_pos pa ps Ht n Hpre) as (i & p & Hpos & Hok). rewrite (clear_run pa ps Ht n i p Hpos). split; [|by left].
    apply wf_counted, (stored pa ps Ht Hall n i p); [done|done|]. destruct Hok as (Hl & Hc & _). split_and!; cbn; [done|lia|done].
  - destruct (removed pa ps Ht Hall dummy latestXid Hpre). split; [done|by left].
  - destruct (snapped pa ps Ht Hall n snap cid g Hpre) as (H1 & r & H2). destruct (GetSnapshotData n snap cid g pa) as [pa' r'] eqn:Hrun.
    cbn in H1, H2. subst r'. erewrite bind_ok by exact Hrun. split; [done|by left].
Qed.

Lemma pa_reachable_wf maxp total latest pa : pa_reachable maxp total latest pa → pa_wf pa.
Proof. induction 1 as [|pa op _ IH Hpre]; [apply boot_wf|]. by apply pa_step_typed. Qed.

(** The copies of one entry agree with the [PGPROC], which knows its place. *)
Definition entry_agrees (pa : procs) (i n : nat) : Prop :=
  ∃ p, allProcs pa !! n = Some p ∧ pgxactoff p = i ∧ xids pa !! i = Some (proc_xid p) ∧
    subxidStates pa !! i = Some (subxidStatus p) ∧ statusFlags pa !! i = Some (proc_flags p) ∧
    length (subxids p) = PGPROC_MAX_CACHED_SUBXIDS ∧ (sub_count (subxidStatus p) ≤ PGPROC_MAX_CACHED_SUBXIDS)%nat.

(** C14.  After any sequence of operations on the process array by backends that
    join, leave, assign ids, end transactions alone or as a group, abort
    subtransactions, prepare transactions and take snapshots, the array is sorted
    by process number without duplicates and within its capacity, every entry of
    the dense arrays repeats the field of the [PGPROC] at its place, the [PGPROC]
    knows its place, and its cache of subtransaction ids is within bounds; and
    the next operation does not access any array out of its bounds: it succeeds
    or reports that there are too many clients, when the array is full. *)
Theorem proc_array_typed maxp total latest pa : pa_reachable maxp total latest pa →
  StronglySorted lt (pgprocnos pa) ∧ (numProcs pa ≤ maxProcs pa)%nat ∧
  length (xids pa) = numProcs pa ∧ length (subxidStates pa) = numProcs pa ∧ length (statusFlags pa) = numProcs pa ∧
  (∀ i n, pgprocnos pa !! i = Some n → entry_agrees pa i n) ∧
  ∀ op, pa_pre op pa → (pa_run op pa).2 = Ok tt ∨
    (pa_run op pa).2 = Err (ErrFatal "sorry, too many clients already") ∧ numProcs pa = maxProcs pa ∧
    match op with OpJoin _ _ | OpPrepare _ _ _ _ => True | _ => False end.
Proof.
  intros Hr%pa_reachable_wf. destruct (Hr) as (ps & Ht & Hall). pose proof (tracks_length _ _ Ht) as Hlen. split_and!; [apply Ht|apply Ht|..].
  - by rewrite (tr_xids _ _ Ht), length_fmap.
  - by rewrite (tr_states _ _ Ht), length_fmap.
  - by rewrite (tr_flags _ _ Ht), length_fmap.
  - intros i n Hn. destruct (lookup_lt_is_Some_2 ps i) as [p Hp]; [rewrite Hlen; by eapply lookup_lt_Some|].
    destruct (at_pos_proc pa ps Ht n i p) as (H1 & H2 & _); [done|]. destruct (dense_reads pa ps Ht n i p) as (H3 & H4 & H5); [done|].
    destruct (proj1 (Forall_lookup _ _) (tr_ok _ _ Ht) i p Hp) as (H6 & H7 & _). by exists p.
  - intros op Hpre. by apply pa_step_typed.
Qed.

(** Two backends join, the second takes a slot before the first, gets an id with a
    subtransaction, and a snapshot is taken. *)
Definition example_procs : procs :=
  foldl (λ pa op, (pa_run op pa).1) (boot_procs 4 6 10)
    [OpJoin 3 false; OpJoin 1 true; OpNewXid 1 false 11; OpNewXid 1 true 12].

Lemma proc_array_typed_witness : pa_reachable 4 6 10 example_procs ∧ entry_agrees example_procs 1 3.
Proof.
  assert (pa_reachable 4 6 10 example_procs) as Hr.
  { unfold example_procs. cbn [foldl]. apply pa_reach_op; [apply pa_reach_op; [apply pa_reach_op; [apply pa_reach_op; [apply pa_reach_boot|]|]|]|].
    - split; [vm_compute; intros H; inversion H|]. eexists. split; vm_compute; reflexivity.
    - split; [apply (bool_decide_unpack _); vm_compute; exact I|]. eexists. split; vm_compute; reflexivity.
    - split_and!; [apply (bool_decide_unpack _); vm_compute; exact I|done|done].
    - split_and!; [apply (bool_decide_unpack _); vm_compute; exact I|done|]. intros _. eexists. split; [vm_compute; reflexivity|done]. }
  split; [exact Hr|]. destruct (proc_array_typed _ _ _ _ Hr) as (_ & _ & _ & _ & _ & He & _). apply He. vm_compute. reflexivity.
Defined.
