(* ===== verification/SnapshotSys.v ===== *)
(** * Snapshots of a running system

    The backends of a running system as a step relation: they join and leave the
    process array, get transaction ids under [XidGenLock], record the parents of
    subtransactions, abort subtransactions, commit, abort and prepare
    transactions, write the commit log one status at a time and take snapshots
    entry by entry, or reuse an earlier one.  Each step runs an operation of
    [ProcArray], [XidGen] or [Clog] on shared memory; the locks appear as the
    conditions under which a step is possible.

    The state also has a history: the transactions since startup, with their
    subtransactions and outcomes.  No operation reads it.  The specification of a
    snapshot is stated with it: a snapshot sees the transactions that had
    committed when it was started, and no others. *)
From stdpp Require Import base tactics list gmap strings numbers sorting.
From Stdlib Require Import ZArith Lia Bool.
From S2P Require Import Prelude Visibility Clog XidGen ProcArray.

(** ** The history *)

Record sub : Type := mkSub {
  sub_id : Z;
  sub_parent : Z;
  sub_linked : bool;                  (* [pg_subtrans] has the parent *)
  sub_live : bool                     (* not rolled back on its own *)
}.

(** What a transaction is doing: the writes to the commit log that are left. *)
Inductive phase : Type :=
| Running
| AbortingSubs (xs : list Z) (ws : list write)
| Logging (committed : bool) (ws : list write)
| Ended (committed : bool).

(** A transaction with an id, its 64-bit ids, and the processes that show it. *)
Record xtree : Type := mkX {
  x_top : Z;
  x_subs : list sub;
  x_flagged : bool;                   (* vacuum or logical decoding: skipped by snapshots *)
  x_holders : list nat;
  x_prepared : bool;
  x_phase : phase
}.

Definition x_all (t : xtree) : list Z := x_top t :: (sub_id <$> x_subs t).

Definition live_subs (t : xtree) : list Z := sub_id <$> filter (λ u, sub_live u = true) (x_subs t).

Definition x_live (t : xtree) : list Z := x_top t :: live_subs t.

Definition ended (t : xtree) : bool := match x_phase t with Ended _ => true | _ => false end.

Definition set_phase (ph : phase) (t : xtree) : xtree :=
  mkX (x_top t) (x_subs t) (x_flagged t) (x_holders t) (x_prepared t) ph.

Definition set_holders (ns : list nat) (prepared : bool) (t : xtree) : xtree :=
  mkX (x_top t) (x_subs t) (x_flagged t) ns prepared (x_phase t).

Definition map_subs (g : sub → sub) (t : xtree) : xtree :=
  mkX (x_top t) (g <$> x_subs t) (x_flagged t) (x_holders t) (x_prepared t) (x_phase t).

Definition add_sub (f parent : Z) (t : xtree) : xtree :=
  mkX (x_top t) (x_subs t ++ [mkSub f parent false true]) (x_flagged t) (x_holders t) (x_prepared t) (x_phase t).

Definition link_sub (f : Z) (t : xtree) : xtree :=
  map_subs (λ u, if sub_id u =? f then mkSub (sub_id u) (sub_parent u) true (sub_live u) else u) t.

Definition kill_subs (xs : list Z) (t : xtree) : xtree :=
  map_subs (λ u, if bool_decide (sub_id u ∈ xs) then mkSub (sub_id u) (sub_parent u) (sub_linked u) false else u) t.

(** The ids whose effects are committed. *)
Definition committed_ids (ts : list xtree) : list Z :=
  mjoin ((λ t, match x_phase t with Ended true => x_live t | _ => [] end) <$> ts).

(** The transaction a process shows. *)
Definition held_by (ts : list xtree) (n : nat) : option Z :=
  (λ it, x_top it.2) <$> list_find (λ t, ended t = false ∧ n ∈ x_holders t) ts.

(** ** The state *)

(** A backend inside of [GetNewTransactionId], with [XidGenLock]: the id is
    counted but not yet in the process array.  A subtransaction has its
    transaction in the history and its parent. *)
Record pending : Type := mkPending {
  pd_proc : nat;
  pd_parent : option (nat * Z);
  pd_id : Z
}.

(** A backend inside of [GetSnapshotData], with [ProcArrayLock] in shared mode:
    the position it has reached, and whether it is between the two halves of the
    iteration.  The last two fields are the history at the start and the
    transaction of the backend itself. *)
Record reader : Type := mkReader {
  r_proc : nat;
  r_off : nat;
  r_xmax : Z;
  r_pos : nat;
  r_more : bool;
  r_scan : scan;
  r_count : Z;
  r_start : list xtree;
  r_own : option Z
}.

(** A snapshot of a backend, which may still use it. *)
Record taken : Type := mkTaken {
  k_proc : nat;
  k_snap : snapshot;
  k_held : bool;
  k_start : list xtree;
  k_own : option Z
}.

Record sys : Type := mkSys {
  s_shm : shared;
  s_pa : procs;
  s_pending : option pending;
  s_trees : list xtree;
  s_readers : list reader;
  s_snaps : list taken;
  s_xmins : nat → xmins
}.

Definition set_pa (pa : procs) (s : sys) : sys :=
  mkSys (s_shm s) pa (s_pending s) (s_trees s) (s_readers s) (s_snaps s) (s_xmins s).

Definition set_shm (sh : shared) (s : sys) : sys :=
  mkSys sh (s_pa s) (s_pending s) (s_trees s) (s_readers s) (s_snaps s) (s_xmins s).

Definition set_pending (p : option pending) (s : sys) : sys :=
  mkSys (s_shm s) (s_pa s) p (s_trees s) (s_readers s) (s_snaps s) (s_xmins s).

Definition set_trees (ts : list xtree) (s : sys) : sys :=
  mkSys (s_shm s) (s_pa s) (s_pending s) ts (s_readers s) (s_snaps s) (s_xmins s).

Definition set_readers (rs : list reader) (s : sys) : sys :=
  mkSys (s_shm s) (s_pa s) (s_pending s) (s_trees s) rs (s_snaps s) (s_xmins s).

Definition set_snaps (ks : list taken) (s : sys) : sys :=
  mkSys (s_shm s) (s_pa s) (s_pending s) (s_trees s) (s_readers s) ks (s_xmins s).

Definition set_xmins (n : nat) (g : xmins) (s : sys) : sys :=
  mkSys (s_shm s) (s_pa s) (s_pending s) (s_trees s) (s_readers s) (s_snaps s)
    (λ m, if decide (m = n) then g else s_xmins s m).

Definition set_tree (k : nat) (t : xtree) (s : sys) : sys := set_trees (<[k := t]> (s_trees s)) s.

Definition move_reader (pos : nat) (more : bool) (sc : scan) (r : reader) : reader :=
  mkReader (r_proc r) (r_off r) (r_xmax r) pos more sc (r_count r) (r_start r) (r_own r).

Definition drop_held (n : nat) (k : taken) : taken :=
  if (k_proc k =? n)%nat then mkTaken (k_proc k) (k_snap k) false (k_start k) (k_own k) else k.

(** The snapshots of a backend go with its transaction. *)
Definition end_snaps (n : nat) (s : sys) : sys := set_snaps (drop_held n <$> s_snaps s) s.

(** ** [SnapshotResetXmin] *)

(** [xmin_cmp] orders the heap of registered snapshots by age. *)
Definition xmin_cmp (a b : Z) : Z :=
  if TransactionIdPrecedes a b then 1 else if TransactionIdPrecedes b a then -1 else 0.

(** The first of the heap: the oldest. *)
Definition heap_first (l : list Z) : option Z :=
  match l with
  | [] => None
  | x :: l' => Some (foldl (λ m y, if 0 <? xmin_cmp y m then y else m) x l')
  end.

Definition SnapshotResetXmin (pgprocno : nat) (ActiveSnapshot : bool) (RegisteredSnapshots : list Z) (g : xmins) : PA xmins :=
  if ActiveSnapshot then mret g
  else
    match heap_first RegisteredSnapshots with
    | None =>
        upd_proc pgprocno (set_proc_xmin InvalidTransactionId) ;;
        mret (mkXmins InvalidTransactionId (RecentXmin g))
    | Some minxmin =>
        proc ← MyProc pgprocno;
        if TransactionIdPrecedes (proc_xmin proc) minxmin then
          upd_proc pgprocno (set_proc_xmin minxmin) ;;
          mret (mkXmins minxmin (RecentXmin g))
        else mret g
    end.

Definition held_xmins (n : nat) (s : sys) : list Z :=
  (λ k, snap_xmin (snap_data (k_snap k))) <$> filter (λ k, k_proc k = n ∧ k_held k = true) (s_snaps s).

(** ** Steps *)

(** The backend is neither assigning an id nor taking a snapshot. *)
Definition idle (s : sys) (n : nat) : Prop :=
  (∀ p, s_pending s = Some p → pd_proc p ≠ n) ∧ ∀ r, r ∈ s_readers s → r_proc r ≠ n.

(** [ProcArrayLock] in exclusive mode. *)
Definition exclusive (s : sys) : Prop := s_readers s = [].

(** A backend works on its own running transaction. *)
Definition working (s : sys) (k n : nat) (t : xtree) : Prop :=
  s_trees s !! k = Some t ∧ x_phase t = Running ∧ x_prepared t = false ∧ x_holders t = [n] ∧ idle s n.

Definition is_member (x : Z) (t : xtree) : Prop :=
  x = x_top t ∨ ∃ u, u ∈ x_subs t ∧ sub_id u = x ∧ sub_linked u = true.

Definition proc_flagged (p : PGPROC) : bool := hasflags (proc_flags p) (Z.lor PROC_IN_LOGICAL_DECODING PROC_IN_VACUUM).

Definition end_latest (t : xtree) : Z := TransactionIdLatest (u32 (x_top t)) (u32 <$> live_subs t).

Inductive step (s : sys) : sys → Prop :=
| st_join n autovacuum p pa' :
    exclusive s → s_pending s = None → n ∉ pgprocnos (s_pa s) → allProcs (s_pa s) !! n = Some p → proc_xid p = InvalidTransactionId →
    pa_run (OpJoin n autovacuum) (s_pa s) = (pa', Ok tt) → step s (set_pa pa' s)
| st_leave n p pa' :
    exclusive s → s_pending s = None → n ∈ pgprocnos (s_pa s) → allProcs (s_pa s) !! n = Some p → proc_xid p = InvalidTransactionId →
    ProcArrayRemove n InvalidTransactionId (s_pa s) = (pa', Ok tt) → step s (end_snaps n (set_pa pa' s))
| st_vacuum n w p pa' :
    exclusive s → idle s n → n ∈ pgprocnos (s_pa s) → allProcs (s_pa s) !! n = Some p → proc_xid p = InvalidTransactionId →
    set_vacuum_flags n w (s_pa s) = (pa', Ok tt) → step s (set_pa pa' s)
| st_assign_top n p f sh' :
    s_pending s = None → idle s n → n ∈ pgprocnos (s_pa s) → allProcs (s_pa s) !! n = Some p → proc_xid p = InvalidTransactionId →
    GetNewTransactionId false false (s_shm s) = (sh', Ok f) →
    step s (set_pending (Some (mkPending n None f)) (set_shm sh' s))
| st_assign_sub n k t parent f sh' :
    s_pending s = None → working s k n t → is_member parent t →
    GetNewTransactionId false false (s_shm s) = (sh', Ok f) →
    step s (set_pending (Some (mkPending n (Some (k, parent)) f)) (set_shm sh' s))
| st_assign_fails n e sh' :
    s_pending s = None → idle s n → GetNewTransactionId false false (s_shm s) = (sh', Err e) → step s (set_shm sh' s)
| st_store_top n f p pa' :
    s_pending s = Some (mkPending n None f) → allProcs (s_pa s) !! n = Some p →
    store_new_xid n false (u32 f) (s_pa s) = (pa', Ok tt) →
    step s (set_pending None (set_trees (s_trees s ++ [mkX f [] (proc_flagged p) [n] false Running]) (set_pa pa' s)))
| st_store_sub n k parent f t pa' :
    s_pending s = Some (mkPending n (Some (k, parent)) f) → s_trees s !! k = Some t →
    store_new_xid n true (u32 f) (s_pa s) = (pa', Ok tt) →
    step s (set_pending None (set_tree k (add_sub f parent t) (set_pa pa' s)))
| st_link n k t u :
    working s k n t → u ∈ x_subs t → sub_linked u = false →
    step s (set_tree k (link_sub (sub_id u) t)
      (set_shm (set_pg_subtrans (SubTransSetParent (u32 (sub_id u)) (u32 (sub_parent u)) (pg_subtrans (s_shm s))) (s_shm s)) s))
| st_abort_subs n k t x xs :
    working s k n t → x :: xs ⊆ live_subs t →
    step s (set_tree k (set_phase (AbortingSubs (x :: xs) (TransactionIdAbortTree (u32 x) (u32 <$> xs))) t) s)
| st_remove_subs n k t x xs pa' :
    exclusive s → s_trees s !! k = Some t → x_phase t = AbortingSubs (x :: xs) [] → x_holders t = [n] →
    XidCacheRemoveRunningXids n (u32 x) (u32 <$> xs) (TransactionIdLatest (u32 x) (u32 <$> xs)) (s_pa s) = (pa', Ok tt) →
    step s (set_tree k (set_phase Running (kill_subs (x :: xs) t)) (set_pa pa' s))
| st_log k t c :
    s_trees s !! k = Some t → x_phase t = Running → (∀ n, n ∈ x_holders t → idle s n) → length (x_holders t) = 1%nat →
    (c = true → Forall (λ u, sub_live u = true → sub_linked u = true) (x_subs t)) →
    step s (set_tree k (set_phase (Logging c ((if c then TransactionIdCommitTree else TransactionIdAbortTree)
      (u32 (x_top t)) (u32 <$> live_subs t))) t) s)
| st_write k t w ph ph' :
    s_trees s !! k = Some t → x_phase t = ph →
    match ph with
    | AbortingSubs xs (w' :: ws) => w' = w ∧ ph' = AbortingSubs xs ws
    | Logging c (w' :: ws) => w' = w ∧ ph' = Logging c ws
    | _ => False
    end →
    step s (set_tree k (set_phase ph' t) (set_shm (set_pg_xact (TransactionIdSetStatusBit w.1 w.2 (pg_xact (s_shm s))) (s_shm s)) s))
| st_end n k t c pa' :
    exclusive s → s_trees s !! k = Some t → x_phase t = Logging c [] → x_holders t = [n] → x_prepared t = false →
    ProcArrayEndTransaction n (end_latest t) (s_pa s) = (pa', Ok tt) →
    step s (end_snaps n (set_tree k (set_holders [] false (set_phase (Ended c) t)) (set_pa pa' s)))
| st_end_noxid n p pa' :
    exclusive s → idle s n → n ∈ pgprocnos (s_pa s) → allProcs (s_pa s) !! n = Some p → proc_xid p = InvalidTransactionId →
    ProcArrayEndTransaction n InvalidTransactionId (s_pa s) = (pa', Ok tt) →
    step s (end_snaps n (set_pa pa' s))
| st_prepare n d k t pa' :
    exclusive s → s_pending s = None → working s k n t → x_flagged t = false →
    Forall (λ u, sub_live u = true → sub_linked u = true) (x_subs t) →
    d ∉ pgprocnos (s_pa s) → (d < length (allProcs (s_pa s)))%nat →
    pa_run (OpPrepare n d (u32 (x_top t)) (u32 <$> live_subs t)) (s_pa s) = (pa', Ok tt) →
    step s (set_tree k (set_holders [n; d] true t) (set_pa pa' s))
| st_clear n d k t pa' :
    exclusive s → s_trees s !! k = Some t → x_holders t = [n; d] → idle s n →
    ProcArrayClearTransaction n (s_pa s) = (pa', Ok tt) →
    step s (end_snaps n (set_tree k (set_holders [d] true t) (set_pa pa' s)))
| st_finish_prepared d k t c pa' :
    exclusive s → s_pending s = None → s_trees s !! k = Some t → x_phase t = Logging c [] → x_holders t = [d] → x_prepared t = true →
    ProcArrayRemove d (end_latest t) (s_pa s) = (pa', Ok tt) →
    step s (end_snaps d (set_tree k (set_holders [] true (set_phase (Ended c) t)) (set_pa pa' s)))
| st_scan_start n off xmax sc :
    idle s n → n ∈ pgprocnos (s_pa s) → scan_start n (s_pa s) = (s_pa s, Ok (off, xmax, sc)) →
    step s (set_readers (s_readers s ++
      [mkReader n off xmax 0 false sc (xactCompletionCount (s_pa s)) (s_trees s) (held_by (s_trees s) n)]) s)
| st_scan_xid j r sc more :
    s_readers s !! j = Some r → r_more r = false → (r_pos r < numProcs (s_pa s))%nat →
    scan_xid (r_off r) (r_xmax r) (r_pos r) (r_scan r) (s_pa s) = (s_pa s, Ok (sc, more)) →
    step s (set_readers (<[j := move_reader (if more then r_pos r else S (r_pos r)) more sc r]> (s_readers s)) s)
| st_scan_subxids j r sc :
    s_readers s !! j = Some r → r_more r = true →
    scan_subxids (r_pos r) (r_scan r) (s_pa s) = (s_pa s, Ok sc) →
    step s (set_readers (<[j := move_reader (S (r_pos r)) false sc r]> (s_readers s)) s)
| st_scan_finish j r cid snap g pa' :
    s_readers s !! j = Some r → r_more r = false → r_pos r = numProcs (s_pa s) →
    scan_finish (r_proc r) (r_xmax r) (r_scan r) (r_count r) cid (s_xmins s (r_proc r)) (s_pa s) = (pa', Ok (snap, g)) →
    step s (set_xmins (r_proc r) g (set_snaps (s_snaps s ++ [mkTaken (r_proc r) snap true (r_start r) (r_own r)])
      (set_readers (take j (s_readers s) ++ drop (S j) (s_readers s)) (set_pa pa' s))))
| st_reuse n k cid snap g pa' :
    idle s n → n ∈ pgprocnos (s_pa s) → k ∈ s_snaps s → k_proc k = n →
    GetSnapshotDataReuse n (k_snap k) cid (s_xmins s n) (s_pa s) = (pa', Ok (Some (snap, g))) →
    step s (set_xmins n g (set_snaps (s_snaps s ++ [mkTaken n snap true (s_trees s) (held_by (s_trees s) n)]) (set_pa pa' s)))
| st_release i k :
    s_snaps s !! i = Some k →
    step s (set_snaps (<[i := mkTaken (k_proc k) (k_snap k) false (k_start k) (k_own k)]> (s_snaps s)) s)
| st_reset_xmin n g pa' :
    idle s n → n ∈ pgprocnos (s_pa s) →
    SnapshotResetXmin n false (held_xmins n s) (s_xmins s n) (s_pa s) = (pa', Ok g) →
    step s (set_xmins n g (set_pa pa' s)).

(** ** Reachable states *)

(** On the page of [pg_subtrans] that holds the next id, the ids from it on have
    no parent, unless the page is yet to be zeroed. *)
Definition unused_no_parent (v : TransamVariablesData) (st : subtrans) : Prop :=
  let next := XidFromFullTransactionId (nextXid v) in
  next mod SUBTRANS_XACTS_PER_PAGE ≠ 0 → next ≠ FirstNormalTransactionId →
  ∀ x, next ≤ x < 2 ^ 32 → x / SUBTRANS_XACTS_PER_PAGE = next / SUBTRANS_XACTS_PER_PAGE → st !! x = None.

(** After startup: no transactions, no backends. *)
Record booted (base : Z) (s : sys) : Prop := mkBooted {
  bo_shared : shared_ok base (s_shm s);
  bo_unused : unused_no_parent (TransamVariables (s_shm s)) (pg_subtrans (s_shm s));
  bo_procs : ∃ maxp total latest, s_pa s = boot_procs maxp total latest ∧ normal_xid latest ∧ base ≤ latest ∧
    latest < nextXid (TransamVariables (s_shm s));
  bo_empty : s_pending s = None ∧ s_trees s = [] ∧ s_readers s = [] ∧ s_snaps s = []
}.

Inductive reachable (base : Z) : nat → sys → Prop :=
| reach_boot s : booted base s → reachable base 0 s
| reach_step n s s' : reachable base n s → step s s' → reachable base (S n) s'.

(** ** Running a schedule *)

(** One step, chosen by an action; [None] when it is not possible. *)
Inductive action : Type :=
| AJoin (n : nat) (autovacuum : bool)
| ALeave (n : nat)
| AVacuum (n : nat) (w : bool)
| AAssignTop (n : nat)
| AAssignSub (n k : nat) (parent : Z)
| AStore
| ALink (n k i : nat)
| AAbortSubs (n k : nat) (xs : list Z)
| ARemoveSubs (k : nat)
| ALog (k : nat) (c : bool)
| AWrite (k : nat)
| AEnd (k : nat)
| AEndNoXid (n : nat)
| APrepare (n d k : nat)
| AClear (k : nat)
| AScanStart (n : nat)
| AScan (j : nat)
| AScanFinish (j : nat) (cid : Z)
| AReuse (i : nat) (cid : Z)
| ARelease (i : nat)
| AResetXmin (n : nat).

Definition ok_of {S A} (out : S * result A) : option (S * A) :=
  match out with
  | (s', Ok a) => Some (s', a)
  | (_, Err _) => None
  end.

Definition idleb (s : sys) (n : nat) : bool :=
  match s_pending s with Some p => negb (pd_proc p =? n)%nat | None => true end &&
  forallb (λ r, negb (r_proc r =? n)%nat) (s_readers s).

Definition exclusiveb (s : sys) : bool := match s_readers s with [] => true | _ => false end.

Definition no_pending (s : sys) : bool := match s_pending s with None => true | Some _ => false end.

Definition proc_idle (s : sys) (n : nat) : option PGPROC :=
  p ← allProcs (s_pa s) !! n;
  if proc_xid p =? InvalidTransactionId then Some p else None.

Definition is_running (ph : phase) : bool := match ph with Running => true | _ => false end.

Definition workingb (s : sys) (k n : nat) (t : xtree) : bool :=
  is_running (x_phase t) && negb (x_prepared t) && bool_decide (x_holders t = [n]) && idleb s n.

Definition all_linked (t : xtree) : bool := forallb (λ u, negb (sub_live u) || sub_linked u) (x_subs t).

Definition is_memberb (x : Z) (t : xtree) : bool :=
  (x =? x_top t) || existsb (λ u, (sub_id u =? x) && sub_linked u) (x_subs t).

Definition exec (a : action) (s : sys) : option sys :=
  match a with
  | AJoin n autovacuum =>
      p ← proc_idle s n;
      r ← ok_of (pa_run (OpJoin n autovacuum) (s_pa s));
      if exclusiveb s && no_pending s && bool_decide (n ∉ pgprocnos (s_pa s)) then Some (set_pa r.1 s) else None
  | ALeave n =>
      p ← proc_idle s n;
      r ← ok_of (ProcArrayRemove n InvalidTransactionId (s_pa s));
      if exclusiveb s && no_pending s && bool_decide (n ∈ pgprocnos (s_pa s)) then Some (end_snaps n (set_pa r.1 s)) else None
  | AVacuum n w =>
      p ← proc_idle s n;
      r ← ok_of (set_vacuum_flags n w (s_pa s));
      if exclusiveb s && idleb s n && bool_decide (n ∈ pgprocnos (s_pa s)) then Some (set_pa r.1 s) else None
  | AAssignTop n =>
      p ← proc_idle s n;
      r ← ok_of (GetNewTransactionId false false (s_shm s));
      if no_pending s && idleb s n && bool_decide (n ∈ pgprocnos (s_pa s))
      then Some (set_pending (Some (mkPending n None r.2)) (set_shm r.1 s)) else None
  | AAssignSub n k parent =>
      t ← s_trees s !! k;
      r ← ok_of (GetNewTransactionId false false (s_shm s));
      if no_pending s && workingb s k n t && is_memberb parent t
      then Some (set_pending (Some (mkPending n (Some (k, parent)) r.2)) (set_shm r.1 s)) else None
  | AStore =>
      pd ← s_pending s;
      match pd_parent pd with
      | None =>
          p ← allProcs (s_pa s) !! pd_proc pd;
          r ← ok_of (store_new_xid (pd_proc pd) false (u32 (pd_id pd)) (s_pa s));
          Some (set_pending None (set_trees (s_trees s ++ [mkX (pd_id pd) [] (proc_flagged p) [pd_proc pd] false Running]) (set_pa r.1 s)))
      | Some (k, parent) =>
          t ← s_trees s !! k;
          r ← ok_of (store_new_xid (pd_proc pd) true (u32 (pd_id pd)) (s_pa s));
          Some (set_pending None (set_tree k (add_sub (pd_id pd) parent t) (set_pa r.1 s)))
      end
  | ALink n k i =>
      t ← s_trees s !! k;
      u ← x_subs t !! i;
      if workingb s k n t && negb (sub_linked u)
      then Some (set_tree k (link_sub (sub_id u) t)
        (set_shm (set_pg_subtrans (SubTransSetParent (u32 (sub_id u)) (u32 (sub_parent u)) (pg_subtrans (s_shm s))) (s_shm s)) s))
      else None
  | AAbortSubs n k xs =>
      t ← s_trees s !! k;
      match xs with
      | [] => None
      | x :: xs' =>
          if workingb s k n t && forallb (λ y, bool_decide (y ∈ live_subs t)) xs
          then Some (set_tree k (set_phase (AbortingSubs xs (TransactionIdAbortTree (u32 x) (u32 <$> xs'))) t) s) else None
      end
  | ARemoveSubs k =>
      t ← s_trees s !! k;
      match x_phase t, x_holders t with
      | AbortingSubs (x :: xs) [], [n] =>
          r ← ok_of (XidCacheRemoveRunningXids n (u32 x) (u32 <$> xs) (TransactionIdLatest (u32 x) (u32 <$> xs)) (s_pa s));
          if exclusiveb s then Some (set_tree k (set_phase Running (kill_subs (x :: xs) t)) (set_pa r.1 s)) else None
      | _, _ => None
      end
  | ALog k c =>
      t ← s_trees s !! k;
      if is_running (x_phase t) && forallb (idleb s) (x_holders t) && (length (x_holders t) =? 1)%nat && (negb c || all_linked t)
      then Some (set_tree k (set_phase (Logging c ((if c then TransactionIdCommitTree else TransactionIdAbortTree)
        (u32 (x_top t)) (u32 <$> live_subs t))) t) s) else None
  | AWrite k =>
      t ← s_trees s !! k;
      match x_phase t with
      | AbortingSubs xs (w :: ws) =>
          Some (set_tree k (set_phase (AbortingSubs xs ws) t) (set_shm (set_pg_xact (TransactionIdSetStatusBit w.1 w.2 (pg_xact (s_shm s))) (s_shm s)) s))
      | Logging c (w :: ws) =>
          Some (set_tree k (set_phase (Logging c ws) t) (set_shm (set_pg_xact (TransactionIdSetStatusBit w.1 w.2 (pg_xact (s_shm s))) (s_shm s)) s))
      | _ => None
      end
  | AEnd k =>
      t ← s_trees s !! k;
      match x_phase t, x_holders t with
      | Logging c [], [n] =>
          if x_prepared t then
            r ← ok_of (ProcArrayRemove n (end_latest t) (s_pa s));
            if exclusiveb s && no_pending s then Some (end_snaps n (set_tree k (set_holders [] true (set_phase (Ended c) t)) (set_pa r.1 s))) else None
          else
            r ← ok_of (ProcArrayEndTransaction n (end_latest t) (s_pa s));
            if exclusiveb s then Some (end_snaps n (set_tree k (set_holders [] false (set_phase (Ended c) t)) (set_pa r.1 s))) else None
      | _, _ => None
      end
  | AEndNoXid n =>
      p ← proc_idle s n;
      r ← ok_of (ProcArrayEndTransaction n InvalidTransactionId (s_pa s));
      if exclusiveb s && idleb s n && bool_decide (n ∈ pgprocnos (s_pa s)) then Some (end_snaps n (set_pa r.1 s)) else None
  | APrepare n d k =>
      t ← s_trees s !! k;
      r ← ok_of (pa_run (OpPrepare n d (u32 (x_top t)) (u32 <$> live_subs t)) (s_pa s));
      if exclusiveb s && no_pending s && workingb s k n t && negb (x_flagged t) && all_linked t && bool_decide (d ∉ pgprocnos (s_pa s)) &&
         (d <? length (allProcs (s_pa s)))%nat
      then Some (set_tree k (set_holders [n; d] true t) (set_pa r.1 s)) else None
  | AClear k =>
      t ← s_trees s !! k;
      match x_holders t with
      | [n; d] =>
          r ← ok_of (ProcArrayClearTransaction n (s_pa s));
          if exclusiveb s && idleb s n then Some (end_snaps n (set_tree k (set_holders [d] true t) (set_pa r.1 s))) else None
      | _ => None
      end
  | AScanStart n =>
      r ← ok_of (scan_start n (s_pa s));
      let '(off, xmax, sc) := r.2 in
      if idleb s n && bool_decide (n ∈ pgprocnos (s_pa s))
      then Some (set_readers (s_readers s ++ [mkReader n off xmax 0 false sc (xactCompletionCount (s_pa s)) (s_trees s) (held_by (s_trees s) n)]) s) else None
  | AScan j =>
      rd ← s_readers s !! j;
      if r_more rd then
        r ← ok_of (scan_subxids (r_pos rd) (r_scan rd) (s_pa s));
        Some (set_readers (<[j := move_reader (S (r_pos rd)) false r.2 rd]> (s_readers s)) s)
      else if (r_pos rd <? numProcs (s_pa s))%nat then
        r ← ok_of (scan_xid (r_off rd) (r_xmax rd) (r_pos rd) (r_scan rd) (s_pa s));
        let '(sc, more) := r.2 in
        Some (set_readers (<[j := move_reader (if more : bool then r_pos rd else S (r_pos rd)) more sc rd]> (s_readers s)) s)
      else None
  | AScanFinish j cid =>
      rd ← s_readers s !! j;
      r ← ok_of (scan_finish (r_proc rd) (r_xmax rd) (r_scan rd) (r_count rd) cid (s_xmins s (r_proc rd)) (s_pa s));
      let '(snap, g) := r.2 in
      if negb (r_more rd) && (r_pos rd =? numProcs (s_pa s))%nat
      then Some (set_xmins (r_proc rd) g (set_snaps (s_snaps s ++ [mkTaken (r_proc rd) snap true (r_start rd) (r_own rd)])
        (set_readers (take j (s_readers s) ++ drop (S j) (s_readers s)) (set_pa r.1 s)))) else None
  | AReuse i cid =>
      k ← s_snaps s !! i;
      r ← ok_of (GetSnapshotDataReuse (k_proc k) (k_snap k) cid (s_xmins s (k_proc k)) (s_pa s));
      match r.2 with
      | Some (snap, g) =>
          if idleb s (k_proc k) && bool_decide (k_proc k ∈ pgprocnos (s_pa s))
          then Some (set_xmins (k_proc k) g (set_snaps (s_snaps s ++ [mkTaken (k_proc k) snap true (s_trees s) (held_by (s_trees s) (k_proc k))]) (set_pa r.1 s)))
          else None
      | None => None
      end
  | ARelease i =>
      k ← s_snaps s !! i;
      Some (set_snaps (<[i := mkTaken (k_proc k) (k_snap k) false (k_start k) (k_own k)]> (s_snaps s)) s)
  | AResetXmin n =>
      r ← ok_of (SnapshotResetXmin n false (held_xmins n s) (s_xmins s n) (s_pa s));
      if idleb s n && bool_decide (n ∈ pgprocnos (s_pa s)) then Some (set_xmins n r.2 (set_pa r.1 s)) else None
  end.

Fixpoint exec_all (l : list action) (s : sys) : option sys :=
  match l with
  | [] => Some s
  | a :: l' => exec a s ≫= exec_all l'
  end.

(** ** The schedule is a sequence of steps *)

Lemma ok_of_Some {S A} (out : S * result A) r : ok_of out = Some r → out = (r.1, Ok r.2).
Proof. destruct out as [s' [a|e]]; [by intros [= <-]|done]. Qed.

Lemma idleb_idle s n : idleb s n = true → idle s n.
Proof.
  unfold idleb, idle. intros [H1 H2]%andb_true_iff. split.
  - intros p Hp. rewrite Hp in H1. apply negb_true_iff, Nat.eqb_neq in H1. done.
  - intros r Hr. rewrite forallb_forall in H2. apply list_elem_of_In in Hr. specialize (H2 r Hr). by apply negb_true_iff, Nat.eqb_neq in H2.
Qed.

Lemma workingb_working s k n t : s_trees s !! k = Some t → workingb s k n t = true → working s k n t.
Proof.
  unfold workingb, working. intros Hk [[[H1 H2]%andb_true_iff H3]%andb_true_iff H4]%andb_true_iff. apply bool_decide_eq_true in H3. apply negb_true_iff in H2.
  split_and!; [done|by destruct (x_phase t)|done|done|by apply idleb_idle].
Qed.

Lemma all_linked_spec t : all_linked t = true → Forall (λ u, sub_live u = true → sub_linked u = true) (x_subs t).
Proof.
  unfold all_linked. rewrite forallb_forall. intros H. apply list.Forall_forall. intros u Hu%list_elem_of_In Hl. specialize (H u Hu). by rewrite Hl in H.
Qed.

Lemma is_memberb_spec x t : is_memberb x t = true → is_member x t.
Proof.
  unfold is_memberb, is_member. intros [->%Z.eqb_eq|(u & Hu & [He Hl]%andb_true_iff)%existsb_exists]%orb_true_iff; [by left|right].
  exists u. apply Z.eqb_eq in He. by apply list_elem_of_In in Hu.
Qed.

Lemma exclusiveb_spec s : exclusiveb s = true → exclusive s.
Proof. unfold exclusiveb, exclusive. by destruct (s_readers s). Qed.

Lemma no_pending_spec s : no_pending s = true → s_pending s = None.
Proof. unfold no_pending. by destruct (s_pending s). Qed.

Lemma proc_idle_spec s n p : proc_idle s n = Some p → allProcs (s_pa s) !! n = Some p ∧ proc_xid p = InvalidTransactionId.
Proof. unfold proc_idle. destruct (allProcs (s_pa s) !! n) as [q|]; [|done]. cbn. destruct (Z.eqb_spec (proc_xid q) InvalidTransactionId); [|done]. by intros [= <-]. Qed.

(** Reading does not change the array. *)
Lemma rd_state {A} (a : list A) i pa : (rd a i pa).1 = pa.
Proof. unfold rd. by destruct (a !! i). Qed.

Lemma bind_state {A B} (m : PA A) (k : A → PA B) pa : (m pa).1 = pa → (∀ a, (k a pa).1 = pa) → ((m ≫= k) pa).1 = pa.
Proof. unfold mbind, M_bind. destruct (m pa) as [pa' [a|e]]; cbn; [intros -> Hk; apply Hk|done]. Qed.

Lemma scan_start_state n pa : (scan_start n pa).1 = pa.
Proof.
  unfold scan_start. apply bind_state; [done|]. intros pa0. apply bind_state; [unfold MyProc; apply bind_state; [done|intros; apply rd_state]|]. intros p.
  apply bind_state; [apply rd_state|done].
Qed.

Lemma scan_xid_state my xmax i sc pa : (scan_xid my xmax i sc pa).1 = pa.
Proof.
  unfold scan_xid. apply bind_state; [done|]. intros pa0. apply bind_state; [apply rd_state|]. intros x. destruct (_ =? _); [done|]. destruct (_ =? _)%nat; [done|].
  destruct (negb _); [done|]. apply bind_state; [apply rd_state|]. intros f. by destruct (hasflags _ _).
Qed.

Lemma scan_subxids_state i sc pa : (scan_subxids i sc pa).1 = pa.
Proof.
  unfold scan_subxids. destruct (sc_suboverflowed sc); [done|]. apply bind_state; [done|]. intros pa0. apply bind_state; [apply rd_state|]. intros st.
  destruct (overflowed st); [done|]. destruct (_ <? _)%nat; [|done]. apply bind_state; [apply rd_state|]. intros m. apply bind_state; [apply rd_state|done].
Qed.

Ltac guards :=
  repeat match goal with
  | H : _ && _ = true |- _ => apply andb_true_iff in H as [? ?]
  | H : exclusiveb _ = true |- _ => apply exclusiveb_spec in H
  | H : no_pending _ = true |- _ => apply no_pending_spec in H
  | H : idleb _ _ = true |- _ => apply idleb_idle in H
  | H : bool_decide _ = true |- _ => apply bool_decide_eq_true in H
  | H : proc_idle _ _ = Some _ |- _ => apply proc_idle_spec in H as [? ?]
  | H : ok_of _ = Some _ |- _ => apply ok_of_Some in H
  | H : Ok _ = Ok _ |- _ => injection H as H
  end.

Ltac exec_case :=
  repeat match goal with
  | H : (_ ≫= _) = Some _ |- _ => apply bind_Some in H as (? & ? & H)
  | H : (if ?b then _ else None) = Some _ |- _ => destruct b eqn:?; [|done]
  | H : Some _ = Some _ |- _ => injection H as <-
  end; guards.

Lemma forallb_subset (l k : list Z) : forallb (λ y, bool_decide (y ∈ k)) l = true → l ⊆ k.
Proof. rewrite forallb_forall. intros H y Hy%list_elem_of_In. specialize (H y Hy). by apply bool_decide_eq_true in H. Qed.

Lemma forallb_idle s ns : forallb (idleb s) ns = true → ∀ n, n ∈ ns → idle s n.
Proof. rewrite forallb_forall. intros H n Hn%list_elem_of_In. by apply idleb_idle, H. Qed.

Lemma exec_step a s s' : exec a s = Some s' → step s s'.
Proof.
  destruct a; cbn [exec]; intros H; exec_case.
  - destruct x0 as [pa' []]. by eapply st_join.
  - destruct x0 as [pa' []]. by eapply st_leave.
  - destruct x0 as [pa' []]. by eapply st_vacuum.
  - destruct x0 as [sh' f]. by eapply st_assign_top.
  - destruct x0 as [sh' f]. eapply st_assign_sub; [done|by apply workingb_working|by apply is_memberb_spec|done].
  - destruct x as [n [[k parent]|] f]; cbn in *; exec_case; destruct x0 as [pa' []]; [by eapply st_store_sub|by eapply st_store_top].
  - eapply st_link; [by apply workingb_working|by eapply list_elem_of_lookup_2|by apply negb_true_iff].
  - destruct xs as [|x0 xs]; [done|]. exec_case. eapply st_abort_subs; [by apply workingb_working|by apply forallb_subset].
  - destruct (x_phase x) as [|[|x0 xs] [|]| |] eqn:Hp; try done. destruct (x_holders x) as [|n [|]] eqn:Hh; try done. exec_case. destruct x1 as [pa' []]. by eapply st_remove_subs.
  - eapply st_log; [done|by destruct (x_phase x)|by apply forallb_idle|by apply Nat.eqb_eq|]. intros ->. by apply all_linked_spec.
  - destruct (x_phase x) as [|xs [|w ws]|c [|w ws]|] eqn:Hp; try done; exec_case; eapply st_write; try done; by rewrite Hp.
  - destruct (x_phase x) as [| |c [|]|] eqn:Hp; try done. destruct (x_holders x) as [|n [|]] eqn:Hh; try done. destruct (x_prepared x) eqn:Hpr; exec_case; destruct x0 as [pa' []].
    + by eapply st_finish_prepared.
    + by eapply st_end.
  - destruct x0 as [pa' []]. by eapply st_end_noxid.
  - destruct x0 as [pa' []]. eapply st_prepare; try done; [by apply workingb_working|by apply negb_true_iff|by apply all_linked_spec|by apply Nat.ltb_lt].
  - destruct (x_holders x) as [|n [|d [|]]] eqn:Hh; try done. exec_case. destruct x0 as [pa' []]. by eapply st_clear.
  - destruct x as [pa' [[off xmax] sc]]. cbn in *. exec_case. pose proof (scan_start_state n (s_pa s)) as Hst. rewrite H0 in Hst. cbn in Hst. subst pa'. by eapply st_scan_start.
  - destruct (r_more x) eqn:Hm; exec_case.
    + destruct x0 as [pa' sc]. pose proof (scan_subxids_state (r_pos x) (r_scan x) (s_pa s)) as Hst. rewrite H1 in Hst. cbn in *. subst pa'. by eapply st_scan_subxids.
    + destruct x0 as [pa' [sc more]]. cbn in *. exec_case. pose proof (scan_xid_state (r_off x) (r_xmax x) (r_pos x) (r_scan x) (s_pa s)) as Hst. rewrite H1 in Hst. cbn in Hst. subst pa'.
      eapply st_scan_xid; [done|done|by apply Nat.ltb_lt|done].
  - destruct x0 as [pa' [snap g]]. cbn in *. exec_case. eapply st_scan_finish; [done|by apply negb_true_iff|by apply Nat.eqb_eq|done].
  - destruct x0 as [pa' [[snap g]|]]; cbn in *; [|done]. exec_case. eapply st_reuse; [done|done|by eapply list_elem_of_lookup_2|done|done].
  - by eapply st_release.
  - destruct x as [pa' g]. by eapply st_reset_xmin.
Qed.

Lemma exec_reachable base n s l s' : reachable base n s → exec_all l s = Some s' → reachable base (length l + n) s'.
Proof.
  revert n s. induction l as [|a l IH]; intros n s Hr He; cbn in He; [by injection He as <-|].
  apply bind_Some in He as (s1 & H1 & H2). replace (length (a :: l) + n)%nat with (length l + S n)%nat by (cbn; lia). eapply IH; [|done].
  eapply reach_step; [done|by eapply exec_step].
Qed.
