(* ===== verification/SnapshotInv.v ===== *)
(** * The invariant of the running system

    What the process array shows of the history in every reachable state of
    [SnapshotSys], what a scan has collected up to its position, and what a
    snapshot that has been taken lists; with the proof that every step preserves
    it. *)
From stdpp Require Import base tactics list gmap strings numbers sorting.
From Stdlib Require Import ZArith Lia Bool.
From S2P Require Import Prelude Visibility Clog XidGen ProcArray SnapshotSys.

(** ** What a process shows *)

Record shown : Type := mkShown {
  sh_xid : Z;
  sh_flagged : bool;
  sh_over : bool;
  sh_subs : list Z;
  sh_xmin : Z
}.

Definition shows (p : PGPROC) : shown :=
  mkShown (proc_xid p) (proc_flagged p) (overflowed (subxidStatus p)) (cached p) (proc_xmin p).

Definition view (pa : procs) (n : nat) : option shown :=
  if decide (n ∈ pgprocnos pa) then shows <$> allProcs pa !! n else None.

Lemma view_at pa ps n i p : tracks pa ps → at_pos pa ps n i p → view pa n = Some (shows p).
Proof.
  intros Ht Hpos. destruct (at_pos_proc _ _ Ht _ _ _ Hpos) as (Hp & _). unfold view.
  rewrite decide_True by (destruct Hpos; by eapply list_elem_of_lookup_2). by rewrite Hp.
Qed.

Lemma view_pos pa ps n v : tracks pa ps → view pa n = Some v → ∃ i p, at_pos pa ps n i p ∧ v = shows p.
Proof.
  intros Ht Hv. unfold view in Hv. destruct (decide _) as [Hn|]; [|done]. destruct (pos_exists _ _ Ht n Hn) as (i & p & Hpos).
  destruct (at_pos_proc _ _ Ht _ _ _ Hpos) as (Hp & _). rewrite Hp in Hv. injection Hv as <-. by exists i, p.
Qed.

Lemma view_member pa n p : n ∈ pgprocnos pa → allProcs pa !! n = Some p → view pa n = Some (shows p).
Proof. intros Hn Hp. unfold view. by rewrite decide_True, Hp by done. Qed.

Lemma view_in pa n v : view pa n = Some v → n ∈ pgprocnos pa.
Proof. unfold view. by destruct (decide _). Qed.

(** Membership is membership in the paired lists. *)
Lemma view_zip pa ps n v : tracks pa ps → view pa n = Some v ↔ (n, v) ∈ zip (pgprocnos pa) (shows <$> ps).
Proof.
  intros Ht. split.
  - intros (i & p & [Hn Hp] & ->)%(view_pos _ _ _ _ Ht). apply (list_elem_of_lookup_2 _ i). rewrite lookup_zip_with, Hn, list_lookup_fmap, Hp. done.
  - intros [i Hi]%list_elem_of_lookup. rewrite lookup_zip_with, list_lookup_fmap in Hi. destruct (pgprocnos pa !! i) as [m|] eqn:Hm; [|done].
    destruct (ps !! i) as [p|] eqn:Hp; [|done]. cbn in Hi. injection Hi as -> <-. by apply (view_at pa ps n i p).
Qed.

(** One process shows something else. *)
Record changed (n : nat) (v : shown) (pa pa' : procs) : Prop := mkChanged {
  ch_ns : pgprocnos pa' = pgprocnos pa;
  ch_wf : pa_wf pa';
  ch_view : ∀ m, view pa' m = if decide (m = n) then Some v else view pa m
}.

Lemma store_changed pa ps n i p q : tracks pa ps → Forall proc_ok (allProcs pa) → at_pos pa ps n i p → pgxactoff q = pgxactoff p → proc_ok q →
  changed n (shows q) pa (store n i q pa).
Proof.
  intros Ht Hall Hpos Hoff Hq. destruct (at_pos_proc _ _ Ht _ _ _ Hpos) as (Hp & _). split; [done|by eapply wf_store|].
  intros m. unfold view. cbn. destruct (decide (m = n)) as [->|Hne].
  - rewrite decide_True by (destruct Hpos; by eapply list_elem_of_lookup_2). by rewrite list_lookup_insert_eq by (by eapply lookup_lt_Some).
  - by rewrite list_lookup_insert_ne.
Qed.

Lemma changed_global n v pa pa' pa'' : changed n v pa pa' → pgprocnos pa'' = pgprocnos pa' → allProcs pa'' = allProcs pa' → pa_wf pa'' →
  changed n v pa pa''.
Proof.
  intros [H1 H2 H3] Hn Ha Hw. split; [by rewrite Hn|done|]. intros m. rewrite <- H3. unfold view. by rewrite Hn, Ha.
Qed.

(** ** The last completed id *)

Definition in_window (base x : Z) : Prop := normal_xid x ∧ base ≤ x < base + 2 ^ 31.

Lemma window_precedes base a b : in_window base a → in_window base b →
  TransactionIdPrecedes (u32 a) (u32 b) = (a <? b) ∧ TransactionIdFollowsOrEquals (u32 a) (u32 b) = (b <=? a).
Proof. intros [Ha Ha'] [Hb Hb']. apply precedes_full; [done|done|lia]. Qed.

Lemma window_inj base a b : in_window base a → in_window base b → u32 a = u32 b → a = b.
Proof. intros [_ Ha] [_ Hb]. apply u32_inj_window. lia. Qed.

Lemma window_normal base a : in_window base a → u32 a ≠ InvalidTransactionId ∧ TransactionIdIsNormal (u32 a) = true ∧ TransactionIdIsValid (u32 a) = true.
Proof.
  intros [[Ha _] _]. unfold InvalidTransactionId, TransactionIdIsValid, TransactionIdIsNormal, FirstNormalTransactionId, InvalidTransactionId in *. split_and!; lia.
Qed.

Lemma normal_precedes base a b : in_window base a → in_window base b → NormalTransactionIdPrecedes (u32 a) (u32 b) = (a <? b).
Proof.
  intros [_ Ha] [_ Hb]. unfold NormalTransactionIdPrecedes. rewrite i32_sub_u32 by lia. apply eq_true_iff_eq. rewrite !Z.ltb_lt. lia.
Qed.

Lemma latest_full base x l : in_window base x → Forall (in_window base) l →
  TransactionIdLatest (u32 x) (u32 <$> l) = u32 (foldr Z.max x l) ∧ in_window base (foldr Z.max x l).
Proof.
  intros Hx Hl. induction Hl as [|y l Hy _ [IH1 IH2]]; [done|]. unfold TransactionIdLatest in *. cbn [fmap list_fmap foldr].
  cbn [foldr] in IH1. rewrite IH1. rewrite (proj1 (window_precedes base _ _ IH2 Hy)). destruct (Z.ltb_spec (foldr Z.max x l) y).
  - by rewrite Z.max_l by lia.
  - by rewrite Z.max_r by lia.
Qed.

Lemma latest_max x l y : y ∈ x :: l → y ≤ foldr Z.max x l.
Proof.
  induction l as [|z l IH]; [intros ->%list_elem_of_singleton; cbn; lia|]. cbn. rewrite !elem_of_cons in *. intros [->|[->|Hy]].
  - specialize (IH (or_introl eq_refl)). lia.
  - lia.
  - specialize (IH (or_intror Hy)). lia.
Qed.

Lemma latest_in x l : foldr Z.max x l ∈ x :: l.
Proof.
  induction l as [|z l IH]; cbn; [by left|]. destruct (Z.max_spec z (foldr Z.max x l)) as [[_ ->]|[_ ->]].
  - apply elem_of_cons in IH as [->|]; [by left|]. by right; right.
  - by right; left.
Qed.

Lemma latest_after_full base pa f : in_window base (latestCompletedXid pa) → in_window base f → f < 2 ^ 64 →
  latestCompletedXid (latest_after (u32 f) pa) = Z.max (latestCompletedXid pa) f.
Proof.
  intros Hl Hf H64. unfold latest_after, XidFromFullTransactionId. rewrite (proj1 (window_precedes base _ _ Hl Hf)). destruct (Z.ltb_spec (latestCompletedXid pa) f); [|lia].
  cbn. unfold FullXidRelativeTo, XidFromFullTransactionId. destruct Hl as [[_ ?] ?], Hf as [[_ ?] ?]. rewrite i32_sub_u32 by lia. rewrite u64_small by lia. lia.
Qed.

Lemma latest_after_fields x pa : pgprocnos (latest_after x pa) = pgprocnos pa ∧ allProcs (latest_after x pa) = allProcs pa ∧
  xactCompletionCount (latest_after x pa) = xactCompletionCount pa.
Proof. unfold latest_after. by destruct (TransactionIdPrecedes _ _). Qed.

(** [TransactionIdAdvance] is [FullTransactionIdAdvance] on the low half. *)
Lemma advance_low x : normal_xid x → x < 2 ^ 64 - 8 → TransactionIdAdvance (u32 x) = u32 (FullTransactionIdAdvance x).
Proof.
  intros Hx Hlt. destruct (advance_spec x Hx Hlt) as ([Hn _] & _ & Ha). unfold TransactionIdAdvance. rewrite u32_add.
  destruct (Z.ltb_spec (u32 (x + 1)) FirstNormalTransactionId) as [Hs|Hs].
  - destruct Ha as [Ha|Ha]; [|done]. rewrite Ha in Hn. lia.
  - unfold FullTransactionIdAdvance. destruct Hx as [Hx0 Hx]. unfold FirstNormalFullTransactionId, FirstNormalTransactionId in *.
    rewrite u64_small by lia. destruct (Z.ltb_spec (x + 1) 3); [done|]. cbn [skip_special]. unfold XidFromFullTransactionId, FirstNormalTransactionId.
    by rewrite (proj2 (Z.ltb_ge _ _) Hs).
Qed.

(** The next normal id is not beyond any later one. *)
Lemma advance_le a b : normal_xid a → normal_xid b → a < b → a < 2 ^ 64 - 8 → FullTransactionIdAdvance a ≤ b.
Proof.
  intros Ha [Hb Hb0] Hlt H64. destruct (advance_spec a Ha H64) as (_ & Hr & [->|H3]); [lia|].
  destruct (decide (FullTransactionIdAdvance a ≤ b)) as [|Hgt]; [done|exfalso]. set (c := FullTransactionIdAdvance a) in *.
  unfold FirstNormalTransactionId, u32, wrap_u in *. Z.to_euclidean_division_equations. lia.
Qed.

(** ** What shared memory says of one transaction *)

Definition status (sh : shared) (f : Z) : Z := TransactionIdGetStatus (pg_xact sh) (u32 f).

Definition parent_of (sh : shared) (f : Z) : Z := SubTransGetParent (pg_subtrans sh) (u32 f).

Definition final (c : bool) : Z := if c then TRANSACTION_STATUS_COMMITTED else TRANSACTION_STATUS_ABORTED.

(** The writes that are left bring the ids to their status. *)
Definition writes_ok (sh : shared) (fs : list Z) (ws : list write) (st : Z) : Prop :=
  Forall (λ w, w.1 ∈ u32 <$> fs ∧ 0 ≤ w.2 < 4) ws ∧
  ∀ f, f ∈ fs → TransactionIdGetStatus (run_writes ws (pg_xact sh)) (u32 f) = st.

Definition phase_ok (sh : shared) (latest : Z) (t : xtree) : Prop :=
  match x_phase t with
  | Running => ∀ f, f ∈ x_live t → status sh f = TRANSACTION_STATUS_IN_PROGRESS
  | AbortingSubs xs ws => xs ⊆ live_subs t ∧ writes_ok sh xs ws TRANSACTION_STATUS_ABORTED ∧
      ∀ f, f ∈ x_live t → f ∉ xs → status sh f = TRANSACTION_STATUS_IN_PROGRESS
  | Logging c ws => writes_ok sh (x_live t) ws (final c)
  | Ended c => ∀ f, f ∈ x_live t → status sh f = final c ∧ f ≤ latest
  end.

(** The number of processes that show a transaction. *)
Definition shape_ok (t : xtree) : Prop :=
  match x_phase t with
  | Running => (∃ n, x_holders t = [n]) ∨ x_prepared t = true ∧ ∃ n d, x_holders t = [n; d] ∧ n ≠ d
  | AbortingSubs _ _ => (∃ n, x_holders t = [n]) ∧ x_prepared t = false
  | Logging _ _ => ∃ n, x_holders t = [n]
  | Ended _ => x_holders t = []
  end.

Definition proc_shows (t : xtree) (v : shown) : Prop :=
  sh_xid v = u32 (x_top t) ∧ sh_flagged v = x_flagged t ∧ (∀ y, y ∈ sh_subs v → y ∈ u32 <$> (sub_id <$> x_subs t)) ∧
  (sh_over v = false → ∀ f, f ∈ live_subs t → u32 f ∈ sh_subs v).

Record tree_ok (sh : shared) (vw : nat → option shown) (latest : Z) (t : xtree) : Prop := mkTreeOk {
  tk_sorted : StronglySorted Z.lt (x_all t);
  tk_parents : ∀ i u, x_subs t !! i = Some u → sub_parent u = x_top t ∨
    ∃ j u', (j < i)%nat ∧ x_subs t !! j = Some u' ∧ sub_linked u' = true ∧ sub_id u' = sub_parent u;
  tk_top : parent_of sh (x_top t) = InvalidTransactionId;
  tk_links : ∀ u, u ∈ x_subs t → sub_linked u = true → parent_of sh (sub_id u) = u32 (sub_parent u);
  tk_dead : ∀ u, u ∈ x_subs t → sub_live u = false → status sh (sub_id u) = TRANSACTION_STATUS_ABORTED;
  tk_shape : shape_ok t;
  tk_shown : ∀ n, n ∈ x_holders t → ∃ v, vw n = Some v ∧ proc_shows t v;
  tk_phase : phase_ok sh latest t
}.

(** What a process shows of its transaction, whatever its [xmin]. *)
Definition same_shown (v v' : shown) : Prop :=
  sh_xid v' = sh_xid v ∧ sh_flagged v' = sh_flagged v ∧ sh_over v' = sh_over v ∧ sh_subs v' = sh_subs v.

Lemma live_subs_all t : live_subs t ⊆ sub_id <$> x_subs t.
Proof. intros f Hf. unfold live_subs in Hf. apply list_elem_of_fmap in Hf as (u & -> & Hu). apply list_elem_of_filter in Hu as [_ Hu]. by apply list_elem_of_fmap_2. Qed.

Lemma x_live_all t : x_live t ⊆ x_all t.
Proof. intros f. unfold x_live, x_all. rewrite !elem_of_cons. intros [->|Hf]; [by left|]. right. by apply live_subs_all. Qed.

Lemma run_writes_same ws c c' x : Forall (λ w : write, 0 ≤ w.2 < 4) ws → TransactionIdGetStatus c x = TransactionIdGetStatus c' x →
  TransactionIdGetStatus (run_writes ws c) x = TransactionIdGetStatus (run_writes ws c') x.
Proof.
  revert c c'. induction ws as [|w ws IH]; intros c c' Hw Hx; [done|]. apply list.Forall_cons in Hw as [Hw Hws].
  apply (IH (TransactionIdSetStatusBit w.1 w.2 c) (TransactionIdSetStatusBit w.1 w.2 c') Hws). by rewrite !get_set_status, Hx by done.
Qed.

Lemma writes_ok_frame sh sh' fs ws st : writes_ok sh fs ws st → (∀ f, f ∈ fs → status sh' f = status sh f) → writes_ok sh' fs ws st.
Proof.
  intros [Hw Hf] Hs. split; [done|]. intros f Hin. rewrite <- (Hf f Hin). apply run_writes_same; [|by apply Hs].
  eapply list.Forall_impl; [exact Hw|]. by intros w [_ ?].
Qed.

Lemma phase_ok_frame sh sh' l l' t : phase_ok sh l t → (∀ f, f ∈ x_all t → status sh' f = status sh f) → l ≤ l' → phase_ok sh' l' t.
Proof.
  unfold phase_ok. intros Hp Hs Hl. destruct (x_phase t) as [|xs ws|c ws|c].
  - intros f Hf. rewrite Hs by (by apply x_live_all). by apply Hp.
  - destruct Hp as (Hx & Hw & Hr). split_and!; [done| |].
    + eapply writes_ok_frame; [exact Hw|]. intros f Hf. apply Hs. right. by apply live_subs_all, Hx.
    + intros f Hf Hn. rewrite Hs by (by apply x_live_all). by apply Hr.
  - eapply writes_ok_frame; [exact Hp|]. intros f Hf. by apply Hs, x_live_all.
  - intros f Hf. destruct (Hp f Hf). rewrite Hs by (by apply x_live_all). split; [done|lia].
Qed.

Lemma proc_shows_same t v v' : same_shown v v' → proc_shows t v → proc_shows t v'.
Proof. intros (H1 & H2 & H3 & H4) (S1 & S2 & S3 & S4). unfold proc_shows. by rewrite H1, H2, H3, H4. Qed.

(** A transaction does not notice what happens to the others. *)
Lemma tree_ok_frame sh sh' vw vw' l l' t : tree_ok sh vw l t → (∀ f, f ∈ x_all t → status sh' f = status sh f) →
  (∀ f, f ∈ x_all t → parent_of sh' f = parent_of sh f) →
  (∀ n v, n ∈ x_holders t → vw n = Some v → ∃ v', vw' n = Some v' ∧ same_shown v v') → l ≤ l' → tree_ok sh' vw' l' t.
Proof.
  intros [H1 H2 H3 H4 H5 H6 H7 H8] Hs Hp Hv Hl. assert (∀ u, u ∈ x_subs t → sub_id u ∈ x_all t) as Hsub.
  { intros u Hu. right. by apply list_elem_of_fmap_2. }
  split; [done|done| | | |done| |].
  - rewrite Hp; [done|by left].
  - intros u Hu Hk. rewrite Hp by auto. by apply H4.
  - intros u Hu Hk. rewrite Hs by auto. by apply H5.
  - intros n Hn. destruct (H7 n Hn) as (v & Hvn & Hsh). destruct (Hv n v Hn Hvn) as (v' & Hv' & Hsame). exists v'. split; [done|]. by eapply proc_shows_same.
  - by eapply phase_ok_frame.
Qed.

Lemma same_shown_refl v : same_shown v v.
Proof. done. Qed.

(** ** Scans and snapshots *)

Definition ended_tops (ts : list xtree) : list Z := x_top <$> filter (λ t, ended t = true) ts.

(** A transaction that a scan has passed. *)
Definition seen (X m : Z) (xips subxips : list Z) (over : bool) (t : xtree) : Prop :=
  x_top t < X → u32 (x_top t) ∈ xips ∧ m ≤ x_top t ∧ ∀ f, f ∈ live_subs t → f < X → over = true ∨ u32 f ∈ subxips.

(** The lists have only ids of transactions that had not ended. *)
Definition listed (ts start : list xtree) (xips subxips : list Z) : Prop :=
  (∀ y, y ∈ xips → ∃ t, t ∈ ts ∧ (x_top t ∉ ended_tops start) ∧ y = u32 (x_top t)) ∧
  ∀ y, y ∈ subxips → ∃ t, t ∈ ts ∧ (x_top t ∉ ended_tops start) ∧ y ∈ u32 <$> x_all t.

(** The oldest id a snapshot shows as running is that of a running transaction. *)
Definition xmin_shown (ts : list xtree) (n : nat) (X m : Z) : Prop :=
  m = X ∨ ∃ t, t ∈ ts ∧ ended t = false ∧ (x_flagged t = false ∨ n ∈ x_holders t) ∧ x_top t = m.

(** The transaction with this id is shown by the process. *)
Definition holds (ts : list xtree) (n : nat) (x : Z) : Prop := ∃ t, t ∈ ts ∧ ended t = false ∧ n ∈ x_holders t ∧ x_top t = x.

Record reader_ok (base : Z) (pa : procs) (ts : list xtree) (r : reader) (X m : Z) : Prop := mkReaderOk {
  rk_xmax : in_window base X ∧ r_xmax r = u32 X ∧ X = FullTransactionIdAdvance (latestCompletedXid pa);
  rk_xmin : in_window base m ∧ sc_xmin (r_scan r) = u32 m ∧ m ≤ X ∧ xmin_shown ts (r_proc r) X m;
  rk_off : pgprocnos pa !! r_off r = Some (r_proc r);
  rk_pos : (r_pos r ≤ numProcs pa)%nat;
  rk_count : r_count r = xactCompletionCount pa;
  rk_start : ∀ t, ended t = true → t ∈ ts ↔ t ∈ r_start r;
  rk_own : ∀ x, r_own r = Some x → holds ts (r_proc r) x;
  rk_mine : ∀ t, t ∈ ts → ended t = false → r_proc r ∈ x_holders t → m ≤ x_top t ∧ (r_own r = Some (x_top t) ∨ X ≤ x_top t);
  rk_listed : listed ts (r_start r) (sc_xip (r_scan r)) (sc_subxip (r_scan r));
  rk_seen : ∀ j n t, (j < r_pos r)%nat → pgprocnos pa !! j = Some n → t ∈ ts → ended t = false → n ∈ x_holders t →
    x_flagged t = false → j ≠ r_off r → seen X m (sc_xip (r_scan r)) (sc_subxip (r_scan r)) (sc_suboverflowed (r_scan r)) t;
  rk_more : r_more r = true → ∃ n t, pgprocnos pa !! r_pos r = Some n ∧ t ∈ ts ∧ ended t = false ∧ n ∈ x_holders t ∧
    u32 (x_top t) ∈ sc_xip (r_scan r) ∧ m ≤ x_top t
}.

Record taken_ok (base : Z) (pa : procs) (ts : list xtree) (k : taken) (X m : Z) : Prop := mkTakenOk {
  ak_xmax : in_window base X ∧ snap_xmax (snap_data (k_snap k)) = u32 X ∧ X ≤ FullTransactionIdAdvance (latestCompletedXid pa);
  ak_xmin : in_window base m ∧ snap_xmin (snap_data (k_snap k)) = u32 m ∧ m ≤ X;
  ak_recovery : takenDuringRecovery (snap_data (k_snap k)) = false;
  ak_start : ∀ t, t ∈ k_start k → ended t = true → t ∈ ts ∧ ∀ f, f ∈ x_live t → f < X;
  ak_listed : listed ts (k_start k) (xip (snap_data (k_snap k))) (subxip (snap_data (k_snap k)));
  ak_seen : ∀ t, t ∈ ts → x_top t ∉ ended_tops (k_start k) → x_flagged t = false → k_own k ≠ Some (x_top t) →
    seen X m (xip (snap_data (k_snap k))) (subxip (snap_data (k_snap k))) (suboverflowed (snap_data (k_snap k))) t;
  ak_oldest : ∀ t, t ∈ ts → x_top t ∉ ended_tops (k_start k) → x_flagged t = false ∨ k_proc k ∈ x_holders t → m ≤ x_top t;
  ak_count : 1 ≤ snapXactCompletionCount (k_snap k) ≤ xactCompletionCount pa;
  ak_reuse : snapXactCompletionCount (k_snap k) = xactCompletionCount pa →
    (∀ t, t ∈ ts → ended t = true → t ∈ k_start k) ∧ X = FullTransactionIdAdvance (latestCompletedXid pa) ∧
    (∀ x, k_own k = Some x → holds ts (k_proc k) x) ∧ xmin_shown ts (k_proc k) X m;
  ak_held : k_held k = true → ∃ v M, view pa (k_proc k) = Some v ∧ sh_xmin v = u32 M ∧ in_window base M ∧ M ≤ m
}.

(** ** The invariant *)

(** All ids in the array are below it. *)
Definition limit (s : sys) : Z :=
  match s_pending s with
  | Some p => pd_id p
  | None => nextXid (TransamVariables (s_shm s))
  end.

Record pending_ok (base : Z) (s : sys) (p : pending) : Prop := mkPendingOk {
  pk_window : in_window base (pd_id p);
  pk_next : pd_id p < nextXid (TransamVariables (s_shm s));
  pk_unused : parent_of (s_shm s) (pd_id p) = InvalidTransactionId ∧ status (s_shm s) (pd_id p) = TRANSACTION_STATUS_IN_PROGRESS;
  pk_proc : match pd_parent p with
    | None => ∃ v, view (s_pa s) (pd_proc p) = Some v ∧ sh_xid v = InvalidTransactionId
    | Some (k, x) => ∃ t, s_trees s !! k = Some t ∧ x_phase t = Running ∧ x_prepared t = false ∧ x_holders t = [pd_proc p] ∧ is_member x t
    end
}.

(** The part of the invariant about ids, processes and the history. *)
Record core (base : Z) (s : sys) : Prop := mkCore {
  co_shared : shared_ok base (s_shm s);
  co_unused : unused_no_parent (TransamVariables (s_shm s)) (pg_subtrans (s_shm s));
  co_wf : pa_wf (s_pa s);
  co_pending : ∀ p, s_pending s = Some p → pending_ok base s p;
  co_window : ∀ t f, t ∈ s_trees s → f ∈ x_all t → in_window base f ∧ f < limit s;
  co_disjoint : ∀ i j t u f, s_trees s !! i = Some t → s_trees s !! j = Some u → f ∈ x_all t → f ∈ x_all u → i = j;
  co_trees : ∀ t, t ∈ s_trees s → tree_ok (s_shm s) (view (s_pa s)) (latestCompletedXid (s_pa s)) t;
  co_holds : ∀ n v, view (s_pa s) n = Some v → sh_xid v ≠ InvalidTransactionId →
    ∃ t, t ∈ s_trees s ∧ ended t = false ∧ n ∈ x_holders t
}.

(** An id that is not newer than any running transaction. *)
Definition recent_ok (base bound : Z) (ts : list xtree) (x : Z) : Prop :=
  ∃ R, x = u32 R ∧ in_window base R ∧ R ≤ bound ∧ ∀ t, t ∈ ts → ended t = false → x_flagged t = false → R ≤ x_top t.

Record inv (base : Z) (s : sys) : Prop := mkInv {
  iv_core : core base s;
  iv_latest : in_window base (latestCompletedXid (s_pa s)) ∧ FullTransactionIdAdvance (latestCompletedXid (s_pa s)) ≤ limit s;
  iv_xmins : ∀ n v, view (s_pa s) n = Some v → sh_xmin v ≠ InvalidTransactionId →
    TransactionXmin (s_xmins s n) = sh_xmin v ∧ ∃ M, sh_xmin v = u32 M ∧ in_window base M ∧
      M ≤ FullTransactionIdAdvance (latestCompletedXid (s_pa s)) ∧
      ∀ t, t ∈ s_trees s → ended t = false → x_flagged t = false ∨ n ∈ x_holders t → M ≤ x_top t;
  iv_count : 1 ≤ xactCompletionCount (s_pa s);
  iv_readers : ∀ r, r ∈ s_readers s → ∃ X m, reader_ok base (s_pa s) (s_trees s) r X m;
  iv_snaps : ∀ k, k ∈ s_snaps s → ∃ X m, taken_ok base (s_pa s) (s_trees s) k X m;
  iv_recent : ∀ k, k ∈ s_snaps s → recent_ok base (FullTransactionIdAdvance (latestCompletedXid (s_pa s))) (s_trees s) (RecentXmin (s_xmins s (k_proc k)))
}.

(** ** How the history evolves *)

Record follows (lim : Z) (t t' : xtree) : Prop := mkFollows {
  fo_top : x_top t' = x_top t;
  fo_flagged : x_flagged t' = x_flagged t;
  fo_all : x_all t ⊆ x_all t';
  fo_live : ∀ f, f ∈ live_subs t' → f ∈ live_subs t ∨ lim ≤ f;
  fo_ended : ended t = true → t' = t;
  fo_holders : ∀ n, n ∈ x_holders t' → n ∈ x_holders t ∨ x_flagged t = false
}.

Definition fresh (lim : Z) (t : xtree) : Prop := lim ≤ x_top t ∧ ended t = false.

(** Every transaction goes on as [R] allows, and new ones are fresh. *)
Record evolved (R : xtree → xtree → Prop) (lim : Z) (ts ts' : list xtree) : Prop := mkEvolved {
  ev_old : ∀ t, t ∈ ts → ∃ t', t' ∈ ts' ∧ R t t';
  ev_new : ∀ t', t' ∈ ts' → (∃ t, t ∈ ts ∧ R t t') ∨ fresh lim t'
}.

Lemma elem_of_insert {A} (l : list A) k x y z : l !! k = Some y → z ∈ <[k := x]> l → z = x ∨ ∃ j, j ≠ k ∧ l !! j = Some z.
Proof.
  intros Hk [j Hj]%list_elem_of_lookup. destruct (decide (j = k)) as [->|Hne].
  - rewrite list_lookup_insert_eq in Hj by (by eapply lookup_lt_Some). injection Hj as <-. by left.
  - rewrite list_lookup_insert_ne in Hj by done. right. by exists j.
Qed.

Lemma insert_elem_of {A} (l : list A) k x y : l !! k = Some y → x ∈ <[k := x]> l.
Proof. intros Hk. apply (list_elem_of_lookup_2 _ k). apply list_lookup_insert_eq. by eapply lookup_lt_Some. Qed.

Lemma insert_other {A} (l : list A) k x j z : l !! j = Some z → j ≠ k → z ∈ <[k := x]> l.
Proof. intros Hj Hne. apply (list_elem_of_lookup_2 _ j). by rewrite list_lookup_insert_ne. Qed.

Section evolution.
Context (R : xtree → xtree → Prop) `{!Reflexive R} (lim : Z).

Lemma evolved_refl ts : evolved R lim ts ts.
Proof. split; [by intros t Ht; exists t|]. intros t Ht. left. by exists t. Qed.

Lemma evolved_insert ts k t t' : ts !! k = Some t → R t t' → evolved R lim ts (<[k := t']> ts).
Proof.
  intros Hk Hf. split.
  - intros u [j Hj]%list_elem_of_lookup. destruct (decide (j = k)) as [->|Hne].
    + assert (u = t) as -> by congruence. exists t'. split; [by eapply insert_elem_of|done].
    + exists u. split; [by eapply insert_other|done].
  - intros u Hu. left. apply (elem_of_insert _ _ _ t) in Hu as [->|(j & _ & Hj)]; [| |done].
    + exists t. split; [by eapply list_elem_of_lookup_2|done].
    + exists u. split; [by eapply list_elem_of_lookup_2|done].
Qed.

Lemma evolved_snoc ts t : fresh lim t → evolved R lim ts (ts ++ [t]).
Proof.
  intros Hf. split.
  - intros u Hu. exists u. split; [apply elem_of_app; by left|done].
  - intros u [Hu|Hu]%elem_of_app; [left; by exists u|right; by apply list_elem_of_singleton in Hu as ->].
Qed.
End evolution.

Abbreviation evolves lim := (evolved (follows lim) lim).

#[export] Instance follows_reflexive lim : Reflexive (follows lim).
Proof. intros t. split; auto. Qed.

Lemma ended_tops_in ts x : x ∈ ended_tops ts ↔ ∃ t, t ∈ ts ∧ ended t = true ∧ x_top t = x.
Proof.
  unfold ended_tops. rewrite list_elem_of_fmap. split.
  - intros (t & -> & [He Ht]%list_elem_of_filter). by exists t.
  - intros (t & Ht & He & <-). exists t. split; [done|]. by apply list_elem_of_filter.
Qed.

Lemma listed_evolves lim ts ts' start xs ys : evolves lim ts ts' → listed ts start xs ys → listed ts' start xs ys.
Proof.
  intros Hev [H1 H2]. split.
  - intros y Hy. destruct (H1 y Hy) as (t & Ht & He & ->). destruct (ev_old _ _ _ _ Hev t Ht) as (t' & Ht' & Hf). exists t'.
    by rewrite (fo_top _ _ _ Hf).
  - intros y Hy. destruct (H2 y Hy) as (t & Ht & He & Hin). destruct (ev_old _ _ _ _ Hev t Ht) as (t' & Ht' & Hf). exists t'.
    rewrite (fo_top _ _ _ Hf). split_and!; [done..|]. apply list_elem_of_fmap in Hin as (f & -> & Hin). apply list_elem_of_fmap_2. by apply (fo_all _ _ _ Hf).
Qed.

Lemma seen_follows lim X m xs ys over t t' : X ≤ lim → follows lim t t' → seen X m xs ys over t → seen X m xs ys over t'.
Proof.
  intros HX Hf Hs. unfold seen. rewrite (fo_top _ _ _ Hf). intros Hlt. destruct (Hs Hlt) as (H1 & H2 & H3). split_and!; [done|done|].
  intros f Hfl HfX. destruct (fo_live _ _ _ Hf f Hfl) as [Hl|Hl]; [by apply H3|lia].
Qed.

(** The history still has the transactions that a scan or a snapshot lists. *)
Lemma taken_evolves base pa pa' lim ts ts' k X m : taken_ok base pa ts k X m → evolves lim ts ts' → X ≤ lim →
  FullTransactionIdAdvance (latestCompletedXid pa) ≤ FullTransactionIdAdvance (latestCompletedXid pa') →
  xactCompletionCount pa ≤ xactCompletionCount pa' →
  (snapXactCompletionCount (k_snap k) = xactCompletionCount pa' →
    (∀ t, t ∈ ts' → ended t = true → t ∈ k_start k) ∧ X = FullTransactionIdAdvance (latestCompletedXid pa') ∧
    (∀ x, k_own k = Some x → holds ts' (k_proc k) x) ∧ xmin_shown ts' (k_proc k) X m) →
  (k_held k = true → ∃ v M, view pa' (k_proc k) = Some v ∧ sh_xmin v = u32 M ∧ in_window base M ∧ M ≤ m) →
  taken_ok base pa' ts' k X m.
Proof.
  intros [H1 H2 H3 H4 H5 H6 H7 H8 H9 H10] Hev HX Hl Hc Hre Hh. split; [|done|done| | | | | |done|done].
  - destruct H1 as (? & ? & ?). split_and!; [done..|lia].
  - intros t Ht He. destruct (H4 t Ht He) as [Hin Hf]. split; [|done]. destruct (ev_old _ _ _ _ Hev t Hin) as (t' & Ht' & Hfo).
    by rewrite (fo_ended _ _ _ Hfo He) in Ht'.
  - by eapply listed_evolves.
  - intros t' Ht' Hne Hfl Hown. destruct (ev_new _ _ _ _ Hev t' Ht') as [(t & Ht & Hf)|[Hfr _]]; [|unfold seen; lia].
    eapply seen_follows; [exact HX|exact Hf|]. rewrite (fo_top _ _ _ Hf) in Hne, Hown. rewrite (fo_flagged _ _ _ Hf) in Hfl. by apply H6.
  - intros t' Ht' Hne Hor. destruct (ev_new _ _ _ _ Hev t' Ht') as [(t & Ht & Hf)|[Hfr _]]; [|lia].
    rewrite (fo_top _ _ _ Hf) in Hne |- *. rewrite (fo_flagged _ _ _ Hf) in Hor. apply H7; [done|done|].
    destruct Hor as [?|Hn]; [by left|]. destruct (fo_holders _ _ _ Hf _ Hn); auto.
  - lia.
Qed.

Lemma recent_evolves base b b' lim ts ts' x : evolves lim ts ts' → recent_ok base b ts x → b ≤ b' → b ≤ lim → recent_ok base b' ts' x.
Proof.
  intros Hev (R & Hx & Hw & Hb & Hall) Hbb Hbl. exists R. split_and!; [done|done|lia|]. intros t' Ht' He Hf. destruct (ev_new _ _ _ _ Hev t' Ht') as [(t & Ht & Hfo)|[Hfr _]]; [|lia].
  rewrite (fo_top _ _ _ Hfo). rewrite (fo_flagged _ _ _ Hfo) in Hf. apply Hall; [done| |done].
  destruct (ended t) eqn:He'; [|done]. by rewrite (fo_ended _ _ _ Hfo He'), He' in He.
Qed.

(** Between completions the transactions keep their processes. *)
Definition calmly (lim : Z) (t t' : xtree) : Prop := follows lim t t' ∧ ended t' = ended t ∧ x_holders t' = x_holders t.

Abbreviation calm lim := (evolved (calmly lim) lim).

#[export] Instance calmly_reflexive lim : Reflexive (calmly lim).
Proof. intros t. by split. Qed.

Lemma calm_evolves lim ts ts' : calm lim ts ts' → evolves lim ts ts'.
Proof.
  intros [H1 H2]. split.
  - intros t Ht. destruct (H1 t Ht) as (t' & Ht' & [Hf _]). by exists t'.
  - intros t' Ht'. destruct (H2 t' Ht') as [(t & Ht & [Hf _])|?]; [left; by exists t|by right].
Qed.

Lemma holds_calm lim ts ts' n x : calm lim ts ts' → holds ts n x → holds ts' n x.
Proof.
  intros Hc (t & Ht & He & Hn & <-). destruct (ev_old _ _ _ _ Hc t Ht) as (t' & Ht' & Hf & He' & Hh). exists t'.
  rewrite He', Hh. split_and!; [done..|apply Hf].
Qed.

Lemma xmin_shown_calm lim ts ts' n X m : calm lim ts ts' → xmin_shown ts n X m → xmin_shown ts' n X m.
Proof.
  intros Hc [->|(t & Ht & He & Hor & <-)]; [by left|right]. destruct (ev_old _ _ _ _ Hc t Ht) as (t' & Ht' & Hf & He' & Hh). exists t'.
  rewrite He', Hh, (fo_flagged _ _ _ Hf). split_and!; [done..|apply Hf].
Qed.

(** No transaction ends without being in the history as ended before. *)
Lemma ended_calm lim ts ts' t : calm lim ts ts' → ended t = true → t ∈ ts ↔ t ∈ ts'.
Proof.
  intros Hc He. split.
  - intros Ht. destruct (ev_old _ _ _ _ Hc t Ht) as (t' & Ht' & Hf & _). by rewrite (fo_ended _ _ _ Hf He) in Ht'.
  - intros Ht. destruct (ev_new _ _ _ _ Hc t Ht) as [(t0 & Ht0 & Hf & He' & _)|[_ ?]]; [|congruence].
    rewrite He in He'. by rewrite (fo_ended _ _ _ Hf (eq_sym He')).
Qed.

Lemma reader_calm base pa pa' lim ts ts' r X m : reader_ok base pa ts r X m → calm lim ts ts' → X ≤ lim →
  latestCompletedXid pa' = latestCompletedXid pa → xactCompletionCount pa' = xactCompletionCount pa → pgprocnos pa' = pgprocnos pa →
  reader_ok base pa' ts' r X m.
Proof.
  intros [H1 H2 H3 H4 H5 H6 H7 H8 H9 H10 H11] Hc HX Hl Hn Hns. destruct H2 as (H2a & H2b & H2c & H2d).
  split; rewrite ?Hl, ?Hn, ?Hns; unfold numProcs in *; rewrite ?Hns; [done| |done|done|done| | | | | |].
  - split_and!; [done..|by eapply xmin_shown_calm].
  - intros t He. rewrite <- (ended_calm _ _ _ t Hc He). by apply H6.
  - intros x Hx. by eapply holds_calm; [|apply H7].
  - intros t' Ht' He Hp. destruct (ev_new _ _ _ _ Hc t' Ht') as [(t & Ht & Hf & He' & Hh)|[Hfr _]]; [|split; [lia|right; lia]].
    rewrite (fo_top _ _ _ Hf). apply H8; [done|congruence|by rewrite <- Hh].
  - by eapply listed_evolves; [apply calm_evolves|].
  - intros j n t' Hj Hjn Ht' He Hin Hfl Hoff. destruct (ev_new _ _ _ _ Hc t' Ht') as [(t & Ht & Hf & He' & Hh)|[Hfr _]]; [|unfold seen; lia].
    eapply seen_follows; [exact HX|exact Hf|]. rewrite Hh in Hin. rewrite (fo_flagged _ _ _ Hf) in Hfl. apply (H10 j n t); [done|done|done|congruence|done..].
  - intros Hm. destruct (H11 Hm) as (n & t & Hpn & Ht & He & Hin & Htop & Hle).
    destruct (ev_old _ _ _ _ Hc t Ht) as (t' & Ht' & Hf & He' & Hh). exists n, t'. rewrite He', Hh, (fo_top _ _ _ Hf). done.
Qed.

Lemma taken_calm base pa pa' lim ts ts' k X m : taken_ok base pa ts k X m → calm lim ts ts' → X ≤ lim →
  latestCompletedXid pa' = latestCompletedXid pa → xactCompletionCount pa' = xactCompletionCount pa →
  (k_held k = true → ∃ v M, view pa' (k_proc k) = Some v ∧ sh_xmin v = u32 M ∧ in_window base M ∧ M ≤ m) →
  taken_ok base pa' ts' k X m.
Proof.
  intros Hk Hc HX Hl Hn Hh. eapply taken_evolves; [exact Hk|by apply calm_evolves|done|by rewrite Hl|by rewrite Hn| |done].
  rewrite Hn, Hl. intros Hcnt. destruct (ak_reuse _ _ _ _ _ _ Hk Hcnt) as (R1 & R2 & R3 & R4). split_and!; [|done| |].
  - intros t Ht He. apply R1; [|done]. by apply (ended_calm _ _ _ t Hc He).
  - intros x Hx. by eapply holds_calm; [|apply R3].
  - by eapply xmin_shown_calm.
Qed.

(** ** New ids *)

Lemma extend_subtrans_lookup x st y : ExtendSUBTRANS x st !! y =
  if negb (x mod SUBTRANS_XACTS_PER_PAGE =? 0) && negb (x =? FirstNormalTransactionId) then st !! y
  else if decide (y / SUBTRANS_XACTS_PER_PAGE = x / SUBTRANS_XACTS_PER_PAGE) then None else st !! y.
Proof.
  unfold ExtendSUBTRANS. destruct (negb _ && negb _); [done|]. destruct (decide _) as [He|Hne].
  - apply map_lookup_filter_None. right. intros z _. cbn. by intros H.
  - destruct (st !! y) as [z|] eqn:Hz.
    + by apply map_lookup_filter_Some.
    + apply map_lookup_filter_None. by left.
Qed.

(** A new id has no parent, nor have those after it on its page. *)
Lemma extend_subtrans_new v st x : unused_no_parent v st → let next := u32 (nextXid v) in
  next ≤ x < 2 ^ 32 → x / SUBTRANS_XACTS_PER_PAGE = next / SUBTRANS_XACTS_PER_PAGE → ExtendSUBTRANS next st !! x = None.
Proof.
  intros Hu next Hx Hp. rewrite extend_subtrans_lookup. destruct (negb _ && negb _) eqn:Hs; [|by rewrite decide_True].
  apply andb_true_iff in Hs as [H1 H2]. rewrite negb_true_iff, Z.eqb_neq in H1, H2. by apply Hu.
Qed.

Lemma extend_no_parent v st : unused_no_parent v st → normal_xid (nextXid v) → nextXid v < 2 ^ 64 - 8 →
  unused_no_parent (set_nextXid (FullTransactionIdAdvance (nextXid v)) v) (ExtendSUBTRANS (u32 (nextXid v)) st).
Proof.
  intros Hu Hn Hlt. destruct (advance_spec _ Hn Hlt) as (Hn' & _ & Ha). intros Hi H3 x Hx Hp.
  cbn [nextXid set_nextXid] in *. unfold XidFromFullTransactionId in *.
  destruct Ha as [Ha|Ha]; [|done]. rewrite Ha in *.
  assert (u32 (nextXid v + 1) = u32 (nextXid v) + 1) as He.
  { rewrite <- u32_add. apply u32_small. pose proof (u32_range (nextXid v)).
    destruct (Z.eq_dec (u32 (nextXid v)) (2 ^ 32 - 1)) as [Hm|]; [|lia].
    exfalso. apply Hi. rewrite <- u32_add, Hm. done. }
  rewrite He in *. apply (extend_subtrans_new v); [done|lia|]. change SUBTRANS_XACTS_PER_PAGE with 2048 in *.
  Z.to_euclidean_division_equations. lia.
Qed.

Record assigned (base : Z) (sh sh' : shared) (f : Z) : Prop := mkAssigned {
  as_shared : shared_ok base sh';
  as_unused : unused_no_parent (TransamVariables sh') (pg_subtrans sh');
  as_id : f = nextXid (TransamVariables sh);
  as_next : f < nextXid (TransamVariables sh') ≤ f + 4;
  as_window : in_window base f;
  as_fresh : parent_of sh' f = InvalidTransactionId ∧ status sh' f = TRANSACTION_STATUS_IN_PROGRESS;
  as_status : ∀ g, in_window base g → g < f → status sh' g = status sh g;
  as_parents : ∀ g, in_window base g → g < f → parent_of sh' g = parent_of sh g
}.

Lemma assign_shared base sh sh' f : shared_ok base sh → unused_no_parent (TransamVariables sh) (pg_subtrans sh) →
  GetNewTransactionId false false sh = (sh', Ok f) → assigned base sh sh' f.
Proof.
  intros Hsh Hun Hrun. pose proof (new_xid_spec base sh Hsh) as Hspec. rewrite Hrun in Hspec.
  destruct Hspec as (Hsh' & Hf & Hlt & Hw & Hst & Hold). destruct (sh_limits _ _ Hsh) as [_ Hn Hwin H64 _ _].
  assert (TransamVariables sh' = set_nextXid (FullTransactionIdAdvance f) (TransamVariables sh) ∧
    pg_subtrans sh' = ExtendSUBTRANS (u32 f) (pg_subtrans sh)) as [Hv' Hs'].
  { unfold GetNewTransactionId in Hrun. cbv zeta in Hrun. set (sh1 := if _ && _ then _ else sh) in Hrun.
    assert (pg_subtrans sh1 = pg_subtrans sh) as Hs1 by (subst sh1; clear Hrun; by destruct (_ && _)).
    destruct (_ && TransactionIdFollowsOrEquals _ (xidStopLimit _)); [done|]. injection Hrun as <- <-. cbn. by rewrite Hs1. }
  destruct (advance_spec f) as (Hn' & Hr & _); [by rewrite Hf|lia|].
  split; [done| |done| | | | |].
  - rewrite Hv', Hs', Hf. apply extend_no_parent; [done|done|lia].
  - rewrite Hv'. cbn. lia.
  - split; [by rewrite Hf|lia].
  - split; [|exact Hst]. unfold parent_of, SubTransGetParent. rewrite Hs', Hf. destruct (negb _); [done|].
    rewrite (extend_subtrans_new _ _ _ Hun); [done| |done]. pose proof (u32_range (nextXid (TransamVariables sh))). lia.
  - intros g [Hg1 Hg2] Hgf. apply Hold; [done|lia].
  - intros g [Hg1 Hg2] Hgf. apply Hold; [done|lia].
Qed.

Lemma assign_error sh sh' e : GetNewTransactionId false false sh = (sh', Err e) →
  TransamVariables sh' = TransamVariables sh ∧ pg_xact sh' = pg_xact sh ∧ pg_subtrans sh' = pg_subtrans sh.
Proof.
  unfold GetNewTransactionId. cbv zeta. set (sh1 := if _ && _ then _ else sh).
  assert (TransamVariables sh1 = TransamVariables sh ∧ pg_xact sh1 = pg_xact sh ∧ pg_subtrans sh1 = pg_subtrans sh) as H1 by (subst sh1; by case_match).
  destruct (_ && TransactionIdFollowsOrEquals _ (xidStopLimit _)); [|done]. intros [= <- _]. done.
Qed.

(** ** Consequences *)

Section facts.
Context (base : Z) (s : sys) (Hi : inv base s).

Lemma next_window : in_window base (nextXid (TransamVariables (s_shm s))) ∧ base < 2 ^ 63.
Proof. destruct (sh_limits _ _ (co_shared _ _ (iv_core _ _ Hi))) as [_ Hn Hw H64 _ _]. split; [|done]. split; [done|lia]. Qed.

Lemma limit_window : in_window base (limit s) ∧ limit s ≤ nextXid (TransamVariables (s_shm s)).
Proof.
  unfold limit. destruct (s_pending s) as [p|] eqn:Hp; [|split; [apply next_window|done]].
  destruct (co_pending _ _ (iv_core _ _ Hi) p Hp) as [H1 H2 _ _]. split; [done|lia].
Qed.

(** The bound of new snapshots. *)
Lemma advance_window : in_window base (FullTransactionIdAdvance (latestCompletedXid (s_pa s))) ∧
  latestCompletedXid (s_pa s) < FullTransactionIdAdvance (latestCompletedXid (s_pa s)) ∧
  TransactionIdAdvance (u32 (latestCompletedXid (s_pa s))) = u32 (FullTransactionIdAdvance (latestCompletedXid (s_pa s))).
Proof.
  destruct (iv_latest _ _ Hi) as [[Hn Hw] Hl]. destruct limit_window as [[_ Hlw] _]. destruct next_window as [_ H64].
  destruct (advance_spec _ Hn ltac:(lia)) as (Hn' & Hr & _). split_and!; [split; [done|lia]|lia|]. by apply advance_low; [|lia].
Qed.

Lemma member_window t f : t ∈ s_trees s → f ∈ x_all t → in_window base f.
Proof. intros Ht Hf. by apply (co_window _ _ (iv_core _ _ Hi) t f). Qed.

Lemma top_window t : t ∈ s_trees s → in_window base (x_top t).
Proof. intros Ht. apply (member_window t); [done|by left]. Qed.

Lemma same_tree t u f g : t ∈ s_trees s → u ∈ s_trees s → f ∈ x_all t → g ∈ x_all u → u32 f = u32 g → t = u ∧ f = g.
Proof.
  intros Ht Hu Hf Hg He. assert (f = g) as -> by (apply (window_inj base); eauto using member_window). split; [|done].
  apply list_elem_of_lookup in Ht as [i Ht], Hu as [j Hu]. assert (i = j) as -> by (by eapply (co_disjoint _ _ (iv_core _ _ Hi))). congruence.
Qed.

Lemma top_unique t u : t ∈ s_trees s → u ∈ s_trees s → x_top t = x_top u → t = u.
Proof. intros Ht Hu He. apply (same_tree t u (x_top t) (x_top u)); [done|done|by left|by left|congruence]. Qed.

Lemma holder_shown t n : t ∈ s_trees s → n ∈ x_holders t → ∃ v, view (s_pa s) n = Some v ∧ proc_shows t v.
Proof. intros Ht. apply (co_trees _ _ (iv_core _ _ Hi) t Ht). Qed.

Lemma holder_unique t u n : t ∈ s_trees s → u ∈ s_trees s → n ∈ x_holders t → n ∈ x_holders u → t = u.
Proof.
  intros Ht Hu Hnt Hnu. destruct (holder_shown t n Ht Hnt) as (v & Hv & Hx & _), (holder_shown u n Hu Hnu) as (v' & Hv' & Hx' & _).
  apply (same_tree t u (x_top t) (x_top u)); [done|done|by left|by left|congruence].
Qed.

(** Equal transactions at different places of the history there are none. *)
Lemma place_unique i j t : s_trees s !! i = Some t → s_trees s !! j = Some t → i = j.
Proof. intros H1 H2. apply (co_disjoint _ _ (iv_core _ _ Hi) i j t t (x_top t)); [done|done|by left|by left]. Qed.

Lemma no_holder n v t : view (s_pa s) n = Some v → sh_xid v = InvalidTransactionId → t ∈ s_trees s → n ∉ x_holders t.
Proof.
  intros Hv Hx Ht Hn. destruct (holder_shown t n Ht Hn) as (v' & Hv' & Hx' & _). assert (v' = v) as -> by congruence.
  destruct (window_normal base _ (top_window t Ht)) as [Hne _]. congruence.
Qed.

Lemma not_member_no_holder n t : n ∉ pgprocnos (s_pa s) → t ∈ s_trees s → n ∉ x_holders t.
Proof. intros Hn Ht Hin. destruct (holder_shown t n Ht Hin) as (v & Hv & _). by apply Hn, (view_in _ _ v). Qed.

Lemma held_in t n : n ∈ x_holders t → t ∈ s_trees s → ended t = false.
Proof.
  intros Hn Ht. pose proof (tk_shape _ _ _ _ (co_trees _ _ (iv_core _ _ Hi) t Ht)) as Hs. unfold shape_ok in Hs. unfold ended.
  destruct (x_phase t); [done..|]. rewrite Hs in Hn. by apply elem_of_nil in Hn.
Qed.

Lemma held_by_holds n x : held_by (s_trees s) n = Some x → holds (s_trees s) n x.
Proof.
  unfold held_by. destruct (list_find _ _) as [[i t]|] eqn:Hf; [|done]. intros [= <-]. apply list_find_Some in Hf as (Hl & [He Hn] & _).
  exists t. split_and!; [by eapply list_elem_of_lookup_2|done..].
Qed.

Lemma holds_held_by n x : holds (s_trees s) n x → held_by (s_trees s) n = Some x.
Proof.
  intros (t & Ht & He & Hn & <-). unfold held_by. destruct (list_find _ _) as [[i u]|] eqn:Hf.
  - apply list_find_Some in Hf as (Hl & [He' Hn'] & _). cbn. do 2 f_equal. apply (holder_unique u t n); [by eapply list_elem_of_lookup_2|done..].
  - exfalso. rewrite list_find_None in Hf. rewrite list.Forall_forall in Hf. by apply (Hf t Ht).
Qed.

Lemma idle_view n v : view (s_pa s) n = Some v → sh_xid v = InvalidTransactionId → sh_subs v = [] ∧ sh_over v = false.
Proof.
  destruct (co_wf _ _ (iv_core _ _ Hi)) as (ps & Ht & _). intros (i & p & Hpos & ->)%(view_pos _ _ _ _ Ht) Hx.
  pose proof (proj1 (Forall_lookup _ _) (tr_ok _ _ Ht) i p (proj2 Hpos)) as (_ & _ & H0). unfold shows, cached in *. cbn in *. by rewrite H0.
Qed.
End facts.

(** ** Steps without completions *)

(** A process keeps its [xmin], and the flags that exempt it. *)
Definition kept_shown (v v' : shown) : Prop := sh_xmin v' = sh_xmin v ∧ (sh_flagged v = true → sh_flagged v' = true).

Lemma kept_shown_refl v : kept_shown v v.
Proof. by split. Qed.

(** The processes have the same [xmin]. *)
Definition same_xmins (pa pa' : procs) : Prop :=
  (∀ n v, view pa n = Some v → ∃ v', view pa' n = Some v' ∧ kept_shown v v') ∧
  ∀ n v', view pa' n = Some v' → ∃ v, view pa n = Some v ∧ sh_xmin v' = sh_xmin v.

Lemma same_xmins_refl pa : same_xmins pa pa.
Proof. split; intros n v Hv; by exists v. Qed.

Lemma changed_xmins n v v' pa pa' : view pa n = Some v → changed n v' pa pa' → sh_xmin v' = sh_xmin v → sh_flagged v' = sh_flagged v → same_xmins pa pa'.
Proof.
  intros Hv [_ _ Hch] Hx Hfl. split; intros m w Hw.
  - rewrite Hch. destruct (decide (m = n)) as [->|]; [|by exists w]. exists v'. assert (w = v) as -> by congruence. split; [done|split; [done|congruence]].
  - rewrite Hch in Hw. destruct (decide (m = n)) as [->|]; [|by exists w]. injection Hw as <-. by exists v.
Qed.

Lemma taken_bound base s k X m : inv base s → taken_ok base (s_pa s) (s_trees s) k X m → X ≤ limit s.
Proof. intros Hi Hk. destruct (ak_xmax _ _ _ _ _ _ Hk) as (_ & _ & HX). pose proof (proj2 (iv_latest _ _ Hi)). lia. Qed.

(** A snapshot that is in use after a step: its process is still exempt from the
    horizons if it was; and the snapshot was in use before, or has been taken by
    the step. *)
Definition keeps_flags (s s' : sys) (n : nat) : Prop :=
  ∀ v, view (s_pa s) n = Some v → ∃ v', view (s_pa s') n = Some v' ∧ (sh_flagged v = true → sh_flagged v' = true).

Definition kept_snap (s : sys) (k' : taken) : Prop :=
  ∃ k, k ∈ s_snaps s ∧ k_held k = true ∧ k_proc k' = k_proc k ∧ k_start k' = k_start k.

Definition new_snap (s : sys) (k' : taken) : Prop :=
  ∀ t, t ∈ s_trees s → ended t = true → t ∈ k_start k'.

Record carries (s s' : sys) : Prop := mkCarries {
  ca_latest : FullTransactionIdAdvance (latestCompletedXid (s_pa s)) ≤ FullTransactionIdAdvance (latestCompletedXid (s_pa s'));
  ca_trees : evolves (limit s) (s_trees s) (s_trees s');
  ca_snaps : ∀ k', k' ∈ s_snaps s' → k_held k' = true → keeps_flags s s' (k_proc k') ∧ (kept_snap s k' ∨ new_snap s k')
}.

(** What a step has to establish: the invariant, that it counts at most one
    completion, and what becomes of the snapshots in use. *)
Record preserves (base : Z) (s s' : sys) : Prop := mkPreserves {
  pr_inv : inv base s';
  pr_count : xactCompletionCount (s_pa s') ≤ xactCompletionCount (s_pa s) + 1;
  pr_carries : carries s s'
}.

(** The snapshots are the same. *)
Lemma carries_snaps s s' : FullTransactionIdAdvance (latestCompletedXid (s_pa s)) ≤ FullTransactionIdAdvance (latestCompletedXid (s_pa s')) →
  evolves (limit s) (s_trees s) (s_trees s') → s_snaps s' = s_snaps s →
  (∀ n v, view (s_pa s) n = Some v → ∃ v', view (s_pa s') n = Some v' ∧ kept_shown v v') → carries s s'.
Proof.
  intros H1 H2 H3 H4. split; [done|done|]. rewrite H3. intros k Hk Hh. split; [|left; by exists k]. intros v Hv.
  destruct (H4 _ v Hv) as (v' & Hv' & _ & Hf). by exists v'.
Qed.

Lemma calm_step base s s' : inv base s → core base s' → s_readers s' = s_readers s → s_snaps s' = s_snaps s → s_xmins s' = s_xmins s →
  pgprocnos (s_pa s') = pgprocnos (s_pa s) → latestCompletedXid (s_pa s') = latestCompletedXid (s_pa s) →
  xactCompletionCount (s_pa s') = xactCompletionCount (s_pa s) → same_xmins (s_pa s) (s_pa s') →
  calm (limit s) (s_trees s) (s_trees s') → limit s ≤ limit s' → preserves base s s'.
Proof.
  intros Hi Hcore Hr Hk Hg Hns Hl Hc [Hx1 Hx2] Hcalm Hlim. split; [|lia|apply carries_snaps; [by rewrite Hl|by apply calm_evolves|done|done]]. split; [done|..]; rewrite ?Hr, ?Hk, ?Hg, ?Hl, ?Hc.
  - destruct (iv_latest _ _ Hi). split; [done|lia].
  - intros n v' Hv' Hne. destruct (Hx2 n v' Hv') as (v & Hv & He). rewrite He in Hne |- *.
    destruct (iv_xmins _ _ Hi n v Hv Hne) as (H1 & M & H2 & H3 & H4 & H5). split; [done|]. exists M. split_and!; [done..|].
    intros t' Ht' Hend Hor. destruct (ev_new _ _ _ _ Hcalm t' Ht') as [(t & Ht & Hf & He' & Hh)|[Hfr _]].
    + rewrite (fo_top _ _ _ Hf). rewrite (fo_flagged _ _ _ Hf), Hh in Hor. apply H5; [done|congruence|done].
    + destruct (iv_latest _ _ Hi). lia.
  - apply (iv_count _ _ Hi).
  - intros r Hin. destruct (iv_readers _ _ Hi r Hin) as (X & m & Hok). exists X, m. eapply reader_calm; [done|done| |done..].
    destruct (rk_xmax _ _ _ _ _ _ Hok) as (_ & _ & ->). apply (iv_latest _ _ Hi).
  - intros k Hin. destruct (iv_snaps _ _ Hi k Hin) as (X & m & Hok). exists X, m. eapply taken_calm; [done|done| |done|done|].
    + by eapply taken_bound.
    + intros Hh. destruct (ak_held _ _ _ _ _ _ Hok Hh) as (v & M & Hv & HM & ?). destruct (Hx1 _ _ Hv) as (v' & Hv' & He & _). exists v', M.
      by rewrite He.
  - intros k Hin. eapply recent_evolves; [by apply calm_evolves|by apply (iv_recent _ _ Hi)|lia|apply (iv_latest _ _ Hi)].
Qed.

Lemma inv_assign base s n par f sh' : inv base s → s_pending s = None → GetNewTransactionId false false (s_shm s) = (sh', Ok f) →
  match par with
  | None => ∃ v, view (s_pa s) n = Some v ∧ sh_xid v = InvalidTransactionId
  | Some (k, x) => ∃ t, s_trees s !! k = Some t ∧ x_phase t = Running ∧ x_prepared t = false ∧ x_holders t = [n] ∧ is_member x t
  end → preserves base s (set_pending (Some (mkPending n par f)) (set_shm sh' s)).
Proof.
  intros Hi Hp Hrun Hpar. destruct (assign_shared base _ _ _ (co_shared _ _ (iv_core _ _ Hi)) (co_unused _ _ (iv_core _ _ Hi)) Hrun) as [A1 A2 A3 A4 A5 A6 A7 A8].
  assert (limit s = f) as Hlim by (unfold limit; by rewrite Hp).
  assert (∀ t g, t ∈ s_trees s → g ∈ x_all t → in_window base g ∧ g < f) as Hw by (rewrite <- Hlim; apply (co_window _ _ (iv_core _ _ Hi))).
  eapply calm_step; [exact Hi| |done..|apply same_xmins_refl|apply evolved_refl, _|by rewrite Hlim].
  destruct (iv_core _ _ Hi) as [C1 C2 C3 C4 C5 C6 C7 C8]. split; cbn; [done|done|done| | |done| |done].
  - intros p [= <-]. split; cbn; [done|lia|done|done].
  - exact Hw.
  - intros t Ht. eapply tree_ok_frame; [by apply C7| | | |done].
    + intros g Hg. destruct (Hw t g Ht Hg). by apply A7.
    + intros g Hg. destruct (Hw t g Ht Hg). by apply A8.
    + intros m v _ Hv. by exists v.
Qed.

Lemma inv_assign_fails base s e sh' : inv base s → s_pending s = None → GetNewTransactionId false false (s_shm s) = (sh', Err e) → preserves base s (set_shm sh' s).
Proof.
  intros Hi Hp Hrun. destruct (assign_error _ _ _ Hrun) as (H1 & H2 & H3).
  assert (limit (set_shm sh' s) = limit s) as Hlim by (unfold limit; cbn; by rewrite H1).
  eapply calm_step; [exact Hi| |done..|apply same_xmins_refl|apply evolved_refl, _|by rewrite Hlim].
  destruct (iv_core _ _ Hi) as [C1 C2 C3 C4 C5 C6 C7 C8]. split; cbn; rewrite ?Hlim, ?H1, ?H3; [|done|done| |done|done| |done].
  - destruct C1 as [D1 D2]. split; by rewrite H1, ?H2.
  - intros p Hp'. congruence.
  - intros t Ht. eapply tree_ok_frame; [by apply C7| | |by intros m v _ Hv; exists v|done]; intros g _; unfold status, parent_of; by rewrite ?H2, ?H3.
Qed.

(** One transaction of the history replaced. *)
Lemma core_replace base s s' k t t' : core base s → s_trees s !! k = Some t → s_trees s' = <[k := t']> (s_trees s) →
  shared_ok base (s_shm s') → unused_no_parent (TransamVariables (s_shm s')) (pg_subtrans (s_shm s')) → pa_wf (s_pa s') →
  (∀ p, s_pending s' = Some p → pending_ok base s' p) → limit s ≤ limit s' →
  (∀ g, g ∈ x_all t' → g ∈ x_all t ∨ g = limit s ∧ g < limit s' ∧ in_window base g) →
  tree_ok (s_shm s') (view (s_pa s')) (latestCompletedXid (s_pa s')) t' →
  (∀ j u, j ≠ k → s_trees s !! j = Some u → tree_ok (s_shm s') (view (s_pa s')) (latestCompletedXid (s_pa s')) u) →
  (∀ n v, view (s_pa s') n = Some v → sh_xid v ≠ InvalidTransactionId → n ∈ x_holders t' ∧ ended t' = false ∨
    (n ∉ x_holders t) ∧ ∃ w, view (s_pa s) n = Some w ∧ sh_xid w ≠ InvalidTransactionId) →
  core base s'.
Proof.
  intros [C1 C2 C3 C4 C5 C6 C7 C8] Hk Hts D1 D2 D3 D4 Hlim Hall Ht' Hothers Hh. pose proof (list_elem_of_lookup_2 _ _ _ Hk) as Htin.
  split; rewrite ?Hts; [done|done|done|done| | | |].
  - intros u g Hu Hg. apply (elem_of_insert _ _ _ t) in Hu as [->|(j & _ & Hj)]; [| |done].
    + destruct (Hall g Hg) as [Hg'|(? & ? & ?)]; [|done]. destruct (C5 t g Htin Hg'). split; [done|lia].
    + destruct (C5 u g) as [? ?]; [by eapply list_elem_of_lookup_2|done|]. split; [done|lia].
  - intros i j u w g Hu Hw Hgu Hgw.
    assert (∀ a y, <[k := t']> (s_trees s) !! a = Some y → g ∈ x_all y → (∃ y', s_trees s !! a = Some y' ∧ g ∈ x_all y') ∨ a = k ∧ g = limit s) as Hold.
    { intros a y Ha Hy. destruct (decide (a = k)) as [->|Hne].
      - rewrite list_lookup_insert_eq in Ha by (by eapply lookup_lt_Some). injection Ha as <-. destruct (Hall g Hy) as [?|(? & _)]; [left; by exists t|by right].
      - rewrite list_lookup_insert_ne in Ha by done. left. by exists y. }
    assert (∀ a y', s_trees s !! a = Some y' → g ∈ x_all y' → g ≠ limit s) as Hlt.
    { intros a y' Ha Hy. destruct (C5 y' g) as [_ ?]; [by eapply list_elem_of_lookup_2|done|lia]. }
    destruct (Hold i u Hu Hgu) as [(u' & Hu' & Hgu')|[-> Hgl]], (Hold j w Hw Hgw) as [(w' & Hw' & Hgw')|[-> Hgl']]; [by eapply C6| | |done].
    + by destruct (Hlt i u').
    + by destruct (Hlt j w').
  - intros u Hu. apply (elem_of_insert _ _ _ t) in Hu as [->|(j & Hne & Hj)]; [done| |done]. by apply (Hothers j).
  - intros n v Hv Hx. destruct (Hh n v Hv Hx) as [[Hn He]|(Hn & w & Hw & Hwx)].
    + exists t'. split_and!; [by eapply insert_elem_of|done|done].
    + destruct (C8 n w Hw Hwx) as (u & Hu & He & Hnu). exists u. split_and!; [|done|done]. apply list_elem_of_lookup in Hu as [j Hj].
      eapply insert_other; [exact Hj|]. intros ->. congruence.
Qed.

(** What the others notice when one process shows something else. *)
Lemma others_changed base s sh' pa' n v k t : inv base s → s_trees s !! k = Some t → n ∈ x_holders t → changed n v (s_pa s) pa' →
  latestCompletedXid (s_pa s) ≤ latestCompletedXid pa' →
  (∀ j u g, j ≠ k → s_trees s !! j = Some u → g ∈ x_all u → status sh' g = status (s_shm s) g ∧ parent_of sh' g = parent_of (s_shm s) g) →
  ∀ j u, j ≠ k → s_trees s !! j = Some u → tree_ok sh' (view pa') (latestCompletedXid pa') u.
Proof.
  intros Hi Hk Hn [_ _ Hch] Hl Hs j u Hne Hj. eapply tree_ok_frame; [apply (co_trees _ _ (iv_core _ _ Hi)); by eapply list_elem_of_lookup_2| | | |done].
  - intros g Hg. by apply (Hs j u g).
  - intros g Hg. by apply (Hs j u g).
  - intros m w Hm Hw. exists w. split; [|done]. rewrite Hch. rewrite decide_False; [done|]. intros ->. apply Hne.
    assert (u = t) as -> by (eapply (holder_unique base s Hi); eauto using list_elem_of_lookup_2). by eapply (place_unique base s Hi).
Qed.

Lemma inv_store_top base s n f p pa' : inv base s → s_pending s = Some (mkPending n None f) → allProcs (s_pa s) !! n = Some p →
  store_new_xid n false (u32 f) (s_pa s) = (pa', Ok tt) →
  preserves base s (set_pending None (set_trees (s_trees s ++ [mkX f [] (proc_flagged p) [n] false Running]) (set_pa pa' s))).
Proof.
  intros Hi Hp Hpn Hrun. destruct (co_pending _ _ (iv_core _ _ Hi) _ Hp) as [P1 P2 P3 (v & Hv & Hx)]. cbn in P1, P2, P3, Hv.
  destruct (co_wf _ _ (iv_core _ _ Hi)) as (ps & Ht & Hall). destruct (view_pos _ _ _ _ Ht Hv) as (i & q & Hpos & ->).
  destruct (at_pos_proc _ _ Ht _ _ _ Hpos) as (Hq & _). assert (q = p) as -> by congruence.
  rewrite (new_top_run _ _ Ht n i p Hpos) in Hrun. injection Hrun as <-.
  pose proof (proj1 (Forall_lookup _ _) (tr_ok _ _ Ht) i p (proj2 Hpos)) as (Hok1 & Hok2 & Hok3).
  assert (changed n (shows (set_proc_xid (u32 f) p)) (s_pa s) (store n i (set_proc_xid (u32 f) p) (s_pa s))) as Hch.
  { eapply store_changed; [done|done|done|done|]. split_and!; [done|done|]. intros He. by apply window_normal in P1 as [? _]. }
  set (t' := mkX f [] (proc_flagged p) [n] false Running). set (pa' := store _ _ _ _) in *.
  assert (limit s = f) as Hlim by (unfold limit; by rewrite Hp).
  assert (∀ t g, t ∈ s_trees s → g ∈ x_all t → in_window base g ∧ g < f) as Hw by (rewrite <- Hlim; apply (co_window _ _ (iv_core _ _ Hi))).
  destruct (idle_view base s Hi n _ Hv Hx) as [Hsubs Hover].
  eapply calm_step; [exact Hi| |done..|by eapply changed_xmins|apply evolved_snoc; [apply _|split; [by rewrite Hlim|done]]|unfold limit at 2; cbn; lia].
  destruct (iv_core _ _ Hi) as [C1 C2 C3 C4 C5 C6 C7 C8]. split; cbn [set_pending set_trees set_pa s_shm s_pa s_pending s_trees]; [done|done|apply Hch|done| | | |].
  - intros t g [Ht0|Ht0]%elem_of_app Hg; unfold limit; cbn.
    + destruct (Hw t g Ht0 Hg). split; [done|lia].
    + apply list_elem_of_singleton in Ht0 as ->. apply list_elem_of_singleton in Hg as ->. done.
  - intros a b t u g Ha Hb Hga Hgb. rewrite lookup_app_Some in Ha, Hb. destruct Ha as [Ha|[Hla Ha]], Hb as [Hb|[Hlb Hb]].
    + by eapply C6.
    + apply list_lookup_singleton_Some in Hb as [? <-]. apply list_elem_of_singleton in Hgb as ->. apply list_elem_of_lookup_2 in Ha. destruct (Hw t f Ha Hga). lia.
    + apply list_lookup_singleton_Some in Ha as [? <-]. apply list_elem_of_singleton in Hga as ->. apply list_elem_of_lookup_2 in Hb. destruct (Hw u f Hb Hgb). lia.
    + apply list_lookup_singleton_Some in Ha as [? _], Hb as [? _]. lia.
  - intros t [Ht0|Ht0]%elem_of_app.
    + eapply tree_ok_frame; [by apply C7|done|done| |done]. intros m w Hm Hwm. exists w. split; [|done]. rewrite (ch_view _ _ _ _ Hch), decide_False; [done|].
      intros ->. by apply (no_holder base s Hi n _ t Hv Hx Ht0).
    + apply list_elem_of_singleton in Ht0 as ->. split; [by repeat constructor|done|apply P3|by intros u Hu%elem_of_nil|by intros u Hu%elem_of_nil|left; by exists n| |intros g ->%list_elem_of_singleton; apply P3].
      intros m ->%list_elem_of_singleton. eexists. split; [by rewrite (ch_view _ _ _ _ Hch), decide_True|]. cbn in Hsubs, Hover. split_and!; cbn; [done|done| |].
      * change (cached (set_proc_xid (u32 f) p)) with (cached p). rewrite Hsubs. by intros y Hy%elem_of_nil.
      * by intros _ g Hg%elem_of_nil.
  - intros m w Hm Hwx. rewrite (ch_view _ _ _ _ Hch) in Hm. destruct (decide (m = n)) as [->|Hne].
    + exists t'. split_and!; [apply elem_of_app; right; by left|done|by left].
    + destruct (C8 m w Hm Hwx) as (u & Hu & He & Hin). exists u. split_and!; [apply elem_of_app; by left|done|done].
Qed.

Lemma sorted_snoc (l : list Z) f : StronglySorted Z.lt l → (∀ g, g ∈ l → g < f) → StronglySorted Z.lt (l ++ [f]).
Proof.
  induction 1 as [|x l Hs IH Hx]; intros Hf; [by repeat constructor|]. cbn. constructor.
  - apply IH. intros g Hg. apply Hf. by right.
  - apply Forall_app. split; [done|]. apply Forall_singleton. apply Hf. by left.
Qed.

Lemma live_add_sub f parent t : live_subs (add_sub f parent t) = live_subs t ++ [f].
Proof. unfold live_subs, add_sub. cbn. by rewrite filter_app, fmap_app. Qed.

Lemma all_add_sub f parent t : x_all (add_sub f parent t) = x_all t ++ [f].
Proof. unfold x_all, add_sub. cbn. by rewrite fmap_app. Qed.

Lemma add_sub_ok sh vw vw' l t n v v' f parent : tree_ok sh vw l t → x_phase t = Running → x_holders t = [n] → vw n = Some v → vw' n = Some v' →
  status sh f = TRANSACTION_STATUS_IN_PROGRESS → (∀ g, g ∈ x_all t → g < f) → is_member parent t → sh_xid v' = sh_xid v → sh_flagged v' = sh_flagged v →
  (∀ y, y ∈ sh_subs v' → y = u32 f ∨ y ∈ sh_subs v) → (sh_over v' = false → sh_over v = false ∧ sh_subs v' = sh_subs v ++ [u32 f]) →
  tree_ok sh vw' l (add_sub f parent t).
Proof.
  intros [H1 H2 H3 H4 H5 H6 H7 H8] Hph Hh Hv Hv' Hst Hlt Hpar E1 E2 E3 E4.
  assert (∀ u, u ∈ x_subs (add_sub f parent t) → u ∈ x_subs t ∨ u = mkSub f parent false true) as Hin.
  { cbn. intros u [Hu|Hu]%elem_of_app; [by left|right; by apply list_elem_of_singleton in Hu]. }
  split; [| |done| | | | |].
  - rewrite all_add_sub. by apply sorted_snoc.
  - cbn. intros i u Hu. apply lookup_app_Some in Hu as [Hu|[Hl Hu]].
    + destruct (H2 i u Hu) as [?|(j & u' & Hj & Hu' & Hk & He)]; [by left|right]. exists j, u'. split_and!; [done|by apply lookup_app_l_Some|done|done].
    + apply list_lookup_singleton_Some in Hu as [Hi <-]. cbn. destruct Hpar as [->|(u' & Hu' & <- & Hk)]; [by left|right].
      apply list_elem_of_lookup in Hu' as [j Hj]. exists j, u'. pose proof (lookup_lt_Some _ _ _ Hj). split_and!; [lia|by apply lookup_app_l_Some|done|done].
  - intros u Hu Hk. apply Hin in Hu as [Hu| ->]; [by apply H4|done].
  - intros u Hu Hk. apply Hin in Hu as [Hu| ->]; [by apply H5|done].
  - unfold shape_ok in *. cbn. rewrite Hph in *. done.
  - cbn. rewrite Hh. intros m ->%list_elem_of_singleton. exists v'. split; [done|]. destruct (H7 n) as (w & Hw & W1 & W2 & W3 & W4); [rewrite Hh; by left|].
    assert (w = v) as -> by congruence. split_and!; [by rewrite E1|by rewrite E2| |].
    + intros y Hy. cbn. rewrite !fmap_app, elem_of_app. destruct (E3 y Hy) as [->|Hy']; [right; by left|left; by apply W3].
    + intros Ho g. rewrite live_add_sub. destruct (E4 Ho) as [Ho' ->]. rewrite !elem_of_app. intros [Hg|Hg]; [left; by apply W4|right].
      apply list_elem_of_singleton in Hg as ->. by left.
  - unfold phase_ok in *. cbn [x_phase add_sub]. rewrite Hph in *. intros g. unfold x_live. rewrite live_add_sub. intros [->|[Hg|Hg]%elem_of_app]%elem_of_cons.
    + apply H8. by left.
    + apply H8. by right.
    + by apply list_elem_of_singleton in Hg as ->.
Qed.

Lemma follows_add_sub lim f parent t : lim ≤ f → ended t = false → calmly lim t (add_sub f parent t).
Proof.
  intros Hl He. split; [|by split]. split; [done|done| | |congruence|by left].
  - rewrite all_add_sub. by apply list_subseteq_app_l.
  - intros g. rewrite live_add_sub, elem_of_app, list_elem_of_singleton. intros [?| ->]; [by left|by right].
Qed.

Lemma inv_store_sub base s n k parent f t pa' : inv base s → s_pending s = Some (mkPending n (Some (k, parent)) f) → s_trees s !! k = Some t →
  store_new_xid n true (u32 f) (s_pa s) = (pa', Ok tt) → preserves base s (set_pending None (set_tree k (add_sub f parent t) (set_pa pa' s))).
Proof.
  intros Hi Hp Hk Hrun. destruct (co_pending _ _ (iv_core _ _ Hi) _ Hp) as [P1 P2 P3 (t0 & Hk0 & Hph & Hpr & Hh & Hmem)]. cbn in P1, P2, P3, Hk0, Hh.
  assert (t0 = t) as -> by congruence. pose proof (list_elem_of_lookup_2 _ _ _ Hk) as Htin.
  destruct (co_wf _ _ (iv_core _ _ Hi)) as (ps & Ht & Hall). assert (n ∈ x_holders t) as Hn by (rewrite Hh; by left).
  destruct (holder_shown base s Hi t n Htin Hn) as (v & Hv & Hsh). destruct (view_pos _ _ _ _ Ht Hv) as (i & p & Hpos & ->).
  pose proof (proj1 (Forall_lookup _ _) (tr_ok _ _ Ht) i p (proj2 Hpos)) as Hok.
  rewrite (new_sub_run _ _ Ht n i p Hpos (u32 f) Hok) in Hrun. injection Hrun as <-.
  assert (proc_xid p ≠ InvalidTransactionId) as Hpx.
  { destruct Hsh as [Hx _]. cbn in Hx. rewrite Hx. by apply (window_normal base), (top_window base s Hi). }
  assert (proc_xid (with_subxid (u32 f) p) = proc_xid p ∧ proc_flags (with_subxid (u32 f) p) = proc_flags p ∧ pgxactoff (with_subxid (u32 f) p) = pgxactoff p ∧
    proc_xmin (with_subxid (u32 f) p) = proc_xmin p) as (W1 & W2 & W3 & W4) by (unfold with_subxid; by destruct (_ <? _)%nat).
  assert (changed n (shows (with_subxid (u32 f) p)) (s_pa s) (store n i (with_subxid (u32 f) p) (s_pa s))) as Hch by (eapply store_changed; eauto using with_subxid_ok).
  set (pa' := store _ _ _ _) in *. assert (limit s = f) as Hlim by (unfold limit; by rewrite Hp).
  assert (limit (set_pending None (set_tree k (add_sub f parent t) (set_pa pa' s))) = nextXid (TransamVariables (s_shm s))) as Hlim' by done.
  eapply calm_step; [exact Hi| |done..|eapply changed_xmins; [done|done|exact W4|cbn; unfold proc_flagged; by rewrite W2]|eapply evolved_insert; [apply _|done|apply follows_add_sub; [lia|by eapply held_in]]|lia].
  eapply core_replace; [apply Hi|exact Hk|done|apply (iv_core _ _ Hi)|apply (iv_core _ _ Hi)|apply Hch|done|lia| | | |].
  - intros g. rewrite all_add_sub, elem_of_app, list_elem_of_singleton. intros [?| ->]; [by left|right]. split_and!; [done|lia|done].
  - eapply add_sub_ok; [by apply (co_trees _ _ (iv_core _ _ Hi))|done|done|done|cbn; by rewrite (ch_view _ _ _ _ Hch), decide_True|apply P3| |done|exact W1| | |].
    + intros g Hg. rewrite <- Hlim. by apply (co_window _ _ (iv_core _ _ Hi) t g).
    + cbn. unfold proc_flagged. by rewrite W2.
    + intros y. by apply with_subxid_in.
    + intros Ho. pose proof (with_subxid_cached (u32 f) p Hok) as Hc. cbn in Ho |- *. by rewrite Ho in Hc.
  - eapply others_changed; [done|done|done|done|done|]. done.
  - intros m w Hm Hwx. cbn in Hm. rewrite (ch_view _ _ _ _ Hch) in Hm. cbn [x_holders add_sub]. rewrite Hh. destruct (decide (m = n)) as [->|Hne].
    + left. split; [by left|]. exact (held_in base s Hi t n Hn Htin).
    + right. split; [by intros ->%list_elem_of_singleton|]. by exists w.
Qed.

(** A backend works on its transaction in the commit log or in [pg_subtrans]. *)
Lemma inv_local base s k t t' sh' : inv base s → s_trees s !! k = Some t → shared_ok base sh' →
  unused_no_parent (TransamVariables sh') (pg_subtrans sh') → TransamVariables sh' = TransamVariables (s_shm s) →
  x_all t' = x_all t → calmly (limit s) t t' → tree_ok sh' (view (s_pa s)) (latestCompletedXid (s_pa s)) t' →
  (∀ j u g, j ≠ k → s_trees s !! j = Some u → g ∈ x_all u → status sh' g = status (s_shm s) g ∧ parent_of sh' g = parent_of (s_shm s) g) →
  (∀ p, s_pending s = Some p → (parent_of sh' (pd_id p) = parent_of (s_shm s) (pd_id p) ∧ status sh' (pd_id p) = status (s_shm s) (pd_id p)) ∧ ∀ k0 x, pd_parent p = Some (k0, x) → k0 ≠ k) →
  preserves base s (set_tree k t' (set_shm sh' s)).
Proof.
  intros Hi Hk Hsh Hun Htv Hall Hcalm Ht' Hoth Hpend. pose proof (list_elem_of_lookup_2 _ _ _ Hk) as Htin.
  assert (limit (set_tree k t' (set_shm sh' s)) = limit s) as Hlim by (unfold limit; cbn; by rewrite Htv).
  eapply calm_step; [exact Hi| |done..|apply same_xmins_refl|by eapply evolved_insert; [apply _|..]|by rewrite Hlim].
  eapply core_replace; [apply Hi|exact Hk|done|done|done|apply (iv_core _ _ Hi)| |lia| |done| |].
  - intros p Hp. destruct (co_pending _ _ (iv_core _ _ Hi) p Hp) as [P1 P2 P3 P4]. destruct (Hpend p Hp) as [[Q1 Q1'] Q2]. split; cbn; [done|by rewrite Htv|by rewrite Q1, Q1'|].
    destruct (pd_parent p) as [[k0 x]|] eqn:Hpp; [|done]. destruct P4 as (t0 & Ht0 & ?). exists t0. split; [|done].
    rewrite list_lookup_insert_ne; [done|]. intros <-. by apply (Q2 k x).
  - intros g. rewrite Hall. by left.
  - intros j u Hne Hj. eapply tree_ok_frame; [apply (co_trees _ _ (iv_core _ _ Hi)); by eapply list_elem_of_lookup_2| | | |done].
    + intros g Hg. by apply (Hoth j u g).
    + intros g Hg. by apply (Hoth j u g).
    + intros m w _ Hw. by exists w.
  - intros n v Hv Hx. destruct (Hcalm) as (_ & He & Hh). rewrite Hh, He. destruct (decide (n ∈ x_holders t)) as [Hn|Hn].
    + left. split; [done|]. exact (held_in base s Hi t n Hn Htin).
    + right. split; [done|]. by exists v.
Qed.

(** Not the transaction that waits for an id. *)
Lemma not_pending base s k t : inv base s → s_trees s !! k = Some t → (∀ n, n ∈ x_holders t → idle s n) ∨ x_phase t ≠ Running →
  ∀ p, s_pending s = Some p → ∀ k0 x, pd_parent p = Some (k0, x) → k0 ≠ k.
Proof.
  intros Hi Hk Hor p Hp k0 x Hpp ->. destruct (co_pending _ _ (iv_core _ _ Hi) p Hp) as [_ _ _ P4]. rewrite Hpp in P4.
  destruct P4 as (t0 & Ht0 & Hph & _ & Hh & _). assert (t0 = t) as -> by congruence. destruct Hor as [Hid|Hne]; [|done].
  destruct (Hid (pd_proc p)) as [Hid' _]; [rewrite Hh; by left|]. by apply (Hid' p Hp).
Qed.

Lemma set_phase_calm lim ph t : ended t = false → ended (set_phase ph t) = false → calmly lim t (set_phase ph t).
Proof. intros He He'. split; [|split; [congruence|done]]. split; [done|done|done|by left|congruence|by left]. Qed.

Lemma set_phase_ok sh vw l t ph : tree_ok sh vw l t → shape_ok (set_phase ph t) → phase_ok sh l (set_phase ph t) → tree_ok sh vw l (set_phase ph t).
Proof. intros [H1 H2 H3 H4 H5 H6 H7 H8] Hs Hp. by split. Qed.

(** ** Writing the logs *)

Lemma inv_phase base s k t ph : inv base s → s_trees s !! k = Some t → ended t = false → ended (set_phase ph t) = false →
  (∀ n, n ∈ x_holders t → idle s n) ∨ x_phase t ≠ Running → shape_ok (set_phase ph t) →
  phase_ok (s_shm s) (latestCompletedXid (s_pa s)) (set_phase ph t) → preserves base s (set_tree k (set_phase ph t) s).
Proof.
  intros Hi Hk He He' Hor Hs Hp. pose proof (list_elem_of_lookup_2 _ _ _ Hk) as Htin.
  change (set_tree k (set_phase ph t) s) with (set_tree k (set_phase ph t) (set_shm (s_shm s) s)).
  eapply inv_local; [done|done|apply (iv_core _ _ Hi)|apply (iv_core _ _ Hi)|done|done|by apply set_phase_calm| |done|].
  - apply set_phase_ok; [by apply (co_trees _ _ (iv_core _ _ Hi))|done|done].
  - intros p Hpp. split; [done|]. by eapply not_pending.
Qed.

Lemma inv_abort_subs base s n k t x xs : inv base s → working s k n t → x :: xs ⊆ live_subs t →
  preserves base s (set_tree k (set_phase (AbortingSubs (x :: xs) (TransactionIdAbortTree (u32 x) (u32 <$> xs))) t) s).
Proof.
  intros Hi (Hk & Hph & Hpr & Hh & Hid) Hsub. pose proof (list_elem_of_lookup_2 _ _ _ Hk) as Htin.
  assert (in_window base x) as Hx.
  { apply (member_window base s Hi t); [done|]. right. apply live_subs_all, Hsub. by left. }
  apply inv_phase; [done|done|unfold ended; by rewrite Hph|done| | |].
  - left. rewrite Hh. by intros m ->%list_elem_of_singleton.
  - split; [by exists n|done].
  - pose proof (tk_phase _ _ _ _ (co_trees _ _ (iv_core _ _ Hi) t Htin)) as Hrun. unfold phase_ok in Hrun. rewrite Hph in Hrun.
    split_and!; [done| |intros f Hf _; by apply Hrun]. rewrite abort_tree_writes by (by apply (window_normal base)). split.
    + apply list.Forall_forall. intros w (y & -> & Hy)%list_elem_of_fmap. by split.
    + intros f Hf. rewrite run_mark by done. rewrite bool_decide_eq_true_2; [done|]. change (u32 x :: (u32 <$> xs)) with (u32 <$> (x :: xs)). by apply list_elem_of_fmap_2.
Qed.

Lemma inv_log base s k t c : inv base s → s_trees s !! k = Some t → x_phase t = Running → (∀ n, n ∈ x_holders t → idle s n) → length (x_holders t) = 1%nat →
  preserves base s (set_tree k (set_phase (Logging c ((if c then TransactionIdCommitTree else TransactionIdAbortTree) (u32 (x_top t)) (u32 <$> live_subs t))) t) s).
Proof.
  intros Hi Hk Hph Hid Hlen. pose proof (list_elem_of_lookup_2 _ _ _ Hk) as Htin.
  destruct (window_normal base _ (top_window base s Hi t Htin)) as (_ & _ & Hv).
  apply inv_phase; [done|done|unfold ended; by rewrite Hph|done|by left| |].
  - destruct (x_holders t) as [|n [|]] eqn:Hh; [done| |done]. exists n. cbn. done.
  - unfold phase_ok. cbn [x_phase set_phase]. change (x_live (set_phase _ t)) with (x_live t). destruct c; cbn [final].
    + split.
      * destruct (commit_tree_writes (u32 (x_top t)) (u32 <$> live_subs t) Hv) as (early & Hperm & ->). apply Forall_app. split; [|constructor].
        -- apply list.Forall_forall. intros w (y & -> & Hy)%list_elem_of_fmap. split; [|done]. cbn. right. by rewrite <- Hperm.
        -- split; [by left|done].
        -- apply list.Forall_forall. intros w (y & -> & Hy)%list_elem_of_fmap. split; [|done]. cbn. by right.
      * intros f Hf. rewrite commit_tree_status by done. rewrite bool_decide_eq_true_2; [done|]. by apply (list_elem_of_fmap_2 u32) in Hf.
    + rewrite abort_tree_writes by done. split.
      * apply list.Forall_forall. intros w (y & -> & Hy)%list_elem_of_fmap. by split.
      * intros f Hf. rewrite run_mark by done. rewrite bool_decide_eq_true_2; [done|]. by apply (list_elem_of_fmap_2 u32) in Hf.
Qed.

Lemma sorted_nodup (l : list Z) : StronglySorted Z.lt l → NoDup l.
Proof.
  induction 1 as [|x l _ IH Hx]; [constructor|]. constructor; [|done]. intros Hin. rewrite list.Forall_forall in Hx. specialize (Hx x Hin). lia.
Qed.

Lemma dead_not_live t u : StronglySorted Z.lt (x_all t) → u ∈ x_subs t → sub_live u = false → sub_id u ∉ x_live t.
Proof.
  intros Hs Hu Hd. apply sorted_nodup in Hs. unfold x_all in Hs. apply list.NoDup_cons in Hs as [Htop Hnd]. unfold x_live. rewrite elem_of_cons. intros [He|Hin].
  - apply Htop. rewrite <- He. by apply list_elem_of_fmap_2.
  - unfold live_subs in Hin. apply list_elem_of_fmap in Hin as (u' & He & [Hl Hu']%list_elem_of_filter).
    apply list_elem_of_lookup in Hu as [i Hi], Hu' as [j Hj].
    assert (i = j) as -> by (eapply (NoDup_lookup _ i j (sub_id u) Hnd); rewrite list_lookup_fmap, ?Hi, ?Hj; cbn; congruence). congruence.
Qed.

(** The writes that are left after the first. *)
Lemma writes_next sh fs w ws st : writes_ok sh fs (w :: ws) st →
  writes_ok (set_pg_xact (TransactionIdSetStatusBit w.1 w.2 (pg_xact sh)) sh) fs ws st ∧ w.1 ∈ u32 <$> fs ∧ 0 ≤ w.2 < 4.
Proof. intros [Hw Hf]. apply list.Forall_cons in Hw as [[Hin Hr] Hw]. split; [|done]. split; [done|]. exact Hf. Qed.

Lemma inv_write base s k t w ph' : inv base s → s_trees s !! k = Some t → ended (set_phase ph' t) = false → ended t = false →
  x_phase t ≠ Running → shape_ok (set_phase ph' t) → w.1 ∈ u32 <$> x_live t → 0 ≤ w.2 < 4 →
  phase_ok (set_pg_xact (TransactionIdSetStatusBit w.1 w.2 (pg_xact (s_shm s))) (s_shm s)) (latestCompletedXid (s_pa s)) (set_phase ph' t) →
  preserves base s (set_tree k (set_phase ph' t) (set_shm (set_pg_xact (TransactionIdSetStatusBit w.1 w.2 (pg_xact (s_shm s))) (s_shm s)) s)).
Proof.
  intros Hi Hk He He' Hph Hs (g & Hg & Hgl)%list_elem_of_fmap Hr Hp. pose proof (list_elem_of_lookup_2 _ _ _ Hk) as Htin. rewrite Hg in Hp |- *.
  pose proof (x_live_all t g Hgl) as Hga. destruct (co_window _ _ (iv_core _ _ Hi) t g Htin Hga) as [Hgw Hglim].
  set (sh' := set_pg_xact _ _) in *.
  assert (∀ f, status sh' f = if u32 f =? u32 g then w.2 else status (s_shm s) f) as Hst by (intros f; unfold status, sh'; cbn; by rewrite get_set_status).
  assert (∀ f, u32 f ≠ u32 g → status sh' f = status (s_shm s) f) as Hne by (intros f Hf; rewrite Hst; by rewrite (proj2 (Z.eqb_neq _ _) Hf)).
  pose proof (co_trees _ _ (iv_core _ _ Hi) t Htin) as [K1 K2 K3 K4 K5 K6 K7 K8].
  eapply inv_local; [done|done| |apply (iv_core _ _ Hi)|done|done|by apply set_phase_calm| | |].
  - apply (shared_status base (s_shm s) _ [u32 g]); [apply (iv_core _ _ Hi)| |].
    + intros x Hx. rewrite get_set_status by done. rewrite (proj2 (Z.eqb_neq _ _)); [done|]. intros ->. apply Hx. by left.
    + intros x ->%list_elem_of_singleton. exists g. split; [done|]. destruct Hgw. pose proof (proj2 (limit_window base s Hi)). lia.
  - split; [done|done|done|done| |done|done|done]. intros u Hu Hd. rewrite Hne; [by apply K5|]. intros Heq.
    apply (dead_not_live t u K1 Hu Hd). replace (sub_id u) with g; [done|]. symmetry. apply (window_inj base); [|done|done].
    apply (member_window base s Hi t); [done|]. right. by apply list_elem_of_fmap_2.
  - intros j u f Hj Hu Hf. split; [|done]. apply Hne. intros Heq. apply Hj.
    destruct (same_tree base s Hi u t f g) as [-> _]; [by eapply list_elem_of_lookup_2|done..|]. by eapply (place_unique base s Hi).
  - intros p Hpp. split; [split; [done|]|eapply not_pending; [done|done|by right|done]]. apply Hne. intros Heq.
    destruct (co_pending _ _ (iv_core _ _ Hi) p Hpp) as [P1 _ _ _]. apply (window_inj base) in Heq; [|done|done]. unfold limit in Hglim. rewrite Hpp in Hglim. lia.
Qed.

(** ** Recording a parent *)

Lemma set_parent_lookup x p st y : SubTransGetParent (SubTransSetParent x p st) y =
  if negb (TransactionIdIsNormal y) then InvalidTransactionId else if y =? x then p else SubTransGetParent st y.
Proof.
  unfold SubTransGetParent. destruct (negb (TransactionIdIsNormal y)); [done|]. unfold SubTransSetParent.
  destruct (Z.eqb_spec (default InvalidTransactionId (st !! x)) p) as [He|Hne].
  - destruct (Z.eqb_spec y x) as [->|]; [done|done].
  - destruct (Z.eqb_spec y x) as [->|Hyx]; [by rewrite lookup_insert_eq|by rewrite lookup_insert_ne by done].
Qed.

Lemma set_parent_unused base v st x p : limits_ok base v → unused_no_parent v st → base ≤ x < nextXid v → unused_no_parent v (SubTransSetParent (u32 x) p st).
Proof.
  intros Hl Hu Hx H1 H2 y Hy Hp. unfold SubTransSetParent. destruct (_ =? p); [by apply Hu|]. rewrite lookup_insert_ne; [by apply Hu|]. intros He.
  pose proof (lim_window _ _ Hl). unfold XidFromFullTransactionId in *. apply (older_not_ahead x (nextXid v)); [lia|]. rewrite He. split; [lia|].
  change SUBTRANS_XACTS_PER_PAGE with 2048 in *. Z.to_euclidean_division_equations. lia.
Qed.

Lemma sub_by_id t u u' : StronglySorted Z.lt (x_all t) → u ∈ x_subs t → u' ∈ x_subs t → sub_id u = sub_id u' → u = u'.
Proof.
  intros Hs Hu Hu' He. apply sorted_nodup in Hs. apply list.NoDup_cons in Hs as [_ Hnd]. apply list_elem_of_lookup in Hu as [i Hi], Hu' as [j Hj].
  assert (i = j) as -> by (eapply (NoDup_lookup _ i j (sub_id u) Hnd); rewrite list_lookup_fmap, ?Hi, ?Hj; cbn; congruence). congruence.
Qed.

Section map_subs.
Context (g : sub → sub) (Hg : ∀ u, sub_id (g u) = sub_id u ∧ sub_parent (g u) = sub_parent u) (t : xtree).

Lemma map_subs_ids : sub_id <$> x_subs (map_subs g t) = sub_id <$> x_subs t.
Proof. cbn. rewrite <- list_fmap_compose. apply list_fmap_ext. intros _ u _. apply Hg. Qed.

Lemma map_subs_all : x_all (map_subs g t) = x_all t.
Proof. unfold x_all. by rewrite map_subs_ids. Qed.

Lemma map_subs_live : (∀ u, sub_live (g u) = true → sub_live u = true) → live_subs (map_subs g t) ⊆ live_subs t.
Proof.
  intros Hl f Hf. unfold live_subs in *. apply list_elem_of_fmap in Hf as (u & -> & [Hlu Hu]%list_elem_of_filter). cbn in Hu.
  apply list_elem_of_fmap in Hu as (u' & -> & Hu'). rewrite (proj1 (Hg u')). apply list_elem_of_fmap_2, list_elem_of_filter. split; [by apply Hl|done].
Qed.

Lemma map_subs_parents : (∀ i u, x_subs t !! i = Some u → sub_parent u = x_top t ∨
    ∃ j u', (j < i)%nat ∧ x_subs t !! j = Some u' ∧ sub_linked u' = true ∧ sub_id u' = sub_parent u) →
  (∀ u, sub_linked u = true → sub_linked (g u) = true) →
  ∀ i u, x_subs (map_subs g t) !! i = Some u → sub_parent u = x_top t ∨
    ∃ j u', (j < i)%nat ∧ x_subs (map_subs g t) !! j = Some u' ∧ sub_linked u' = true ∧ sub_id u' = sub_parent u.
Proof.
  intros Hp Hl i u. cbn. rewrite list_lookup_fmap. destruct (x_subs t !! i) as [u0|] eqn:Hu; [|done]. intros [= <-]. rewrite (proj2 (Hg u0)).
  destruct (Hp i u0 Hu) as [?|(j & u' & Hj & Hu' & Hk & He)]; [by left|right]. exists j, (g u'). rewrite list_lookup_fmap, Hu', (proj1 (Hg u')).
  split_and!; [done|done|by apply Hl|done].
Qed.
End map_subs.

Lemma link_live f t : live_subs (link_sub f t) = live_subs t.
Proof.
  unfold live_subs, link_sub. cbn [x_subs map_subs]. induction (x_subs t) as [|u l IH]; [done|]. rewrite fmap_cons, !filter_cons. destruct (sub_id u =? f); cbn [sub_live].
  - destruct (decide _); [rewrite !fmap_cons; f_equal|]; exact IH.
  - destruct (decide _); [rewrite !fmap_cons; f_equal|]; exact IH.
Qed.

Lemma inv_link base s n k t u : inv base s → working s k n t → u ∈ x_subs t →
  preserves base s (set_tree k (link_sub (sub_id u) t)
    (set_shm (set_pg_subtrans (SubTransSetParent (u32 (sub_id u)) (u32 (sub_parent u)) (pg_subtrans (s_shm s))) (s_shm s)) s)).
Proof.
  intros Hi (Hk & Hph & Hpr & Hh & Hid) Hu. pose proof (list_elem_of_lookup_2 _ _ _ Hk) as Htin.
  assert (sub_id u ∈ x_all t) as Hua by (right; by apply list_elem_of_fmap_2).
  destruct (co_window _ _ (iv_core _ _ Hi) t _ Htin Hua) as [Huw Hulim]. pose proof (proj2 (limit_window base s Hi)) as Hnext.
  set (g := λ u', if sub_id u' =? sub_id u then mkSub (sub_id u') (sub_parent u') true (sub_live u') else u').
  assert (∀ u', sub_id (g u') = sub_id u' ∧ sub_parent (g u') = sub_parent u') as Hg by (intros u'; unfold g; by destruct (_ =? _)).
  assert (x_all (link_sub (sub_id u) t) = x_all t) as Hall by exact (map_subs_all g Hg t). set (sh' := set_pg_subtrans _ _).
  assert (∀ f, in_window base f → f ≠ sub_id u → parent_of sh' f = parent_of (s_shm s) f) as Hpo.
  { intros f Hf Hne. unfold parent_of, sh'. cbn. rewrite set_parent_lookup. unfold SubTransGetParent. destruct (negb _); [done|].
    rewrite (proj2 (Z.eqb_neq _ _)); [done|]. intros He. by apply Hne, (window_inj base). }
  assert (parent_of sh' (sub_id u) = u32 (sub_parent u)) as Hpu.
  { unfold parent_of, sh'. cbn. rewrite set_parent_lookup, Z.eqb_refl. by rewrite (proj1 (proj2 (window_normal base _ Huw))). }
  pose proof (co_trees _ _ (iv_core _ _ Hi) t Htin) as [K1 K2 K3 K4 K5 K6 K7 K8].
  eapply inv_local; [done|done|by destruct (co_shared _ _ (iv_core _ _ Hi))| |done|done| | | |].
  - change (TransamVariables sh') with (TransamVariables (s_shm s)). apply (set_parent_unused base); [apply (co_shared _ _ (iv_core _ _ Hi))|apply (iv_core _ _ Hi)|]. destruct Huw. lia.
  - split; [|done]. split; [done|done|by rewrite Hall|rewrite link_live; by left|unfold ended; by rewrite Hph|by left].
  - split; cbn [x_top link_sub map_subs]; [by rewrite Hall| | | | |done| |].
    + apply (map_subs_parents g Hg t K2). intros u' Hl. unfold g. by destruct (_ =? _).
    + rewrite Hpo; [done|by apply (top_window base s Hi)|]. intros He. apply sorted_nodup, list.NoDup_cons in K1 as [K1 _]. apply K1. rewrite He. by apply list_elem_of_fmap_2.
    + intros u' (u0 & -> & Hu0)%list_elem_of_fmap. destruct (Z.eqb_spec (sub_id u0) (sub_id u)) as [He|Hne]; cbn.
      * intros _. rewrite He, Hpu. by rewrite (sub_by_id t u u0 K1 Hu Hu0 (eq_sym He)).
      * intros Hl. rewrite Hpo; [by apply K4| |done]. apply (member_window base s Hi t); [done|]. right. by apply list_elem_of_fmap_2.
    + intros u' (u0 & -> & Hu0)%list_elem_of_fmap. destruct (sub_id u0 =? sub_id u); cbn; intros Hd; by apply K5.
    + intros m Hm. destruct (K7 m Hm) as (v & Hv & S1 & S2 & S3 & S4). exists v. split; [done|]. split_and!; [done|done| |].
      * intros y Hy. apply S3 in Hy. by rewrite <- (map_subs_ids g Hg t) in Hy.
      * rewrite link_live. done.
    + unfold phase_ok in *. cbn. rewrite Hph in *. unfold x_live. rewrite link_live. exact K8.
  - intros j w f Hj Hw Hf. split; [done|]. apply Hpo; [apply (member_window base s Hi w); [by eapply list_elem_of_lookup_2|done]|].
    intros ->. apply Hj. by eapply (co_disjoint _ _ (iv_core _ _ Hi)).
  - intros p Hpp. split; [split; [|done]|].
    + apply Hpo; [apply (co_pending _ _ (iv_core _ _ Hi) p Hpp)|]. intros He. unfold limit in Hulim. rewrite Hpp in Hulim. lia.
    + eapply not_pending; [done|done| |done]. left. rewrite Hh. by intros m ->%list_elem_of_singleton.
Qed.

(** ** Steps under the exclusive lock *)

(** Nothing has completed. *)
Record quiet (pa pa' : procs) (ts ts' : list xtree) : Prop := mkQuiet {
  qu_latest : latestCompletedXid pa' = latestCompletedXid pa;
  qu_ended : ∀ t, t ∈ ts' → ended t = true → t ∈ ts;
  qu_running : ∀ t, t ∈ ts → ended t = false → ∃ t', t' ∈ ts' ∧ ended t' = false ∧ x_top t' = x_top t ∧
    x_flagged t' = x_flagged t ∧ x_holders t ⊆ x_holders t'
}.

Lemma quiet_refl pa pa' ts : latestCompletedXid pa' = latestCompletedXid pa → quiet pa pa' ts ts.
Proof. intros Hl. split; [done|done|]. intros t Ht He. by exists t. Qed.

(** The snapshots are the same, some of them no longer used. *)
Definition same_taken (k k' : taken) : Prop :=
  k' = k ∨ k' = mkTaken (k_proc k) (k_snap k) false (k_start k) (k_own k).

Lemma taken_dropped base pa ts k k' X m : same_taken k k' → taken_ok base pa ts k X m → taken_ok base pa ts k' X m.
Proof. intros [->| ->] Hk; [done|]. destruct Hk as [H1 H2 H3 H4 H5 H6 H7 H8 H9 H10]. by split. Qed.

Lemma exclusive_step base s s' : inv base s → core base s' → s_readers s' = [] → s_xmins s' = s_xmins s →
  evolves (limit s) (s_trees s) (s_trees s') →
  in_window base (latestCompletedXid (s_pa s')) → FullTransactionIdAdvance (latestCompletedXid (s_pa s)) ≤ FullTransactionIdAdvance (latestCompletedXid (s_pa s')) ≤ limit s' →
  xactCompletionCount (s_pa s') = xactCompletionCount (s_pa s) + 1 ∨
    xactCompletionCount (s_pa s') = xactCompletionCount (s_pa s) ∧ quiet (s_pa s) (s_pa s') (s_trees s) (s_trees s') →
  (∀ n v', view (s_pa s') n = Some v' → sh_xmin v' ≠ InvalidTransactionId → ∃ v, view (s_pa s) n = Some v ∧ sh_xmin v' = sh_xmin v) →
  (∀ k', k' ∈ s_snaps s' → ∃ k, k ∈ s_snaps s ∧ same_taken k k' ∧
    (k_held k' = true → k_held k = true ∧ ∀ v, view (s_pa s) (k_proc k) = Some v → ∃ v', view (s_pa s') (k_proc k) = Some v' ∧ kept_shown v v')) →
  preserves base s s'.
Proof.
  intros Hi Hcore Hr Hg Hev Hlw Hl Hcnt Hx Hks. destruct (iv_latest _ _ Hi) as [_ Hl0]. split.
  2:{ destruct Hcnt as [?|[? _]]; lia. }
  2:{ split; [lia|done|]. intros k' Hk' Hh. destruct (Hks k' Hk') as (k & Hk & Hsame & Hheld). destruct (Hheld Hh) as [Hhk Hvk].
      assert (k_proc k' = k_proc k ∧ k_start k' = k_start k) as [Hp Hs] by (by destruct Hsame as [->| ->]). split; [|left; by exists k].
      rewrite Hp. intros v Hv. destruct (Hvk v Hv) as (v' & Hv' & _ & Hf). by exists v'. }
  split; [done|split; [done|lia]| | |by rewrite Hr; intros r ?%elem_of_nil| |].
  - intros n v' Hv' Hne. destruct (Hx n v' Hv' Hne) as (v & Hv & He). rewrite Hg, He. rewrite He in Hne.
    destruct (iv_xmins _ _ Hi n v Hv Hne) as (H1 & M & H2 & H3 & H4 & H5). split; [done|]. exists M. split_and!; [done|done|lia|].
    intros t' Ht' Hend Hor. destruct (ev_new _ _ _ _ Hev t' Ht') as [(t & Ht & Hf)|[Hfr _]]; [|lia].
    rewrite (fo_top _ _ _ Hf). rewrite (fo_flagged _ _ _ Hf) in Hor. apply H5; [done| |].
    + destruct (ended t) eqn:He'; [|done]. by rewrite (fo_ended _ _ _ Hf He'), He' in Hend.
    + destruct Hor as [?|Hn]; [by left|]. destruct (fo_holders _ _ _ Hf n Hn); auto.
  - pose proof (iv_count _ _ Hi). destruct Hcnt as [->|[-> _]]; lia.
  - intros k' Hk'. destruct (Hks k' Hk') as (k & Hk & Hsame & Hheld). destruct (iv_snaps _ _ Hi k Hk) as (X & m & Hok). exists X, m.
    pose proof (taken_dropped _ _ _ _ _ _ _ Hsame Hok) as Hok'. assert (k_proc k' = k_proc k) as Hpk by (by destruct Hsame as [->| ->]).
    eapply taken_evolves; [exact Hok'|exact Hev|by eapply taken_bound|lia|destruct Hcnt as [->|[-> _]]; lia| |].
    + intros Hc. pose proof (ak_count _ _ _ _ _ _ Hok') as Hck. destruct Hcnt as [Hc'|[Hc' [Q1 Q2 Q4]]]; [lia|].
      destruct (ak_reuse _ _ _ _ _ _ Hok') as (R1 & R2 & R3 & R4); [congruence|]. rewrite Q1. split_and!; [|done| |].
      * intros t Ht He. apply R1; [|done]. by apply Q2.
      * intros x Hxk. destruct (R3 x Hxk) as (t & Ht & He & Hn & <-). destruct (Q4 t Ht He) as (t' & ? & ? & ? & ? & Hsub). exists t'. split_and!; [done..|by apply Hsub|done].
      * destruct R4 as [->|(t & Ht & He & Hor & <-)]; [by left|right]. destruct (Q4 t Ht He) as (t' & ? & ? & ? & Hfl & Hsub). exists t'. rewrite Hfl.
        split_and!; [done..| |done]. destruct Hor as [?|?]; [by left|right; by apply Hsub].
    + intros Hh. destruct (Hheld Hh) as [Hhk Hvk]. destruct (ak_held _ _ _ _ _ _ Hok Hhk) as (v & M & Hv & HM & ?).
      destruct (Hvk v Hv) as (v' & Hv' & He & _). exists v', M. rewrite Hpk, He. done.
  - intros k' Hk'. destruct (Hks k' Hk') as (k & Hk & Hsame & _). assert (k_proc k' = k_proc k) as -> by (by destruct Hsame as [->| ->]).
    rewrite Hg. eapply recent_evolves; [exact Hev|by apply (iv_recent _ _ Hi)|lia|done].
Qed.

(** Processes come and go. *)
Lemma elem_of_open_gap {A} i (x y : A) l : y ∈ open_gap i x l ↔ y = x ∨ y ∈ l.
Proof. unfold open_gap. rewrite <- (take_drop i l) at 3. rewrite !elem_of_app, elem_of_cons. tauto. Qed.

Lemma zip_open_gap {A B} i (x : A) (y : B) l k : length l = length k → zip (open_gap i x l) (open_gap i y k) = open_gap i (x, y) (zip l k).
Proof.
  intros Hlen. unfold open_gap. rewrite zip_with_app by (rewrite !length_take; lia). cbn. by rewrite zip_with_take, zip_with_drop.
Qed.

Lemma zip_close_gap {A B} i (l : list A) (k : list B) : length l = length k → zip (close_gap i l) (close_gap i k) = close_gap i (zip l k).
Proof. intros Hlen. unfold close_gap. rewrite zip_with_app by (rewrite !length_take; lia). by rewrite zip_with_take, zip_with_drop. Qed.

Lemma elem_of_close_gap {A} i (y : A) l : y ∈ close_gap i l ↔ ∃ j, j ≠ i ∧ l !! j = Some y.
Proof.
  unfold close_gap. rewrite elem_of_app. split.
  - intros [Hy|Hy]; apply list_elem_of_lookup in Hy as [j Hj].
    + apply lookup_take_Some in Hj as [Hj Hlt]. exists j. split; [lia|done].
    + rewrite lookup_drop in Hj. exists (S i + j)%nat. split; [lia|done].
  - intros (j & Hne & Hj). destruct (decide (j < i)%nat) as [Hlt|Hge].
    + left. apply (list_elem_of_lookup_2 _ j). by apply lookup_take_Some.
    + right. apply (list_elem_of_lookup_2 _ (j - S i)). rewrite lookup_drop. replace (S i + (j - S i))%nat with j by lia. done.
Qed.

Lemma shows_renumbered ps : shows <$> renumbered ps = shows <$> ps.
Proof. apply list_eq. intros i. rewrite !list_lookup_fmap, renumbered_lookup. by destruct (ps !! i). Qed.

Lemma view_added pa ps pa' n i p : tracks pa ps → n ∉ pgprocnos pa → tracks pa' (renumbered (open_gap i p ps)) → pgprocnos pa' = open_gap i n (pgprocnos pa) →
  ∀ m, view pa' m = if decide (m = n) then Some (shows p) else view pa m.
Proof.
  intros Ht Hn Ht' Hns m. apply option_eq. intros v. rewrite (view_zip _ _ _ _ Ht'), Hns, shows_renumbered, fmap_open_gap.
  rewrite zip_open_gap by (rewrite length_fmap, (tracks_length _ _ Ht); done). rewrite elem_of_open_gap, <- (view_zip _ _ _ _ Ht).
  destruct (decide (m = n)) as [->|Hne].
  - split; [|intros [= <-]; by left]. intros [[= <-]|Hv%view_in]; done.
  - split; [|by right]. intros [[= ? ?]|Hv]; done.
Qed.

Lemma view_removed pa ps pa' n i p : tracks pa ps → at_pos pa ps n i p → tracks pa' (renumbered (close_gap i ps)) → pgprocnos pa' = close_gap i (pgprocnos pa) →
  ∀ m, view pa' m = if decide (m = n) then None else view pa m.
Proof.
  intros Ht Hpos Ht' Hns m. apply option_eq. intros v. rewrite (view_zip _ _ _ _ Ht'), Hns, shows_renumbered, fmap_close_gap.
  rewrite zip_close_gap by (rewrite length_fmap, (tracks_length _ _ Ht); done). rewrite elem_of_close_gap.
  assert (∀ j, zip (pgprocnos pa) (shows <$> ps) !! j = Some (m, v) → ∃ q, at_pos pa ps m j q ∧ v = shows q) as Hz.
  { intros j Hj. rewrite lookup_zip_with, list_lookup_fmap in Hj. destruct (pgprocnos pa !! j) eqn:H1; [|done]. destruct (ps !! j) as [q|] eqn:H2; [|done].
    cbn in Hj. injection Hj as -> <-. by exists q. }
  destruct (decide (m = n)) as [->|Hne].
  - split; [|done]. intros (j & Hj & Hzj). destruct (Hz j Hzj) as (q & Hq & _). destruct Hj. by eapply (at_pos_inj _ _ Ht n).
  - rewrite (view_zip _ _ _ _ Ht). split; [intros (j & _ & Hj); by eapply list_elem_of_lookup_2|]. intros [j Hj]%list_elem_of_lookup. exists j. split; [|done].
    intros ->. destruct (Hz i Hj) as (q & [Hq _] & _). destruct Hpos. congruence.
Qed.

(** A process without a transaction. *)
Lemma inv_bystander base s pa' ks' n : inv base s → exclusive s → (∀ t, t ∈ s_trees s → n ∉ x_holders t) → pa_wf pa' →
  (∀ m, m ≠ n → view pa' m = view (s_pa s) m) →
  (∀ v, view pa' n = Some v → sh_xid v = InvalidTransactionId ∧
    (sh_xmin v = InvalidTransactionId ∨ ∃ w, view (s_pa s) n = Some w ∧ sh_xmin v = sh_xmin w)) →
  latestCompletedXid pa' = latestCompletedXid (s_pa s) → xactCompletionCount pa' = xactCompletionCount (s_pa s) →
  (∀ p, s_pending s = Some p → pd_proc p ≠ n) →
  (∀ k', k' ∈ ks' → ∃ k, k ∈ s_snaps s ∧ same_taken k k' ∧ (k_held k' = true → k_held k = true ∧
    (k_proc k = n → ∀ v, view (s_pa s) n = Some v → ∃ v', view pa' n = Some v' ∧ kept_shown v v'))) →
  preserves base s (set_snaps ks' (set_pa pa' s)).
Proof.
  intros Hi Hex Hno Hwf Hother Hmine Hl Hc Hpend Hks. destruct (iv_core _ _ Hi) as [C1 C2 C3 C4 C5 C6 C7 C8]. destruct (iv_latest _ _ Hi) as [L1 L2].
  assert (limit (set_snaps ks' (set_pa pa' s)) = limit s) as Hlim by done.
  eapply exclusive_step; [exact Hi| |done|done|apply evolved_refl, _|cbn; by rewrite Hl|cbn; rewrite Hl; lia|right; split; [done|by apply quiet_refl]| |].
  - split; cbn; [done|done|done| |done|done| |].
    + intros p Hp. destruct (C4 p Hp) as [P1 P2 P3 P4]. split; [done|done|done|]. cbn. destruct (pd_parent p) as [[]|]; [done|]. by rewrite Hother by (by apply Hpend).
    + intros t Ht. eapply tree_ok_frame; [by apply C7|done|done| |by rewrite Hl]. intros m v Hm Hv. exists v. split; [|done]. rewrite Hother; [done|].
      intros ->. by apply (Hno t Ht).
    + intros m v Hv Hx. destruct (decide (m = n)) as [->|Hne]; [by destruct (Hmine v Hv)|]. rewrite Hother in Hv by done. by apply (C8 m v).
  - intros m v Hv Hx. destruct (decide (m = n)) as [->|Hne].
    + destruct (Hmine v Hv) as [_ [?|(w & Hw & He)]]; [done|]. by exists w.
    + exists v. cbn in Hv. by rewrite Hother in Hv.
  - intros k' Hk'. destruct (Hks k' Hk') as (k & Hk & Hsame & Hh). exists k. split_and!; [done|done|]. intros Hh'. destruct (Hh Hh') as [Hhk Hv]. split; [done|].
    intros v Hvk. destruct (decide (k_proc k = n)) as [He|Hne]; [rewrite He in *; by apply Hv|]. exists v. split; [|done]. cbn. by rewrite Hother.
Qed.

Lemma same_taken_refl k : same_taken k k.
Proof. by left. Qed.

Lemma drop_held_taken n k : same_taken k (drop_held n k) ∧ (k_held (drop_held n k) = true → k_held k = true ∧ k_proc k ≠ n).
Proof. unfold drop_held. destruct (Nat.eqb_spec (k_proc k) n); [split; [by right|done]|split; [by left|done]]. Qed.

Lemma inv_join base s n auto p pa' : inv base s → exclusive s → s_pending s = None → n ∉ pgprocnos (s_pa s) → allProcs (s_pa s) !! n = Some p →
  proc_xid p = InvalidTransactionId → pa_run (OpJoin n auto) (s_pa s) = (pa', Ok tt) → preserves base s (set_pa pa' s).
Proof.
  intros Hi Hex Hpend Hn Hp Hx Hrun. destruct (co_wf _ _ (iv_core _ _ Hi)) as (ps & Ht & Hall). cbn [pa_run] in Hrun.
  erewrite bind_ok in Hrun by (by apply init_run). set (pa1 := set_allProcs _ _) in Hrun.
  assert (tracks pa1 ps) as Ht1 by (by apply outside_tracks).
  pose proof (proj1 (Forall_lookup _ _) Hall n p Hp) as (Hl & Hc & H0).
  assert (proc_ok (fresh_proc auto p)) as Hok by (split_and!; cbn; [done|done|intros _; by apply H0]).
  assert (numProcs pa1 < maxProcs pa1)%nat as Hroom.
  { destruct (decide (maxProcs pa1 ≤ numProcs pa1)%nat) as [Hf|]; [|lia]. unfold ProcArrayAdd in Hrun. rewrite get_run, (proj2 (Nat.leb_le _ _) Hf) in Hrun. done. }
  destruct (add_run pa1 ps Ht1 n (fresh_proc auto p)) as (pa2 & Hrun2 & Ht2 & Hns & Hlat & Hcnt & Hout);
    [done|apply list_lookup_insert_eq; by eapply lookup_lt_Some|done|done|]. rewrite Hrun2 in Hrun. injection Hrun as <-.
  assert (∀ m, view pa2 m = if decide (m = n) then Some (shows (fresh_proc auto p)) else view (s_pa s) m) as Hview.
  { intros m. rewrite (view_added pa1 ps pa2 n _ _ Ht1 Hn Ht2 Hns). destruct (decide (m = n)); [done|]. unfold view. cbn.
    by rewrite list_lookup_insert_ne. }
  replace (set_pa pa2 s) with (set_snaps (s_snaps s) (set_pa pa2 s)) by done.
  eapply (inv_bystander base s pa2 _ n); [done|done| | | | |done|done|by rewrite Hpend|].
  - intros t Htt. by apply (not_member_no_holder base s Hi).
  - eapply (wf_moved pa1); [|exact Ht2|exact Hout]. by apply Forall_insert.
  - intros m Hne. by rewrite Hview, decide_False.
  - intros v. rewrite Hview, decide_True by done. intros [= <-]. split; [done|by left].
  - intros k Hk. exists k. split_and!; [done|apply same_taken_refl|]. intros Hh. split; [done|]. intros _ v Hv%view_in. done.
Qed.

Lemma end_snaps_same n (ks : list taken) k' : k' ∈ drop_held n <$> ks → ∃ k, k ∈ ks ∧ same_taken k k' ∧ (k_held k' = true → k_held k = true ∧ k_proc k ≠ n).
Proof. intros (k & -> & Hk)%list_elem_of_fmap. exists k. split; [done|]. apply drop_held_taken. Qed.

Lemma inv_leave base s n p pa' : inv base s → exclusive s → s_pending s = None → n ∈ pgprocnos (s_pa s) → allProcs (s_pa s) !! n = Some p →
  proc_xid p = InvalidTransactionId → ProcArrayRemove n InvalidTransactionId (s_pa s) = (pa', Ok tt) → preserves base s (end_snaps n (set_pa pa' s)).
Proof.
  intros Hi Hex Hpend Hn Hp Hx Hrun. destruct (co_wf _ _ (iv_core _ _ Hi)) as (ps & Ht & Hall).
  pose proof (view_member _ _ _ Hn Hp) as Hv. destruct (view_pos _ _ _ _ Ht Hv) as (i & q & Hpos & _).
  destruct (remove_proc_run _ _ Ht n InvalidTransactionId i q Hpos) as (pa2 & Hrun2 & Ht2 & Hns & Hlat & Hcnt & Hout). rewrite Hrun2 in Hrun. injection Hrun as <-.
  pose proof (view_removed _ _ _ _ _ _ Ht Hpos Ht2 Hns) as Hview.
  apply (inv_bystander base s pa2 _ n); [done|done| | | | |done|done|by rewrite Hpend|].
  - intros t Htt. by apply (no_holder base s Hi n _ t Hv).
  - by eapply (wf_moved (s_pa s)).
  - intros m Hne. by rewrite Hview, decide_False.
  - intros v. by rewrite Hview, decide_True.
  - intros k' Hk'. cbn in Hk'. destruct (end_snaps_same n _ k' Hk') as (k & Hk & Hs & Hh). exists k. split_and!; [done|done|]. intros Hh'. destruct (Hh Hh'). by split.
Qed.

(** The same when the process only stores its entry. *)
Lemma inv_own_entry base s n i p q pa' ks' ps : inv base s → exclusive s → tracks (s_pa s) ps → at_pos (s_pa s) ps n i p → proc_xid p = InvalidTransactionId →
  pa' = store n i q (s_pa s) → pgxactoff q = pgxactoff p → proc_ok q → proc_xid q = InvalidTransactionId →
  proc_xmin q = InvalidTransactionId ∨ proc_xmin q = proc_xmin p → (∀ pd, s_pending s = Some pd → pd_proc pd ≠ n) →
  (∀ k', k' ∈ ks' → ∃ k, k ∈ s_snaps s ∧ same_taken k k' ∧ (k_held k' = true → k_held k = true ∧ (k_proc k ≠ n ∨ kept_shown (shows p) (shows q)))) →
  preserves base s (set_snaps ks' (set_pa pa' s)).
Proof.
  intros Hi Hex Ht Hpos Hx -> Hoff Hok Hqx Hqm Hpend Hks. destruct (co_wf _ _ (iv_core _ _ Hi)) as (ps' & Ht' & Hall).
  pose proof (view_at _ _ _ _ _ Ht Hpos) as Hv.
  pose proof (store_changed _ _ n i p q Ht Hall Hpos Hoff Hok) as [_ Hwf Hch].
  apply (inv_bystander base s _ _ n); [done|done| |done| | |done|done|done|].
  - intros t Htt. by apply (no_holder base s Hi n _ t Hv).
  - intros m Hne. by rewrite Hch, decide_False.
  - intros v. rewrite Hch, decide_True by done. intros [= <-]. split; [done|]. destruct Hqm as [?|?]; [by left|right]. by exists (shows p).
  - intros k' Hk'. destruct (Hks k' Hk') as (k & Hk & Hs & Hh). exists k. split_and!; [done|done|]. intros Hh'. destruct (Hh Hh') as [Hhk Hor]. split; [done|].
    intros Hkn v Hv'. destruct Hor as [?|Hm]; [done|]. exists (shows q). split; [by rewrite Hch, decide_True|]. assert (v = shows p) as -> by congruence. done.
Qed.

Lemma vacuum_flagged w p : proc_flagged p = true → proc_flagged (vacuum_proc w p) = true.
Proof.
  unfold proc_flagged, hasflags, vacuum_proc. rewrite !negb_true_iff, !Z.eqb_neq. intros Hne H0. apply Hne. apply Z.bits_inj'. intros i Hi.
  apply (f_equal (λ z, Z.testbit z i)) in H0. rewrite Z.bits_0, Z.land_spec in *. apply andb_false_iff in H0 as [H0|H0]; [|by rewrite H0, andb_false_r].
  destruct w; cbn [proc_flags set_proc_flags] in H0; rewrite ?Z.lor_spec, ?orb_false_iff in H0; [destruct H0 as [[-> _] _]|destruct H0 as [-> _]]; done.
Qed.

Lemma inv_vacuum base s n w p pa' : inv base s → exclusive s → idle s n → n ∈ pgprocnos (s_pa s) → allProcs (s_pa s) !! n = Some p →
  proc_xid p = InvalidTransactionId → set_vacuum_flags n w (s_pa s) = (pa', Ok tt) → preserves base s (set_pa pa' s).
Proof.
  intros Hi Hex [Hid _] Hn Hp Hx Hrun. destruct (co_wf _ _ (iv_core _ _ Hi)) as (ps & Ht & Hall).
  destruct (member_pos _ _ Ht n Hn) as (i & q & Hpos & Hok). destruct (at_pos_proc _ _ Ht _ _ _ Hpos) as (Hq & _). assert (q = p) as -> by congruence.
  rewrite (vacuum_run _ _ Ht n i p Hpos) in Hrun. injection Hrun as <-.
  replace (set_pa _ s) with (set_snaps (s_snaps s) (set_pa (store n i (vacuum_proc w p) (s_pa s)) s)) by done.
  eapply inv_own_entry; [done|done|exact Ht|exact Hpos|done|done|done|done|done|by right|done|].
  intros k Hk. exists k. split_and!; [done|apply same_taken_refl|]. intros Hh. split; [done|right]. split; [done|by apply vacuum_flagged].
Qed.

Lemma inv_end_noxid base s n p pa' : inv base s → exclusive s → idle s n → n ∈ pgprocnos (s_pa s) → allProcs (s_pa s) !! n = Some p →
  proc_xid p = InvalidTransactionId → ProcArrayEndTransaction n InvalidTransactionId (s_pa s) = (pa', Ok tt) → preserves base s (end_snaps n (set_pa pa' s)).
Proof.
  intros Hi Hex [Hid _] Hn Hp Hx Hrun. destruct (co_wf _ _ (iv_core _ _ Hi)) as (ps & Ht & Hall).
  destruct (member_pos _ _ Ht n Hn) as (i & q & Hpos & Hok). destruct (at_pos_proc _ _ Ht _ _ _ Hpos) as (Hq & _). assert (q = p) as -> by congruence.
  rewrite (idle_run _ _ Ht n i p Hpos) in Hrun. injection Hrun as <-. destruct (idle_ok p Hok) as [Hok' Hoff].
  assert (proc_xid (idle_proc p) = proc_xid p ∧ proc_xmin (idle_proc p) = InvalidTransactionId) as [E1 E2] by (unfold idle_proc; cbn; by destruct (hasflags _ _)).
  eapply inv_own_entry; [done|done|exact Ht|exact Hpos|done|done|done|done|congruence|by left|done|].
  intros k' Hk'. cbn in Hk'. destruct (end_snaps_same n _ k' Hk') as (k & Hk & Hs & Hh). exists k. split_and!; [done|done|]. intros Hh'. destruct (Hh Hh'). split; [done|by left].
Qed.

(** A process with a transaction: the entry of the process and the history
    change together. *)
Lemma inv_complete base s k t t' n pa' ks' : inv base s → exclusive s → s_trees s !! k = Some t → x_all t' = x_all t → follows (limit s) t t' →
  pa_wf pa' → (∀ m, m ≠ n → view pa' m = view (s_pa s) m) → (∀ j u, j ≠ k → s_trees s !! j = Some u → n ∉ x_holders u) →
  tree_ok (s_shm s) (view pa') (latestCompletedXid pa') t' →
  (∀ v, view pa' n = Some v → (sh_xid v ≠ InvalidTransactionId → n ∈ x_holders t' ∧ ended t' = false) ∧
    (sh_xmin v ≠ InvalidTransactionId → ∃ w, view (s_pa s) n = Some w ∧ sh_xmin v = sh_xmin w)) →
  (∀ m, m ≠ n → m ∈ x_holders t → m ∈ x_holders t' ∧ ended t' = false) →
  in_window base (latestCompletedXid pa') →
  FullTransactionIdAdvance (latestCompletedXid (s_pa s)) ≤ FullTransactionIdAdvance (latestCompletedXid pa') ≤ limit s →
  latestCompletedXid (s_pa s) ≤ latestCompletedXid pa' →
  xactCompletionCount pa' = xactCompletionCount (s_pa s) + 1 ∨
    xactCompletionCount pa' = xactCompletionCount (s_pa s) ∧ quiet (s_pa s) pa' (s_trees s) (<[k := t']> (s_trees s)) →
  (∀ p, s_pending s = Some p → pd_proc p ≠ n ∧ ∀ k0 x, pd_parent p = Some (k0, x) → k0 ≠ k) →
  (∀ k', k' ∈ ks' → ∃ k, k ∈ s_snaps s ∧ same_taken k k' ∧ (k_held k' = true → k_held k = true ∧
    (k_proc k = n → ∀ v, view (s_pa s) n = Some v → ∃ v', view pa' n = Some v' ∧ kept_shown v v'))) →
  preserves base s (set_snaps ks' (set_tree k t' (set_pa pa' s))).
Proof.
  intros Hi Hex Hk Hall Hfo Hwf Hother Hno Ht' Hmine Hkeep Hlw Hl Hle Hc Hpend Hks. destruct (iv_core _ _ Hi) as [C1 C2 C3 C4 C5 C6 C7 C8].
  pose proof (list_elem_of_lookup_2 _ _ _ Hk) as Htin.
  eapply exclusive_step; [exact Hi| |done|done|by eapply evolved_insert; [apply _|..]|done|done|done| |].
  - eapply core_replace; [apply Hi|exact Hk|done|done|done|done| |done|by rewrite Hall; left|done| |].
    + intros p Hp. destruct (C4 p Hp) as [P1 P2 P3 P4]. destruct (Hpend p Hp) as [Hpn Hpk]. split; [done|done|done|]. cbn.
      destruct (pd_parent p) as [[k0 x]|] eqn:Hpp; [|by rewrite Hother]. destruct P4 as (t0 & Ht0 & ?). exists t0. split; [|done].
      rewrite list_lookup_insert_ne; [done|]. intros <-. by apply (Hpk k x).
    + intros j u Hne Hj. eapply tree_ok_frame; [apply C7; by eapply list_elem_of_lookup_2|done|done| |done]. intros m v Hm Hv. exists v. split; [|done].
      cbn. rewrite Hother; [done|]. intros ->. by apply (Hno j u).
    + cbn. intros m v Hv Hx. destruct (decide (m = n)) as [->|Hne]; [left; by apply (Hmine v)|].
      destruct (decide (m ∈ x_holders t)) as [Hm|Hm]; [left; by apply Hkeep|right]. split; [done|]. exists v. by rewrite Hother in Hv.
  - cbn. intros m v Hv Hx. destruct (decide (m = n)) as [->|Hne]; [by apply (Hmine v)|]. exists v. by rewrite Hother in Hv.
  - intros k' Hk'. destruct (Hks k' Hk') as (k1 & Hk1 & Hsame & Hh). exists k1. split_and!; [done|done|]. intros Hh'. destruct (Hh Hh') as [Hhk Hv]. split; [done|].
    intros v Hvk. destruct (decide (k_proc k1 = n)) as [He|Hne]; [rewrite He in *; by apply Hv|]. exists v. split; [|done]. cbn. by rewrite Hother.
Qed.

(** The last completed id moves on to the end of a list of ids in use. *)
Lemma latest_moves base s pa0 x l : inv base s → latestCompletedXid pa0 = latestCompletedXid (s_pa s) →
  Forall (λ f, in_window base f ∧ f < limit s) (x :: l) →
  let pa' := latest_after (TransactionIdLatest (u32 x) (u32 <$> l)) pa0 in
  in_window base (latestCompletedXid pa') ∧ latestCompletedXid (s_pa s) ≤ latestCompletedXid pa' ∧
  FullTransactionIdAdvance (latestCompletedXid (s_pa s)) ≤ FullTransactionIdAdvance (latestCompletedXid pa') ≤ limit s ∧
  ∀ f, f ∈ x :: l → f ≤ latestCompletedXid pa'.
Proof.
  intros Hi Hl0 Hall pa'. destruct (iv_latest _ _ Hi) as [L1 L2]. destruct (limit_window base s Hi) as [Hlw _]. destruct (next_window base s Hi) as [_ H64].
  pose proof Hall as Hall'. rewrite list.Forall_forall in Hall'.
  assert (Forall (in_window base) l) as Hl by (apply list.Forall_forall; intros y Hy; apply Hall'; by right).
  destruct (latest_full base x l) as [HL HLw]; [apply Hall'; by left|done|]. destruct (Hall' _ (latest_in x l)) as [_ HLlim].
  assert (latestCompletedXid pa' = Z.max (latestCompletedXid (s_pa s)) (foldr Z.max x l)) as Hmax.
  { unfold pa'. rewrite HL, <- Hl0. apply (latest_after_full base); [by rewrite Hl0|done|]. destruct HLw. lia. }
  rewrite Hmax. destruct L1 as [L1n L1w], HLw as [HLn HLw], Hlw as [Hln Hlw].
  destruct (Z.max_spec (latestCompletedXid (s_pa s)) (foldr Z.max x l)) as [[Hlt ->]|[Hge ->]].
  - split_and!; [by split|lia| | |by apply latest_max].
    + etrans; [apply (advance_le _ (foldr Z.max x l)); [done|done|done|lia]|]. apply Z.lt_le_incl, advance_spec; [done|lia].
    + apply advance_le; [done|done|done|lia].
  - split_and!; [by split|lia|lia|done|]. intros f Hf. pose proof (latest_max x l f Hf). lia.
Qed.

(** ** Completions *)

Lemma ended_tree_ok sh vw vw' l l' t c pr : tree_ok sh vw l t → x_phase t = Logging c [] → (∀ f, f ∈ x_live t → f ≤ l') →
  tree_ok sh vw' l' (set_holders [] pr (set_phase (Ended c) t)).
Proof.
  intros [H1 H2 H3 H4 H5 H6 H7 H8] Hph Hl. split; [done..|by intros n ?%elem_of_nil|]. unfold phase_ok in *. cbn. rewrite Hph in H8. destruct H8 as [_ H8].
  intros f Hf. split; [by apply H8|by apply Hl].
Qed.

Lemma ended_follows lim t c pr : ended t = false → follows lim t (set_holders [] pr (set_phase (Ended c) t)).
Proof. intros He. split; [done|done|done|by left|congruence|by intros n ?%elem_of_nil]. Qed.

Lemma live_bounds base s t : inv base s → t ∈ s_trees s → Forall (λ f, in_window base f ∧ f < limit s) (x_live t).
Proof. intros Hi Ht. apply list.Forall_forall. intros f Hf. apply (co_window _ _ (iv_core _ _ Hi) t); [done|by apply x_live_all]. Qed.

Lemma end_latest_valid base s t : inv base s → t ∈ s_trees s → TransactionIdIsValid (end_latest t) = true.
Proof.
  intros Hi Ht. pose proof (live_bounds base s t Hi Ht) as Hb. apply list.Forall_cons in Hb as [[Hb _] Hbs]. unfold end_latest.
  destruct (latest_full base (x_top t) (live_subs t)) as [-> Hw]; [done|eapply list.Forall_impl; [exact Hbs|by intros f [? _]]|]. by apply (window_normal base).
Qed.

Lemma others_not_holding base s k t n : inv base s → s_trees s !! k = Some t → n ∈ x_holders t →
  ∀ j u, j ≠ k → s_trees s !! j = Some u → n ∉ x_holders u.
Proof.
  intros Hi Hk Hn j u Hne Hu Hnu. apply Hne. assert (u = t) as -> by (eapply (holder_unique base s Hi); eauto using list_elem_of_lookup_2).
  by eapply (place_unique base s Hi).
Qed.

(** The process of a transaction that is past its work is not assigning ids. *)
Lemma holder_not_pending base s k t n p : inv base s → s_trees s !! k = Some t → n ∈ x_holders t → x_phase t ≠ Running ∨ x_prepared t = true →
  s_pending s = Some p → pd_proc p ≠ n ∧ ∀ k0 x, pd_parent p = Some (k0, x) → k0 ≠ k.
Proof.
  intros Hi Hk Hn Hor Hp. destruct (co_pending _ _ (iv_core _ _ Hi) p Hp) as [_ _ _ P4]. pose proof (list_elem_of_lookup_2 _ _ _ Hk) as Htin.
  destruct (pd_parent p) as [[k0 x0]|] eqn:Hpp.
  - destruct P4 as (t0 & Ht0 & Hph & Hpr & Hh & _).
    assert (k0 ≠ k) as Hk0 by (intros ->; assert (t0 = t) as -> by congruence; destruct Hor; congruence).
    split; [|by intros k1 x1 [= <- <-]]. intros <-. apply (others_not_holding base s k t (pd_proc p) Hi Hk Hn k0 t0 Hk0 Ht0). rewrite Hh. by left.
  - destruct P4 as (v & Hv & Hx). split; [|done]. intros <-. by apply (no_holder base s Hi _ _ t Hv Hx Htin).
Qed.

Lemma inv_end base s n k t c pa' : inv base s → xactCompletionCount (s_pa s) + 1 < 2 ^ 64 → exclusive s → s_trees s !! k = Some t →
  x_phase t = Logging c [] → x_holders t = [n] → ProcArrayEndTransaction n (end_latest t) (s_pa s) = (pa', Ok tt) →
  preserves base s (end_snaps n (set_tree k (set_holders [] false (set_phase (Ended c) t)) (set_pa pa' s))).
Proof.
  intros Hi Hbig Hex Hk Hph Hh Hrun. pose proof (list_elem_of_lookup_2 _ _ _ Hk) as Htin. assert (n ∈ x_holders t) as Hn by (rewrite Hh; by left).
  destruct (co_wf _ _ (iv_core _ _ Hi)) as (ps & Ht & Hall). destruct (holder_shown base s Hi t n Htin Hn) as (v & Hv & Hsh).
  destruct (view_pos _ _ _ _ Ht Hv) as (i & p & Hpos & ->). pose proof (proj1 (Forall_lookup _ _) (tr_ok _ _ Ht) i p (proj2 Hpos)) as Hok.
  unfold ProcArrayEndTransaction in Hrun. rewrite (end_latest_valid base s t Hi Htin), (end_run _ _ Ht n i p Hpos) in Hrun. injection Hrun as <-.
  pose proof (store_changed _ _ n i p (ended_proc p) Ht Hall Hpos eq_refl (ended_ok p Hok)) as Hch. set (pa1 := store _ _ _ _) in *.
  destruct (latest_moves base s pa1 (x_top t) (live_subs t) Hi eq_refl (live_bounds base s t Hi Htin)) as (M1 & M2 & M3 & M4). fold (end_latest t) in *.
  destruct (latest_after_fields (end_latest t) pa1) as (F1 & F2 & F3). set (pa2 := latest_after _ pa1) in *.
  assert (changed n (shows (ended_proc p)) (s_pa s) (counted pa2)) as [_ Hwf Hcv].
  { eapply changed_global; [exact Hch|done|done|]. apply wf_counted, wf_latest, Hch. }
  eapply (inv_complete base s k t _ n); [done|done|done|done| |done| |by eapply others_not_holding| | | |done|done|done| | |].
  - apply ended_follows. unfold ended. by rewrite Hph.
  - intros m Hne. by rewrite Hcv, decide_False.
  - eapply ended_tree_ok; [by apply (co_trees _ _ (iv_core _ _ Hi))|done|]. exact M4.
  - intros w. rewrite Hcv, decide_True by done. intros [= <-]. done.
  - intros m Hne. rewrite Hh. by intros ->%list_elem_of_singleton.
  - left. cbn. pose proof (iv_count _ _ Hi). rewrite u64_small; rewrite F3; cbn; lia.
  - intros q Hq. eapply holder_not_pending; [done|done|done|by left; rewrite Hph|done].
  - intros k' Hk'. cbn in Hk'. destruct (end_snaps_same n _ k' Hk') as (k1 & Hk1 & Hs & Hh'). exists k1. split_and!; [done|done|]. intros Hh2. destruct (Hh' Hh2). by split.
Qed.

Lemma inv_finish_prepared base s d k t c pa' : inv base s → xactCompletionCount (s_pa s) + 1 < 2 ^ 64 → exclusive s → s_pending s = None → s_trees s !! k = Some t →
  x_phase t = Logging c [] → x_holders t = [d] → ProcArrayRemove d (end_latest t) (s_pa s) = (pa', Ok tt) →
  preserves base s (end_snaps d (set_tree k (set_holders [] true (set_phase (Ended c) t)) (set_pa pa' s))).
Proof.
  intros Hi Hbig Hex Hpend Hk Hph Hh Hrun. pose proof (list_elem_of_lookup_2 _ _ _ Hk) as Htin. assert (d ∈ x_holders t) as Hd by (rewrite Hh; by left).
  destruct (co_wf _ _ (iv_core _ _ Hi)) as (ps & Ht & Hall). destruct (holder_shown base s Hi t d Htin Hd) as (v & Hv & Hsh).
  destruct (view_pos _ _ _ _ Ht Hv) as (i & p & Hpos & ->).
  destruct (remove_proc_run _ _ Ht d (end_latest t) i p Hpos) as (pa2 & Hrun2 & Ht2 & Hns & Hlat & Hcnt & Hout). rewrite Hrun2 in Hrun. injection Hrun as <-.
  pose proof (view_removed _ _ _ _ _ _ Ht Hpos Ht2 Hns) as Hview. unfold completed in Hlat, Hcnt. rewrite (end_latest_valid base s t Hi Htin) in Hlat, Hcnt.
  destruct (latest_moves base s (s_pa s) (x_top t) (live_subs t) Hi eq_refl (live_bounds base s t Hi Htin)) as (M1 & M2 & M3 & M4). fold (end_latest t) in *.
  destruct (latest_after_fields (end_latest t) (s_pa s)) as (F1 & F2 & F3). cbn in Hlat, Hcnt. rewrite <- Hlat in *.
  eapply (inv_complete base s k t _ d); [done|done|done|done| |by eapply (wf_moved (s_pa s))| |by eapply others_not_holding| | | |done|done|done| |by rewrite Hpend|].
  - apply ended_follows. unfold ended. by rewrite Hph.
  - intros m Hne. by rewrite Hview, decide_False.
  - eapply ended_tree_ok; [by apply (co_trees _ _ (iv_core _ _ Hi))|done|]. exact M4.
  - intros w. by rewrite Hview, decide_True.
  - intros m Hne. rewrite Hh. by intros ->%list_elem_of_singleton.
  - left. rewrite Hcnt. pose proof (iv_count _ _ Hi). rewrite u64_small; rewrite F3; lia.
  - intros k' Hk'. cbn in Hk'. destruct (end_snaps_same d _ k' Hk') as (k1 & Hk1 & Hs & Hh'). exists k1. split_and!; [done|done|]. intros Hh2. destruct (Hh' Hh2). by split.
Qed.

Lemma kill_live f xs t : f ∈ live_subs (kill_subs xs t) → f ∈ live_subs t ∧ f ∉ xs.
Proof.
  unfold live_subs. intros (u & -> & [Hl Hu]%list_elem_of_filter)%list_elem_of_fmap. cbn in Hu. apply list_elem_of_fmap in Hu as (u0 & -> & Hu0).
  case_bool_decide as Hin; cbn in *; [done|]. split; [|done]. by apply list_elem_of_fmap_2, list_elem_of_filter.
Qed.

Lemma without_subxids_xmin l p : proc_xmin (without_subxids l p) = proc_xmin p.
Proof.
  revert p. induction l as [|y l IH]; intros p; [done|]. change (proc_xmin (without_subxids l (without_subxid y p)) = proc_xmin p).
  rewrite IH. unfold without_subxid. by destruct (find_last _ _ _).
Qed.

Lemma inv_remove_subs base s n k t x xs pa' : inv base s → xactCompletionCount (s_pa s) + 1 < 2 ^ 64 → exclusive s → s_trees s !! k = Some t →
  x_phase t = AbortingSubs (x :: xs) [] → x_holders t = [n] →
  XidCacheRemoveRunningXids n (u32 x) (u32 <$> xs) (TransactionIdLatest (u32 x) (u32 <$> xs)) (s_pa s) = (pa', Ok tt) →
  preserves base s (set_tree k (set_phase Running (kill_subs (x :: xs) t)) (set_pa pa' s)).
Proof.
  intros Hi Hbig Hex Hk Hph Hh Hrun. pose proof (list_elem_of_lookup_2 _ _ _ Hk) as Htin. assert (n ∈ x_holders t) as Hn by (rewrite Hh; by left).
  destruct (co_wf _ _ (iv_core _ _ Hi)) as (ps & Ht & Hall). destruct (holder_shown base s Hi t n Htin Hn) as (v & Hv & Hsh).
  destruct (view_pos _ _ _ _ Ht Hv) as (i & p & Hpos & ->). pose proof (proj1 (Forall_lookup _ _) (tr_ok _ _ Ht) i p (proj2 Hpos)) as Hok.
  rewrite (remove_running_run _ _ n i p _ _ _ Ht Hpos Hok) in Hrun. injection Hrun as <-. set (l := reverse (u32 <$> xs) ++ [u32 x]).
  destruct (without_subxids_ok l p Hok) as (Hok' & Hoff & Hx' & Hfl' & Hov').
  pose proof (without_subxids_xmin l p) as Hxm'.
  pose proof (store_changed _ _ n i p _ Ht Hall Hpos Hoff Hok') as Hch. set (pa1 := store _ _ _ _) in *.
  pose proof (co_trees _ _ (iv_core _ _ Hi) t Htin) as [K1 K2 K3 K4 K5 K6 K7 K8]. unfold phase_ok in K8. rewrite Hph in K8. destruct K8 as (Hsub & [_ Hst] & Hrest).
  assert (Forall (λ f, in_window base f ∧ f < limit s) (x :: xs)) as Hb.
  { apply list.Forall_forall. intros f Hf. apply (co_window _ _ (iv_core _ _ Hi) t f Htin). right. by apply live_subs_all, Hsub. }
  destruct (latest_moves base s pa1 x xs Hi eq_refl Hb) as (M1 & M2 & M3 & M4). set (L := TransactionIdLatest _ _) in *.
  destruct (latest_after_fields L pa1) as (F1 & F2 & F3). set (pa2 := latest_after _ pa1) in *.
  assert (changed n (shows (without_subxids l p)) (s_pa s) (counted pa2)) as [_ Hwf Hcv].
  { eapply changed_global; [exact Hch|done|done|]. apply wf_counted, wf_latest, Hch. }
  set (g := λ u, if bool_decide (sub_id u ∈ x :: xs) then mkSub (sub_id u) (sub_parent u) (sub_linked u) false else u).
  assert (∀ u, sub_id (g u) = sub_id u ∧ sub_parent (g u) = sub_parent u) as Hg by (intros u; unfold g; by destruct (bool_decide _)).
  assert (x_all (kill_subs (x :: xs) t) = x_all t) as Hall' by exact (map_subs_all g Hg t).
  replace (set_tree k _ _) with (set_snaps (s_snaps s) (set_tree k (set_phase Running (kill_subs (x :: xs) t)) (set_pa (counted pa2) s))) by done.
  eapply (inv_complete base s k t _ n); [done|done|done|done| |done| |by eapply others_not_holding| | | |done|done|done| | |].
  - split; [done|done|by rewrite <- Hall'| |unfold ended; by rewrite Hph|by left]. intros f Hf. left. by apply (kill_live f (x :: xs)).
  - intros m Hne. by rewrite Hcv, decide_False.
  - split; cbn [x_top x_subs set_phase kill_subs map_subs x_holders]; [by rewrite <- Hall' in K1|by apply (map_subs_parents g Hg t K2); intros u; unfold g; destruct (bool_decide _)|done| | | | |].
    + intros u (u0 & -> & Hu0)%list_elem_of_fmap. destruct (bool_decide _); cbn; by apply K4.
    + intros u (u0 & -> & Hu0)%list_elem_of_fmap. case_bool_decide as Hin; cbn; [intros _; by apply Hst|by apply K5].
    + unfold shape_ok. cbn. left. by exists n.
    + rewrite Hh. intros m ->%list_elem_of_singleton. eexists. split; [by rewrite Hcv, decide_True|]. destruct Hsh as (S1 & S2 & S3 & S4).
      split_and!; [cbn; by rewrite Hx'|cbn; unfold proc_flagged; by rewrite Hfl'| |].
      * intros y Hy. apply (proj1 (without_subxids_in l p y Hok)), S3 in Hy. by rewrite <- (map_subs_ids g Hg t) in Hy.
      * intros Ho f [Hf Hnf]%(kill_live f (x :: xs)). cbn in Ho |- *. rewrite Hov' in Ho. apply (proj2 (without_subxids_in l p _ Hok)); [by apply S4|].
        intros Hin. apply Hnf. assert (u32 f ∈ u32 <$> (x :: xs)) as Hin'.
        { unfold l in Hin. rewrite elem_of_app, elem_of_reverse, list_elem_of_singleton in Hin. rewrite fmap_cons, elem_of_cons. tauto. }
        apply list_elem_of_fmap in Hin' as (y & He & Hy). rewrite list.Forall_forall in Hb. replace f with y; [done|]. apply (window_inj base); [by apply Hb| |done].
        apply (member_window base s Hi t); [done|]. right. by apply live_subs_all.
    + intros f [->|[Hf Hnf]%(kill_live f (x :: xs))]%elem_of_cons; [|apply Hrest; [by right|done]]. apply Hrest; [by left|]. intros Hin%Hsub%live_subs_all.
      apply sorted_nodup, list.NoDup_cons in K1 as [K1 _]. by apply K1.
  - intros w. rewrite Hcv, decide_True by done. intros [= <-]. split; [intros _; split; [cbn; by rewrite Hh; left|done]|].
    intros Hne. exists (shows p). split; [done|]. exact Hxm'.
  - intros m Hne Hm. cbn. done.
  - left. cbn. pose proof (iv_count _ _ Hi). rewrite u64_small; rewrite F3; cbn; lia.
  - intros q Hq. eapply holder_not_pending; [done|done|done|left; by rewrite Hph|done].
  - intros k1 Hk1. exists k1. split_and!; [done|apply same_taken_refl|]. intros Hhk. split; [done|]. intros _ w Hw. eexists. split; [by rewrite Hcv, decide_True|].
    assert (w = shows p) as -> by congruence. split; [exact Hxm'|cbn; unfold proc_flagged; by rewrite Hfl'].
Qed.

(** ** Prepared transactions *)

Lemma dummy_shows t : x_flagged t = false → proc_shows t (shows (dummy_proc (u32 (x_top t)) (u32 <$> live_subs t))).
Proof.
  intros Hf. split_and!; cbn [shows sh_xid sh_flagged sh_over sh_subs].
  - done.
  - by rewrite Hf.
  - rewrite dummy_cached. intros y (i & Hy & _)%elem_of_take. apply list_elem_of_lookup_2 in Hy. apply list_elem_of_fmap in Hy as (f & -> & Hf').
    by apply list_elem_of_fmap_2, live_subs_all.
  - cbn [overflowed subxidStatus dummy_proc]. rewrite length_fmap. intros Ho%Nat.ltb_ge f Hf'. rewrite dummy_cached, take_ge by (rewrite length_fmap; lia). by apply list_elem_of_fmap_2.
Qed.

Lemma inv_prepare base s n d k t pa' : inv base s → exclusive s → s_pending s = None → working s k n t → x_flagged t = false →
  d ∉ pgprocnos (s_pa s) → (d < length (allProcs (s_pa s)))%nat →
  pa_run (OpPrepare n d (u32 (x_top t)) (u32 <$> live_subs t)) (s_pa s) = (pa', Ok tt) →
  preserves base s (set_tree k (set_holders [n; d] true t) (set_pa pa' s)).
Proof.
  intros Hi Hex Hpend (Hk & Hph & Hpr & Hh & Hid) Hfl Hd Hlt Hrun. pose proof (list_elem_of_lookup_2 _ _ _ Hk) as Htin.
  assert (n ∈ x_holders t) as Hn by (rewrite Hh; by left). destruct (co_wf _ _ (iv_core _ _ Hi)) as (ps & Ht & Hall). cbn [pa_run] in Hrun.
  erewrite bind_ok in Hrun by (by apply dummy_run). unfold MarkAsPrepared in Hrun. set (q := dummy_proc _ _) in *. set (pa1 := set_allProcs _ _) in Hrun.
  assert (tracks pa1 ps) as Ht1 by (by apply outside_tracks). destruct (window_normal base _ (top_window base s Hi t Htin)) as [Hx _].
  assert (proc_ok q) as Hok by (by apply dummy_ok).
  assert (numProcs pa1 < maxProcs pa1)%nat as Hroom.
  { destruct (decide (maxProcs pa1 ≤ numProcs pa1)%nat) as [Hf|]; [|lia]. unfold ProcArrayAdd in Hrun. rewrite get_run, (proj2 (Nat.leb_le _ _) Hf) in Hrun. done. }
  destruct (add_run pa1 ps Ht1 d q) as (pa2 & Hrun2 & Ht2 & Hns & Hlat & Hcnt & Hout); [done|by apply list_lookup_insert_eq|done|done|].
  rewrite Hrun2 in Hrun. injection Hrun as <-. cbn in Hlat, Hcnt.
  assert (∀ m, view pa2 m = if decide (m = d) then Some (shows q) else view (s_pa s) m) as Hview.
  { intros m. rewrite (view_added pa1 ps pa2 d _ _ Ht1 Hd Ht2 Hns). destruct (decide (m = d)); [done|]. unfold view. cbn. by rewrite list_lookup_insert_ne. }
  destruct (holder_shown base s Hi t n Htin Hn) as (v & Hv & Hsh). assert (n ≠ d) as Hnd by (intros ->; by apply Hd, (view_in _ _ v)).
  destruct (iv_latest _ _ Hi) as [L1 L2]. set (t' := set_holders [n; d] true t). assert (ended t' = false) as He' by (unfold ended; cbn; by rewrite Hph).
  pose proof (co_trees _ _ (iv_core _ _ Hi) t Htin) as [K1 K2 K3 K4 K5 K6 K7 K8].
  replace (set_tree k _ _) with (set_snaps (s_snaps s) (set_tree k t' (set_pa pa2 s))) by done.
  eapply (inv_complete base s k t _ d); [done|done|done|done| | | | | | | |by rewrite Hlat|rewrite Hlat; lia|by rewrite Hlat|right; split; [done|]|by rewrite Hpend|].
  - split; [done|done|done|by left|unfold ended; by rewrite Hph|by right].
  - eapply (wf_moved pa1); [|exact Ht2|exact Hout]. by apply Forall_insert.
  - intros m Hne. by rewrite Hview, decide_False.
  - intros j u _ Hj. eapply (not_member_no_holder base s Hi); [done|by eapply list_elem_of_lookup_2].
  - rewrite Hlat. split; [done..| | |].
    + unfold shape_ok. cbn. rewrite Hph. right. split; [done|]. by exists n, d.
    + cbn. intros m [->|Hm]%elem_of_cons; [exists v; split; [by rewrite Hview, decide_False|done]|]. apply list_elem_of_singleton in Hm as ->.
      eexists. split; [by rewrite Hview, decide_True|]. by apply dummy_shows.
    + unfold phase_ok in *. cbn. rewrite Hph in *. exact K8.
  - intros w. rewrite Hview, decide_True by done. intros [= <-]. split; [intros _; split; [by right; left|done]|]. by intros [].
  - intros m Hne. rewrite Hh. intros ->%list_elem_of_singleton. split; [by left|done].
  - split; [by rewrite Hlat| |].
    + intros u Hu He. apply (elem_of_insert _ _ _ t) in Hu as [->|(j & _ & Hj)]; [congruence| |done]. by eapply list_elem_of_lookup_2.
    + intros u Hu He. apply list_elem_of_lookup in Hu as [j Hj]. destruct (decide (j = k)) as [->|Hne].
      * assert (u = t) as -> by congruence. exists t'. split_and!; [by eapply insert_elem_of|done..|]. rewrite Hh. intros m ->%list_elem_of_singleton. by left.
      * exists u. split_and!; [by eapply insert_other|done..].
  - intros k1 Hk1. exists k1. split_and!; [done|apply same_taken_refl|]. intros Hhk. split; [done|]. intros _ w Hw%view_in. done.
Qed.

Lemma inv_clear base s n d k t pa' : inv base s → xactCompletionCount (s_pa s) + 1 < 2 ^ 64 → exclusive s → s_trees s !! k = Some t → x_holders t = [n; d] →
  ProcArrayClearTransaction n (s_pa s) = (pa', Ok tt) → preserves base s (end_snaps n (set_tree k (set_holders [d] true t) (set_pa pa' s))).
Proof.
  intros Hi Hbig Hex Hk Hh Hrun. pose proof (list_elem_of_lookup_2 _ _ _ Hk) as Htin. assert (n ∈ x_holders t) as Hn by (rewrite Hh; by left).
  pose proof (co_trees _ _ (iv_core _ _ Hi) t Htin) as [K1 K2 K3 K4 K5 K6 K7 K8].
  assert (x_phase t = Running ∧ x_prepared t = true ∧ n ≠ d) as (Hph & Hpr & Hnd).
  { unfold shape_ok in K6. rewrite Hh in K6. destruct (x_phase t).
    - destruct K6 as [(m & ?)|(? & n' & d' & [= <- <-] & ?)]; [done|done].
    - by destruct K6 as [(m & ?) _].
    - by destruct K6 as (m & ?).
    - done. }
  destruct (co_wf _ _ (iv_core _ _ Hi)) as (ps & Ht & Hall). destruct (holder_shown base s Hi t n Htin Hn) as (v & Hv & Hsh).
  destruct (view_pos _ _ _ _ Ht Hv) as (i & p & Hpos & ->). pose proof (proj1 (Forall_lookup _ _) (tr_ok _ _ Ht) i p (proj2 Hpos)) as (Ho1 & Ho2 & Ho3).
  rewrite (clear_run _ _ Ht n i p Hpos) in Hrun. injection Hrun as <-.
  assert (proc_ok (cleared_proc p)) as Hok' by (split_and!; cbn; [done|lia|done]).
  pose proof (store_changed _ _ n i p (cleared_proc p) Ht Hall Hpos eq_refl Hok') as Hch. set (pa1 := store _ _ _ _) in *.
  assert (changed n (shows (cleared_proc p)) (s_pa s) (counted pa1)) as [_ Hwf Hcv] by (eapply changed_global; [exact Hch|done|done|apply wf_counted, Hch]).
  destruct (iv_latest _ _ Hi) as [L1 L2]. assert (ended (set_holders [d] true t) = false) as He' by (unfold ended; cbn; by rewrite Hph).
  eapply (inv_complete base s k t _ n); [done|done|done|done| |done| |by eapply others_not_holding| | | |done|cbn; lia|done| | |].
  - split; [done|done|done|by left|unfold ended; by rewrite Hph|]. cbn. rewrite Hh. intros m Hm. left. by right.
  - intros m Hne. by rewrite Hcv, decide_False.
  - split; [done..| | |].
    + unfold shape_ok. cbn. rewrite Hph. left. by exists d.
    + cbn. intros m ->%list_elem_of_singleton. destruct (K7 d) as (w & Hw & Hws); [rewrite Hh; by right; left|]. exists w. split; [by rewrite Hcv, decide_False|done].
    + unfold phase_ok in *. cbn. rewrite Hph in *. exact K8.
  - intros w. rewrite Hcv, decide_True by done. intros [= <-]. done.
  - intros m Hne. rewrite Hh, !elem_of_cons. intros [?|[->|Hm]]; [done|split; [by left|done]|by apply elem_of_nil in Hm].
  - left. cbn. pose proof (iv_count _ _ Hi). rewrite u64_small; lia.
  - intros q Hq. eapply holder_not_pending; [done|done|done|by right|done].
  - intros k' Hk'. cbn in Hk'. destruct (end_snaps_same n _ k' Hk') as (k1 & Hk1 & Hs & Hh'). exists k1. split_and!; [done|done|]. intros Hh2. destruct (Hh' Hh2). by split.
Qed.
