(* ===== verification/SnapshotScan.v ===== *)
(** * Taking a snapshot step by step

    The steps of [GetSnapshotData] and its reuse of a snapshot preserve the
    invariant of [SnapshotInv], while other backends get ids and write the logs
    between them. *)
From stdpp Require Import base tactics list gmap strings numbers sorting.
From Stdlib Require Import ZArith Lia Bool.
From S2P Require Import Prelude Visibility Clog XidGen ProcArray SnapshotSys SnapshotInv.

Lemma inv_set_readers base s rs : inv base s → (∀ r, r ∈ rs → ∃ X m, reader_ok base (s_pa s) (s_trees s) r X m) → preserves base s (set_readers rs s).
Proof. 
  intros [[C1 C2 C3 C4 C5 C6 C7 C8] H1 H2 H3 H4 H5 H6] Hr. split; [|cbn; lia|apply carries_snaps; [done|apply evolved_refl, _|done|apply same_xmins_refl]].
  split; [split; try done|done|done|done|done|done|done]. intros p Hp. by destruct (C4 p Hp).
Qed.

Section scan.
Context (base : Z) (s : sys) (Hi : inv base s) (ps : list PGPROC) (Ht : tracks (s_pa s) ps).

(** What a process in the array shows is its transaction. *)
Lemma shown_tree n i p : at_pos (s_pa s) ps n i p → proc_xid p ≠ InvalidTransactionId →
  ∃ t, t ∈ s_trees s ∧ ended t = false ∧ n ∈ x_holders t ∧ proc_shows t (shows p).
Proof.
  intros Hpos Hx. pose proof (view_at _ _ _ _ _ Ht Hpos) as Hv. destruct (co_holds _ _ (iv_core _ _ Hi) n _ Hv Hx) as (t & Htt & He & Hn).
  exists t. split_and!; [done..|]. destruct (holder_shown base s Hi t n Htt Hn) as (v & Hv' & Hs). by assert (v = shows p) as -> by congruence.
Qed.

Lemma holder_pos n i p t : at_pos (s_pa s) ps n i p → t ∈ s_trees s → n ∈ x_holders t → proc_shows t (shows p).
Proof.
  intros Hpos Htt Hn. destruct (holder_shown base s Hi t n Htt Hn) as (v & Hv & Hs). pose proof (view_at _ _ _ _ _ Ht Hpos) as Hv'.
  by assert (v = shows p) as -> by congruence.
Qed.

(** A transaction that had ended at the start has not come back. *)
Lemma running_not_ended r X m t : reader_ok base (s_pa s) (s_trees s) r X m → t ∈ s_trees s → ended t = false → x_top t ∉ ended_tops (r_start r).
Proof.
  intros Hr Htt He (t0 & Ht0 & He0 & Htop)%ended_tops_in. apply (rk_start _ _ _ _ _ _ Hr t0 He0) in Ht0.
  assert (t0 = t) as -> by (by apply (top_unique base s Hi)). congruence.
Qed.

Lemma ended_in_start r X m t : reader_ok base (s_pa s) (s_trees s) r X m → t ∈ s_trees s → x_top t ∉ ended_tops (r_start r) → ended t = false.
Proof.
  intros Hr Htt Hne. destruct (ended t) eqn:He; [|done]. destruct Hne. apply ended_tops_in. exists t. split_and!; [|done|done].
  by apply (rk_start _ _ _ _ _ _ Hr t He).
Qed.

Lemma start_ok n i p off xmax sc : at_pos (s_pa s) ps n i p → scan_start n (s_pa s) = (s_pa s, Ok (off, xmax, sc)) →
  ∃ X m, reader_ok base (s_pa s) (s_trees s) (mkReader n off xmax 0 false sc (xactCompletionCount (s_pa s)) (s_trees s) (held_by (s_trees s) n)) X m.
Proof.
  intros Hpos Hrun. rewrite (scan_start_run _ _ Ht n i p Hpos) in Hrun. unfold XidFromFullTransactionId in Hrun.
  destruct (advance_window base s Hi) as (Hw & Hlt & Hadv). rewrite Hadv in Hrun. set (X := FullTransactionIdAdvance (latestCompletedXid (s_pa s))) in *.
  injection Hrun as <- <- <-.
  assert (∃ m, (if TransactionIdIsNormal (proc_xid p) && NormalTransactionIdPrecedes (proc_xid p) (u32 X) then proc_xid p else u32 X) = u32 m ∧
    in_window base m ∧ m ≤ X ∧ xmin_shown (s_trees s) n X m ∧ ∀ t, t ∈ s_trees s → n ∈ x_holders t → m ≤ x_top t) as (m & Hm & Hmw & HmX & Hsh & Hmine).
  { destruct (decide (proc_xid p = InvalidTransactionId)) as [He|Hne].
    - exists X. rewrite He. split_and!; [done|done|done|by left|]. intros t Htt Hn. destruct (holder_pos n i p t Hpos Htt Hn) as [Hx _]. cbn in Hx.
      rewrite He in Hx. by destruct (window_normal base _ (top_window base s Hi t Htt)) as [[] _].
    - destruct (shown_tree n i p Hpos Hne) as (t & Htt & He & Hn & [Hx _]). cbn in Hx. pose proof (top_window base s Hi t Htt) as Htw.
      assert (∀ u, u ∈ s_trees s → n ∈ x_holders u → u = t) as Huniq by (intros u Hu Hnu; by apply (holder_unique base s Hi u t n)).
      rewrite Hx, (proj1 (proj2 (window_normal base _ Htw))), (normal_precedes base _ _ Htw Hw). cbn [andb]. destruct (Z.ltb_spec (x_top t) X) as [Hlt'|Hge].
      + exists (x_top t). split_and!; [done|done|lia|right; exists t; by split_and!; [..|right|]|]. intros u Hu Hnu. by rewrite (Huniq u Hu Hnu).
      + exists X. split_and!; [done|done|done|by left|]. intros u Hu Hnu. by rewrite (Huniq u Hu Hnu). }
  exists X, m. split; cbn; [done| |by destruct Hpos|lia|done|done| | |split; intros y Hy; by apply elem_of_nil in Hy|lia|done].
  - split_and!; [done|exact Hm|done|done].
  - intros x Hx. by apply held_by_holds.
  - intros t Htt He Hn. split; [by apply Hmine|left]. apply (holds_held_by base s Hi). by exists t.
Qed.

Lemma seen_grow X m m' xs xs' ys ys' o o' t : m' ≤ m → xs ⊆ xs' → ys ⊆ ys' → (o = true → o' = true) → seen X m xs ys o t → seen X m' xs' ys' o' t.
Proof.
  intros Hm Hxs Hys Ho Hs Hlt. destruct (Hs Hlt) as (H1 & H2 & H3). split_and!; [by apply Hxs|lia|]. intros f Hf HfX.
  destruct (H3 f Hf HfX) as [?|?]; [left; by apply Ho|right; by apply Hys].
Qed.

(** An entry that is passed without being listed. *)
Lemma pass_ok r X m n : reader_ok base (s_pa s) (s_trees s) r X m → r_more r = false → pgprocnos (s_pa s) !! r_pos r = Some n →
  (∀ t, t ∈ s_trees s → ended t = false → n ∈ x_holders t → x_flagged t = false → r_pos r ≠ r_off r → X ≤ x_top t) →
  reader_ok base (s_pa s) (s_trees s) (move_reader (S (r_pos r)) false (r_scan r) r) X m.
Proof.
  intros [H1 H2 H3 H4 H5 H6 H7 H8 H9 H10 H11] Hm Hn Hskip. split; cbn; [done|done|done| |done|done|done|done|done| |done].
  - apply lookup_lt_Some in Hn. unfold numProcs. lia.
  - intros j n' t Hj Hjn Htt He Hin Hfl Hoff. destruct (decide (j = r_pos r)) as [->|Hne].
    + assert (n' = n) as -> by congruence. intros Hlt. specialize (Hskip t Htt He Hin Hfl Hoff). lia.
    + apply (H10 j n' t); [lia|done..].
Qed.

(** An entry that is listed. *)
Lemma list_ok r X m n t : reader_ok base (s_pa s) (s_trees s) r X m → pgprocnos (s_pa s) !! r_pos r = Some n → t ∈ s_trees s → ended t = false →
  n ∈ x_holders t → x_flagged t = false → x_top t < X →
  let sc := r_scan r in
  let sc' := mkScan (if x_top t <? m then u32 (x_top t) else sc_xmin sc) (sc_xip sc ++ [u32 (x_top t)]) (sc_subxip sc) (sc_suboverflowed sc) in
  reader_ok base (s_pa s) (s_trees s) (move_reader (r_pos r) true sc' r) X (Z.min m (x_top t)).
Proof.
  intros Hr Hn Htt He Hin Hfl Hlt sc sc'. pose proof (running_not_ended r X m t Hr Htt He) as Hne. destruct Hr as [H1 H2 H3 H4 H5 H6 H7 H8 H9 H10 H11].
  destruct H2 as (H2a & H2b & H2c & H2d). split; cbn; [done| |done|done|done|done|done| | | |].
  - destruct (Z.ltb_spec (x_top t) m) as [Hm|Hm].
    + rewrite Z.min_r by lia. split_and!; [by apply (top_window base s Hi)|done|lia|]. right. exists t. split_and!; [done|done|by left|done].
    + rewrite Z.min_l by lia. done.
  - intros u Hu Hue Hun. destruct (H8 u Hu Hue Hun) as [? ?]. split; [lia|done].
  - destruct H9 as [L1 L2]. split; [|done]. intros y [Hy|Hy]%elem_of_app; [by apply L1|]. apply list_elem_of_singleton in Hy as ->. by exists t.
  - intros j n' u Hj Hjn Hu Hue Hun Hufl Hoff. eapply seen_grow; [| | |done|by apply (H10 j n' u)]; [lia|by apply list_subseteq_app_l|done].
  - intros _. exists n, t. split_and!; [done..| |lia]. apply elem_of_app. right. by left.
Qed.

Lemma scan_xid_ok r X m n p sc more : reader_ok base (s_pa s) (s_trees s) r X m → r_more r = false → at_pos (s_pa s) ps n (r_pos r) p →
  seen_xid (r_pos r) p (r_off r) (r_xmax r) (r_scan r) = (sc, more) →
  ∃ X m, reader_ok base (s_pa s) (s_trees s) (move_reader (if more then r_pos r else S (r_pos r)) more sc r) X m.
Proof.
  intros Hr Hm Hpos Hseen. pose proof (rk_xmax _ _ _ _ _ _ Hr) as (HXw & HX & _). pose proof (rk_xmin _ _ _ _ _ _ Hr) as (Hmw & Hmx & _).
  unfold seen_xid in Hseen. rewrite HX in Hseen.
  assert (∀ t, t ∈ s_trees s → n ∈ x_holders t → proc_shows t (shows p)) as Hsh by (intros t Htt Hin; by apply (holder_pos n (r_pos r))).
  destruct (Z.eqb_spec (proc_xid p) InvalidTransactionId) as [Hx|Hx].
  { injection Hseen as <- <-. exists X, m. eapply pass_ok; [done|done|apply Hpos|]. intros t Htt _ Hin _ _. destruct (Hsh t Htt Hin) as [Hxt _]. cbn in Hxt.
    rewrite Hx in Hxt. by destruct (window_normal base _ (top_window base s Hi t Htt)) as [[] _]. }
  destruct (Nat.eqb_spec (r_pos r) (r_off r)) as [Hoff|Hoff]; [injection Hseen as <- <-; exists X, m; by eapply pass_ok; [..|apply Hpos|]|].
  destruct (shown_tree n (r_pos r) p Hpos Hx) as (t & Htt & He & Hin & (Hxt & Hfl & _)). cbn in Hxt, Hfl. pose proof (top_window base s Hi t Htt) as Htw.
  assert (∀ u, u ∈ s_trees s → n ∈ x_holders u → u = t) as Huniq by (intros u Hu Hnu; by apply (holder_unique base s Hi u t n)).
  rewrite Hxt, (normal_precedes base _ _ Htw HXw) in Hseen. destruct (Z.ltb_spec (x_top t) X) as [Hlt|Hge]; cbn [negb] in Hseen.
  2:{ injection Hseen as <- <-. exists X, m. eapply pass_ok; [done|done|apply Hpos|]. intros u Hu _ Hnu _ _. by rewrite (Huniq u Hu Hnu). }
  unfold proc_flagged in Hfl. rewrite Hfl in Hseen. destruct (x_flagged t) eqn:Hf.
  { injection Hseen as <- <-. exists X, m. eapply pass_ok; [done|done|apply Hpos|]. intros u Hu _ Hnu Hfu _. rewrite (Huniq u Hu Hnu) in Hfu. congruence. }
  rewrite Hmx, (normal_precedes base _ _ Htw Hmw), <- Hmx in Hseen. injection Hseen as <- <-. exists X, (Z.min m (x_top t)). eapply list_ok; [done|apply Hpos|done..].
Qed.

Lemma scan_subxids_ok r X m n p : reader_ok base (s_pa s) (s_trees s) r X m → r_more r = true → at_pos (s_pa s) ps n (r_pos r) p →
  reader_ok base (s_pa s) (s_trees s) (move_reader (S (r_pos r)) false (seen_subxids p (r_scan r)) r) X m.
Proof.
  intros Hr Hmore Hpos. destruct (rk_more _ _ _ _ _ _ Hr Hmore) as (n' & t & Hn' & Htt & He & Hin & Htop & Hle). destruct (Hpos) as [Hn _].
  assert (n' = n) as -> by congruence. destruct (holder_pos n (r_pos r) p t Hpos Htt Hin) as (_ & _ & Hsub & Hall). cbn in Hsub, Hall.
  pose proof (running_not_ended r X m t Hr Htt He) as Hne. destruct Hr as [H1 H2 H3 H4 H5 H6 H7 H8 H9 H10 H11]. set (sc := r_scan r) in *.
  assert (sc_xmin (seen_subxids p sc) = sc_xmin sc ∧ sc_xip (seen_subxids p sc) = sc_xip sc) as [E1 E2]
    by (unfold seen_subxids; by destruct (sc_suboverflowed sc), (overflowed (subxidStatus p))).
  assert (sc_subxip sc ⊆ sc_subxip (seen_subxids p sc) ∧ (sc_suboverflowed sc = true → sc_suboverflowed (seen_subxids p sc) = true) ∧
    (∀ y, y ∈ sc_subxip (seen_subxids p sc) → y ∈ sc_subxip sc ∨ y ∈ cached p) ∧
    (sc_suboverflowed (seen_subxids p sc) = true ∨ overflowed (subxidStatus p) = false ∧ cached p ⊆ sc_subxip (seen_subxids p sc))) as (S1 & S2 & S3 & S4).
  { unfold seen_subxids. destruct (sc_suboverflowed sc) eqn:Ho; [split_and!; [done|done|by left|left; congruence]|]. destruct (overflowed (subxidStatus p)).
    - cbn. split_and!; [done|done|by left|by left].
    - cbn. split_and!; [by apply list_subseteq_app_l|done|by intros y Hy%elem_of_app|right; split; [done|by apply list_subseteq_app_r]]. }
  split; cbn; rewrite ?E1, ?E2; [done|done|done| |done|done|done|done| | |done].
  - apply lookup_lt_Some in Hn. unfold numProcs. lia.
  - destruct H9 as [L1 L2]. split; [done|]. intros y Hy. destruct (S3 y Hy) as [?|Hc]; [by apply L2|]. exists t. split_and!; [done|done|].
    unfold x_all. rewrite fmap_cons. right. by apply Hsub.
  - intros j n' u Hj Hjn Hu Hue Hun Hufl Hoff. destruct (decide (j = r_pos r)) as [->|Hj'].
    + assert (n' = n) as -> by congruence. assert (u = t) as -> by (by apply (holder_unique base s Hi u t n)). intros Hlt. split_and!; [done|done|].
      intros f Hf HfX. destruct S4 as [?|[Ho Hc]]; [by left|right]. by apply Hc, Hall.
    + eapply seen_grow; [apply Z.le_refl|done|exact S1|exact S2|apply (H10 j n' u); [lia|done..]].
Qed.
End scan.

(** ** The [xmin] of a process *)

(** The bounds that a process may show. *)
Definition may_show (base : Z) (s : sys) (n : nat) (M : Z) : Prop :=
  in_window base M ∧ M ≤ FullTransactionIdAdvance (latestCompletedXid (s_pa s)) ∧
  ∀ t, t ∈ s_trees s → ended t = false → x_flagged t = false ∨ n ∈ x_holders t → M ≤ x_top t.

Section xmin.
Context (base : Z) (s : sys) (Hi : inv base s) (ps : list PGPROC) (Ht : tracks (s_pa s) ps) (n i : nat) (p : PGPROC) (Hpos : at_pos (s_pa s) ps n i p).

Definition with_xmin (x : Z) : procs := store n i (set_proc_xmin x p) (s_pa s).

Lemma with_xmin_same : with_xmin (proc_xmin p) = s_pa s.
Proof.
  unfold with_xmin. replace (set_proc_xmin (proc_xmin p) p) with p by (by destruct p). rewrite <- store_put4.
  apply (put4_same _ _ Ht n i p Hpos).
Qed.

Lemma with_xmin_changed x : changed n (shows (set_proc_xmin x p)) (s_pa s) (with_xmin x).
Proof.
  destruct (co_wf _ _ (iv_core _ _ Hi)) as (ps' & Ht' & Hall). eapply store_changed; [exact Ht|done|done|done|].
  exact (proj1 (Forall_lookup _ _) (tr_ok _ _ Ht) i p (proj2 Hpos)).
Qed.

Lemma with_xmin_view x m v : view (s_pa s) m = Some v → ∃ v', view (with_xmin x) m = Some v' ∧ same_shown v v' ∧ (m ≠ n → v' = v) ∧ (m = n → sh_xmin v' = x).
Proof.
  intros Hv. rewrite (ch_view _ _ _ _ (with_xmin_changed x)). destruct (decide (m = n)) as [->|Hne]; [|by exists v].
  rewrite (view_at _ _ _ _ _ Ht Hpos) in Hv. injection Hv as <-. eexists. by split_and!.
Qed.

Lemma taken_with_xmin x k X m : taken_ok base (s_pa s) (s_trees s) k X m →
  (k_held k = true → k_proc k = n → ∃ M, x = u32 M ∧ in_window base M ∧ M ≤ m) → taken_ok base (with_xmin x) (s_trees s) k X m.
Proof.
  intros Hk Hx. eapply (taken_calm _ _ _ (limit s)); [exact Hk|apply evolved_refl, _|by eapply taken_bound|done|done|].
  intros Hh. destruct (ak_held _ _ _ _ _ _ Hk Hh) as (v & M & Hv & HM & Hw & Hle). destruct (with_xmin_view x _ v Hv) as (v' & Hv' & _ & Hne & Heq).
  destruct (decide (k_proc k = n)) as [He|Hn].
  - destruct (Hx Hh He) as (M' & HM' & ?). exists v', M'. split_and!; [done|by rewrite Heq|tauto..].
  - rewrite (Hne Hn) in Hv'. by exists v, M.
Qed.

Lemma inv_with_xmin x g ks rs : (x ≠ InvalidTransactionId → TransactionXmin g = x ∧ ∃ M, x = u32 M ∧ may_show base s n M) → rs ⊆ s_readers s →
  (∀ k, k ∈ ks → ∃ X m, taken_ok base (with_xmin x) (s_trees s) k X m) →
  (∀ k, k ∈ ks → (k_proc k = n → RecentXmin g = RecentXmin (s_xmins s n) ∨ ∃ R, RecentXmin g = u32 R ∧ may_show base s n R) ∧
    (k ∈ s_snaps s ∨ (k_proc k = n ∧ ∃ R, RecentXmin g = u32 R ∧ may_show base s n R) ∧ new_snap s k)) →
  preserves base s (set_xmins n g (set_snaps ks (set_readers rs (set_pa (with_xmin x) s)))).
Proof.
  intros Hx Hrs Hks Hrec. destruct (with_xmin_changed x) as [_ Hwf Hcv]. destruct (iv_core _ _ Hi) as [C1 C2 C3 C4 C5 C6 C7 C8].
  split; [|cbn; lia|].
  2:{ split; [done|apply evolved_refl, _|]. cbn. intros k Hk Hh. destruct (Hrec k Hk) as [_ Hor]. split; [|by destruct Hor as [?|[_ ?]]; [left; exists k|right]].
      intros v Hv. destruct (with_xmin_view x _ v Hv) as (v' & Hv' & (_ & Hs & _) & _). exists v'. split; [done|congruence]. }
  split; cbn; [split; cbn; [done|done|done| |done|done| |]|apply (iv_latest _ _ Hi)| |apply (iv_count _ _ Hi)| |done|].
  - intros q Hq. destruct (C4 q Hq) as [P1 P2 P3 P4]. split; [done|done|done|]. cbn. destruct (pd_parent q) as [[]|]; [done|]. destruct P4 as (v & Hv & Hvx).
    destruct (with_xmin_view x _ v Hv) as (v' & Hv' & (Hs & _) & _). exists v'. split; [done|congruence].
  - intros t Htt. eapply tree_ok_frame; [by apply C7|done|done| |done]. intros m v _ Hv. destruct (with_xmin_view x _ v Hv) as (v' & Hv' & Hs & _). by exists v'.
  - intros m v' Hv' Hne. rewrite Hcv in Hv'. destruct (decide (m = n)) as [->|Hmn]; [|by apply (C8 m v')]. injection Hv' as <-.
    apply (C8 n (shows p)); [by apply (view_at _ ps n i)|done].
  - intros m v' Hv' Hne. rewrite Hcv in Hv'. destruct (decide (m = n)) as [->|Hmn].
    + injection Hv' as <-. cbn in Hne |- *. destruct (Hx Hne) as (Hg & M & HM & Hw & Hle & Hall). split; [done|]. by exists M.
    + by apply (iv_xmins _ _ Hi m v').
  - intros r Hr. destruct (iv_readers _ _ Hi r (Hrs r Hr)) as (X & m & Hok). exists X, m. eapply (reader_calm _ _ _ (limit s)); [exact Hok|apply evolved_refl, _| |done|done|done].
    destruct (rk_xmax _ _ _ _ _ _ Hok) as (_ & _ & ->). apply (iv_latest _ _ Hi).
  - assert (∀ R, may_show base s n R → recent_ok base (FullTransactionIdAdvance (latestCompletedXid (s_pa s))) (s_trees s) (u32 R)) as Hshow.
    { intros R (Hw & Hb & Hall). exists R. split_and!; [done|done|done|]. intros t Htt He Hf. apply Hall; auto. }
    intros k Hk. destruct (Hrec k Hk) as [Hn Hold]. destruct (decide (k_proc k = n)) as [He|Hne].
    + destruct Hold as [Hold|[(_ & R & -> & HR) _]]; [|by apply Hshow]. destruct (Hn He) as [->|(R & -> & HR)]; [|by apply Hshow]. rewrite <- He. by apply (iv_recent _ _ Hi).
    + destruct Hold as [Hold|[[? _] _]]; [|done]. by apply (iv_recent _ _ Hi).
Qed.

(** The first snapshot sets it, the others leave it. *)
Lemma advertise_ok x m g pa' g' k X rs : x = u32 m → in_window base m → advertise_xmin n x g (s_pa s) = (pa', Ok g') →
  g = s_xmins s n → may_show base s n m → (∀ M, may_show base s n M → M ≤ m) → k_proc k = n → k_held k = true → new_snap s k →
  (∀ pa1, latestCompletedXid pa1 = latestCompletedXid (s_pa s) → xactCompletionCount pa1 = xactCompletionCount (s_pa s) →
    (∃ v M, view pa1 n = Some v ∧ sh_xmin v = u32 M ∧ in_window base M ∧ M ≤ m) → taken_ok base pa1 (s_trees s) k X m) → rs ⊆ s_readers s →
  preserves base s (set_xmins n g' (set_snaps (s_snaps s ++ [k]) (set_readers rs (set_pa pa' s)))).
Proof.
  intros Hx Hw Hrun Hg Hshow Hmin Hkp Hkh Hnew Hk Hrs. rewrite (advertise_run _ _ Ht n i p Hpos) in Hrun. pose proof (view_at _ _ _ _ _ Ht Hpos) as Hv.
  destruct (TransactionIdIsValid (proc_xmin p)) eqn:Hval; injection Hrun as <- <-.
  - apply negb_true_iff, Z.eqb_neq in Hval. destruct (iv_xmins _ _ Hi n _ Hv Hval) as (Htx & M & HM & HMw & HMl & HMt).
    rewrite <- with_xmin_same at 1. apply inv_with_xmin; [|done| |].
    + intros _. cbn. rewrite Hg. split; [done|]. exists M. by split_and!.
    + rewrite with_xmin_same. intros k' [Hk'|Hk']%elem_of_app; [by apply (iv_snaps _ _ Hi)|]. apply list_elem_of_singleton in Hk' as ->. exists X, m. apply Hk; [done|done|].
      exists (shows p), M. split_and!; [done..|]. by apply Hmin.
    + cbn. intros k' Hk'. split; [intros _; right; by exists m|]. apply elem_of_app in Hk' as [?|Hk']; [by left|right]. apply list_elem_of_singleton in Hk' as ->. split; [split; [done|by exists m]|done].
  - apply negb_false_iff, Z.eqb_eq in Hval. apply (inv_with_xmin x); [|done| |].
    + intros _. split; [done|]. by exists m.
    + intros k' [Hk'|Hk']%elem_of_app.
      * destruct (iv_snaps _ _ Hi k' Hk') as (X' & m' & Hok). exists X', m'. apply taken_with_xmin; [done|]. intros Hh Hn.
        destruct (ak_held _ _ _ _ _ _ Hok Hh) as (v & M & Hv' & HM & HMw & _). rewrite Hn, Hv in Hv'. injection Hv' as <-. cbn in HM. rewrite Hval in HM.
        destruct (window_normal base _ HMw) as [[] _]. done.
      * apply list_elem_of_singleton in Hk' as ->. exists X, m. apply Hk; [done|done|]. destruct (with_xmin_view x n _ Hv) as (v' & Hv' & _ & _ & Hvx). exists v', m. split_and!; [done|by rewrite Hvx|done|done].
    + cbn. intros k' Hk'. split; [intros _; right; by exists m|]. apply elem_of_app in Hk' as [?|Hk']; [by left|right]. apply list_elem_of_singleton in Hk' as ->. split; [split; [done|by exists m]|done].
Qed.
End xmin.

(** ** The end of a scan *)

Section finish.
Context (base : Z) (s : sys) (Hi : inv base s) (ps : list PGPROC) (Ht : tracks (s_pa s) ps).
Context (r : reader) (X m : Z) (Hr : reader_ok base (s_pa s) (s_trees s) r X m) (Hpos : r_pos r = numProcs (s_pa s)).

(** Every running transaction has been passed, or is that of the backend, or is new. *)
Lemma passed t : t ∈ s_trees s → ended t = false → r_proc r ∈ x_holders t ∨ x_flagged t = false →
  m ≤ x_top t ∧ (x_flagged t = false → r_own r = Some (x_top t) ∨ seen X m (sc_xip (r_scan r)) (sc_subxip (r_scan r)) (sc_suboverflowed (r_scan r)) t).
Proof.
  intros Htt He Hor. destruct (rk_xmin _ _ _ _ _ _ Hr) as (_ & _ & HmX & _).
  assert (∀ t, r_own r = Some (x_top t) ∨ X ≤ x_top t → r_own r = Some (x_top t) ∨ seen X m (sc_xip (r_scan r)) (sc_subxip (r_scan r)) (sc_suboverflowed (r_scan r)) t) as Hnew.
  { intros u [?|Hge]; [by left|right]. unfold seen. lia. }
  destruct Hor as [Hn|Hfl].
  { destruct (rk_mine _ _ _ _ _ _ Hr t Htt He Hn) as [Hle Hown]. split; [done|]. intros _. by apply Hnew. }
  assert (∃ n, n ∈ x_holders t) as (n & Hn).
  { pose proof (tk_shape _ _ _ _ (co_trees _ _ (iv_core _ _ Hi) t Htt)) as Hs. unfold shape_ok in Hs. unfold ended in He. destruct (x_phase t).
    - destruct Hs as [(n & ->)|(_ & n & d & -> & _)]; exists n; by left.
    - destruct Hs as [(n & ->) _]. exists n. by left.
    - destruct Hs as (n & ->). exists n. by left.
    - done. }
  destruct (holder_shown base s Hi t n Htt Hn) as (v & Hv & _). destruct (view_pos _ _ _ _ Ht Hv) as (j & p & [Hj Hp] & _).
  destruct (decide (j = r_off r)) as [->|Hoff].
  - rewrite (rk_off _ _ _ _ _ _ Hr) in Hj. injection Hj as <-. destruct (rk_mine _ _ _ _ _ _ Hr t Htt He Hn) as [Hle Hown]. split; [done|]. intros _. by apply Hnew.
  - assert (seen X m (sc_xip (r_scan r)) (sc_subxip (r_scan r)) (sc_suboverflowed (r_scan r)) t) as Hs.
    { apply (rk_seen _ _ _ _ _ _ Hr j n t); [|done..]. rewrite Hpos. by eapply lookup_lt_Some. }
    split; [|by right]. destruct (decide (x_top t < X)) as [Hlt|]; [by apply Hs|lia].
Qed.

Lemma finish_may_show : may_show base s (r_proc r) m ∧ ∀ M, may_show base s (r_proc r) M → M ≤ m.
Proof.
  destruct (rk_xmax _ _ _ _ _ _ Hr) as (_ & _ & HX). destruct (rk_xmin _ _ _ _ _ _ Hr) as (Hw & _ & Hle & Hsh). split.
  - split_and!; [done|lia|]. intros t Htt He Hor. apply passed; [done|done|]. destruct Hor; auto.
  - intros M (_ & HM & HMt). destruct Hsh as [->|(t & Htt & He & Hor & <-)]; [lia|]. by apply HMt.
Qed.

Lemma finish_taken cid pa1 : latestCompletedXid pa1 = latestCompletedXid (s_pa s) → xactCompletionCount pa1 = xactCompletionCount (s_pa s) →
  (∃ v M, view pa1 (r_proc r) = Some v ∧ sh_xmin v = u32 M ∧ in_window base M ∧ M ≤ m) →
  taken_ok base pa1 (s_trees s)
    (mkTaken (r_proc r) (mkSnap (mkSnapshot (sc_xmin (r_scan r)) (r_xmax r) (sc_xip (r_scan r)) (sc_subxip (r_scan r)) (sc_suboverflowed (r_scan r)) false cid) (r_count r))
       true (r_start r) (r_own r)) X m.
Proof.
  intros Hl Hc Hv. destruct (rk_xmax _ _ _ _ _ _ Hr) as (HXw & HXx & HX). destruct (rk_xmin _ _ _ _ _ _ Hr) as (Hw & Hmx & Hle & Hsh).
  pose proof (iv_count _ _ Hi) as Hpc. split; cbn; rewrite ?Hl, ?Hc; [split_and!; [done|done|lia]|done|done| |apply Hr| | |rewrite (rk_count _ _ _ _ _ _ Hr); lia| |by intros _].
  - intros t Hts He. apply (rk_start _ _ _ _ _ _ Hr t He) in Hts as Htt. split; [done|]. intros f Hf.
    pose proof (tk_phase _ _ _ _ (co_trees _ _ (iv_core _ _ Hi) t Htt)) as Hph. unfold phase_ok in Hph. unfold ended in He. destruct (x_phase t); [done..|].
    destruct (Hph f Hf) as [_ Hfl]. destruct (advance_window base s Hi) as (_ & Hlt & _). lia.
  - intros t Htt Hne Hfl Hown. assert (ended t = false) as He by (by eapply ended_in_start). destruct (passed t Htt He) as [_ Hs]; [by right|].
    destruct (Hs Hfl) as [?|?]; done.
  - intros t Htt Hne Hor. assert (ended t = false) as He by (by eapply ended_in_start). apply passed; [done|done|]. destruct Hor; auto.
  - intros _. split_and!; [|done|apply Hr|done]. intros t Htt He. by apply (rk_start _ _ _ _ _ _ Hr t He).
Qed.
End finish.

Lemma inv_scan_finish base s j r cid snap g pa' : inv base s → s_readers s !! j = Some r → r_pos r = numProcs (s_pa s) →
  scan_finish (r_proc r) (r_xmax r) (r_scan r) (r_count r) cid (s_xmins s (r_proc r)) (s_pa s) = (pa', Ok (snap, g)) →
  preserves base s (set_xmins (r_proc r) g (set_snaps (s_snaps s ++ [mkTaken (r_proc r) snap true (r_start r) (r_own r)])
    (set_readers (take j (s_readers s) ++ drop (S j) (s_readers s)) (set_pa pa' s)))).
Proof.
  intros Hi Hj Hpos Hrun. destruct (co_wf _ _ (iv_core _ _ Hi)) as (ps & Ht & Hall).
  destruct (iv_readers _ _ Hi r) as (X & m & Hr); [by eapply list_elem_of_lookup_2|].
  pose proof (rk_off _ _ _ _ _ _ Hr) as Hoff. destruct (lookup_lt_is_Some_2 ps (r_off r)) as [p Hp]; [rewrite (tracks_length _ _ Ht); by eapply lookup_lt_Some|].
  destruct (finish_may_show base s Hi ps Ht r X m Hr Hpos) as [Hshow Hmin]. destruct (rk_xmin _ _ _ _ _ _ Hr) as (Hw & Hmx & _).
  unfold scan_finish in Hrun. destruct (advertise_xmin (r_proc r) (sc_xmin (r_scan r)) (s_xmins s (r_proc r)) (s_pa s)) as [pa1 [g1|]] eqn:Ha.
  - erewrite bind_ok in Hrun by exact Ha. injection Hrun as <- <- <-.
    eapply (advertise_ok base s Hi ps Ht (r_proc r) (r_off r) p); [by split|exact Hmx|done|exact Ha|done|done|done|done|done| | |].
    + intros t Htt He. by apply (rk_start _ _ _ _ _ _ Hr t He).
    + by apply (finish_taken base s Hi ps Ht r X m Hr Hpos).
    + intros r' Hr'. apply elem_of_app in Hr' as [Hr'|Hr']; [by eapply elem_of_take in Hr' as (? & ?%list_elem_of_lookup_2 & _)|].
      apply list_elem_of_lookup in Hr' as [a Ha']. rewrite lookup_drop in Ha'. by eapply list_elem_of_lookup_2.
  - unfold mbind, M_bind in Hrun. by rewrite Ha in Hrun.
Qed.

(** ** The reuse of a snapshot *)

Section reuse.
Context (base : Z) (s : sys) (Hi : inv base s) (k : taken) (X m : Z) (Hk : taken_ok base (s_pa s) (s_trees s) k X m).
Context (Hcnt : snapXactCompletionCount (k_snap k) = xactCompletionCount (s_pa s)).

(** What has ended now had ended when the old snapshot was started. *)
Lemma reuse_ended x : x ∈ ended_tops (k_start k) ↔ x ∈ ended_tops (s_trees s).
Proof.
  destruct (ak_reuse _ _ _ _ _ _ Hk Hcnt) as (R1 & _). rewrite !ended_tops_in. split.
  - intros (t & Hts & He & <-). exists t. split_and!; [by apply (ak_start _ _ _ _ _ _ Hk)|done|done].
  - intros (t & Htt & He & <-). exists t. split_and!; [by apply R1|done|done].
Qed.

Lemma running_tops t : t ∈ s_trees s → x_top t ∉ ended_tops (s_trees s) ↔ ended t = false.
Proof.
  intros Htt. split.
  - intros Hne. destruct (ended t) eqn:He; [|done]. destruct Hne. apply ended_tops_in. by exists t.
  - intros He (t0 & Ht0 & He0 & Htop)%ended_tops_in. assert (t0 = t) as -> by (by apply (top_unique base s Hi)). congruence.
Qed.

Lemma reuse_may_show : may_show base s (k_proc k) m ∧ ∀ M, may_show base s (k_proc k) M → M ≤ m.
Proof.
  destruct (ak_reuse _ _ _ _ _ _ Hk Hcnt) as (R1 & R2 & R3 & R4). destruct (ak_xmin _ _ _ _ _ _ Hk) as (Hw & _ & Hle). split.
  - split_and!; [done|lia|]. intros t Htt He Hor. apply (ak_oldest _ _ _ _ _ _ Hk t Htt); [|done]. rewrite reuse_ended. by apply running_tops.
  - intros M (_ & HM & HMt). destruct R4 as [->|(t & Htt & He & Hor & <-)]; [lia|]. by apply HMt.
Qed.

Lemma reuse_taken cid pa1 : latestCompletedXid pa1 = latestCompletedXid (s_pa s) → xactCompletionCount pa1 = xactCompletionCount (s_pa s) →
  (∃ v M, view pa1 (k_proc k) = Some v ∧ sh_xmin v = u32 M ∧ in_window base M ∧ M ≤ m) →
  let d := snap_data (k_snap k) in
  taken_ok base pa1 (s_trees s)
    (mkTaken (k_proc k) (mkSnap (mkSnapshot (snap_xmin d) (snap_xmax d) (xip d) (subxip d) (suboverflowed d) (takenDuringRecovery d) cid)
       (snapXactCompletionCount (k_snap k))) true (s_trees s) (held_by (s_trees s) (k_proc k))) X m.
Proof.
  intros Hl Hc Hv d. destruct (ak_reuse _ _ _ _ _ _ Hk Hcnt) as (R1 & R2 & R3 & R4). destruct Hk as [H1 H2 H3 H4 H5 H6 H7 H8 _ _].
  split; cbn; rewrite ?Hl, ?Hc; [done|done|done| | | | |lia| |by intros _].
  - intros t Htt He. split; [done|]. by apply H4; [apply R1|].
  - destruct H5 as [L1 L2]. split; intros y Hy.
    + destruct (L1 y Hy) as (t & Htt & Hne & ->). exists t. by rewrite reuse_ended in Hne.
    + destruct (L2 y Hy) as (t & Htt & Hne & Hin). exists t. by rewrite reuse_ended in Hne.
  - intros t Htt Hne Hfl Hown. apply H6; [done|by rewrite reuse_ended|done|]. intros Hko. apply Hown. apply (holds_held_by base s Hi). by apply R3.
  - intros t Htt Hne Hor. apply H7; [done|by rewrite reuse_ended|done].
  - intros _. split_and!; [done|done| |done]. intros x Hx. by apply held_by_holds.
Qed.
End reuse.

Lemma inv_reuse base s k cid snap g pa' : inv base s → k_proc k ∈ pgprocnos (s_pa s) → k ∈ s_snaps s →
  GetSnapshotDataReuse (k_proc k) (k_snap k) cid (s_xmins s (k_proc k)) (s_pa s) = (pa', Ok (Some (snap, g))) →
  preserves base s (set_xmins (k_proc k) g (set_snaps (s_snaps s ++ [mkTaken (k_proc k) snap true (s_trees s) (held_by (s_trees s) (k_proc k))]) (set_pa pa' s))).
Proof.
  intros Hi Hn Hk Hrun. destruct (co_wf _ _ (iv_core _ _ Hi)) as (ps & Ht & Hall). destruct (iv_snaps _ _ Hi k Hk) as (X & m & Hok).
  destruct (member_pos _ _ Ht _ Hn) as (i & p & Hpos & _). unfold GetSnapshotDataReuse in Hrun. erewrite bind_ok in Hrun by reflexivity.
  destruct (snapXactCompletionCount (k_snap k) =? 0); [done|].
  destruct (Z.eqb_spec (xactCompletionCount (s_pa s)) (snapXactCompletionCount (k_snap k))) as [Hc|]; [|done]. cbn [negb] in Hrun. symmetry in Hc.
  destruct (ak_xmin _ _ _ _ _ _ Hok) as (Hw & Hmx & _).
  destruct (advertise_xmin (k_proc k) (snap_xmin (snap_data (k_snap k))) (s_xmins s (k_proc k)) (s_pa s)) as [pa1 [g1|]] eqn:Ha.
  - erewrite bind_ok in Hrun by exact Ha. injection Hrun as <- <- <-. destruct (reuse_may_show base s Hi k X m Hok Hc) as [Hshow Hmin].
    change (set_pa pa1 s) with (set_readers (s_readers s) (set_pa pa1 s)).
    eapply (advertise_ok base s Hi ps Ht (k_proc k) i p); [done|exact Hmx|done|exact Ha|done|done|done|done|done|by intros t Htt| |done].
    by apply (reuse_taken base s Hi k X m Hok Hc).
  - unfold mbind at 1, M_bind in Hrun. by rewrite Ha in Hrun.
Qed.

(** ** Releasing snapshots *)

Lemma inv_release base s i k : inv base s → s_snaps s !! i = Some k →
  preserves base s (set_snaps (<[i := mkTaken (k_proc k) (k_snap k) false (k_start k) (k_own k)]> (s_snaps s)) s).
Proof.
  intros [[C1 C2 C3 C4 C5 C6 C7 C8] H1 H2 H3 H4 H5 H6] Hk. split; [|cbn; lia|].
  2:{ split; [done|apply evolved_refl, _|]. cbn. intros k' Hk' Hh. split; [by intros v Hv; exists v|left]. apply (elem_of_insert _ _ _ k) in Hk' as [->|(j & _ & Hj)]; [done| |done].
      exists k'. split; [by apply (list_elem_of_lookup_2 _ j)|done]. }
  split; [split; try done|done|done|done|done| |]; cbn.
  - intros p Hp. by destruct (C4 p Hp).
  - intros k' Hk'. apply (elem_of_insert _ _ _ k) in Hk' as [->|(j & _ & Hj)]; [| |done].
    + destruct (H5 k) as (X & m & Hok); [by eapply list_elem_of_lookup_2|]. exists X, m. eapply taken_dropped; [|exact Hok]. by right.
    + by apply H5, (list_elem_of_lookup_2 _ j).
  - intros k' Hk'. apply (elem_of_insert _ _ _ k) in Hk' as [->|(j & _ & Hj)]; [| |done]; [apply (H6 k)|apply (H6 k')]; by eapply list_elem_of_lookup_2.
Qed.

(** The first of the heap is the oldest. *)
Lemma heap_oldest base x (l : list Z) : in_window base x → Forall (in_window base) l →
  heap_first (u32 x :: (u32 <$> l)) = Some (u32 (foldl Z.min x l)) ∧ foldl Z.min x l ∈ x :: l ∧ ∀ y, y ∈ x :: l → foldl Z.min x l ≤ y.
Proof.
  unfold heap_first. intros Hx Hl. revert x Hx. induction Hl as [|z l Hz _ IH]; intros x Hx.
  - split_and!; [done|by left|]. intros y ->%list_elem_of_singleton. cbn. lia.
  - assert ((if 0 <? xmin_cmp (u32 z) (u32 x) then u32 z else u32 x) = u32 (Z.min x z) ∧ in_window base (Z.min x z)) as [Hm Hmw].
    { unfold xmin_cmp. rewrite (proj1 (window_precedes base _ _ Hz Hx)), (proj1 (window_precedes base _ _ Hx Hz)). destruct (Z.ltb_spec z x) as [?|?].
      - by rewrite Z.min_r by lia.
      - rewrite Z.min_l by lia. split; [|done]. by destruct (x <? z). }
    rewrite fmap_cons. cbn [foldl]. rewrite Hm. destruct (IH (Z.min x z) Hmw) as (H1 & H2 & H3). split_and!; [done| |].
    + rewrite elem_of_cons in H2. rewrite !elem_of_cons. destruct H2 as [->|H2]; [|by right; right].
      destruct (Z.min_spec x z) as [[_ ->]|[_ ->]]; [by left|by right; left].
    + assert (foldl Z.min (Z.min x z) l ≤ Z.min x z) by (apply H3; by left). intros y. rewrite !elem_of_cons. intros [->|[->|Hy]]; [lia|lia|].
      apply H3. by right.
Qed.

Lemma held_fulls base s n : inv base s → ∃ ms, held_xmins n s = u32 <$> ms ∧ Forall (in_window base) ms ∧
  (∀ m, m ∈ ms → ∃ k X, k ∈ s_snaps s ∧ k_proc k = n ∧ taken_ok base (s_pa s) (s_trees s) k X m) ∧
  ∀ k X m, k ∈ s_snaps s → k_proc k = n → k_held k = true → taken_ok base (s_pa s) (s_trees s) k X m → m ∈ ms.
Proof.
  intros Hi. unfold held_xmins. assert (∀ k, k ∈ s_snaps s → ∃ X m, taken_ok base (s_pa s) (s_trees s) k X m) as Hks by apply (iv_snaps _ _ Hi).
  revert Hks. induction (s_snaps s) as [|k ks IH]; intros Hks.
  { exists []. split_and!; [done|constructor|intros m Hm; by apply elem_of_nil in Hm|intros k X m Hk; by apply elem_of_nil in Hk]. }
  destruct IH as (ms & H1 & H2 & H3 & H4); [intros k' Hk'; apply Hks; by right|]. rewrite filter_cons. destruct (decide _) as [[Hn Hh]|Hno].
  - destruct (Hks k) as (X & m & Hk); [by left|]. destruct (ak_xmin _ _ _ _ _ _ Hk) as (Hw & Hmx & _). exists (m :: ms). rewrite !fmap_cons. split_and!; [congruence|by constructor| |].
    + intros m' [->|Hm']%elem_of_cons; [exists k, X; split; [by left|done]|]. destruct (H3 m' Hm') as (k' & X' & ? & ?). exists k', X'. split; [by right|done].
    + intros k' X' m' [->|Hk']%elem_of_cons Hn' Hh' Hok'; [|right; by eapply H4]. destruct (ak_xmin _ _ _ _ _ _ Hok') as (Hw' & Hmx' & _).
      rewrite (window_inj base m' m Hw' Hw) by congruence. by left.
  - exists ms. split_and!; [done|done| |].
    + intros m' Hm'. destruct (H3 m' Hm') as (k' & X' & ? & ?). exists k', X'. split; [by right|done].
    + intros k' X' m' [->|Hk']%elem_of_cons Hn' Hh' Hok'; [by destruct Hno|by eapply H4].
Qed.

Lemma taken_may_show base s k X m : inv base s → taken_ok base (s_pa s) (s_trees s) k X m → may_show base s (k_proc k) m.
Proof.
  intros Hi Hk. destruct (ak_xmax _ _ _ _ _ _ Hk) as (_ & _ & HX). destruct (ak_xmin _ _ _ _ _ _ Hk) as (Hw & _ & Hle). split_and!; [done|lia|].
  intros t Htt He Hor. apply (ak_oldest _ _ _ _ _ _ Hk t Htt); [|done]. intros (t0 & Ht0 & He0 & Htop)%ended_tops_in.
  destruct (ak_start _ _ _ _ _ _ Hk t0 Ht0 He0) as [Ht0' _]. assert (t0 = t) as -> by (by apply (top_unique base s Hi)). congruence.
Qed.

Lemma inv_reset_xmin base s n g pa' : inv base s → n ∈ pgprocnos (s_pa s) →
  SnapshotResetXmin n false (held_xmins n s) (s_xmins s n) (s_pa s) = (pa', Ok g) → preserves base s (set_xmins n g (set_pa pa' s)).
Proof.
  intros Hi Hn Hrun. destruct (co_wf _ _ (iv_core _ _ Hi)) as (ps & Ht & Hall). destruct (member_pos _ _ Ht _ Hn) as (i & p & Hpos & _).
  destruct (held_fulls base s n Hi) as (ms & Hms & Hw & Hfrom & Hto). unfold SnapshotResetXmin in Hrun. rewrite Hms in Hrun.
  assert (∀ x, upd_proc n (set_proc_xmin x) (s_pa s) = (with_xmin s n i p x, Ok tt)) as Hupd by (intros x; apply (xmin_run _ _ Ht n i p Hpos)).
  pose proof (view_at _ _ _ _ _ Ht Hpos) as Hv.
  assert (∀ x g', (x ≠ InvalidTransactionId → TransactionXmin g' = x ∧ ∃ M, x = u32 M ∧ may_show base s n M) →
    (∀ k X m, k ∈ s_snaps s → k_proc k = n → k_held k = true → taken_ok base (s_pa s) (s_trees s) k X m → ∃ M, x = u32 M ∧ in_window base M ∧ M ≤ m) →
    RecentXmin g' = RecentXmin (s_xmins s n) → preserves base s (set_xmins n g' (set_pa (with_xmin s n i p x) s))) as Hset.
  { intros x g' Hx Hheld Hrec. apply (inv_with_xmin base s Hi ps Ht n i p Hpos x g' (s_snaps s) (s_readers s)); [done|done| |intros k Hk; split; [by left|by left]]. intros k Hk.
    destruct (iv_snaps _ _ Hi k Hk) as (X & m & Hok). exists X, m. apply (taken_with_xmin base s Hi ps Ht n i p Hpos); [done|]. intros Hh Hkn. by apply (Hheld k X m). }
  destruct ms as [|m0 ms].
  - cbn in Hrun. erewrite bind_ok in Hrun by apply Hupd. injection Hrun as <- <-. apply Hset; [done| |done]. intros k X m Hk Hkn Hh Hok.
    by destruct (not_elem_of_nil m (Hto k X m Hk Hkn Hh Hok)).
  - apply list.Forall_cons in Hw as [Hw0 Hw]. destruct (heap_oldest base m0 ms Hw0 Hw) as (Hfirst & Hin & Hmin). rewrite fmap_cons, Hfirst in Hrun.
    destruct (Hfrom _ Hin) as (k0 & X0 & Hk0 & Hkn0 & Hok0). pose proof (taken_may_show base s k0 X0 _ Hi Hok0) as Hshow. rewrite Hkn0 in Hshow. set (M := foldl Z.min m0 ms) in *.
    erewrite bind_ok in Hrun by (apply (my_run _ _ Ht n i p Hpos)). destruct (TransactionIdPrecedes (proc_xmin p) (u32 M)).
    + erewrite bind_ok in Hrun by apply Hupd. injection Hrun as <- <-. apply Hset; [| |done].
      * intros _. split; [done|]. by exists M.
      * intros k X m Hk Hkn Hh Hok. exists M. split_and!; [done|apply Hshow|]. by apply Hmin, (Hto k X m).
    + injection Hrun as <- <-. rewrite <- (with_xmin_same s ps Ht n i p Hpos) at 1. apply Hset; [| |done].
      * intros Hne. by apply (iv_xmins _ _ Hi n _ Hv).
      * intros k X m Hk Hkn Hh Hok. destruct (ak_held _ _ _ _ _ _ Hok Hh) as (v & M' & Hv' & HM' & ?). rewrite Hkn, Hv in Hv'. injection Hv' as <-. by exists M'.
Qed.

(** ** The invariant holds in every reachable state *)

Lemma inv_boot base s : booted base s → inv base s ∧ xactCompletionCount (s_pa s) = 1.
Proof.
  intros [H1 H2 (maxp & total & latest & Hpa & Hn & Hb & Hlt) (E1 & E2 & E3 & E4)]. destruct (sh_limits _ _ H1) as [_ Hnn Hw H64 _ _].
  assert (∀ n, view (s_pa s) n = None) as Hview.
  { intros n. unfold view. rewrite Hpa. cbn. rewrite decide_False; [done|]. apply not_elem_of_nil. }
  split; [|by rewrite Hpa]. split; rewrite ?E2, ?E3, ?E4; [split; rewrite ?E1, ?E2|..].
  - done.
  - done.
  - rewrite Hpa. apply boot_wf.
  - done.
  - intros t f Ht. by apply elem_of_nil in Ht.
  - done.
  - intros t Ht. by apply elem_of_nil in Ht.
  - intros n v Hv. by rewrite Hview in Hv.
  - rewrite Hpa. cbn. split; [split; [done|lia]|]. unfold limit. rewrite E1. apply advance_le; [done|done|lia|lia].
  - intros n v Hv. by rewrite Hview in Hv.
  - rewrite Hpa. cbn. lia.
  - intros r Hr. by apply elem_of_nil in Hr.
  - intros k Hk. by apply elem_of_nil in Hk.
  - intros k Hk. by apply elem_of_nil in Hk.
Qed.

Lemma inv_write_step base s k t w ph' : inv base s → s_trees s !! k = Some t →
  match x_phase t with
  | AbortingSubs xs (w' :: ws) => w' = w ∧ ph' = AbortingSubs xs ws
  | Logging c (w' :: ws) => w' = w ∧ ph' = Logging c ws
  | _ => False
  end →
  preserves base s (set_tree k (set_phase ph' t) (set_shm (set_pg_xact (TransactionIdSetStatusBit w.1 w.2 (pg_xact (s_shm s))) (s_shm s)) s)).
Proof.
  intros Hi Hk Hph. pose proof (list_elem_of_lookup_2 _ _ _ Hk) as Htin. pose proof (co_trees _ _ (iv_core _ _ Hi) t Htin) as [_ _ _ _ _ Hshape _ Hok].
  unfold phase_ok in Hok. unfold shape_ok in Hshape. destruct (x_phase t) as [|xs [|w' ws]|c [|w' ws]|] eqn:Hp; try done; destruct Hph as [-> ->].
  - destruct Hok as (Hsub & Hok & Hrest). apply writes_next in Hok as (Hok & (g & Hg & Hgx)%list_elem_of_fmap & Hr).
    assert (∀ f, f ∈ x_live t → in_window base f) as Hwin by (intros f Hf; apply (member_window base s Hi t); [done|by apply x_live_all]).
    assert (g ∈ x_live t) as Hgl by (right; by apply Hsub).
    apply inv_write; [done|done|done|unfold ended; by rewrite Hp|by rewrite Hp|done|rewrite Hg; by apply list_elem_of_fmap_2|done|].
    unfold phase_ok. cbn [x_phase set_phase]. split_and!; [done|done|]. intros f Hf Hn. change (f ∈ x_live t) in Hf. unfold status. cbn [pg_xact set_pg_xact].
    rewrite get_set_status by done. rewrite (proj2 (Z.eqb_neq _ _)); [by apply Hrest|]. rewrite Hg. intros He. apply (window_inj base) in He; [by subst|by apply Hwin|by apply Hwin].
  - apply writes_next in Hok as (Hok & Hw & Hr). apply inv_write; [done|done|done|unfold ended; by rewrite Hp|by rewrite Hp|done|done|done|done].
Qed.

Lemma readers_insert base s j r r' : inv base s → s_readers s !! j = Some r → (∃ X m, reader_ok base (s_pa s) (s_trees s) r' X m) →
  preserves base s (set_readers (<[j := r']> (s_readers s)) s).
Proof.
  intros Hi Hj Hr'. apply inv_set_readers; [done|]. intros r0 Hr0. apply (elem_of_insert _ _ _ r) in Hr0 as [->|(a & _ & Ha)]; [done| |done].
  by apply (iv_readers _ _ Hi), (list_elem_of_lookup_2 _ a).
Qed.

Lemma pos_at pa ps i : tracks pa ps → (i < numProcs pa)%nat → ∃ n p, at_pos pa ps n i p.
Proof.
  intros Ht Hi. destruct (lookup_lt_is_Some_2 (pgprocnos pa) i) as [n Hn]; [done|]. destruct (lookup_lt_is_Some_2 ps i) as [p Hp]; [by rewrite (tracks_length _ _ Ht)|].
  by exists n, p.
Qed.

Lemma inv_step base s s' : inv base s → xactCompletionCount (s_pa s) + 1 < 2 ^ 64 → step s s' → preserves base s s'.
Proof.
  intros Hi Hbig Hstep. destruct (co_wf _ _ (iv_core _ _ Hi)) as (ps & Ht & Hall). destruct Hstep.
  - by eapply inv_join.
  - by eapply inv_leave.
  - by eapply inv_vacuum.
  - eapply inv_assign; [done|done|done|]. exists (shows p). split; [by apply view_member|done].
  - destruct H0 as (Hk & Hph & Hpr & Hh & Hid). eapply inv_assign; [done|done|done|]. by exists t.
  - by eapply inv_assign_fails.
  - by eapply inv_store_top.
  - by eapply inv_store_sub.
  - by eapply inv_link.
  - by eapply inv_abort_subs.
  - by eapply inv_remove_subs.
  - by eapply inv_log.
  - subst ph. by apply inv_write_step.
  - by eapply inv_end.
  - by eapply inv_end_noxid.
  - by eapply inv_prepare.
  - by eapply inv_clear.
  - by eapply inv_finish_prepared.
  - destruct (member_pos _ _ Ht n) as (i & p & Hpos & _); [done|]. apply inv_set_readers; [done|]. intros r Hr. apply elem_of_app in Hr as [Hr|Hr].
    + by apply (iv_readers _ _ Hi).
    + apply list_elem_of_singleton in Hr as ->. by eapply start_ok.
  - destruct (pos_at _ _ (r_pos r) Ht) as (n & p & Hpos); [done|]. destruct (iv_readers _ _ Hi r) as (X & m & Hr); [by eapply list_elem_of_lookup_2|].
    rewrite (scan_xid_run _ _ Ht n _ p Hpos) in H2. injection H2 as Hseen. eapply readers_insert; [done|done|]. by eapply scan_xid_ok.
  - destruct (iv_readers _ _ Hi r) as (X & m & Hr); [by eapply list_elem_of_lookup_2|]. destruct (rk_more _ _ _ _ _ _ Hr H0) as (n0 & t0 & Hn0 & _).
    destruct (pos_at _ _ (r_pos r) Ht) as (n & p & Hpos); [by eapply lookup_lt_Some|].
    rewrite (scan_subxids_run _ _ Ht n _ p Hpos) in H1. injection H1 as <-. eapply readers_insert; [done|done|]. exists X, m. by eapply scan_subxids_ok.
  - by eapply inv_scan_finish.
  - subst n. by eapply inv_reuse.
  - by eapply inv_release.
  - by eapply inv_reset_xmin.
Qed.

Lemma system_inv base n s : reachable base n s → Z.of_nat n < 2 ^ 64 - 1 → inv base s ∧ xactCompletionCount (s_pa s) ≤ 1 + Z.of_nat n.
Proof.
  induction 1 as [s Hb|n s s' _ IH Hstep]; intros Hn.
  - destruct (inv_boot base s Hb) as [Hi ->]. split; [done|lia].
  - destruct IH as [Hi Hc]; [lia|]. destruct (inv_step base s s' Hi ltac:(lia) Hstep) as [Hi' Hc' _]. split; [done|lia].
Qed.
