(* ===== verification/SnapshotIso.v ===== *)
(** * Snapshot isolation

    What the readers of a running system find out: [XidInMVCCSnapshot] with
    [pg_subtrans] and the commit log for the visibility of rows, and
    [TransactionIdIsInProgress].  The theorems say what the answers mean in terms
    of the history of [SnapshotSys]. *)
From stdpp Require Import base tactics list gmap strings numbers sorting.
From Stdlib Require Import ZArith Lia Bool.
From S2P Require Import Prelude Visibility Clog XidGen ProcArray SnapshotSys SnapshotInv SnapshotScan.

(** ** The functions a backend reads with *)

(** Its commit log and [pg_subtrans] are those of shared memory, its
    [TransactionXmin] is that of the last step; [fuel] bounds the walks through
    [pg_subtrans]. *)
Definition env_of (s : sys) (n fuel : nat) (cache : fetch_cache) (current : Z → bool) (multi : Z → Z) (combo : list (Z * Z)) : xact_env :=
  mkXactEnv current (λ _, false)
    (λ x, match Clog.TransactionIdDidCommit fuel (pg_xact (s_shm s)) (pg_subtrans (s_shm s)) (TransactionXmin (s_xmins s n)) cache x with
          | Some (_, b) => b
          | None => false
          end)
    (λ x, match ProcArray.SubTransGetTopmostTransaction fuel (pg_subtrans (s_shm s)) (TransactionXmin (s_xmins s n)) x with
          | Some (Ok y) => y
          | _ => InvalidTransactionId
          end)
    multi combo.

(** ** Walks through [pg_subtrans] *)

Lemma increasing_lookup (l : list Z) i j x y : StronglySorted Z.lt l → (i < j)%nat → l !! i = Some x → l !! j = Some y → x < y.
Proof.
  intros Hs. revert i j. induction Hs as [|z l _ IH Hz]; intros i j Hij Hx Hy; [done|]. destruct j as [|j]; [lia|]. cbn in Hy. destruct i as [|i]; cbn in Hx.
  - injection Hx as <-. rewrite list.Forall_forall in Hz. by apply Hz, (list_elem_of_lookup_2 _ j).
  - apply (IH i j); [lia|done|done].
Qed.

Lemma sub_index t (i : nat) u : x_subs t !! i = Some u → x_all t !! S i = Some (sub_id u).
Proof. intros Hu. change ((sub_id <$> x_subs t) !! i = Some (sub_id u)). by rewrite list_lookup_fmap, Hu. Qed.

Section tree.
Context (base : Z) (s : sys) (Hi : inv base s) (t : xtree) (Htt : t ∈ s_trees s).

(** A recorded subtransaction has its parent before it. *)
Lemma member_index f : is_member f t → ∃ i, x_all t !! i = Some f ∧
  (i = O ∧ f = x_top t ∧ parent_of (s_shm s) f = InvalidTransactionId ∨
   ∃ j g, (j < i)%nat ∧ x_all t !! j = Some g ∧ g < f ∧ is_member g t ∧ parent_of (s_shm s) f = u32 g).
Proof.
  pose proof (co_trees _ _ (iv_core _ _ Hi) t Htt) as [K1 K2 K3 K4 _ _ _ _]. intros [->|(u & Hu & <- & Hl)].
  - exists O. split; [done|by left].
  - pose proof (K4 u Hu Hl) as Hp. apply list_elem_of_lookup in Hu as [i Hu]. exists (S i). split; [by apply sub_index|right].
    destruct (K2 i u Hu) as [Htop|(j & u' & Hj & Hu' & Hl' & He)].
    + exists O, (x_top t). split_and!; [lia|done| |by left|by rewrite Hp, Htop]. by apply (increasing_lookup (x_all t) 0 (S i)); [|lia| |apply sub_index].
    + exists (S j), (sub_id u'). split_and!; [lia|by apply sub_index| |right; exists u'; split; [by eapply list_elem_of_lookup_2|done]|by rewrite Hp, He].
      by apply (increasing_lookup (x_all t) (S j) (S i)); [|lia|apply sub_index..].
Qed.

Lemma member_all f : is_member f t → f ∈ x_all t.
Proof. intros (i & Hf & _)%member_index. by eapply list_elem_of_lookup_2. Qed.

Lemma top_least f : f ∈ x_all t → x_top t ≤ f.
Proof.
  pose proof (tk_sorted _ _ _ _ (co_trees _ _ (iv_core _ _ Hi) t Htt)) as K1. apply StronglySorted_inv in K1 as [_ K1]. rewrite list.Forall_forall in K1.
  intros [->|Hf]%elem_of_cons; [lia|]. specialize (K1 f Hf). lia.
Qed.

(** [SubTransGetTopmostTransaction] finds the main id, or stops before [TransactionXmin]. *)
Lemma topmost_member xmin M : xmin = u32 M → in_window base M → ∀ (i fuel : nat) f, is_member f t → x_all t !! i = Some f → (i < fuel)%nat →
  ∃ g, topmost fuel (pg_subtrans (s_shm s)) xmin (u32 f) = Some (Ok (u32 g)) ∧ g ∈ x_all t ∧ (g = x_top t ∨ g < M).
Proof.
  intros -> HM i. pose proof (sorted_nodup _ (tk_sorted _ _ _ _ (co_trees _ _ (iv_core _ _ Hi) t Htt))) as Hnd.
  induction (lt_wf i) as [i _ IH]; intros fuel f Hf Hfi Hfuel. destruct fuel as [|fuel]; [lia|]. cbn [topmost]. pose proof (member_all f Hf) as Hall.
  pose proof (member_window base s Hi t f Htt Hall) as Hfw. rewrite (proj1 (window_precedes base _ _ Hfw HM)). destruct (Z.ltb_spec f M) as [Hlt|Hge].
  { exists f. by split_and!; [|done|right]. }
  destruct (member_index f Hf) as (i' & Hfi' & Hcase). assert (i' = i) as -> by (by eapply NoDup_lookup). fold (parent_of (s_shm s) f).
  destruct Hcase as [(-> & -> & ->)|(j & g & Hj & Hgj & Hgf & Hg & ->)].
  - exists (x_top t). assert (TransactionIdPrecedes InvalidTransactionId (u32 (x_top t)) = true) as ->.
    { unfold TransactionIdPrecedes. cbn. destruct (window_normal base _ Hfw) as [Hne _]. pose proof (u32_range (x_top t)). unfold InvalidTransactionId in *. apply Z.ltb_lt. lia. }
    split_and!; [done|done|by left].
  - pose proof (member_window base s Hi t g Htt (member_all g Hg)) as Hgw. rewrite (proj1 (window_precedes base _ _ Hgw Hfw)), (proj2 (Z.ltb_lt _ _) Hgf). cbn [negb].
    rewrite (proj2 (proj2 (window_normal base _ Hgw))). apply (IH j Hj fuel g Hg Hgj). lia.
Qed.

(** [TransactionIdDidCommit] returns, and reads the status of an id with a final one. *)
Lemma did_commit_member xmin cache : cache_ok (pg_xact (s_shm s)) cache → ∀ (i fuel : nat) f, is_member f t → x_all t !! i = Some f → (i < fuel)%nat →
  ∃ cache' b, Clog.TransactionIdDidCommit fuel (pg_xact (s_shm s)) (pg_subtrans (s_shm s)) xmin cache (u32 f) = Some (cache', b) ∧
    (status (s_shm s) f = TRANSACTION_STATUS_COMMITTED → b = true) ∧ (status (s_shm s) f = TRANSACTION_STATUS_ABORTED → b = false).
Proof.
  intros Hc i. revert cache Hc. pose proof (sorted_nodup _ (tk_sorted _ _ _ _ (co_trees _ _ (iv_core _ _ Hi) t Htt))) as Hnd.
  induction (lt_wf i) as [i _ IH]; intros cache Hc fuel f Hf Hfi Hfuel. destruct fuel as [|fuel]; [lia|]. cbn [Clog.TransactionIdDidCommit].
  pose proof (member_window base s Hi t f Htt (member_all f Hf)) as Hfw.
  destruct (fetch_status _ cache (u32 f) Hc) as (cache' & -> & Hc'); [apply normal_xid32, Hfw|]. fold (status (s_shm s) f).
  destruct (Z.eqb_spec (status (s_shm s) f) TRANSACTION_STATUS_COMMITTED) as [->|Hnc]; [by exists cache', true|].
  destruct (Z.eqb_spec (status (s_shm s) f) TRANSACTION_STATUS_SUB_COMMITTED) as [->|Hns]; [|by exists cache', false].
  destruct (TransactionIdPrecedes _ _); [by exists cache', false|]. fold (parent_of (s_shm s) f).
  destruct (member_index f Hf) as (i' & Hfi' & Hcase). assert (i' = i) as -> by (by eapply NoDup_lookup).
  destruct Hcase as [(-> & -> & ->)|(j & g & Hj & Hgj & Hgf & Hg & ->)]; [by exists cache', false|].
  pose proof (member_window base s Hi t g Htt (member_all g Hg)) as Hgw. rewrite (proj2 (proj2 (window_normal base _ Hgw))). cbn [negb].
  destruct (IH j Hj cache' Hc' fuel g Hg Hgj) as (c2 & b2 & -> & _); [lia|]. by exists c2, b2.
Qed.
End tree.

(** ** Visibility *)

Lemma lfind_elem x l : pg_lfind32 x l = bool_decide (x ∈ l).
Proof.
  apply eq_true_iff_eq. unfold pg_lfind32. rewrite existsb_exists, bool_decide_eq_true. split.
  - intros (y & Hy & ->%Z.eqb_eq). by apply list_elem_of_In.
  - intros Hx. exists x. split; [by apply list_elem_of_In|apply Z.eqb_refl].
Qed.

Lemma committed_in ts f : f ∈ committed_ids ts ↔ ∃ t, t ∈ ts ∧ x_phase t = Ended true ∧ f ∈ x_live t.
Proof.
  unfold committed_ids. rewrite list_elem_of_join. split.
  - intros (l & Hf & Hl). apply list_elem_of_fmap in Hl as (t & -> & Ht). exists t. destruct (x_phase t) as [| | |[]]; try (by apply elem_of_nil in Hf). done.
  - intros (t & Ht & Hp & Hf). exists (x_live t). split; [done|]. apply list_elem_of_fmap. exists t. by rewrite Hp.
Qed.

Section iso.
Context (base : Z) (s : sys) (Hi : inv base s) (k : taken) (X m : Z) (Hk : taken_ok base (s_pa s) (s_trees s) k X m) (Hheld : k_held k = true).
Context (t : xtree) (Htt : t ∈ s_trees s).
Context (f : Z) (Hf : is_member f t) (fuel : nat) (Hfuel : (length (x_subs t) < fuel)%nat) (cache : fetch_cache) (Hcache : cache_ok (pg_xact (s_shm s)) cache).
Context (current : Z → bool) (multi : Z → Z) (combo : list (Z * Z)).

Let env := env_of s (k_proc k) fuel cache current multi combo.
Let d := snap_data (k_snap k).

Lemma member_live_or_dead : f ∈ x_live t ∨ status (s_shm s) f = TRANSACTION_STATUS_ABORTED ∧ f ∉ x_live t.
Proof.
  pose proof (co_trees _ _ (iv_core _ _ Hi) t Htt) as [K1 _ _ _ K5 _ _ _]. destruct Hf as [->|(u & Hu & <- & _)]; [left; by left|].
  destruct (sub_live u) eqn:Hl; [left; right; unfold live_subs; by apply list_elem_of_fmap_2, list_elem_of_filter|right]. split; [by apply K5|by apply dead_not_live].
Qed.

Lemma fuel_index (i : nat) : x_all t !! i = Some f → (i < fuel)%nat.
Proof. intros H%lookup_lt_Some. unfold x_all in H. cbn in H. rewrite length_fmap in H. lia. Qed.

Lemma did_commit_returns xmin : ∃ c' b, Clog.TransactionIdDidCommit fuel (pg_xact (s_shm s)) (pg_subtrans (s_shm s)) xmin cache (u32 f) = Some (c', b) ∧
  (status (s_shm s) f = TRANSACTION_STATUS_COMMITTED → b = true) ∧ (status (s_shm s) f = TRANSACTION_STATUS_ABORTED → b = false).
Proof. destruct (member_index base s Hi t Htt f Hf) as (i & Hfi & _). by apply (did_commit_member base s Hi t Htt xmin cache Hcache i); [| |apply fuel_index]. Qed.

(** While the backend holds the snapshot, its [TransactionXmin] is not newer. *)
Lemma held_topmost : ∃ M g, M ≤ m ∧ ProcArray.SubTransGetTopmostTransaction fuel (pg_subtrans (s_shm s)) (TransactionXmin (s_xmins s (k_proc k))) (u32 f) = Some (Ok (u32 g)) ∧
  g ∈ x_all t ∧ (g = x_top t ∨ g < M).
Proof.
  destruct (ak_held _ _ _ _ _ _ Hk Hheld) as (v & M & Hv & HM & HMw & HMm). exists M.
  assert (TransactionXmin (s_xmins s (k_proc k)) = u32 M) as Htx.
  { destruct (iv_xmins _ _ Hi _ v Hv) as [-> _]; [|done]. rewrite HM. by apply (window_normal base). }
  destruct (member_index base s Hi t Htt f Hf) as (i & Hfi & _). unfold ProcArray.SubTransGetTopmostTransaction.
  rewrite (proj2 (proj2 (window_normal base _ (member_window base s Hi t f Htt (member_all base s Hi t Htt f Hf))))).
  destruct (topmost_member base s Hi t Htt _ M Htx HMw i fuel f Hf Hfi (fuel_index i Hfi)) as (g & -> & Hg & Hor). by exists g.
Qed.

Lemma topmost_returns : ∃ y, ProcArray.SubTransGetTopmostTransaction fuel (pg_subtrans (s_shm s)) (TransactionXmin (s_xmins s (k_proc k))) (u32 f) = Some (Ok y).
Proof. destruct held_topmost as (M & g & _ & H & _). by eexists. Qed.

(** The test is right for a transaction that had ended when the snapshot was started. *)
Lemma not_in_snapshot : t ∈ k_start k → ended t = true → f ∈ x_live t → XidInMVCCSnapshot env (u32 f) d = false.
Proof.
  intros Hts He Hlive. pose proof (member_all base s Hi t Htt f Hf) as Hall. pose proof (member_window base s Hi t f Htt Hall) as Hfw.
  destruct (ak_xmax _ _ _ _ _ _ Hk) as (HXw & HX & _). destruct (ak_xmin _ _ _ _ _ _ Hk) as (Hmw & Hm & HmX). destruct (ak_start _ _ _ _ _ _ Hk t Hts He) as [_ Hlt].
  specialize (Hlt f Hlive). assert (x_top t ∈ ended_tops (k_start k)) as Hend by (apply ended_tops_in; by exists t).
  destruct (ak_listed _ _ _ _ _ _ Hk) as [L1 L2]. pose proof (ak_recovery _ _ _ _ _ _ Hk) as Hrec. fold d in HX, Hm, L1, L2, Hrec.
  assert (∀ g, g ∈ x_all t → u32 g ∉ xip d) as Hx.
  { intros g Hg Hin. destruct (L1 _ Hin) as (u & Hu & Hne & He'). destruct (same_tree base s Hi t u g (x_top u)) as [-> _]; [done|done|done|by left|done|]. done. }
  assert (u32 f ∉ subxip d) as Hsx.
  { intros Hin. destruct (L2 _ Hin) as (u & Hu & Hne & (g & He' & Hg)%list_elem_of_fmap). destruct (same_tree base s Hi t u f g) as [-> _]; done. }
  unfold XidInMVCCSnapshot. rewrite HX, Hm, (proj1 (window_precedes base _ _ Hfw Hmw)), (proj2 (window_precedes base _ _ Hfw HXw)), Hrec.
  destruct (f <? m); [done|]. rewrite (proj2 (Z.leb_gt _ _)) by lia. cbn [negb]. destruct (suboverflowed d); cbn [negb].
  - destruct held_topmost as (M & g & HMm & Htop' & Hg & _). unfold env, env_of. cbn [Visibility.SubTransGetTopmostTransaction]. rewrite Htop'.
    destruct (TransactionIdPrecedes _ _); [done|]. rewrite lfind_elem. apply bool_decide_eq_false_2. by apply Hx.
  - rewrite !lfind_elem, !bool_decide_eq_false_2; [done|by apply Hx|done].
Qed.

Lemma sees_ended cid : current (u32 f) = false → t ∈ k_start k → x_phase t = Ended true → f ∈ x_live t → sees env d (u32 f) cid = true.
Proof.
  intros Hcur Hts Hp Hlive. unfold sees. unfold env at 1, env_of. cbn [TransactionIdIsCurrentTransactionId]. rewrite Hcur, (not_in_snapshot Hts) by (done || unfold ended; by rewrite Hp).
  destruct (did_commit_returns (TransactionXmin (s_xmins s (k_proc k)))) as (c' & b & Hdc & Hcom & _). cbn [negb andb]. unfold env, env_of. cbn [Visibility.TransactionIdDidCommit]. rewrite Hdc.
  pose proof (tk_phase _ _ _ _ (co_trees _ _ (iv_core _ _ Hi) t Htt)) as Hph. unfold phase_ok in Hph. rewrite Hp in Hph. apply Hcom. by apply Hph.
Qed.

(** And for one that had not. *)
Context (Hfl : x_flagged t = false) (Hown : k_own k ≠ Some (x_top t)).

Lemma in_snapshot : x_top t ∉ ended_tops (k_start k) → f ∈ x_live t → XidInMVCCSnapshot env (u32 f) d = true.
Proof.
  intros Hne Hlive. pose proof (member_all base s Hi t Htt f Hf) as Hall. pose proof (member_window base s Hi t f Htt Hall) as Hfw. pose proof (top_least base s Hi t Htt f Hall) as Htop.
  destruct (ak_xmax _ _ _ _ _ _ Hk) as (HXw & HX & _). destruct (ak_xmin _ _ _ _ _ _ Hk) as (Hmw & Hm & HmX).
  pose proof (ak_seen _ _ _ _ _ _ Hk t Htt Hne Hfl Hown) as Hseen. pose proof (ak_recovery _ _ _ _ _ _ Hk) as Hrec. fold d in HX, Hm, Hseen, Hrec.
  unfold XidInMVCCSnapshot. rewrite HX, Hm, (proj1 (window_precedes base _ _ Hfw Hmw)), (proj2 (window_precedes base _ _ Hfw HXw)), Hrec.
  pose proof (ak_oldest _ _ _ _ _ _ Hk t Htt Hne (or_introl Hfl)) as Hold. rewrite (proj2 (Z.ltb_ge _ _)) by lia.
  destruct (Z.leb_spec X f) as [?|HfX]; [done|]. destruct Hseen as (Hxip & _ & Hsubs); [lia|]. cbn [negb]. destruct (suboverflowed d) eqn:Hso; cbn [negb].
  - destruct held_topmost as (M & g & HMm & Htop' & Hg & Hor). unfold env, env_of. cbn [Visibility.SubTransGetTopmostTransaction]. rewrite Htop'.
    assert (g = x_top t) as -> by (destruct Hor as [?|HgM]; [done|]; pose proof (top_least base s Hi t Htt g Hg); lia).
    rewrite (proj1 (window_precedes base _ _ (top_window base s Hi t Htt) Hmw)), (proj2 (Z.ltb_ge _ _)) by lia.
    rewrite lfind_elem. by apply bool_decide_eq_true_2.
  - rewrite !lfind_elem. unfold x_live in Hlive. apply elem_of_cons in Hlive as [->|Hlive].
    + rewrite (bool_decide_eq_true_2 (_ ∈ xip d)) by done. by destruct (bool_decide _).
    + destruct (Hsubs f Hlive HfX) as [?|Hin]; [done|]. by rewrite (bool_decide_eq_true_2 (_ ∈ subxip d)).
Qed.

Lemma sees_committed cid : current (u32 f) = false → sees env d (u32 f) cid = bool_decide (f ∈ committed_ids (k_start k)).
Proof.
  intros Hcur. unfold sees. unfold env at 1, env_of. cbn [TransactionIdIsCurrentTransactionId]. rewrite Hcur.
  pose proof (member_all base s Hi t Htt f Hf) as Hall. destruct (did_commit_returns (TransactionXmin (s_xmins s (k_proc k)))) as (c' & b & Hdc & Hcom & Habo).
  assert (Visibility.TransactionIdDidCommit env (u32 f) = b) as -> by (unfold env, env_of; cbn [Visibility.TransactionIdDidCommit]; by rewrite Hdc).
  assert (∀ u, u ∈ k_start k → x_phase u = Ended true → f ∈ x_live u → u = t) as Hsame.
  { intros u Hu Hph Hfu. destruct (ak_start _ _ _ _ _ _ Hk u Hu) as [Hu' _]; [unfold ended; by rewrite Hph|].
    destruct (same_tree base s Hi u t f f) as [-> _]; [done|done|by apply x_live_all|done|done|done]. }
  assert (f ∈ committed_ids (k_start k) ↔ t ∈ k_start k ∧ x_phase t = Ended true ∧ f ∈ x_live t) as Hiff.
  { rewrite committed_in. split; [intros (u & Hu & Hph & Hfu); by rewrite <- (Hsame u Hu Hph Hfu)|intros (? & ? & ?); by exists t]. }
  destruct member_live_or_dead as [Hlive|[Hdead Hnl]].
  2:{ rewrite (Habo Hdead), andb_false_r. symmetry. apply bool_decide_eq_false_2. rewrite Hiff. tauto. }
  destruct (decide (x_top t ∈ ended_tops (k_start k))) as [Hend|Hne].
  - apply ended_tops_in in Hend as (u & Hu & He & Htop). destruct (ak_start _ _ _ _ _ _ Hk u Hu He) as [Hu' _].
    assert (u = t) as -> by (by apply (top_unique base s Hi)). rewrite (not_in_snapshot Hu He Hlive). cbn [negb andb].
    pose proof (tk_phase _ _ _ _ (co_trees _ _ (iv_core _ _ Hi) t Htt)) as Hph. unfold phase_ok in Hph. unfold ended in He. destruct (x_phase t) as [| | |c] eqn:Hp; [done..|].
    destruct (Hph f Hlive) as [Hst _]. destruct c; cbn in Hst.
    + rewrite (Hcom Hst). symmetry. apply bool_decide_eq_true_2. by rewrite Hiff.
    + rewrite (Habo Hst). symmetry. apply bool_decide_eq_false_2. rewrite Hiff. intros (_ & ? & _). done.
  - rewrite (in_snapshot Hne Hlive). cbn [negb andb]. symmetry. apply bool_decide_eq_false_2. rewrite Hiff. intros (Hts & Hp & _). apply Hne, ended_tops_in. exists t.
    split_and!; [done|unfold ended; by rewrite Hp|done].
Qed.
End iso.

(** ** Transactions in progress *)

Section running.
Context (pa : procs) (ps : list PGPROC) (Ht : tracks pa ps) (my : nat) (xid : Z).

(** The id is one that the process shows. *)
Definition hit (p : PGPROC) : Prop :=
  TransactionIdIsValid (proc_xid p) = true ∧ (proc_xid p = xid ∨ TransactionIdPrecedes xid (proc_xid p) = false ∧ xid ∈ cached p).

(** Another process at one of the positions. *)
Definition other (idx : list nat) (i : nat) (p : PGPROC) : Prop := i ∈ idx ∧ i ≠ my ∧ ps !! i = Some p.

Definition parent_candidate (p : PGPROC) : Prop :=
  TransactionIdIsValid (proc_xid p) = true ∧ TransactionIdPrecedes xid (proc_xid p) = false ∧ overflowed (subxidStatus p) = true.

Lemma other_cons idx i j p : other (j :: idx) i p ↔ (i = j ∧ j ≠ my ∧ ps !! j = Some p) ∨ other idx i p.
Proof. unfold other. rewrite elem_of_cons. split; [intros ([->|?] & ? & ?); [by left|by right]|intros [(-> & ? & ?)|(? & ? & ?)]; by auto]. Qed.

Definition scan_result (idx : list nat) (found : list Z) (r : option (list Z)) : Prop :=
  match r with
  | None => ∃ i p, other idx i p ∧ hit p
  | Some found' => (∀ i p, other idx i p → ¬ hit p) ∧ ∀ y, y ∈ found' ↔ y ∈ found ∨ ∃ i p, other idx i p ∧ y = proc_xid p ∧ parent_candidate p
  end.

(** A process that the scan passes over. *)
Lemma scan_passes j p found found' idx r : (j ≠ my → ps !! j = Some p → ¬ hit p) → ps !! j = Some p →
  (∀ y, y ∈ found' ↔ y ∈ found ∨ (j ≠ my ∧ y = proc_xid p ∧ parent_candidate p)) → scan_result idx found' r → scan_result (j :: idx) found r.
Proof.
  intros Hno Hp Hf. destruct r as [l|]; cbn.
  - intros [H1 H2]. split.
    + intros i q [(-> & Hne & Hq)|Ho]%other_cons; [|by apply (H1 i)]. assert (q = p) as -> by congruence. by apply Hno.
    + intros y. rewrite H2, Hf. split.
      * intros [[?|(? & ? & ?)]|(i & q & Ho & ?)]; [by left|right; exists j, p; split; [apply other_cons; by left|done]|right; exists i, q; split; [apply other_cons; by right|done]].
      * intros [?|(i & q & [(-> & Hne & Hq)|Ho]%other_cons & ?)]; [by left; left| |by right; exists i, q]. assert (q = p) as -> by congruence. by left; right.
  - intros (i & q & Ho & Hq). exists i, q. split; [apply other_cons; by right|done].
Qed.

Lemma scan_running_run idx : ∀ found, (∀ i, i ∈ idx → (i < length ps)%nat) → ∃ r, scan_running my xid idx found pa = (pa, Ok r) ∧ scan_result idx found r.
Proof.
  induction idx as [|j idx IH]; intros found Hidx; cbn [scan_running].
  { exists (Some found). split; [done|]. split; [intros i p [H _]; by apply elem_of_nil in H|]. intros y. split; [by left|]. intros [?|(i & p & [H _] & _)]; [done|by apply elem_of_nil in H]. }
  destruct (lookup_lt_is_Some_2 ps j) as [p Hp]; [apply Hidx; by left|]. assert (∀ i, i ∈ idx → (i < length ps)%nat) as Hidx' by (intros i Hin; apply Hidx; by right).
  assert (∀ found', (j ≠ my → ps !! j = Some p → ¬ hit p) → (∀ y, y ∈ found' ↔ y ∈ found ∨ (j ≠ my ∧ y = proc_xid p ∧ parent_candidate p)) →
    ∃ r, scan_running my xid idx found' pa = (pa, Ok r) ∧ scan_result (j :: idx) found r) as Hpass.
  { intros found' Hno Hf. destruct (IH found' Hidx') as (r & Hrun & Hr). exists r. split; [done|]. by apply (scan_passes j p found found' idx r). }
  destruct (Nat.eqb_spec j my) as [->|Hne]; [apply Hpass; [done|tauto]|]. destruct (Forall2_lookup_r _ _ _ _ _ (tr_procs _ _ Ht) Hp) as (n & Hn & _).
  assert (at_pos pa ps n j p) as Hpos by done. destruct (dense_reads _ _ Ht _ _ _ Hpos) as (H1 & H2 & _). destruct (at_pos_proc _ _ Ht _ _ _ Hpos) as (H3 & _).
  rewrite get_run. erewrite bind_ok by (by apply rd_run). destruct (TransactionIdIsValid (proc_xid p)) eqn:Hv; cbn [negb].
  2:{ apply Hpass; [intros _ _ [? _]; congruence|]. intros y. split; [by left|intros [?|(_ & _ & ? & _)]; [done|congruence]]. }
  destruct (Z.eqb_spec (proc_xid p) xid) as [He|Hxne]; [exists None; split; [done|]; exists j, p; split; [apply other_cons; by left|split; [done|by left]]|].
  destruct (TransactionIdPrecedes xid (proc_xid p)) eqn:Hprec.
  { apply Hpass; [intros _ _ [_ [?|[? _]]]; congruence|]. intros y. split; [by left|intros [?|(_ & _ & _ & ? & _)]; [done|congruence]]. }
  do 3 erewrite bind_ok by (by apply rd_run). fold (cached p). destruct (bool_decide_reflect (xid ∈ cached p)) as [Hin|Hout].
  { exists None. split; [done|]. exists j, p. split; [apply other_cons; by left|split; [done|by right]]. }
  apply Hpass; [intros _ _ [_ [?|[_ ?]]]; done|]. intros y. unfold parent_candidate. destruct (overflowed (subxidStatus p)).
  - rewrite elem_of_app, list_elem_of_singleton. by split; [intros [?|?]; [left|right]|intros [?|(_ & ? & _)]; [left|right]].
  - split; [by left|intros [?|(_ & _ & _ & _ & ?)]; done].
Qed.
End running.

(** The backend's reads of the commit log for [TransactionIdIsInProgress]. *)
Definition aborted_of (s : sys) (n fuel : nat) (cache : fetch_cache) (x : Z) : bool :=
  match Clog.TransactionIdDidAbort fuel (pg_xact (s_shm s)) (pg_subtrans (s_shm s)) (TransactionXmin (s_xmins s n)) cache x with
  | Some (_, b) => b
  | None => false
  end.

Section in_progress.
Context (base : Z) (s : sys) (Hi : inv base s) (k : taken) (Hk : k ∈ s_snaps s) (Hheld : k_held k = true).
Context (t : xtree) (Htt : t ∈ s_trees s) (Hfl : x_flagged t = false) (Hmine : k_proc k ∉ x_holders t).
Context (f : Z) (Hf : is_member f t) (Hlive : f ∈ x_live t) (fuel : nat) (Hfuel : (length (x_subs t) < fuel)%nat).
Context (cache : fetch_cache) (Hcache : cache_ok (pg_xact (s_shm s)) cache).
Context (ps : list PGPROC) (Ht : tracks (s_pa s) ps) (my : nat) (p : PGPROC) (Hpos : at_pos (s_pa s) ps (k_proc k) my p).

Let n := k_proc k.
Let idx := seq 0 (numProcs (s_pa s)).

Lemma position_in i q : ps !! i = Some q → i ∈ idx.
Proof. intros Hq%lookup_lt_Some. apply elem_of_seq. rewrite (tracks_length _ _ Ht) in Hq. lia. Qed.

(** A process other than the backend shows a transaction of the history. *)
Lemma other_tree i q : other ps my idx i q → TransactionIdIsValid (proc_xid q) = true →
  ∃ u, u ∈ s_trees s ∧ ended u = false ∧ proc_shows u (shows q).
Proof.
  intros (_ & _ & Hq) Hv. destruct (Forall2_lookup_r _ _ _ _ _ (tr_procs _ _ Ht) Hq) as (m & Hm & _). pose proof (view_at _ _ m i q Ht (conj Hm Hq)) as Hvw.
  destruct (co_holds _ _ (iv_core _ _ Hi) m _ Hvw) as (u & Hu & He & Hin).
  { cbn. intros H0. unfold TransactionIdIsValid in Hv. by rewrite H0 in Hv. }
  destruct (holder_shown base s Hi u m Hu Hin) as (v & Hv' & Hs). assert (v = shows q) as -> by congruence. by exists u.
Qed.

(** An ended transaction is shown by nobody. *)
Lemma ended_not_shown i q g : ended t = true → other ps my idx i q → TransactionIdIsValid (proc_xid q) = true → g ∈ x_all t →
  u32 g ≠ proc_xid q ∧ u32 g ∉ cached q.
Proof.
  intros He Ho Hv Hg. destruct (other_tree i q Ho Hv) as (u & Hu & He' & Hx & _ & Hs & _). cbn in Hx, Hs. split.
  - intros Heq. rewrite Hx in Heq. destruct (same_tree base s Hi t u g (x_top u)) as [-> _]; [done|done|done|by left|done|congruence].
  - intros (y & Heq & Hy)%Hs%list_elem_of_fmap. destruct (same_tree base s Hi t u g y) as [-> _]; [done|done|done|by right|done|congruence].
Qed.

(** A running one is shown by another process. *)
Lemma running_shown : x_phase t = Running → ∃ i q, other ps my idx i q ∧ proc_shows t (shows q).
Proof.
  intros Hp. pose proof (tk_shape _ _ _ _ (co_trees _ _ (iv_core _ _ Hi) t Htt)) as Hs. unfold shape_ok in Hs. rewrite Hp in Hs.
  assert (∃ m, m ∈ x_holders t) as [m Hm] by (destruct Hs as [[m ->]|(_ & m & d & -> & _)]; exists m; by left).
  destruct (holder_shown base s Hi t m Htt Hm) as (v & Hv & Hsh). destruct (view_pos _ _ _ _ Ht Hv) as (i & q & Hq & ->). exists i, q. split; [|done].
  split_and!; [by eapply position_in, Hq| |by apply Hq]. intros ->. apply Hmine. destruct Hpos as [Hn _], Hq as [Hm' _]. congruence.
Qed.

Lemma running_found r : x_phase t = Running → scan_result ps my (u32 f) idx [] r → r = None ∨ f ≠ x_top t ∧ ∃ l, r = Some l ∧ u32 (x_top t) ∈ l.
Proof.
  intros Hp Hr. destruct r as [l|]; [right|by left]. destruct Hr as [Hno Hl]. destruct (running_shown Hp) as (i & q & Ho & Hx & _ & _ & Hov). cbn in Hx, Hov.
  pose proof (member_all base s Hi t Htt f Hf) as Hall. pose proof (member_window base s Hi t f Htt Hall) as Hfw. pose proof (top_window base s Hi t Htt) as Htw.
  destruct (window_normal base _ Htw) as (_ & _ & Hv). rewrite <- Hx in Hv. specialize (Hno i q Ho). unfold hit in Hno.
  assert (TransactionIdPrecedes (u32 f) (proc_xid q) = false) as Hnp.
  { rewrite Hx, (proj1 (window_precedes base _ _ Hfw Htw)). apply Z.ltb_ge. by apply (top_least base s Hi t Htt). }
  assert (f ≠ x_top t) as Hne by (intros He; apply Hno; rewrite He in *; by auto). split; [done|]. exists l. split; [done|]. apply Hl. right. exists i, q.
  unfold parent_candidate. split_and!; [done|done|done|done|]. destruct (overflowed (subxidStatus q)); [done|]. exfalso. apply Hno. split; [done|right]. split; [done|]. apply Hov; [done|].
  unfold x_live in Hlive. by apply elem_of_cons in Hlive as [?|?].
Qed.

Lemma ended_found r : ended t = true → scan_result ps my (u32 f) idx [] r → ∃ l, r = Some l ∧ ∀ g, g ∈ x_all t → u32 g ∉ l.
Proof.
  intros He Hr. destruct r as [l|].
  - exists l. split; [done|]. intros g Hg Hin. destruct Hr as [_ Hl]. apply Hl in Hin as [H|(i & q & Ho & Heq & Hv & _)]; [by apply elem_of_nil in H|].
    by destruct (ended_not_shown i q g He Ho Hv Hg).
  - exfalso. destruct Hr as (i & q & Ho & Hv & Hor). destruct (ended_not_shown i q f He Ho Hv (member_all base s Hi t Htt f Hf)) as [H1 H2]. by destruct Hor as [?|[_ ?]].
Qed.

(** The reads of the commit log: a running transaction is not aborted. *)
Lemma running_not_aborted : x_phase t = Running → aborted_of s n fuel cache (u32 f) = false.
Proof.
  intros Hp. pose proof (tk_phase _ _ _ _ (co_trees _ _ (iv_core _ _ Hi) t Htt)) as Hph. unfold phase_ok in Hph. rewrite Hp in Hph. specialize (Hph f Hlive).
  pose proof (member_window base s Hi t f Htt (member_all base s Hi t Htt f Hf)) as Hfw. unfold aborted_of. destruct fuel as [|fuel']; [done|]. cbn [Clog.TransactionIdDidAbort].
  destruct (fetch_status _ cache (u32 f) Hcache) as (cache' & -> & _); [apply normal_xid32, Hfw|]. unfold status in Hph. by rewrite Hph.
Qed.

(** The [xmin] of the snapshot is not newer than a running transaction. *)
Lemma running_oldest X m : taken_ok base (s_pa s) (s_trees s) k X m → x_phase t = Running → m ≤ x_top t.
Proof.
  intros Hok Hp. apply (ak_oldest _ _ _ _ _ _ Hok t Htt); [|by left]. intros (u & Hu & He & Htop)%ended_tops_in.
  destruct (ak_start _ _ _ _ _ _ Hok u Hu He) as [Hu' _]. assert (u = t) as -> by (by apply (top_unique base s Hi)). unfold ended in He. by rewrite Hp in He.
Qed.

Lemma in_progress_run current cached : current (u32 f) = false → (cached = u32 f → ended t = true) →
  ∃ cached' b, TransactionIdIsInProgress n (s_xmins s n) current (aborted_of s n fuel cache) fuel (pg_subtrans (s_shm s)) cached (u32 f) (s_pa s) = (s_pa s, Ok (Some (cached', b))) ∧
    (x_phase t = Running → b = true) ∧ (ended t = true → b = false) ∧ (cached' = cached ∨ cached' = u32 f ∧ b = false).
Proof.
  intros Hcur Hca. pose proof (member_all base s Hi t Htt f Hf) as Hall. pose proof (member_window base s Hi t f Htt Hall) as Hfw. pose proof (top_least base s Hi t Htt f Hall) as Htop.
  assert (x_phase t = Running → ended t = true → False) as Hboth by (unfold ended; by intros ->).
  destruct (iv_recent _ _ Hi k Hk) as (R & HR & HRw & _ & HRt). unfold TransactionIdIsInProgress. fold n in HR. rewrite HR, (proj1 (window_precedes base _ _ Hfw HRw)).
  destruct (Z.ltb_spec f R) as [Hlt|_].
  { exists cached, false. split_and!; [done| |done|by left]. intros Hp. assert (ended t = false) as He by (unfold ended; by rewrite Hp). specialize (HRt t Htt He Hfl). lia. }
  destruct (Z.eqb_spec cached (u32 f)) as [Heq|_]; [exists cached, false; split_and!; [done| |done|by left]; intros Hp; by destruct (Hboth Hp (Hca Heq))|].
  rewrite Hcur, get_run. destruct (iv_latest _ _ Hi) as [Hlw _]. unfold XidFromFullTransactionId. rewrite (proj1 (window_precedes base _ _ Hlw Hfw)).
  destruct (Z.ltb_spec (latestCompletedXid (s_pa s)) f) as [Hlt|_].
  { exists cached, true. split_and!; [done|done| |by left]. intros He. pose proof (tk_phase _ _ _ _ (co_trees _ _ (iv_core _ _ Hi) t Htt)) as Hph. unfold phase_ok in Hph.
    unfold ended in He. destruct (x_phase t); [done..|]. destruct (Hph f Hlive). lia. }
  erewrite bind_ok by (by apply (my_run _ _ Ht n my p)). destruct (at_pos_proc _ _ Ht _ _ _ Hpos) as (_ & -> & _). fold idx.
  destruct (scan_running_run (s_pa s) ps Ht my (u32 f) idx []) as (r & Hrun & Hr); [intros i Hin; apply elem_of_seq in Hin; rewrite (tracks_length _ _ Ht); lia|].
  erewrite bind_ok by exact Hrun. destruct (iv_snaps _ _ Hi k Hk) as (X & m & Hok).
  destruct (held_topmost base s Hi k X m Hok Hheld t Htt f Hf fuel Hfuel) as (M & g & HMm & Htm & Hg & Hor). fold n in Htm.
  destruct r as [[|y l]|].
  - exists (u32 f), false. split_and!; [done| |done|by right]. intros Hp. destruct (running_found _ Hp Hr) as [?|(_ & l & [= <-] & Hin)]; [done|by apply elem_of_nil in Hin].
  - destruct (aborted_of s n fuel cache (u32 f)) eqn:Hab.
    { exists (u32 f), false. split_and!; [done| |done|by right]. intros Hp. pose proof (running_not_aborted Hp). congruence. }
    rewrite Htm. destruct (negb (u32 g =? u32 f) && bool_decide (u32 g ∈ y :: l)) eqn:Hin.
    + exists cached, true. split_and!; [done|done| |by left]. intros He. destruct (ended_found _ He Hr) as (l' & [= <-] & Hout).
      apply andb_true_iff in Hin as [_ Hin%bool_decide_eq_true]. by destruct (Hout g Hg).
    + exists (u32 f), false. split_and!; [done| |done|by right]. intros Hp. destruct (running_found _ Hp Hr) as [?|(Hne & l' & [= <-] & Htl)]; [done|].
      pose proof (running_oldest X m Hok Hp). pose proof (top_least base s Hi t Htt g Hg). assert (g = x_top t) as -> by (destruct Hor; [done|lia]).
      rewrite (bool_decide_eq_true_2 _ Htl), andb_true_r in Hin. apply negb_false_iff, Z.eqb_eq in Hin. exfalso. apply Hne.
      symmetry. by apply (window_inj base); [by apply (top_window base s Hi)| |].
  - exists cached, true. split_and!; [done|done| |by left]. intros He. by destruct (ended_found _ He Hr) as (l & ? & _).
Qed.
End in_progress.

(** ** Properties *)

(** A system at work: the transaction of process 1 has a subtransaction and runs
    while that of process 2 commits; process 3 takes a snapshot during which
    process 1 starts another subtransaction; then the transaction of process 1
    commits. *)
Definition example_boot : sys :=
  mkSys (SetTransactionIdLimit 200000000 100 5 (mkShared (mkTransam 103 0 0 0 0 0 0) ∅ ∅ false)) (boot_procs 8 10 102) None [] [] []
    (λ _, mkXmins FirstNormalTransactionId FirstNormalTransactionId).

Definition example_schedule : list action :=
  [AJoin 1 false; AJoin 2 false; AJoin 3 false; AAssignTop 1; AStore; AAssignSub 1 0 103; AStore; ALink 1 0 0; AAssignTop 2; AStore;
   ALog 1 true; AWrite 1; AEnd 1; AScanStart 3; AAssignSub 1 0 104; AScan 0; AStore; AScan 0; ALink 1 0 1; AScan 0; AScan 0; AScanFinish 0 0;
   ALog 0 true; AWrite 0; AWrite 0; AWrite 0; AWrite 0; AWrite 0; AEnd 0].

Definition example_end : sys := default example_boot (exec_all example_schedule example_boot).

Lemma example_booted : booted 100 example_boot.
Proof.
  split; [apply set_limit_ok; [split; vm_compute; done|done|lia|split; vm_compute; done|split; vm_compute; done|]| | |done].
  - intros _ _ x _ _. unfold TransactionIdGetStatus, page_buffer. cbn. by rewrite lookup_empty, Z.shiftr_0_l.
  - intros _ _ x _ _. apply lookup_empty.
  - exists 8%nat, 10%nat, 102. split_and!; [done|split; vm_compute; done|lia|vm_compute; done].
Qed.

Lemma example_reachable : reachable 100 (length example_schedule + 0) example_end.
Proof. eapply exec_reachable; [apply reach_boot, example_booted|]. vm_compute. reflexivity. Qed.

Lemma example_facts : ∃ k t0 t1, s_snaps example_end !! 0%nat = Some k ∧ s_trees example_end !! 0%nat = Some t0 ∧ s_trees example_end !! 1%nat = Some t1 ∧
  k_held k = true ∧ k_own k = None ∧ k_proc k = 3%nat ∧ committed_ids (k_start k) = [105] ∧
  x_flagged t0 = false ∧ length (x_subs t0) = 2%nat ∧ x_phase t0 = Ended true ∧ x_live t0 = [103; 104; 106] ∧ (∀ f, f ∈ [103; 104; 106] → is_member f t0) ∧
  x_flagged t1 = false ∧ length (x_subs t1) = 0%nat ∧ is_member 105 t1.
Proof.
  do 3 eexists. split_and!; [vm_compute; reflexivity..| |vm_compute; reflexivity|vm_compute; reflexivity|left; reflexivity].
  intros f Hf. rewrite !elem_of_cons in Hf. destruct Hf as [->|[->|[->|Hf]]].
  - left. reflexivity.
  - right. eexists. split; [left|split; reflexivity].
  - right. eexists. split; [right; left|split; reflexivity].
  - by apply elem_of_nil in Hf.
Qed.

(** C11.  Snapshot isolation.  In every state that the running system can reach,
    with other backends assigning ids, aborting subtransactions, committing and
    preparing transactions between the steps of every snapshot, and with
    snapshots reused: a snapshot that a backend still holds sees what a
    transaction or subtransaction of another backend did exactly if that
    transaction had committed when the snapshot was started, and the
    subtransaction had not been rolled back; however much has committed since, and
    whether or not the caches of subtransaction ids had overflowed.  The reads of
    the commit log and of [pg_subtrans] that the test makes return.  Transactions
    of lazy vacuum and logical decoding, which write no rows, are exempt. *)
Theorem snapshot_isolation base n s k t f fuel cache current multi combo cid :
  reachable base n s → Z.of_nat n < 2 ^ 64 - 1 → k ∈ s_snaps s → k_held k = true → t ∈ s_trees s → x_flagged t = false → k_own k ≠ Some (x_top t) →
  is_member f t → (length (x_subs t) < fuel)%nat → cache_ok (pg_xact (s_shm s)) cache → current (u32 f) = false →
  sees (env_of s (k_proc k) fuel cache current multi combo) (snap_data (k_snap k)) (u32 f) cid = bool_decide (f ∈ committed_ids (k_start k)) ∧
  is_Some (Clog.TransactionIdDidCommit fuel (pg_xact (s_shm s)) (pg_subtrans (s_shm s)) (TransactionXmin (s_xmins s (k_proc k))) cache (u32 f)) ∧
  ∃ y, ProcArray.SubTransGetTopmostTransaction fuel (pg_subtrans (s_shm s)) (TransactionXmin (s_xmins s (k_proc k))) (u32 f) = Some (Ok y).
Proof.
  intros Hr Hn Hk Hheld Htt Hfl Hown Hf Hfuel Hc Hcur. destruct (system_inv base n s Hr Hn) as [Hi _]. destruct (iv_snaps _ _ Hi k Hk) as (X & m & Hok).
  split_and!.
  - by apply (sees_committed base s Hi k X m Hok Hheld t).
  - destruct (did_commit_returns base s Hi t Htt f Hf fuel Hfuel cache Hc (TransactionXmin (s_xmins s (k_proc k)))) as (c' & b & -> & _). by eexists.
  - by apply (topmost_returns base s Hi k X m Hok Hheld t).
Qed.

Lemma snapshot_isolation_witness :
  ∃ k, s_snaps example_end !! 0%nat = Some k ∧
    (∀ f, f ∈ [103; 104; 106] → f ∈ committed_ids (s_trees example_end) ∧
       sees (env_of example_end (k_proc k) 10 (0, 0) (λ _, false) id []) (snap_data (k_snap k)) (u32 f) 0 = false) ∧
    sees (env_of example_end (k_proc k) 10 (0, 0) (λ _, false) id []) (snap_data (k_snap k)) (u32 105) 0 = true.
Proof.
  destruct example_facts as (k & t0 & t1 & Hk & Ht0 & Ht1 & Hheld & Hown & _ & Hstart & Hf0 & Hl0 & Hp0 & Hlive & Hm0 & Hf1 & Hl1 & Hm1).
  exists k. split; [exact Hk|]. apply list_elem_of_lookup_2 in Hk, Ht0, Ht1. pose proof example_reachable as Hr. revert Hk Ht0 Ht1 Hr. generalize example_end. intros e Hk Ht0 Ht1 Hr.
  assert (cache_ok (pg_xact (s_shm e)) (0, 0)) as Hc by (left; reflexivity). split.
  - intros f Hf. split; [apply committed_in; exists t0; by rewrite Hlive|].
    destruct (snapshot_isolation 100 _ e k t0 f 10 (0, 0) (λ _, false) id [] 0 Hr) as [-> _]; [by vm_compute|done|done|done|done|by rewrite Hown|by apply Hm0|lia|done|done|].
    rewrite Hstart. apply bool_decide_eq_false_2. intros ->%list_elem_of_singleton. rewrite !elem_of_cons in Hf. destruct Hf as [?|[?|[?|Hf]]]; [lia|lia|lia|by apply elem_of_nil in Hf].
  - destruct (snapshot_isolation 100 _ e k t1 105 10 (0, 0) (λ _, false) id [] 0 Hr) as [-> _]; [by vm_compute|done|done|done|done|by rewrite Hown|done|lia|done|done|].
    rewrite Hstart. by apply bool_decide_eq_true_2; left.
Defined.

(** A transaction or recorded subtransaction of another backend, with fuel for its
    chain of parents. *)
Definition other_xact (s : sys) (k : taken) (fuel : nat) (f : Z) : Prop :=
  ∃ t, t ∈ s_trees s ∧ x_flagged t = false ∧ k_own k ≠ Some (x_top t) ∧ is_member f t ∧ (length (x_subs t) < fuel)%nat.

(** C12.  What a query reads.  In every reachable state, [HeapTupleSatisfiesMVCC]
    with a snapshot that is still held, the process array, the commit log and
    [pg_subtrans] of that state returns, and shows a row of other backends
    exactly if its inserter had committed when the snapshot was started and its
    deleter, where it has one, had not. *)
Theorem row_isolation base n s k f d fuel cache current multi combo buf tup state :
  reachable base n s → Z.of_nat n < 2 ^ 64 - 1 → k ∈ s_snaps s → k_held k = true → cache_ok (pg_xact (s_shm s)) cache →
  let env := env_of s (k_proc k) fuel cache current multi combo in
  tuple_ok env tup → HeapTupleHeaderXminFrozen tup = false → t_xmin tup = u32 f → deleter env tup = u32 <$> d →
  (∀ g, g ∈ f :: option_list d → other_xact s k fuel g ∧ current (u32 g) = false) →
  ∃ b tup' state', HeapTupleSatisfiesMVCC env buf (snap_data (k_snap k)) tup state = Ok (b, tup', state') ∧
    (b = true ↔ f ∈ committed_ids (k_start k) ∧ ∀ g, d = Some g → g ∉ committed_ids (k_start k)).
Proof.
  intros Hr Hn Hk Hheld Hc env Htup Hfr Hx Hd Hother. destruct (system_inv base n s Hr Hn) as [Hi _]. destruct (iv_snaps _ _ Hi k Hk) as (X & m & Hok).
  assert (∀ g cid, g ∈ f :: option_list d → sees env (snap_data (k_snap k)) (u32 g) cid = bool_decide (g ∈ committed_ids (k_start k))) as Hsees.
  { intros g cid Hg. destruct (Hother g Hg) as [(t & Htt & Hfl & Hown & Hm & Hfuel) Hcur]. by apply (sees_committed base s Hi k X m Hok Hheld t). }
  destruct (HeapTupleSatisfiesMVCC_ok env buf (snap_data (k_snap k)) tup state Htup) as ([[b t'] s'] & Hrun & (Hb & _)). cbn in Hb. exists b, t', s'. split; [done|].
  rewrite Hb. unfold mvcc_visible, inserted, deleted. rewrite Hfr, Hx, Hd. cbn [orb]. rewrite Hsees by (by left). rewrite andb_true_iff, bool_decide_eq_true, negb_true_iff.
  apply and_iff_compat_l. destruct d as [g|]; cbn.
  - rewrite Hsees, bool_decide_eq_false by (right; by left). split; [by intros ? ? [= <-]|by auto].
  - done.
Qed.

(** A row that one id has inserted and another one deleted, without hint bits. *)
Definition plain_row (xmin xmax : Z) : HeapTupleHeader := mkTuple xmin xmax 0 0.

Lemma plain_row_ok env xmin xmax : TransactionIdIsCurrentTransactionId env xmin = false →
  tuple_ok env (plain_row xmin xmax) ∧ HeapTupleHeaderXminFrozen (plain_row xmin xmax) = false ∧ deleter env (plain_row xmin xmax) = Some xmax.
Proof. intros Hc. split_and!; [|done|done]. split; try done. cbn [plain_row t_xmin]. by rewrite Hc. Qed.

Lemma row_isolation_witness :
  ∃ k, s_snaps example_end !! 0%nat = Some k ∧
    let shows_row f g b := ∃ tup' state', HeapTupleSatisfiesMVCC (env_of example_end (k_proc k) 10 (0, 0) (λ _, false) id []) example_buf (snap_data (k_snap k))
      (plain_row (u32 f) (u32 g)) None = Ok (b, tup', state') in
    shows_row 105 103 true ∧ shows_row 104 105 false.
Proof.
  destruct example_facts as (k & t0 & t1 & Hk & Ht0 & Ht1 & Hheld & Hown & _ & Hstart & Hf0 & Hl0 & _ & _ & Hm0 & Hf1 & Hl1 & Hm1).
  exists k. split; [exact Hk|]. apply list_elem_of_lookup_2 in Hk, Ht0, Ht1. pose proof example_reachable as Hr. revert Hk Ht0 Ht1 Hr. generalize example_end. intros e Hk Ht0 Ht1 Hr.
  assert (cache_ok (pg_xact (s_shm e)) (0, 0)) as Hc by (left; reflexivity).
  assert (∀ g, g ∈ [103; 104] → other_xact e k 10 g) as Ho0.
  { intros g Hg. exists t0. split_and!; [done|done|by rewrite Hown| |lia]. apply Hm0. apply elem_of_cons in Hg as [->|Hg]; [by left|]. apply list_elem_of_singleton in Hg as ->. by right; left. }
  assert (other_xact e k 10 105) as Ho1 by (exists t1; split_and!; [done|done|by rewrite Hown|done|lia]).
  destruct (plain_row_ok (env_of e (k_proc k) 10 (0, 0) (λ _, false) id []) (u32 105) (u32 103) eq_refl) as (R1 & R2 & R3).
  destruct (plain_row_ok (env_of e (k_proc k) 10 (0, 0) (λ _, false) id []) (u32 104) (u32 105) eq_refl) as (Q1 & Q2 & Q3). split.
  - destruct (row_isolation 100 _ e k 105 (Some 103) 10 (0, 0) (λ _, false) id [] example_buf (plain_row (u32 105) (u32 103)) None Hr) as (b & t' & s' & -> & Hb); [by vm_compute|done|done|done|exact R1|done|done|done| |].
    { intros g [->|[->|Hg]%elem_of_cons]%elem_of_cons; [done|split; [apply Ho0; by left|done]|by apply elem_of_nil in Hg]. }
    exists t', s'. do 3 f_equal. apply Hb. rewrite Hstart. split; [by left|]. intros g [= <-] Hin%list_elem_of_singleton. lia.
  - destruct (row_isolation 100 _ e k 104 (Some 105) 10 (0, 0) (λ _, false) id [] example_buf (plain_row (u32 104) (u32 105)) None Hr) as (b & t' & s' & -> & Hb); [by vm_compute|done|done|done|exact Q1|done|done|done| |].
    { intros g [->|[->|Hg]%elem_of_cons]%elem_of_cons; [split; [apply Ho0; by right; left|done]|done|by apply elem_of_nil in Hg]. }
    exists t', s'. destruct b; [|done]. rewrite Hstart in Hb. destruct (proj1 Hb eq_refl) as [Hin _]. apply list_elem_of_singleton in Hin. lia.
Defined.

(** C15.  Who is in progress.  In every reachable state, a backend with a snapshot
    that asks [TransactionIdIsInProgress] about a transaction of another backend,
    or about one of its subtransactions that was not rolled back, gets an answer:
    yes while that transaction runs, also for subtransactions that no cache has
    any more, and no when it has ended.  The id that the function remembers as not
    in progress is one for which it answered no. *)
Theorem in_progress_correct base m s k t f fuel cache current cached :
  reachable base m s → Z.of_nat m < 2 ^ 64 - 1 → k ∈ s_snaps s → k_held k = true → t ∈ s_trees s → x_flagged t = false → k_proc k ∉ x_holders t →
  is_member f t → f ∈ x_live t → (length (x_subs t) < fuel)%nat → cache_ok (pg_xact (s_shm s)) cache → current (u32 f) = false → (cached = u32 f → ended t = true) →
  ∃ cached' b,
    TransactionIdIsInProgress (k_proc k) (s_xmins s (k_proc k)) current (aborted_of s (k_proc k) fuel cache) fuel (pg_subtrans (s_shm s)) cached (u32 f) (s_pa s) =
      (s_pa s, Ok (Some (cached', b))) ∧
    (x_phase t = Running → b = true) ∧ (ended t = true → b = false) ∧ (cached' = cached ∨ cached' = u32 f ∧ b = false).
Proof.
  intros Hr Hm Hk Hheld Htt Hfl Hmine Hf Hlive Hfuel Hc Hcur Hca. destruct (system_inv base m s Hr Hm) as [Hi _]. destruct (co_wf _ _ (iv_core _ _ Hi)) as (ps & Ht & _).
  destruct (iv_snaps _ _ Hi k Hk) as (X & mn & Hok). destruct (ak_held _ _ _ _ _ _ Hok Hheld) as (v & M & Hv & _). destruct (view_pos _ _ _ _ Ht Hv) as (my & p & Hpos & _).
  by apply (in_progress_run base s Hi k Hk Hheld t Htt Hfl Hmine f Hf Hlive fuel Hfuel cache Hc ps Ht my p Hpos).
Qed.

(** The example right after the snapshot: the first transaction still runs. *)
Definition example_mid : sys := default example_boot (exec_all (take 22 example_schedule) example_boot).

Lemma example_mid_reachable : reachable 100 (22 + 0) example_mid.
Proof. eapply (exec_reachable 100 0 _ (take 22 example_schedule)); [apply reach_boot, example_booted|]. vm_compute. reflexivity. Qed.

Lemma example_mid_facts : ∃ k t0 t1, s_snaps example_mid !! 0%nat = Some k ∧ s_trees example_mid !! 0%nat = Some t0 ∧ s_trees example_mid !! 1%nat = Some t1 ∧
  k_held k = true ∧ k_proc k = 3%nat ∧ x_flagged t0 = false ∧ x_holders t0 = [1%nat] ∧ length (x_subs t0) = 2%nat ∧ x_phase t0 = Running ∧ is_member 106 t0 ∧ 106 ∈ x_live t0 ∧
  x_flagged t1 = false ∧ x_holders t1 = [] ∧ length (x_subs t1) = 0%nat ∧ ended t1 = true ∧ is_member 105 t1 ∧ 105 ∈ x_live t1.
Proof.
  do 3 eexists. split_and!; try (vm_compute; reflexivity).
  - right. eexists. split; [right; left|split; reflexivity].
  - by right; right; left.
  - left. reflexivity.
  - by left.
Qed.

Lemma in_progress_correct_witness :
  let asks f := TransactionIdIsInProgress 3 (s_xmins example_mid 3) (λ _, false) (aborted_of example_mid 3 10 (0, 0)) 10 (pg_subtrans (s_shm example_mid)) 0 (u32 f) (s_pa example_mid) in
  (∃ c, asks 106 = (s_pa example_mid, Ok (Some (c, true)))) ∧ ∃ c, asks 105 = (s_pa example_mid, Ok (Some (c, false))).
Proof.
  destruct example_mid_facts as (k & t0 & t1 & Hk & Ht0 & Ht1 & Hheld & Hn & Hf0 & Hh0 & Hl0 & Hp0 & Hm0 & Hv0 & Hf1 & Hh1 & Hl1 & He1 & Hm1 & Hv1).
  apply list_elem_of_lookup_2 in Hk, Ht0, Ht1. pose proof example_mid_reachable as Hr. revert Hk Ht0 Ht1 Hr. generalize example_mid. intros e Hk Ht0 Ht1 Hr. assert (cache_ok (pg_xact (s_shm e)) (0, 0)) as Hc by (left; reflexivity).
  split.
  - destruct (in_progress_correct 100 _ e k t0 106 10 (0, 0) (λ _, false) 0 Hr) as (c & b & Hrun & H1 & _);
      [by vm_compute|done|done|done|done|rewrite Hn, Hh0; intros Hin%list_elem_of_singleton; lia|done|done|lia|done|done|intros H; vm_compute in H; lia|].
    rewrite (H1 Hp0), Hn in Hrun. exists c. exact Hrun.
  - destruct (in_progress_correct 100 _ e k t1 105 10 (0, 0) (λ _, false) 0 Hr) as (c & b & Hrun & _ & H2 & _);
      [by vm_compute|done|done|done|done|rewrite Hh1; by intros Hin%elem_of_nil|done|done|lia|done|done|done|].
    rewrite (H2 He1), Hn in Hrun. exists c. exact Hrun.
Defined.
