(* ===== verification/Horizons.v ===== *)
(** * What vacuum may remove

    [ComputeXidHorizons] of [procarray.c] and the [GlobalVis] tests over it, with
    which pruning and vacuum decide that nobody needs a deleted row any more.  The
    theorem composes them with the running system of [SnapshotSys] and with
    [HeapTupleSatisfiesMVCC]: a row they let go of is seen by no snapshot that is
    in use, whatever happened since the bounds were computed.

    A backend computes its bounds in one step of the system; hot standby is not
    modelled. *)
From stdpp Require Import base tactics list gmap strings numbers sorting.
From Stdlib Require Import ZArith Lia Bool.
From S2P Require Import Prelude Visibility Clog XidGen ProcArray SnapshotSys SnapshotInv SnapshotScan SnapshotIso.

(** ** Horizons *)

Definition TransactionIdOlder (a b : Z) : Z :=
  if negb (TransactionIdIsValid a) then b
  else if negb (TransactionIdIsValid b) then a
  else if TransactionIdPrecedes a b then a else b.

Definition FullTransactionIdIsValid (x : Z) : bool := TransactionIdIsValid (XidFromFullTransactionId x).

Definition FullTransactionIdNewer (a b : Z) : Z :=
  if negb (FullTransactionIdIsValid a) then b
  else if negb (FullTransactionIdIsValid b) then a
  else if b <? a then a else b.

Definition PROC_AFFECTS_ALL_HORIZONS : Z := 0x20.

Definition InvalidOid : Z := 0.

(** What else is read: the databases of the processes and of this one, and the
    oldest ids that replication slots need. *)
Record horizon_env : Type := mkHorizonEnv {
  databaseId : nat → Z;
  MyDatabaseId : Z;
  replication_slot_xmin : Z;
  replication_slot_catalog_xmin : Z
}.

Record ComputeXidHorizonsResult : Type := mkHorizons {
  latest_completed : Z;
  slot_xmin : Z;
  slot_catalog_xmin : Z;
  oldest_considered_running : Z;
  shared_oldest_nonremovable : Z;
  shared_oldest_nonremovable_raw : Z;
  catalog_oldest_nonremovable : Z;
  data_oldest_nonremovable : Z;
  temp_oldest_nonremovable : Z
}.

(** The three bounds of the loop: considered running, shared and data. *)
Record bounds : Type := mkBounds {
  b_running : Z;
  b_shared : Z;
  b_data : Z
}.

(** One iteration of the loop. *)
Definition consider (e : horizon_env) (pgprocno : nat) (flags xid xmin : Z) (b : bounds) : bounds :=
  let xmin := TransactionIdOlder xmin xid in
  if negb (TransactionIdIsValid xmin) then b
  else
    let b := mkBounds (TransactionIdOlder (b_running b) xmin) (b_shared b) (b_data b) in
    if hasflags flags (Z.lor PROC_IN_VACUUM PROC_IN_LOGICAL_DECODING) then b
    else
      let b := mkBounds (b_running b) (TransactionIdOlder (b_shared b) xmin) (b_data b) in
      if (databaseId e pgprocno =? MyDatabaseId e) || (MyDatabaseId e =? InvalidOid) || hasflags flags PROC_AFFECTS_ALL_HORIZONS
      then mkBounds (b_running b) (b_shared b) (TransactionIdOlder (b_data b) xmin)
      else b.

Fixpoint horizon_loop (e : horizon_env) (idx : list nat) (b : bounds) : PA bounds :=
  match idx with
  | [] => mret b
  | index :: idx' =>
      pa ← get;
      pgprocno ← rd (pgprocnos pa) index;
      proc ← rd (allProcs pa) pgprocno;
      flags ← rd (statusFlags pa) index;
      xid ← rd (xids pa) index;
      horizon_loop e idx' (consider e pgprocno flags xid (proc_xmin proc) b)
  end.

(** The slots back up the horizons after the loop. *)
Definition apply_slots (e : horizon_env) (latest temp : Z) (b : bounds) : ComputeXidHorizonsResult :=
  let shared_raw := TransactionIdOlder (b_shared b) (replication_slot_xmin e) in
  let data := TransactionIdOlder (b_data b) (replication_slot_xmin e) in
  let shared := TransactionIdOlder shared_raw (replication_slot_catalog_xmin e) in
  let catalog := TransactionIdOlder data (replication_slot_catalog_xmin e) in
  let running := TransactionIdOlder (TransactionIdOlder (TransactionIdOlder (b_running b) shared) catalog) data in
  mkHorizons latest (replication_slot_xmin e) (replication_slot_catalog_xmin e) running shared shared_raw catalog data temp.

(** ** The bounds a backend keeps *)

Record GlobalVisState : Type := mkVis {
  definitely_needed : Z;
  maybe_needed : Z
}.

Inductive GlobalVisHorizonKind : Type := VISHORIZON_SHARED | VISHORIZON_CATALOG | VISHORIZON_DATA | VISHORIZON_TEMP.

Record global_vis : Type := mkGlobalVis {
  GlobalVisSharedRels : GlobalVisState;
  GlobalVisCatalogRels : GlobalVisState;
  GlobalVisDataRels : GlobalVisState;
  GlobalVisTempRels : GlobalVisState;
  ComputeXidHorizonsResultLastXmin : Z
}.

(** What [GlobalVisHorizonKindForRel] looks at in a relation. *)
Record rel_info : Type := mkRelInfo {
  relisshared : bool;
  IsCatalogRelation : bool;
  RelationIsAccessibleInLogicalDecoding : bool;
  RELATION_IS_LOCAL : bool
}.

Definition GlobalVisHorizonKindForRel (rel : option rel_info) : GlobalVisHorizonKind :=
  match rel with
  | None => VISHORIZON_SHARED
  | Some r =>
      if relisshared r then VISHORIZON_SHARED
      else if IsCatalogRelation r || RelationIsAccessibleInLogicalDecoding r then VISHORIZON_CATALOG
      else if negb (RELATION_IS_LOCAL r) then VISHORIZON_DATA
      else VISHORIZON_TEMP
  end.

(** [GlobalVisTestFor] chooses the state to be tested. *)
Definition GlobalVisTestFor (kind : GlobalVisHorizonKind) (gv : global_vis) : GlobalVisState :=
  match kind with
  | VISHORIZON_SHARED => GlobalVisSharedRels gv
  | VISHORIZON_CATALOG => GlobalVisCatalogRels gv
  | VISHORIZON_DATA => GlobalVisDataRels gv
  | VISHORIZON_TEMP => GlobalVisTempRels gv
  end.

Definition GlobalVisUpdateApply (RecentXmin : Z) (h : ComputeXidHorizonsResult) (gv : global_vis) : global_vis :=
  let rel x := FullXidRelativeTo (latest_completed h) x in
  let newer maybe st := mkVis (FullTransactionIdNewer maybe (definitely_needed st)) maybe in
  mkGlobalVis (newer (rel (shared_oldest_nonremovable h)) (GlobalVisSharedRels gv))
    (newer (rel (catalog_oldest_nonremovable h)) (GlobalVisCatalogRels gv))
    (newer (rel (data_oldest_nonremovable h)) (GlobalVisDataRels gv))
    (let maybe := rel (temp_oldest_nonremovable h) in mkVis maybe maybe)
    RecentXmin.

(** [ComputeXidHorizons] outside of recovery. *)
Definition ComputeXidHorizons (my : nat) (e : horizon_env) (RecentXmin : Z) (gv : global_vis) : PA (ComputeXidHorizonsResult * global_vis) :=
  pa ← get;
  proc ← MyProc my;
  let latest := latestCompletedXid pa in
  let initial := TransactionIdAdvance (XidFromFullTransactionId latest) in
  let temp := if TransactionIdIsValid (proc_xid proc) then proc_xid proc else initial in
  b ← horizon_loop e (seq 0 (numProcs pa)) (mkBounds initial initial initial);
  let h := apply_slots e latest temp b in
  mret (h, GlobalVisUpdateApply RecentXmin h gv).

Definition GetOldestNonRemovableTransactionId (my : nat) (e : horizon_env) (RecentXmin : Z) (rel : option rel_info) (gv : global_vis) : PA (Z * global_vis) :=
  '(h, gv') ← ComputeXidHorizons my e RecentXmin gv;
  mret (match GlobalVisHorizonKindForRel rel with
        | VISHORIZON_SHARED => shared_oldest_nonremovable h
        | VISHORIZON_CATALOG => catalog_oldest_nonremovable h
        | VISHORIZON_DATA => data_oldest_nonremovable h
        | VISHORIZON_TEMP => temp_oldest_nonremovable h
        end, gv').

(** The part of [GetSnapshotData] that maintains the bounds: [latest], [oldestxid],
    [xmin] and [myxid] are what it has read under the lock. *)
Definition maintain_vis (e : horizon_env) (latest oldestxid xmin myxid : Z) (gv : global_vis) : global_vis :=
  let oldestfxid := FullXidRelativeTo latest oldestxid in
  let def_vis_xid_data := TransactionIdOlder xmin (replication_slot_xmin e) in
  let def_vis_xid := TransactionIdOlder (replication_slot_catalog_xmin e) def_vis_xid_data in
  let def_vis_fxid := FullXidRelativeTo latest def_vis_xid in
  let def_vis_fxid_data := FullXidRelativeTo latest def_vis_xid_data in
  let upd def st := mkVis (FullTransactionIdNewer def (definitely_needed st)) (FullTransactionIdNewer (maybe_needed st) oldestfxid) in
  let temp := if TransactionIdIsNormal myxid then FullXidRelativeTo latest myxid else FullTransactionIdAdvance latest in
  mkGlobalVis (upd def_vis_fxid (GlobalVisSharedRels gv)) (upd def_vis_fxid (GlobalVisCatalogRels gv))
    (upd def_vis_fxid_data (GlobalVisDataRels gv)) (mkVis temp temp) (ComputeXidHorizonsResultLastXmin gv).

Definition GlobalVisTestShouldUpdate (RecentXmin : Z) (st : GlobalVisState) (gv : global_vis) : bool :=
  if negb (TransactionIdIsValid (ComputeXidHorizonsResultLastXmin gv)) then true
  else if definitely_needed st <=? maybe_needed st then false
  else negb (RecentXmin =? ComputeXidHorizonsResultLastXmin gv).

Definition GlobalVisTestIsRemovableFullXid (my : nat) (e : horizon_env) (RecentXmin : Z) (kind : GlobalVisHorizonKind) (fxid : Z)
    (allow_update : bool) (gv : global_vis) : PA (bool * global_vis) :=
  let st := GlobalVisTestFor kind gv in
  if fxid <? maybe_needed st then mret (true, gv)
  else if definitely_needed st <=? fxid then mret (false, gv)
  else if allow_update && GlobalVisTestShouldUpdate RecentXmin st gv then
    '(_, gv') ← ComputeXidHorizons my e RecentXmin gv;
    mret (fxid <? maybe_needed (GlobalVisTestFor kind gv'), gv')
  else mret (false, gv).

Definition GlobalVisTestIsRemovableXid (my : nat) (e : horizon_env) (RecentXmin : Z) (kind : GlobalVisHorizonKind) (xid : Z)
    (allow_update : bool) (gv : global_vis) : PA (bool * global_vis) :=
  let fxid := FullXidRelativeTo (definitely_needed (GlobalVisTestFor kind gv)) xid in
  GlobalVisTestIsRemovableFullXid my e RecentXmin kind fxid allow_update gv.

(** ** The bounds in a running system *)

(** A relation of the kind is seen by processes of its database. *)
Definition counts (kind : GlobalVisHorizonKind) (e : horizon_env) (db : Z) : Prop :=
  match kind with
  | VISHORIZON_SHARED => True
  | VISHORIZON_CATALOG | VISHORIZON_DATA => db = MyDatabaseId e ∨ MyDatabaseId e = InvalidOid
  | VISHORIZON_TEMP => False
  end.

Definition slot_ok (base x : Z) : Prop := x = InvalidTransactionId ∨ ∃ X, x = u32 X ∧ in_window base X.

(** [xdb] gives the database of a transaction: its processes are connected to it. *)
Record env_ok (base : Z) (xdb : Z → Z) (s : sys) (e : horizon_env) : Prop := mkEnvOk {
  eo_slot : slot_ok base (replication_slot_xmin e);
  eo_catalog : slot_ok base (replication_slot_catalog_xmin e);
  eo_db : ∀ t n, t ∈ s_trees s → ended t = false → n ∈ x_holders t → databaseId e n = xdb (x_top t)
}.

(** A process with a snapshot stays connected to its database, and the backend to
    its own once it is connected. *)
Definition env_goes_on (s' : sys) (e e' : horizon_env) : Prop :=
  (∀ k, k ∈ s_snaps s' → k_held k = true → databaseId e' (k_proc k) = databaseId e (k_proc k)) ∧
  (MyDatabaseId e' = MyDatabaseId e ∨ MyDatabaseId e = InvalidOid).

Definition no_vis : global_vis := mkGlobalVis (mkVis 0 0) (mkVis 0 0) (mkVis 0 0) (mkVis 0 0) InvalidTransactionId.

(** The system together with the bounds of one backend: it computes horizons and
    takes snapshots at any time, with values [latest] that may be older than the
    present ones. *)
Inductive vis_reachable (base : Z) (my : nat) (xdb : Z → Z) : nat → sys → horizon_env → global_vis → Prop :=
| vr_boot s e : booted base s → vis_reachable base my xdb 0 s e no_vis
| vr_step n s s' e e' gv :
    vis_reachable base my xdb n s e gv → step s s' → env_goes_on s' e e' → vis_reachable base my xdb (S n) s' e' gv
| vr_compute n s e gv recent h gv' :
    vis_reachable base my xdb n s e gv → env_ok base xdb s e → my ∈ pgprocnos (s_pa s) →
    ComputeXidHorizons my e recent gv (s_pa s) = (s_pa s, Ok (h, gv')) → vis_reachable base my xdb n s e gv'
| vr_snapshot n s e gv latest k myxid :
    vis_reachable base my xdb n s e gv → env_ok base xdb s e → in_window base latest → latest ≤ latestCompletedXid (s_pa s) →
    k ∈ s_snaps s → k_proc k = my → oldestXid (TransamVariables (s_shm s)) = u32 base →
    vis_reachable base my xdb n s e (maintain_vis e latest (oldestXid (TransamVariables (s_shm s))) (snap_xmin (snap_data (k_snap k))) myxid gv).

(** ** Bounds that are safe *)

(** Transactions the bound is about. *)
Definition relevant (kind : GlobalVisHorizonKind) (xdb : Z → Z) (e : horizon_env) (t : xtree) : Prop :=
  x_flagged t = false ∧ counts kind e (xdb (x_top t)).

(** The process is neither in lazy vacuum nor in logical decoding. *)
Definition unflagged (pa : procs) (n : nat) : Prop := ∀ v, view pa n = Some v → sh_flagged v = false.

Record safe (base : Z) (kind : GlobalVisHorizonKind) (xdb : Z → Z) (s : sys) (e : horizon_env) (b : Z) : Prop := mkSafe {
  sf_window : in_window base b;
  sf_latest : b ≤ FullTransactionIdAdvance (latestCompletedXid (s_pa s));
  sf_running : ∀ t, t ∈ s_trees s → ended t = false → relevant kind xdb e t → b ≤ x_top t;
  sf_snaps : ∀ k t, k ∈ s_snaps s → k_held k = true → counts kind e (databaseId e (k_proc k)) → unflagged (s_pa s) (k_proc k) →
    t ∈ s_trees s → ended t = true → relevant kind xdb e t → x_top t < b → x_top t ∈ ended_tops (k_start k)
}.

Lemma counts_goes_on kind e e' db : MyDatabaseId e' = MyDatabaseId e ∨ MyDatabaseId e = InvalidOid → counts kind e' db → counts kind e db.
Proof. intros [Heq|H0]; destruct kind; cbn; rewrite ?Heq, ?H0; auto. Qed.

(** A safe bound stays safe. *)
Lemma safe_step base kind xdb s s' e e' b : inv base s → preserves base s s' → env_goes_on s' e e' → safe base kind xdb s e b → safe base kind xdb s' e' b.
Proof.
  intros Hi [Hi' _ [Hl Hev Hks]] [Hdb Hmy] [S1 S2 S3 S4]. pose proof (proj2 (iv_latest _ _ Hi)) as Hlim.
  assert (∀ t, relevant kind xdb e' t → relevant kind xdb e t) as Hrel by (intros t [? ?]; split; [done|by eapply counts_goes_on]).
  split; [done|lia| |].
  - intros t' Ht' He Hr. destruct (ev_new _ _ _ _ Hev t' Ht') as [(t & Ht & Hf)|[Hfr _]]; [|lia]. rewrite (fo_top _ _ _ Hf).
    apply S3; [done| |apply Hrel in Hr as [??]; split; [by rewrite <- (fo_flagged _ _ _ Hf)|by rewrite <- (fo_top _ _ _ Hf)]].
    destruct (ended t) eqn:He'; [|done]. by rewrite (fo_ended _ _ _ Hf He'), He' in He.
  - intros k' t' Hk' Hh Hc Hu Ht' He Hr Hlt. apply Hrel in Hr.
    assert (t' ∈ s_trees s) as Ht.
    { destruct (ev_new _ _ _ _ Hev t' Ht') as [(t & Ht & Hf)|[Hfr ?]]; [|congruence]. destruct (ended t) eqn:He'; [by rewrite (fo_ended _ _ _ Hf He')|].
      exfalso. destruct Hr as [Hr1 Hr2]. assert (b ≤ x_top t); [|rewrite (fo_top _ _ _ Hf) in Hlt; lia]. apply S3; [done|done|].
      split; [by rewrite <- (fo_flagged _ _ _ Hf)|by rewrite <- (fo_top _ _ _ Hf)]. }
    destruct (Hks k' Hk' Hh) as [Hfl [(k & Hk & Hhk & Hp & Hst)|Hnew]]; [|apply ended_tops_in; exists t'; split_and!; [by apply Hnew|done|done]].
    rewrite Hst. apply S4; [done|done| | |done|done|done|done].
    + rewrite <- Hp, <- (Hdb k' Hk' Hh). by eapply counts_goes_on.
    + rewrite <- Hp. intros v Hv. destruct (Hfl v Hv) as (v' & Hv' & Hmono). destruct (sh_flagged v); [|done]. by rewrite <- (Hu v' Hv'), Hmono.
Qed.

(** ** The computation *)

Lemma older_full base a b : in_window base a → in_window base b → TransactionIdOlder (u32 a) (u32 b) = u32 (Z.min a b).
Proof.
  intros Ha Hb. unfold TransactionIdOlder. rewrite (proj2 (proj2 (window_normal base _ Ha))), (proj2 (proj2 (window_normal base _ Hb))).
  cbn [negb]. rewrite (proj1 (window_precedes base _ _ Ha Hb)). destruct (Z.ltb_spec a b); [by rewrite Z.min_l by lia|by rewrite Z.min_r by lia].
Qed.

Lemma min_window base a b : in_window base a → in_window base b → in_window base (Z.min a b).
Proof. intros Ha Hb. by destruct (Z.min_spec a b) as [[_ ->]|[_ ->]]. Qed.

(** An optional id at the right or at the left. *)
Lemma older_slot base a x : in_window base a → slot_ok base x → ∃ c, TransactionIdOlder (u32 a) x = u32 c ∧ TransactionIdOlder x (u32 a) = u32 c ∧ in_window base c ∧ c ≤ a.
Proof.
  intros Ha [->|(X & -> & HX)].
  - exists a. unfold TransactionIdOlder. rewrite (proj2 (proj2 (window_normal base _ Ha))). by split_and!.
  - exists (Z.min a X). split_and!; [by apply (older_full base)|rewrite Z.min_comm; by apply (older_full base)|by apply min_window|lia].
Qed.

Lemma relative_full base a b : in_window base a → in_window base b → base < 2 ^ 63 → FullXidRelativeTo a (u32 b) = b.
Proof.
  intros [[_ ?] ?] [[_ ?] ?] H64. unfold FullXidRelativeTo, XidFromFullTransactionId. rewrite i32_sub_u32 by lia. rewrite u64_small by lia. lia.
Qed.

Lemma newer_full base a b : in_window base a → in_window base b → FullTransactionIdNewer a b = Z.max a b.
Proof.
  intros Ha Hb. unfold FullTransactionIdNewer, FullTransactionIdIsValid, XidFromFullTransactionId.
  rewrite (proj2 (proj2 (window_normal base _ Ha))), (proj2 (proj2 (window_normal base _ Hb))). cbn [negb]. destruct (Z.ltb_spec b a); lia.
Qed.

(** The ids a process shows are in the window. *)
Definition windowed (base : Z) (v : shown) : Prop := slot_ok base (sh_xmin v) ∧ slot_ok base (sh_xid v).

(** A full id that a process shows. *)
Definition shows_id (base : Z) (v : shown) (y : Z) : Prop := in_window base y ∧ (sh_xmin v = u32 y ∨ sh_xid v = u32 y).

Lemma older_shown base v : windowed base v →
  (TransactionIdOlder (sh_xmin v) (sh_xid v) = InvalidTransactionId ∧ ∀ y, ¬ shows_id base v y) ∨
  ∃ c, TransactionIdOlder (sh_xmin v) (sh_xid v) = u32 c ∧ in_window base c ∧ ∀ y, shows_id base v y → c ≤ y.
Proof.
  assert (∀ y, in_window base y → InvalidTransactionId ≠ u32 y) as Hne by (intros y Hy He; destruct (window_normal base _ Hy) as [[] _]; congruence).
  unfold shows_id. intros [[->|(X & -> & HX)] [->|(Y & -> & HY)]].
  - left. split; [done|]. intros y [Hy [He|He]]; by apply (Hne y Hy).
  - right. exists Y. split_and!; [done|done|]. intros y [Hy [He|He]]; [by destruct (Hne y Hy)|]. apply (window_inj base) in He; [lia|done|done].
  - right. exists X. unfold TransactionIdOlder. rewrite (proj2 (proj2 (window_normal base _ HX))). split_and!; [done|done|].
    intros y [Hy [He|He]]; [|by destruct (Hne y Hy)]. apply (window_inj base) in He; [lia|done|done].
  - right. exists (Z.min X Y). split_and!; [by apply (older_full base)|by apply min_window|]. intros y [Hy [He|He]]; apply (window_inj base) in He; try done; lia.
Qed.

(** The bounds as full ids. *)
Definition low (F : bounds) : bounds := mkBounds (u32 (b_running F)) (u32 (b_shared F)) (u32 (b_data F)).

Record bounds_ok (base : Z) (F F' : bounds) : Prop := mkBoundsOk {
  bo_window : in_window base (b_running F') ∧ in_window base (b_shared F') ∧ in_window base (b_data F');
  bo_below : b_running F' ≤ b_running F ∧ b_shared F' ≤ b_shared F ∧ b_data F' ≤ b_data F;
  bo_order : b_running F ≤ b_shared F ≤ b_data F → b_running F' ≤ b_shared F' ≤ b_data F'
}.

(** The bounds take into account what the process shows. *)
Definition covers (base : Z) (e : horizon_env) (n : nat) (v : shown) (F : bounds) : Prop :=
  ∀ y, shows_id base v y → b_running F ≤ y ∧ (sh_flagged v = false → b_shared F ≤ y ∧ (counts VISHORIZON_DATA e (databaseId e n) → b_data F ≤ y)).

Lemma covers_below base e n v F F' : covers base e n v F → bounds_ok base F F' → covers base e n v F'.
Proof.
  intros Hc [_ Hb _] y Hy. destruct (Hc y Hy) as [H1 H2]. split; [lia|]. intros Hf. destruct (H2 Hf) as [H3 H4]. split; [lia|]. intros Hd. specialize (H4 Hd). lia.
Qed.

Lemma bounds_refl base F : in_window base (b_running F) ∧ in_window base (b_shared F) ∧ in_window base (b_data F) → bounds_ok base F F.
Proof. intros H. split; [done|lia|done]. Qed.

Lemma bounds_trans base F F' F'' : bounds_ok base F F' → bounds_ok base F' F'' → bounds_ok base F F''.
Proof. intros [H1 H2 H3] [H4 H5 H6]. split; [done|lia|auto]. Qed.

Section loop.
Context (base : Z) (e : horizon_env) (pa : procs) (ps : list PGPROC) (Ht : tracks pa ps).
Context (Hw : ∀ n v, view pa n = Some v → windowed base v).

Lemma consider_ok n p F : windowed base (shows p) → bounds_ok base F F →
  ∃ F', consider e n (proc_flags p) (proc_xid p) (proc_xmin p) (low F) = low F' ∧ bounds_ok base F F' ∧ covers base e n (shows p) F'.
Proof.
  intros Hv Hok. pose proof Hok as [(W1 & W2 & W3) _ _]. unfold consider. destruct (older_shown base _ Hv) as [[He Hno]|(c & He & Hc & Hmin)]; cbn in He; rewrite He.
  { exists F. split_and!; [done|done|]. intros y Hy. by destruct (Hno y). }
  rewrite (proj2 (proj2 (window_normal base _ Hc))). cbn [negb low b_running b_shared b_data]. rewrite (older_full base) by done.
  change (hasflags (proc_flags p) (Z.lor PROC_IN_VACUUM PROC_IN_LOGICAL_DECODING)) with (sh_flagged (shows p)). unfold covers. destruct (sh_flagged (shows p)).
  { exists (mkBounds (Z.min (b_running F) c) (b_shared F) (b_data F)). split_and!; [done| |]; cbn.
    - split; cbn; [split_and!; [by apply min_window|done|done]|lia|lia].
    - intros y Hy. specialize (Hmin y Hy). split; [lia|done]. }
  rewrite (older_full base) by done. destruct (_ || _) eqn:Hdb.
  - rewrite (older_full base) by done. exists (mkBounds (Z.min (b_running F) c) (Z.min (b_shared F) c) (Z.min (b_data F) c)). split_and!; [done| |]; cbn.
    + split; cbn; [split_and!; by apply min_window|lia|lia].
    + intros y Hy. specialize (Hmin y Hy). lia.
  - exists (mkBounds (Z.min (b_running F) c) (Z.min (b_shared F) c) (b_data F)). split_and!; [done| |]; cbn.
    + split; cbn; [split_and!; [by apply min_window|by apply min_window|done]|lia|lia].
    + intros y Hy. specialize (Hmin y Hy). split; [lia|]. intros _. split; [lia|]. rewrite !orb_false_iff, !Z.eqb_neq in Hdb. by intros [?|?]; destruct Hdb as [[??]?].
Qed.

Lemma loop_ok idx : ∀ F, (∀ i, i ∈ idx → (i < length ps)%nat) → bounds_ok base F F →
  ∃ F', horizon_loop e idx (low F) pa = (pa, Ok (low F')) ∧ bounds_ok base F F' ∧
    ∀ i n p, i ∈ idx → at_pos pa ps n i p → covers base e n (shows p) F'.
Proof.
  induction idx as [|i idx IH]; intros F Hidx Hok; cbn [horizon_loop].
  { exists F. split_and!; [done|done|]. intros i n p Hin. by apply elem_of_nil in Hin. }
  destruct (lookup_lt_is_Some_2 ps i) as [p Hp]; [apply Hidx; by left|]. destruct (Forall2_lookup_r _ _ _ _ _ (tr_procs _ _ Ht) Hp) as (n & Hn & _).
  assert (at_pos pa ps n i p) as Hpos by done. destruct (dense_reads _ _ Ht _ _ _ Hpos) as (H1 & _ & H2). destruct (at_pos_proc _ _ Ht _ _ _ Hpos) as (H3 & _).
  rewrite get_run. do 4 erewrite bind_ok by (by apply rd_run).
  destruct (consider_ok n p F) as (F1 & -> & Hok1 & Hcov); [apply (Hw n), (view_at _ ps n i); done|done|].
  destruct (IH F1) as (F2 & -> & Hok2 & Hall); [intros j Hj; apply Hidx; by right|apply bounds_refl, Hok1|].
  exists F2. split_and!; [done|by eapply bounds_trans|]. intros j m q [->|Hj]%elem_of_cons Hq; [|by apply (Hall j)].
  destruct Hq as [Hm Hq]. assert (m = n) as -> by congruence. assert (q = p) as -> by congruence. by eapply covers_below.
Qed.
End loop.

(** The slots can only lower the bounds. *)
Lemma slots_ok base e latest temp F : bounds_ok base F F → slot_ok base (replication_slot_xmin e) → slot_ok base (replication_slot_catalog_xmin e) →
  ∃ R S C D, apply_slots e latest temp (low F) = mkHorizons latest (replication_slot_xmin e) (replication_slot_catalog_xmin e) (u32 R) (u32 S)
      (shared_oldest_nonremovable_raw (apply_slots e latest temp (low F))) (u32 C) (u32 D) temp ∧
    in_window base R ∧ in_window base S ∧ in_window base C ∧ in_window base D ∧
    R ≤ b_running F ∧ S ≤ b_shared F ∧ C ≤ b_data F ∧ D ≤ b_data F ∧ R ≤ S ∧ R ≤ C ∧ R ≤ D.
Proof.
  intros [(W1 & W2 & W3) _ _] Hs Hc. unfold apply_slots. cbn [low b_running b_shared b_data].
  destruct (older_slot base _ _ W2 Hs) as (S0 & -> & _ & HS0 & ?). destruct (older_slot base _ _ W3 Hs) as (D & -> & _ & HD & ?).
  destruct (older_slot base _ _ HS0 Hc) as (S & -> & _ & HS & ?). destruct (older_slot base _ _ HD Hc) as (C & -> & _ & HC & ?).
  rewrite (older_full base (b_running F)) by done. rewrite (older_full base (Z.min _ _)) by (by try apply min_window).
  rewrite (older_full base (Z.min _ _)) by (by repeat apply min_window). exists (Z.min (Z.min (Z.min (b_running F) S) C) D), S, C, D.
  split_and!; [done|by repeat apply min_window|done|done|done|lia..].
Qed.

Section compute.
Context (base : Z) (xdb : Z → Z) (s : sys) (Hi : inv base s) (e : horizon_env) (Henv : env_ok base xdb s e).

Lemma view_windowed n v : view (s_pa s) n = Some v → windowed base v.
Proof.
  intros Hv. split.
  - destruct (decide (sh_xmin v = InvalidTransactionId)) as [?|Hne]; [by left|right]. destruct (iv_xmins _ _ Hi n v Hv Hne) as (_ & M & ? & ? & _). by exists M.
  - destruct (decide (sh_xid v = InvalidTransactionId)) as [?|Hne]; [by left|right]. destruct (co_holds _ _ (iv_core _ _ Hi) n v Hv Hne) as (t & Ht & _ & Hn).
    destruct (holder_shown base s Hi t n Ht Hn) as (v' & Hv' & Hx & _). assert (v' = v) as -> by congruence. exists (x_top t). split; [done|by apply (top_window base s Hi)].
Qed.

(** A bound below what every process shows that counts is safe. *)
Lemma bound_safe kind B : in_window base B → B ≤ FullTransactionIdAdvance (latestCompletedXid (s_pa s)) →
  (∀ n v y, view (s_pa s) n = Some v → sh_flagged v = false → counts kind e (databaseId e n) → shows_id base v y → B ≤ y) → safe base kind xdb s e B.
Proof.
  intros Hw Hl Hall. split; [done|done| |].
  - intros t Ht He [Hfl Hc]. assert (∃ n, n ∈ x_holders t) as [n Hn].
    { pose proof (tk_shape _ _ _ _ (co_trees _ _ (iv_core _ _ Hi) t Ht)) as Hs. unfold shape_ok in Hs. unfold ended in He.
      destruct (x_phase t); [destruct Hs as [(n & ->)|(_ & n & d & -> & _)]|destruct Hs as [(n & ->) _]|destruct Hs as (n & ->)|done]; exists n; by left. }
    destruct (holder_shown base s Hi t n Ht Hn) as (v & Hv & Hx & Hf & _). apply (Hall n v); [done|congruence|by rewrite (eo_db _ _ _ _ Henv t n Ht He Hn)|].
    split; [by apply (top_window base s Hi)|by right].
  - intros k t Hk Hh Hc Hu Ht He [Hfl _] Hlt. destruct (iv_snaps _ _ Hi k Hk) as (X & m & Hok). destruct (ak_held _ _ _ _ _ _ Hok Hh) as (v & M & Hv & HM & HMw & HMm).
    destruct (decide (x_top t ∈ ended_tops (k_start k))) as [|Hne]; [done|]. exfalso. pose proof (ak_oldest _ _ _ _ _ _ Hok t Ht Hne (or_introl Hfl)).
    assert (B ≤ M); [|lia]. apply (Hall (k_proc k) v); [done|by apply Hu|done|]. split; [done|by left].
Qed.

Lemma compute_ok my recent gv : my ∈ pgprocnos (s_pa s) →
  ∃ h R S C D, ComputeXidHorizons my e recent gv (s_pa s) = (s_pa s, Ok (h, GlobalVisUpdateApply recent h gv)) ∧
    latest_completed h = latestCompletedXid (s_pa s) ∧ oldest_considered_running h = u32 R ∧ shared_oldest_nonremovable h = u32 S ∧
    catalog_oldest_nonremovable h = u32 C ∧ data_oldest_nonremovable h = u32 D ∧
    safe base VISHORIZON_SHARED xdb s e S ∧ safe base VISHORIZON_CATALOG xdb s e C ∧ safe base VISHORIZON_DATA xdb s e D ∧
    in_window base R ∧ R ≤ S ∧ R ≤ C ∧ R ≤ D ∧ ∀ n v y, view (s_pa s) n = Some v → shows_id base v y → R ≤ y.
Proof.
  intros Hmy. destruct (co_wf _ _ (iv_core _ _ Hi)) as (ps & Ht & _). destruct (pos_exists _ _ Ht my Hmy) as (i & p & Hpos). destruct (advance_window base s Hi) as (Haw & _ & Ha).
  set (A := FullTransactionIdAdvance (latestCompletedXid (s_pa s))) in *. assert (bounds_ok base (mkBounds A A A) (mkBounds A A A)) as H0 by (by apply bounds_refl).
  destruct (loop_ok base e (s_pa s) ps Ht view_windowed (seq 0 (numProcs (s_pa s))) (mkBounds A A A)) as (F & Hrun & Hok & Hcov);
    [intros j Hj; apply elem_of_seq in Hj; rewrite (tracks_length _ _ Ht); lia|done|]. pose proof Hok as [_ (B1 & B2 & B3) _]. cbn in B1, B2, B3.
  assert (∀ n v y, view (s_pa s) n = Some v → shows_id base v y → b_running F ≤ y ∧
    (sh_flagged v = false → b_shared F ≤ y ∧ (counts VISHORIZON_DATA e (databaseId e n) → b_data F ≤ y))) as Hall.
  { intros n v y Hv Hy. destruct (view_pos _ _ _ _ Ht Hv) as (j & q & Hq & ->). apply (Hcov j n q); [|done|done]. apply elem_of_seq.
    destruct (at_pos_proc _ _ Ht _ _ _ Hq) as (_ & _ & Hlt). rewrite (tracks_length _ _ Ht) in Hlt. lia. }
  set (temp := if TransactionIdIsValid (proc_xid p) then proc_xid p else u32 A).
  destruct (slots_ok base e (latestCompletedXid (s_pa s)) temp F) as (R & S & C & D & Hsl & W1 & W2 & W3 & W4 & L1 & L2 & L3 & L4 & L5 & L6 & L7); [apply bounds_refl, Hok|apply Henv|apply Henv|].
  exists (apply_slots e (latestCompletedXid (s_pa s)) temp (low F)), R, S, C, D. split.
  { unfold ComputeXidHorizons. rewrite get_run. erewrite bind_ok by (by apply (my_run _ _ Ht my i p)). unfold XidFromFullTransactionId. rewrite Ha. fold A.
    change (mkBounds (u32 A) (u32 A) (u32 A)) with (low (mkBounds A A A)). erewrite bind_ok by exact Hrun. done. }
  rewrite Hsl. split_and!; [done..| | | |done|done|done|done|].
  - apply bound_safe; [done|fold A; lia|]. intros n v y Hv Hf Hc Hy. destruct (Hall n v y Hv Hy) as [_ Hs]. destruct (Hs Hf). lia.
  - apply bound_safe; [done|fold A; lia|]. intros n v y Hv Hf Hc Hy. destruct (Hall n v y Hv Hy) as [_ Hs]. destruct (Hs Hf) as [_ Hd]. specialize (Hd Hc). lia.
  - apply bound_safe; [done|fold A; lia|]. intros n v y Hv Hf Hc Hy. destruct (Hall n v y Hv Hy) as [_ Hs]. destruct (Hs Hf) as [_ Hd]. specialize (Hd Hc). lia.
  - intros n v y Hv Hy. destruct (Hall n v y Hv Hy). lia.
Qed.
End compute.

(** ** The bounds of a backend *)

(** The state of one kind: its lower bound is safe, its upper one usable. *)
Record vis_ok (base : Z) (kind : GlobalVisHorizonKind) (xdb : Z → Z) (s : sys) (e : horizon_env) (st : GlobalVisState) : Prop := mkVisOk {
  vo_maybe : maybe_needed st = 0 ∨ safe base kind xdb s e (maybe_needed st);
  vo_definite : definitely_needed st = 0 ∨ in_window base (definitely_needed st)
}.

Definition all_vis_ok (base : Z) (xdb : Z → Z) (s : sys) (e : horizon_env) (gv : global_vis) : Prop :=
  ∀ kind, kind ≠ VISHORIZON_TEMP → vis_ok base kind xdb s e (GlobalVisTestFor kind gv).

Lemma newer_window base a b : in_window base a → b = 0 ∨ in_window base b → in_window base (FullTransactionIdNewer a b) ∧ in_window base (FullTransactionIdNewer b a).
Proof.
  intros Ha [->|Hb].
  - assert (FullTransactionIdIsValid a = true) as Hv by (by apply (window_normal base)). unfold FullTransactionIdNewer. by rewrite Hv.
  - rewrite !(newer_full base) by done. destruct (Z.max_spec a b) as [[_ Hm]|[_ Hm]], (Z.max_spec b a) as [[_ Hm']|[_ Hm']]; by rewrite Hm, Hm'.
Qed.

Section vis.
Context (base : Z) (xdb : Z → Z) (s : sys) (Hi : inv base s) (e : horizon_env) (Henv : env_ok base xdb s e).

Lemma base_safe kind : safe base kind xdb s e base.
Proof.
  destruct (sh_limits _ _ (co_shared _ _ (iv_core _ _ Hi))) as [Hb _ _ _ _ _]. destruct (advance_window base s Hi) as (_ & Hlt & _). destruct (iv_latest _ _ Hi) as [[_ ?] _].
  assert (∀ t, t ∈ s_trees s → base ≤ x_top t) as Ht by (intros t Htt; apply (top_window base s Hi t Htt)).
  split; [split; [done|lia]|lia|by intros t ? _ _; apply Ht|]. intros k t _ _ _ _ Htt _ _ Hlt'. specialize (Ht t Htt). lia.
Qed.

Lemma safe_max kind a b : safe base kind xdb s e a → safe base kind xdb s e b → safe base kind xdb s e (Z.max a b).
Proof. intros Ha Hb. by destruct (Z.max_spec a b) as [[_ ->]|[_ ->]]. Qed.

(** The lower bound of one kind moves to a safe one. *)
Lemma update_ok kind st b : vis_ok base kind xdb s e st → safe base kind xdb s e b → vis_ok base kind xdb s e (mkVis (FullTransactionIdNewer b (definitely_needed st)) b).
Proof. intros [_ Hd] Hb. split; cbn; [by right|right]. exact (proj1 (newer_window base _ _ (sf_window _ _ _ _ _ _ Hb) Hd)). Qed.

Lemma apply_ok my recent gv h gv' : my ∈ pgprocnos (s_pa s) → all_vis_ok base xdb s e gv →
  ComputeXidHorizons my e recent gv (s_pa s) = (s_pa s, Ok (h, gv')) → all_vis_ok base xdb s e gv'.
Proof.
  intros Hmy Hgv Hrun. destruct (compute_ok base xdb s Hi e Henv my recent gv Hmy) as (h' & R & S & C & D & Hrun' & Hl & _ & HS & HC & HD & SS & SC & SD & _).
  rewrite Hrun' in Hrun. injection Hrun as -> <-. destruct (next_window base s Hi) as [_ H64]. destruct (iv_latest _ _ Hi) as [Hlw _].
  intros [] Hk; [| | |done]; cbn [GlobalVisTestFor GlobalVisUpdateApply GlobalVisSharedRels GlobalVisCatalogRels GlobalVisDataRels]; rewrite Hl, ?HS, ?HC, ?HD.
  - rewrite (relative_full base) by (done || apply SS). apply update_ok; [by apply (Hgv VISHORIZON_SHARED)|done].
  - rewrite (relative_full base) by (done || apply SC). apply update_ok; [by apply (Hgv VISHORIZON_CATALOG)|done].
  - rewrite (relative_full base) by (done || apply SD). apply update_ok; [by apply (Hgv VISHORIZON_DATA)|done].
Qed.

Lemma snapshot_state_ok kind st d : vis_ok base kind xdb s e st → in_window base d →
  vis_ok base kind xdb s e (mkVis (FullTransactionIdNewer d (definitely_needed st)) (FullTransactionIdNewer (maybe_needed st) base)).
Proof.
  intros [Hm Hd] Hw. pose proof (base_safe kind) as Hb. split; cbn; [right|right; exact (proj1 (newer_window base _ _ Hw Hd))]. destruct Hm as [->|Hm].
  - unfold FullTransactionIdNewer. by change (FullTransactionIdIsValid 0) with false.
  - rewrite (newer_full base) by (apply Hm || apply Hb). by apply safe_max.
Qed.

Lemma maintain_ok latest k myxid gv : all_vis_ok base xdb s e gv → in_window base latest → k ∈ s_snaps s →
  all_vis_ok base xdb s e (maintain_vis e latest (u32 base) (snap_xmin (snap_data (k_snap k))) myxid gv).
Proof.
  intros Hgv Hlw Hk. destruct (iv_snaps _ _ Hi k Hk) as (X & m & Hok). destruct (ak_xmin _ _ _ _ _ _ Hok) as (Hw & -> & _). destruct (next_window base s Hi) as [_ H64].
  destruct (older_slot base m _ Hw (eo_slot _ _ _ _ Henv)) as (d & Hd & _ & Hdw & _). destruct (older_slot base d _ Hdw (eo_catalog _ _ _ _ Henv)) as (c & _ & Hc & Hcw & _).
  unfold maintain_vis. rewrite Hd, Hc. rewrite !(relative_full base) by (done || apply (base_safe VISHORIZON_SHARED)).
  intros [] Hne; [| | |done]; cbn [GlobalVisTestFor GlobalVisSharedRels GlobalVisCatalogRels GlobalVisDataRels]; (apply snapshot_state_ok; [|done]).
  - by apply (Hgv VISHORIZON_SHARED).
  - by apply (Hgv VISHORIZON_CATALOG).
  - by apply (Hgv VISHORIZON_DATA).
Qed.
End vis.

Lemma vis_inv base my xdb n s e gv : vis_reachable base my xdb n s e gv → Z.of_nat n < 2 ^ 64 - 1 →
  inv base s ∧ xactCompletionCount (s_pa s) ≤ 1 + Z.of_nat n ∧ all_vis_ok base xdb s e gv.
Proof.
  induction 1 as [s e Hb|n s s' e e' gv _ IH Hstep Hgo|n s e gv recent h gv' _ IH Henv Hmy Hrun|n s e gv latest k myxid _ IH Henv Hlw _ Hk _ Hold]; intros Hn.
  - destruct (inv_boot base s Hb) as [Hi ->]. split_and!; [done|lia|]. intros [] Hk; [| | |done]; split; by left.
  - destruct IH as (Hi & Hc & Hgv); [lia|]. pose proof (inv_step base s s' Hi ltac:(lia) Hstep) as Hp. split_and!; [apply Hp|destruct Hp; lia|].
    intros kind Hk. destruct (Hgv kind Hk) as [Hm Hd]. split; [|done]. destruct Hm as [?|Hm]; [by left|right]. by eapply safe_step.
  - destruct (IH Hn) as (Hi & Hc & Hgv). split_and!; [done|done|]. by eapply apply_ok.
  - destruct (IH Hn) as (Hi & Hc & Hgv). split_and!; [done|done|]. rewrite Hold. by apply maintain_ok.
Qed.

(** The test answers yes only below a safe bound. *)
Lemma removable_below base xdb s e my recent kind f allow gv gv' pa' : inv base s → env_ok base xdb s e → my ∈ pgprocnos (s_pa s) → all_vis_ok base xdb s e gv →
  kind ≠ VISHORIZON_TEMP → definitely_needed (GlobalVisTestFor kind gv) ≠ 0 → in_window base f →
  GlobalVisTestIsRemovableXid my e recent kind (u32 f) allow gv (s_pa s) = (pa', Ok (true, gv')) → ∃ b, safe base kind xdb s e b ∧ f < b.
Proof.
  intros Hi Henv Hmy Hgv Hkind Hdef Hfw Hrun. destruct (next_window base s Hi) as [_ H64]. destruct (Hgv kind Hkind) as [Hm Hd]. destruct Hd as [?|Hd]; [done|].
  assert (0 ≤ f) as Hpos by (by destruct Hfw as [[? ?] _]).
  unfold GlobalVisTestIsRemovableXid, GlobalVisTestIsRemovableFullXid in Hrun. rewrite (relative_full base) in Hrun by done.
  destruct (Z.ltb_spec f (maybe_needed (GlobalVisTestFor kind gv))) as [Hlt|_].
  { destruct Hm as [H0|Hm]; [lia|]. by exists (maybe_needed (GlobalVisTestFor kind gv)). }
  destruct (_ <=? f); [done|]. destruct (allow && _); [|done]. destruct (compute_ok base xdb s Hi e Henv my recent gv Hmy) as (h & R & S & C & D & Hc & _).
  pose proof (apply_ok base xdb s Hi e Henv my recent gv h _ Hmy Hgv Hc kind Hkind) as [Hm' _]. erewrite bind_ok in Hrun by exact Hc. injection Hrun as _ Hlt _.
  apply Z.ltb_lt in Hlt. destruct Hm' as [H0|Hm']; [lia|]. by eexists.
Qed.

(** ** Properties *)

(** C13.  What pruning removes nobody sees.  A backend keeps its bounds through any
    interleaving of the steps of all backends, computations of horizons and
    snapshots of its own.  Whenever [GlobalVisTestIsRemovableXid] then says that a
    deleting transaction, which has committed, is visible to everyone, the row it
    deleted is invisible to every snapshot in use, also to snapshots taken after
    the bounds were computed.  The snapshots of lazy vacuum and logical decoding
    are exempt, and those of processes in other databases for relations that are
    not shared. *)
Theorem removable_unseen base my xdb n s e gv recent kind f allow pa' gv' k t fuel cache current multi combo buf tup state :
  vis_reachable base my xdb n s e gv → Z.of_nat n < 2 ^ 64 - 1 → env_ok base xdb s e → my ∈ pgprocnos (s_pa s) →
  kind ≠ VISHORIZON_TEMP → definitely_needed (GlobalVisTestFor kind gv) ≠ 0 →
  GlobalVisTestIsRemovableXid my e recent kind (u32 f) allow gv (s_pa s) = (pa', Ok (true, gv')) →
  t ∈ s_trees s → x_phase t = Ended true → is_member f t → f ∈ x_live t → relevant kind xdb e t →
  k ∈ s_snaps s → k_held k = true → counts kind e (databaseId e (k_proc k)) → unflagged (s_pa s) (k_proc k) →
  (length (x_subs t) < fuel)%nat → cache_ok (pg_xact (s_shm s)) cache → current (u32 f) = false →
  let env := env_of s (k_proc k) fuel cache current multi combo in
  tuple_ok env tup → deleter env tup = Some (u32 f) →
  ∃ tup' state', HeapTupleSatisfiesMVCC env buf (snap_data (k_snap k)) tup state = Ok (false, tup', state').
Proof.
  intros Hr Hn Henv Hmy Hkind Hdef Hrun Htt Hph Hf Hlive Hrel Hk Hh Hcnt Hun Hfuel Hc Hcur env Htup Hdel. destruct (vis_inv _ _ _ _ _ _ _ Hr Hn) as (Hi & _ & Hgv).
  pose proof (member_all base s Hi t Htt f Hf) as Hall. assert (ended t = true) as He by (unfold ended; by rewrite Hph).
  destruct (removable_below base xdb s e my recent kind f allow gv gv' pa' Hi Henv Hmy Hgv Hkind Hdef (member_window base s Hi t f Htt Hall) Hrun) as (b & Hsafe & Hlt).
  assert (t ∈ k_start k) as Hts.
  { pose proof (top_least base s Hi t Htt f Hall). assert (x_top t ∈ ended_tops (k_start k)) as (u & Hu & Heu & Htop)%ended_tops_in by (apply Hsafe; [done..|lia]).
    destruct (iv_snaps _ _ Hi k Hk) as (X & m & Hok). destruct (ak_start _ _ _ _ _ _ Hok u Hu Heu) as [Hu' _]. by rewrite <- (top_unique base s Hi u t Hu' Htt Htop). }
  destruct (iv_snaps _ _ Hi k Hk) as (X & m & Hok).
  destruct (HeapTupleSatisfiesMVCC_ok env buf (snap_data (k_snap k)) tup state Htup) as ([[b' t'] s'] & Hv & (Hb & _)). cbn in Hb. exists t', s'. rewrite Hv, Hb.
  assert (∀ cid, sees env (snap_data (k_snap k)) (u32 f) cid = true) as Hs by (intros cid; by apply (sees_ended base s Hi k X m Hok Hh t)).
  unfold mvcc_visible, deleted. by rewrite Hdel, Hs, andb_false_r.
Qed.

(** Process 2 deletes a row and commits, process 3 takes a snapshot and keeps it;
    process 1 computes its horizons, and then gets an id of its own. *)
Definition vacuum_env : horizon_env := mkHorizonEnv (λ _, 5) 5 InvalidTransactionId InvalidTransactionId.

Definition vacuum_schedule : list action :=
  [AJoin 1 false; AJoin 2 false; AJoin 3 false; AAssignTop 2; AStore; ALog 0 true; AWrite 0; AEnd 0; AScanStart 3; AScan 0; AScan 0; AScan 0; AScanFinish 0 0].

Definition vacuum_mid : sys := default example_boot (exec_all vacuum_schedule example_boot).

Definition vacuum_vis : global_vis :=
  match ComputeXidHorizons 1 vacuum_env InvalidTransactionId no_vis (s_pa vacuum_mid) with
  | (_, Ok (_, gv)) => gv
  | _ => no_vis
  end.

Definition vacuum_end : sys := default example_boot (exec_all [AAssignTop 1; AStore] vacuum_mid).

Lemma vis_exec base my xdb n s e gv l s' : vis_reachable base my xdb n s e gv → exec_all l s = Some s' → vis_reachable base my xdb (length l + n) s' e gv.
Proof.
  revert n s. induction l as [|a l IH]; intros n s Hr He; cbn in He; [by injection He as <-|].
  apply bind_Some in He as (s1 & H1 & H2). replace (length (a :: l) + n)%nat with (length l + S n)%nat by (cbn; lia). eapply IH; [|done].
  eapply vr_step; [done|by eapply exec_step|]. split; [done|by left].
Qed.

Lemma vacuum_env_ok s : env_ok 100 (λ _, 5) s vacuum_env.
Proof. split; [by left|by left|done]. Qed.

Lemma vacuum_reachable : vis_reachable 100 1 (λ _, 5) (2 + (13 + 0)) vacuum_end vacuum_env vacuum_vis.
Proof.
  eapply (vis_exec _ _ _ _ vacuum_mid _ _ [AAssignTop 1; AStore]); [|vm_compute; reflexivity]. eapply (vr_compute _ _ _ _ _ _ no_vis InvalidTransactionId).
  - eapply (vis_exec _ _ _ _ example_boot _ _ vacuum_schedule); [apply vr_boot, example_booted|vm_compute; reflexivity].
  - apply vacuum_env_ok.
  - apply (list_elem_of_lookup_2 _ 0). vm_compute. reflexivity.
  - vm_compute. reflexivity.
Qed.

Lemma vacuum_facts : ∃ k t v, s_snaps vacuum_end !! 0%nat = Some k ∧ s_trees vacuum_end !! 0%nat = Some t ∧ view (s_pa vacuum_end) (k_proc k) = Some v ∧
  k_held k = true ∧ sh_flagged v = false ∧ x_flagged t = false ∧ length (x_subs t) = 0%nat ∧ x_phase t = Ended true ∧ x_top t = 103 ∧ pgprocnos (s_pa vacuum_end) !! 0%nat = Some 1%nat ∧
  definitely_needed (GlobalVisTestFor VISHORIZON_DATA vacuum_vis) = 104 ∧
  GlobalVisTestIsRemovableXid 1 vacuum_env 0 VISHORIZON_DATA (u32 103) false vacuum_vis (s_pa vacuum_end) = (s_pa vacuum_end, Ok (true, vacuum_vis)).
Proof. do 3 eexists. split_and!; vm_compute; reflexivity. Qed.

Lemma removable_unseen_witness :
  ∃ k, s_snaps vacuum_end !! 0%nat = Some k ∧
    GlobalVisTestIsRemovableXid 1 vacuum_env 0 VISHORIZON_DATA (u32 103) false vacuum_vis (s_pa vacuum_end) = (s_pa vacuum_end, Ok (true, vacuum_vis)) ∧
    ∃ tup' state', HeapTupleSatisfiesMVCC (env_of vacuum_end (k_proc k) 10 (0, 0) (λ _, false) id []) example_buf (snap_data (k_snap k))
      (plain_row (u32 101) (u32 103)) None = Ok (false, tup', state').
Proof.
  destruct vacuum_facts as (k & t & v & Hk & Ht & Hv & Hh & Hfl & Hft & Hl & Hp & Htop & Hmy & Hdef & Hrun). exists k. split; [exact Hk|]. split; [exact Hrun|].
  pose proof vacuum_reachable as Hr. apply list_elem_of_lookup_2 in Hk, Ht, Hmy. revert Hk Ht Hv Hmy Hrun Hr. generalize vacuum_end. intros s Hk Ht Hv Hmy Hrun Hr.
  destruct (plain_row_ok (env_of s (k_proc k) 10 (0, 0) (λ _, false) id []) (u32 101) (u32 103) eq_refl) as (R1 & _ & R3).
  apply (removable_unseen 100 1 (λ _, 5) (2 + (13 + 0)) s vacuum_env vacuum_vis 0 VISHORIZON_DATA 103 false (s_pa s) vacuum_vis k t 10 (0, 0) (λ _, false) id [] example_buf
    (plain_row (u32 101) (u32 103)) None Hr); [by vm_compute|apply vacuum_env_ok|exact Hmy|done|by rewrite Hdef|exact Hrun|exact Ht|exact Hp|by left|rewrite <- Htop; by left|..].
  - split; [exact Hft|by left].
  - exact Hk.
  - exact Hh.
  - by left.
  - intros w Hw. congruence.
  - lia.
  - by left.
  - done.
  - exact R1.
  - exact R3.
Defined.
