(* ===== verification/PageMem.v ===== *)
(** * The memory of a page

    A database page is an array of [BLCKSZ] bytes, and the code of
    [storage/page/bufpage.c] works on it through a header, an array of line
    pointers that grows upwards and tuple data that grows downwards, all of them
    laid over the same bytes.  The page is therefore the list of its bytes, a
    field of the header is the little-endian number at its offset, and a line
    pointer is the 32-bit word whose bit fields are those of [ItemIdData].

    [load], [store] and [memmove] are the accesses of the C code; an access
    outside the page has no defined outcome.  The lemmas say how a read sees an
    earlier write: either the two ranges are disjoint or one contains the
    other. *)

From S2P Require Import Prelude.
From stdpp Require Import base tactics list numbers.
From Stdlib Require Import ZArith Lia.

Open Scope Z_scope.

(** ** Bytes *)

Definition Page : Type := list Z.

Definition slice {A} (o n : Z) (p : list A) : list A :=
  take (Z.to_nat n) (drop (Z.to_nat o) p).

Definition blit {A} (o : Z) (l p : list A) : list A :=
  take (Z.to_nat o) p ++ l ++ drop (Z.to_nat o + length l) p.

Definition in_block (o n : Z) : bool := (0 <=? o) && (0 <=? n) && (o + n <=? BLCKSZ).

Definition load (o n : Z) : M Page (list Z) :=
  if in_block o n then gets (slice o n) else fail ErrUB.

Definition store (o : Z) (l : list Z) : M Page unit :=
  if in_block o (Z.of_nat (length l)) then modify (blit o l) else fail ErrUB.

(** [memmove] within the page: the source is read before the target is
    written. *)
Definition memmove (dst src n : Z) : M Page unit :=
  l ← load src n; store dst l.

(** ** Little-endian numbers *)

Fixpoint le_decode (l : list Z) : Z :=
  match l with
  | [] => 0
  | b :: l' => b + 256 * le_decode l'
  end.

Fixpoint le_encode (n : nat) (v : Z) : list Z :=
  match n with
  | O => []
  | S n' => v mod 256 :: le_encode n' (v / 256)
  end.

Definition get16 (o : Z) (p : Page) : Z := le_decode (slice o 2 p).

Definition put16 (o v : Z) (p : Page) : Page := blit o (le_encode 2 v) p.

Definition get32 (o : Z) (p : Page) : Z := le_decode (slice o 4 p).

(** ** Alignment *)

Definition MAXIMUM_ALIGNOF : Z := 8.

Definition TYPEALIGN (a len : Z) : Z :=
  Z.land (u64 (u64 len + (a - 1))) (Z.lnot (a - 1)).

Definition MAXALIGN (len : Z) : Z := TYPEALIGN MAXIMUM_ALIGNOF len.

(** ** The page header *)

Definition SizeOfPageHeaderData : Z := 24.

Definition PG_PAGE_LAYOUT_VERSION : Z := 4.

Definition pd_checksum (p : Page) : Z := get16 8 p.
Definition pd_flags (p : Page) : Z := get16 10 p.
Definition pd_lower (p : Page) : Z := get16 12 p.
Definition pd_upper (p : Page) : Z := get16 14 p.
Definition pd_special (p : Page) : Z := get16 16 p.
Definition pd_pagesize_version (p : Page) : Z := get16 18 p.

Definition set_pd_checksum (v : Z) : M Page unit := modify (put16 8 v).
Definition set_pd_flags (v : Z) : M Page unit := modify (put16 10 v).
Definition set_pd_lower (v : Z) : M Page unit := modify (put16 12 v).
Definition set_pd_upper (v : Z) : M Page unit := modify (put16 14 v).
Definition set_pd_special (v : Z) : M Page unit := modify (put16 16 v).
Definition set_pd_pagesize_version (v : Z) : M Page unit := modify (put16 18 v).

Definition PD_HAS_FREE_LINES : Z := 1.
Definition PD_VALID_FLAG_BITS : Z := 7.

Definition PageHasFreeLinePointers (p : Page) : bool :=
  negb (Z.land (pd_flags p) PD_HAS_FREE_LINES =? 0).

Definition PageSetHasFreeLinePointers : M Page unit :=
  p ← get; set_pd_flags (Z.lor (pd_flags p) PD_HAS_FREE_LINES).

Definition PageClearHasFreeLinePointers : M Page unit :=
  p ← get; set_pd_flags (Z.land (pd_flags p) (Z.lnot PD_HAS_FREE_LINES)).

Definition PageIsEmpty (p : Page) : bool := pd_lower p <=? SizeOfPageHeaderData.

Definition PageIsNew (p : Page) : bool := pd_upper p =? 0.

(** ** Line pointers *)

Record ItemIdData : Type := mkItemId { lp_off : Z; lp_flags : Z; lp_len : Z }.

#[export] Instance ItemIdData_eq_dec : EqDecision ItemIdData.
Proof. solve_decision. Defined.

Definition LP_UNUSED : Z := 0.
Definition LP_NORMAL : Z := 1.
Definition LP_REDIRECT : Z := 2.
Definition LP_DEAD : Z := 3.

Definition item_decode (w : Z) : ItemIdData :=
  mkItemId (w mod 2 ^ 15) (w / 2 ^ 15 mod 2 ^ 2) (w / 2 ^ 17 mod 2 ^ 15).

(** Storing into a bit field keeps its low bits. *)
Definition item_encode (lp : ItemIdData) : Z :=
  lp_off lp mod 2 ^ 15 + 2 ^ 15 * (lp_flags lp mod 2 ^ 2) + 2 ^ 17 * (lp_len lp mod 2 ^ 15).

Definition ItemIdIsUsed (lp : ItemIdData) : bool := negb (lp_flags lp =? LP_UNUSED).
Definition ItemIdHasStorage (lp : ItemIdData) : bool := negb (lp_len lp =? 0).
Definition ItemIdIsNormal (lp : ItemIdData) : bool := lp_flags lp =? LP_NORMAL.
Definition ItemIdIsDead (lp : ItemIdData) : bool := lp_flags lp =? LP_DEAD.
Definition ItemIdIsRedirected (lp : ItemIdData) : bool := lp_flags lp =? LP_REDIRECT.

Definition ItemIdSetUnused : ItemIdData := mkItemId 0 LP_UNUSED 0.
Definition ItemIdSetNormal (off len : Z) : ItemIdData := mkItemId off LP_NORMAL len.
Definition ItemIdSetRedirect (link : Z) : ItemIdData := mkItemId link LP_REDIRECT 0.
Definition ItemIdSetDead : ItemIdData := mkItemId 0 LP_DEAD 0.
Definition ItemIdMarkDead (lp : ItemIdData) : ItemIdData := mkItemId (lp_off lp) LP_DEAD (lp_len lp).

Definition with_off (off : Z) (lp : ItemIdData) : ItemIdData :=
  mkItemId off (lp_flags lp) (lp_len lp).

Definition FirstOffsetNumber : Z := 1.
Definition InvalidOffsetNumber : Z := 0.
Definition MaxOffsetNumber : Z := BLCKSZ / 4.

Definition OffsetNumberIsValid (n : Z) : bool :=
  negb (n =? InvalidOffsetNumber) && (n <=? MaxOffsetNumber).

(** The address of [pd_linp[i]], and what [PageGetItemId] points to. *)
Definition linp_at (i : Z) : Z := SizeOfPageHeaderData + 4 * i.

Definition linp (p : Page) (i : Z) : ItemIdData := item_decode (get32 (linp_at i) p).

Definition PageGetItemId (n : Z) : M Page ItemIdData :=
  w ← load (linp_at (n - 1)) 4; mret (item_decode (le_decode w)).

Definition PageSetItemId (n : Z) (lp : ItemIdData) : M Page unit :=
  store (linp_at (n - 1)) (le_encode 4 (item_encode lp)).

Definition PageGetMaxOffsetNumber (p : Page) : Z :=
  if pd_lower p <=? SizeOfPageHeaderData then 0
  else (pd_lower p - SizeOfPageHeaderData) / 4.

(** ** Reads after writes *)

(** The byte at an address. *)
Definition peek {A} (p : list A) (i : Z) : option A := p !! Z.to_nat i.

(** The two arrays hold the same bytes at the addresses from [a] up to [b]. *)
Definition agree (a b : Z) (p q : Page) : Prop := ∀ i, a ≤ i < b → peek p i = peek q i.

Definition sized (p : Page) : Prop := length p = Z.to_nat BLCKSZ.

(** The value [v] is stored as the line pointer at index [i]. *)
Definition put_linp (i : Z) (lp : ItemIdData) (p : Page) : Page :=
  blit (linp_at i) (le_encode 4 (item_encode lp)) p.

Section bytes.
Context {A : Type}.
Implicit Types p l : list A.

Lemma peek_slice p o n k : 0 ≤ o → 0 ≤ k < n → peek (slice o n p) k = peek p (o + k).
Proof.
  intros. unfold peek, slice. rewrite lookup_take_lt by lia. rewrite lookup_drop. f_equal; lia.
Qed.

Lemma length_slice p o n : 0 ≤ o → 0 ≤ n → o + n ≤ Z.of_nat (length p) →
  length (slice o n p) = Z.to_nat n.
Proof. intros. unfold slice. rewrite length_take, length_drop. lia. Qed.

Lemma length_blit o l p : 0 ≤ o → o + Z.of_nat (length l) ≤ Z.of_nat (length p) →
  length (blit o l p) = length p.
Proof. intros. unfold blit. rewrite !length_app, length_take, length_drop. lia. Qed.

Lemma peek_blit o l p i : 0 ≤ o → 0 ≤ i → o + Z.of_nat (length l) ≤ Z.of_nat (length p) →
  peek (blit o l p) i
  = if decide (o ≤ i < o + Z.of_nat (length l)) then peek l (i - o) else peek p i.
Proof.
  intros Ho Hi Hl. unfold peek, blit. case_decide as Hd.
  - rewrite lookup_app_r by (rewrite length_take; lia). rewrite length_take.
    rewrite lookup_app_l by lia. f_equal; lia.
  - destruct (decide (i < o)).
    + rewrite lookup_app_l by (rewrite length_take; lia). by rewrite lookup_take_lt by lia.
    + rewrite lookup_app_r by (rewrite length_take; lia). rewrite length_take.
      rewrite lookup_app_r by lia. rewrite lookup_drop. f_equal; lia.
Qed.

(** Slices are equal when their bytes are. *)
Lemma slice_ext p q o o' n : 0 ≤ o → 0 ≤ o' → 0 ≤ n →
  o + n ≤ Z.of_nat (length p) → o' + n ≤ Z.of_nat (length q) →
  (∀ k, 0 ≤ k < n → peek p (o + k) = peek q (o' + k)) → slice o n p = slice o' n q.
Proof.
  intros ? ? ? Hp Hq H.
  apply list_eq_same_length with (Z.to_nat n); [by rewrite length_slice by lia..|].
  intros i x y Hi Hx Hy. specialize (H (Z.of_nat i)).
  rewrite <-(peek_slice p o n), <-(peek_slice q o' n) in H by lia.
  unfold peek in H. rewrite Nat2Z.id, Hx, Hy in H. injection (H ltac:(lia)) as ->. done.
Qed.

End bytes.

(** ** Numbers *)

Lemma length_le_encode n v : length (le_encode n v) = n.
Proof. revert v. induction n; intros; simpl; auto. Qed.

Lemma le_decode_encode n v : le_decode (le_encode n v) = v mod 256 ^ Z.of_nat n.
Proof.
  revert v. induction n as [|n IH]; intros v; [by rewrite Z.mod_1_r|].
  cbn [le_encode le_decode]. rewrite IH, Nat2Z.inj_succ, Z.pow_succ_r by lia.
  rewrite Z.rem_mul_r by lia. done.
Qed.

Lemma le_encode_bytes n v : Forall (λ b, 0 ≤ b < 256) (le_encode n v).
Proof.
  revert v. induction n as [|n IH]; intros v; constructor; [|apply IH]. by apply Z.mod_pos_bound.
Qed.

(** The values a line pointer can hold. *)
Definition item_fits (lp : ItemIdData) : Prop :=
  0 ≤ lp_off lp < 2 ^ 15 ∧ 0 ≤ lp_flags lp < 2 ^ 2 ∧ 0 ≤ lp_len lp < 2 ^ 15.

Lemma item_decode_encode lp : item_fits lp →
  item_decode (item_encode lp mod 256 ^ 4) = lp.
Proof.
  destruct lp as [o f l]. unfold item_fits, item_encode, item_decode. simpl. intros (Ho & Hf & Hl).
  change (256 ^ 4) with 4294967296. change (2 ^ 15) with 32768 in *. change (2 ^ 2) with 4 in *.
  change (2 ^ 17) with 131072 in *. rewrite (Z.mod_small o), (Z.mod_small f), (Z.mod_small l) by lia.
  rewrite (Z.mod_small (_ + _)) by lia. f_equal.
  - replace (o + 32768 * f + 131072 * l) with (o + (f + 4 * l) * 32768) by lia.
    rewrite Z.mod_add, Z.mod_small; lia.
  - replace (o + 32768 * f + 131072 * l) with (o + (f + 4 * l) * 32768) by lia.
    rewrite Z.div_add, (Z.div_small o), Z.add_0_l, (Z.mul_comm 4), Z.mod_add, Z.mod_small; lia.
  - replace (o + 32768 * f + 131072 * l) with ((o + 32768 * f) + l * 131072) by lia.
    rewrite Z.div_add, (Z.div_small (o + _)), Z.add_0_l, Z.mod_small; lia.
Qed.

Lemma item_decode_fits w : item_fits (item_decode w).
Proof. repeat split; simpl; by apply Z.mod_pos_bound. Qed.

Lemma MAXALIGN_eq n : 0 ≤ n < 2 ^ 63 → MAXALIGN n = (n + 7) / 8 * 8.
Proof.
  intros. unfold MAXALIGN, TYPEALIGN, MAXIMUM_ALIGNOF. rewrite (u64_small n), u64_small by lia.
  change (8 - 1) with (Z.ones 3). rewrite <-Z.ldiff_land, Z.ldiff_ones_r by lia.
  rewrite Z.shiftr_div_pow2, Z.shiftl_mul_pow2 by lia. done.
Qed.

(** What the proofs use of an aligned length. *)
Lemma MAXALIGN_bounds n : 0 ≤ n < 2 ^ 63 →
  n ≤ MAXALIGN n < n + 8 ∧ MAXALIGN n mod 8 = 0.
Proof. intros. rewrite MAXALIGN_eq by lia. split; [Z.div_mod_to_equations; lia|]. by rewrite Z.mod_mul. Qed.

Lemma MAXALIGN_fixed n : 0 ≤ n < 2 ^ 63 → n mod 8 = 0 → MAXALIGN n = n.
Proof. intros. rewrite MAXALIGN_eq by lia. Z.div_mod_to_equations; lia. Qed.

(** ** Fields *)

(** An array that differs from [p] at most at the addresses from [a] up to
    [b]. *)
Definition same_except (a b : Z) (p q : Page) : Prop :=
  length q = length p ∧ ∀ i, 0 ≤ i → ¬ (a ≤ i < b) → peek q i = peek p i.

Lemma same_except_refl a b p : same_except a b p p.
Proof. by split. Qed.

Lemma same_except_trans a b p q r :
  same_except a b p q → same_except a b q r → same_except a b p r.
Proof. intros [L1 H1] [L2 H2]. split; [by rewrite L2|]. intros. by rewrite H2, H1. Qed.

Lemma same_except_weaken a b a' b' p q : a' ≤ a → b ≤ b' →
  same_except a b p q → same_except a' b' p q.
Proof. intros ?? [L H]. split; [done|]. intros. apply H; [done|lia]. Qed.

Lemma same_except_sized a b p q : same_except a b p q → sized p → sized q.
Proof. intros [L _]. unfold sized. by rewrite L. Qed.

Lemma same_except_agree a b p q lo hi : same_except a b p q → 0 ≤ lo → hi ≤ a ∨ b ≤ lo →
  agree lo hi q p.
Proof. intros [_ H] ? ? i Hi. apply H; lia. Qed.

Lemma agree_slice lo hi p q o n : agree lo hi p q → sized p → sized q →
  0 ≤ o → 0 ≤ n → lo ≤ o → o + n ≤ hi → o + n ≤ BLCKSZ → slice o n p = slice o n q.
Proof.
  unfold sized. intros H Hp Hq ? ? ? ? ?. apply slice_ext; [lia..|]. intros. apply H. lia.
Qed.

Lemma same_except_slice a b p q o n : same_except a b p q → sized p → 0 ≤ o → 0 ≤ n →
  o + n ≤ BLCKSZ → o + n ≤ a ∨ b ≤ o → slice o n q = slice o n p.
Proof.
  intros H Hp ? ? ? ?. eapply agree_slice; [eapply (same_except_agree a b _ _ o (o + n)); eauto| | |..]; try lia; [|done].
  by eapply same_except_sized.
Qed.

Lemma blit_same_except o l p : sized p → 0 ≤ o → o + Z.of_nat (length l) ≤ BLCKSZ →
  same_except o (o + Z.of_nat (length l)) p (blit o l p).
Proof.
  unfold sized. intros Hp ? ?. split; [apply length_blit; lia|].
  intros i ? ?. rewrite peek_blit by lia. by rewrite decide_False.
Qed.

Lemma slice_blit o l p : sized p → 0 ≤ o → o + Z.of_nat (length l) ≤ BLCKSZ →
  slice o (Z.of_nat (length l)) (blit o l p) = l.
Proof.
  unfold sized. intros Hp ? ?. rewrite <-(take_ge l (length l)) at 3 by lia.
  unfold slice, blit. rewrite Nat2Z.id.
  rewrite drop_app_ge by (rewrite length_take; lia). rewrite length_take.
  replace (_ - _)%nat with 0%nat by lia. rewrite drop_0.
  by rewrite take_app_le by lia.
Qed.

(** What a field holds after a write elsewhere, or after its own write. *)
Lemma same_except_get16 a b p q o : same_except a b p q → sized p → 0 ≤ o → o + 2 ≤ BLCKSZ →
  o + 2 ≤ a ∨ b ≤ o → get16 o q = get16 o p.
Proof. intros. unfold get16. by rewrite (same_except_slice a b p q). Qed.

Lemma same_except_linp a b p q i : same_except a b p q → sized p → 0 ≤ i →
  linp_at (i + 1) ≤ BLCKSZ → linp_at (i + 1) ≤ a ∨ b ≤ linp_at i → linp q i = linp p i.
Proof.
  unfold linp, get32, linp_at, SizeOfPageHeaderData. intros.
  rewrite (same_except_slice a b p q); try done; lia.
Qed.

Lemma put16_same o v p : sized p → 0 ≤ o → o + 2 ≤ BLCKSZ → get16 o (put16 o v p) = v mod 2 ^ 16.
Proof.
  intros. unfold get16, put16. change 2 with (Z.of_nat (length (le_encode 2 v))).
  rewrite slice_blit, le_decode_encode by (rewrite ?length_le_encode; done || lia). done.
Qed.

Lemma put16_same_except o v p : sized p → 0 ≤ o → o + 2 ≤ BLCKSZ →
  same_except o (o + 2) p (put16 o v p).
Proof. intros. apply (blit_same_except o (le_encode 2 v)); done. Qed.

Lemma put_linp_same i lp p : sized p → 0 ≤ i → linp_at (i + 1) ≤ BLCKSZ → item_fits lp →
  linp (put_linp i lp p) i = lp.
Proof.
  unfold linp_at, SizeOfPageHeaderData. intros. unfold linp, get32, put_linp, linp_at, SizeOfPageHeaderData.
  change 4 with (Z.of_nat (length (le_encode 4 (item_encode lp)))) at 2.
  rewrite slice_blit, le_decode_encode by (rewrite ?length_le_encode; done || lia).
  by apply item_decode_encode.
Qed.

Lemma put_linp_same_except i lp p : sized p → 0 ≤ i → linp_at (i + 1) ≤ BLCKSZ →
  same_except (linp_at i) (linp_at (i + 1)) p (put_linp i lp p).
Proof.
  unfold linp_at, SizeOfPageHeaderData. intros.
  replace (24 + 4 * (i + 1)) with (24 + 4 * i + Z.of_nat (length (le_encode 4 (item_encode lp))))
    by (rewrite length_le_encode; lia).
  apply blit_same_except; rewrite ?length_le_encode; done || lia.
Qed.
