(* ===== verification/BufPage.v ===== *)
(** * Operations on a page

    The routines of [storage/page/bufpage.c], written over the bytes of the
    page: initialisation, adding an item, the compaction that follows pruning,
    the truncation of the line pointer array, the measures of free space, and
    the deletion and replacement of index tuples.  Their correctness is the
    subject of the files [PageInv] to [PageHeap].

    Assertions are not part of the model: a production build compiles them
    away. *)

From S2P Require Import Prelude PageMem.
From stdpp Require Import base tactics list numbers strings.
From Stdlib Require Import ZArith Lia.

Open Scope Z_scope.

Definition MaxHeapTuplesPerPage : Z :=
  (BLCKSZ - SizeOfPageHeaderData) / (MAXALIGN 23 + 4).

(** [sizeof(IndexTupleData)] is 8. *)
Definition MaxIndexTuplesPerPage : Z :=
  (BLCKSZ - SizeOfPageHeaderData) / (MAXALIGN (8 + 1) + 4).

Definition PAI_OVERWRITE : Z := 1.
Definition PAI_IS_HEAP : Z := 2.

(** ** Initialisation *)

Definition PageInit (pageSize specialSize : Z) : M Page unit :=
  let specialSize := MAXALIGN specialSize in
  store 0 (replicate (Z.to_nat pageSize) 0) ;;
  set_pd_flags 0 ;;
  set_pd_lower SizeOfPageHeaderData ;;
  set_pd_upper (pageSize - specialSize) ;;
  set_pd_special (pageSize - specialSize) ;;
  set_pd_pagesize_version (Z.lor pageSize PG_PAGE_LAYOUT_VERSION).

(** ** Adding an item *)

(** The checks every routine makes of the header before it trusts it. *)
Definition pointers_corrupt (p : Page) : bool :=
  (pd_lower p <? SizeOfPageHeaderData) || (pd_upper p <? pd_lower p)
  || (pd_special p <? pd_upper p) || (BLCKSZ <? pd_special p).

Definition header_corrupt (p : Page) : bool :=
  pointers_corrupt p || negb (pd_special p =? MAXALIGN (pd_special p)).

(** The search for a recyclable line pointer: [n] is the number of line
    pointers from [offsetNumber] up to the limit. *)
Fixpoint find_free (n : nat) (offsetNumber : Z) : M Page Z :=
  match n with
  | O => mret offsetNumber
  | S n' =>
      itemId ← PageGetItemId offsetNumber;
      if negb (ItemIdIsUsed itemId) && negb (ItemIdHasStorage itemId) then mret offsetNumber
      else find_free n' (offsetNumber + 1)
  end.

(** Selects the place of a new item: its offset number and whether later line
    pointers move, or nothing if the item is refused. *)
Definition select_offset (offsetNumber limit flags : Z) : M Page (option (Z * bool)) :=
  if OffsetNumberIsValid offsetNumber then
    if negb (Z.land flags PAI_OVERWRITE =? 0) then
      if offsetNumber <? limit then
        itemId ← PageGetItemId offsetNumber;
        if ItemIdIsUsed itemId || ItemIdHasStorage itemId then mret None
        else mret (Some (offsetNumber, false))
      else mret (Some (offsetNumber, false))
    else mret (Some (offsetNumber, offsetNumber <? limit))
  else
    p ← get;
    if PageHasFreeLinePointers p then
      offsetNumber ← find_free (Z.to_nat (limit - FirstOffsetNumber)) FirstOffsetNumber;
      (if limit <=? offsetNumber then PageClearHasFreeLinePointers else mret tt) ;;
      mret (Some (offsetNumber, false))
    else mret (Some (limit, false)).

(** The insertion itself, once the item is known to fit. *)
Definition put_item (item : list Z) (size offsetNumber limit : Z) (needshuffle : bool)
    (lower upper : Z) : M Page Z :=
  (if needshuffle then
     memmove (linp_at offsetNumber) (linp_at (offsetNumber - 1)) ((limit - offsetNumber) * 4)
   else mret tt) ;;
  PageSetItemId offsetNumber (ItemIdSetNormal upper size) ;;
  (if Z.of_nat (length item) <? size then fail ErrUB
   else store upper (take (Z.to_nat size) item)) ;;
  set_pd_lower lower ;;
  set_pd_upper upper ;;
  mret offsetNumber.

Definition PageAddItemExtended (item : list Z) (size offsetNumber flags : Z) : M Page Z :=
  p ← get;
  if pointers_corrupt p then fail (ErrPanic "corrupted page pointers") else
  let limit := PageGetMaxOffsetNumber p + 1 in
  sel ← select_offset offsetNumber limit flags;
  match sel with
  | None => mret InvalidOffsetNumber
  | Some (offsetNumber, needshuffle) =>
      if limit <? offsetNumber then mret InvalidOffsetNumber else
      if negb (Z.land flags PAI_IS_HEAP =? 0) && (MaxHeapTuplesPerPage <? offsetNumber) then
        mret InvalidOffsetNumber
      else
        let lower := if (offsetNumber =? limit) || needshuffle then pd_lower p + 4
                     else pd_lower p in
        let alignedSize := MAXALIGN size in
        let upper := i32 (pd_upper p - i32 alignedSize) in
        if upper <? lower then mret InvalidOffsetNumber else
        put_item item size offsetNumber limit needshuffle lower upper
  end.

(** ** Compaction *)

Record itemIdCompactData : Type := mkCompact {
  offsetindex : Z;
  itemoff : Z;
  alignedlen : Z
}.

Definition item_end (it : itemIdCompactData) : Z := itemoff it + alignedlen it.

(** A scratch block on the stack: a byte of it that was never written has no
    value. *)
Definition scratch_block : Type := list (option Z).

Definition scratch_write (o : Z) (l : list Z) (s : scratch_block) : result scratch_block :=
  if in_block o (Z.of_nat (length l)) then Ok (blit o (Some <$> l) s) else Err ErrUB.

Definition scratch_read (o n : Z) (s : scratch_block) : result (list Z) :=
  if in_block o n then
    match mapM id (slice o n s) with Some l => Ok l | None => Err ErrUB end
  else Err ErrUB.

(** The items already at their place at the end of the page are skipped.  The
    result is the items left, the new [upper] and the item [itemidptr] points to
    when the loop ends. *)
Fixpoint skip_placed (items : list itemIdCompactData) (upper : Z) (itemidptr : itemIdCompactData) :
    list itemIdCompactData * Z * itemIdCompactData :=
  match items with
  | [] => ([], upper, itemidptr)
  | it :: items' =>
      if negb (upper =? item_end it) then (items, upper, it)
      else skip_placed items' (upper - alignedlen it) it
  end.

(** [memmove] out of the page itself, or [memcpy] out of the scratch block. *)
Definition copy_pending (scratch : option scratch_block) (upper copy_head copy_tail : Z) : M Page unit :=
  match scratch with
  | None => memmove upper copy_head (copy_tail - copy_head)
  | Some s =>
      l ← lift_result (scratch_read copy_head (copy_tail - copy_head) s);
      store upper l
  end.

(** The loop of both branches: adjacent items are collected and copied together
    when a gap is seen; the last chunk is copied after the loop. *)
Fixpoint compact_loop (scratch : option scratch_block) (items : list itemIdCompactData)
    (upper copy_tail copy_head : Z) : M Page Z :=
  match items with
  | [] =>
      copy_pending scratch upper copy_head copy_tail ;;
      mret upper
  | it :: items' =>
      copy_tail' ←
        (if negb (copy_head =? item_end it) then
           copy_pending scratch upper copy_head copy_tail ;; mret (item_end it)
         else mret copy_tail);
      let upper' := upper - alignedlen it in
      lp ← PageGetItemId (offsetindex it + 1);
      PageSetItemId (offsetindex it + 1) (with_off upper' lp) ;;
      compact_loop scratch items' upper' copy_tail' (itemoff it)
  end.

(** Item by item into the scratch block. *)
Fixpoint scratch_items (items : list itemIdCompactData) (s : scratch_block) : M Page scratch_block :=
  match items with
  | [] => mret s
  | it :: items' =>
      l ← load (itemoff it) (alignedlen it);
      s' ← lift_result (scratch_write (itemoff it) l s);
      scratch_items items' s'
  end.

Definition scratch_new : scratch_block := replicate (Z.to_nat BLCKSZ) None.

Definition compactify_tuples (items : list itemIdCompactData) (presorted : bool) : M Page unit :=
  match items with
  | [] => fail ErrUB
  | it0 :: _ =>
      p ← get;
      upper ←
        (if presorted then
           let '(rest, upper, itemidptr) := skip_placed items (pd_special p) it0 in
           compact_loop None rest upper (item_end itemidptr) (item_end itemidptr)
         else if Z.of_nat (length items) <? PageGetMaxOffsetNumber p / 4 then
           s ← scratch_items items scratch_new;
           compact_loop (Some s) items (pd_special p) (item_end it0) (item_end it0)
         else
           let '(rest, upper, itemidptr) := skip_placed items (pd_special p) it0 in
           l ← load (pd_upper p) (upper - pd_upper p);
           s ← lift_result (scratch_write (pd_upper p) l scratch_new);
           compact_loop (Some s) rest upper (item_end itemidptr) (item_end itemidptr));
      set_pd_upper upper
  end.

(** ** Pruned heap pages *)

Record repair_scan : Type := mkScan {
  rs_items : list itemIdCompactData;
  rs_last_offset : Z;
  rs_presorted : bool;
  rs_totallen : Z;
  rs_finalusedlp : Z;
  rs_nunused : Z
}.

(** The array on the stack holds [capacity] entries: the write to the next one
    has no defined outcome beyond them. *)
Definition push_item (capacity : Z) (it : itemIdCompactData) (l : list itemIdCompactData) :
    result (list itemIdCompactData) :=
  if Z.of_nat (length l) <? capacity then Ok (l ++ [it]) else Err ErrUB.

(** One line pointer of the scan: what is collected about it. *)
Definition repair_item (upper special : Z) (rs : repair_scan) (i : Z) : M Page repair_scan :=
  lp ← PageGetItemId i;
  if ItemIdIsUsed lp then
    if ItemIdHasStorage lp then
      let it := mkCompact (i - 1) (i16 (lp_off lp)) (wrap_u 16 (MAXALIGN (lp_len lp))) in
      let descends := itemoff it <? rs_last_offset rs in
      items ← lift_result (push_item MaxHeapTuplesPerPage it (rs_items rs));
      if (itemoff it <? upper) || (special <=? itemoff it) then
        fail (ErrReport "corrupted line pointer")
      else
        mret (mkScan items (if descends then itemoff it else rs_last_offset rs)
                (rs_presorted rs && descends) (rs_totallen rs + alignedlen it) i (rs_nunused rs))
    else mret (mkScan (rs_items rs) (rs_last_offset rs) (rs_presorted rs) (rs_totallen rs) i
                 (rs_nunused rs))
  else
    PageSetItemId i ItemIdSetUnused ;;
    mret (mkScan (rs_items rs) (rs_last_offset rs) (rs_presorted rs) (rs_totallen rs)
            (rs_finalusedlp rs) (rs_nunused rs + 1)).

Fixpoint repair_loop (upper special : Z) (n : nat) (i : Z) (rs : repair_scan) : M Page repair_scan :=
  match n with
  | O => mret rs
  | S n' => rs' ← repair_item upper special rs i; repair_loop upper special n' (i + 1) rs'
  end.

Definition set_free_hint (b : bool) : M Page unit :=
  if b then PageSetHasFreeLinePointers else PageClearHasFreeLinePointers.

Definition PageRepairFragmentation : M Page unit :=
  p ← get;
  if header_corrupt p then fail (ErrReport "corrupted page pointers") else
  let nline := PageGetMaxOffsetNumber p in
  rs ← repair_loop (pd_upper p) (pd_special p) (Z.to_nat nline) FirstOffsetNumber
         (mkScan [] (pd_special p) true 0 InvalidOffsetNumber 0);
  (if (length (rs_items rs) =? 0)%nat then set_pd_upper (pd_special p)
   else if pd_special p - pd_lower p <? rs_totallen rs then
     fail (ErrReport "corrupted item lengths")
   else compactify_tuples (rs_items rs) (rs_presorted rs)) ;;
  nunused ←
    (if negb (rs_finalusedlp rs =? nline) then
       let nunusedend := nline - rs_finalusedlp rs in
       q ← get;
       set_pd_lower (pd_lower q - 4 * nunusedend) ;;
       mret (rs_nunused rs - nunusedend)
     else mret (rs_nunused rs));
  set_free_hint (0 <? nunused).

(** The scan from the back: [i] counts down to the first line pointer. *)
Fixpoint truncate_loop (i : nat) (countdone : bool) (nunusedend : Z) : M Page (Z * bool) :=
  match i with
  | O => mret (nunusedend, false)
  | S i' =>
      lp ← PageGetItemId (Z.of_nat i);
      if negb countdone && (FirstOffsetNumber <? Z.of_nat i) then
        if negb (ItemIdIsUsed lp) then truncate_loop i' countdone (nunusedend + 1)
        else truncate_loop i' true nunusedend
      else if negb (ItemIdIsUsed lp) then mret (nunusedend, true)
      else truncate_loop i' countdone nunusedend
  end.

Definition PageTruncateLinePointerArray : M Page unit :=
  p ← get;
  r ← truncate_loop (Z.to_nat (PageGetMaxOffsetNumber p)) false 0;
  let '(nunusedend, sethint) := r in
  (if 0 <? nunusedend then set_pd_lower (pd_lower p - 4 * nunusedend) else mret tt) ;;
  set_free_hint sethint.

(** ** Free space *)

Definition PageGetFreeSpace (p : Page) : Z :=
  let space := pd_upper p - pd_lower p in
  if space <? 4 then 0 else space - 4.

Definition PageGetFreeSpaceForMultipleTuples (p : Page) (ntups : Z) : Z :=
  let space := pd_upper p - pd_lower p in
  if space <? i32 (ntups * 4) then 0 else i32 (space - ntups * 4).

Definition PageGetExactFreeSpace (p : Page) : Z :=
  let space := pd_upper p - pd_lower p in
  if space <? 0 then 0 else space.

(** Whether one of the [n] line pointers from [offnum] on is unused. *)
Fixpoint some_unused (n : nat) (offnum : Z) : M Page bool :=
  match n with
  | O => mret false
  | S n' =>
      lp ← PageGetItemId offnum;
      if negb (ItemIdIsUsed lp) then mret true else some_unused n' (offnum + 1)
  end.

Definition PageGetHeapFreeSpace : M Page Z :=
  p ← get;
  let space := PageGetFreeSpace p in
  if 0 <? space then
    let nline := PageGetMaxOffsetNumber p in
    if MaxHeapTuplesPerPage <=? nline then
      if PageHasFreeLinePointers p then
        found ← some_unused (Z.to_nat nline) FirstOffsetNumber;
        mret (if found : bool then space else 0)
      else mret 0
    else mret space
  else mret space.

(** ** Index pages *)

Definition item_corrupt (p : Page) (offset size : Z) : bool :=
  (offset <? pd_upper p) || (pd_special p <? offset + size) || negb (offset =? MAXALIGN offset).

(** [lp_off += delta] for the line pointers of the data up to [offset];
    [storage_only] is the test two of the three routines make. *)
Definition shift_item (storage_only : bool) (offset delta i : Z) : M Page unit :=
  ii ← PageGetItemId i;
  if (negb storage_only || ItemIdHasStorage ii) && (lp_off ii <=? offset) then
    PageSetItemId i (with_off (lp_off ii + delta) ii)
  else mret tt.

Definition shift_items (storage_only : bool) (offset delta nline : Z) : M Page unit :=
  mfor (seqZ 1 nline) (shift_item storage_only offset delta).

(** The checks the three routines share, up to the line pointer of the item. *)
Definition index_item (offnum : Z) : M Page ItemIdData :=
  p ← get;
  if header_corrupt p then fail (ErrReport "corrupted page pointers") else
  if (offnum <=? 0) || (PageGetMaxOffsetNumber p <? offnum) then
    fail (ErrReport "invalid index offnum")
  else
    tup ← PageGetItemId offnum;
    if item_corrupt p (lp_off tup) (lp_len tup) then fail (ErrReport "corrupted line pointer")
    else mret tup.

(** The data below the deleted tuple moves up by its size. *)
Definition close_gap (offset size : Z) : M Page unit :=
  p ← get;
  (if pd_upper p <? offset then
     memmove (pd_upper p + size) (pd_upper p) (offset - pd_upper p)
   else mret tt) ;;
  set_pd_upper (pd_upper p + size).

Definition PageIndexTupleDelete (offnum : Z) : M Page unit :=
  tup ← index_item offnum;
  p ← get;
  let nline := PageGetMaxOffsetNumber p in
  let offidx := offnum - 1 in
  let size := MAXALIGN (lp_len tup) in
  let offset := lp_off tup in
  let nbytes := pd_lower p - linp_at (offidx + 1) in
  (if 0 <? nbytes then memmove (linp_at offidx) (linp_at (offidx + 1)) nbytes else mret tt) ;;
  close_gap offset size ;;
  set_pd_lower (pd_lower p - 4) ;;
  q ← get;
  if PageIsEmpty q then mret tt else shift_items false offset size (nline - 1).

Definition PageIndexTupleDeleteNoCompact (offnum : Z) : M Page unit :=
  tup ← index_item offnum;
  p ← get;
  let size := MAXALIGN (lp_len tup) in
  let offset := lp_off tup in
  nline ←
    (if offnum <? PageGetMaxOffsetNumber p then
       PageSetItemId offnum ItemIdSetUnused ;; mret (PageGetMaxOffsetNumber p)
     else
       set_pd_lower (pd_lower p - 4) ;; mret (PageGetMaxOffsetNumber p - 1));
  close_gap offset size ;;
  q ← get;
  if PageIsEmpty q then mret tt else shift_items true offset size nline.

(** Making or closing room next to a tuple: the data below it moves by [d], in
    either direction. *)
Definition make_room (offset d itemcount : Z) : M Page unit :=
  p ← get;
  if negb (d =? 0) then
    memmove (pd_upper p + d) (pd_upper p) (offset - pd_upper p) ;;
    set_pd_upper (pd_upper p + d) ;;
    shift_items true offset d itemcount
  else mret tt.

Definition PageIndexTupleOverwrite (offnum : Z) (newtup : list Z) (newsize : Z) : M Page bool :=
  tupid ← index_item offnum;
  p ← get;
  let itemcount := PageGetMaxOffsetNumber p in
  let oldsize := MAXALIGN (lp_len tupid) in
  let offset := lp_off tupid in
  let alignednewsize := MAXALIGN newsize in
  if oldsize + (pd_upper p - pd_lower p) <? alignednewsize then mret false else
  let size_diff := i32 (oldsize - i32 alignednewsize) in
  make_room offset size_diff itemcount ;;
  tupid ← PageGetItemId offnum;
  let lp := mkItemId (offset + size_diff) (lp_flags tupid) newsize in
  PageSetItemId offnum lp ;;
  (if Z.of_nat (length newtup) <? newsize then fail ErrUB
   else store (offset + size_diff) (take (Z.to_nat newsize) newtup)) ;;
  mret true.

(** ** Deleting many index tuples *)

Record delete_scan : Type := mkDelScan {
  ds_items : list itemIdCompactData;
  ds_newids : list ItemIdData;
  ds_last_offset : Z;
  ds_presorted : bool;
  ds_totallen : Z;
  ds_itemnos : list Z
}.

(** One line pointer of the scan; [ds_itemnos] is what is left of the item
    numbers to delete. *)
Definition delete_item (p0 : Page) (ds : delete_scan) (offnum : Z) : M Page delete_scan :=
  lp ← PageGetItemId offnum;
  if item_corrupt p0 (lp_off lp) (lp_len lp) then fail (ErrReport "corrupted line pointer") else
  if (match ds_itemnos ds with [] => false | k :: _ => offnum =? k end) then
    mret (mkDelScan (ds_items ds) (ds_newids ds) (ds_last_offset ds) (ds_presorted ds)
            (ds_totallen ds) (tail (ds_itemnos ds)))
  else
    let it := mkCompact (Z.of_nat (length (ds_newids ds))) (i16 (lp_off lp))
                (wrap_u 16 (MAXALIGN (lp_len lp))) in
    let descends := itemoff it <? ds_last_offset ds in
    items ← lift_result (push_item MaxIndexTuplesPerPage it (ds_items ds));
    mret (mkDelScan items (ds_newids ds ++ [lp])
            (if descends then itemoff it else ds_last_offset ds)
            (ds_presorted ds && descends) (ds_totallen ds + alignedlen it) (ds_itemnos ds)).

Fixpoint delete_loop (p0 : Page) (n : nat) (offnum : Z) (ds : delete_scan) : M Page delete_scan :=
  match n with
  | O => mret ds
  | S n' => ds' ← delete_item p0 ds offnum; delete_loop p0 n' (offnum + 1) ds'
  end.

(** [memcpy] of the new line pointers over the array. *)
Definition encode_items (lps : list ItemIdData) : list Z :=
  lps ≫= (λ lp, le_encode 4 (item_encode lp)).

Definition PageIndexMultiDelete (itemnos : list Z) : M Page unit :=
  if (length itemnos <=? 2)%nat then mfor (reverse itemnos) PageIndexTupleDelete else
  p ← get;
  if header_corrupt p then fail (ErrReport "corrupted page pointers") else
  ds ← delete_loop p (Z.to_nat (PageGetMaxOffsetNumber p)) FirstOffsetNumber
         (mkDelScan [] [] (pd_special p) true 0 itemnos);
  if negb (length (ds_itemnos ds) =? 0)%nat then
    fail (ErrReport "incorrect index offsets supplied")
  else if pd_special p - pd_lower p <? ds_totallen ds then
    fail (ErrReport "corrupted item lengths")
  else
    store SizeOfPageHeaderData (encode_items (ds_newids ds)) ;;
    set_pd_lower (SizeOfPageHeaderData + Z.of_nat (length (ds_newids ds)) * 4) ;;
    (if (0 <? length (ds_newids ds))%nat then compactify_tuples (ds_items ds) (ds_presorted ds)
     else set_pd_upper (pd_special p)).
