(* ===== verification/PageInv.v ===== *)
(** * Well-formed pages and what they hold

    A page promises its users a list of items, each with the state of its line
    pointer and its bytes, an amount of free space, a hint that some line pointer
    is unused, and the header and special space that the routines leave alone.
    [abs_page] reads that off the bytes.  [page_wf] is the invariant that makes
    it meaningful: the three header pointers are in order and aligned, and the
    data of the items lies between [pd_upper] and [pd_special] without overlap.

    Each routine of [BufPage] is proved against an operation on abstract pages:
    it returns normally on every well-formed page, keeps it well-formed, and
    changes what the page holds as the operation says.  This file has the adding
    of an item and the initialisation of a page; the other routines follow in
    [PageIndex], [PageCompact], [PageRepair], [PageMulti] and [PageHeap]. *)

From S2P Require Import Prelude PageMem BufPage.
From stdpp Require Import base tactics list numbers strings.
From Stdlib Require Import ZArith Lia.

Open Scope Z_scope.

(** ** Abstract pages *)

Record item : Type := mkItem { it_flags : Z; it_link : Z; it_data : list Z }.

Record apage : Type := mkApage {
  ap_meta : list Z;
  ap_flags : Z;
  ap_hint : bool;
  ap_free : Z;
  ap_items : list item;
  ap_special : list Z
}.

Definition nlines (p : Page) : nat := Z.to_nat (PageGetMaxOffsetNumber p).

Definition lines_n (p : Page) (n : nat) : list ItemIdData :=
  (λ i, linp p (Z.of_nat i)) <$> seq 0 n.

Definition lines (p : Page) : list ItemIdData := lines_n p (nlines p).

(** What a line pointer stands for: its data if it has storage, otherwise its
    link. *)
Definition view (p : Page) (lp : ItemIdData) : item :=
  if ItemIdHasStorage lp then mkItem (lp_flags lp) 0 (slice (lp_off lp) (lp_len lp) p)
  else mkItem (lp_flags lp) (lp_off lp) [].

Definition abs_page (p : Page) : apage :=
  mkApage (slice 0 10 p ++ slice 16 8 p)
    (Z.land (pd_flags p) (Z.lnot PD_HAS_FREE_LINES))
    (PageHasFreeLinePointers p)
    (pd_upper p - pd_lower p)
    (view p <$> lines p)
    (slice (pd_special p) (BLCKSZ - pd_special p) p).

(** ** Well-formed pages *)

Definition alen (lp : ItemIdData) : Z := MAXALIGN (lp_len lp).

Definition lp_end (lp : ItemIdData) : Z := lp_off lp + alen lp.

Record placed (upper special : Z) (lp : ItemIdData) : Prop := {
  pl_low : upper ≤ lp_off lp;
  pl_high : lp_end lp ≤ special;
  pl_align : lp_off lp mod 8 = 0
}.

Definition apart (a b : ItemIdData) : Prop := lp_end a ≤ lp_off b ∨ lp_end b ≤ lp_off a.

Record layout (upper special : Z) (lps : list ItemIdData) : Prop := {
  lay_placed : ∀ i a, lps !! i = Some a → ItemIdHasStorage a = true → placed upper special a;
  lay_apart : ∀ i j a b, lps !! i = Some a → lps !! j = Some b → i ≠ j →
    ItemIdHasStorage a = true → ItemIdHasStorage b = true → apart a b;
  lay_unused : ∀ i a, lps !! i = Some a → ItemIdIsUsed a = false → ItemIdHasStorage a = false
}.

Record page_wf (p : Page) : Prop := {
  wf_sized : sized p;
  wf_flags : 0 ≤ pd_flags p < 2 ^ 16;
  wf_lines : pd_lower p = linp_at (Z.of_nat (nlines p));
  wf_lower : pd_lower p ≤ pd_upper p;
  wf_upper : pd_upper p ≤ pd_special p;
  wf_special : pd_special p ≤ BLCKSZ;
  wf_upper_al : pd_upper p mod 8 = 0;
  wf_special_al : pd_special p mod 8 = 0;
  wf_layout : layout (pd_upper p) (pd_special p) (lines p)
}.

(** ** The operations on abstract pages *)

Definition item_unused (it : item) : bool := it_flags it =? LP_UNUSED.

Definition item_space (it : item) : Z := MAXALIGN (Z.of_nat (length (it_data it))).

(** Where a new item goes. *)
Inductive placement : Type :=
| PlaceAppend
| PlaceInsert (i : nat)
| PlaceReuse (i : nat).

Definition place_index (a : apage) (pl : placement) : nat :=
  match pl with
  | PlaceAppend => length (ap_items a)
  | PlaceInsert i | PlaceReuse i => i
  end.

(** The line pointers a placement adds, and their space. *)
Definition place_grow (pl : placement) : nat :=
  match pl with PlaceReuse _ => 0 | _ => 1 end.

Definition place_pointer (pl : placement) : Z := 4 * Z.of_nat (place_grow pl).

Definition first_unused (l : list item) : option nat :=
  fst <$> list_find (λ it, item_unused it = true) l.

Definition spec_select (a : apage) (offnum flags : Z) : option placement :=
  let n := Z.of_nat (length (ap_items a)) in
  if OffsetNumberIsValid offnum then
    if n + 1 <? offnum then None
    else if offnum =? n + 1 then Some PlaceAppend
    else if Z.land flags PAI_OVERWRITE =? 0 then Some (PlaceInsert (Z.to_nat (offnum - 1)))
    else
      it ← ap_items a !! Z.to_nat (offnum - 1);
      if item_unused it then Some (PlaceReuse (Z.to_nat (offnum - 1))) else None
  else if ap_hint a then
    match first_unused (ap_items a) with
    | Some i => Some (PlaceReuse i)
    | None => Some PlaceAppend
    end
  else Some PlaceAppend.

(** The hint is found wrong by a search that finds nothing. *)
Definition spec_hint (a : apage) (offnum : Z) : bool :=
  ap_hint a && (OffsetNumberIsValid offnum
                || match first_unused (ap_items a) with Some _ => true | None => false end).

Definition set_items (a : apage) (hint : bool) (free : Z) (its : list item) : apage :=
  mkApage (ap_meta a) (ap_flags a) hint free its (ap_special a).

Definition place {A} (pl : placement) (it : A) (l : list A) : list A :=
  match pl with
  | PlaceAppend => l ++ [it]
  | PlaceInsert i => take i l ++ it :: drop i l
  | PlaceReuse i => <[i := it]> l
  end.

Definition spec_add (a : apage) (data : list Z) (offnum flags : Z) : apage * Z :=
  let a0 := set_items a (spec_hint a offnum) (ap_free a) (ap_items a) in
  match spec_select a offnum flags with
  | None => (a0, InvalidOffsetNumber)
  | Some pl =>
      let n := Z.of_nat (place_index a pl) + 1 in
      let need := MAXALIGN (Z.of_nat (length data)) + place_pointer pl in
      if negb (Z.land flags PAI_IS_HEAP =? 0) && (MaxHeapTuplesPerPage <? n) then
        (a0, InvalidOffsetNumber)
      else if ap_free a <? need then (a0, InvalidOffsetNumber)
      else (set_items a0 (ap_hint a0) (ap_free a - need)
              (place pl (mkItem LP_NORMAL 0 data) (ap_items a)), n)
  end.

(** Deletion of one index tuple, and the variant that keeps the line pointers
    of the others. *)
Definition spec_delete (a : apage) (i : nat) : apage :=
  match ap_items a !! i with
  | None => a
  | Some it => set_items a (ap_hint a) (ap_free a + item_space it + 4) (delete i (ap_items a))
  end.

Definition spec_delete_no_compact (a : apage) (i : nat) : apage :=
  match ap_items a !! i with
  | None => a
  | Some it =>
      if (i + 1 <? length (ap_items a))%nat then
        set_items a (ap_hint a) (ap_free a + item_space it)
          (<[i := mkItem LP_UNUSED 0 []]> (ap_items a))
      else set_items a (ap_hint a) (ap_free a + item_space it + 4) (delete i (ap_items a))
  end.

Definition spec_overwrite (a : apage) (i : nat) (data : list Z) : apage * bool :=
  match ap_items a !! i with
  | None => (a, false)
  | Some it =>
      let need := MAXALIGN (Z.of_nat (length data)) in
      if item_space it + ap_free a <? need then (a, false)
      else (set_items a (ap_hint a) (ap_free a + item_space it - need)
              (<[i := mkItem (it_flags it) 0 data]> (ap_items a)), true)
  end.

(** ** Running the primitives *)

(** Linear arithmetic on addresses in the page. *)
Ltac page_lia := unfold lp_end, linp_at, SizeOfPageHeaderData, BLCKSZ in *; lia.

Lemma in_block_true o n : 0 ≤ o → 0 ≤ n → o + n ≤ BLCKSZ → in_block o n = true.
Proof. intros. unfold in_block. lia. Qed.

Lemma linp_at_S i : linp_at (i + 1) = linp_at i + 4.
Proof. unfold linp_at. lia. Qed.

Lemma linp_at_ge i : 0 ≤ i → 24 ≤ linp_at i.
Proof. unfold linp_at, SizeOfPageHeaderData. lia. Qed.

Lemma run_get_item p i : sized p → 0 ≤ i → linp_at (i + 1) ≤ BLCKSZ →
  PageGetItemId (i + 1) p = (p, Ok (linp p i)).
Proof.
  intros. unfold PageGetItemId, load. rewrite Z.add_simpl_r.
  pose proof (linp_at_ge i). pose proof (linp_at_S i). by rewrite in_block_true by lia.
Qed.

Lemma run_set_item p i lp : sized p → 0 ≤ i → linp_at (i + 1) ≤ BLCKSZ →
  PageSetItemId (i + 1) lp p = (put_linp i lp p, Ok tt).
Proof.
  intros. unfold PageSetItemId, store. rewrite Z.add_simpl_r, length_le_encode.
  pose proof (linp_at_ge i). pose proof (linp_at_S i). by rewrite in_block_true by lia.
Qed.

Lemma run_store p o l : 0 ≤ o → o + Z.of_nat (length l) ≤ BLCKSZ →
  store o l p = (blit o l p, Ok tt).
Proof. intros. unfold store. by rewrite in_block_true by lia. Qed.

Lemma run_memmove p dst src n : sized p → 0 ≤ n → 0 ≤ dst → dst + n ≤ BLCKSZ → 0 ≤ src →
  src + n ≤ BLCKSZ → memmove dst src n p = (blit dst (slice src n p) p, Ok tt).
Proof.
  unfold sized. intros Hp **. unfold memmove, load. rewrite in_block_true by lia.
  unfold mbind, M_bind, gets. rewrite run_store; [done|lia|]. rewrite length_slice; lia.
Qed.

(** The bytes after a move: the target holds the source, the rest is as it
    was. *)
Lemma memmove_spec p dst src n : sized p → 0 ≤ n → 0 ≤ dst → dst + n ≤ BLCKSZ → 0 ≤ src →
  src + n ≤ BLCKSZ → ∃ q, memmove dst src n p = (q, Ok tt)
  ∧ same_except dst (dst + n) p q ∧ ∀ k, 0 ≤ k < n → peek q (dst + k) = peek p (src + k).
Proof.
  intros Hp **. eexists. split; [by apply run_memmove|].
  assert (Z.of_nat (length (slice src n p)) = n) as L by (unfold sized in Hp; rewrite length_slice; lia).
  split.
  - rewrite <-L at 1. apply blit_same_except; [done|lia|lia].
  - intros k Hk. rewrite peek_blit by (unfold sized in Hp; lia). rewrite decide_True by lia.
    rewrite peek_slice by lia. f_equal. lia.
Qed.

(** ** Line pointers of a page *)

Lemma lookup_lines p n i : lines_n p n !! i = if decide (i < n)%nat then Some (linp p (Z.of_nat i)) else None.
Proof.
  unfold lines_n. rewrite list_lookup_fmap. case_decide.
  - by rewrite lookup_seq_lt by lia.
  - by rewrite lookup_seq_ge by lia.
Qed.

Lemma lookup_lines_Some p n i a :
  lines_n p n !! i = Some a ↔ (i < n)%nat ∧ a = linp p (Z.of_nat i).
Proof.
  rewrite lookup_lines. case_decide; split; [by intros [= <-]|by intros [_ ->]|done|by intros [? _]].
Qed.

Lemma length_lines p n : length (lines_n p n) = n.
Proof. unfold lines_n. by rewrite length_fmap, length_seq. Qed.

(** Two arrays of line pointers are compared entry by entry. *)
Lemma lines_ext p n L : length L = n →
  (∀ i, (i < n)%nat → L !! i = Some (linp p (Z.of_nat i))) → lines_n p n = L.
Proof.
  intros HL H. apply list_eq. intros i. rewrite lookup_lines. case_decide as Hd.
  - symmetry. by apply H.
  - symmetry. apply lookup_ge_None. lia.
Qed.

Lemma same_except_lines a b p q n : same_except a b p q → sized p → linp_at (Z.of_nat n) ≤ BLCKSZ →
  linp_at (Z.of_nat n) ≤ a ∨ b ≤ SizeOfPageHeaderData → lines_n q n = lines_n p n.
Proof.
  unfold linp_at. intros. apply lines_ext; [apply length_lines|].
  intros i Hi. rewrite lookup_lines, decide_True by done. f_equal. symmetry.
  apply (same_except_linp a b); [done|done|unfold linp_at; lia..].
Qed.

Lemma put_linp_lines p n i lp : sized p → (i < n)%nat → linp_at (Z.of_nat n) ≤ BLCKSZ → item_fits lp →
  lines_n (put_linp (Z.of_nat i) lp p) n = <[i := lp]> (lines_n p n).
Proof.
  intros Hp Hi Hn Hf. unfold linp_at in Hn. apply lines_ext; [by rewrite length_insert, length_lines|].
  intros j Hj. destruct (decide (i = j)) as [->|].
  - rewrite list_lookup_insert_eq by (by rewrite length_lines). f_equal. symmetry.
    apply put_linp_same; [done|lia|unfold linp_at; lia|done].
  - rewrite list_lookup_insert_ne, lookup_lines, decide_True by done. f_equal. symmetry.
    eapply same_except_linp; [apply put_linp_same_except; [done|lia|unfold linp_at; lia]|done|lia|unfold linp_at; lia..].
Qed.

(** A loop over the line pointers that changes each by itself. *)
Lemma line_loop p n f (body : Z → M Page unit) : sized p → linp_at (Z.of_nat n) ≤ BLCKSZ →
  (∀ i q, sized q → (i < n)%nat → linp q (Z.of_nat i) = linp p (Z.of_nat i) →
    ∃ q', body (Z.of_nat i + 1) q = (q', Ok tt)
      ∧ same_except (linp_at (Z.of_nat i)) (linp_at (Z.of_nat i + 1)) q q'
      ∧ linp q' (Z.of_nat i) = f (linp p (Z.of_nat i))) →
  ∃ q, mfor (seqZ 1 (Z.of_nat n)) body p = (q, Ok tt)
    ∧ same_except SizeOfPageHeaderData (linp_at (Z.of_nat n)) p q ∧ lines_n q n = f <$> lines_n p n.
Proof.
  intros Hp Hn Hb.
  enough (∀ k m q, (m + k = n)%nat → same_except SizeOfPageHeaderData (linp_at (Z.of_nat m)) p q →
    (∀ i, (i < m)%nat → linp q (Z.of_nat i) = f (linp p (Z.of_nat i))) →
    ∃ q', mfor (seqZ (Z.of_nat m + 1) (Z.of_nat k)) body q = (q', Ok tt)
      ∧ same_except SizeOfPageHeaderData (linp_at (Z.of_nat n)) p q'
      ∧ ∀ i, (i < n)%nat → linp q' (Z.of_nat i) = f (linp p (Z.of_nat i))) as H.
  { destruct (H n 0%nat p) as (q & E & Sq & L); [lia|apply same_except_refl|lia|].
    exists q. split_and!; [done|done|]. apply lines_ext; [by rewrite length_fmap, length_lines|].
    intros i Hi. rewrite list_lookup_fmap, lookup_lines, decide_True by done. simpl. by rewrite L. }
  unfold linp_at in Hn. induction k as [|k IH]; intros m q Hm Sq L.
  { exists q. replace n with m by lia. done. }
  rewrite seqZ_cons by lia. cbn [mfor].
  destruct (Hb m q) as (q1 & E & S1 & L1); [by eapply same_except_sized|lia| |].
  { eapply same_except_linp; [done|done|lia|unfold linp_at; lia..]. }
  rewrite (bind_ok _ _ _ _ _ E).
  replace (Z.succ (Z.of_nat m + 1)) with (Z.of_nat (S m) + 1) by lia.
  replace (Z.pred (Z.of_nat (S k))) with (Z.of_nat k) by lia.
  apply IH; [lia| |].
  - eapply same_except_trans; eapply same_except_weaken; [..|exact Sq| | |exact S1]; unfold linp_at; lia.
  - intros i Hi. destruct (decide (i = m)) as [->|]; [done|].
    rewrite <-L by lia. eapply same_except_linp; [done|by eapply same_except_sized|lia|unfold linp_at; lia..].
Qed.

(** ** What the routines leave alone *)

(** Only [pd_lower], [pd_upper] and the bytes between the header and the special
    space may differ. *)
Definition frame (p q : Page) : Prop :=
  length q = length p ∧
  ∀ i, 0 ≤ i → i < 12 ∨ 16 ≤ i < 24 ∨ Z.max 24 (pd_special p) ≤ i → peek q i = peek p i.

Lemma frame_agree p q lo hi : frame p q → 0 ≤ lo →
  hi ≤ 12 ∨ (16 ≤ lo ∧ hi ≤ 24) ∨ Z.max 24 (pd_special p) ≤ lo → agree lo hi q p.
Proof. intros [_ H] ? ? i Hi. apply H; lia. Qed.

Lemma frame_sized p q : frame p q → sized p → sized q.
Proof. intros [H _]. unfold sized. by rewrite H. Qed.

Lemma frame_slice p q o n : frame p q → sized p → 0 ≤ o → 0 ≤ n → o + n ≤ BLCKSZ →
  o + n ≤ 12 ∨ (16 ≤ o ∧ o + n ≤ 24) ∨ Z.max 24 (pd_special p) ≤ o → slice o n q = slice o n p.
Proof.
  intros F Hp ** . eapply (agree_slice o (o + n)); [by eapply frame_agree|by eapply frame_sized|done|lia..].
Qed.

Lemma frame_special p q : frame p q → sized p → pd_special q = pd_special p.
Proof. intros. unfold pd_special, get16. by rewrite (frame_slice p q) by (done || page_lia). Qed.

Lemma frame_flags p q : frame p q → sized p → pd_flags q = pd_flags p.
Proof. intros. unfold pd_flags, get16. by rewrite (frame_slice p q) by (done || page_lia). Qed.

Lemma frame_refl p : frame p p.
Proof. by split. Qed.

Lemma frame_trans p q r : sized p → frame p q → frame q r → frame p r.
Proof.
  intros Hp F G. pose proof (frame_special p q F Hp) as E. destruct F as [L1 H1], G as [L2 H2].
  split; [by rewrite L2|]. intros i ??. rewrite H2 by (rewrite ?E; done). by apply H1.
Qed.

Lemma same_except_frame a b p q : same_except a b p q →
  (12 ≤ a ∧ b ≤ 16) ∨ (24 ≤ a ∧ b ≤ pd_special p) → frame p q.
Proof. intros [L H] Hr. split; [done|]. intros i ? Hi. apply H; lia. Qed.

(** The writes of the routines, as steps of the frame. *)
Lemma put_lower_spec p v : sized p → 0 ≤ v < 2 ^ 16 →
  frame p (put16 12 v p) ∧ pd_lower (put16 12 v p) = v ∧ same_except 12 14 p (put16 12 v p).
Proof.
  intros Hp ?. assert (same_except 12 14 p (put16 12 v p)) by (by apply put16_same_except).
  split_and!; [|unfold pd_lower; rewrite put16_same, Z.mod_small; done|done].
  eapply same_except_frame; [done|lia].
Qed.

Lemma put_upper_spec p v : sized p → 0 ≤ v < 2 ^ 16 →
  frame p (put16 14 v p) ∧ pd_upper (put16 14 v p) = v ∧ same_except 14 16 p (put16 14 v p).
Proof.
  intros Hp ?. assert (same_except 14 16 p (put16 14 v p)) by (by apply put16_same_except).
  split_and!; [|unfold pd_upper; rewrite put16_same, Z.mod_small; done|done].
  eapply same_except_frame; [done|lia].
Qed.

Lemma same_except_bounds a b p q : same_except a b p q → sized p → 16 ≤ a →
  pd_lower q = pd_lower p ∧ pd_upper q = pd_upper p.
Proof.
  intros S Hp ?. split; apply (same_except_get16 a b); done || page_lia.
Qed.

(** Once the frame, the two pointers and the line pointers of the new page are
    known, so is what it holds. *)
Lemma finish p q n u L : page_wf p → frame p q → pd_lower q = linp_at (Z.of_nat n) →
  pd_upper q = u → linp_at (Z.of_nat n) ≤ u ≤ pd_special p → u mod 8 = 0 →
  lines_n q n = L → layout u (pd_special p) L →
  page_wf q ∧ lines q = L ∧
  abs_page q = set_items (abs_page p) (ap_hint (abs_page p)) (u - linp_at (Z.of_nat n)) (view q <$> L).
Proof.
  intros W F Hl Hu Hb Ha HL Hlay. pose proof (wf_sized _ W) as Hp. pose proof (wf_special _ W).
  assert (nlines q = n) as En.
  { unfold nlines, PageGetMaxOffsetNumber. rewrite Hl. unfold linp_at.
    destruct (Z.leb_spec (SizeOfPageHeaderData + 4 * Z.of_nat n) SizeOfPageHeaderData); [lia|].
    replace (SizeOfPageHeaderData + _ - _) with (Z.of_nat n * 4) by lia. rewrite Z.div_mul by done. lia. }
  assert (lines q = L) as Elines by (unfold lines; by rewrite En).
  pose proof (frame_special p q F Hp) as Es. pose proof (frame_flags p q F Hp) as Ef.
  pose proof (linp_at_ge (Z.of_nat n) ltac:(lia)).
  split_and!; [|done|].
  - split; rewrite ?Es, ?Ef, ?Hu, ?Hl, ?En, ?Elines; try done; try lia.
    + by eapply frame_sized.
    + by apply wf_flags.
    + by apply wf_special_al.
  - unfold abs_page, set_items, PageHasFreeLinePointers. simpl. rewrite Es, Ef, Hu, Hl, Elines.
    f_equal; rewrite ?(frame_slice p q) by (done || page_lia); done.
Qed.

(** ** The hint *)

Lemma view_ext p q lp : sized p → sized q → 0 ≤ lp_off lp → 0 ≤ lp_len lp →
  lp_off lp + lp_len lp ≤ BLCKSZ → agree (lp_off lp) (lp_off lp + lp_len lp) q p → view q lp = view p lp.
Proof.
  intros. unfold view. destruct (ItemIdHasStorage lp); [|done]. f_equal.
  eapply agree_slice; try done; lia.
Qed.

Lemma linp_fits p i : item_fits (linp p i).
Proof. apply item_decode_fits. Qed.

Lemma item_fits_bounds lp : item_fits lp → 0 ≤ lp_off lp ∧ 0 ≤ lp_len lp ≤ alen lp.
Proof. intros (? & ? & ?). pose proof (MAXALIGN_bounds (lp_len lp)). unfold alen. lia. Qed.

(** The item a stored line pointer stands for is inside the page. *)
Lemma wf_view p i a : page_wf p → lines p !! i = Some a → ItemIdHasStorage a = true →
  pd_upper p ≤ lp_off a ∧ lp_off a + lp_len a ≤ lp_end a ∧ lp_end a ≤ pd_special p ∧ 0 < lp_len a.
Proof.
  intros W Ha Hs. destruct (lay_placed _ _ _ (wf_layout _ W) _ _ Ha Hs).
  apply lookup_lines_Some in Ha as [_ ->]. pose proof (linp_fits p (Z.of_nat i)) as Hf.
  apply item_fits_bounds in Hf. unfold lp_end in *. unfold ItemIdHasStorage in Hs. lia.
Qed.

Lemma wf_header p : page_wf p → 24 ≤ pd_lower p ∧ pd_lower p ≤ pd_upper p ∧ pd_upper p ≤ pd_special p
  ∧ pd_special p ≤ BLCKSZ ∧ linp_at (Z.of_nat (nlines p)) = pd_lower p.
Proof.
  intros W. destruct W. pose proof (linp_at_ge (Z.of_nat (nlines p))). lia.
Qed.

Lemma views_ext p q (L : list ItemIdData) : sized p → sized q →
  (∀ i a, L !! i = Some a → ItemIdHasStorage a = true → 0 ≤ lp_off a ∧ 0 ≤ lp_len a
     ∧ lp_off a + lp_len a ≤ BLCKSZ ∧ agree (lp_off a) (lp_off a + lp_len a) q p) →
  view q <$> L = view p <$> L.
Proof.
  intros Hp Hq H. apply list_fmap_ext. intros i a Ha.
  destruct (ItemIdHasStorage a) eqn:Es; [|unfold view; by rewrite Es].
  destruct (H i a Ha Es) as (? & ? & ? & ?). by apply view_ext.
Qed.

Lemma hint_bits f b : 0 ≤ f < 2 ^ 16 →
  let f' := (if b : bool then Z.lor f 1 else Z.land f (Z.lnot 1)) mod 2 ^ 16 in
  0 ≤ f' < 2 ^ 16 ∧ Z.land f' (Z.lnot 1) = Z.land f (Z.lnot 1) ∧ negb (Z.land f' 1 =? 0) = b.
Proof.
  intros Hf f'. split; [by apply Z.mod_pos_bound|].
  assert (∀ k, 0 ≤ k → 16 ≤ k → Z.testbit f k = false) as Hhi.
  { intros k ? ?. rewrite <-(Z.mod_small f (2 ^ 16)) by done. by apply Z.mod_pow2_bits_high. }
  assert (∀ k, 0 ≤ k → Z.testbit f' k = if decide (k = 0) then b else Z.testbit f k) as Hbits.
  { intros k Hk. subst f'. destruct (decide (k < 16)).
    - rewrite Z.mod_pow2_bits_low by lia. change 1 with (2 ^ 0).
      destruct b; rewrite ?Z.lor_spec, ?Z.land_spec, ?Z.lnot_spec, Z.pow2_bits_eqb by lia;
        case_decide; subst; rewrite ?Z.eqb_refl, ?(proj2 (Z.eqb_neq 0 k)) by done;
        by rewrite ?orb_true_r, ?orb_false_r, ?andb_false_r, ?andb_true_r.
    - rewrite Z.mod_pow2_bits_high, decide_False, Hhi by lia. done. }
  split.
  - apply Z.bits_inj'. intros k Hk. rewrite !Z.land_spec, Hbits by done. case_decide; [|done].
    subst. rewrite Z.lnot_spec by done. change 1 with (2 ^ 0). by rewrite Z.pow2_bits_true, !andb_false_r by done.
  - assert (Z.land f' 1 = Z.b2z b) as ->; [|by destruct b].
    apply Z.bits_inj'. intros k Hk. change 1 with (2 ^ 0). rewrite Z.land_spec, Hbits, Z.pow2_bits_eqb by done.
    case_decide; subst.
    + rewrite Z.eqb_refl, andb_true_r. by destruct b.
    + rewrite (proj2 (Z.eqb_neq 0 k)), andb_false_r by done. destruct b; simpl; [|by rewrite Z.testbit_0_l].
      change 1 with (2 ^ 0). by rewrite Z.pow2_bits_false.
Qed.

Lemma set_free_hint_spec b p : page_wf p → ∃ q, set_free_hint b p = (q, Ok tt) ∧ page_wf q
  ∧ lines q = lines p ∧ pd_lower q = pd_lower p ∧ pd_upper q = pd_upper p ∧ pd_special q = pd_special p
  ∧ abs_page q = set_items (abs_page p) b (ap_free (abs_page p)) (ap_items (abs_page p)).
Proof.
  intros W. pose proof (wf_sized _ W) as Hp. pose proof (wf_header _ W).
  set (f := if b then Z.lor (pd_flags p) 1 else Z.land (pd_flags p) (Z.lnot 1)).
  set (q := put16 10 f p).
  assert (same_except 10 12 p q) as Sq by (apply put16_same_except; done || page_lia).
  assert (sized q) as Hq by (by eapply same_except_sized).
  assert (pd_flags q = f mod 2 ^ 16) as Ef by (apply put16_same; done || page_lia).
  destruct (hint_bits (pd_flags p) b (wf_flags _ W)) as (Hr & Hand & Hhint). fold f in Hr, Hand, Hhint.
  assert (pd_lower q = pd_lower p) as El by (apply (same_except_get16 10 12); done || page_lia).
  assert (pd_upper q = pd_upper p) as Eu by (apply (same_except_get16 10 12); done || page_lia).
  assert (pd_special q = pd_special p) as Es by (apply (same_except_get16 10 12); done || page_lia).
  assert (nlines q = nlines p) as En by (unfold nlines, PageGetMaxOffsetNumber; by rewrite El).
  assert (lines q = lines p) as EL.
  { unfold lines. rewrite En. eapply same_except_lines; [done|done|page_lia|]. right. done. }
  exists q. split; [by destruct b|].
  split_and!; [|done..|].
  - destruct W. split; rewrite ?Ef, ?El, ?Eu, ?Es, ?En, ?EL; done.
  - unfold abs_page, set_items, PageHasFreeLinePointers, PD_HAS_FREE_LINES. cbn [ap_meta ap_flags ap_hint ap_free ap_items ap_special].
    rewrite Ef, Hand, Hhint, El, Eu, Es, EL.
    rewrite !(same_except_slice _ _ _ _ _ _ Sq Hp) by (done || page_lia). f_equal.
    apply views_ext; [done..|]. intros i a Ha Hs. pose proof (wf_view p i a W Ha Hs).
    split_and!; [page_lia..|]. eapply same_except_agree; [done|page_lia..].
Qed.

(** ** Layouts *)

(** An item is added to a layout where there is room for it: [k] is its index,
    and [f] says where the other line pointers were before. *)
Lemma layout_add u u' s L L' k x f : layout u s L → u' ≤ u →
  (∀ i a, L' !! i = Some a → (i = k ∧ a = x) ∨ (i ≠ k ∧ L !! f i = Some a)) →
  (∀ i j, i ≠ k → j ≠ k → f i = f j → i = j) →
  ItemIdIsUsed x = true → placed u' s x →
  (∀ i a, i ≠ k → L !! f i = Some a → ItemIdHasStorage a = true → apart x a) →
  layout u' s L'.
Proof.
  intros [Hpl Hap Hun] Hu HL Hf Hused Hx Hapx. split.
  - intros i a Ha Hs. destruct (HL i a Ha) as [[_ ->]|[_ Ha']]; [done|].
    destruct (Hpl _ _ Ha' Hs). split; done || lia.
  - intros i j a b Ha Hb Hij Hsa Hsb. unfold apart in *.
    destruct (HL i a Ha) as [[-> ->]|[Hi Ha']], (HL j b Hb) as [[-> ->]|[Hj Hb']].
    + done.
    + by apply (Hapx j).
    + destruct (Hapx i a Hi Ha' Hsa); auto.
    + apply (Hap (f i) (f j)); auto.
  - intros i a Ha Hn. destruct (HL i a Ha) as [[_ ->]|[_ Ha']]; [congruence|]. by apply (Hun (f i)).
Qed.

(** Where the entries of the list after a placement come from. *)
Definition place_from (pl : placement) (i : nat) : nat :=
  match pl with
  | PlaceInsert k => if (i <? k)%nat then i else (i - 1)%nat
  | _ => i
  end.

Definition place_at (n : nat) (pl : placement) : nat :=
  match pl with PlaceAppend => n | PlaceInsert i | PlaceReuse i => i end.

Definition place_ok (n : nat) (pl : placement) : Prop :=
  match pl with PlaceAppend => True | PlaceInsert i | PlaceReuse i => (i < n)%nat end.

Lemma length_place {A} pl (x : A) L : place_ok (length L) pl →
  length (place pl x L) = (length L + place_grow pl)%nat.
Proof.
  destruct pl as [|i|i]; simpl; intros.
  - by rewrite length_app.
  - rewrite length_app. simpl. rewrite length_take, length_drop. lia.
  - rewrite length_insert. lia.
Qed.

Lemma lookup_place {A} pl (x : A) L i : place_ok (length L) pl →
  place pl x L !! i = if decide (i = place_at (length L) pl) then Some x else L !! place_from pl i.
Proof.
  destruct pl as [|k|k]; simpl; intros Hk; case_decide as Hi; subst.
  - by rewrite lookup_app_r, Nat.sub_diag by lia.
  - destruct (decide (i < length L)%nat); [by apply lookup_app_l|].
    rewrite !(proj2 (lookup_ge_None _ _)); [done|lia|rewrite length_app; simpl; lia].
  - rewrite lookup_app_r by (rewrite length_take; lia). rewrite length_take.
    replace (_ - _)%nat with 0%nat by lia. done.
  - destruct (Nat.ltb_spec i k).
    + rewrite lookup_app_l by (rewrite length_take; lia). by apply lookup_take_lt.
    + rewrite lookup_app_r by (rewrite length_take; lia). rewrite length_take.
      replace (i - min k (length L))%nat with (S (i - k - 1)) by lia. simpl.
      rewrite lookup_drop. f_equal. lia.
  - by apply list_lookup_insert_eq.
  - by apply list_lookup_insert_ne.
Qed.

Lemma fmap_place {A B} (f : A → B) pl x L : f <$> place pl x L = place pl (f x) (f <$> L).
Proof.
  destruct pl; simpl.
  - by rewrite fmap_app.
  - by rewrite fmap_app, fmap_cons, fmap_take, fmap_drop.
  - by rewrite list_fmap_insert.
Qed.

(** A new item takes the space just below the others. *)
Lemma layout_place u s L pl x : layout u s L → place_ok (length L) pl →
  ItemIdIsUsed x = true → lp_end x = u → lp_off x mod 8 = 0 → lp_off x ≤ u → u ≤ s →
  layout (lp_off x) s (place pl x L).
Proof.
  intros HL Hok Hused He Ha Hu Hs.
  apply (layout_add u (lp_off x) s L _ (place_at (length L) pl) x (place_from pl)); try done.
  - intros i a. rewrite lookup_place by done. case_decide; [intros [= <-]; auto|auto].
  - destruct pl as [|k|k]; simpl; try done. intros i j ? ?.
    destruct (Nat.ltb_spec i k), (Nat.ltb_spec j k); lia.
  - split; [lia|rewrite He; lia|done].
  - intros i a _ Hl Hst. left. destruct (lay_placed _ _ _ HL _ _ Hl Hst). lia.
Qed.

(** ** Adding an item *)

Lemma linp_ext p q i j : sized p → sized q → 0 ≤ i → 0 ≤ j → linp_at (i + 1) ≤ BLCKSZ →
  linp_at (j + 1) ≤ BLCKSZ → (∀ k, 0 ≤ k < 4 → peek q (linp_at j + k) = peek p (linp_at i + k)) →
  linp q j = linp p i.
Proof.
  unfold sized. intros. unfold linp, get32. f_equal. f_equal. apply slice_ext; [page_lia..|done].
Qed.

Definition is_insert (pl : placement) : bool := match pl with PlaceInsert _ => true | _ => false end.

(** The shuffle: every entry behind the new one moves by one place. *)
Lemma shuffle_move p pl n : sized p → place_ok n pl → linp_at (Z.of_nat n) + place_pointer pl ≤ BLCKSZ →
  let k := place_at n pl in
  ∃ q, (if is_insert pl then memmove (linp_at (Z.of_nat k + 1)) (linp_at (Z.of_nat k))
      ((Z.of_nat n - Z.of_nat k) * 4) else mret tt) p = (q, Ok tt)
  ∧ same_except SizeOfPageHeaderData (linp_at (Z.of_nat n) + place_pointer pl) p q
  ∧ ∀ i a, i ≠ k → lines_n p n !! place_from pl i = Some a → linp q (Z.of_nat i) = a.
Proof.
  intros Hp Hok Hb k. destruct (is_insert pl) eqn:Ei.
  2: { exists p. split_and!; [done|apply same_except_refl|]. intros i a _.
       rewrite lookup_lines_Some. destruct pl; try done; simpl; by intros [_ ->]. }
  destruct pl as [|k'|]; try done. subst k. simpl in *. change (place_pointer _) with 4 in *.
  destruct (memmove_spec p (linp_at (Z.of_nat k' + 1)) (linp_at (Z.of_nat k')) ((Z.of_nat n - Z.of_nat k') * 4))
    as (q & E & Sq & H); [done|page_lia..|].
  exists q. split_and!; [done|eapply same_except_weaken; [..|done]; page_lia|]. intros i a Hne.
  rewrite lookup_lines_Some. destruct (Nat.ltb_spec i k'); intros [? ->].
  - eapply same_except_linp; [done|done|page_lia..].
  - apply linp_ext; [done|by eapply same_except_sized|page_lia..|].
    intros j Hj. specialize (H ((Z.of_nat i - 1 - Z.of_nat k') * 4 + j)). unfold linp_at in *.
    replace (SizeOfPageHeaderData + 4 * Z.of_nat i + j) with
      (SizeOfPageHeaderData + 4 * (Z.of_nat k' + 1) + ((Z.of_nat i - 1 - Z.of_nat k') * 4 + j)) by lia.
    rewrite H by lia. f_equal. lia.
Qed.

(** The line pointers after the shuffle and the store of the new one. *)
Lemma shuffle_spec p pl n x : sized p → place_ok n pl → item_fits x →
  linp_at (Z.of_nat n) + place_pointer pl ≤ BLCKSZ →
  ∃ q, ((if is_insert pl then
           memmove (linp_at (Z.of_nat (place_at n pl) + 1)) (linp_at (Z.of_nat (place_at n pl)))
             ((Z.of_nat n - Z.of_nat (place_at n pl)) * 4)
         else mret tt) ;; PageSetItemId (Z.of_nat (place_at n pl) + 1) x) p = (q, Ok tt)
  ∧ same_except SizeOfPageHeaderData (linp_at (Z.of_nat n) + place_pointer pl) p q
  ∧ lines_n q (length (place pl x (lines_n p n))) = place pl x (lines_n p n).
Proof.
  intros Hp Hok Hx Hb. destruct (shuffle_move p pl n Hp Hok Hb) as (p1 & E1 & S1 & H1).
  set (k := place_at n pl) in *.
  assert (Hk4 : linp_at (Z.of_nat k + 1) ≤ linp_at (Z.of_nat n) + place_pointer pl)
    by (unfold k, place_pointer in *; destruct pl; simpl in *; page_lia).
  assert (sized p1) as Hp1 by (by eapply same_except_sized).
  exists (put_linp (Z.of_nat k) x p1). split_and!.
  - rewrite (bind_ok _ _ _ _ _ E1). apply run_set_item; [done|lia|lia].
  - eapply same_except_trans; [done|]. eapply same_except_weaken; [| |apply put_linp_same_except; [done|lia|lia]]; page_lia.
  - pose proof (length_place pl x (lines_n p n)) as Hlen. rewrite length_lines in Hlen. specialize (Hlen Hok).
    apply lines_ext; [done|]. intros i Hi. rewrite lookup_place, length_lines by (by rewrite length_lines).
    fold k. assert (linp_at (Z.of_nat i + 1) ≤ BLCKSZ) by (unfold place_pointer in *; page_lia).
    case_decide; [subst; f_equal; symmetry; apply put_linp_same; done || lia|].
    assert (is_Some (lines_n p n !! place_from pl i)) as [a Ha].
    { apply lookup_lt_is_Some. rewrite length_lines. destruct pl as [|k'|k']; simpl in *; subst k; [lia| |lia].
      destruct (Nat.ltb_spec i k'); lia. }
    rewrite Ha. f_equal. rewrite <-(H1 i a) by done. symmetry.
    eapply same_except_linp; [apply put_linp_same_except; [done|lia|lia]|done|lia|page_lia..].
Qed.

Lemma bind_assoc {S A B C} (m : M S A) (f : A → M S B) (g : B → M S C) s :
  ((m ≫= f) ≫= g) s = (m ≫= λ a, f a ≫= g) s.
Proof. unfold mbind, M_bind. by destruct (m s) as [s' [a|e]]. Qed.

Lemma bind_get {S A} (k : S → M S A) s : (get ≫= k) s = k s s.
Proof. done. Qed.

(** The writes of the insertion: the line pointers, the data, the two pointers
    of the header. *)
Lemma put_item_writes p pl item size : page_wf p → place_ok (nlines p) pl → 0 < size < 2 ^ 31 →
  size ≤ Z.of_nat (length item) → MAXALIGN size + place_pointer pl ≤ pd_upper p - pd_lower p →
  let k := Z.of_nat (place_at (nlines p) pl) in
  let u := pd_upper p - MAXALIGN size in
  let n := (nlines p + place_grow pl)%nat in
  ∃ q, put_item item size (k + 1) (Z.of_nat (nlines p) + 1) (is_insert pl)
         (pd_lower p + place_pointer pl) u p = (q, Ok (k + 1))
  ∧ frame p q ∧ pd_lower q = linp_at (Z.of_nat n) ∧ pd_upper q = u
  ∧ lines_n q n = place pl (ItemIdSetNormal u size) (lines p)
  ∧ slice u size q = take (Z.to_nat size) item ∧ agree (pd_upper p) (pd_special p) q p.
Proof.
  intros W Hok Hsz Hit Hfit k u n. pose proof (wf_sized _ W) as Hp. pose proof (wf_header _ W) as Hh.
  pose proof (MAXALIGN_bounds size ltac:(lia)) as [Hal _]. set (x := ItemIdSetNormal u size).
  assert (0 ≤ place_pointer pl) by (unfold place_pointer; lia).
  assert (item_fits x) as Hx by (unfold item_fits, x, LP_NORMAL; simpl; unfold u, LP_NORMAL; page_lia).
  destruct (shuffle_spec p pl (nlines p) x) as (p1 & E1 & S1 & L1); [done..|page_lia|].
  rewrite length_place, length_lines in L1 by (by rewrite length_lines). fold n in L1.
  assert (linp_at (Z.of_nat n) = pd_lower p + place_pointer pl) as En by (unfold n, place_pointer; page_lia).
  assert (sized p1) as Hp1 by (by eapply same_except_sized). set (l := take (Z.to_nat size) item).
  assert (Z.of_nat (length l) = size) as Hl by (unfold l; rewrite length_take; lia). set (p2 := blit u l p1).
  assert (same_except u (u + size) p1 p2) as S2
    by (rewrite <-Hl; apply blit_same_except; [done|unfold u; page_lia..]).
  assert (sized p2) as Hp2 by (by eapply same_except_sized).
  destruct (put_lower_spec p2 (pd_lower p + place_pointer pl)) as (F3 & El3 & S3); [done|unfold u in *; page_lia|].
  set (p3 := put16 12 (pd_lower p + place_pointer pl) p2) in *.
  assert (sized p3) as Hp3 by (by eapply same_except_sized).
  destruct (put_upper_spec p3 u) as (F4 & Eu4 & S4); [done|unfold u in *; page_lia|]. set (p4 := put16 14 u p3) in *.
  assert (∀ i, 0 ≤ i → ¬ 12 ≤ i < 16 → ¬ u ≤ i < u + size → peek p4 i = peek p1 i) as Hout
    by (intros; rewrite (proj2 S4), (proj2 S3), (proj2 S2) by lia; done).
  assert (sized p4) as Hp4 by (by eapply same_except_sized).
  exists p4. split_and!; [|..|done| | |].
  - unfold put_item. replace (k + 1 - 1) with k by lia.
    replace ((Z.of_nat (nlines p) + 1 - (k + 1)) * 4) with ((Z.of_nat (nlines p) - k) * 4) by lia.
    rewrite <-bind_assoc, (bind_ok _ _ _ _ _ E1).
    destruct (Z.ltb_spec (Z.of_nat (length item)) size); [lia|].
    rewrite (bind_ok _ _ p1 p2 tt) by (apply run_store; fold l; [|rewrite Hl]; unfold u; page_lia). done.
  - unfold sized in *. split; [by rewrite Hp4, Hp|]. intros i ? ?. unfold u in *. rewrite Hout, (proj2 S1) by page_lia. done.
  - rewrite En, <-El3. apply (same_except_get16 14 16); done || page_lia.
  - unfold lines. rewrite <-L1. apply list_fmap_ext. intros i j [-> ?]%lookup_seq.
    apply linp_ext; [done|done|unfold u in *; page_lia..|]. intros c Hc. apply Hout; unfold u in *; page_lia.
  - rewrite <-Hl. transitivity (slice u (Z.of_nat (length l)) p2); [|apply slice_blit; [done|unfold u; page_lia..]].
    rewrite (same_except_slice 14 16 p3 p4), (same_except_slice 12 14 p2 p3); try done; unfold u; page_lia.
  - intros i Hi. unfold u in *. rewrite Hout, (proj2 S1) by page_lia. done.
Qed.

Lemma put_item_spec p pl item size : page_wf p → place_ok (nlines p) pl → 0 < size < 2 ^ 31 →
  size ≤ Z.of_nat (length item) → MAXALIGN size + place_pointer pl ≤ pd_upper p - pd_lower p →
  let k := Z.of_nat (place_at (nlines p) pl) in
  ∃ q, put_item item size (k + 1) (Z.of_nat (nlines p) + 1) (is_insert pl)
         (pd_lower p + place_pointer pl) (pd_upper p - MAXALIGN size) p = (q, Ok (k + 1))
  ∧ page_wf q
  ∧ abs_page q = set_items (abs_page p) (ap_hint (abs_page p))
      (ap_free (abs_page p) - (MAXALIGN size + place_pointer pl))
      (place pl (mkItem LP_NORMAL 0 (take (Z.to_nat size) item)) (ap_items (abs_page p))).
Proof.
  intros W Hok Hsz Hit Hfit k. pose proof (wf_sized _ W) as Hp. pose proof (wf_header _ W) as Hh.
  pose proof (MAXALIGN_bounds size ltac:(lia)) as [Hal Hal8]. pose proof (wf_upper_al _ W) as Hu8.
  destruct (put_item_writes p pl item size W Hok Hsz Hit Hfit) as (q & E & F & El & Eu & L & Ed & Hag).
  set (u := pd_upper p - MAXALIGN size) in *. set (n := (nlines p + place_grow pl)%nat) in *.
  assert (linp_at (Z.of_nat n) = pd_lower p + place_pointer pl) as En by (unfold n, place_pointer; page_lia).
  assert (u mod 8 = 0) as Hum by (unfold u; rewrite Zminus_mod, Hu8, Hal8; done).
  destruct (finish p q n u (place pl (ItemIdSetNormal u size) (lines p))) as (Wq & _ & Aq); try done.
  - rewrite En. unfold u. page_lia.
  - apply (layout_place (pd_upper p) (pd_special p) (lines p) pl (ItemIdSetNormal u size)); try (done || lia).
    + by apply wf_layout.
    + unfold lines. by rewrite length_lines.
    + unfold lp_end, alen. simpl. unfold u. lia.
    + simpl. unfold u. lia.
  - exists q. split_and!; [done..|]. rewrite Aq, En. unfold set_items. f_equal; [unfold u; simpl; lia|].
    rewrite fmap_place. f_equal.
    + unfold view, ItemIdHasStorage. simpl. destruct (Z.eqb_spec size 0); [lia|]. simpl. by rewrite Ed.
    + apply views_ext; [done|by eapply frame_sized|]. intros i a Ha Hs.
      pose proof (wf_view p i a W Ha Hs). split_and!; [page_lia..|]. intros j Hj. apply Hag. page_lia.
Qed.

Lemma view_unused p a : item_unused (view p a) = negb (ItemIdIsUsed a).
Proof. unfold view, item_unused, ItemIdIsUsed. rewrite negb_involutive. by destruct (ItemIdHasStorage a). Qed.

Lemma first_unused_cons it l :
  first_unused (it :: l) = if item_unused it then Some 0%nat else S <$> first_unused l.
Proof.
  unfold first_unused. simpl. destruct (item_unused it); [done|].
  destruct (list_find _ l) as [[i y]|]; done.
Qed.

Lemma wf_item p i : page_wf p → (i < nlines p)%nat →
  lines p !! i = Some (linp p (Z.of_nat i)) ∧ linp_at (Z.of_nat i + 1) ≤ BLCKSZ.
Proof.
  intros W Hi. pose proof (wf_header _ W). split; [|page_lia].
  by apply lookup_lines_Some.
Qed.

Lemma find_free_spec p n k : page_wf p → (k + n = nlines p)%nat →
  find_free n (Z.of_nat k + 1) p
  = (p, Ok (Z.of_nat (k + default n (first_unused (view p <$> drop k (lines p)))) + 1)).
Proof.
  intros W. revert k. induction n as [|n IH]; intros k Hk.
  { rewrite drop_ge by (unfold lines; rewrite length_lines; lia). simpl. by rewrite Nat.add_0_r. }
  destruct (wf_item p k W) as [Hl Hb]; [lia|].
  rewrite (drop_S _ _ _ Hl), fmap_cons, first_unused_cons, view_unused. cbn [find_free].
  rewrite (bind_ok _ _ _ _ _ (run_get_item p (Z.of_nat k) (wf_sized _ W) ltac:(lia) Hb)).
  destruct (ItemIdIsUsed (linp p (Z.of_nat k))) eqn:Eu; cbn [negb andb].
  - replace (Z.of_nat k + 1 + 1) with (Z.of_nat (S k) + 1) by lia. rewrite IH by lia.
    f_equal. f_equal. destruct (first_unused _); cbn -[Z.of_nat Nat.add Z.add]; lia.
  - rewrite (lay_unused _ _ _ (wf_layout _ W) _ _ Hl Eu).
    cbn [negb default]. by rewrite Nat.add_0_r.
Qed.

(** The index a search returns is that of an unused item. *)
Lemma first_unused_Some l i : first_unused l = Some i →
  ∃ it, l !! i = Some it ∧ item_unused it = true.
Proof.
  unfold first_unused. rewrite fmap_Some. intros ([j it] & H & ->).
  apply list_find_Some in H as (? & ? & _). eauto.
Qed.

Lemma abs_length p : length (ap_items (abs_page p)) = nlines p.
Proof. simpl. unfold lines. by rewrite length_fmap, length_lines. Qed.

(** A place the caller names. *)
Lemma select_named p offnum flags : page_wf p → OffsetNumberIsValid offnum = true → 0 ≤ offnum →
  ∃ sel, select_offset offnum (Z.of_nat (nlines p) + 1) flags p = (p, Ok sel)
  ∧ match spec_select (abs_page p) offnum flags with
    | Some pl => place_ok (nlines p) pl
        ∧ sel = Some (Z.of_nat (place_at (nlines p) pl) + 1, is_insert pl)
    | None => sel = None ∨ ∃ off, sel = Some (off, false) ∧ Z.of_nat (nlines p) + 1 < off
    end.
Proof.
  intros W Ev Hoff. set (n := Z.of_nat (nlines p)).
  unfold select_offset, spec_select. rewrite abs_length, Ev. fold n.
  assert (1 ≤ offnum) by (unfold OffsetNumberIsValid, InvalidOffsetNumber in Ev; lia).
  destruct (Z.ltb_spec (n + 1) offnum) as [Hgt|Hle].
  { exists (Some (offnum, false)). destruct (Z.ltb_spec offnum (n + 1)); [lia|].
    split; [by destruct (Z.land flags PAI_OVERWRITE =? 0)|]. right. by exists offnum. }
  destruct (Z.eqb_spec offnum (n + 1)) as [He|Hne].
  { exists (Some (offnum, false)). destruct (Z.ltb_spec offnum (n + 1)); [lia|].
    split; [by destruct (Z.land flags PAI_OVERWRITE =? 0)|]. simpl. by rewrite He. }
  destruct (Z.ltb_spec offnum (n + 1)); [|lia].
  set (i := Z.to_nat (offnum - 1)). assert (offnum = Z.of_nat i + 1) as Ei by lia.
  destruct (wf_item p i W) as [Hl Hb]; [lia|].
  destruct (Z.land flags PAI_OVERWRITE =? 0); cbn [negb].
  { exists (Some (offnum, true)). split_and!; try done; simpl; [lia|]. by rewrite <-Ei. }
  pose proof (run_get_item p (Z.of_nat i) (wf_sized _ W) ltac:(lia) Hb) as Hrun.
  rewrite <-Ei in Hrun. rewrite (bind_ok _ _ _ _ _ Hrun).
  simpl ap_items. rewrite list_lookup_fmap, Hl. simpl. rewrite view_unused.
  destruct (ItemIdIsUsed (linp p (Z.of_nat i))) eqn:Eu; simpl.
  - exists None. split; [done|]. by left.
  - rewrite (lay_unused _ _ _ (wf_layout _ W) _ _ Hl Eu). exists (Some (offnum, false)).
    split_and!; try done; simpl; [lia|]. by rewrite <-Ei.
Qed.

(** What selecting a place returns, and the hint it may clear. *)
Lemma select_offset_spec p offnum flags : page_wf p → 0 ≤ offnum →
  ∃ q sel, select_offset offnum (Z.of_nat (nlines p) + 1) flags p = (q, Ok sel)
  ∧ page_wf q ∧ lines q = lines p ∧ pd_lower q = pd_lower p ∧ pd_upper q = pd_upper p
  ∧ abs_page q = set_items (abs_page p) (spec_hint (abs_page p) offnum) (ap_free (abs_page p)) (ap_items (abs_page p))
  ∧ match spec_select (abs_page p) offnum flags with
    | Some pl => place_ok (nlines p) pl
        ∧ sel = Some (Z.of_nat (place_at (nlines p) pl) + 1, is_insert pl)
    | None => sel = None ∨ ∃ off, sel = Some (off, false) ∧ Z.of_nat (nlines p) + 1 < off
    end.
Proof.
  intros W Hoff. set (a := abs_page p).
  assert (set_items a (ap_hint a) (ap_free a) (ap_items a) = a) as Hid by done.
  destruct (OffsetNumberIsValid offnum) eqn:Ev.
  { destruct (select_named p offnum flags W Ev Hoff) as (sel & E & Hsel). exists p, sel. unfold spec_hint.
    rewrite Ev. cbn [orb]. by rewrite andb_true_r, Hid. }
  unfold select_offset, spec_select, spec_hint. rewrite Ev, bind_get. cbn [orb].
  change (PageHasFreeLinePointers p) with (ap_hint a). fold a. destruct (ap_hint a) eqn:Eh; cbn [andb].
  2: { eexists p, _. split_and!; first [done|by rewrite Hid]. }
  replace (Z.to_nat (Z.of_nat (nlines p) + 1 - FirstOffsetNumber)) with (nlines p) by (unfold FirstOffsetNumber; lia).
  change FirstOffsetNumber with (Z.of_nat 0 + 1).
  rewrite (bind_ok _ _ _ _ _ (find_free_spec p (nlines p) 0 W eq_refl)), drop_0, Nat.add_0_l.
  change (view p <$> lines p) with (ap_items a).
  destruct (first_unused (ap_items a)) as [i|] eqn:Ef; cbn [default id].
  - apply first_unused_Some in Ef as (it & Hit & _). apply lookup_lt_Some in Hit.
    unfold a in Hit. rewrite abs_length in Hit.
    destruct (Z.leb_spec (Z.of_nat (nlines p) + 1) (Z.of_nat i + 1)); [lia|].
    eexists p, _. split_and!; first [done|by rewrite Hid].
  - destruct (Z.leb_spec (Z.of_nat (nlines p) + 1) (Z.of_nat (nlines p) + 1)); [|lia].
    destruct (set_free_hint_spec false p W) as (q & E & Wq & L & ? & ? & ? & A).
    eexists q, _. split_and!; [by rewrite (bind_ok _ _ _ _ _ E)|done..].
Qed.

Lemma wf_not_corrupt p : page_wf p → pointers_corrupt p = false ∧ header_corrupt p = false.
Proof.
  intros W. pose proof (wf_header _ W). pose proof (wf_special_al _ W).
  assert (pointers_corrupt p = false) as E by (unfold pointers_corrupt; page_lia).
  split; [done|]. unfold header_corrupt. rewrite E, MAXALIGN_fixed, Z.eqb_refl by (done || page_lia). done.
Qed.

Lemma wf_max p : page_wf p → PageGetMaxOffsetNumber p = Z.of_nat (nlines p).
Proof.
  intros W. unfold nlines. rewrite Z2Nat.id; [done|]. unfold PageGetMaxOffsetNumber.
  case_match; [done|]. apply Z.div_pos; lia.
Qed.

Lemma add_item_run p item size offnum flags :
  page_wf p → 0 < size ≤ 2 ^ 31 - 8 → size ≤ Z.of_nat (length item) → 0 ≤ offnum →
  ∃ q, PageAddItemExtended item size offnum flags p
         = (q, Ok (spec_add (abs_page p) (take (Z.to_nat size) item) offnum flags).2)
  ∧ page_wf q
  ∧ abs_page q = (spec_add (abs_page p) (take (Z.to_nat size) item) offnum flags).1.
Proof.
  intros W Hsz Hit Hoff. unfold PageAddItemExtended. unfold mbind at 1, M_bind at 1, get.
  rewrite (proj1 (wf_not_corrupt p W)), (wf_max p W).
  destruct (select_offset_spec p offnum flags W Hoff) as (q & sel & E & Wq & L & El & Eu & A & Hsel).
  rewrite (bind_ok _ _ _ _ _ E). unfold spec_add.
  pose proof (MAXALIGN_bounds size ltac:(lia)) as [Hal _]. pose proof (wf_header _ W) as Hh.
  assert (nlines q = nlines p) as En by (unfold nlines, PageGetMaxOffsetNumber; by rewrite El).
  destruct (spec_select (abs_page p) offnum flags) as [pl|] eqn:Es.
  2: { destruct Hsel as [->|(off & -> & Hlt)]; [by exists q|].
       destruct (Z.ltb_spec (Z.of_nat (nlines p) + 1) off); [by exists q|lia]. }
  destruct Hsel as [Hok ->]. set (k := place_at (nlines p) pl).
  assert (place_index (abs_page p) pl = k) as -> by (unfold k; destruct pl; [apply abs_length|done..]).
  assert (k ≤ nlines p)%nat by (unfold k; destruct pl; simpl in *; lia).
  destruct (Z.ltb_spec (Z.of_nat (nlines p) + 1) (Z.of_nat k + 1)); [lia|].
  destruct (negb (Z.land flags PAI_IS_HEAP =? 0) && _); [by exists q|].
  rewrite (i32_small (MAXALIGN size)), i32_small by page_lia.
  replace (Z.of_nat (length (take (Z.to_nat size) item))) with size by (rewrite length_take; lia).
  assert ((if (Z.of_nat k + 1 =? Z.of_nat (nlines p) + 1) || is_insert pl then pd_lower p + 4 else pd_lower p)
    = pd_lower p + place_pointer pl) as ->.
  { unfold k. destruct pl as [|i|i]; simpl in *; rewrite ?Z.eqb_refl, ?orb_true_r; [done..|].
    destruct (Z.eqb_spec (Z.of_nat i + 1) (Z.of_nat (nlines p) + 1)); [lia|]. unfold place_pointer. simpl. lia. }
  change (ap_free (abs_page p)) with (pd_upper p - pd_lower p).
  destruct (Z.ltb_spec (pd_upper p - MAXALIGN size) (pd_lower p + place_pointer pl)),
    (Z.ltb_spec (pd_upper p - pd_lower p) (MAXALIGN size + place_pointer pl)); try lia; [by exists q|].
  destruct (put_item_spec q pl item size) as (r & Er & Wr & Ar); [done|by rewrite En|lia|done|rewrite El, Eu; lia|].
  rewrite En, El, Eu in Er. exists r. split_and!; [done..|]. rewrite Ar, A. done.
Qed.

(** C17.  [PageAddItemExtended] refines the placing of an item in a list: on
    every well-formed page it returns normally and leaves a well-formed page.
    If it returns an offset number, the new bytes are at that place of the list,
    appended, inserted before the later items or in an unused slot as the caller
    asked, the free space is smaller by exactly the aligned size and the line
    pointer if one was added, and every other item, the header and the special
    space are untouched.  It refuses exactly when the place is taken or too
    large, beyond the limit of a heap page, or when the item does not fit, and
    then only a hint that a search found wrong is cleared. *)
Theorem add_item_refines p item size offnum flags :
  page_wf p → 0 < size ≤ 2 ^ 31 - 8 → size ≤ Z.of_nat (length item) → 0 ≤ offnum →
  ∃ q, PageAddItemExtended item size offnum flags p
         = (q, Ok (spec_add (abs_page p) (take (Z.to_nat size) item) offnum flags).2)
  ∧ page_wf q
  ∧ abs_page q = (spec_add (abs_page p) (take (Z.to_nat size) item) offnum flags).1.
Proof. apply add_item_run. Qed.

(** ** Initialisation *)

Definition spec_init (specialSize : Z) : apage :=
  let s := MAXALIGN specialSize in
  mkApage (replicate 10 0 ++ le_encode 2 (BLCKSZ - s) ++ le_encode 2 (Z.lor BLCKSZ PG_PAGE_LAYOUT_VERSION)
           ++ replicate 4 0)
    0 false (BLCKSZ - s - SizeOfPageHeaderData) [] (replicate (Z.to_nat s) 0).

Lemma blit_app {A} (a b c l : list A) o : o = Z.of_nat (length a) → length b = length l →
  blit o l (a ++ b ++ c) = a ++ l ++ c.
Proof.
  intros -> Hl. unfold blit. rewrite Nat2Z.id, take_app_length. do 2 f_equal.
  rewrite (app_assoc a b c). apply drop_app_length'. rewrite length_app. lia.
Qed.

Lemma slice_app {A} (a b c : list A) o n : o = Z.of_nat (length a) → n = Z.of_nat (length b) →
  slice o n (a ++ b ++ c) = b.
Proof. intros -> ->. unfold slice. by rewrite !Nat2Z.id, drop_app_length, take_app_length. Qed.

(** The page [PageInit] makes. *)
Definition init_page (s : Z) : Page :=
  replicate 10 0 ++ le_encode 2 0 ++ le_encode 2 SizeOfPageHeaderData ++ le_encode 2 (BLCKSZ - s)
  ++ le_encode 2 (BLCKSZ - s) ++ le_encode 2 (Z.lor BLCKSZ PG_PAGE_LAYOUT_VERSION)
  ++ replicate (Z.to_nat BLCKSZ - 20) 0.

Lemma run_init p ss : sized p → PageInit BLCKSZ ss p = (init_page (MAXALIGN ss), Ok tt).
Proof.
  intros Hp. unfold PageInit.
  assert (store 0 (replicate (Z.to_nat BLCKSZ) 0) p = (replicate (Z.to_nat BLCKSZ) 0, Ok tt)) as E.
  { rewrite run_store; [|done|rewrite length_replicate; page_lia]. unfold blit, sized in *. cbn [Z.to_nat take app Nat.add].
    rewrite length_replicate, drop_ge, app_nil_r by lia. done. }
  rewrite (bind_ok _ _ _ _ _ E).
  replace (Z.to_nat BLCKSZ) with (10 + (2 + (2 + (2 + (2 + (2 + (Z.to_nat BLCKSZ - 20)))))))%nat by page_lia.
  rewrite !replicate_add. unfold mbind, M_bind, set_pd_flags, set_pd_lower, set_pd_upper, set_pd_special,
    set_pd_pagesize_version, modify, put16.
  unfold init_page. reflexivity.
Qed.

Lemma init_page_spec ss : 0 ≤ ss → MAXALIGN ss + SizeOfPageHeaderData ≤ BLCKSZ → ss < BLCKSZ →
  page_wf (init_page (MAXALIGN ss)) ∧ abs_page (init_page (MAXALIGN ss)) = spec_init ss.
Proof.
  intros Hss Hb Hlt. pose proof (MAXALIGN_bounds ss ltac:(page_lia)) as [Hs Hs8]. set (s := MAXALIGN ss) in *.
  set (p := init_page s).
  assert (sized p) as Hp.
  { unfold sized, p, init_page. rewrite !length_app, !length_replicate, !length_le_encode. page_lia. }
  assert (∀ v, 0 ≤ v < 2 ^ 16 → le_decode (le_encode 2 v) = v) as Hdec.
  { intros v Hv. rewrite le_decode_encode. by apply Z.mod_small. }
  assert (pd_flags p = 0) as Ef by done. assert (pd_lower p = SizeOfPageHeaderData) as El by done.
  assert (pd_upper p = BLCKSZ - s) as Eu by (rewrite <-(Hdec (BLCKSZ - s)) by page_lia; done).
  assert (pd_special p = BLCKSZ - s) as Es by (rewrite <-(Hdec (BLCKSZ - s)) by page_lia; done).
  assert (lines p = []) as EL by done. assert ((BLCKSZ - s) mod 8 = 0) as Hm8 by (rewrite Zminus_mod, Hs8; done).
  assert (slice 0 10 p ++ slice 16 8 p = ap_meta (spec_init ss)) as Emeta by done.
  assert (slice (BLCKSZ - s) s p = replicate (Z.to_nat s) 0) as Esp.
  { unfold slice, p, init_page. rewrite !drop_app_ge by (rewrite ?length_replicate, ?length_le_encode; page_lia).
    rewrite !length_replicate, !length_le_encode, drop_replicate, take_replicate. f_equal. page_lia. }
  assert (nlines p = 0%nat) as En by done. assert (PageHasFreeLinePointers p = false) as Eh by done.
  clearbody p. split.
  - split; rewrite ?Ef, ?El, ?Eu, ?Es, ?EL, ?En; try done; page_lia.
  - unfold abs_page. rewrite Emeta, Eh, Ef, El, Eu, Es, EL.
    replace (BLCKSZ - (BLCKSZ - s)) with s by lia. by rewrite Esp.
Qed.

(** ** Pages for the examples *)

Lemma init_wf : page_wf (init_page 0) ∧ abs_page (init_page 0) = spec_init 0.
Proof. apply (init_page_spec 0); done. Qed.

(** The page after adding some items, at the places the search finds. *)
Definition add_all (ds : list (list Z)) (p : Page) : Page :=
  foldl (λ p d, (PageAddItemExtended d (Z.of_nat (length d)) InvalidOffsetNumber PAI_IS_HEAP p).1) p ds.

Definition spec_add_all (ds : list (list Z)) (a : apage) : apage :=
  foldl (λ a d, (spec_add a d InvalidOffsetNumber PAI_IS_HEAP).1) a ds.

Lemma add_all_spec ds p : page_wf p → Forall (λ d, 0 < Z.of_nat (length d) ≤ 2 ^ 31 - 8) ds →
  page_wf (add_all ds p) ∧ abs_page (add_all ds p) = spec_add_all ds (abs_page p).
Proof.
  intros W Hds. revert p W. induction Hds as [|d ds Hd _ IH]; intros p W; [done|].
  destruct (add_item_run p d (Z.of_nat (length d)) InvalidOffsetNumber PAI_IS_HEAP) as (q & E & Wq & Aq); [done..|].
  rewrite Nat2Z.id, take_ge in Aq by lia. cbn. rewrite E. cbn [fst]. rewrite <-Aq. by apply IH.
Qed.

(** Two items on a page; a third goes before the second. *)
Definition two_items : Page := add_all [[1; 2; 3]; [4; 5; 6; 7; 8; 9; 10; 11; 12]] (init_page 0).

Lemma two_items_spec : page_wf two_items
  ∧ abs_page two_items = spec_add_all [[1; 2; 3]; [4; 5; 6; 7; 8; 9; 10; 11; 12]] (spec_init 0).
Proof.
  destruct init_wf as [W A]. rewrite <-A. apply add_all_spec; [done|]. by repeat constructor.
Qed.

Lemma add_item_refines_witness :
  ∃ q, PageAddItemExtended [7; 7; 0] 2 2 0 two_items = (q, Ok 2) ∧ page_wf q
  ∧ ap_items (abs_page q)
    = [mkItem 1 0 [1; 2; 3]; mkItem 1 0 [7; 7]; mkItem 1 0 [4; 5; 6; 7; 8; 9; 10; 11; 12]]
  ∧ ap_free (abs_page q) = 8192 - 24 - 3 * 4 - 8 - 16 - 8.
Proof.
  destruct two_items_spec as [W A]. revert W A. generalize two_items as p. intros p W A.
  destruct (add_item_refines p [7; 7; 0] 2 2 0 W) as (q & E & Wq & Aq); [lia|simpl; lia|lia|].
  rewrite A in E, Aq. exists q. split; [rewrite E; vm_compute; reflexivity|].
  split; [exact Wq|]. rewrite Aq. split; vm_compute; reflexivity.
Defined.
