(* ===== verification/PageIndex.v ===== *)
(** * Index tuples on a page

    The routines that delete or replace one index tuple: [PageIndexTupleDelete],
    [PageIndexTupleDeleteNoCompact] and [PageIndexTupleOverwrite].  They move the
    data below the tuple as one block and add the distance to the line pointers
    of what moved.  The
    lemmas on [shift_lp] say why that keeps a layout and what every item holds;
    they are stated once, for a block that moves by [d] next to a gap from [g] to
    [e]. *)

From S2P Require Import Prelude PageMem BufPage PageInv.
From stdpp Require Import base tactics list numbers strings.
From Stdlib Require Import ZArith Lia.

Open Scope Z_scope.

(** What [shift_item] does to one line pointer. *)
Definition shift_lp (storage_only : bool) (g d : Z) (a : ItemIdData) : ItemIdData :=
  if (negb storage_only || ItemIdHasStorage a) && (lp_off a <=? g)
  then with_off (lp_off a + d) a else a.

(** No item has data between [g] and [e]. *)
Definition clear_of (g e : Z) (L : list ItemIdData) : Prop :=
  ∀ i a, L !! i = Some a → ItemIdHasStorage a = true → lp_end a ≤ g ∨ e ≤ lp_off a.

Definition all_storage (L : list ItemIdData) : Prop :=
  ∀ i a, L !! i = Some a → ItemIdHasStorage a = true.

Definition all_fit (L : list ItemIdData) : Prop := ∀ i a, L !! i = Some a → item_fits a.

(** ** Shifting line pointers *)

Lemma alen_pos a : item_fits a → ItemIdHasStorage a = true → 0 < alen a.
Proof. intros Hf Hs. apply item_fits_bounds in Hf. unfold ItemIdHasStorage in Hs. lia. Qed.

Lemma shift_lp_storage so g d a : ItemIdHasStorage (shift_lp so g d a) = ItemIdHasStorage a.
Proof. unfold shift_lp. by case_match. Qed.

Lemma shift_lp_used so g d a : ItemIdIsUsed (shift_lp so g d a) = ItemIdIsUsed a.
Proof. unfold shift_lp. by case_match. Qed.

(** A stored item is either below the gap and moves, or above it and stays. *)
Lemma shift_lp_cases so g e d a : g < e → item_fits a → ItemIdHasStorage a = true →
  lp_end a ≤ g ∨ e ≤ lp_off a →
  (lp_end a ≤ g ∧ shift_lp so g d a = with_off (lp_off a + d) a) ∨ (e ≤ lp_off a ∧ shift_lp so g d a = a).
Proof.
  intros Hge Hf Hs Hc. pose proof (alen_pos a Hf Hs). unfold shift_lp, lp_end in *. rewrite Hs, orb_true_r.
  cbn [andb]. destruct (Z.leb_spec (lp_off a) g); [left|right]; split; done || lia.
Qed.

Lemma shift_layout so u s L g e d : layout u s L → all_fit L → clear_of g e L →
  g < e ≤ s → u ≤ g → d ≤ e - g → d mod 8 = 0 → layout (u + d) s (shift_lp so g d <$> L).
Proof.
  intros [Hpl Hap Hun] Hfit Hc He Hu Hd Hd8.
  assert (∀ i b, (shift_lp so g d <$> L) !! i = Some b → ItemIdHasStorage b = true →
    ∃ a, L !! i = Some a ∧ ItemIdHasStorage a = true ∧ lp_flags b = lp_flags a ∧ alen b = alen a
      ∧ ((lp_end a ≤ g ∧ lp_off b = lp_off a + d) ∨ (e ≤ lp_off a ∧ lp_off b = lp_off a))) as Hb.
  { intros i b Hib Hs. apply list_lookup_fmap_Some in Hib as (a & -> & Ha).
    rewrite shift_lp_storage in Hs. exists a.
    destruct (shift_lp_cases so g e d a ltac:(lia) (Hfit i a Ha) Hs (Hc i a Ha Hs)) as [[? ->]|[? ->]]; eauto 10. }
  split.
  - intros i b Hib Hs. destruct (Hb i b Hib Hs) as (a & Ha & Hsa & _ & Hal & Hcase).
    destruct (Hpl i a Ha Hsa) as [? ? Ha8]. unfold lp_end in *.
    destruct Hcase as [[? Eo]|[? Eo]]; split; unfold lp_end; rewrite ?Eo, ?Hal; try lia.
    rewrite Z.add_mod, Ha8, Hd8 by done. done.
  - intros i j b b' Hi Hj Hij Hs Hs'. destruct (Hb i b Hi Hs) as (a & Ha & Hsa & _ & Hal & Hcase).
    destruct (Hb j b' Hj Hs') as (a' & Ha' & Hsa' & _ & Hal' & Hcase').
    pose proof (Hap i j a a' Ha Ha' Hij Hsa Hsa'). unfold apart, lp_end in *.
    pose proof (alen_pos a (Hfit i a Ha) Hsa). pose proof (alen_pos a' (Hfit j a' Ha') Hsa'). lia.
  - intros i b Hib Hn. apply list_lookup_fmap_Some in Hib as (a & -> & Ha).
    rewrite shift_lp_used in Hn. rewrite shift_lp_storage. by apply (Hun i).
Qed.

(** ** Views of the shifted items *)

(** The block from [u] to [g] is [d] further on in [q], and from [e] on nothing
    changed. *)
Record moved (p q : Page) (u g e d s : Z) : Prop := {
  mv_block : ∀ i, u ≤ i < g → peek q (i + d) = peek p i;
  mv_rest : ∀ i, e ≤ i < s → peek q i = peek p i
}.

Lemma shift_views so p q u s L g e d : sized p → sized q → layout u s L → all_fit L → clear_of g e L →
  so = true ∨ all_storage L → g < e ≤ s → s ≤ BLCKSZ → 0 ≤ u → 0 ≤ u + d → d ≤ e - g → moved p q u g e d s →
  view q <$> (shift_lp so g d <$> L) = view p <$> L.
Proof.
  intros Hp Hq HL Hfit Hc Hso Hge Hs Hu Hud Hde [Hb Hr]. rewrite <-list_fmap_compose.
  apply list_fmap_ext. intros i a Ha. simpl.
  destruct (ItemIdHasStorage a) eqn:Est.
  2: { destruct Hso as [->|Hall]; [|by rewrite (Hall i a Ha) in Est].
       unfold shift_lp. rewrite Est. cbn. unfold view. by rewrite Est. }
  destruct (lay_placed _ _ _ HL i a Ha Est) as [Hlo Hhi _].
  pose proof (item_fits_bounds a (Hfit i a Ha)).
  unfold view. rewrite shift_lp_storage, Est. unfold lp_end, sized in *.
  destruct (shift_lp_cases so g e d a ltac:(lia) (Hfit i a Ha) Est (Hc i a Ha Est)) as [[? ->]|[? ->]]; simpl; f_equal;
    apply slice_ext; try (page_lia); intros k Hk; unfold lp_end in *.
  - replace (lp_off a + d + k) with (lp_off a + k + d) by lia. apply Hb. lia.
  - apply Hr. lia.
Qed.

(** The loop over the line pointers. *)
Lemma shift_items_spec so p n g d : sized p → linp_at (Z.of_nat n) ≤ BLCKSZ →
  (∀ i a, lines_n p n !! i = Some a → (negb so || ItemIdHasStorage a) = true → lp_off a ≤ g →
     0 ≤ lp_off a + d < 2 ^ 15) →
  ∃ q, shift_items so g d (Z.of_nat n) p = (q, Ok tt)
    ∧ same_except SizeOfPageHeaderData (linp_at (Z.of_nat n)) p q
    ∧ lines_n q n = shift_lp so g d <$> lines_n p n.
Proof.
  intros Hp Hn Hfit. apply line_loop; [done|done|]. intros i q Hq Hi Hl.
  assert (linp_at (Z.of_nat i + 1) ≤ BLCKSZ) by page_lia.
  unfold shift_item, shift_lp. rewrite (bind_ok _ _ _ _ _ (run_get_item q (Z.of_nat i) Hq ltac:(lia) H)), Hl.
  set (a := linp p (Z.of_nat i)) in *.
  assert (lines_n p n !! i = Some a) as Ha by (by apply lookup_lines_Some).
  destruct ((negb so || ItemIdHasStorage a) && (lp_off a <=? g)) eqn:Ec.
  - apply andb_true_iff in Ec as [E1 E2]. apply Z.leb_le in E2. specialize (Hfit i a Ha E1 E2).
    eexists. split_and!; [by apply run_set_item; [|lia|]|by apply put_linp_same_except; [|lia|]|].
    apply put_linp_same; [done|lia|done|]. destruct (linp_fits p (Z.of_nat i)) as (_ & ? & ?). done.
  - exists q. split_and!; [done|apply same_except_refl|done].
Qed.

(** ** Moving the block *)

Lemma relocate_spec q u g d : sized q → pd_upper q = u → 24 ≤ u → 24 ≤ u + d < 2 ^ 16 → u ≤ g → g ≤ BLCKSZ →
  g + d ≤ BLCKSZ →
  ∃ r, (memmove (u + d) u (g - u) ;; set_pd_upper (u + d)) q = (r, Ok tt)
  ∧ sized r ∧ pd_upper r = u + d ∧ (∀ i, u ≤ i < g → peek r (i + d) = peek q i)
  ∧ (∀ i, 0 ≤ i → ¬ 14 ≤ i < 16 → ¬ u + d ≤ i < g + d → peek r i = peek q i).
Proof.
  intros Hq Eu ? ? ? ? ?. destruct (memmove_spec q (u + d) u (g - u)) as (q1 & E1 & S1 & Hmv); [done|lia..|].
  assert (sized q1) as Hq1 by (by eapply same_except_sized).
  destruct (put_upper_spec q1 (u + d)) as (_ & E2 & S2); [done|lia|].
  exists (put16 14 (u + d) q1). split_and!; [by rewrite (bind_ok _ _ _ _ _ E1)|by eapply same_except_sized|done|..].
  - intros i Hi. rewrite (proj2 S2) by lia. specialize (Hmv (i - u)).
    replace (i + d) with (u + d + (i - u)) by lia. rewrite Hmv by lia. f_equal. lia.
  - intros i ? ? ?. rewrite (proj2 S2), (proj2 S1) by lia. done.
Qed.

Lemma close_gap_spec q u g d : sized q → pd_upper q = u → 24 ≤ u → 0 ≤ d < 2 ^ 15 → u ≤ g → 
  g + d ≤ BLCKSZ →
  ∃ r, close_gap g d q = (r, Ok tt)
  ∧ sized r ∧ pd_upper r = u + d ∧ (∀ i, u ≤ i < g → peek r (i + d) = peek q i)
  ∧ (∀ i, 0 ≤ i → ¬ 14 ≤ i < 16 → ¬ u + d ≤ i < g + d → peek r i = peek q i).
Proof.
  intros Hq Eu ? ? ? ?. unfold close_gap, mbind, M_bind, get. rewrite Eu.
  destruct (Z.ltb_spec u g); [apply (relocate_spec q u g d); done || page_lia|].
  destruct (put_upper_spec q (u + d)) as (_ & E2 & S2); [done|page_lia|].
  exists (put16 14 (u + d) q). split_and!; [done|by eapply same_except_sized|done|lia|].
  intros i ? ? ?. by apply S2.
Qed.

(** The line pointers after the block has moved and the loop has run. *)
Lemma shift_finish so p q n L u g e d : page_wf p → frame p q → u = pd_upper p →
  pd_lower q = linp_at (Z.of_nat n) → pd_upper q = u + d → linp_at (Z.of_nat n) ≤ u + d →
  lines_n q n = L → layout u (pd_special p) L → clear_of g e L → so = true ∨ all_storage L →
  u ≤ g → g < e ≤ pd_special p → d ≤ e - g → d mod 8 = 0 → moved p q u g e d (pd_special p) →
  ∃ r, shift_items so g d (Z.of_nat n) q = (r, Ok tt) ∧ page_wf r
  ∧ abs_page r = set_items (abs_page p) (ap_hint (abs_page p)) (u + d - linp_at (Z.of_nat n)) (view p <$> L).
Proof.
  intros W F Hu Hl Hup Hfit HL Hlay Hc Hso Hug Hge Hd Hd8 Hmv.
  pose proof (wf_sized _ W) as Hp. pose proof (wf_header _ W) as Hh. pose proof (frame_sized _ _ F Hp) as Hq.
  pose proof (linp_at_ge (Z.of_nat n) ltac:(lia)) as Hn0.
  assert (all_fit L) as Hfits.
  { intros i a. rewrite <-HL. rewrite lookup_lines_Some. intros [_ ->]. apply linp_fits. }
  destruct (shift_items_spec so q n g d) as (r & E & Sr & Lr); [done|lia| |].
  { rewrite HL. intros i a Ha Hs Hle.
    assert (ItemIdHasStorage a = true) as Hst.
    { destruct Hso as [->|Hall]; [done|]. by apply (Hall i). }
    destruct (lay_placed _ _ _ Hlay i a Ha Hst). page_lia. }
  rewrite HL in Lr.
  assert (frame q r) as Fr.
  { eapply same_except_frame; [done|]. right. rewrite (frame_special p q F Hp). page_lia. }
  destruct (same_except_bounds _ _ _ _ Sr Hq) as [El Eu]; [done|].
  destruct (finish p r n (u + d) (shift_lp so g d <$> L)) as (Wr & _ & Ar); try done.
  - by eapply frame_trans.
  - by rewrite El.
  - by rewrite Eu.
  - lia.
  - rewrite Z.add_mod, Hd8, Hu, (wf_upper_al _ W) by done. done.
  - by eapply shift_layout.
  - exists r. split_and!; [done..|]. rewrite Ar. f_equal.
    apply (shift_views so p r u (pd_special p) L g e d); try done; try page_lia; [by apply wf_sized|].
    destruct Hmv as [Hb Hr]. split; intros i Hi.
    + rewrite (proj2 Sr) by page_lia. by apply Hb.
    + rewrite (proj2 Sr) by page_lia. by apply Hr.
Qed.

(** ** Deleting a tuple *)

Definition stored (a : apage) : Prop := Forall (λ it, it_data it ≠ []) (ap_items a).

Lemma stored_lines p : page_wf p → stored (abs_page p) → all_storage (lines p).
Proof.
  intros W H i a Ha.
  assert (ap_items (abs_page p) !! i = Some (view p a)) as Hv by (simpl; by rewrite list_lookup_fmap, Ha).
  pose proof (Forall_lookup_1 _ _ _ _ H Hv) as Hd. simpl in Hd. unfold view in Hd.
  by destruct (ItemIdHasStorage a).
Qed.

Lemma view_data_length p i a : page_wf p → lines p !! i = Some a → ItemIdHasStorage a = true →
  Z.of_nat (length (it_data (view p a))) = lp_len a.
Proof.
  intros W Ha Hs. pose proof (wf_view p i a W Ha Hs). pose proof (wf_header p W).
  pose proof (wf_sized p W) as Hp. unfold sized in Hp.
  unfold view. rewrite Hs. simpl. rewrite length_slice; page_lia.
Qed.

Lemma view_space p i a : page_wf p → lines p !! i = Some a → ItemIdHasStorage a = true →
  item_space (view p a) = alen a.
Proof. intros W Ha Hs. unfold item_space. by rewrite (view_data_length p i a). Qed.

Lemma layout_embed u s L L' f : layout u s L →
  (∀ i a, L' !! i = Some a → L !! f i = Some a ∨ ItemIdHasStorage a = false) →
  (∀ i j, f i = f j → i = j) → layout u s L'.
Proof.
  intros [Hpl Hap Hun] HL Hf. split.
  - intros i a Ha Hs. destruct (HL i a Ha) as [Ha'|]; [by apply (Hpl (f i))|congruence].
  - intros i j a b Ha Hb Hij Hsa Hsb.
    destruct (HL i a Ha) as [Ha'|]; [|congruence]. destruct (HL j b Hb) as [Hb'|]; [|congruence].
    apply (Hap (f i) (f j)); auto.
  - intros i a Ha Hn. destruct (HL i a Ha) as [Ha'|]; [|done]. by apply (Hun (f i)).
Qed.

Section delete.
Context (p : Page) (k : nat) (a : ItemIdData).
Context (W : page_wf p) (Hk : lines p !! k = Some a) (Hs : ItemIdHasStorage a = true).

Lemma delete_facts : (k < nlines p)%nat ∧ a = linp p (Z.of_nat k) ∧ linp_at (Z.of_nat k + 1) ≤ pd_lower p
  ∧ pd_upper p ≤ lp_off a ∧ lp_off a < lp_end a ≤ pd_special p ∧ lp_len a ≤ alen a
  ∧ lp_off a mod 8 = 0 ∧ alen a mod 8 = 0 ∧ 24 ≤ pd_lower p ≤ pd_upper p ∧ pd_special p ≤ BLCKSZ.
Proof.
  pose proof (wf_header _ W). destruct (lay_placed _ _ _ (wf_layout _ W) k a Hk Hs) as [? ? ?].
  apply lookup_lines_Some in Hk as [Hlt ->]. pose proof (linp_fits p (Z.of_nat k)) as Hf.
  pose proof (alen_pos _ Hf Hs). pose proof (item_fits_bounds _ Hf).
  assert (alen (linp p (Z.of_nat k)) mod 8 = 0) by (apply MAXALIGN_bounds; destruct Hf; lia).
  unfold lp_end in *. split_and!; try done; page_lia.
Qed.

Lemma item_not_corrupt : item_corrupt p (lp_off a) (lp_len a) = false.
Proof.
  destruct delete_facts as (_ & _ & _ & ? & ? & ? & ? & _ & ? & ?).
  unfold item_corrupt, lp_end in *. rewrite MAXALIGN_fixed by (done || page_lia).
  destruct (Z.ltb_spec (lp_off a) (pd_upper p)); [lia|].
  destruct (Z.ltb_spec (pd_special p) (lp_off a + lp_len a)); [lia|]. by rewrite Z.eqb_refl.
Qed.

Lemma index_item_ok : index_item (Z.of_nat k + 1) p = (p, Ok a).
Proof.
  destruct delete_facts as (Hlt & Ea & Hb & ? & ? & ? & ? & ? & ? & ?). unfold index_item.
  unfold mbind at 1, M_bind at 1, get. rewrite (proj2 (wf_not_corrupt p W)), (wf_max p W).
  destruct (Z.leb_spec (Z.of_nat k + 1) 0); [lia|].
  destruct (Z.ltb_spec (Z.of_nat (nlines p)) (Z.of_nat k + 1)); [lia|]. cbn [orb].
  rewrite (bind_ok _ _ _ _ _ (run_get_item p (Z.of_nat k) (wf_sized _ W) ltac:(lia) ltac:(lia))), <-Ea.
  by rewrite item_not_corrupt.
Qed.

Lemma layout_delete : layout (pd_upper p) (pd_special p) (delete k (lines p)).
Proof.
  apply (layout_embed _ _ (lines p) _ (λ i, if decide (i < k)%nat then i else S i)); [by apply wf_layout| |].
  - intros i b. rewrite list_lookup_delete. case_decide; auto.
  - intros i j. repeat case_decide; lia.
Qed.

Lemma layout_clear x : ItemIdHasStorage x = false →
  layout (pd_upper p) (pd_special p) (<[k := x]> (lines p)).
Proof.
  intros Hx. apply (layout_embed _ _ (lines p) _ id); [by apply wf_layout| |done].
  intros i b Hb. apply list_lookup_insert_Some in Hb as [(_ & <- & _)|[_ ?]]; auto.
Qed.

(** The data of the others is clear of the tuple's. *)
Lemma others_clear i b : i ≠ k → lines p !! i = Some b → ItemIdHasStorage b = true →
  lp_end b ≤ lp_off a ∨ lp_end a ≤ lp_off b.
Proof. intros Hne Hb Hsb. apply (lay_apart _ _ _ (wf_layout _ W) i k b a); done. Qed.

Lemma delete_clear : clear_of (lp_off a) (lp_end a) (delete k (lines p)).
Proof.
  intros i b. rewrite list_lookup_delete. case_decide; intros Hb Hsb; eapply others_clear; [|done|done| |done|done]; lia.
Qed.

Lemma insert_clear x : ItemIdHasStorage x = false → clear_of (lp_off a) (lp_end a) (<[k := x]> (lines p)).
Proof.
  intros Hx i b Hb Hsb. apply list_lookup_insert_Some in Hb as [(_ & <- & _)|[? Hb]]; [congruence|].
  by eapply others_clear.
Qed.

End delete.

(** The line pointers behind the deleted one move back by one. *)
Lemma delete_line p n k : sized p → linp_at (Z.of_nat n) ≤ BLCKSZ → (k < n)%nat →
  let nbytes := linp_at (Z.of_nat n) - linp_at (Z.of_nat k + 1) in
  ∃ q, (if 0 <? nbytes then memmove (linp_at (Z.of_nat k)) (linp_at (Z.of_nat k + 1)) nbytes else mret tt) p
       = (q, Ok tt)
  ∧ same_except SizeOfPageHeaderData (linp_at (Z.of_nat n)) p q
  ∧ lines_n q (n - 1) = delete k (lines_n p n).
Proof.
  intros Hp Hn Hk nbytes.
  assert (∃ q, (if 0 <? nbytes then memmove (linp_at (Z.of_nat k)) (linp_at (Z.of_nat k + 1)) nbytes else mret tt) p
       = (q, Ok tt) ∧ same_except (linp_at (Z.of_nat k)) (linp_at (Z.of_nat n)) p q
     ∧ ∀ i, 0 ≤ i < nbytes → peek q (linp_at (Z.of_nat k) + i) = peek p (linp_at (Z.of_nat k + 1) + i))
    as (q & E & Sq & Hq).
  { destruct (Z.ltb_spec 0 nbytes).
    - destruct (memmove_spec p (linp_at (Z.of_nat k)) (linp_at (Z.of_nat k + 1)) nbytes) as (q & E & Sq & Hq);
        [done|unfold nbytes in *; page_lia..|].
      exists q. split_and!; [done|eapply same_except_weaken; [| |done]; unfold nbytes; page_lia|done].
    - exists p. split_and!; [done|apply same_except_refl|lia]. }
  exists q. split_and!; [done|eapply same_except_weaken; [| |done]; page_lia|].
  apply lines_ext; [rewrite length_delete, length_lines by (apply lookup_lt_is_Some; by rewrite length_lines); lia|].
  intros i Hi. rewrite list_lookup_delete. destruct (decide (i < k)%nat); rewrite lookup_lines, decide_True by lia.
  - f_equal. symmetry. eapply same_except_linp; [done|done|page_lia..].
  - f_equal. symmetry. apply linp_ext; [done|by eapply same_except_sized|page_lia..|].
    intros j Hj. specialize (Hq ((Z.of_nat i - Z.of_nat k) * 4 + j)). unfold nbytes, linp_at in *.
    replace (SizeOfPageHeaderData + 4 * Z.of_nat i + j) with
      (SizeOfPageHeaderData + 4 * Z.of_nat k + ((Z.of_nat i - Z.of_nat k) * 4 + j)) by lia.
    rewrite Hq by lia. f_equal. lia.
Qed.

(** Only [pd_lower] and line pointers have changed. *)
Definition edits (p q : Page) : Prop :=
  length q = length p ∧ ∀ i, 0 ≤ i → ¬ 12 ≤ i < 14 → ¬ 24 ≤ i < pd_lower p → peek q i = peek p i.

Lemma same_except_edits a b p q : same_except a b p q →
  (a = 12 ∧ b = 14) ∨ (24 ≤ a ∧ b ≤ pd_lower p) → edits p q.
Proof. intros [L H] ?. split; [done|]. intros. apply H; lia. Qed.

(** The steps that follow the removal of the line pointer, up to the loop: the
    page [q] has the line pointers [L], and the gap closes. *)
Lemma close_shift so p q n k a L : page_wf p → lines p !! k = Some a → ItemIdHasStorage a = true →
  edits p q → (n ≤ nlines p)%nat → lines_n q n = L → layout (pd_upper p) (pd_special p) L → clear_of (lp_off a) (lp_end a) L →
  so = true ∨ all_storage L →
  ∃ r, close_gap (lp_off a) (alen a) q = (r, Ok tt) ∧ pd_lower r = pd_lower q ∧ sized r
  ∧ ∀ r', same_except 12 14 r r' → pd_lower r' = linp_at (Z.of_nat n) →
      ∃ s, shift_items so (lp_off a) (alen a) (Z.of_nat n) r' = (s, Ok tt) ∧ page_wf s
      ∧ abs_page s = set_items (abs_page p) (ap_hint (abs_page p))
          (pd_upper p + alen a - linp_at (Z.of_nat n)) (view p <$> L).
Proof.
  intros W Hk Hs Sq Hn HL Hlay Hc Hso. pose proof (wf_sized _ W) as Hp. pose proof (wf_header _ W) as Hh.
  destruct (delete_facts p k a W Hk Hs) as (Hlt & Ea & Hb & ? & ? & ? & ? & Hal8 & ? & ?).
  assert (sized q) as Hq by (unfold sized; by rewrite (proj1 Sq)).
  assert (pd_upper q = pd_upper p) as Eu.
  { unfold pd_upper, get16. f_equal. apply (agree_slice 14 16); try (done || page_lia). intros i Hi. apply Sq; page_lia. }
  destruct (close_gap_spec q (pd_upper p) (lp_off a) (alen a)) as (r & Er & Hr & Eur & Hblk & Hrest);
    [done|done|page_lia..|].
  exists r. split_and!; [done| |done|].
  { unfold pd_lower, get16. f_equal. apply (agree_slice 12 14); try (done || page_lia). intros i Hi. apply Hrest; page_lia. }
  intros r' Sr El'. assert (sized r') as Hr' by (by eapply same_except_sized).
  assert (∀ i, 24 ≤ i → ¬ pd_upper p + alen a ≤ i < lp_end a → peek r' i = peek q i) as Hout.
  { intros i ? ?. rewrite (proj2 Sr), Hrest by page_lia. done. }
  apply shift_finish with (e := lp_end a) (n := n) (p := p); try done; try (page_lia).
  - unfold sized in *. split; [by rewrite Hr', Hp|]. intros i ? Hi.
    rewrite (proj2 Sr), Hrest, (proj2 Sq) by page_lia. done.
  - rewrite <-Eur. apply (same_except_get16 12 14); done || page_lia.
  - rewrite <-HL. unfold lines_n. apply list_fmap_ext. intros i j [-> ?]%lookup_seq.
    apply linp_ext; [done|done|page_lia..|]. intros c Hj. apply Hout; page_lia.
  - split; intros i Hi.
    + rewrite (proj2 Sr), Hblk, (proj2 Sq) by page_lia. done.
    + rewrite Hout, (proj2 Sq) by page_lia. done.
Qed.

Lemma index_item_range p offnum : page_wf p → ¬ 1 ≤ offnum ≤ Z.of_nat (nlines p) →
  index_item offnum p = (p, Err (ErrReport "invalid index offnum")).
Proof.
  intros W Hr. unfold index_item. unfold mbind at 1, M_bind at 1, get.
  rewrite (proj2 (wf_not_corrupt p W)), (wf_max p W).
  by replace ((offnum <=? 0) || (Z.of_nat (nlines p) <? offnum)) with true by lia.
Qed.

Lemma empty_lines p n : pd_lower p = linp_at (Z.of_nat n) → PageIsEmpty p = (n =? 0)%nat.
Proof.
  intros E. unfold PageIsEmpty. rewrite E. unfold linp_at.
  destruct (Nat.eqb_spec n 0), (Z.leb_spec (SizeOfPageHeaderData + 4 * Z.of_nat n) SizeOfPageHeaderData); lia || done.
Qed.

(** The loop is skipped when nothing is left. *)
Lemma shift_unless_empty so g d p n : pd_lower p = linp_at (Z.of_nat n) →
  (if PageIsEmpty p then mret tt else shift_items so g d (Z.of_nat n)) p = shift_items so g d (Z.of_nat n) p.
Proof. intros E. rewrite (empty_lines p n E). by destruct n. Qed.

Lemma wf_lookup p offnum : page_wf p → 1 ≤ offnum ≤ Z.of_nat (nlines p) →
  ∃ k a, Z.to_nat (offnum - 1) = k ∧ offnum = Z.of_nat k + 1 ∧ lines p !! k = Some a
  ∧ ap_items (abs_page p) !! k = Some (view p a).
Proof.
  intros W Hr. exists (Z.to_nat (offnum - 1)), (linp p (Z.of_nat (Z.to_nat (offnum - 1)))).
  destruct (wf_item p (Z.to_nat (offnum - 1)) W) as [Hl _]; [lia|].
  split_and!; [done|lia|done|]. simpl. by rewrite list_lookup_fmap, Hl.
Qed.

Lemma delete_run p k : page_wf p → stored (abs_page p) → (k < nlines p)%nat →
  ∃ q, PageIndexTupleDelete (Z.of_nat k + 1) p = (q, Ok tt) ∧ page_wf q
  ∧ abs_page q = spec_delete (abs_page p) k.
Proof.
  intros W Hst Hk. destruct (wf_lookup p (Z.of_nat k + 1) W) as (k' & a & E1 & E2 & Ha & Hit); [lia|].
  assert (k' = k) as -> by lia. clear E1 E2.
  pose proof (stored_lines p W Hst) as Hall. pose proof (Hall k a Ha) as Hs.
  pose proof (wf_sized _ W) as Hp. pose proof (wf_header _ W) as Hh.
  destruct (delete_facts p k a W Ha Hs) as (Hlt & Ea & Hb & ? & ? & ? & ? & ? & ? & ?).
  unfold PageIndexTupleDelete. rewrite (bind_ok _ _ _ _ _ (index_item_ok p k a W Ha Hs)).
  unfold mbind at 1, M_bind at 1, get. rewrite (wf_max p W), Z.add_simpl_r, <-(proj2 (proj2 (proj2 (proj2 Hh)))).
  destruct (delete_line p (nlines p) k Hp) as (q & Eq & Sq & Lq); [lia|done|].
  rewrite (bind_ok _ _ _ _ _ Eq).
  destruct (close_shift false p q (nlines p - 1) k a (delete k (lines p))) as (r & Er & Elr & Hr & Hshift);
    [done..|eapply same_except_edits; [done|right; split; [done|lia]]|lia|done|by apply layout_delete|by eapply delete_clear| |].
  { right. intros i b. rewrite list_lookup_delete. apply Hall. }
  change (MAXALIGN (lp_len a)) with (alen a). rewrite (bind_ok _ _ _ _ _ Er).
  assert (linp_at (Z.of_nat (nlines p)) - 4 = linp_at (Z.of_nat (nlines p - 1))) as En by page_lia.
  rewrite En. destruct (put_lower_spec r (linp_at (Z.of_nat (nlines p - 1)))) as (_ & El' & Sl'); [done|page_lia|].
  destruct (Hshift _ Sl' El') as (s & Es & Ws & As). exists s. split_and!; [|done|].
  - rewrite <-Es, <-(shift_unless_empty false _ _ _ _ El').
    replace (Z.of_nat (nlines p) - 1) with (Z.of_nat (nlines p - 1)) by lia. done.
  - rewrite As. unfold spec_delete. rewrite Hit, (view_space p k a W Ha Hs). simpl.
    unfold set_items. f_equal; [page_lia|]. by rewrite list_fmap_delete.
Qed.

Lemma no_compact_run p k a : page_wf p → lines p !! k = Some a → ItemIdHasStorage a = true →
  ∃ q, PageIndexTupleDeleteNoCompact (Z.of_nat k + 1) p = (q, Ok tt) ∧ page_wf q
  ∧ abs_page q = spec_delete_no_compact (abs_page p) k.
Proof.
  intros W Ha Hs. pose proof (wf_sized _ W) as Hp. pose proof (wf_header _ W) as Hh.
  destruct (delete_facts p k a W Ha Hs) as (Hlt & Ea & Hb & ? & ? & ? & ? & ? & ? & ?).
  unfold PageIndexTupleDeleteNoCompact. rewrite (bind_ok _ _ _ _ _ (index_item_ok p k a W Ha Hs)).
  unfold mbind at 1, M_bind at 1, get. rewrite (wf_max p W).
  change (MAXALIGN (lp_len a)) with (alen a). unfold spec_delete_no_compact. rewrite abs_length.
  assert (ap_items (abs_page p) !! k = Some (view p a)) as -> by (simpl; by rewrite list_lookup_fmap, Ha).
  rewrite (view_space p k a W Ha Hs).
  destruct (Z.ltb_spec (Z.of_nat k + 1) (Z.of_nat (nlines p))) as [Hlast|Hlast].
  - destruct (Nat.ltb_spec (k + 1) (nlines p)); [|lia]. set (q := put_linp (Z.of_nat k) ItemIdSetUnused p).
    rewrite bind_assoc, (bind_ok _ _ _ _ _ (run_set_item p (Z.of_nat k) _ Hp ltac:(lia) ltac:(lia))).
    assert (same_except (linp_at (Z.of_nat k)) (linp_at (Z.of_nat k + 1)) p q) as Sq
      by (apply put_linp_same_except; done || lia).
    destruct (close_shift true p q (nlines p) k a (<[k := ItemIdSetUnused]> (lines p))) as (r & Er & Elr & Hr & Hshift);
      [done..|eapply same_except_edits; [done|right; page_lia]|done|by apply put_linp_lines; [|lia|lia|]|by apply layout_clear|by eapply insert_clear|by left|].
    assert (pd_lower r = linp_at (Z.of_nat (nlines p))) as El.
    { rewrite Elr, (proj2 (proj2 (proj2 (proj2 Hh)))). eapply same_except_bounds; [done|done|page_lia]. }
    destruct (Hshift r (same_except_refl _ _ _) El) as (s & Es & Ws & As). exists s. split_and!; [|done|].
    + rewrite <-Es, <-(shift_unless_empty true _ _ _ _ El). unfold mbind at 1, M_bind at 1, mret at 1, M_ret at 1.
      by rewrite (bind_ok _ _ _ _ _ Er).
    + rewrite As. unfold set_items. f_equal; [simpl; page_lia|]. by rewrite list_fmap_insert.
  - destruct (Nat.ltb_spec (k + 1) (nlines p)); [lia|]. 
    destruct (put_lower_spec p (pd_lower p - 4)) as (_ & El' & Sl'); [done|page_lia|].
    set (q := put16 12 (pd_lower p - 4) p) in *.
    assert (linp_at (Z.of_nat (nlines p)) - 4 = linp_at (Z.of_nat (nlines p - 1))) as En by page_lia.
    destruct (close_shift true p q (nlines p - 1) k a (delete k (lines p))) as (r & Er & Elr & Hr & Hshift);
      [done..|eapply same_except_edits; [done|by left]|lia| |by apply layout_delete|by eapply delete_clear|by left|].
    { transitivity (lines_n p (nlines p - 1)); [eapply same_except_lines; [done|done|page_lia|by right]|].
      apply lines_ext; [rewrite length_delete by done; unfold lines; rewrite length_lines; lia|].
      intros i Hi. rewrite list_lookup_delete_lt by lia. by apply wf_item; [|lia]. }
    assert (pd_lower r = linp_at (Z.of_nat (nlines p - 1))) as El by (rewrite Elr, El'; lia).
    destruct (Hshift r (same_except_refl _ _ _) El) as (s & Es & Ws & As). exists s. split_and!; [|done|].
    + rewrite <-Es, <-(shift_unless_empty true _ _ _ _ El).
      replace (Z.of_nat (nlines p) - 1) with (Z.of_nat (nlines p - 1)) by lia.
      rewrite bind_assoc. rewrite (bind_ok _ _ p q tt) by done.
      unfold mbind at 1, M_bind at 1, mret at 1, M_ret at 1. by rewrite (bind_ok _ _ _ _ _ Er).
    + rewrite As. unfold set_items. f_equal; [simpl; page_lia|]. by rewrite list_fmap_delete.
Qed.

(** ** Replacing a tuple *)

Lemma shift_lp_0 so g a : shift_lp so g 0 a = a.
Proof. unfold shift_lp, with_off. case_match; [|done]. rewrite Z.add_0_r. by destruct a. Qed.

Lemma shifted_clear so g e d L : g < e → all_fit L → clear_of g e L → clear_of (g + d) e (shift_lp so g d <$> L).
Proof.
  intros Hge Hf Hc i b Hb Hs. apply list_lookup_fmap_Some in Hb as (a & -> & Ha).
  rewrite shift_lp_storage in Hs.
  destruct (shift_lp_cases so g e d a Hge (Hf i a Ha) Hs (Hc i a Ha Hs)) as [[? ->]|[? ->]]; [left|by right].
  unfold lp_end, alen in *. simpl. lia.
Qed.

Lemma make_room_spec p k a d : page_wf p → lines p !! k = Some a → ItemIdHasStorage a = true →
  pd_lower p ≤ pd_upper p + d → d < alen a →
  ∃ r, make_room (lp_off a) d (Z.of_nat (nlines p)) p = (r, Ok tt)
  ∧ frame p r ∧ pd_lower r = pd_lower p ∧ pd_upper r = pd_upper p + d
  ∧ lines_n r (nlines p) = shift_lp true (lp_off a) d <$> lines p
  ∧ moved p r (pd_upper p) (lp_off a) (lp_end a) d (pd_special p).
Proof.
  intros W Ha Hs Hlo Hd. pose proof (wf_sized _ W) as Hp. pose proof (wf_header _ W) as Hh.
  destruct (delete_facts p k a W Ha Hs) as (Hlt & Ea & Hb & ? & ? & ? & ? & ? & ? & ?).
  unfold make_room. unfold mbind at 1, M_bind at 1, get. destruct (Z.eqb_spec d 0) as [->|Hd0]; cbn [negb].
  { exists p. split_and!; [done|apply frame_refl|done|lia| |].
    - symmetry. transitivity (id <$> lines p); [|by rewrite list_fmap_id].
      apply list_fmap_ext. intros. apply shift_lp_0.
    - split; intros i Hi; [by rewrite Z.add_0_r|done]. }
  destruct (relocate_spec p (pd_upper p) (lp_off a) d) as (q & Eq & Hq & Eu & Hblk & Hrest);
    [done|done|page_lia..|].
  assert (lines_n q (nlines p) = lines p) as Lq.
  { apply list_fmap_ext. intros i j [-> ?]%lookup_seq. apply linp_ext; [done|done|page_lia..|].
    intros c Hc. apply Hrest; page_lia. }
  destruct (shift_items_spec true q (nlines p) (lp_off a) d) as (r & Er & Sr & Lr); [done|page_lia| |].
  { rewrite Lq. intros i b Hib Hsb Hle. destruct (lay_placed _ _ _ (wf_layout _ W) i b Hib Hsb). page_lia. }
  assert (sized r) as Hr by (by eapply same_except_sized).
  assert (∀ i, 0 ≤ i → ¬ 14 ≤ i < 16 → ¬ pd_upper p + d ≤ i < lp_off a + d → ¬ 24 ≤ i < pd_lower p →
    peek r i = peek p i) as Hout by (intros; rewrite (proj2 Sr), Hrest; done || page_lia).
  exists r. split_and!.
  - rewrite <-bind_assoc. by rewrite (bind_ok _ _ _ _ _ Eq).
  - split; [unfold sized in *; by rewrite Hr, Hp|]. intros i ? ?. apply Hout; page_lia.
  - unfold pd_lower, get16. f_equal. apply (agree_slice 12 14); try (done || page_lia). intros i Hi. apply Hout; page_lia.
  - rewrite <-Eu. eapply same_except_bounds; done.
  - by rewrite Lr, Lq.
  - split; intros i Hi.
    + rewrite (proj2 Sr) by page_lia. by apply Hblk.
    + apply Hout; page_lia.
Qed.

(** The replaced entry does not matter for what the loop does to the others. *)
Lemma shift_clear p k x so g d : <[k := x]> (shift_lp so g d <$> lines p)
  = <[k := x]> (shift_lp so g d <$> <[k := ItemIdSetUnused]> (lines p)).
Proof. by rewrite list_fmap_insert, list_insert_insert_eq. Qed.

Lemma clear_fits p k : all_fit (<[k := ItemIdSetUnused]> (lines p)).
Proof.
  intros i b Hib. apply list_lookup_insert_Some in Hib as [(_ & <- & _)|[_ Hib]]; [done|].
  apply lookup_lines_Some in Hib as [_ ->]. apply linp_fits.
Qed.

(** The new line pointer fits between the data that moved and the rest. *)
Lemma replace_layout p k a x d : page_wf p → lines p !! k = Some a → ItemIdHasStorage a = true →
  d mod 8 = 0 → d ≤ alen a → lp_off x = lp_off a + d → lp_end x = lp_end a → lp_flags x = lp_flags a →
  layout (pd_upper p + d) (pd_special p) (<[k := x]> (shift_lp true (lp_off a) d <$> lines p)).
Proof.
  intros W Ha Hs Hd8 Hd Hxo Hxe Hxf.
  destruct (delete_facts p k a W Ha Hs) as (Hlt & Ea & Hb & ? & ? & ? & Ho8 & Hal8 & ? & ?). rewrite shift_clear.
  apply (layout_add (pd_upper p + d) _ _ (shift_lp true (lp_off a) d <$> <[k := ItemIdSetUnused]> (lines p)) _ k x id);
    try done.
  - eapply shift_layout; [by apply layout_clear|apply clear_fits|by eapply insert_clear|page_lia|page_lia|unfold lp_end; lia|done].
  - intros i b Hib. apply list_lookup_insert_Some in Hib as [(-> & <- & _)|[? ?]]; auto.
  - pose proof (lay_unused _ _ _ (wf_layout _ W) k a Ha) as Hun. unfold ItemIdIsUsed in *. rewrite Hxf.
    destruct (lp_flags a =? LP_UNUSED); [|done]. rewrite Hun in Hs; done.
  - split; [lia|lia|]. rewrite Hxo, Z.add_mod, Hd8, Ho8 by done. done.
  - intros i b _ Hib Hsb. unfold apart. rewrite Hxe, Hxo.
    destruct (shifted_clear true (lp_off a) (lp_end a) d (<[k := ItemIdSetUnused]> (lines p))) with i b; try done;
      [lia|apply clear_fits|by eapply insert_clear|by right|by left].
Qed.

(** The new line pointer and the new data, once there is room. *)
Lemma replace_spec p r k a d data : page_wf p → lines p !! k = Some a → ItemIdHasStorage a = true →
  pd_lower p ≤ pd_upper p + d → 0 < Z.of_nat (length data) < 2 ^ 31 → d = alen a - MAXALIGN (Z.of_nat (length data)) →
  frame p r → pd_lower r = pd_lower p → pd_upper r = pd_upper p + d →
  lines_n r (nlines p) = shift_lp true (lp_off a) d <$> lines p →
  moved p r (pd_upper p) (lp_off a) (lp_end a) d (pd_special p) →
  ∃ q, (PageSetItemId (Z.of_nat k + 1) (mkItemId (lp_off a + d) (lp_flags a) (Z.of_nat (length data))) ;;
        store (lp_off a + d) data) r = (q, Ok tt)
  ∧ page_wf q ∧ abs_page q = set_items (abs_page p) (ap_hint (abs_page p)) (ap_free (abs_page p) + d)
      (<[k := mkItem (lp_flags a) 0 data]> (ap_items (abs_page p))).
Proof.
  intros W Ha Hs Hlo Hne Hd Fr El Eu Lr [Hblk Hrest].
  pose proof (wf_sized _ W) as Hp. pose proof (wf_header _ W) as Hh.
  destruct (delete_facts p k a W Ha Hs) as (Hlt & Ea & Hb & ? & ? & ? & Ho8 & Hal8 & ? & ?).
  pose proof (MAXALIGN_bounds (Z.of_nat (length data)) ltac:(lia)) as [Hnew Hnew8].
  set (o := lp_off a + d). set (n := nlines p) in *. set (x := mkItemId o (lp_flags a) (Z.of_nat (length data))).
  assert (lp_end x = lp_end a) as Hxe by (unfold lp_end, alen in *; simpl; unfold o; lia).
  assert (pd_upper p + d ≤ o ∧ o + Z.of_nat (length data) ≤ lp_end a) as [Ho1 Ho2] by (unfold o, lp_end in *; lia).
  assert (d mod 8 = 0) as Hd8 by (rewrite Hd, Zminus_mod, Hal8, Hnew8; done).
  assert (item_fits x) as Hx.
  { pose proof (linp_fits p (Z.of_nat k)) as (_ & Hfl & _). rewrite <-Ea in Hfl. unfold item_fits. simpl. page_lia. }
  assert (sized r) as Hr by (by eapply frame_sized). set (r1 := put_linp (Z.of_nat k) x r). set (q := blit o data r1).
  assert (same_except (linp_at (Z.of_nat k)) (linp_at (Z.of_nat k + 1)) r r1) as S1
    by (apply put_linp_same_except; [done|lia|page_lia]).
  assert (sized r1) as Hr1 by (by eapply same_except_sized).
  assert (same_except o (o + Z.of_nat (length data)) r1 q) as S2 by (apply blit_same_except; [done|page_lia..]).
  assert (sized q) as Hq by (by eapply same_except_sized).
  assert (∀ i, 0 ≤ i → ¬ linp_at (Z.of_nat k) ≤ i < pd_lower p → ¬ o ≤ i < lp_end a → peek q i = peek r i) as Hout
    by (intros; rewrite (proj2 S2), (proj2 S1); done || page_lia).
  assert (∀ o, 12 ≤ o → o + 2 ≤ 16 → get16 o q = get16 o r) as Hhdr.
  { intros c ? ?. unfold get16. f_equal. apply (agree_slice c (c + 2)); try (done || page_lia). intros i Hi. apply Hout; page_lia. }
  destruct (finish p q n (pd_upper p + d) (<[k := x]> (shift_lp true (lp_off a) d <$> lines p))) as (Wq & _ & Aq); try done.
  - unfold sized in *. split; [by rewrite Hq, Hp|]. intros i ? ?. rewrite Hout by page_lia. by apply Fr.
  - rewrite (proj2 (proj2 (proj2 (proj2 Hh)))), <-El. by apply Hhdr.
  - rewrite <-Eu. by apply Hhdr.
  - page_lia.
  - rewrite Z.add_mod, Hd8, (wf_upper_al _ W) by done. done.
  - transitivity (lines_n r1 n); [eapply same_except_lines; [done|done|page_lia|left; page_lia]|].
    rewrite <-Lr. apply put_linp_lines; done || page_lia.
  - apply (replace_layout p k a x d); done || lia.
  - exists q. split_and!; [|done|].
    + rewrite (bind_ok _ _ _ _ _ (run_set_item r (Z.of_nat k) x Hr ltac:(lia) ltac:(page_lia))). apply run_store; page_lia.
    + rewrite Aq, shift_clear. unfold set_items. f_equal; [simpl; page_lia|]. rewrite list_fmap_insert.
      rewrite (shift_views true p q (pd_upper p) (pd_special p) _ (lp_off a) (lp_end a) d); try done;
        [|by apply layout_clear|apply clear_fits|by eapply insert_clear|by left|page_lia..|unfold lp_end; lia|].
      * rewrite list_fmap_insert, list_insert_insert_eq. f_equal. unfold view, x, ItemIdHasStorage. simpl.
        destruct (Z.eqb_spec (Z.of_nat (length data)) 0); [lia|]. simpl. f_equal. apply slice_blit; [done|page_lia..].
      * split; intros i Hi; rewrite Hout by (unfold o, lp_end in *; page_lia); [by apply Hblk|by apply Hrest].
Qed.

Lemma overwrite_run p k a newtup newsize : page_wf p → lines p !! k = Some a → ItemIdHasStorage a = true →
  0 < newsize ≤ 2 ^ 31 - 8 → newsize ≤ Z.of_nat (length newtup) →
  let data := take (Z.to_nat newsize) newtup in
  ∃ q, PageIndexTupleOverwrite (Z.of_nat k + 1) newtup newsize p = (q, Ok (spec_overwrite (abs_page p) k data).2)
  ∧ page_wf q ∧ abs_page q = (spec_overwrite (abs_page p) k data).1.
Proof.
  intros W Ha Hs Hsz Hlen data. pose proof (wf_sized _ W) as Hp. pose proof (wf_header _ W) as Hh.
  destruct (delete_facts p k a W Ha Hs) as (Hlt & Ea & Hb & ? & ? & ? & Ho8 & Hal8 & ? & ?).
  pose proof (MAXALIGN_bounds newsize ltac:(lia)) as [Hnew Hnew8].
  assert (Z.of_nat (length data) = newsize) as Hdata by (unfold data; rewrite length_take; lia).
  unfold PageIndexTupleOverwrite. rewrite (bind_ok _ _ _ _ _ (index_item_ok p k a W Ha Hs)).
  unfold mbind at 1, M_bind at 1, get. rewrite (wf_max p W).
  change (MAXALIGN (lp_len a)) with (alen a). unfold spec_overwrite.
  assert (ap_items (abs_page p) !! k = Some (view p a)) as -> by (simpl; by rewrite list_lookup_fmap, Ha).
  rewrite (view_space p k a W Ha Hs), Hdata. change (ap_free (abs_page p)) with (pd_upper p - pd_lower p).
  destruct (Z.ltb_spec (alen a + (pd_upper p - pd_lower p)) (MAXALIGN newsize)); [by exists p|].
  rewrite (i32_small (MAXALIGN newsize)), i32_small by (unfold lp_end in *; page_lia).
  set (d := alen a - MAXALIGN newsize).
  destruct (make_room_spec p k a d W Ha Hs) as (r & Er & Fr & El & Eu & Lr & Hmv); [unfold d; lia..|].
  rewrite (bind_ok _ _ _ _ _ Er).
  assert (linp r (Z.of_nat k) = with_off (lp_off a + d) a) as Elp.
  { assert (lines_n r (nlines p) !! k = Some (shift_lp true (lp_off a) d a)) as Hlk
      by (by rewrite Lr, list_lookup_fmap, Ha).
    apply lookup_lines_Some in Hlk as [_ <-]. unfold shift_lp. by rewrite Hs, Z.leb_refl. }
  rewrite (bind_ok _ _ _ _ _ (run_get_item r (Z.of_nat k) ltac:(by eapply frame_sized) ltac:(lia) ltac:(lia))), Elp.
  destruct (replace_spec p r k a d data) as (q & Eq & Wq & Aq); try done; [unfold d; lia|lia|by rewrite Hdata|].
  destruct (Z.ltb_spec (Z.of_nat (length newtup)) newsize); [lia|]. fold data. rewrite Hdata in Eq.
  exists q. split_and!; [|done|].
  - rewrite <-bind_assoc. by rewrite (bind_ok _ _ _ _ _ Eq).
  - rewrite Aq. unfold set_items. simpl. f_equal; [unfold d; lia|]. f_equal. f_equal.
    unfold view. by rewrite Hs.
Qed.

(** ** The routines against their specifications *)

(** [PageIndexTupleDelete] removes one item of the list: on a well-formed
    page whose items all have data, an offset number in range removes that
    item, closes the gap its data leaves so that exactly its aligned size and
    its line pointer become free, and leaves the bytes of every other item as
    they were although most of them moved; an offset number out of range raises
    an error and changes nothing. *)
Theorem index_delete_refines p offnum : page_wf p → stored (abs_page p) →
  if decide (1 ≤ offnum ≤ Z.of_nat (length (ap_items (abs_page p)))) then
    ∃ q, PageIndexTupleDelete offnum p = (q, Ok tt) ∧ page_wf q
      ∧ abs_page q = spec_delete (abs_page p) (Z.to_nat (offnum - 1))
  else PageIndexTupleDelete offnum p = (p, Err (ErrReport "invalid index offnum")).
Proof.
  intros W Hst. rewrite abs_length. case_decide as Hr.
  - destruct (delete_run p (Z.to_nat (offnum - 1)) W Hst ltac:(lia)) as (q & E & Hq).
    replace (Z.of_nat (Z.to_nat (offnum - 1)) + 1) with offnum in E by lia. by exists q.
  - unfold PageIndexTupleDelete. by rewrite (bind_err _ _ _ _ _ (index_item_range p offnum W Hr)).
Qed.

(** [PageIndexTupleOverwrite] replaces the data of one item and keeps its
    state: every other item keeps its bytes, whichever way the data below has
    to move, the free space changes by the difference of the aligned sizes, and
    the routine refuses, changing nothing, exactly when the new data does not
    fit into the free space and the room of the old. *)
Theorem index_overwrite_refines p offnum newtup newsize it :
  page_wf p → ap_items (abs_page p) !! Z.to_nat (offnum - 1) = Some it → it_data it ≠ [] → 1 ≤ offnum →
  0 < newsize ≤ 2 ^ 31 - 8 → newsize ≤ Z.of_nat (length newtup) →
  let r := spec_overwrite (abs_page p) (Z.to_nat (offnum - 1)) (take (Z.to_nat newsize) newtup) in
  ∃ q, PageIndexTupleOverwrite offnum newtup newsize p = (q, Ok r.2) ∧ page_wf q ∧ abs_page q = r.1.
Proof.
  intros W Hit Hne H1 Hsz Hlen r. pose proof (lookup_lt_Some _ _ _ Hit) as Hlt. rewrite abs_length in Hlt.
  destruct (wf_lookup p offnum W) as (k & a & Ek & Eo & Ha & Hv); [lia|]. subst r. rewrite Ek in *.
  pose proof (overwrite_run p k a newtup newsize) as Hrun. rewrite <-Eo in Hrun. apply Hrun; try done.
  rewrite Hv in Hit. injection Hit as <-. unfold view in Hne. by destruct (ItemIdHasStorage a).
Qed.

(** [PageIndexTupleDeleteNoCompact]: the other items keep their numbers. *)
Theorem index_delete_no_compact_refines p offnum it :
  page_wf p → ap_items (abs_page p) !! Z.to_nat (offnum - 1) = Some it → it_data it ≠ [] → 1 ≤ offnum →
  ∃ q, PageIndexTupleDeleteNoCompact offnum p = (q, Ok tt) ∧ page_wf q
    ∧ abs_page q = spec_delete_no_compact (abs_page p) (Z.to_nat (offnum - 1)).
Proof.
  intros W Hit Hne H1. pose proof (lookup_lt_Some _ _ _ Hit) as Hlt. rewrite abs_length in Hlt.
  destruct (wf_lookup p offnum W) as (k & a & Ek & Eo & Ha & Hv); [lia|]. rewrite Ek in *.
  pose proof (no_compact_run p k a) as Hrun. rewrite <-Eo in Hrun. apply Hrun; try done.
  rewrite Hv in Hit. injection Hit as <-. unfold view in Hne. by destruct (ItemIdHasStorage a).
Qed.

(** A longer tuple replaces the first of two. *)
Lemma index_overwrite_refines_witness :
  ∃ q, PageIndexTupleOverwrite 1 [9; 9; 9; 9; 9; 9; 9; 9; 9] 9 two_items = (q, Ok true) ∧ page_wf q
  ∧ ap_items (abs_page q) = [mkItem 1 0 [9; 9; 9; 9; 9; 9; 9; 9; 9]; mkItem 1 0 [4; 5; 6; 7; 8; 9; 10; 11; 12]].
Proof.
  destruct two_items_spec as [W A]. revert W A. generalize two_items as p. intros p W A.
  destruct (index_overwrite_refines p 1 [9; 9; 9; 9; 9; 9; 9; 9; 9] 9 (mkItem 1 0 [1; 2; 3]) W) as (q & E & Wq & Aq);
    [rewrite A; vm_compute; reflexivity|discriminate|lia|lia|simpl; lia|].
  rewrite A in E, Aq. exists q. split; [rewrite E; vm_compute; reflexivity|].
  split; [exact Wq|]. rewrite Aq. vm_compute. reflexivity.
Defined.

Lemma index_delete_refines_witness :
  ∃ q, PageIndexTupleDelete 1 two_items = (q, Ok tt) ∧ page_wf q
  ∧ ap_items (abs_page q) = [mkItem 1 0 [4; 5; 6; 7; 8; 9; 10; 11; 12]].
Proof.
  destruct two_items_spec as [W A]. revert W A. generalize two_items as p. intros p W A.
  assert (length (ap_items (abs_page p)) = 2%nat) as Hl by (rewrite A; vm_compute; reflexivity).
  assert (stored (abs_page p)) as Hs by (unfold stored; rewrite A; vm_compute; repeat constructor; discriminate).
  pose proof (index_delete_refines p 1 W Hs) as H. rewrite Hl in H.
  rewrite decide_True in H by (simpl; lia). destruct H as (q & E & Wq & Aq).
  exists q. split; [exact E|]. split; [exact Wq|]. rewrite Aq, A. vm_compute. reflexivity.
Defined.
