(* ===== verification/PageCompact.v ===== *)
(** * Compaction

    [compactify_tuples] moves the data of the items to the end of the page in the
    order of their line pointers, leaving one free area.  It has three ways of
    doing so: within the page when the offsets already descend, and through a
    scratch block that receives either each item or the whole area; all three
    join adjacent items into one copy and skip those already in place.  The
    theorems show that each way leaves every item with its bytes and no gap,
    although source and target overlap, and that no byte of the scratch block is
    read before it is written.  The two callers are the subject of [PageRepair]
    and [PageMulti]. *)

From S2P Require Import Prelude PageMem BufPage PageInv PageIndex.
From stdpp Require Import base tactics list numbers strings.
From Stdlib Require Import ZArith Lia.

Open Scope Z_scope.

(** ** The items of a compaction *)

Definition total_len (items : list itemIdCompactData) : Z := foldr (λ it z, alignedlen it + z) 0 items.

(** Where each item goes when the data ends at [u]. *)
Fixpoint targets (items : list itemIdCompactData) (u : Z) : list Z :=
  match items with
  | [] => []
  | it :: items' => u - alignedlen it :: targets items' (u - alignedlen it)
  end.

Definition disj (a b : itemIdCompactData) : Prop :=
  item_end a ≤ itemoff b ∨ item_end b ≤ itemoff a.

Fixpoint pairwise (items : list itemIdCompactData) : Prop :=
  match items with
  | [] => True
  | it :: items' => Forall (disj it) items' ∧ pairwise items'
  end.

(** The items from the top of the page downwards, each below the one before. *)
Fixpoint descending (lo hi : Z) (items : list itemIdCompactData) : Prop :=
  match items with
  | [] => True
  | it :: items' => lo ≤ itemoff it ∧ item_end it ≤ hi ∧ descending lo (itemoff it) items'
  end.

(** An item inside an area, of a page with [n] line pointers. *)
Record within (n : nat) (lo hi : Z) (it : itemIdCompactData) : Prop := {
  wi_index : 0 ≤ offsetindex it < Z.of_nat n;
  wi_lo : lo ≤ itemoff it;
  wi_hi : item_end it ≤ hi;
  wi_len : 0 < alignedlen it
}.

Definition indexes (items : list itemIdCompactData) : list Z := offsetindex <$> items.

(** What the copies read is what the page held at first: from the page itself
    below the area already written, or from the scratch block. *)
Definition source_ok (orig : Page) (lo : Z) (scratch : option scratch_block) (p : Page)
    (u t h : Z) (rest : list itemIdCompactData) : Prop :=
  match scratch with
  | None => agree lo (u + (t - h)) p orig ∧ h ≤ u ∧ lo ≤ h ∧ descending lo h rest
  | Some s => length s = Z.to_nat BLCKSZ
      ∧ (∀ i, h ≤ i < t → peek s i = Some <$> peek orig i)
      ∧ Forall (λ it, ∀ i, itemoff it ≤ i < item_end it → peek s i = Some <$> peek orig i) rest
  end.

(** ** The copies *)

Lemma mapM_id_Some (l : list Z) : mapM id (Some <$> l) = Some l.
Proof. by apply mapM_fmap_Some. Qed.

Lemma scratch_read_ok s p o n : length s = Z.to_nat BLCKSZ → sized p → 0 ≤ o → 0 ≤ n → o + n ≤ BLCKSZ →
  (∀ i, o ≤ i < o + n → peek s i = Some <$> peek p i) → scratch_read o n s = Ok (slice o n p).
Proof.
  unfold sized. intros Hs Hp ? ? ? H. unfold scratch_read. rewrite in_block_true by done.
  replace (slice o n s) with (Some <$> slice o n p); [by rewrite mapM_id_Some|].
  apply list_eq_same_length with (Z.to_nat n); [by rewrite ?length_fmap, length_slice by lia..|].
  intros i x y Hi Hx Hy. specialize (H (o + Z.of_nat i)).
  rewrite <-(peek_slice s o n), <-(peek_slice p o n) in H by lia.
  rewrite list_lookup_fmap in Hx. unfold peek in H. rewrite Nat2Z.id, Hx, Hy in H.
  injection (H ltac:(lia)) as ->. done.
Qed.

Lemma copy_pending_spec orig lo scratch p u t h rest : sized orig → sized p → source_ok orig lo scratch p u t h rest →
  0 ≤ h ≤ t → t ≤ BLCKSZ → 0 ≤ u → u + (t - h) ≤ BLCKSZ →
  ∃ q, copy_pending scratch u h t p = (q, Ok tt) ∧ same_except u (u + (t - h)) p q
  ∧ ∀ k, 0 ≤ k < t - h → peek q (u + k) = peek orig (h + k).
Proof.
  intros Ho Hp Hsrc ? ? ? ?. destruct scratch as [s|]; simpl in *.
  - destruct Hsrc as (Hs & Hchunk & _). rewrite (scratch_read_ok s orig); try done; try lia.
    2: { intros i Hi. apply Hchunk. lia. }
    unfold mbind, M_bind, lift_result.
    assert (Z.of_nat (length (slice h (t - h) orig)) = t - h) as L by (unfold sized in Ho; rewrite length_slice; lia).
    eexists. split; [apply run_store; lia|]. split.
    + rewrite <-L at 1. apply blit_same_except; [done|lia..].
    + intros k Hk. rewrite peek_blit by (unfold sized in Hp; lia). rewrite decide_True, peek_slice by lia. f_equal. lia.
  - destruct Hsrc as (Hag & Hhu & Hlo & _).
    destruct (memmove_spec p u h (t - h)) as (q & E & Sq & Hq); [done|lia..|].
    exists q. split_and!; [done..|]. intros k Hk. rewrite Hq by done. apply Hag. lia.
Qed.

Lemma source_ok_tail orig lo scratch p u t h it rest :
  source_ok orig lo scratch p u t h (it :: rest) → sized p → 0 ≤ lo → lo ≤ u - alignedlen it →
  h = item_end it → ∀ q, same_except 24 lo p q →
  source_ok orig lo scratch q (u - alignedlen it) t (itemoff it) rest.
Proof.
  intros Hsrc Hp Hlo Hu Hh q Sq. destruct scratch as [s|]; simpl in *.
  - destruct Hsrc as (Hs & Hchunk & Hall). inversion Hall as [|?? Hit Hrest]; subst.
    split_and!; [done| |done]. intros i Hi. destruct (decide (i < item_end it)); [apply Hit; lia|apply Hchunk; lia].
  - destruct Hsrc as (Hag & Hhu & Hlh & Hit & _ & Hrest). unfold item_end in *.
    split_and!; [|lia|lia|done]. intros i Hi. rewrite (proj2 Sq) by lia. apply Hag. lia.
Qed.

Lemma source_ok_flush orig lo scratch p u t h it rest q :
  source_ok orig lo scratch p u t h (it :: rest) → 0 < alignedlen it → 0 ≤ h ≤ t → 0 ≤ lo → lo ≤ u →
  (∀ i, 24 ≤ i → ¬ 24 ≤ i < lo → ¬ u ≤ i < u + (t - h) → peek q i = peek p i) → 24 ≤ lo →
  source_ok orig lo scratch q (u - alignedlen it) (item_end it) (itemoff it) rest.
Proof.
  intros Hsrc Hlen ? Hlo Hu Hq Hlo24. destruct scratch as [s|]; simpl in *.
  - destruct Hsrc as (Hs & Hchunk & Hall). inversion Hall as [|?? Hit Hrest]; subst. split_and!; done.
  - destruct Hsrc as (Hag & Hhu & Hlh & Hit & Hend & Hrest). unfold item_end in *.
    split_and!; [|lia|lia|done]. intros i Hi. rewrite Hq by lia. apply Hag. lia.
Qed.

(** ** The loop *)

(** The items have moved from where they are in [orig] to their targets below
    [u], only addresses below [hi] were written, and the line pointers follow. *)
Record compacted (orig : Page) (n : nat) (p q : Page) (u hi : Z) (items : list itemIdCompactData) : Prop := {
  cp_len : length q = length p;
  cp_out : ∀ i, 0 ≤ i → ¬ 24 ≤ i < linp_at (Z.of_nat n) → ¬ u - total_len items ≤ i < hi → peek q i = peek p i;
  cp_data : ∀ j it T k, items !! j = Some it → targets items u !! j = Some T → 0 ≤ k < alignedlen it →
    peek q (T + k) = peek orig (itemoff it + k);
  cp_line : ∀ j it T, items !! j = Some it → targets items u !! j = Some T →
    linp q (offsetindex it) = with_off T (linp p (offsetindex it));
  cp_other : ∀ i, 0 ≤ i < Z.of_nat n → i ∉ indexes items → linp q i = linp p i
}.

Lemma total_len_nonneg n lo hi items : Forall (within n lo hi) items → 0 ≤ total_len items.
Proof. induction 1 as [|it items [] _ IH]; simpl; lia. Qed.

(** One line pointer is redirected. *)
Lemma redirect_spec p n it u lo : sized p → linp_at (Z.of_nat n) ≤ BLCKSZ → 0 ≤ offsetindex it < Z.of_nat n →
  0 ≤ u < 2 ^ 15 → lo = linp_at (Z.of_nat n) →
  ∃ q, (lp ← PageGetItemId (offsetindex it + 1); PageSetItemId (offsetindex it + 1) (with_off u lp)) p = (q, Ok tt)
  ∧ same_except 24 lo p q ∧ linp q (offsetindex it) = with_off u (linp p (offsetindex it))
  ∧ ∀ i, 0 ≤ i < Z.of_nat n → i ≠ offsetindex it → linp q i = linp p i.
Proof.
  intros Hp Hn Hi Hu ->. rewrite (bind_ok _ _ _ _ _ (run_get_item p (offsetindex it) Hp ltac:(lia) ltac:(page_lia))).
  eexists. split; [apply run_set_item; [done|lia|page_lia]|].
  assert (same_except (linp_at (offsetindex it)) (linp_at (offsetindex it + 1)) p
    (put_linp (offsetindex it) (with_off u (linp p (offsetindex it))) p)) as Sq
    by (apply put_linp_same_except; [done|lia|page_lia]).
  split_and!.
  - eapply same_except_weaken; [| |done]; page_lia.
  - apply put_linp_same; [done|lia|page_lia|]. destruct (linp_fits p (offsetindex it)) as (_ & ? & ?). done.
  - intros i ? ?. eapply same_except_linp; [done|done|page_lia..].
Qed.

(** The first half of an iteration: the pending chunk is copied out if the item
    does not continue it.  In both cases the chunk that is pending next starts
    with the item. *)
Lemma pending_step orig lo scratch p u t h it items : sized orig → sized p → 24 ≤ lo →
  source_ok orig lo scratch p u t h (it :: items) → 0 ≤ h ≤ t → t ≤ BLCKSZ → u + (t - h) ≤ BLCKSZ →
  0 ≤ itemoff it → item_end it ≤ BLCKSZ → 0 < alignedlen it → lo ≤ u - alignedlen it →
  ∃ p1 t1, (if negb (h =? item_end it) then copy_pending scratch u h t ;; mret (item_end it) else mret t) p
      = (p1, Ok t1) ∧ sized p1 ∧ item_end it ≤ t1 ≤ BLCKSZ
  ∧ u - alignedlen it + (t1 - itemoff it) ≤ u + (t - h)
  ∧ (∀ i, 0 ≤ i → ¬ u ≤ i < u + (t - h) → peek p1 i = peek p i)
  ∧ (∀ p2, same_except 24 lo p1 p2 → source_ok orig lo scratch p2 (u - alignedlen it) t1 (itemoff it) items)
  ∧ ((h = item_end it ∧ t1 = t) ∨ (t1 = item_end it ∧ ∀ k, 0 ≤ k < t - h → peek p1 (u + k) = peek orig (h + k))).
Proof.
  unfold item_end. intros. destruct (Z.eqb_spec h (itemoff it + alignedlen it)) as [Eh|Hne]; cbn [negb].
  - exists p, t. split_and!; try done; try lia.
    intros p2 S2. eapply source_ok_tail; try done; lia.
  - destruct (copy_pending_spec orig lo scratch p u t h (it :: items)) as (q & E & Sq & Hq); try done; try lia.
    exists q, (itemoff it + alignedlen it).
    split_and!; try lia; [by rewrite (bind_ok _ _ _ _ _ E)|by eapply same_except_sized| | |].
    + intros i ? ?. apply Sq; lia.
    + intros p2 S2. eapply (source_ok_flush orig lo scratch p u t h); try done; try lia.
      intros i ? ? ?. rewrite (proj2 S2), (proj2 Sq) by lia. done.
    + by right.
Qed.

(** The second half: the item's line pointer is redirected and the loop goes on.
    What it does to the remaining items, [C], extends to the item itself. *)
Lemma compacted_cons orig n p p1 p2 q u t h t1 it items : linp_at (Z.of_nat n) ≤ BLCKSZ →
  sized p → sized p1 → Forall (within n 0 BLCKSZ) items → 0 ≤ offsetindex it < Z.of_nat n →
  offsetindex it ∉ indexes items → 0 < alignedlen it → 0 ≤ itemoff it →
  linp_at (Z.of_nat n) + (alignedlen it + total_len items) ≤ u → 0 ≤ h ≤ t → item_end it ≤ t1 →
  u - alignedlen it + (t1 - itemoff it) ≤ u + (t - h) →
  (∀ i, 0 ≤ i → ¬ u ≤ i < u + (t - h) → peek p1 i = peek p i) →
  same_except 24 (linp_at (Z.of_nat n)) p1 p2 →
  linp p2 (offsetindex it) = with_off (u - alignedlen it) (linp p1 (offsetindex it)) →
  (∀ i, 0 ≤ i < Z.of_nat n → i ≠ offsetindex it → linp p2 i = linp p1 i) →
  compacted orig n p2 q (u - alignedlen it) (u - alignedlen it + (t1 - itemoff it)) items →
  (∀ k, 0 ≤ k < t1 - itemoff it → peek q (u - alignedlen it + k) = peek orig (itemoff it + k)) →
  compacted orig n p q u (u + (t - h)) (it :: items).
Proof.
  intros Hn Hp Hp1 Hin Hidx Hnot Hlen Hoff Hu Hht Ht1 HD Hout S2 Hl Hl' [L O D N X] Hq.
  pose proof (total_len_nonneg _ _ _ _ Hin) as Htot. unfold item_end in *.
  assert (∀ i, 0 ≤ i < Z.of_nat n → linp p1 i = linp p i) as Hp1l.
  { intros i Hi. apply linp_ext; [done..|lia|lia|page_lia|page_lia|]. intros k Hk. apply Hout; page_lia. }
  split.
  - unfold sized in *. rewrite L, (proj1 S2). congruence.
  - intros i ? ? Hni. simpl in Hni. change (foldr _ 0 items) with (total_len items) in Hni.
    rewrite O, (proj2 S2), Hout by lia. done.
  - intros [|j] it' T k Hit HT Hk; simpl in *; [|by eapply D].
    injection Hit as <-. injection HT as <-. apply Hq. lia.
  - intros [|j] it' T Hit HT; simpl in *.
    + injection Hit as <-. injection HT as <-. rewrite X, Hl, Hp1l by done. done.
    + rewrite (N j it' T Hit HT). f_equal.
      apply (Forall_lookup_1 _ _ _ _ Hin) in Hit as Hw. destruct Hw as [Hi _ _ _].
      rewrite Hl', Hp1l; [done|done|done|]. intros Heq. apply Hnot. rewrite <-Heq.
      apply list_elem_of_fmap. exists it'. split; [done|]. by eapply list_elem_of_lookup_2.
  - intros i Hi Hni. apply not_elem_of_cons in Hni as [??]. rewrite X, Hl', Hp1l by done. done.
Qed.

Lemma compact_loop_spec orig n scratch items : sized orig → linp_at (Z.of_nat n) ≤ BLCKSZ →
  Forall (within n 0 BLCKSZ) items → NoDup (indexes items) →
  ∀ p u t h, sized p → 0 ≤ h ≤ t → t ≤ BLCKSZ → linp_at (Z.of_nat n) + total_len items ≤ u →
  u + (t - h) ≤ BLCKSZ → source_ok orig (linp_at (Z.of_nat n)) scratch p u t h items →
  ∃ q, compact_loop scratch items u t h p = (q, Ok (u - total_len items))
  ∧ compacted orig n p q u (u + (t - h)) items
  ∧ ∀ k, 0 ≤ k < t - h → peek q (u + k) = peek orig (h + k).
Proof.
  intros Ho Hn Hin Hnd. pose proof (linp_at_ge (Z.of_nat n) ltac:(lia)) as Hlo.
  induction items as [|it items IH]; intros p u t h Hp Hht Ht Hu HD Hsrc; cbn [total_len foldr] in *.
  { destruct (copy_pending_spec orig (linp_at (Z.of_nat n)) scratch p u t h []) as (q & E & Sq & Hq); try done; try lia.
    exists q. rewrite Z.sub_0_r. split_and!; [simpl; by rewrite (bind_ok _ _ _ _ _ E)| |done].
    split; [by apply Sq| |done..|].
    - intros i ? ? ?. apply Sq; [done|]. simpl in *. lia.
    - intros i ? _. eapply same_except_linp; [done|done|page_lia..]. }
  apply list.Forall_cons in Hin as [[Hidx Hoff Hend Hlen] Hin]. apply NoDup_cons in Hnd as [Hnot Hnd].
  pose proof (total_len_nonneg _ _ _ _ Hin) as Htot. change (foldr _ 0 items) with (total_len items) in *.
  destruct (pending_step orig (linp_at (Z.of_nat n)) scratch p u t h it items)
    as (p1 & t1 & E1 & Hp1 & Ht1 & HD1 & Hout1 & Hsrc1 & Hcase); try done; try lia.
  destruct (redirect_spec p1 n it (u - alignedlen it) (linp_at (Z.of_nat n))) as (p2 & E2 & S2 & Hl2 & Hl2');
    try done; [unfold BLCKSZ in *; lia|].
  unfold item_end in *.
  destruct (IH Hin Hnd p2 (u - alignedlen it) t1 (itemoff it)) as (q & E & C & Hq); try lia;
    [by eapply same_except_sized|by apply Hsrc1|].
  exists q. split_and!.
  - cbn [compact_loop]. rewrite (bind_ok _ _ _ _ _ E1). rewrite <-bind_assoc, (bind_ok _ _ _ _ _ E2), E.
    do 2 f_equal. lia.
  - eapply (compacted_cons orig n p p1 p2 q u t h t1); try done; unfold item_end; lia.
  - intros k Hk. destruct Hcase as [[-> ->]|[-> Hflush]].
    + replace (u + k) with (u - alignedlen it + (alignedlen it + k)) by lia. rewrite Hq by (unfold item_end; lia).
      f_equal. unfold item_end. lia.
    + rewrite (cp_out _ _ _ _ _ _ _ C), (proj2 S2) by (unfold item_end in *; lia). by apply Hflush.
Qed.

(** ** Items already in place *)

Lemma total_len_app l k : total_len (l ++ k) = total_len l + total_len k.
Proof. induction l as [|it l IH]; simpl; [done|]. change (foldr _ 0 (l ++ k)) with (total_len (l ++ k)).
  rewrite IH. change (foldr _ 0 l) with (total_len l). lia. Qed.

Lemma targets_app l k u : targets (l ++ k) u = targets l u ++ targets k (u - total_len l).
Proof.
  revert u. induction l as [|it l IH]; intros u; simpl; [by rewrite Z.sub_0_r|].
  rewrite IH. do 3 f_equal. change (foldr _ 0 l) with (total_len l). lia.
Qed.

Lemma length_targets l u : length (targets l u) = length l.
Proof. revert u. induction l; intros; simpl; auto. Qed.

(** An item that ends at [u] bounds all the others. *)
Lemma below_placed n lo u it items : item_end it = u → 0 < alignedlen it → Forall (within n lo u) items →
  Forall (disj it) items → Forall (within n lo (itemoff it)) items.
Proof.
  intros He Hl Hin Hd. apply list.Forall_forall. intros x Hx.
  rewrite list.Forall_forall in Hin, Hd. destruct (Hin x Hx) as [? ? ? ?]. specialize (Hd x Hx).
  unfold disj, item_end in *. split; unfold item_end; lia.
Qed.

Definition in_place (pre : list itemIdCompactData) (u : Z) : Prop :=
  ∀ j it T, pre !! j = Some it → targets pre u !! j = Some T → T = itemoff it.

Lemma skip_placed_spec n lo items u ptr : Forall (within n lo u) items → pairwise items → lo ≤ u →
  let '(rest, u', ptr') := skip_placed items u ptr in
  ∃ pre, items = pre ++ rest ∧ u' = u - total_len pre ∧ in_place pre u ∧ lo ≤ u' ∧ Forall (within n u' u) pre
  ∧ Forall (within n lo u') rest ∧ pairwise rest ∧ ((∃ k, rest = ptr' :: k) ∨ (rest = [] ∧ ptr' ∈ ptr :: items)).
Proof.
  revert u ptr. induction items as [|it items IH]; intros u ptr Hin Hpw Hlo; simpl.
  { exists []. simpl. rewrite Z.sub_0_r. split_and!; try done. right. split; [done|]. by left. }
  destruct (Z.eqb_spec u (item_end it)) as [Eu|Hne]; cbn [negb].
  2: { exists []. simpl. rewrite Z.sub_0_r. split_and!; try done; [by inversion Hpw..|]. left. by eexists. }
  apply list.Forall_cons in Hin as [[? ? ? ?] Hin]. destruct Hpw as [Hd Hpw].
  pose proof (below_placed n lo u it items ltac:(done) ltac:(done) Hin Hd) as Hin'.
  assert (u - alignedlen it = itemoff it) as E by (unfold item_end in *; lia). rewrite E.
  specialize (IH (itemoff it) it Hin' Hpw ltac:(lia)).
  destruct (skip_placed items (itemoff it) it) as [[rest u'] ptr'].
  destruct IH as (pre & -> & -> & Hpl & ? & Hpre & ? & ? & Hptr). exists (it :: pre).
  pose proof (total_len_nonneg _ _ _ _ Hpre). split_and!; try done.
  - simpl. change (foldr _ 0 pre) with (total_len pre). lia.
  - intros [|j] x T Hx HT; simpl in *; [by simplify_eq|]. rewrite E in HT. by eapply Hpl.
  - simpl. change (foldr _ 0 pre) with (total_len pre). replace (u - (alignedlen it + total_len pre)) with (itemoff it - total_len pre) by lia.
    constructor; [split; lia|]. eapply list.Forall_impl; [done|]. intros x []. split; lia.
  - destruct Hptr as [?|[? Hel]]; [by left|right]. split; [done|]. by right.
Qed.

(** Skipped items count as moved to where they are. *)
Lemma compacted_skip n p q u u' hi pre rest : compacted p n p q u' u' rest → in_place pre u → u' = u - total_len pre →
  u ≤ hi → Forall (within n u' u) pre → linp_at (Z.of_nat n) ≤ u' → NoDup (indexes (pre ++ rest)) →
  Forall (λ it, lp_off (linp p (offsetindex it)) = itemoff it) pre →
  compacted p n p q u hi (pre ++ rest).
Proof.
  intros [L O D N X] Hpl Hu' Hhi Hin Hlo Hnd Hoff. pose proof (total_len_nonneg _ _ _ _ Hin).
  pose proof (linp_at_ge (Z.of_nat n) ltac:(lia)).
  unfold indexes in Hnd. rewrite fmap_app in Hnd. apply NoDup_app in Hnd as (_ & Hnd & _).
  assert (∀ j it T, (pre ++ rest) !! j = Some it → targets (pre ++ rest) u !! j = Some T →
    (pre !! j = Some it ∧ T = itemoff it) ∨ (∃ i, rest !! i = Some it ∧ targets rest u' !! i = Some T)) as Hcase.
  { intros j it T Hj HT. rewrite targets_app, <-Hu' in HT. destruct (decide (j < length pre)%nat).
    - rewrite lookup_app_l in Hj by done. rewrite lookup_app_l in HT by (by rewrite length_targets).
      left. split; [done|]. by eapply Hpl.
    - rewrite lookup_app_r in Hj by lia. rewrite lookup_app_r, length_targets in HT by (rewrite length_targets; lia).
      right. eauto. }
  split.
  - done.
  - intros i ? ? Hni. rewrite total_len_app in Hni. apply O; lia.
  - intros j it T k Hj HT Hk. destruct (Hcase j it T Hj HT) as [[Hj' ->]|(i & ? & ?)]; [|by eapply D].
    destruct (Forall_lookup_1 _ _ _ _ Hin Hj'). apply O; lia.
  - intros j it T Hj HT. destruct (Hcase j it T Hj HT) as [[Hj' ->]|(i & ? & ?)]; [|by eapply N].
    rewrite X; [| |apply Hnd, list_elem_of_fmap; exists it; split; [done|by eapply list_elem_of_lookup_2]].
    + pose proof (Forall_lookup_1 _ _ _ _ Hoff Hj') as Ho. cbv beta in Ho. rewrite <-Ho.
      by destruct (linp p (offsetindex it)).
    + by destruct (Forall_lookup_1 _ _ _ _ Hin Hj').
  - intros i ? Hni. apply X; [done|]. intros Hi. apply Hni. unfold indexes. rewrite fmap_app.
    apply elem_of_app. by right.
Qed.

(** ** The scratch block *)

(** The bytes of the block that were written are those of the page. *)
Definition copied (p : Page) (s : scratch_block) (i : Z) : Prop := peek s i = Some <$> peek p i.

Lemma scratch_write_spec p s o n : sized p → length s = Z.to_nat BLCKSZ → 0 ≤ o → 0 ≤ n → o + n ≤ BLCKSZ →
  ∃ s', (l ← load o n; lift_result (scratch_write o l s)) p = (p, Ok s') ∧ length s' = Z.to_nat BLCKSZ
  ∧ (∀ i, 0 ≤ i → copied p s i → copied p s' i) ∧ (∀ i, o ≤ i < o + n → copied p s' i).
Proof.
  unfold sized, load. intros Hp Hs ? ? ?. rewrite in_block_true by lia. unfold mbind, M_bind, gets, lift_result, scratch_write.
  assert (Z.of_nat (length (slice o n p)) = n) as L by (rewrite length_slice; lia).
  rewrite L, in_block_true by lia. eexists. split; [done|].
  assert (∀ i, o ≤ i < o + n → copied p (blit o (Some <$> slice o n p) s) i) as Hin.
  { intros i Hi. unfold copied. rewrite peek_blit by (rewrite ?length_fmap; lia).
    rewrite length_fmap, L, decide_True by lia. unfold peek at 1. rewrite list_lookup_fmap.
    change (slice o n p !! Z.to_nat (i - o)) with (peek (slice o n p) (i - o)).
    rewrite peek_slice by lia. do 2 f_equal. lia. }
  split_and!; [rewrite length_blit; rewrite ?length_fmap; lia| |done].
  intros i Hi Hc. destruct (decide (o ≤ i < o + n)); [by apply Hin|].
  unfold copied. rewrite peek_blit by (rewrite ?length_fmap; lia). by rewrite length_fmap, L, decide_False.
Qed.

Lemma scratch_items_spec n p items s : sized p → length s = Z.to_nat BLCKSZ →
  Forall (within n 0 BLCKSZ) items →
  ∃ s', scratch_items items s p = (p, Ok s') ∧ length s' = Z.to_nat BLCKSZ
  ∧ (∀ i, 0 ≤ i → copied p s i → copied p s' i)
  ∧ Forall (λ it, ∀ i, itemoff it ≤ i < item_end it → copied p s' i) items.
Proof.
  intros Hp. revert s. induction items as [|it items IH]; intros s Hs Hin; simpl; [by exists s|].
  apply list.Forall_cons in Hin as [[? ? ? ?] Hin]. unfold item_end in *.
  destruct (scratch_write_spec p s (itemoff it) (alignedlen it)) as (s1 & E1 & Hs1 & Hold & Hnew); try done; [lia|].
  destruct (IH s1 Hs1 Hin) as (s2 & E2 & Hs2 & Hold2 & Hall). exists s2. split_and!; [|done|auto|].
  - rewrite <-bind_assoc. by rewrite (bind_ok _ _ _ _ _ E1).
  - constructor; [|done]. intros i Hi. apply Hold2; [lia|]. by apply Hnew.
Qed.

(** ** The whole routine *)

(** The loop from the first item out of place on. *)
Lemma loop_rest n p scratch rest u ptr : sized p → linp_at (Z.of_nat n) ≤ BLCKSZ → u ≤ BLCKSZ →
  Forall (within n (linp_at (Z.of_nat n)) u) rest → NoDup (indexes rest) → linp_at (Z.of_nat n) + total_len rest ≤ u →
  ((∃ k, rest = ptr :: k) ∨ (rest = [] ∧ 0 ≤ item_end ptr ≤ BLCKSZ)) →
  match scratch with
  | None => descending (linp_at (Z.of_nat n)) u rest
  | Some s => length s = Z.to_nat BLCKSZ ∧ Forall (λ it, ∀ i, itemoff it ≤ i < item_end it → copied p s i) rest
  end →
  ∃ q, compact_loop scratch rest u (item_end ptr) (item_end ptr) p = (q, Ok (u - total_len rest))
  ∧ compacted p n p q u u rest.
Proof.
  intros Hp Hn Hu Hin Hnd Hfit Hptr Hsrc. pose proof (linp_at_ge (Z.of_nat n) ltac:(lia)) as Hlo.
  pose proof (total_len_nonneg _ _ _ _ Hin) as Htot.
  assert (0 ≤ item_end ptr ≤ BLCKSZ) as Hend.
  { destruct Hptr as [[k ->]|[_ ?]]; [|done]. apply list.Forall_cons in Hin as [[? ? ? ?] _]. unfold item_end in *. lia. }
  destruct (decide (rest = [] ∧ scratch = None)) as [[-> ->]|Hne].
  { destruct (memmove_spec p u (item_end ptr) 0) as (q & E & Sq & _); [done|simpl in *; lia..|].
    exists q. simpl. rewrite Z.sub_diag, Z.sub_0_r, (bind_ok _ _ _ _ _ E). split; [done|].
    split; [by apply Sq|intros; apply Sq; lia|done..|].
    intros i Hi _. eapply same_except_linp; [done|done|lia|page_lia|]. simpl in *. page_lia. }
  destruct (compact_loop_spec p n scratch rest Hp Hn) with p u (item_end ptr) (item_end ptr) as (q & E & C & _);
    try done; try lia.
  - eapply list.Forall_impl; [done|]. intros x []. split; lia.
  - destruct scratch as [s|]; simpl.
    + destruct Hsrc as [? ?]. split_and!; [done|lia|done].
    + destruct Hptr as [[k ->]|[-> _]]; [|naive_solver]. destruct Hsrc as (? & ? & ?).
      apply list.Forall_cons in Hin as [[? ? ? ?] _]. unfold item_end in *. split_and!; done || lia.
  - exists q. split; [done|]. by rewrite Z.sub_diag, Z.add_0_r in C.
Qed.

Lemma descending_app lo hi l k : descending lo hi (l ++ k) → in_place l hi → descending lo (hi - total_len l) k.
Proof.
  revert hi. induction l as [|it l IH]; intros hi; simpl; [by rewrite Z.sub_0_r|].
  intros (? & ? & Hd) Hpl. change (foldr _ 0 l) with (total_len l).
  pose proof (Hpl 0%nat it _ eq_refl eq_refl) as E. rewrite <-E in Hd.
  replace (hi - (alignedlen it + total_len l)) with (hi - alignedlen it - total_len l) by lia. apply IH; [done|].
  intros j x T Hx HT. by apply (Hpl (S j)).
Qed.

Lemma descending_weaken lo lo' hi l : lo' ≤ lo → descending lo hi l → descending lo' hi l.
Proof. revert hi. induction l as [|it l IH]; intros hi; simpl; [done|]. intros ? (? & ? & ?). split_and!; auto; lia. Qed.

Section compactify.
Context (p : Page) (n : nat) (items : list itemIdCompactData) (presorted : bool).
Context (Hp : sized p) (Hn : pd_lower p = linp_at (Z.of_nat n)).
Context (Hlu : pd_lower p ≤ pd_upper p) (Hus : pd_upper p ≤ pd_special p) (Hsb : pd_special p ≤ BLCKSZ).
Context (Hne : items ≠ []) (Hin : Forall (within n (pd_upper p) (pd_special p)) items).
Context (Hpw : pairwise items) (Hnd : NoDup (indexes items)).
Context (Hoff : Forall (λ it, lp_off (linp p (offsetindex it)) = itemoff it) items).
Context (Hpre : presorted = true → descending (pd_upper p) (pd_special p) items).
Context (Hfit : total_len items ≤ pd_special p - pd_lower p).

(** The branches that skip: [copy] fetches what the loop reads. *)
Lemma skip_branch (copy : Z → M Page (option scratch_block)) it0 : it0 ∈ items →
  (∀ u pre rest, items = pre ++ rest → in_place pre (pd_special p) → u = pd_special p - total_len pre →
     pd_upper p ≤ u → Forall (within n (pd_upper p) u) rest →
     ∃ scratch, copy u p = (p, Ok scratch) ∧
     match scratch with
     | None => descending (linp_at (Z.of_nat n)) u rest
     | Some s => length s = Z.to_nat BLCKSZ ∧ Forall (λ it, ∀ i, itemoff it ≤ i < item_end it → copied p s i) rest
     end) →
  ∃ q, (let '(rest, upper, itemidptr) := skip_placed items (pd_special p) it0 in
        scratch ← copy upper;
        compact_loop scratch rest upper (item_end itemidptr) (item_end itemidptr)) p
       = (q, Ok (pd_special p - total_len items))
  ∧ compacted p n p q (pd_special p) (pd_special p) items.
Proof.
  intros Hit0 Hcopy. pose proof (skip_placed_spec n (pd_upper p) items (pd_special p) it0 Hin Hpw Hus) as Hskip.
  destruct (skip_placed items (pd_special p) it0) as [[rest u] ptr].
  destruct Hskip as (pre & Eit & Eu & Hpl & Hlo & Hpr & Hrest & _ & Hptr).
  destruct (Hcopy u pre rest Eit Hpl Eu Hlo Hrest) as (scratch & Ec & Hsrc).
  pose proof (total_len_nonneg _ _ _ _ Hpr). pose proof (linp_at_ge (Z.of_nat n) ltac:(lia)).
  rewrite (bind_ok _ _ _ _ _ Ec).
  rewrite Eit in Hnd, Hoff, Hfit. rewrite total_len_app in Hfit.
  destruct (loop_rest n p scratch rest u ptr) as (q & E & C); try done; try lia.
  - eapply list.Forall_impl; [done|]. intros x []. split; lia.
  - unfold indexes in *. rewrite fmap_app in Hnd. by apply NoDup_app in Hnd as (_ & _ & ?).
  - destruct Hptr as [?|[-> Hel]]; [by left|right]. split; [done|].
    assert (ptr ∈ items) as Hel' by (by apply elem_of_cons in Hel as [->|?]).
    rewrite list.Forall_forall in Hin. destruct (Hin ptr Hel'). unfold item_end in *. lia.
  - exists q. rewrite E. split; [rewrite Eit, total_len_app; do 2 f_equal; lia|]. rewrite Eit.
    eapply compacted_skip; try done; try lia. by apply Forall_app in Hoff as [? _].
Qed.

Lemma compactify_spec : ∃ q, compactify_tuples items presorted p
    = (put16 14 (pd_special p - total_len items) q, Ok tt)
  ∧ compacted p n p q (pd_special p) (pd_special p) items.
Proof.
  assert (∃ it0 items0, items = it0 :: items0) as (it0 & items0 & Eitems) by (destruct items; [done|eauto]).
  assert (it0 ∈ items) as Hit0 by (rewrite Eitems; by left).
  enough (∃ q, (if presorted then
      let '(rest, upper, itemidptr) := skip_placed items (pd_special p) it0 in
      compact_loop None rest upper (item_end itemidptr) (item_end itemidptr)
    else if Z.of_nat (length items) <? PageGetMaxOffsetNumber p / 4 then
      s ← scratch_items items scratch_new;
      compact_loop (Some s) items (pd_special p) (item_end it0) (item_end it0)
    else
      let '(rest, upper, itemidptr) := skip_placed items (pd_special p) it0 in
      l ← load (pd_upper p) (upper - pd_upper p);
      s ← lift_result (scratch_write (pd_upper p) l scratch_new);
      compact_loop (Some s) rest upper (item_end itemidptr) (item_end itemidptr)) p
    = (q, Ok (pd_special p - total_len items)) ∧ compacted p n p q (pd_special p) (pd_special p) items) as (q & E & C).
  { exists q. split; [|done]. rewrite Eitems at 1. cbn [compactify_tuples]. rewrite <-Eitems.
    unfold mbind at 1, M_bind at 1, get. by rewrite (bind_ok _ _ _ _ _ E). }
  pose proof (linp_at_ge (Z.of_nat n) ltac:(lia)) as Hlo.
  assert (length scratch_new = Z.to_nat BLCKSZ) as Hnew by apply length_replicate.
  case_eq presorted; intros Epre; [|destruct (Z.of_nat (length items) <? PageGetMaxOffsetNumber p / 4)].
  - destruct (skip_branch (λ _, mret None) it0 Hit0) as (q & E & C).
    { intros u pre rest Eit Hpl Eu Hu Hrest. exists None. split; [done|]. rewrite Eu. apply descending_app; [|done].
      rewrite <-Eit. eapply descending_weaken; [|by apply Hpre]. lia. }
    exists q. split; [|done]. rewrite <-E. by destruct (skip_placed items (pd_special p) it0) as [[rest u] ptr].
  - destruct (scratch_items_spec n p items scratch_new Hp Hnew) as (s & E & Hs & _ & Hall).
    { eapply list.Forall_impl; [exact Hin|]. intros x []. split; lia. }
    rewrite (bind_ok _ _ _ _ _ E). apply loop_rest; try done; try lia; [|left; by exists items0].
    eapply list.Forall_impl; [exact Hin|]. intros x []. split; lia.
  - destruct (skip_branch (λ upper, l ← load (pd_upper p) (upper - pd_upper p);
        s ← lift_result (scratch_write (pd_upper p) l scratch_new); mret (Some s)) it0 Hit0) as (q & E & C).
    { intros u pre rest Eit Hpl Eu Hu Hrest.
      destruct (scratch_write_spec p scratch_new (pd_upper p) (u - pd_upper p)) as (s & E & Hs & _ & Hc); try done; try lia.
      { assert (0 ≤ total_len pre); [|lia]. eapply (total_len_nonneg n (pd_upper p) (pd_special p)).
        rewrite Eit in Hin. by apply Forall_app in Hin as [? _]. }
      exists (Some s). split; [|split; [done|]].
      - rewrite <-bind_assoc. by rewrite (bind_ok _ _ _ _ _ E).
      - eapply list.Forall_impl; [exact Hrest|]. intros x [] i Hi. apply Hc. lia. }
    exists q. split; [|done]. rewrite <-E. destruct (skip_placed items (pd_special p) it0) as [[rest u] ptr].
    rewrite bind_assoc. unfold mbind, M_bind. destruct (load (pd_upper p) (u - pd_upper p) p) as [p1 [l|e]]; [|done].
    by destruct (lift_result (scratch_write (pd_upper p) l scratch_new) p1) as [p2 [s|e]].
Qed.

End compactify.
