(* ===== verification/PageRepair.v ===== *)
(** * Repair of a heap page

    [PageRepairFragmentation] follows pruning on a heap page: it compacts the
    data, cuts the unused line pointers off the end of the array and sets the
    hint.  What compaction does to a whole page is stated once, for this routine
    and for the deletion of many index tuples in [PageMulti]; the setting of
    single line pointers, which pruning does before the repair, is here too. *)

From S2P Require Import Prelude PageMem BufPage PageInv PageIndex PageCompact.
From stdpp Require Import base tactics list numbers strings.
From Stdlib Require Import ZArith Lia.

Open Scope Z_scope.

(** ** From line pointers to items *)

Fixpoint collect (i : Z) (L : list ItemIdData) : list itemIdCompactData :=
  match L with
  | [] => []
  | a :: L' =>
      if ItemIdHasStorage a then mkCompact i (lp_off a) (alen a) :: collect (i + 1) L'
      else collect (i + 1) L'
  end.

(** The line pointers once the data is compacted below [u]. *)
Fixpoint retarget (L : list ItemIdData) (u : Z) : list ItemIdData :=
  match L with
  | [] => []
  | a :: L' =>
      if ItemIdHasStorage a then with_off (u - alen a) a :: retarget L' (u - alen a)
      else a :: retarget L' u
  end.

Definition used_space (its : list item) : Z := foldr (λ it z, item_space it + z) 0 its.

(** The free space of a page that holds the items and has no gaps. *)
Definition room (a : apage) (its : list item) : Z :=
  BLCKSZ - SizeOfPageHeaderData - Z.of_nat (length (ap_special a)) - 4 * Z.of_nat (length its) - used_space its.

Fixpoint strictly_descending (last : Z) (items : list itemIdCompactData) : Prop :=
  match items with
  | [] => True
  | it :: items' => itemoff it < last ∧ strictly_descending (itemoff it) items'
  end.

Lemma length_retarget L u : length (retarget L u) = length L.
Proof. revert u. induction L as [|a L IH]; intros u; simpl; [done|]. by case_match; simpl; rewrite IH. Qed.

Lemma elem_of_collect i L it : it ∈ collect i L ↔
  ∃ j a, L !! j = Some a ∧ ItemIdHasStorage a = true ∧ it = mkCompact (i + Z.of_nat j) (lp_off a) (alen a).
Proof.
  revert i. induction L as [|a L IH]; intros i; simpl.
  { split; [by intros ?%elem_of_nil|]. by intros (j & a & ? & _). }
  assert (it ∈ collect (i + 1) L ↔ ∃ j b, L !! j = Some b ∧ ItemIdHasStorage b = true
    ∧ it = mkCompact (i + Z.of_nat (S j)) (lp_off b) (alen b)) as Htl.
  { rewrite IH. split; intros (j & b & ? & ? & ->); exists j, b; split_and!; try done; f_equal; lia. }
  destruct (ItemIdHasStorage a) eqn:Es.
  - rewrite elem_of_cons, Htl. split.
    + intros [->|(j & b & ? & ? & ?)]; [exists 0%nat, a|exists (S j), b]; split_and!; try done. f_equal. lia.
    + intros ([|j] & b & Hb & ? & ->); [left|right; eauto]. injection Hb as <-. f_equal. lia.
  - rewrite Htl. split.
    + intros (j & b & ? & ? & ?). by exists (S j), b.
    + intros ([|j] & b & Hb & ? & ->); [injection Hb as <-; congruence|eauto].
Qed.

(** Each stored line pointer, its entry in the array of items and its target. *)
Lemma collect_target i L u j a : L !! j = Some a →
  if ItemIdHasStorage a then
    ∃ m T, collect i L !! m = Some (mkCompact (i + Z.of_nat j) (lp_off a) (alen a))
    ∧ targets (collect i L) u !! m = Some T ∧ retarget L u !! j = Some (with_off T a)
  else retarget L u !! j = Some a.
Proof.
  revert i u j. induction L as [|b L IH]; intros i u [|j] Ha; simpl in *; try done.
  - injection Ha as ->. destruct (ItemIdHasStorage a); [|done].
    exists 0%nat, (u - alen a). simpl. split_and!; try done. do 2 f_equal. lia.
  - replace (i + Z.of_nat (S j)) with (i + 1 + Z.of_nat j) by lia.
    destruct (ItemIdHasStorage b).
    + specialize (IH (i + 1) (u - alen b) j Ha). destruct (ItemIdHasStorage a); [|done].
      destruct IH as (m & T & ? & ? & ?). by exists (S m), T.
    + exact (IH (i + 1) u j Ha).
Qed.

Lemma NoDup_collect i L : NoDup (indexes (collect i L)).
Proof.
  revert i. induction L as [|a L IH]; intros i; simpl; [constructor|].
  destruct (ItemIdHasStorage a); [|apply IH]. simpl. constructor; [|apply IH].
  intros (it & Heq & Hel)%list_elem_of_fmap. apply elem_of_collect in Hel as (j & b & _ & _ & ->).
  simpl in Heq. lia.
Qed.

Section layouts.
Context (u s : Z) (L : list ItemIdData) (HL : layout u s L) (Hfit : all_fit L).

Lemma collect_within i n : i + Z.of_nat (length L) ≤ Z.of_nat n → 0 ≤ i → Forall (within n u s) (collect i L).
Proof.
  intros. apply list.Forall_forall. intros it (j & a & Ha & Hs & ->)%elem_of_collect.
  pose proof (lookup_lt_Some _ _ _ Ha). destruct (lay_placed _ _ _ HL j a Ha Hs).
  pose proof (alen_pos a (Hfit j a Ha) Hs). split; unfold item_end, lp_end in *; simpl; lia.
Qed.

End layouts.

Lemma collect_pairwise u s L i : layout u s L → pairwise (collect i L).
Proof.
  revert i. induction L as [|a L IH]; intros i HL; simpl; [done|].
  assert (layout u s L) as HL'.
  { eapply (layout_embed u s (a :: L) L S); [done|auto|lia]. }
  destruct (ItemIdHasStorage a) eqn:Es; [|by apply IH]. split; [|by apply IH].
  apply list.Forall_forall. intros it (j & b & Hb & Hs & ->)%elem_of_collect.
  apply (lay_apart _ _ _ HL 0%nat (S j) a b); done.
Qed.

(** Descending offsets of items that do not overlap descend as areas. *)
Lemma strictly_descending_areas n lo hi items : Forall (within n lo hi) items → pairwise items →
  strictly_descending hi items → descending lo hi items.
Proof.
  revert hi. induction items as [|it items IH]; intros hi Hin Hpw Hd; simpl in *; [done|].
  apply list.Forall_cons in Hin as [[? ? ? ?] Hin]. destruct Hpw as [Hdj Hpw], Hd as [? Hd].
  split_and!; [done..|]. apply IH; [|done..]. clear IH Hpw. revert Hd Hin Hdj.
  enough (∀ last, last ≤ itemoff it → strictly_descending last items → Forall (within n lo hi) items →
    Forall (disj it) items → Forall (within n lo (itemoff it)) items) by eauto using Z.le_refl.
  induction items as [|x items IH']; intros last Hl Hd Hin Hdj; [constructor|].
  apply list.Forall_cons in Hin as [[? ? ? ?] Hin]. apply list.Forall_cons in Hdj as [Hx Hdj].
  destruct Hd as [? Hd]. constructor; [|apply (IH' (itemoff x)); done || lia].
  unfold disj, item_end in *. split; unfold item_end; lia.
Qed.

(** Areas that do not overlap fit into what contains them. *)
Lemma packing n lo hi items : Forall (within n lo hi) items → pairwise items → lo ≤ hi → total_len items ≤ hi - lo.
Proof.
  intros Hin Hpw Hlo. set (cells := items ≫= λ it, seqZ (itemoff it) (alignedlen it)).
  assert (total_len items = Z.of_nat (length cells)) as ->.
  { subst cells. clear Hpw. induction Hin as [|it items [] _ IH]; [done|].
    rewrite bind_cons, length_app, length_seqZ. cbn [total_len foldr]. change (foldr _ 0 items) with (total_len items). rewrite IH. lia. }
  assert (∀ l, Forall (within n lo hi) l → ∀ z, z ∈ (l ≫= λ it, seqZ (itemoff it) (alignedlen it)) →
    ∃ it, it ∈ l ∧ itemoff it ≤ z < item_end it) as Hel.
  { intros l _ z (it & Hz & Hit)%list_elem_of_bind. apply elem_of_seqZ in Hz. exists it. unfold item_end. by split; [|lia]. }
  assert (NoDup cells) as Hnd.
  { subst cells. induction items as [|it items IH]; [constructor|]. rewrite bind_cons.
    apply list.Forall_cons in Hin as [_ Hin]. destruct Hpw as [Hd Hpw]. apply NoDup_app. split_and!; [apply NoDup_seqZ| |by apply IH].
    intros z Hz (x & Hx & Hr)%(Hel items Hin). apply elem_of_seqZ in Hz. rewrite list.Forall_forall in Hd.
    specialize (Hd x Hx). unfold disj, item_end in *. lia. }
  assert (cells ⊆+ seqZ lo (hi - lo)) as Hsub%submseteq_length.
  { apply NoDup_submseteq; [done|]. intros z (it & Hit & Hr)%(Hel items Hin). rewrite list.Forall_forall in Hin.
    destruct (Hin it Hit). apply elem_of_seqZ. unfold item_end in *. lia. }
  rewrite length_seqZ in Hsub. lia.
Qed.

(** ** The compacted layout *)

Lemma retarget_lookup L u j b : retarget L u !! j = Some b →
  ∃ a, L !! j = Some a ∧ lp_flags b = lp_flags a ∧ lp_len b = lp_len a.
Proof.
  intros Hb. destruct (L !! j) as [a|] eqn:Ha.
  2: { apply lookup_ge_None in Ha. apply lookup_lt_Some in Hb. rewrite length_retarget in Hb. lia. }
  exists a. split; [done|]. pose proof (collect_target 0 L u j a Ha) as H.
  destruct (ItemIdHasStorage a).
  - destruct H as (m & T & _ & _ & E). rewrite E in Hb. by injection Hb as <-.
  - rewrite H in Hb. by injection Hb as <-.
Qed.

Lemma retarget_storage L u j a b : L !! j = Some a → retarget L u !! j = Some b →
  ItemIdHasStorage b = ItemIdHasStorage a ∧ ItemIdIsUsed b = ItemIdIsUsed a ∧ alen b = alen a.
Proof.
  intros Ha Hb. destruct (retarget_lookup L u j b Hb) as (a' & Ha' & E1 & E2). rewrite Ha in Ha'.
  injection Ha' as <-. unfold ItemIdHasStorage, ItemIdIsUsed, alen. by rewrite E1, E2.
Qed.

(** A compacted item lies below the ones before it. *)
Lemma retarget_placed i L u j b : all_fit L → u mod 8 = 0 → retarget L u !! j = Some b → ItemIdHasStorage b = true →
  u - total_len (collect i L) ≤ lp_off b ∧ lp_end b ≤ u ∧ lp_off b mod 8 = 0.
Proof.
  intros Hfit. revert i u j. induction L as [|a L IH]; intros i u j Hu Hb Hs; [done|].
  assert (all_fit L) as HfL by (intros k x; apply (Hfit (S k) x)). specialize (IH HfL).
  pose proof (item_fits_bounds a (Hfit 0%nat a eq_refl)) as Hfa.
  assert (alen a mod 8 = 0) as Ha8 by (apply MAXALIGN_bounds; destruct (Hfit 0%nat a eq_refl) as (_ & _ & ?); lia).
  assert (0 ≤ total_len (collect (i + 1) L)) as Htot.
  { clear -HfL. revert i. induction L as [|x L IH]; intros i; simpl; [done|].
    assert (0 ≤ total_len (collect (i + 1 + 1) L)) by (apply IH; intros k y; apply (HfL (S k) y)).
    case_match; simpl; [|done]. change (foldr _ 0 ?l) with (total_len l).
    pose proof (item_fits_bounds x (HfL 0%nat x eq_refl)). lia. }
  simpl in *. destruct (ItemIdHasStorage a) eqn:Es; destruct j as [|j]; simpl in *.
  - injection Hb as <-. change (foldr _ 0 ?l) with (total_len l). unfold lp_end, alen in *. simpl.
    split_and!; [lia|lia|]. rewrite Zminus_mod, Hu, Ha8. done.
  - change (foldr _ 0 ?l) with (total_len l). destruct (IH (i + 1) (u - alen a) j) as (? & ? & ?); [|done..|].
    + rewrite Zminus_mod, Hu, Ha8. done.
    + split_and!; lia.
  - injection Hb as <-. congruence.
  - by apply (IH (i + 1) u j).
Qed.

Lemma retarget_order L u i j b c : all_fit L → u mod 8 = 0 → (i < j)%nat →
  retarget L u !! i = Some b → retarget L u !! j = Some c → ItemIdHasStorage b = true → ItemIdHasStorage c = true →
  lp_end c ≤ lp_off b.
Proof.
  intros Hfit. revert u i j. induction L as [|a L IH]; intros u i j Hu Hij Hb Hc Hsb Hsc; [done|].
  assert (all_fit L) as HfL by (intros k x; apply (Hfit (S k) x)).
  assert (alen a mod 8 = 0) as Ha8 by (apply MAXALIGN_bounds; destruct (Hfit 0%nat a eq_refl) as (_ & _ & ?); lia).
  destruct j as [|j]; [lia|]. simpl in *. destruct (ItemIdHasStorage a) eqn:Es; destruct i as [|i]; simpl in *.
  - injection Hb as <-. simpl. eapply (retarget_placed 0); [done| |done|done]. rewrite Zminus_mod, Hu, Ha8. done.
  - eapply (IH HfL (u - alen a) i j); try done; [|lia]. rewrite Zminus_mod, Hu, Ha8. done.
  - injection Hb as <-. congruence.
  - eapply (IH HfL u i j); try done. lia.
Qed.

Lemma retarget_layout lo s L : layout lo s L → all_fit L → s mod 8 = 0 →
  layout (s - total_len (collect 0 L)) s (retarget L s).
Proof.
  intros HL Hfit Hs. split.
  - intros j b Hb Hsb. destruct (retarget_placed 0 L s j b Hfit Hs Hb Hsb) as (? & ? & ?). by split.
  - intros i j b c Hb Hc Hij Hsb Hsc. destruct (decide (i < j)%nat).
    + right. by eapply (retarget_order L s i j).
    + left. eapply (retarget_order L s j i); done || lia.
  - intros j b Hb Hn. destruct (retarget_lookup L s j b Hb) as (a & Ha & _).
    destruct (retarget_storage L s j a b Ha Hb) as (E1 & E2 & _). rewrite E1. rewrite E2 in Hn.
    by apply (lay_unused _ _ _ HL j a).
Qed.

Lemma used_space_collect p L i : page_wf p → L `suffix_of` lines p →
  used_space (view p <$> L) = total_len (collect i L).
Proof.
  intros W. revert i. induction L as [|a L IH]; intros i [k Hk]; [done|].
  rewrite fmap_cons. cbn [used_space foldr collect].
  assert (used_space (view p <$> L) = total_len (collect (i + 1) L)) as E.
  { apply IH. exists (k ++ [a]). by rewrite <-app_assoc. }
  assert (lines p !! length k = Some a) as Ha.
  { rewrite Hk, lookup_app_r, Nat.sub_diag by lia. done. }
  change (foldr _ 0 (view p <$> L)) with (used_space (view p <$> L)). rewrite E.
  destruct (ItemIdHasStorage a) eqn:Es.
  - rewrite (view_space p (length k) a W Ha Es). done.
  - unfold view, item_space. rewrite Es. done.
Qed.

(** ** Compacting a page *)

Lemma lines_all_fit p n : all_fit (lines_n p n).
Proof. intros i a. rewrite lookup_lines_Some. intros [_ ->]. apply linp_fits. Qed.

Lemma total_len_aligned i L : all_fit L → total_len (collect i L) mod 8 = 0.
Proof.
  revert i. induction L as [|a L IH]; intros i Hf; [done|]. cbn [collect].
  assert (total_len (collect (i + 1) L) mod 8 = 0) as E by (apply IH; intros k x; apply (Hf (S k) x)).
  case_match; [|done]. cbn [total_len foldr alignedlen]. change (foldr _ 0 ?l) with (total_len l).
  assert (alen a mod 8 = 0) as Ha8 by (apply MAXALIGN_bounds; destruct (Hf 0%nat a eq_refl) as (_ & _ & ?); lia).
  rewrite Z.add_mod, Ha8, E by done. done.
Qed.

Section compact.
Context (p : Page) (W : page_wf p).

Lemma lines_length : length (lines p) = nlines p.
Proof. apply length_lines. Qed.

Lemma collect_facts : Forall (within (nlines p) (pd_upper p) (pd_special p)) (collect 0 (lines p))
  ∧ pairwise (collect 0 (lines p)) ∧ total_len (collect 0 (lines p)) ≤ pd_special p - pd_upper p.
Proof.
  assert (Forall (within (nlines p) (pd_upper p) (pd_special p)) (collect 0 (lines p))) as Hin.
  { apply collect_within; [by apply wf_layout|apply lines_all_fit|rewrite lines_length; lia|done]. }
  pose proof (collect_pairwise _ _ _ 0 (wf_layout _ W)) as Hpw.
  split_and!; [done..|]. eapply packing; [done..|]. by apply wf_upper.
Qed.

Lemma collect_offsets : Forall (λ it, lp_off (linp p (offsetindex it)) = itemoff it) (collect 0 (lines p)).
Proof.
  apply list.Forall_forall. intros it (j & a & Ha & _ & ->)%elem_of_collect.
  apply lookup_lines_Some in Ha as [_ ->]. done.
Qed.

(** The line pointers and the data after the compaction. *)
Lemma compacted_lines q : compacted p (nlines p) p q (pd_special p) (pd_special p) (collect 0 (lines p)) →
  lines_n q (nlines p) = retarget (lines p) (pd_special p).
Proof.
  intros C. apply lines_ext; [by rewrite length_retarget, lines_length|]. intros j Hj.
  destruct (wf_item p j W Hj) as [Ha _]. pose proof (collect_target 0 _ (pd_special p) j _ Ha) as H.
  destruct (ItemIdHasStorage (linp p (Z.of_nat j))) eqn:Es.
  - destruct H as (m & T & Hm & HT & ->). f_equal. symmetry. apply (cp_line _ _ _ _ _ _ _ C m _ T Hm HT).
  - rewrite H. f_equal. symmetry. apply (cp_other _ _ _ _ _ _ _ C); [lia|].
    intros (it & Heq & Hel)%list_elem_of_fmap. apply elem_of_collect in Hel as (j' & b & Hb & Hs & ->).
    simpl in Heq. assert (j' = j) as -> by lia. rewrite Ha in Hb. injection Hb as <-. congruence.
Qed.

Lemma compacted_views q r : compacted p (nlines p) p q (pd_special p) (pd_special p) (collect 0 (lines p)) →
  same_except 14 16 q r →
  view r <$> retarget (lines p) (pd_special p) = view p <$> lines p.
Proof.
  intros C Sr. destruct collect_facts as (Hin & _ & Htot). pose proof (wf_header _ W) as Hh.
  pose proof (wf_sized _ W) as Hp. unfold sized in Hp.
  apply list_eq_same_length with (nlines p); [by rewrite length_fmap, ?length_retarget, ?lines_length..|].
  intros j x y Hj Hx Hy. rewrite list_lookup_fmap in Hx, Hy. destruct (wf_item p j W Hj) as [Ha _].
  revert Ha. generalize (linp p (Z.of_nat j)) as a. intros a Ha. rewrite Ha in Hy. injection Hy as <-.
  pose proof (collect_target 0 _ (pd_special p) j _ Ha) as H. destruct (ItemIdHasStorage a) eqn:Es.
  2: { rewrite H in Hx. injection Hx as <-. unfold view. by rewrite Es. }
  destruct H as (m & T & Hm & HT & E). rewrite E in Hx. injection Hx as <-.
  destruct (retarget_placed 0 (lines p) (pd_special p) j (with_off T a)) as (Hlo & Hhi & _);
    [apply lines_all_fit|by apply wf_special_al|done|done|].
  pose proof (wf_view p j a W Ha Es). pose proof (item_fits_bounds a (lines_all_fit _ _ _ _ Ha)).
  unfold view. change (ItemIdHasStorage (with_off T a)) with (ItemIdHasStorage a). rewrite Es. simpl. f_equal.
  unfold lp_end in *. change (alen (with_off T a)) with (alen a) in Hhi. cbn [lp_off with_off] in Hlo, Hhi.
  apply slice_ext; [lia..|rewrite (proj1 Sr), (cp_len _ _ _ _ _ _ _ C); page_lia|page_lia|].
  intros k Hk. rewrite (proj2 Sr) by page_lia. apply (cp_data _ _ _ _ _ _ _ C m _ T k Hm HT). simpl. lia.
Qed.

(** Compaction changes nothing but the free space, which becomes all there is. *)
Lemma compact_page presorted : collect 0 (lines p) ≠ [] →
  (presorted = true → strictly_descending (pd_special p) (collect 0 (lines p))) →
  ∃ q, compactify_tuples (collect 0 (lines p)) presorted p = (q, Ok tt) ∧ page_wf q
  ∧ nlines q = nlines p ∧ pd_lower q = pd_lower p ∧ (∀ j b, lines q !! j = Some b → ∃ a, lines p !! j = Some a
      ∧ lp_flags b = lp_flags a)
  ∧ abs_page q = set_items (abs_page p) (ap_hint (abs_page p)) (room (abs_page p) (ap_items (abs_page p)))
      (ap_items (abs_page p)).
Proof.
  intros Hne Hpre. destruct collect_facts as (Hin & Hpw & Htot). pose proof (wf_header _ W) as Hh.
  pose proof (wf_sized _ W) as Hp. set (items := collect 0 (lines p)) in *.
  pose proof (total_len_nonneg _ _ _ _ Hin).
  destruct (compactify_spec p (nlines p) items presorted) as (q & E & C); try done; try lia.
  { apply NoDup_collect. } { apply collect_offsets. }
  { intros Hps. eapply strictly_descending_areas; eauto. }
  assert (sized q) as Hq by (unfold sized in *; by rewrite (cp_len _ _ _ _ _ _ _ C)).
  destruct (put_upper_spec q (pd_special p - total_len items)) as (_ & Eu & Sr); [done|page_lia|].
  set (r := put16 14 (pd_special p - total_len items) q) in *.
  assert (sized r) as Hr by (by eapply same_except_sized).
  assert (∀ i, 0 ≤ i → ¬ 14 ≤ i < 16 → ¬ 24 ≤ i < pd_lower p → ¬ pd_special p - total_len items ≤ i < pd_special p →
    peek r i = peek p i) as Hout.
  { intros i ? ? ? ?. rewrite (proj2 Sr), (cp_out _ _ _ _ _ _ _ C) by lia. done. }
  assert (pd_lower r = pd_lower p) as El.
  { unfold pd_lower, get16. f_equal. apply (agree_slice 12 14); try (done || page_lia). intros i Hi. apply Hout; page_lia. }
  destruct (finish p r (nlines p) (pd_special p - total_len items) (retarget (lines p) (pd_special p))) as (Wr & Lr & Ar).
  - done.
  - split; [unfold sized in *; by rewrite Hr, Hp|]. intros i ? ?. apply Hout; page_lia.
  - by rewrite El, (proj2 (proj2 (proj2 (proj2 Hh)))).
  - done.
  - lia.
  - pose proof (total_len_aligned 0 (lines p) (lines_all_fit p _)) as Ht8. fold items in Ht8.
    rewrite Zminus_mod, (wf_special_al _ W), Ht8. done.
  - rewrite <-(compacted_lines q C). eapply same_except_lines; [done|done|page_lia|by right].
  - by eapply retarget_layout; [apply wf_layout|apply lines_all_fit|apply wf_special_al].
  - assert (nlines r = nlines p) as En by (unfold nlines, PageGetMaxOffsetNumber; by rewrite El).
    exists r. split_and!; [done..| |].
    + intros j b. rewrite Lr. intros (a & Ha & Ef & _)%retarget_lookup. eauto.
    + rewrite Ar, (compacted_views q r C Sr). unfold set_items. f_equal. unfold room.
      change (ap_items (abs_page p)) with (view p <$> lines p).
      rewrite (used_space_collect p (lines p) 0 W) by done. fold items.
      rewrite length_fmap, lines_length. simpl. unfold sized in Hp. rewrite length_slice by page_lia. page_lia.
Qed.

End compact.

(** ** Changing line pointers *)

(** Line pointers are changed one by one. *)
Definition spec_set (a : apage) (ups : list (Z * item)) : apage :=
  set_items a (ap_hint a) (ap_free a)
    (foldl (λ l '(n, it), <[Z.to_nat (n - 1) := it]> l) (ap_items a) ups).

(** A line pointer without storage replaces another: the data stays where it
    is, and its space is free only after the repair. *)
Lemma set_line p n x : page_wf p → 1 ≤ n ≤ Z.of_nat (nlines p) → item_fits x → ItemIdHasStorage x = false →
  ∃ q, PageSetItemId n x p = (q, Ok tt) ∧ page_wf q ∧ nlines q = nlines p
  ∧ abs_page q = spec_set (abs_page p) [(n, mkItem (lp_flags x) (lp_off x) [])].
Proof.
  intros W Hn Hx Hs. set (k := Z.to_nat (n - 1)). replace n with (Z.of_nat k + 1) by lia.
  pose proof (wf_sized p W) as Hp. pose proof (wf_header p W) as Hh.
  exists (put_linp (Z.of_nat k) x p). split; [apply run_set_item; [done|lia|page_lia]|].
  set (q := put_linp (Z.of_nat k) x p).
  assert (same_except (linp_at (Z.of_nat k)) (linp_at (Z.of_nat k + 1)) p q) as Sq
    by (apply put_linp_same_except; [done|lia|page_lia]).
  assert (sized q) as Hq by (by eapply same_except_sized).
  destruct (same_except_bounds _ _ _ _ Sq Hp) as [El Eu]; [page_lia|].
  destruct (finish p q (nlines p) (pd_upper p) (<[k := x]> (lines p))) as (Wq & Lq & Aq); try done; try page_lia.
  - eapply same_except_frame; [done|right; page_lia].
  - by apply wf_upper_al.
  - apply put_linp_lines; [done|lia|page_lia|done].
  - by apply layout_clear.
  - split_and!; [done|unfold nlines, PageGetMaxOffsetNumber; by rewrite El|].
    rewrite Aq. unfold spec_set, set_items. f_equal; [simpl; lia|]. cbn [foldl abs_page ap_items].
    rewrite list_fmap_insert. replace (Z.to_nat (Z.of_nat k + 1 - 1)) with k by lia. f_equal.
    + unfold view. by rewrite Hs.
    + apply views_ext; [done..|]. intros i a Ha Hsa. pose proof (wf_view p i a W Ha Hsa).
      split_and!; [page_lia..|]. eapply same_except_agree; [done|page_lia..].
Qed.

(** ** The scan of a pruned page *)

(** A list without the unused entries at its end. *)
Fixpoint trim {A} (unused : A → bool) (l : list A) : list A :=
  match l with
  | [] => []
  | x :: l' =>
      match trim unused l' with
      | [] => if unused x then [] else [x]
      | y :: k => x :: y :: k
      end
  end.

Definition lp_unused (a : ItemIdData) : bool := negb (ItemIdIsUsed a).

(** Unused line pointers are reset. *)
Definition clear_lp (a : ItemIdData) : ItemIdData := if ItemIdIsUsed a then a else ItemIdSetUnused.

Definition clear_item (it : item) : item := if item_unused it then mkItem LP_UNUSED 0 [] else it.

Definition spec_repair (a : apage) : apage :=
  let its := trim item_unused (clear_item <$> ap_items a) in
  set_items a (existsb item_unused its) (room a its) its.

Definition count_unused {A} (unused : A → bool) (l : list A) : Z := Z.of_nat (length (List.filter unused l)).

Lemma trim_snoc {A} (f : A → bool) l x : trim f (l ++ [x]) = if f x then trim f l else l ++ [x].
Proof.
  induction l as [|y l IH]; simpl; [done|]. rewrite IH. destruct (f x); [done|].
  destruct (l ++ [x]) eqn:E; [by apply app_nil in E as [_ ?]|done].
Qed.

Lemma trim_prefix {A} (f : A → bool) l : take (length (trim f l)) l = trim f l.
Proof.
  induction l as [|x l IH]; simpl; [done|]. destruct (trim f l) eqn:E; [by destruct (f x)|].
  simpl. f_equal. done.
Qed.

Lemma trim_length {A} (f : A → bool) l : (length (trim f l) ≤ length l)%nat.
Proof. rewrite <-(trim_prefix f l), length_take. lia. Qed.

Lemma trim_fmap {A B} (g : A → B) (f : B → bool) l : trim f (g <$> l) = g <$> trim (f ∘ g) l.
Proof.
  induction l as [|x l IH]; [done|]. rewrite fmap_cons. cbn [trim]. rewrite IH.
  destruct (trim (f ∘ g) l); simpl; [|done]. by destruct (f (g x)).
Qed.

Lemma trim_ext {A} (f g : A → bool) l : (∀ x, x ∈ l → f x = g x) → trim f l = trim g l.
Proof.
  induction l as [|x l IH]; intros H; simpl; [done|]. rewrite IH by (intros; apply H; by right).
  destruct (trim g l); [|done]. by rewrite H by left.
Qed.

Lemma count_unused_snoc {A} (f : A → bool) l x :
  count_unused f (l ++ [x]) = count_unused f l + (if f x then 1 else 0).
Proof. unfold count_unused. rewrite List.filter_app, length_app. simpl. destruct (f x); simpl; lia. Qed.

(** What is cut off is all unused. *)
Lemma count_unused_trim {A} (f : A → bool) l :
  count_unused f l = count_unused f (trim f l) + (Z.of_nat (length l) - Z.of_nat (length (trim f l))).
Proof.
  induction l as [|x l IH] using rev_ind; [done|]. rewrite count_unused_snoc, trim_snoc.
  destruct (f x) eqn:E; [rewrite IH, length_app; simpl; lia|]. rewrite count_unused_snoc, E. lia.
Qed.

Lemma count_unused_pos {A} (f : A → bool) l : (0 <? count_unused f l) = existsb f l.
Proof.
  unfold count_unused. induction l as [|x l IH]; [done|]. simpl. destruct (f x); simpl; [|done]. apply Z.ltb_lt. lia.
Qed.

Definition last_off (hi : Z) (items : list itemIdCompactData) : Z := default hi (itemoff <$> last items).

Lemma strictly_descending_snoc hi items it :
  strictly_descending hi (items ++ [it]) ↔ strictly_descending hi items ∧ itemoff it < last_off hi items.
Proof.
  revert hi. induction items as [|x items IH]; intros hi; simpl; [unfold last_off; simpl; tauto|].
  rewrite IH. replace (last_off hi (x :: items)) with (last_off (itemoff x) items); [tauto|].
  unfold last_off. rewrite last_cons. by destruct (last items).
Qed.

Lemma collect_snoc i L a : collect i (L ++ [a]) =
  collect i L ++ (if ItemIdHasStorage a then [mkCompact (i + Z.of_nat (length L)) (lp_off a) (alen a)] else []).
Proof.
  revert i. induction L as [|b L IH]; intros i; simpl.
  - rewrite Z.add_0_r. done.
  - specialize (IH (i + 1)).
    replace (i + 1 + Z.of_nat (length L)) with (i + Z.of_nat (S (length L))) in IH by lia.
    destruct (ItemIdHasStorage b); by rewrite IH.
Qed.

Lemma length_collect i L : (length (collect i L) ≤ length L)%nat.
Proof. revert i. induction L as [|a L IH]; intros i; simpl; [lia|]. specialize (IH (i + 1)). case_match; simpl; lia. Qed.

(** The scan has seen the line pointers [L]. *)
Record scanned (special : Z) (L : list ItemIdData) (rs : repair_scan) : Prop := {
  sc_items : rs_items rs = collect 0 L;
  sc_total : rs_totallen rs = total_len (collect 0 L);
  sc_final : rs_finalusedlp rs = Z.of_nat (length (trim lp_unused L));
  sc_unused : rs_nunused rs = count_unused lp_unused L;
  sc_sorted : rs_presorted rs = true → strictly_descending special (collect 0 L)
    ∧ rs_last_offset rs = last_off special (collect 0 L)
}.

Lemma total_len_snoc items it : total_len (items ++ [it]) = total_len items + alignedlen it.
Proof. rewrite total_len_app. simpl. lia. Qed.

Lemma last_off_snoc hi items it : last_off hi (items ++ [it]) = itemoff it.
Proof. unfold last_off. by rewrite last_snoc. Qed.

Lemma alen_width a : item_fits a → i16 (lp_off a) = lp_off a ∧ wrap_u 16 (MAXALIGN (lp_len a)) = alen a.
Proof.
  intros (? & _ & ?). pose proof (MAXALIGN_bounds (lp_len a) ltac:(lia)).
  split; [apply wrap_s_small; [lia|unfold in_s; lia]|apply wrap_u_small; unfold in_u, alen; lia].
Qed.

Section repair_scan.
Context (p : Page) (W : page_wf p) (Hmax : Z.of_nat (nlines p) ≤ MaxHeapTuplesPerPage).

Lemma repair_item_spec k a rs q : lines p !! k = Some a → scanned (pd_special p) (take k (lines p)) rs →
  sized q → linp q (Z.of_nat k) = a →
  ∃ q' rs', repair_item (pd_upper p) (pd_special p) rs (Z.of_nat k + 1) q = (q', Ok rs')
  ∧ scanned (pd_special p) (take (S k) (lines p)) rs'
  ∧ same_except (linp_at (Z.of_nat k)) (linp_at (Z.of_nat k + 1)) q q' ∧ linp q' (Z.of_nat k) = clear_lp a.
Proof.
  intros Ha [Hit Htot Hfin Hun Hsort] Hq Hl. pose proof (lookup_lt_Some _ _ _ Ha) as Hlt. rewrite lines_length in Hlt.
  destruct (wf_item p k W Hlt) as [_ Hb]. pose proof (wf_header p W).
  assert (length (take k (lines p)) = k) as Hlen by (rewrite length_take, lines_length; lia).
  pose proof (length_collect 0 (take k (lines p))) as Hcl. rewrite Hlen in Hcl.
  assert (lp_unused a = negb (ItemIdIsUsed a)) as Hlu by done. rewrite (take_S_r _ _ _ Ha). unfold repair_item.
  rewrite (bind_ok _ _ _ _ _ (run_get_item q (Z.of_nat k) Hq ltac:(lia) Hb)), Hl.
  destruct (ItemIdIsUsed a) eqn:Eu.
  2: { rewrite (bind_ok _ _ _ _ _ (run_set_item q (Z.of_nat k) ItemIdSetUnused Hq ltac:(lia) Hb)).
       eexists _, _. split_and!; [done| |by apply put_linp_same_except; [|lia|]|].
       - pose proof (lay_unused _ _ _ (wf_layout _ W) k a Ha Eu) as Hs.
         split; simpl; rewrite ?collect_snoc, ?Hs, ?app_nil_r, ?trim_snoc, ?count_unused_snoc, ?Hlu, ?Eu; done || (simpl; lia).
       - unfold clear_lp. rewrite Eu. apply put_linp_same; done || lia. }
  assert (linp q (Z.of_nat k) = clear_lp a) as Hcl' by (unfold clear_lp; by rewrite Eu).
  assert (Hfin' : Z.of_nat k + 1 = Z.of_nat (length (trim lp_unused (take k (lines p) ++ [a])))).
  { rewrite trim_snoc, Hlu. simpl. rewrite length_app, Hlen. simpl. lia. }
  assert (Hun' : rs_nunused rs = count_unused lp_unused (take k (lines p) ++ [a])).
  { rewrite count_unused_snoc, Hlu. simpl. lia. }
  destruct (ItemIdHasStorage a) eqn:Es.
  2: { eexists _, _. split_and!; [done| |apply same_except_refl|done].
       split; simpl; rewrite ?collect_snoc, ?Es, ?app_nil_r; done. }
  assert (item_fits a) as Hf by (rewrite <-Hl; apply linp_fits).
  destruct (alen_width a Hf) as [-> ->]. cbn [itemoff alignedlen].
  destruct (lay_placed _ _ _ (wf_layout _ W) k a Ha Es). pose proof (alen_pos a Hf Es).
  unfold push_item. rewrite Hit. destruct (Z.ltb_spec (Z.of_nat (length (collect 0 (take k (lines p))))) MaxHeapTuplesPerPage); [|lia].
  rewrite (bind_ok _ _ q q _ eq_refl).
  destruct (Z.ltb_spec (lp_off a) (pd_upper p)); [lia|].
  destruct (Z.leb_spec (pd_special p) (lp_off a)); [unfold lp_end in *; lia|]. cbn [orb].
  replace (Z.of_nat k + 1 - 1) with (0 + Z.of_nat (length (take k (lines p)))) by (rewrite Hlen; lia).
  eexists _, _. split_and!; [done| |apply same_except_refl|done].
  split; simpl; rewrite ?collect_snoc, ?Es; [done|by rewrite total_len_snoc, Htot|done|done|].
  intros [Hps Hd]%andb_true_iff. destruct (Hsort Hps) as [Hsd Hlo]. rewrite Hd, last_off_snoc.
  split; [|done]. apply strictly_descending_snoc. split; [done|]. rewrite <-Hlo. simpl. by apply Z.ltb_lt.
Qed.

Lemma repair_loop_spec :
  ∃ q rs, repair_loop (pd_upper p) (pd_special p) (nlines p) FirstOffsetNumber
      (mkScan [] (pd_special p) true 0 InvalidOffsetNumber 0) p = (q, Ok rs)
  ∧ scanned (pd_special p) (lines p) rs
  ∧ same_except SizeOfPageHeaderData (pd_lower p) p q ∧ lines_n q (nlines p) = clear_lp <$> lines p.
Proof.
  pose proof (wf_sized p W) as Hp. pose proof (wf_header p W) as Hh.
  enough (∀ m k q rs, (k + m = nlines p)%nat → scanned (pd_special p) (take k (lines p)) rs →
    same_except SizeOfPageHeaderData (linp_at (Z.of_nat k)) p q →
    (∀ i, (i < k)%nat → linp q (Z.of_nat i) = clear_lp (linp p (Z.of_nat i))) →
    ∃ q' rs', repair_loop (pd_upper p) (pd_special p) m (Z.of_nat k + 1) rs q = (q', Ok rs')
      ∧ scanned (pd_special p) (lines p) rs' ∧ same_except SizeOfPageHeaderData (pd_lower p) p q'
      ∧ ∀ i, (i < nlines p)%nat → linp q' (Z.of_nat i) = clear_lp (linp p (Z.of_nat i))) as Hgo.
  { destruct (Hgo (nlines p) 0%nat p (mkScan [] (pd_special p) true 0 InvalidOffsetNumber 0)) as (q & rs & E & Hsc & Sq & Hl);
      [done|by split|apply same_except_refl|lia|].
    exists q, rs. split_and!; [done..|]. apply lines_ext; [by rewrite length_fmap, lines_length|].
    intros i Hi. destruct (wf_item p i W Hi) as [Ha _]. by rewrite list_lookup_fmap, Ha, Hl. }
  induction m as [|m IH]; intros k q rs Hk Hsc Sq Hl; cbn [repair_loop].
  { exists q, rs. assert (k = nlines p) as -> by lia. rewrite take_ge in Hsc by (rewrite lines_length; lia).
    rewrite (proj2 (proj2 (proj2 (proj2 Hh)))) in Sq. done. }
  assert (k < nlines p)%nat as Hlt by lia. destruct (wf_item p k W Hlt) as [Ha Hb].
  destruct (repair_item_spec k _ rs q Ha Hsc) as (q1 & rs1 & E1 & Hsc1 & S1 & Hl1);
    [by eapply same_except_sized|eapply same_except_linp; [done|done|page_lia..]|].
  rewrite (bind_ok _ _ _ _ _ E1). replace (Z.of_nat k + 1 + 1) with (Z.of_nat (S k) + 1) by lia.
  apply IH; [lia|done| |].
  - eapply same_except_trans; eapply same_except_weaken; [..|exact Sq| | |exact S1]; page_lia.
  - intros i Hi. destruct (decide (i = k)) as [->|]; [done|]. rewrite <-Hl by lia.
    eapply same_except_linp; [done|by eapply same_except_sized|page_lia..].
Qed.

(** The scan leaves a page with the unused line pointers reset. *)
Lemma scanned_page q : same_except SizeOfPageHeaderData (pd_lower p) p q →
  lines_n q (nlines p) = clear_lp <$> lines p →
  page_wf q ∧ nlines q = nlines p ∧ lines q = clear_lp <$> lines p ∧ pd_lower q = pd_lower p ∧ pd_special q = pd_special p
  ∧ abs_page q = set_items (abs_page p) (ap_hint (abs_page p)) (ap_free (abs_page p)) (clear_item <$> ap_items (abs_page p)).
Proof.
  intros Sq Hlq. pose proof (wf_sized p W) as Hp. pose proof (wf_header p W) as Hh.
  destruct (same_except_bounds _ _ _ _ Sq Hp) as [El Eu]; [done|].
  assert (frame p q) as F by (eapply same_except_frame; [done|unfold SizeOfPageHeaderData; lia]).
  assert (sized q) as Hq by (by eapply same_except_sized).
  destruct (finish p q (nlines p) (pd_upper p) (clear_lp <$> lines p)) as (Wq & Lq & Aq); try done.
  - rewrite El. lia.
  - lia.
  - by apply wf_upper_al.
  - apply (layout_embed _ _ (lines p) _ id); [by apply wf_layout| |done].
    intros i b (a & -> & Ha)%list_lookup_fmap_Some. unfold clear_lp. destruct (ItemIdIsUsed a); auto.
  - split_and!; [done|unfold nlines, PageGetMaxOffsetNumber; by rewrite El|done|done|by apply frame_special|].
    rewrite Aq. unfold set_items. f_equal; [simpl; lia|]. simpl. rewrite <-!list_fmap_compose. apply list_fmap_ext.
    intros i a Ha. simpl. unfold clear_item, clear_lp. rewrite view_unused.
    destruct (ItemIdIsUsed a) eqn:Eus; [|done]. cbn [negb].
    destruct (ItemIdHasStorage a) eqn:Es; [|unfold view; by rewrite Es].
    pose proof (wf_view p i a W Ha Es). apply view_ext; [done..|page_lia|page_lia|page_lia|].
    eapply same_except_agree; [done|page_lia..].
Qed.

End repair_scan.

(** ** Cutting off line pointers *)

Lemma truncate_page p m : page_wf p → (m ≤ nlines p)%nat →
  ∃ q, set_pd_lower (pd_lower p - 4 * (Z.of_nat (nlines p) - Z.of_nat m)) p = (q, Ok tt) ∧ page_wf q
  ∧ abs_page q = set_items (abs_page p) (ap_hint (abs_page p))
      (ap_free (abs_page p) + 4 * (Z.of_nat (nlines p) - Z.of_nat m)) (take m (ap_items (abs_page p))).
Proof.
  intros W Hm. pose proof (wf_sized p W) as Hp. pose proof (wf_header p W) as Hh.
  set (v := pd_lower p - 4 * (Z.of_nat (nlines p) - Z.of_nat m)).
  assert (v = linp_at (Z.of_nat m)) as Ev by (unfold v; page_lia).
  destruct (put_lower_spec p v) as (F & El & Sq); [done|rewrite Ev; page_lia|].
  exists (put16 12 v p). split; [done|]. set (q := put16 12 v p) in *.
  assert (sized q) as Hq by (by eapply same_except_sized).
  destruct (finish p q m (pd_upper p) (take m (lines p))) as (Wq & Lq & Aq); try done.
  - by rewrite El.
  - apply (same_except_get16 12 14); done || page_lia.
  - page_lia.
  - by apply wf_upper_al.
  - transitivity (lines_n p m); [eapply same_except_lines; [done|done|page_lia|by right]|].
    apply lines_ext; [rewrite length_take, lines_length; lia|]. intros i Hi.
    rewrite lookup_take_lt by done. by apply wf_item; [|lia].
  - apply (layout_embed _ _ (lines p) _ id); [by apply wf_layout| |done].
    intros i b [Hb _]%lookup_take_Some. by left.
  - split; [done|]. rewrite Aq. unfold set_items. f_equal; [simpl; page_lia|].
    simpl. rewrite fmap_take. f_equal. apply views_ext; [done..|]. intros i a Ha Hs.
    pose proof (wf_view p i a W Ha Hs). split_and!; [page_lia..|]. eapply same_except_agree; [done|page_lia..].
Qed.

(** ** The repair *)

Lemma collect_clear i L : (∀ j a, L !! j = Some a → ItemIdIsUsed a = false → ItemIdHasStorage a = false) →
  collect i (clear_lp <$> L) = collect i L.
Proof.
  revert i. induction L as [|a L IH]; intros i H; [done|]. rewrite fmap_cons. cbn [collect].
  rewrite IH by (intros j; apply (H (S j))). unfold clear_lp. destruct (ItemIdIsUsed a) eqn:Eu; [done|].
  by rewrite (H 0%nat a eq_refl Eu).
Qed.

Lemma collect_nil_used p : page_wf p → collect 0 (lines p) = [] → used_space (ap_items (abs_page p)) = 0.
Proof. intros W E. simpl. rewrite (used_space_collect p (lines p) 0 W) by done. by rewrite E. Qed.

Lemma collect_nil_storage i L : collect i L = [] → ∀ j a, L !! j = Some a → ItemIdHasStorage a = false.
Proof.
  intros E j a Ha. destruct (ItemIdHasStorage a) eqn:Es; [|done].
  assert (mkCompact (i + Z.of_nat j) (lp_off a) (alen a) ∈ collect i L) as Hel by (apply elem_of_collect; eauto).
  rewrite E in Hel. by apply elem_of_nil in Hel.
Qed.

Lemma room_free p its : page_wf p → length its = nlines p →
  room (abs_page p) its = pd_special p - pd_lower p - used_space its.
Proof.
  intros W Hlen. pose proof (wf_sized p W) as Hp. pose proof (wf_header p W). unfold room, sized in *. rewrite Hlen.
  simpl. rewrite length_slice by page_lia. page_lia.
Qed.

(** Compaction, or the shortcut for a page without data. *)
Lemma compact_or_reset p presorted totallen : page_wf p →
  (presorted = true → strictly_descending (pd_special p) (collect 0 (lines p))) →
  totallen = total_len (collect 0 (lines p)) →
  ∃ q, (if (length (collect 0 (lines p)) =? 0)%nat then set_pd_upper (pd_special p)
        else if pd_special p - pd_lower p <? totallen then fail (ErrReport "corrupted item lengths")
        else compactify_tuples (collect 0 (lines p)) presorted) p = (q, Ok tt)
  ∧ page_wf q ∧ nlines q = nlines p ∧ pd_lower q = pd_lower p
  ∧ (∀ j b, lines q !! j = Some b → ∃ a, lines p !! j = Some a ∧ lp_flags b = lp_flags a)
  ∧ abs_page q = set_items (abs_page p) (ap_hint (abs_page p)) (room (abs_page p) (ap_items (abs_page p)))
      (ap_items (abs_page p)).
Proof.
  intros W Hpre ->. pose proof (wf_sized p W) as Hp. pose proof (wf_header p W) as Hh.
  destruct (collect_facts p W) as (_ & _ & Htot).
  destruct (collect 0 (lines p)) as [|it items] eqn:Ec.
  2: { rewrite <-Ec in *. destruct (Nat.eqb_spec (length (collect 0 (lines p))) 0) as [E0|_]; [by rewrite Ec in E0|].
       destruct (Z.ltb_spec (pd_special p - pd_lower p) (total_len (collect 0 (lines p)))); [lia|].
       apply compact_page; [done| |done]. by rewrite Ec. }
  pose proof (collect_nil_storage _ _ Ec) as Hno. cbn [length Nat.eqb].
  destruct (put_upper_spec p (pd_special p)) as (F & Eu & Sq); [done|page_lia|].
  exists (put16 14 (pd_special p) p). split; [done|]. set (q := put16 14 (pd_special p) p) in *.
  assert (sized q) as Hq by (by eapply same_except_sized).
  assert (pd_lower q = pd_lower p) as El by (apply (same_except_get16 14 16); done || page_lia).
  destruct (finish p q (nlines p) (pd_special p) (lines p)) as (Wq & Lq & Aq); try done.
  - rewrite El. lia.
  - lia.
  - by apply wf_special_al.
  - eapply same_except_lines; [done|done|page_lia|by right].
  - split; intros *; [intros Ha Hs; by rewrite (Hno _ _ Ha) in Hs|intros Ha _ _ Hs; by rewrite (Hno _ _ Ha) in Hs|].
    intros Ha _. by apply (Hno _ _ Ha).
  - split_and!; [done|unfold nlines, PageGetMaxOffsetNumber; by rewrite El|done|rewrite Lq; eauto|].
    rewrite Aq. unfold set_items. f_equal.
    + rewrite (room_free p) by (done || apply abs_length). rewrite (collect_nil_used p W Ec). lia.
    + simpl. apply list_fmap_ext. intros i a Ha. unfold view. by rewrite (Hno _ _ Ha).
Qed.

Lemma used_space_trim l : (∀ it, it ∈ l → item_unused it = true → item_space it = 0) →
  used_space (trim item_unused l) = used_space l.
Proof.
  induction l as [|it l IH]; intros H; [done|]. cbn [trim]. specialize (IH ltac:(intros; apply H; [by right|done])).
  cbn [used_space foldr]. change (foldr _ 0 l) with (used_space l). rewrite <-IH.
  destruct (trim item_unused l); [|done]. destruct (item_unused it) eqn:E; [|done].
  cbn. rewrite H; [done|by left|done].
Qed.

Lemma view_flags p a : it_flags (view p a) = lp_flags a.
Proof. unfold view. by destruct (ItemIdHasStorage a). Qed.

Lemma clear_view_unused p a : item_unused (clear_item (view p a)) = lp_unused a.
Proof.
  unfold clear_item. rewrite view_unused. fold (lp_unused a). destruct (lp_unused a) eqn:E; [done|]. by rewrite view_unused.
Qed.

(** The items that stay, by their line pointers. *)
Lemma trim_items p : let its := clear_item <$> ap_items (abs_page p) in
  trim item_unused its = take (length (trim lp_unused (lines p))) its
  ∧ existsb item_unused (trim item_unused its) = existsb lp_unused (trim lp_unused (lines p)).
Proof.
  simpl. rewrite <-list_fmap_compose.
  assert (trim item_unused ((clear_item ∘ view p) <$> lines p) = (clear_item ∘ view p) <$> trim lp_unused (lines p)) as E.
  { rewrite trim_fmap. f_equal. apply trim_ext. intros a _. apply clear_view_unused. }
  split.
  - rewrite <-trim_prefix at 1. by rewrite E, length_fmap.
  - rewrite E. generalize (trim lp_unused (lines p)) as L. induction L as [|a L IH]; [done|].
    rewrite fmap_cons. cbn [existsb]. rewrite IH. f_equal. apply clear_view_unused.
Qed.

(** The end of the routine: the line pointers at the end are cut off. *)
Lemma cut_end p m c : page_wf p → (m ≤ nlines p)%nat →
  ∃ q, (if negb (Z.of_nat m =? Z.of_nat (nlines p)) then
      let nunusedend := Z.of_nat (nlines p) - Z.of_nat m in
      q ← get; set_pd_lower (pd_lower q - 4 * nunusedend) ;; mret (c - nunusedend)
    else mret c) p = (q, Ok (c - (Z.of_nat (nlines p) - Z.of_nat m)))
  ∧ page_wf q ∧ abs_page q = set_items (abs_page p) (ap_hint (abs_page p))
      (ap_free (abs_page p) + 4 * (Z.of_nat (nlines p) - Z.of_nat m)) (take m (ap_items (abs_page p))).
Proof.
  intros W Hm. destruct (Z.eqb_spec (Z.of_nat m) (Z.of_nat (nlines p))) as [Em|Hne]; cbn [negb].
  - exists p. split_and!; [unfold mret, M_ret; do 2 f_equal; lia|done|].
    rewrite take_ge by (rewrite abs_length; lia). rewrite Em, Z.sub_diag, Z.add_0_r. done.
  - destruct (truncate_page p m W Hm) as (q & E & Wq & Aq). exists q. split_and!; [|done..].
    unfold mbind at 1, M_bind at 1, get. by rewrite (bind_ok _ _ _ _ _ E).
Qed.

Lemma repair_run p : page_wf p → Z.of_nat (nlines p) ≤ MaxHeapTuplesPerPage →
  ∃ q, PageRepairFragmentation p = (q, Ok tt) ∧ page_wf q ∧ abs_page q = spec_repair (abs_page p).
Proof.
  intros W Hmax. unfold PageRepairFragmentation. unfold mbind at 1, M_bind at 1, get.
  rewrite (proj2 (wf_not_corrupt p W)), (wf_max p W), Nat2Z.id.
  destruct (repair_loop_spec p W Hmax) as (p1 & rs & E1 & [Hit Htot Hfin Hun Hsort] & S1 & L1).
  rewrite (bind_ok _ _ _ _ _ E1).
  destruct (scanned_page p W p1 S1 L1) as (W1 & N1 & Li1 & Lo1 & Sp1 & A1).
  assert (collect 0 (lines p1) = collect 0 (lines p)) as Ec.
  { rewrite Li1. apply collect_clear. intros j a Ha. by apply (lay_unused _ _ _ (wf_layout p W) j). }
  destruct (compact_or_reset p1 (rs_presorted rs) (rs_totallen rs) W1) as (p2 & E2 & W2 & N2 & Lo2 & Fl2 & A2);
    [rewrite Ec, Sp1; intros Hps; by apply Hsort|by rewrite Ec|].
  rewrite Hit, <-Ec, <-Sp1, <-Lo1, (bind_ok _ _ _ _ _ E2). rewrite Hfin, Hun.
  set (its := clear_item <$> ap_items (abs_page p)). set (m := length (trim lp_unused (lines p))).
  assert (m ≤ nlines p)%nat as Hm by (unfold m; rewrite <-(lines_length p); apply trim_length).
  destruct (trim_items p) as [Etrim Eex]. fold its m in Etrim, Eex.
  pose proof (count_unused_trim lp_unused (lines p)) as Hcnt. rewrite lines_length in Hcnt. fold m in Hcnt.
  assert (length its = nlines p) as Hlits by (unfold its; rewrite length_fmap; apply abs_length).
  destruct (cut_end p2 m (count_unused lp_unused (lines p)) W2) as (p3 & E3 & W3 & A3); [lia|].
  rewrite N2, N1 in E3, A3. rewrite (bind_ok _ _ _ _ _ E3).
  replace (count_unused lp_unused (lines p) - _) with (count_unused lp_unused (trim lp_unused (lines p))) by lia.
  rewrite count_unused_pos, <-Eex.
  destruct (set_free_hint_spec (existsb item_unused (trim item_unused its)) p3 W3) as (q & E & Wq & _ & _ & _ & _ & Aq).
  exists q. split_and!; [done..|]. rewrite Aq, A3, A2, A1. unfold spec_repair, set_items. fold its. rewrite Etrim. simpl.
  f_equal. rewrite <-Etrim. unfold room. simpl. fold its.
  rewrite used_space_trim.
  - rewrite Etrim, length_take. lia.
  - intros it Hel Hu. apply list_elem_of_fmap in Hel as (it' & -> & _). unfold clear_item in *.
    destruct (item_unused it') eqn:E'; [done|congruence].
Qed.

(** C16.  [PageRepairFragmentation] leaves a page without gaps.  On every
    well-formed heap page it returns normally; every used line pointer keeps its
    number, state and bytes, the unused ones are reset and those at the end of
    the array are cut off, the free space becomes everything that is left of the
    page, and the hint says exactly whether an unused line pointer remains.  It
    holds for each of the three ways of moving the data. *)
Theorem repair_refines p : page_wf p → Z.of_nat (length (ap_items (abs_page p))) ≤ MaxHeapTuplesPerPage →
  ∃ q, PageRepairFragmentation p = (q, Ok tt) ∧ page_wf q ∧ abs_page q = spec_repair (abs_page p).
Proof. rewrite abs_length. apply repair_run. Qed.

(** Four tuples, the second and the last of which have become unused. *)
Definition pruned_items : Page :=
  (PageSetItemId 4 ItemIdSetUnused (PageSetItemId 2 ItemIdSetUnused
    (add_all [[1; 2; 3]; [4; 5]; [6; 7; 8]; [9]] (init_page 0))).1).1.

Lemma unused_fits : item_fits ItemIdSetUnused.
Proof. done. Qed.

Lemma pruned_items_spec : page_wf pruned_items
  ∧ abs_page pruned_items = spec_set (spec_set (spec_add_all [[1; 2; 3]; [4; 5]; [6; 7; 8]; [9]] (spec_init 0))
      [(2, mkItem 0 0 [])]) [(4, mkItem 0 0 [])].
Proof.
  unfold pruned_items. destruct init_wf as [W0 A0]. revert W0 A0. generalize (init_page 0) as p0. intros p0 W0 A0.
  destruct (add_all_spec [[1; 2; 3]; [4; 5]; [6; 7; 8]; [9]] p0 W0) as [W A]; [by repeat constructor|].
  rewrite A0 in A. revert W A. generalize (add_all [[1; 2; 3]; [4; 5]; [6; 7; 8]; [9]] p0) as p. intros p W A.
  assert (nlines p = 4%nat) as Hn by (rewrite <-abs_length, A; vm_compute; reflexivity).
  destruct (set_line p 2 ItemIdSetUnused W) as (p1 & E1 & W1 & N1 & A1); [rewrite Hn; split; discriminate|apply unused_fits|reflexivity|].
  destruct (set_line p1 4 ItemIdSetUnused W1) as (p2 & E2 & W2 & N2 & A2); [rewrite N1, Hn; split; discriminate|apply unused_fits|reflexivity|].
  rewrite E1. cbn [fst]. rewrite E2. cbn [fst]. split; [exact W2|]. rewrite A2, A1, A. reflexivity.
Qed.

Lemma repair_refines_witness :
  ∃ q, PageRepairFragmentation pruned_items = (q, Ok tt) ∧ page_wf q
  ∧ ap_items (abs_page q) = [mkItem 1 0 [1; 2; 3]; mkItem 0 0 []; mkItem 1 0 [6; 7; 8]]
  ∧ ap_hint (abs_page q) = true ∧ ap_free (abs_page q) = 8192 - 24 - 3 * 4 - 2 * 8.
Proof.
  destruct pruned_items_spec as [W A]. revert W A. generalize pruned_items as p. intros p W A.
  destruct (repair_refines p W) as (q & E & Wq & Aq); [rewrite A; vm_compute; discriminate|].
  exists q. split; [exact E|]. split; [exact Wq|]. rewrite Aq, A. split; [|split]; vm_compute; reflexivity.
Defined.
