(* ===== verification/PageMulti.v ===== *)
(** * Deleting many index tuples

    [PageIndexMultiDelete] rebuilds the line pointer array without the deleted
    items and compacts the page once.  It is proved to give the page that
    [PageIndexTupleDelete] would give when called for each item, from the last to
    the first, and to raise an error and leave the page alone when the numbers
    are not an ascending list of items of the page. *)

From S2P Require Import Prelude PageMem BufPage PageInv PageIndex PageCompact PageRepair.
From stdpp Require Import base tactics list numbers strings.
From Stdlib Require Import ZArith Lia.

Open Scope Z_scope.

(** The entries of [l], numbered from [i], that [nos] does not name, and what is
    left of [nos]: a name is only recognised in order. *)
Fixpoint sift {A} (i : Z) (l : list A) (nos : list Z) : list A * list Z :=
  match l with
  | [] => ([], nos)
  | x :: l' =>
      if (match nos with [] => false | k :: _ => i =? k end) then sift (i + 1) l' (tail nos)
      else let '(r, n) := sift (i + 1) l' nos in (x :: r, n)
  end.

(** The numbers ascend from above [lo] up to [hi]. *)
Fixpoint ascending (lo hi : Z) (nos : list Z) : Prop :=
  match nos with
  | [] => True
  | k :: nos' => lo < k ≤ hi ∧ ascending k hi nos'
  end.

Definition delete_all {A} (i : Z) (nos : list Z) (l : list A) : list A :=
  foldr (λ k l, delete (Z.to_nat (k - i)) l) l nos.

(** The reference: one deletion after the other, from the last to the first. *)
Definition spec_delete_each (a : apage) (nos : list Z) : apage :=
  foldr (λ k a, spec_delete a (Z.to_nat (k - 1))) a nos.

(** A page on which all the space between the items and the line pointers is
    free: index pages are always like that. *)
Definition no_gaps (a : apage) : Prop := ap_free a = room a (ap_items a).

(** ** Numbers *)

Lemma ascending_length lo hi nos : ascending lo hi nos → lo ≤ hi → Z.of_nat (length nos) ≤ hi - lo.
Proof. revert lo. induction nos as [|k nos IH]; intros lo; simpl; [lia|]. intros [? H] ?. specialize (IH k H). lia. Qed.

Lemma ascending_le lo lo' hi hi' nos : lo' ≤ lo → hi ≤ hi' → ascending lo hi nos → ascending lo' hi' nos.
Proof.
  revert lo lo'. induction nos as [|k nos IH]; intros lo lo' ? ?; simpl; [done|]. intros [? Hn].
  split; [lia|]. apply (IH k k); done || lia.
Qed.

Lemma delete_all_cons {A} i nos (x : A) l lo hi : ascending lo hi nos → i ≤ lo →
  delete_all i nos (x :: l) = x :: delete_all (i + 1) nos l.
Proof.
  revert lo. induction nos as [|k nos IH]; intros lo Ha Hi; simpl; [done|]. destruct Ha as [? Ha].
  rewrite (IH k Ha) by lia. replace (Z.to_nat (k - i)) with (S (Z.to_nat (k - (i + 1)))) by lia. done.
Qed.

(** Sifting out ascending numbers is deleting each. *)
Lemma sift_delete {A} i (l : list A) nos : ascending (i - 1) (i + Z.of_nat (length l) - 1) nos →
  sift i l nos = (delete_all i nos l, []).
Proof.
  revert i nos. induction l as [|x l IH]; intros i nos Ha.
  { destruct nos as [|k nos]; [done|]. simpl in Ha. lia. }
  destruct nos as [|k nos]; cbn [sift].
  - rewrite (IH (i + 1) []) by done. done.
  - destruct Ha as [Hk Ha]. simpl length in *. destruct (Z.eqb_spec i k) as [->|Hne].
    + cbn [tail]. rewrite IH; [|eapply ascending_le; [..|exact Ha]; lia]. f_equal.
      cbn [delete_all foldr]. fold (delete_all k nos (x :: l)). rewrite (delete_all_cons k nos x l k _ Ha) by lia.
      rewrite Z.sub_diag. done.
    + rewrite IH; [|split; [lia|]; eapply ascending_le; [..|exact Ha]; lia].
      rewrite (delete_all_cons i (k :: nos) x l i (i + Z.of_nat (S (length l)) - 1)); [done| |lia]. split; [lia|done].
Qed.

(** ** The scan *)

Record sifted (special : Z) (kept : list ItemIdData) (left : list Z) (ds : delete_scan) : Prop := {
  sf_items : ds_items ds = collect 0 kept;
  sf_ids : ds_newids ds = kept;
  sf_total : ds_totallen ds = total_len (collect 0 kept);
  sf_left : ds_itemnos ds = left;
  sf_sorted : ds_presorted ds = true → strictly_descending special (collect 0 kept)
    ∧ ds_last_offset ds = last_off special (collect 0 kept)
}.

Section scan.
Context (p : Page) (W : page_wf p) (Hall : all_storage (lines p)).
Context (Hmax : Z.of_nat (nlines p) ≤ MaxIndexTuplesPerPage).

Lemma delete_item_spec k a kept left ds : lines p !! k = Some a → sifted (pd_special p) kept left ds →
  (length kept ≤ k)%nat →
  ∃ ds', delete_item p ds (Z.of_nat k + 1) p = (p, Ok ds')
  ∧ if (match left with [] => false | n :: _ => Z.of_nat k + 1 =? n end)
    then sifted (pd_special p) kept (tail left) ds' else sifted (pd_special p) (kept ++ [a]) left ds'.
Proof.
  intros Ha [Hit Hids Htot Hleft Hsort] Hk. pose proof (lookup_lt_Some _ _ _ Ha) as Hlt. rewrite lines_length in Hlt.
  destruct (wf_item p k W Hlt) as [Ha' Hb]. rewrite Ha in Ha'. injection Ha' as Ea.
  pose proof (Hall k a Ha) as Hs. unfold delete_item.
  rewrite (bind_ok _ _ _ _ _ (run_get_item p (Z.of_nat k) (wf_sized p W) ltac:(lia) Hb)), <-Ea.
  rewrite (item_not_corrupt p k a W Ha Hs), Hleft.
  destruct (match left with [] => false | n :: _ => Z.of_nat k + 1 =? n end).
  { eexists. split; [done|]. split; done. }
  assert (item_fits a) as Hf by (rewrite Ea; apply linp_fits).
  destruct (alen_width a Hf) as [-> ->]. pose proof (length_collect 0 kept). unfold push_item. rewrite Hit, Hids.
  destruct (Z.ltb_spec (Z.of_nat (length (collect 0 kept))) MaxIndexTuplesPerPage); [|lia].
  rewrite (bind_ok _ _ p p _ eq_refl). change (Z.of_nat (length kept)) with (0 + Z.of_nat (length kept)).
  eexists. split; [done|]. split; simpl; rewrite ?collect_snoc, ?Hs; [done|done|by rewrite total_len_snoc, Htot|done|].
  intros [Hps Hd]%andb_true_iff. destruct (Hsort Hps) as [Hsd Hlo]. rewrite Hd, last_off_snoc.
  split; [|done]. apply strictly_descending_snoc. split; [done|]. rewrite <-Hlo. simpl. by apply Z.ltb_lt.
Qed.

Lemma delete_loop_spec m k kept left ds : (k + m = nlines p)%nat → sifted (pd_special p) kept left ds →
  (length kept ≤ k)%nat →
  let '(r, n) := sift (Z.of_nat k + 1) (drop k (lines p)) left in
  ∃ ds', delete_loop p m (Z.of_nat k + 1) ds p = (p, Ok ds') ∧ sifted (pd_special p) (kept ++ r) n ds'.
Proof.
  revert k kept left ds. induction m as [|m IH]; intros k kept left ds Hk Hsf Hkept.
  { rewrite drop_ge by (rewrite lines_length; lia). cbn. exists ds. by rewrite app_nil_r. }
  destruct (wf_item p k W) as [Ha _]; [lia|]. rewrite (drop_S _ _ _ Ha). cbn [sift delete_loop].
  destruct (delete_item_spec k _ kept left ds Ha Hsf Hkept) as (ds1 & E1 & H1).
  replace (Z.of_nat k + 1 + 1) with (Z.of_nat (S k) + 1) by lia.
  destruct (match left with [] => false | n :: _ => Z.of_nat k + 1 =? n end).
  - specialize (IH (S k) kept (tail left) ds1 ltac:(lia) H1 ltac:(lia)).
    destruct (sift _ _ _) as [r n]. by rewrite (bind_ok _ _ _ _ _ E1).
  - specialize (IH (S k) _ left ds1 ltac:(lia) H1 ltac:(rewrite length_app; simpl; lia)).
    destruct (sift _ _ _) as [r n]. rewrite (bind_ok _ _ _ _ _ E1). by rewrite <-app_assoc in IH.
Qed.

End scan.

(** ** The new line pointer array *)

Lemma length_encode_items K : length (encode_items K) = (4 * length K)%nat.
Proof.
  unfold encode_items. induction K as [|a K IH]; [done|].
  rewrite bind_cons, length_app, length_le_encode, IH. simpl. lia.
Qed.

Lemma slice_encode_items K i a : K !! i = Some a →
  slice (4 * Z.of_nat i) 4 (encode_items K) = le_encode 4 (item_encode a).
Proof.
  unfold slice, encode_items. revert i. induction K as [|b K IH]; intros [|i] Hi; try done; rewrite bind_cons.
  - injection Hi as ->. rewrite drop_0. apply take_app_length'. by rewrite length_le_encode.
  - rewrite drop_app_ge by (rewrite length_le_encode; lia). rewrite length_le_encode.
    replace (Z.to_nat (4 * Z.of_nat (S i)) - 4)%nat with (Z.to_nat (4 * Z.of_nat i)) by lia. by apply IH.
Qed.

(** The page with a new array of line pointers and the old data. *)
Lemma rewrite_lines p K : page_wf p → all_fit K → (length K ≤ nlines p)%nat →
  layout (pd_upper p) (pd_special p) K →
  ∃ q, (store SizeOfPageHeaderData (encode_items K) ;;
        set_pd_lower (SizeOfPageHeaderData + Z.of_nat (length K) * 4)) p = (q, Ok tt)
  ∧ page_wf q ∧ lines q = K ∧ pd_special q = pd_special p
  ∧ abs_page q = set_items (abs_page p) (ap_hint (abs_page p)) (pd_upper p - linp_at (Z.of_nat (length K))) (view p <$> K).
Proof.
  intros W Hfit Hlen Hlay. pose proof (wf_sized p W) as Hp. pose proof (wf_header p W) as Hh.
  pose proof (length_encode_items K) as Hle. set (p1 := blit SizeOfPageHeaderData (encode_items K) p).
  assert (same_except SizeOfPageHeaderData (SizeOfPageHeaderData + Z.of_nat (length (encode_items K))) p p1) as S1
    by (apply blit_same_except; [done|page_lia..]).
  assert (sized p1) as Hp1 by (by eapply same_except_sized).
  replace (SizeOfPageHeaderData + Z.of_nat (length K) * 4) with (linp_at (Z.of_nat (length K))) by page_lia.
  destruct (put_lower_spec p1 (linp_at (Z.of_nat (length K)))) as (F2 & El & S2); [done|page_lia|].
  set (q := put16 12 (linp_at (Z.of_nat (length K))) p1) in *. exists q.
  assert (sized q) as Hq by (by eapply same_except_sized).
  assert (frame p p1) as F1 by (eapply same_except_frame; [done|right; page_lia]).
  assert (frame p q) as F by (by eapply frame_trans).
  destruct (finish p q (length K) (pd_upper p) K) as (Wq & Lq & Aq); try done.
  - transitivity (pd_upper p1); [apply (same_except_get16 12 14); done || page_lia|].
    eapply same_except_bounds; [done|done|page_lia].
  - page_lia.
  - by apply wf_upper_al.
  - apply lines_ext; [done|]. intros i Hi. destruct (lookup_lt_is_Some_2 K i Hi) as [a Ha]. rewrite Ha. f_equal.
    transitivity (linp p1 (Z.of_nat i)); [|symmetry; eapply same_except_linp; [done|done|page_lia..]].
    unfold linp, get32. replace (slice (linp_at (Z.of_nat i)) 4 p1) with (slice (4 * Z.of_nat i) 4 (encode_items K)).
    + rewrite (slice_encode_items K i a Ha), le_decode_encode. symmetry. by apply item_decode_encode, (Hfit i).
    + unfold sized in *. apply slice_ext; [page_lia..|]. intros k Hk. unfold p1. rewrite peek_blit by page_lia.
      rewrite decide_True by page_lia. f_equal. page_lia.
  - split_and!; [|done|done|by apply frame_special|].
    + rewrite (bind_ok _ _ p p1 tt) by (apply run_store; page_lia). done.
    + rewrite Aq. unfold set_items. f_equal. apply views_ext; [done..|]. intros i a Ha Hs.
      destruct (lay_placed _ _ _ Hlay i a Ha Hs). pose proof (item_fits_bounds a (Hfit i a Ha)).
      split_and!; [page_lia..|]. intros j Hj. rewrite (proj2 S2), (proj2 S1) by page_lia. done.
Qed.

(** ** What deleting each gives *)

Lemma fmap_delete_all {A B} (f : A → B) i nos l : f <$> delete_all i nos l = delete_all i nos (f <$> l).
Proof. induction nos as [|k nos IH]; simpl; [done|]. by rewrite list_fmap_delete, IH. Qed.

Lemma layout_delete_all u s nos L : layout u s L → layout u s (delete_all 1 nos L).
Proof.
  intros HL. induction nos as [|k nos IH]; simpl; [done|].
  set (i := Z.to_nat (k - 1)). apply (layout_embed _ _ (delete_all 1 nos L) _ (λ j, if decide (j < i)%nat then j else S j)).
  - done.
  - intros j b. fold (delete_all 1 nos L). rewrite list_lookup_delete. case_decide; auto.
  - intros j j'. repeat case_decide; lia.
Qed.

Lemma elem_of_delete_all {A} i nos (l : list A) x : x ∈ delete_all i nos l → x ∈ l.
Proof.
  induction nos as [|k nos IH]; simpl; [done|]. fold (delete_all i nos l). intros Hx. apply IH.
  eapply elem_of_submseteq; [done|]. apply sublist_submseteq, sublist_delete.
Qed.

Lemma length_delete_all {A} lo nos (l : list A) : ascending lo (Z.of_nat (length l)) nos → 0 ≤ lo →
  Z.of_nat (length (delete_all 1 nos l)) = Z.of_nat (length l) - Z.of_nat (length nos).
Proof.
  revert lo. induction nos as [|k nos IH]; intros lo Ha Hlo; simpl; [lia|]. destruct Ha as [Hk Ha].
  specialize (IH k Ha ltac:(lia)). fold (delete_all 1 nos l). pose proof (ascending_length k _ nos Ha ltac:(lia)).
  rewrite length_delete; [lia|]. apply lookup_lt_is_Some. lia.
Qed.

Lemma used_space_delete its i it : its !! i = Some it → used_space (delete i its) = used_space its - item_space it.
Proof.
  revert i. induction its as [|x its IH]; intros [|i] Hi; try done; simpl in *; change (foldr _ 0 ?l) with (used_space l).
  - injection Hi as ->. lia.
  - change (list_delete i its) with (delete i its). rewrite (IH i Hi). lia.
Qed.

Lemma spec_delete_room a i : no_gaps a → (i < length (ap_items a))%nat →
  spec_delete a i = set_items a (ap_hint a) (room a (delete i (ap_items a))) (delete i (ap_items a)).
Proof.
  intros Hg Hi. destruct (lookup_lt_is_Some_2 _ _ Hi) as [it Hit]. unfold spec_delete. rewrite Hit. f_equal.
  rewrite Hg. unfold room. rewrite (used_space_delete _ _ _ Hit), length_delete by eauto. lia.
Qed.

(** On a page without gaps every deletion leaves it without gaps. *)
Lemma spec_delete_each_room a lo nos : no_gaps a → ascending lo (Z.of_nat (length (ap_items a))) nos → 0 ≤ lo →
  spec_delete_each a nos
  = set_items a (ap_hint a) (room a (delete_all 1 nos (ap_items a))) (delete_all 1 nos (ap_items a)).
Proof.
  intros Hg. revert lo. induction nos as [|k nos IH]; intros lo Ha Hlo; simpl.
  { rewrite <-Hg. by destruct a. }
  destruct Ha as [Hk Ha]. fold (spec_delete_each a nos). rewrite (IH k Ha) by lia. fold (delete_all 1 nos (ap_items a)).
  pose proof (length_delete_all k nos (ap_items a) Ha ltac:(lia)). pose proof (ascending_length k _ nos Ha ltac:(lia)).
  rewrite spec_delete_room; [done|done|]. simpl. lia.
Qed.

Lemma spec_delete_items a i : ap_items (spec_delete a i) = delete i (ap_items a).
Proof.
  unfold spec_delete. destruct (ap_items a !! i) eqn:E; [done|]. symmetry.
  apply lookup_ge_None in E. rewrite delete_take_drop, take_ge, drop_ge, app_nil_r by lia. done.
Qed.

Lemma spec_delete_each_items a nos : ap_items (spec_delete_each a nos) = delete_all 1 nos (ap_items a).
Proof. induction nos as [|k nos IH]; simpl; [done|]. by rewrite spec_delete_items, IH. Qed.

Lemma mfor_snoc {S A} (xs : list A) x (body : A → M S unit) s s' :
  mfor xs body s = (s', Ok tt) → mfor (xs ++ [x]) body s = body x s'.
Proof.
  revert s. induction xs as [|y xs IH]; intros s; simpl.
  - intros [= ->]. unfold mbind, M_bind. by destruct (body x s') as [s1 [[]|e]].
  - unfold mbind at 1 2, M_bind at 1 2. destruct (body y s) as [s1 [[]|e]]; [|done]. by apply IH.
Qed.

(** The short lists: one deletion after the other. *)
Lemma delete_each_run p lo nos : page_wf p → stored (abs_page p) → ascending lo (Z.of_nat (nlines p)) nos → 0 ≤ lo →
  ∃ q, mfor (reverse nos) PageIndexTupleDelete p = (q, Ok tt) ∧ page_wf q
  ∧ abs_page q = spec_delete_each (abs_page p) nos.
Proof.
  intros W Hst. revert lo. induction nos as [|k nos IH]; intros lo Ha Hlo; [by exists p|].
  destruct Ha as [Hk Ha]. destruct (IH k Ha ltac:(lia)) as (q & E & Wq & Aq).
  rewrite reverse_cons, (mfor_snoc _ _ _ _ _ E).
  assert (stored (abs_page q)) as Hsq.
  { unfold stored in *. rewrite Aq, spec_delete_each_items. rewrite list.Forall_forall in *.
    intros it Hit. by eapply Hst, elem_of_delete_all. }
  assert (Z.of_nat (nlines q) = Z.of_nat (nlines p) - Z.of_nat (length nos)) as Hn.
  { rewrite <-!abs_length, Aq, spec_delete_each_items. rewrite <-abs_length in Ha.
    by apply (length_delete_all k); [|lia]. }
  pose proof (ascending_length k _ nos Ha ltac:(lia)).
  destruct (delete_run q (Z.to_nat (k - 1)) Wq Hsq ltac:(lia)) as (r & Er & Wr & Ar).
  replace (Z.of_nat (Z.to_nat (k - 1)) + 1) with k in Er by lia.
  exists r. split_and!; [done..|]. by rewrite Ar, Aq.
Qed.

(** The long lists: what the scan keeps is written back and compacted. *)
Lemma multi_delete_long p nos : page_wf p → stored (abs_page p) → Z.of_nat (nlines p) ≤ MaxIndexTuplesPerPage →
  (2 < length nos)%nat →
  let '(kept, rest) := sift 1 (lines p) nos in
  if (length rest =? 0)%nat then
    layout (pd_upper p) (pd_special p) kept → all_fit kept → all_storage kept → (length kept ≤ nlines p)%nat →
    ∃ q, PageIndexMultiDelete nos p = (q, Ok tt) ∧ page_wf q
    ∧ abs_page q = set_items (abs_page p) (ap_hint (abs_page p)) (room (abs_page p) (view p <$> kept)) (view p <$> kept)
  else PageIndexMultiDelete nos p = (p, Err (ErrReport "incorrect index offsets supplied")).
Proof.
  intros W Hst Hmax Hlong. pose proof (stored_lines p W Hst) as Hall. pose proof (wf_header p W) as Hh.
  pose proof (delete_loop_spec p W Hall Hmax (nlines p) 0 [] nos (mkDelScan [] [] (pd_special p) true 0 nos) eq_refl) as Hloop.
  rewrite drop_0 in Hloop. change (Z.of_nat 0 + 1) with 1 in Hloop.
  destruct (sift 1 (lines p) nos) as [kept rest]. destruct Hloop as (ds & E & [Hit Hids Htot Hleft Hsort]);
    [by split|done|]. cbn [app] in *.
  unfold PageIndexMultiDelete. destruct (Nat.leb_spec (length nos) 2); [lia|].
  rewrite bind_get, (proj2 (wf_not_corrupt p W)), (wf_max p W), Nat2Z.id.
  change FirstOffsetNumber with 1.
  destruct (Nat.eqb_spec (length rest) 0) as [Hz|Hnz].
  2: { rewrite (bind_ok _ _ _ _ _ E), Hleft. by destruct (Nat.eqb_spec (length rest) 0). }
  intros Hlay Hfit Hstk Hlen. destruct (rewrite_lines p kept W Hfit Hlen Hlay) as (p1 & E1 & W1 & L1 & Sp1 & A1).
  assert (total_len (collect 0 kept) ≤ pd_special p - pd_upper p) as Hfitk.
  { eapply (packing (length kept)); [by eapply collect_within; [..|done]|by eapply collect_pairwise|lia]. }
  destruct (compact_or_reset p1 (ds_presorted ds) (total_len (collect 0 kept)) W1) as (q & Eq & Wq & _ & _ & _ & Aq);
    [rewrite L1, Sp1; intros Hps; by apply Hsort|by rewrite L1|].
  rewrite L1, Sp1 in Eq. exists q. split_and!; [|done|].
  - rewrite (bind_ok _ _ _ _ _ E), Hleft, Hz. cbn [Nat.eqb negb]. rewrite Htot, Hids, Hit.
    destruct (Z.ltb_spec (pd_special p - pd_lower p) (total_len (collect 0 kept))); [lia|].
    rewrite <-bind_assoc, (bind_ok _ _ _ _ _ E1).
    destruct kept as [|a kept]; [done|]. assert (ItemIdHasStorage a = true) as Hsa by (by apply (Hstk 0%nat)).
    destruct (Nat.eqb_spec (length (collect 0 (a :: kept))) 0) as [Hc|_]; [simpl in Hc; by rewrite Hsa in Hc|].
    destruct (Z.ltb_spec (pd_special p - pd_lower p1) (total_len (collect 0 (a :: kept)))); [|done].
    exfalso. pose proof (wf_lines p1 W1) as Hl1. unfold nlines in Hl1.
    assert (pd_lower p1 ≤ pd_lower p); [|lia]. rewrite (wf_lines p1 W1), (wf_lines p W), <-(lines_length p1), L1.
    page_lia.
  - rewrite Aq, A1. unfold set_items. done.
Qed.

Lemma fit_elem L : (∀ a, a ∈ L → item_fits a) → all_fit L.
Proof. intros H i a Ha. apply H. by eapply list_elem_of_lookup_2. Qed.

(** C18.  [PageIndexMultiDelete] is equivalent to one [PageIndexTupleDelete] per
    item, from the last to the first: on a well-formed page without gaps whose
    items all have data, and for any ascending list of its item numbers, it
    returns normally, leaves a well-formed page, and what that page holds is what
    the single deletions would leave.  The equivalence covers both the short
    lists, for which the code does make the single deletions, and the long ones,
    for which it rebuilds the line pointers and compacts the page once. *)
Theorem multi_delete_equivalent p nos :
  page_wf p → stored (abs_page p) → no_gaps (abs_page p) →
  Z.of_nat (length (ap_items (abs_page p))) ≤ MaxIndexTuplesPerPage →
  ascending 0 (Z.of_nat (length (ap_items (abs_page p)))) nos →
  ∃ q, PageIndexMultiDelete nos p = (q, Ok tt) ∧ page_wf q
  ∧ abs_page q = spec_delete_each (abs_page p) nos.
Proof.
  rewrite abs_length. intros W Hst Hg Hmax Hasc. destruct (decide (length nos ≤ 2)%nat) as [Hs|Hl].
  { unfold PageIndexMultiDelete. rewrite (proj2 (Nat.leb_le _ _) Hs). by apply (delete_each_run p 0). }
  pose proof (multi_delete_long p nos W Hst Hmax ltac:(lia)) as Hlong.
  rewrite sift_delete in Hlong by (rewrite lines_length; eapply ascending_le; [..|done]; lia).
  destruct Hlong as (q & E & Wq & Aq).
  - apply layout_delete_all. by apply wf_layout.
  - apply fit_elem. intros a Ha. apply elem_of_delete_all, list_elem_of_lookup_1 in Ha as [i Hi].
    by apply (lines_all_fit p (nlines p) i).
  - intros i a Ha. apply list_elem_of_lookup_2, elem_of_delete_all, list_elem_of_lookup_1 in Ha as [j Hj].
    by apply (stored_lines p W Hst j).
  - pose proof (length_delete_all 0 nos (lines p)) as H. rewrite lines_length in H. specialize (H Hasc). lia.
  - exists q. split_and!; [done..|]. rewrite Aq, fmap_delete_all. symmetry.
    change (view p <$> lines p) with (ap_items (abs_page p)).
    apply (spec_delete_each_room (abs_page p) 0 nos); [done| |done]. by rewrite abs_length.
Qed.

(** A list of more than two numbers that is not made of items of the page, in
    order, is found out before anything is written. *)
Theorem multi_delete_refused p nos :
  page_wf p → stored (abs_page p) → Z.of_nat (length (ap_items (abs_page p))) ≤ MaxIndexTuplesPerPage →
  (2 < length nos)%nat → (sift 1 (lines p) nos).2 ≠ [] →
  PageIndexMultiDelete nos p = (p, Err (ErrReport "incorrect index offsets supplied")).
Proof.
  rewrite abs_length. intros W Hst Hmax Hl Hne. pose proof (multi_delete_long p nos W Hst Hmax Hl) as Hlong.
  destruct (sift 1 (lines p) nos) as [kept rest]. simpl in Hne.
  destruct rest; [done|]. exact Hlong.
Qed.

(** Five tuples, three of which go. *)
Definition five_items : list (list Z) := [[1; 2; 3]; [4; 5]; [6]; [7; 8; 9; 10; 11; 12; 13; 14; 15]; [16; 17]].

Lemma five_items_spec : page_wf (add_all five_items (init_page 0))
  ∧ abs_page (add_all five_items (init_page 0)) = spec_add_all five_items (spec_init 0).
Proof.
  destruct init_wf as [W A]. rewrite <-A. apply add_all_spec; [done|]. by repeat constructor.
Qed.

Lemma multi_delete_equivalent_witness :
  ∃ q, PageIndexMultiDelete [1; 3; 4] (add_all five_items (init_page 0)) = (q, Ok tt) ∧ page_wf q
  ∧ ap_items (abs_page q) = [mkItem 1 0 [4; 5]; mkItem 1 0 [16; 17]]
  ∧ ap_free (abs_page q) = 8192 - 24 - 2 * 4 - 2 * 8.
Proof.
  destruct five_items_spec as [W A]. revert W A. generalize (add_all five_items (init_page 0)) as p. intros p W A.
  assert (length (ap_items (abs_page p)) = 5%nat) as Hl by (rewrite A; vm_compute; reflexivity).
  destruct (multi_delete_equivalent p [1; 3; 4] W) as (q & E & Wq & Aq).
  - unfold stored. rewrite A. vm_compute. repeat constructor; discriminate.
  - unfold no_gaps. rewrite A. vm_compute. reflexivity.
  - rewrite Hl. vm_compute. discriminate.
  - rewrite Hl. simpl. lia.
  - exists q. rewrite A in Aq. split; [exact E|]. split; [exact Wq|]. rewrite Aq. split; vm_compute; reflexivity.
Defined.
