(* ===== verification/PageHeap.v ===== *)
(** * Heap pages

    The life of a heap page: it is initialised, tuples are added while there is
    free space, pruning turns line pointers into redirects, dead or unused ones
    and repairs the page, and vacuum's second pass turns dead line pointers into
    unused ones and shortens the array.  [heap_page_prune_execute] of
    [access/heap/pruneheap.c] is modelled here; the measures of free space are
    shown to predict what [PageAddItemExtended] does; and every page reached by
    these operations is shown to be well-formed, so that each of the theorems
    about single routines applies to it. *)

From S2P Require Import Prelude PageMem BufPage PageInv PageIndex PageCompact PageRepair.
From stdpp Require Import base tactics list numbers strings.
From Stdlib Require Import ZArith Lia.

Open Scope Z_scope.

(** ** Pruning *)

Definition heap_page_prune_execute (lp_truncate_only : bool) (redirected : list (Z * Z))
    (nowdead nowunused : list Z) : M Page unit :=
  mfor redirected (λ '(fromoff, tooff), PageSetItemId fromoff (ItemIdSetRedirect tooff)) ;;
  mfor nowdead (λ off, PageSetItemId off ItemIdSetDead) ;;
  mfor nowunused (λ off, PageSetItemId off ItemIdSetUnused) ;;
  if lp_truncate_only then PageTruncateLinePointerArray else PageRepairFragmentation.

(** ** The operations on abstract pages *)

Definition spec_truncate (a : apage) : apage :=
  let n := length (ap_items a) in
  let m := (min 1 n `max` length (trim item_unused (ap_items a)))%nat in
  set_items a (existsb item_unused (take m (ap_items a))) (ap_free a + 4 * (Z.of_nat n - Z.of_nat m))
    (take m (ap_items a)).

(** The line pointers a prune changes, in the order of the code. *)
Definition prune_updates (redirected : list (Z * Z)) (nowdead nowunused : list Z) : list (Z * item) :=
  ((λ '(fromoff, tooff), (fromoff, mkItem LP_REDIRECT tooff [])) <$> redirected)
  ++ ((λ off, (off, mkItem LP_DEAD 0 [])) <$> nowdead)
  ++ ((λ off, (off, mkItem LP_UNUSED 0 [])) <$> nowunused).

Definition spec_prune (a : apage) (lp_truncate_only : bool) (redirected : list (Z * Z))
    (nowdead nowunused : list Z) : apage :=
  let a' := spec_set a (prune_updates redirected nowdead nowunused) in
  if lp_truncate_only then spec_truncate a' else spec_repair a'.

(** ** Shortening the array *)

Section truncate.
Context (p : Page) (W : page_wf p).

Lemma truncate_done i c : (i ≤ nlines p)%nat →
  truncate_loop i true c p = (p, Ok (c, existsb lp_unused (take i (lines p)))).
Proof.
  induction i as [|i IH]; intros Hi; [done|]. destruct (wf_item p i W) as [Ha Hb]; [lia|].
  cbn [truncate_loop]. replace (Z.of_nat (S i)) with (Z.of_nat i + 1) by lia.
  rewrite (bind_ok _ _ _ _ _ (run_get_item p (Z.of_nat i) (wf_sized p W) ltac:(lia) Hb)). cbn [negb andb].
  rewrite (take_S_r _ _ _ Ha), existsb_app. cbn [existsb]. unfold lp_unused at 2.
  destruct (ItemIdIsUsed (linp p (Z.of_nat i))); cbn [negb orb].
  - rewrite IH by lia. by rewrite orb_false_r.
  - by rewrite orb_true_r.
Qed.

Lemma truncate_loop_spec i c : (i ≤ nlines p)%nat →
  let m := (min 1 i `max` length (trim lp_unused (take i (lines p))))%nat in
  truncate_loop i false c p = (p, Ok (c + (Z.of_nat i - Z.of_nat m), existsb lp_unused (take m (lines p)))) ∧ (m ≤ i)%nat.
Proof.
  revert c. induction i as [|i IH]; intros c Hi; [simpl; by rewrite Z.add_0_r|].
  destruct (wf_item p i W) as [Ha Hb]; [lia|]. pose proof (lines_length p) as HL.
  assert (length (take i (lines p)) = i) as Hli by (rewrite length_take; lia).
  pose proof (trim_length lp_unused (take (S i) (lines p))) as Htl. rewrite length_take, HL in Htl.
  cbn [truncate_loop]. replace (Z.of_nat (S i)) with (Z.of_nat i + 1) by lia.
  rewrite (bind_ok _ _ _ _ _ (run_get_item p (Z.of_nat i) (wf_sized p W) ltac:(lia) Hb)). cbn [negb andb].
  rewrite (take_S_r _ _ _ Ha), trim_snoc. set (a := linp p (Z.of_nat i)) in *.
  assert (lp_unused a = negb (ItemIdIsUsed a)) as Hlu by done. rewrite Hlu. unfold FirstOffsetNumber.
  destruct (Z.ltb_spec 1 (Z.of_nat i + 1)) as [Hi1|Hi0].
  - destruct (ItemIdIsUsed a); cbn [negb].
    + rewrite truncate_done by lia. rewrite length_app, Hli. simpl length.
      replace (min 1 (S i) `max` (i + 1))%nat with (S i) by lia. rewrite (take_S_r _ _ _ Ha), existsb_app. cbn [existsb].
      rewrite Hlu. cbn [orb]. rewrite orb_false_r. split; [do 3 f_equal; lia|lia].
    + destruct (IH (c + 1) ltac:(lia)) as [-> Hm].
      replace (min 1 (S i))%nat with (min 1 i) by lia. split; [do 3 f_equal; lia|lia].
  - assert (i = 0)%nat as -> by lia. assert (take 1 (lines p) = [a]) as Et by (by rewrite (take_S_r _ _ _ Ha), take_0).
    destruct (ItemIdIsUsed a); cbn [negb]; rewrite take_0; cbn [app length trim Nat.min Nat.max]; rewrite Et; cbn [existsb];
      rewrite Hlu; cbn [orb negb truncate_loop]; (split; [|lia]); unfold mret, M_ret; do 3 f_equal; lia.
Qed.

End truncate.

Lemma existsb_views p L : existsb item_unused (view p <$> L) = existsb lp_unused L.
Proof.
  induction L as [|a L IH]; [done|]. rewrite fmap_cons. cbn [existsb]. by rewrite IH, view_unused.
Qed.

Lemma trim_views p L : trim item_unused (view p <$> L) = view p <$> trim lp_unused L.
Proof. rewrite trim_fmap. f_equal. apply trim_ext. intros a _. apply view_unused. Qed.

Lemma truncate_run p : page_wf p → ∃ q, PageTruncateLinePointerArray p = (q, Ok tt) ∧ page_wf q
  ∧ abs_page q = spec_truncate (abs_page p).
Proof.
  intros W. unfold PageTruncateLinePointerArray. rewrite bind_get, (wf_max p W), Nat2Z.id.
  destruct (truncate_loop_spec p W (nlines p) 0 ltac:(lia)) as [E Hm]. rewrite (bind_ok _ _ _ _ _ E).
  rewrite (take_ge (lines p) (nlines p)) in Hm |- * by (rewrite lines_length; lia).
  unfold spec_truncate. rewrite abs_length. cbn [abs_page ap_items]. rewrite trim_views, length_fmap, <-fmap_take, existsb_views.
  set (m := (min 1 (nlines p) `max` length (trim lp_unused (lines p)))%nat) in *. rewrite Z.add_0_l.
  assert (∃ q, (if 0 <? Z.of_nat (nlines p) - Z.of_nat m then
      set_pd_lower (pd_lower p - 4 * (Z.of_nat (nlines p) - Z.of_nat m)) else mret tt) p = (q, Ok tt) ∧ page_wf q
    ∧ abs_page q = set_items (abs_page p) (ap_hint (abs_page p))
      (ap_free (abs_page p) + 4 * (Z.of_nat (nlines p) - Z.of_nat m)) (take m (ap_items (abs_page p)))) as (q & Eq & Wq & Aq).
  { destruct (Z.ltb_spec 0 (Z.of_nat (nlines p) - Z.of_nat m)); [by apply truncate_page|].
    exists p. split_and!; [done..|]. rewrite take_ge by (rewrite abs_length; lia).
    replace (Z.of_nat (nlines p) - Z.of_nat m) with 0 by lia. rewrite Z.mul_0_r, Z.add_0_r. done. }
  rewrite (bind_ok _ _ _ _ _ Eq).
  destruct (set_free_hint_spec (existsb lp_unused (take m (lines p))) q Wq) as (r & Er & Wr & _ & _ & _ & _ & Ar).
  exists r. split_and!; [done..|]. rewrite Ar, Aq. unfold set_items. cbn. by rewrite fmap_take.
Qed.

(** ** Changing line pointers *)

Lemma spec_set_app a l k : spec_set (spec_set a l) k = spec_set a (l ++ k).
Proof. unfold spec_set, set_items. simpl. by rewrite foldl_app. Qed.

(** A loop that sets one line pointer per entry. *)
Lemma set_lines_loop {A} p (xs : list A) (num : A → Z) (lp : A → ItemIdData) (body : A → M Page unit) :
  page_wf p → (∀ x, body x = PageSetItemId (num x) (lp x)) →
  Forall (λ x, 1 ≤ num x ≤ Z.of_nat (nlines p) ∧ item_fits (lp x) ∧ ItemIdHasStorage (lp x) = false) xs →
  ∃ q, mfor xs body p = (q, Ok tt) ∧ page_wf q ∧ nlines q = nlines p
  ∧ abs_page q = spec_set (abs_page p) ((λ x, (num x, mkItem (lp_flags (lp x)) (lp_off (lp x)) [])) <$> xs).
Proof.
  intros W Hb. revert p W. induction xs as [|x xs IH]; intros p W Hall; [by exists p|].
  apply list.Forall_cons in Hall as [(Hn & Hf & Hs) Hall].
  destruct (set_line p (num x) (lp x) W Hn Hf Hs) as (p1 & E1 & W1 & N1 & A1).
  destruct (IH p1 W1) as (q & E & Wq & Nq & Aq); [by rewrite N1|].
  exists q. split_and!; [|done|by rewrite Nq|by rewrite Aq, A1, spec_set_app].
  cbn [mfor]. by rewrite Hb, (bind_ok _ _ _ _ _ E1).
Qed.

Definition prune_valid (n : nat) (redirected : list (Z * Z)) (nowdead nowunused : list Z) : Prop :=
  Forall (λ '(f, t), 1 ≤ f ≤ Z.of_nat n ∧ 0 ≤ t < 2 ^ 15) redirected
  ∧ Forall (λ o, 1 ≤ o ≤ Z.of_nat n) nowdead ∧ Forall (λ o, 1 ≤ o ≤ Z.of_nat n) nowunused.

Lemma prune_run p tr redirected nowdead nowunused : page_wf p →
  Z.of_nat (nlines p) ≤ MaxHeapTuplesPerPage → prune_valid (nlines p) redirected nowdead nowunused →
  ∃ q, heap_page_prune_execute tr redirected nowdead nowunused p = (q, Ok tt) ∧ page_wf q
  ∧ abs_page q = spec_prune (abs_page p) tr redirected nowdead nowunused.
Proof.
  intros W Hmax (Hr & Hd & Hu). unfold heap_page_prune_execute, spec_prune, prune_updates.
  destruct (set_lines_loop p redirected fst (λ x, ItemIdSetRedirect x.2)
    (λ '(fromoff, tooff), PageSetItemId fromoff (ItemIdSetRedirect tooff))) as (p1 & E1 & W1 & N1 & A1); [done|by intros []| |].
  { eapply list.Forall_impl; [exact Hr|]. intros [f t] [? ?]. split_and!; done || (simpl; unfold LP_REDIRECT; lia). }
  rewrite (bind_ok _ _ _ _ _ E1).
  destruct (set_lines_loop p1 nowdead id (λ _, ItemIdSetDead) (λ off, PageSetItemId off ItemIdSetDead))
    as (p2 & E2 & W2 & N2 & A2); [done|done| |].
  { rewrite N1. eapply list.Forall_impl; [exact Hd|]. intros o ?. done. }
  rewrite (bind_ok _ _ _ _ _ E2).
  destruct (set_lines_loop p2 nowunused id (λ _, ItemIdSetUnused) (λ off, PageSetItemId off ItemIdSetUnused))
    as (p3 & E3 & W3 & N3 & A3); [done|done| |].
  { rewrite N2, N1. eapply list.Forall_impl; [exact Hu|]. intros o ?. done. }
  rewrite (bind_ok _ _ _ _ _ E3).
  assert (abs_page p3 = spec_set (abs_page p) (prune_updates redirected nowdead nowunused)) as A.
  { rewrite A3, A2, A1, !spec_set_app, <-?app_assoc. unfold prune_updates. f_equal. f_equal.
    apply list_fmap_ext. by intros i []. }
  fold (prune_updates redirected nowdead nowunused). rewrite <-A. destruct tr; [by apply truncate_run|].
  apply repair_run; [done|lia].
Qed.

(** ** Free space *)

Lemma some_unused_spec p n k : page_wf p → (k + n = nlines p)%nat →
  some_unused n (Z.of_nat k + 1) p = (p, Ok (existsb lp_unused (drop k (lines p)))).
Proof.
  intros W. revert k. induction n as [|n IH]; intros k Hk.
  { by rewrite drop_ge by (rewrite lines_length; lia). }
  destruct (wf_item p k W) as [Ha Hb]; [lia|]. rewrite (drop_S _ _ _ Ha). cbn [some_unused existsb].
  rewrite (bind_ok _ _ _ _ _ (run_get_item p (Z.of_nat k) (wf_sized p W) ltac:(lia) Hb)). unfold lp_unused at 1.
  destruct (ItemIdIsUsed (linp p (Z.of_nat k))); cbn [negb orb]; [|done].
  replace (Z.of_nat k + 1 + 1) with (Z.of_nat (S k) + 1) by lia. apply IH. lia.
Qed.

(** What the measure returns, on abstract pages. *)
Definition spec_heap_free (a : apage) : Z :=
  let space := if ap_free a <? 4 then 0 else ap_free a - 4 in
  if Z.of_nat (length (ap_items a)) <? MaxHeapTuplesPerPage then space
  else if ap_hint a && existsb item_unused (ap_items a) then space else 0.

Lemma heap_free_run p : page_wf p → PageGetHeapFreeSpace p = (p, Ok (spec_heap_free (abs_page p))).
Proof.
  intros W. unfold PageGetHeapFreeSpace, spec_heap_free. rewrite bind_get, (wf_max p W), abs_length.
  cbn [abs_page ap_items ap_free ap_hint]. rewrite existsb_views. unfold PageGetFreeSpace.
  set (space := if pd_upper p - pd_lower p <? 4 then 0 else pd_upper p - pd_lower p - 4).
  assert (0 ≤ space) by (unfold space; case_match; lia).
  destruct (Z.ltb_spec 0 space) as [Hs|Hs].
  2: { replace space with 0 by lia. by repeat case_match. }
  destruct (Z.leb_spec MaxHeapTuplesPerPage (Z.of_nat (nlines p))), (Z.ltb_spec (Z.of_nat (nlines p)) MaxHeapTuplesPerPage); try lia; [|done].
  destruct (PageHasFreeLinePointers p); cbn [andb]; [|done].
  rewrite Nat2Z.id. change FirstOffsetNumber with (Z.of_nat 0 + 1).
  by rewrite (bind_ok _ _ _ _ _ (some_unused_spec p (nlines p) 0 W eq_refl)).
Qed.

Lemma first_unused_exists l : existsb item_unused l = true → is_Some (first_unused l).
Proof.
  induction l as [|it l IH]; [done|]. rewrite first_unused_cons. cbn [existsb].
  destruct (item_unused it); [done|]. intros H. destruct (IH H) as [i ->]. by eexists.
Qed.

(** A selected place within the limits is used. *)
Lemma spec_add_some a data off flags pl : spec_select a off flags = Some pl →
  Z.of_nat (place_index a pl) + 1 ≤ MaxHeapTuplesPerPage →
  MAXALIGN (Z.of_nat (length data)) + place_pointer pl ≤ ap_free a →
  spec_add a data off flags = (set_items a (spec_hint a off) (ap_free a - (MAXALIGN (Z.of_nat (length data)) + place_pointer pl))
    (place pl (mkItem LP_NORMAL 0 data) (ap_items a)), Z.of_nat (place_index a pl) + 1).
Proof.
  intros E Hidx Hfit. unfold spec_add. rewrite E.
  destruct (Z.ltb_spec MaxHeapTuplesPerPage (Z.of_nat (place_index a pl) + 1)); [lia|]. rewrite andb_false_r.
  by destruct (Z.ltb_spec (ap_free a) (MAXALIGN (Z.of_nat (length data)) + place_pointer pl)); [lia|].
Qed.

(** The place the search selects is within the limit of a heap page whenever
    the measured space is not zero. *)
Lemma spec_heap_free_select a : Z.of_nat (length (ap_items a)) ≤ MaxHeapTuplesPerPage → 0 < spec_heap_free a →
  ∃ pl, spec_select a InvalidOffsetNumber PAI_IS_HEAP = Some pl ∧ place_ok (length (ap_items a)) pl
  ∧ Z.of_nat (place_index a pl) + 1 ≤ MaxHeapTuplesPerPage ∧ spec_heap_free a + place_pointer pl ≤ ap_free a.
Proof.
  intros Hn Hpos. unfold spec_heap_free in *. unfold spec_select. change (OffsetNumberIsValid InvalidOffsetNumber) with false.
  assert (∀ pl, place_pointer pl ≤ 4) as Hpp by (intros []; unfold place_pointer; simpl; lia).
  assert (∀ pl, (if ap_free a <? 4 then 0 else ap_free a - 4) > 0 →
    (if ap_free a <? 4 then 0 else ap_free a - 4) + place_pointer pl ≤ ap_free a) as Hsp
    by (intros pl; specialize (Hpp pl); destruct (Z.ltb_spec (ap_free a) 4); lia).
  cbn iota. destruct (first_unused (ap_items a)) as [i|] eqn:Ef.
  - apply first_unused_Some in Ef as (it & Hit & _). apply lookup_lt_Some in Hit. destruct (ap_hint a).
    + exists (PlaceReuse i). simpl place_index. split_and!; [done|simpl; lia|lia|]. specialize (Hsp (PlaceReuse i)). repeat case_match; lia.
    + exists PlaceAppend. simpl place_index. specialize (Hsp PlaceAppend). split_and!; [done|done|..]; cbn [andb] in *;
        destruct (Z.ltb_spec (Z.of_nat (length (ap_items a))) MaxHeapTuplesPerPage); lia.
  - assert (existsb item_unused (ap_items a) = false) as Hno.
    { destruct (existsb item_unused (ap_items a)) eqn:E; [|done]. apply first_unused_exists in E as [i E]. congruence. }
    rewrite Hno, andb_false_r in *. exists PlaceAppend. specialize (Hsp PlaceAppend). simpl place_index.
    destruct (Z.ltb_spec (Z.of_nat (length (ap_items a))) MaxHeapTuplesPerPage); [|lia].
    split_and!; [by destruct (ap_hint a)|done|lia|lia].
Qed.

(** ** The life of a heap page *)

(** A page in the hands of the heap: initialised once, then changed by adding
    tuples, at a free line pointer or over an unused one, and by pruning. *)
Inductive heap_reachable : Page → Prop :=
| hr_init p specialSize q :
    sized p → 0 ≤ specialSize < BLCKSZ → MAXALIGN specialSize + SizeOfPageHeaderData ≤ BLCKSZ →
    PageInit BLCKSZ specialSize p = (q, Ok tt) → heap_reachable q
| hr_add p item size offnum flags q r :
    heap_reachable p → 0 < size ≤ 2 ^ 31 - 8 → size ≤ Z.of_nat (length item) →
    (offnum = InvalidOffsetNumber ∧ flags = PAI_IS_HEAP)
    ∨ (0 ≤ offnum ∧ flags = Z.lor PAI_OVERWRITE PAI_IS_HEAP) →
    PageAddItemExtended item size offnum flags p = (q, Ok r) → heap_reachable q
| hr_prune p lp_truncate_only redirected nowdead nowunused q :
    heap_reachable p → prune_valid (length (ap_items (abs_page p))) redirected nowdead nowunused →
    heap_page_prune_execute lp_truncate_only redirected nowdead nowunused p = (q, Ok tt) → heap_reachable q.

Lemma spec_add_limit a data offnum flags : Z.of_nat (length (ap_items a)) ≤ MaxHeapTuplesPerPage →
  (offnum = InvalidOffsetNumber ∧ flags = PAI_IS_HEAP) ∨ flags = Z.lor PAI_OVERWRITE PAI_IS_HEAP →
  Z.of_nat (length (ap_items (spec_add a data offnum flags).1)) ≤ MaxHeapTuplesPerPage.
Proof.
  intros Hn Hfl. unfold spec_add. destruct (spec_select a offnum flags) as [pl|] eqn:Es; [|done].
  assert (negb (Z.land flags PAI_IS_HEAP =? 0) = true) as -> by (destruct Hfl as [[_ ->]| ->]; done). cbn [andb].
  destruct (Z.ltb_spec MaxHeapTuplesPerPage (Z.of_nat (place_index a pl) + 1)); [done|].
  case_match; [done|]. cbn [fst ap_items set_items]. destruct pl as [|i|i]; simpl in *.
  - rewrite length_app. simpl. lia.
  - exfalso. unfold spec_select in Es. destruct Hfl as [[-> ->]| ->].
    + change (OffsetNumberIsValid InvalidOffsetNumber) with false in Es. by repeat case_match.
    + change (Z.land (Z.lor PAI_OVERWRITE PAI_IS_HEAP) PAI_OVERWRITE =? 0) with false in Es.
      repeat (case_match; try done). all: by destruct (ap_items a !! _) as [it|]; simpl in *; try case_match.
  - rewrite length_insert. done.
Qed.

Lemma reachable_wf p : heap_reachable p → page_wf p ∧ Z.of_nat (nlines p) ≤ MaxHeapTuplesPerPage.
Proof.
  induction 1 as [p ss q Hp Hss Hfit E|p item size offnum flags q r _ [W Hn] Hsz Hlen Hfl E
    |p tr rd dd un q _ [W Hn] Hv E].
  - rewrite (run_init p ss Hp) in E. injection E as <-. destruct (init_page_spec ss) as [W A]; [lia|done|lia|].
    split; [done|]. rewrite <-abs_length, A. done.
  - destruct (add_item_run p item size offnum flags W Hsz Hlen) as (q' & E' & W' & A').
    { destruct Hfl as [[-> _]|[? _]]; [done|done]. }
    rewrite E' in E. injection E as -> _. split; [done|]. rewrite <-abs_length, A'.
    apply spec_add_limit; [by rewrite abs_length|]. destruct Hfl as [?|[_ ?]]; auto.
  - rewrite abs_length in Hv. destruct (prune_run p tr rd dd un W Hn Hv) as (q' & E' & W' & A').
    rewrite E' in E. injection E as ->. split; [done|]. rewrite <-abs_length, A'.
    assert (length (ap_items (spec_set (abs_page p) (prune_updates rd dd un))) = nlines p) as Hls.
    { unfold spec_set. cbn [ap_items set_items]. rewrite <-abs_length. generalize (ap_items (abs_page p)) as l.
      induction (prune_updates rd dd un) as [|[n it] ups IH]; intros l; [done|]. simpl. by rewrite IH, length_insert. }
    unfold spec_prune. destruct tr; cbn [ap_items spec_truncate spec_repair set_items].
    + rewrite length_take, Hls. lia.
    + pose proof (trim_length item_unused (clear_item <$> ap_items (spec_set (abs_page p) (prune_updates rd dd un)))) as Ht.
      rewrite length_fmap, Hls in Ht. lia.
Qed.

(** C19.  A heap page is always in order, and pruning it does what it says.
    Every page that initialisation, the heap's ways of adding a tuple, and
    pruning can produce is well-formed and within the limit of line pointers;
    and on such a page [heap_page_prune_execute] returns normally for any valid
    choice of line pointers, sets exactly the chosen ones to redirect, dead or
    unused, keeps the bytes of every other tuple, and leaves the space and the
    array as the repair, or the truncation of vacuum's second pass, promises. *)
Theorem heap_page_correct p : heap_reachable p →
  page_wf p ∧ Z.of_nat (length (ap_items (abs_page p))) ≤ MaxHeapTuplesPerPage
  ∧ ∀ lp_truncate_only redirected nowdead nowunused,
      prune_valid (length (ap_items (abs_page p))) redirected nowdead nowunused →
      ∃ q, heap_page_prune_execute lp_truncate_only redirected nowdead nowunused p = (q, Ok tt)
      ∧ abs_page q = spec_prune (abs_page p) lp_truncate_only redirected nowdead nowunused.
Proof.
  intros Hr. destruct (reachable_wf p Hr) as [W Hn]. rewrite abs_length. split_and!; [done..|].
  intros tr rd dd un Hv. destruct (prune_run p tr rd dd un W Hn Hv) as (q & E & _ & A). eauto.
Qed.

(** C27.  The measure of free space is a promise: on every page the heap can
    produce, [PageGetHeapFreeSpace] returns without changing the page, and a
    tuple whose aligned size is at most the result is then really added. *)
Theorem heap_free_space_sound p : heap_reachable p →
  ∃ space, PageGetHeapFreeSpace p = (p, Ok space)
  ∧ ∀ item size, 0 < size ≤ 2 ^ 31 - 8 → size ≤ Z.of_nat (length item) → MAXALIGN size ≤ space →
      ∃ q r, PageAddItemExtended item size InvalidOffsetNumber PAI_IS_HEAP p = (q, Ok r)
      ∧ r ≠ InvalidOffsetNumber ∧ ap_items (abs_page q) !! Z.to_nat (r - 1)
                                   = Some (mkItem LP_NORMAL 0 (take (Z.to_nat size) item)).
Proof.
  intros Hr. destruct (reachable_wf p Hr) as [W Hn]. eexists. split; [by apply heap_free_run|].
  intros item size Hsz Hlen Hfit. pose proof (MAXALIGN_bounds size ltac:(lia)) as [Hal _].
  destruct (add_item_run p item size InvalidOffsetNumber PAI_IS_HEAP W Hsz Hlen) as (q & E & _ & A); [done|].
  set (data := take (Z.to_nat size) item) in *.
  assert (Z.of_nat (length data) = size) as Hd by (unfold data; rewrite length_take; lia).
  rewrite <-abs_length in Hn. destruct (spec_heap_free_select (abs_page p) Hn) as (pl & Es & Hok & Hidx & Hsp); [lia|].
  rewrite (spec_add_some _ data _ _ pl Es Hidx) in E, A by (rewrite Hd; lia).
  eexists q, _. split; [exact E|]. unfold InvalidOffsetNumber. cbn [snd]. split; [lia|].
  rewrite A. cbn [fst set_items ap_items]. rewrite Z.add_simpl_r, Nat2Z.id, lookup_place by done.
  by rewrite decide_True by (by destruct pl).
Qed.

(** ** Examples *)

(** The page of four tuples, pruned. *)
Definition heap_example : Page := add_all [[1; 2; 3]; [4; 5]; [6; 7; 8]; [9]] (init_page 0).

Lemma add_all_reachable ds p : heap_reachable p → Forall (λ d, 0 < Z.of_nat (length d) ≤ 2 ^ 31 - 8) ds →
  heap_reachable (add_all ds p).
Proof.
  intros Hr Hds. revert p Hr. induction Hds as [|d ds Hd _ IH]; intros p Hr; [done|]. cbn. apply IH.
  destruct (reachable_wf p Hr) as [W _].
  destruct (add_item_run p d (Z.of_nat (length d)) InvalidOffsetNumber PAI_IS_HEAP W) as (q & E & _); [done..|].
  rewrite E. eapply hr_add; [done..| |exact E]. by left.
Qed.

Lemma heap_example_spec : heap_reachable heap_example
  ∧ abs_page heap_example = spec_add_all [[1; 2; 3]; [4; 5]; [6; 7; 8]; [9]] (spec_init 0).
Proof.
  assert (heap_reachable (init_page 0)) as Hr.
  { apply (hr_init (replicate (Z.to_nat BLCKSZ) 0) 0); [apply length_replicate|done|done|].
    apply (run_init _ 0). apply length_replicate. }
  destruct init_wf as [W A]. unfold heap_example. revert Hr W A. generalize (init_page 0) as p. intros p Hr W A.
  split; [apply add_all_reachable; [done|by repeat constructor]|]. rewrite <-A. apply add_all_spec; [done|by repeat constructor].
Qed.

Lemma heap_page_correct_witness :
  ∃ q, heap_page_prune_execute false [(1, 3)] [4] [2] heap_example = (q, Ok tt)
  ∧ ap_items (abs_page q) = [mkItem 2 3 []; mkItem 0 0 []; mkItem 1 0 [6; 7; 8]; mkItem 3 0 []]
  ∧ ap_free (abs_page q) = 8192 - 24 - 4 * 4 - 8.
Proof.
  destruct heap_example_spec as [R A]. revert R A. generalize heap_example as p. intros p R A.
  destruct (heap_page_correct p R) as (_ & _ & H). destruct (H false [(1, 3)] [4] [2]) as (q & E & Aq).
  - rewrite A. vm_compute. repeat constructor; discriminate.
  - exists q. rewrite A in Aq. split; [exact E|]. rewrite Aq. split; vm_compute; reflexivity.
Defined.

Lemma heap_free_space_sound_witness :
  ∃ q r, PageAddItemExtended [5; 5; 5] 3 InvalidOffsetNumber PAI_IS_HEAP heap_example = (q, Ok r)
  ∧ r ≠ InvalidOffsetNumber ∧ ap_items (abs_page q) !! Z.to_nat (r - 1) = Some (mkItem LP_NORMAL 0 [5; 5; 5]).
Proof.
  destruct heap_example_spec as [R A]. revert R A. generalize heap_example as p. intros p R A.
  destruct (heap_free_space_sound p R) as (space & E & H). apply (H [5; 5; 5] 3); [lia|simpl; lia|].
  rewrite (heap_free_run p (proj1 (reachable_wf p R))), A in E. vm_compute in E. injection E as <-.
  vm_compute. discriminate.
Defined.

(** The limit on line pointers is checked against the number of the new item
    only: a heap page that is full of line pointers accepts an item that is
    inserted before the others. *)
Definition full_array : Page :=
  put16 12 (SizeOfPageHeaderData + 4 * MaxHeapTuplesPerPage) (init_page 0).

Theorem heap_limit_not_enforced :
  PageGetMaxOffsetNumber full_array = MaxHeapTuplesPerPage
  ∧ let '(q, r) := PageAddItemExtended [1] 1 1 PAI_IS_HEAP full_array in
    r = Ok 1 ∧ PageGetMaxOffsetNumber q = MaxHeapTuplesPerPage + 1.
Proof. vm_compute. repeat split. Qed.
