(* ===== verification/PageChecksum.v ===== *)
(** * Page checksums

    The checksum of a page ([storage/checksum_impl.h]): thirty-two interleaved
    hashes over the words of the page, folded into one and mixed with the block
    number.  It is written into the header before the page goes to disk
    ([PageSetChecksum]) and tested when the page comes back ([PageIsVerified]).
    The field itself counts as zero, so that the test recomputes what was
    stored.

    The state of the cluster's checksums is the one the backend knows,
    [LocalDataChecksumState]; while checksums are being turned on or off they are
    written and not tested. *)

From S2P Require Import Prelude PageMem BufPage PageInv.
From stdpp Require Import base tactics list numbers strings.
From Stdlib Require Import ZArith Lia.

Open Scope Z_scope.

Inductive ChecksumStateType : Type :=
| PG_DATA_CHECKSUM_OFF
| PG_DATA_CHECKSUM_VERSION
| PG_DATA_CHECKSUM_INPROGRESS_OFF
| PG_DATA_CHECKSUM_INPROGRESS_ON.

Definition DataChecksumsNeedWrite (st : ChecksumStateType) : bool :=
  match st with PG_DATA_CHECKSUM_OFF => false | _ => true end.

Definition DataChecksumsNeedVerify (st : ChecksumStateType) : bool :=
  match st with PG_DATA_CHECKSUM_VERSION => true | _ => false end.

Definition N_SUMS : nat := 32.

Definition FNV_PRIME : Z := 16777619.

Definition checksumBaseOffsets : list Z :=
  [0x5B1F36E9; 0xB8525960; 0x02AB50AA; 0x1DE66D2A;
   0x79FF467A; 0x9BB9F8A3; 0x217E7CD2; 0x83E13D2C;
   0xF8D4474F; 0xE39EB970; 0x42C6AE16; 0x993216FA;
   0x7B093B5D; 0x98DAFF3C; 0xF718902A; 0x0B1C9CDB;
   0xE58F764B; 0x187636BC; 0x5D7B3BB1; 0xE73DE7DE;
   0x92BEC979; 0xCCA6C0B2; 0x304A0979; 0x85AA43D4;
   0x783125BB; 0x6CA8EAA2; 0xE407EAC6; 0x4B5CFC3E;
   0x9FBF8C76; 0x15CA20BE; 0xF2CA9FD3; 0x959BD756].

Definition CHECKSUM_COMP (checksum value : Z) : Z :=
  let tmp := Z.lxor checksum value in
  Z.lxor (u32 (tmp * FNV_PRIME)) (Z.shiftr tmp 17).

(** [page->data[i]]: one row of words. *)
Definition checksum_row (p : Page) (i : nat) : list Z :=
  (λ j, get32 (4 * Z.of_nat (i * N_SUMS + j)) p) <$> seq 0 N_SUMS.

Definition pg_checksum_block (p : Page) : Z :=
  let sums := foldl (λ sums i, zip_with CHECKSUM_COMP sums (checksum_row p i)) checksumBaseOffsets
                (seq 0 (Z.to_nat BLCKSZ / (4 * N_SUMS))) in
  let sums := (λ c, CHECKSUM_COMP (CHECKSUM_COMP c 0) 0) <$> sums in
  foldl Z.lxor 0 sums.

(** The field is zero while the block is summed up, and is put back. *)
Definition pg_checksum_page (blkno : Z) : M Page Z :=
  p ← get;
  let save_checksum := pd_checksum p in
  set_pd_checksum 0 ;;
  q ← get;
  let checksum := pg_checksum_block q in
  set_pd_checksum save_checksum ;;
  mret (wrap_u 16 (Z.lxor checksum blkno mod 65535 + 1)).

Definition PageSetChecksum (st : ChecksumStateType) (blkno : Z) : M Page unit :=
  p ← get;
  if PageIsNew p || negb (DataChecksumsNeedWrite st) then mret tt
  else
    c ← pg_checksum_page blkno;
    set_pd_checksum c.

Definition PIV_IGNORE_CHECKSUM_FAILURE : Z := 4.

Definition header_sane (p : Page) : bool :=
  (Z.land (pd_flags p) (Z.lnot PD_VALID_FLAG_BITS) =? 0)
  && (pd_lower p <=? pd_upper p) && (pd_upper p <=? pd_special p) && (pd_special p <=? BLCKSZ)
  && (pd_special p =? MAXALIGN (pd_special p)).

(** The verdict and whether a checksum failure is reported.  The messages the
    flags ask for are not part of the model. *)
Definition PageIsVerified (st : ChecksumStateType) (blkno flags : Z) : M Page (bool * bool) :=
  p ← get;
  checked ←
    (if negb (PageIsNew p) then
       checksum_failure ←
         (if DataChecksumsNeedVerify st then
            checksum ← pg_checksum_page blkno;
            mret (negb (checksum =? pd_checksum p))
          else mret false);
       mret (header_sane p, checksum_failure)
     else mret (false, false));
  let '(sane, checksum_failure) := checked in
  if negb (PageIsNew p) && sane && negb checksum_failure then mret (true, checksum_failure)
  else if forallb (Z.eqb 0) p then mret (true, checksum_failure)
  else if checksum_failure && sane && negb (Z.land flags PIV_IGNORE_CHECKSUM_FAILURE =? 0)
  then mret (true, checksum_failure)
  else mret (false, checksum_failure).

(** The proofs do not look into the hash. *)
#[local] Opaque pg_checksum_block.

(** ** Summing up leaves the page alone *)

(** Bytes as the memory of a C program holds them. *)
Definition bytes (p : Page) : Prop := Forall (λ b, 0 ≤ b < 256) p.

Lemma le_encode_decode l : Forall (λ b, 0 ≤ b < 256) l → le_encode (length l) (le_decode l) = l.
Proof.
  induction 1 as [|b l Hb _ IH]; [done|]. cbn [length le_encode le_decode].
  rewrite (Z.mul_comm 256), Z.mod_add, Z.mod_small, Z.div_add, Z.div_small, Z.add_0_l, IH by lia. done.
Qed.

Lemma blit_twice {A} o (l k p : list A) : length l = length k → 0 ≤ o → o + Z.of_nat (length l) ≤ Z.of_nat (length p) →
  blit o l (blit o k p) = blit o l p.
Proof.
  intros Hlk Ho Hp. unfold blit. rewrite take_app_le by (rewrite length_take; lia).
  rewrite take_take, Nat.min_id. do 2 f_equal.
  rewrite drop_app_ge by (rewrite length_take; lia). rewrite length_take.
  rewrite drop_app_ge by lia. rewrite drop_drop. f_equal. lia.
Qed.

Lemma blit_slice {A} o n (p : list A) : 0 ≤ o → 0 ≤ n → o + n ≤ Z.of_nat (length p) → blit o (slice o n p) p = p.
Proof.
  intros Ho Hn Hp. unfold blit. rewrite length_slice by lia. unfold slice.
  rewrite <-drop_drop, take_drop, take_drop. done.
Qed.

(** Putting a field back restores the page. *)
Lemma put16_back o v p : sized p → bytes p → 0 ≤ o → o + 2 ≤ BLCKSZ → put16 o (get16 o p) (put16 o v p) = p.
Proof.
  unfold sized. intros Hp Hb ? ?. unfold put16, get16.
  assert (length (slice o 2 p) = 2%nat) as Hl by (rewrite length_slice; lia).
  rewrite blit_twice by (rewrite ?length_le_encode; lia). rewrite <-Hl at 1.
  rewrite le_encode_decode; [apply blit_slice; lia|].
  unfold slice. apply Forall_take, Forall_drop, Hb.
Qed.

(** The checksum of a page, as a function. *)
Definition checksum_of (blkno : Z) (p : Page) : Z :=
  wrap_u 16 (Z.lxor (pg_checksum_block (put16 8 0 p)) blkno mod 65535 + 1).

Lemma run_checksum blkno p : sized p → bytes p → pg_checksum_page blkno p = (p, Ok (checksum_of blkno p)).
Proof.
  intros Hp Hb. unfold pg_checksum_page, mbind, M_bind, get, set_pd_checksum, modify, mret, M_ret.
  by rewrite put16_back by (done || page_lia).
Qed.

(** It never is zero, and it does not depend on the field. *)
Lemma checksum_range blkno p : 1 ≤ checksum_of blkno p ≤ 65535.
Proof.
  unfold checksum_of. pose proof (Z.mod_pos_bound (Z.lxor (pg_checksum_block (put16 8 0 p)) blkno) 65535 ltac:(lia)).
  rewrite wrap_u_small by (unfold in_u; lia). lia.
Qed.

Lemma checksum_field blkno v p : sized p → checksum_of blkno (put16 8 v p) = checksum_of blkno p.
Proof.
  intros Hp. unfold checksum_of, put16.
  rewrite (blit_twice 8 (le_encode 2 0) (le_encode 2 v)); [done|by rewrite !length_le_encode|done|].
  unfold sized in Hp. rewrite length_le_encode. page_lia.
Qed.

(** ** What is written is accepted *)

(** C28.  A page that is written with a checksum is accepted when it is read
    back: for every initialised page whose header looks sane, and in every state
    of the cluster's checksums at the write and at the read such that what is
    tested was written, the page [PageSetChecksum] leaves passes
    [PageIsVerified] without a failure being reported; the checksum is the only
    field that changes, it is not zero, and testing changes nothing. *)
Theorem checksum_roundtrip st st' blkno flags p :
  sized p → bytes p → PageIsNew p = false → header_sane p = true →
  (DataChecksumsNeedVerify st' = true → DataChecksumsNeedWrite st = true) →
  ∃ q, PageSetChecksum st blkno p = (q, Ok tt) ∧ same_except 8 10 p q
  ∧ (DataChecksumsNeedWrite st = true → pd_checksum q ≠ 0)
  ∧ PageIsVerified st' blkno flags q = (q, Ok (true, false)).
Proof.
  intros Hp Hb Hnew Hsane Hst.
  set (c := checksum_of blkno p). pose proof (checksum_range blkno p) as Hc. fold c in Hc.
  set (q := if DataChecksumsNeedWrite st then put16 8 c p else p).
  assert (same_except 8 10 p q) as Sq.
  { unfold q. destruct (DataChecksumsNeedWrite st); [apply put16_same_except; done || page_lia|apply same_except_refl]. }
  assert (bytes q) as Hbq.
  { unfold q, bytes in *. destruct (DataChecksumsNeedWrite st); [|done]. unfold put16, blit.
    apply Forall_app. split; [by apply Forall_take|]. apply Forall_app. split; [apply le_encode_bytes|by apply Forall_drop]. }
  assert (sized q) as Hq by (by eapply same_except_sized).
  assert (∀ o, 10 ≤ o → o + 2 ≤ BLCKSZ → get16 o q = get16 o p) as Hget
    by (intros o ? ?; apply (same_except_get16 8 10); done || lia).
  assert (PageIsNew q = false) as Hnewq by (unfold PageIsNew, pd_upper; by rewrite Hget).
  assert (header_sane q = true) as Hsaneq
    by (unfold header_sane, pd_flags, pd_lower, pd_upper, pd_special; by rewrite !Hget).
  assert (DataChecksumsNeedWrite st = true → pd_checksum q = c) as Hck.
  { intros Hw. unfold q, pd_checksum. rewrite Hw, put16_same by (done || page_lia). apply Z.mod_small. lia. }
  exists q. split_and!; [|done|intros Hw; rewrite (Hck Hw); lia|].
  - unfold PageSetChecksum. rewrite bind_get, Hnew. cbn [orb]. unfold q.
    destruct (DataChecksumsNeedWrite st); cbn [negb]; [|done]. by rewrite (bind_ok _ _ _ _ _ (run_checksum blkno p Hp Hb)).
  - unfold PageIsVerified. rewrite bind_get, Hnewq. cbn [negb andb].
    rewrite bind_assoc.
    assert ((if DataChecksumsNeedVerify st' then checksum ← pg_checksum_page blkno;
        mret (negb (checksum =? pd_checksum q)) else mret false) q = (q, Ok false)) as E.
    { destruct (DataChecksumsNeedVerify st') eqn:Ev; [|done]. specialize (Hst eq_refl).
      rewrite (bind_ok _ _ _ _ _ (run_checksum blkno q Hq Hbq)). rewrite (Hck Hst).
      assert (checksum_of blkno q = c) as ->; [|by rewrite Z.eqb_refl].
      unfold q. rewrite Hst. by apply checksum_field. }
    rewrite (bind_ok _ _ _ _ _ E), Hsaneq. done.
Qed.

Lemma init_page_bytes : sized (init_page 0) ∧ bytes (init_page 0) ∧ PageIsNew (init_page 0) = false
  ∧ header_sane (init_page 0) = true.
Proof.
  split; [apply init_wf|]. split; [|split; vm_compute; reflexivity]. unfold bytes, init_page.
  repeat (apply Forall_app; split); try apply le_encode_bytes; apply Forall_replicate; lia.
Qed.

Lemma checksum_roundtrip_witness :
  ∃ q, PageSetChecksum PG_DATA_CHECKSUM_INPROGRESS_ON 7 (init_page 0) = (q, Ok tt)
  ∧ PageIsVerified PG_DATA_CHECKSUM_VERSION 7 0 q = (q, Ok (true, false)).
Proof.
  destruct init_page_bytes as (Hp & Hb & Hn & Hs). revert Hp Hb Hn Hs. generalize (init_page 0) as p. intros p Hp Hb Hn Hs.
  destruct (checksum_roundtrip PG_DATA_CHECKSUM_INPROGRESS_ON PG_DATA_CHECKSUM_VERSION 7 0 p Hp Hb Hn Hs)
    as (q & E & _ & _ & V); [reflexivity|]. exists q. split; [exact E|exact V].
Defined.
