(* ===== verification/Session.v ===== *)
(** * Transactions, snapshots and SPI of one backend

    The backend-local state under the AutoIndex passes: the command counter
    ([xact.c]), the stack of active snapshots ([snapmgr.c]) and the SPI
    connection stack with its global result variables ([spi.c]).

    Parsing, query execution and utility commands are arguments of the section;
    the class [UtilityOk] states what a utility command must leave alone.  The
    theorems show which snapshot a statement runs under and what is left in
    [SPI_processed] and [SPI_tuptable]. *)
From Stdlib Require Import ZArith Lia.
From stdpp Require Import base tactics list strings numbers.
From S2P Require Import Prelude Visibility.

(** ** Results of queries *)

(** Column values, by type. *)
Inductive datum : Type :=
| DName (s : list Z)
| DOid (n : Z)
| DInt4 (n : Z)
| DInt8 (n : Z)
| DFloat4 (text : list Z).      (* the value in the text form of [float4out] *)

(** A row, with [None] for NULL. *)
Definition row : Type := list (option datum).

Definition SPI_ERROR_UNCONNECTED : Z := -4.

Definition SPI_ERROR_ARGUMENT : Z := -6.

Definition SPI_ERROR_COPY : Z := -2.

Definition SPI_ERROR_TRANSACTION : Z := -8.

Definition SPI_OK_CONNECT : Z := 1.

Definition SPI_OK_FINISH : Z := 2.

Definition SPI_OK_UTILITY : Z := 4.

Definition SPI_OK_SELECT : Z := 5.

Definition SPI_OK_SELINTO : Z := 6.

Definition SPI_OK_REWRITTEN : Z := 14.

(** The utility commands SPI treats in a way of their own. *)
Inductive utility_kind : Type :=
| UtilityCopy (frontend : bool)              (* from STDIN or to STDOUT *)
| UtilityTransaction
| UtilityCreateTableAs (is_select_into : bool)
| UtilityOther.

(** [QueryCompletion]: whether the tag is CMDTAG_SELECT, and the row count. *)
Record QueryCompletion : Type := mkCompletion {
  qc_select : bool;
  nprocessed : Z
}.

(** ** Session state *)

(** [_SPI_connection]: the result of the running call and the caller's globals. *)
Record SPI_connection : Type := mkConnection {
  conn_processed : Z;
  conn_tuptable : option (list row);
  outer_processed : Z;
  outer_tuptable : option (list row);
  outer_result : Z
}.

Record session (DB : Type) : Type := mkSession {
  db : DB;
  in_transaction : bool;                     (* TBLOCK_STARTED, else TBLOCK_DEFAULT *)
  currentCommandId : Z;
  currentCommandIdUsed : bool;
  IsolationUsesXactSnapshot : bool;
  FirstSnapshotSet : bool;
  CurrentSnapshot : option SnapshotData;
  ActiveSnapshot : list SnapshotData;        (* innermost first *)
  SPI_stack : list SPI_connection;           (* innermost first *)
  SPI_processed : Z;
  SPI_tuptable : option (list row);
  SPI_result : Z
}.

Arguments mkSession {DB}.
Arguments db {DB}.
Arguments in_transaction {DB}.
Arguments currentCommandId {DB}.
Arguments currentCommandIdUsed {DB}.
Arguments IsolationUsesXactSnapshot {DB}.
Arguments FirstSnapshotSet {DB}.
Arguments CurrentSnapshot {DB}.
Arguments ActiveSnapshot {DB}.
Arguments SPI_stack {DB}.
Arguments SPI_processed {DB}.
Arguments SPI_tuptable {DB}.
Arguments SPI_result {DB}.

(** Field updates. *)
Section updates.
  Context {DB : Type}.

Definition set_db (d : DB) (s : session DB) : session DB :=
  mkSession d (in_transaction s) (currentCommandId s) (currentCommandIdUsed s)
    (IsolationUsesXactSnapshot s) (FirstSnapshotSet s) (CurrentSnapshot s) (ActiveSnapshot s)
    (SPI_stack s) (SPI_processed s) (SPI_tuptable s) (SPI_result s).

Definition set_command (cid : Z) (used : bool) (s : session DB) : session DB :=
  mkSession (db s) (in_transaction s) cid used
    (IsolationUsesXactSnapshot s) (FirstSnapshotSet s) (CurrentSnapshot s) (ActiveSnapshot s)
    (SPI_stack s) (SPI_processed s) (SPI_tuptable s) (SPI_result s).

Definition set_current (first : bool) (c : option SnapshotData) (s : session DB) : session DB :=
  mkSession (db s) (in_transaction s) (currentCommandId s) (currentCommandIdUsed s)
    (IsolationUsesXactSnapshot s) first c (ActiveSnapshot s)
    (SPI_stack s) (SPI_processed s) (SPI_tuptable s) (SPI_result s).

Definition set_active (a : list SnapshotData) (s : session DB) : session DB :=
  mkSession (db s) (in_transaction s) (currentCommandId s) (currentCommandIdUsed s)
    (IsolationUsesXactSnapshot s) (FirstSnapshotSet s) (CurrentSnapshot s) a
    (SPI_stack s) (SPI_processed s) (SPI_tuptable s) (SPI_result s).

Definition set_stack (st : list SPI_connection) (s : session DB) : session DB :=
  mkSession (db s) (in_transaction s) (currentCommandId s) (currentCommandIdUsed s)
    (IsolationUsesXactSnapshot s) (FirstSnapshotSet s) (CurrentSnapshot s) (ActiveSnapshot s)
    st (SPI_processed s) (SPI_tuptable s) (SPI_result s).

Definition set_globals (p : Z) (t : option (list row)) (r : Z) (s : session DB) : session DB :=
  mkSession (db s) (in_transaction s) (currentCommandId s) (currentCommandIdUsed s)
    (IsolationUsesXactSnapshot s) (FirstSnapshotSet s) (CurrentSnapshot s) (ActiveSnapshot s)
    (SPI_stack s) p t r.

Definition set_xact (b : bool) (s : session DB) : session DB :=
  mkSession (db s) b (currentCommandId s) (currentCommandIdUsed s)
    (IsolationUsesXactSnapshot s) (FirstSnapshotSet s) (CurrentSnapshot s) (ActiveSnapshot s)
    (SPI_stack s) (SPI_processed s) (SPI_tuptable s) (SPI_result s).

End updates.

Definition set_curcid (cid : Z) (s : SnapshotData) : SnapshotData :=
  mkSnapshot (snap_xmin s) (snap_xmax s) (xip s) (subxip s) (suboverflowed s)
    (takenDuringRecovery s) cid.

(** ** The command counter and the snapshot stack *)

Section session.
  Context {DB : Type} (GetSnapshotData : DB → Z → SnapshotData).

(** [GetCurrentCommandId(used)] *)
Definition GetCurrentCommandId (used : bool) : M (session DB) Z := λ s,
  (if used then set_command (currentCommandId s) true s else s, Ok (currentCommandId s)).

Definition InvalidCommandId : Z := 2 ^ 32 - 1.

Definition SnapshotSetCommandId (cid : Z) (s : session DB) : session DB :=
  if FirstSnapshotSet s then set_current true (set_curcid cid <$> CurrentSnapshot s) s else s.

Definition CommandCounterIncrement : M (session DB) unit := λ s,
  if currentCommandIdUsed s then
    if u32 (currentCommandId s + 1) =? InvalidCommandId then
      (s, Err (ErrReport "cannot have more than 2^32-2 commands in a transaction"))
    else
      let cid := u32 (currentCommandId s + 1) in
      (SnapshotSetCommandId cid (set_command cid false s), Ok tt)
  else (s, Ok tt).

Definition GetTransactionSnapshot : M (session DB) SnapshotData := λ s,
  if FirstSnapshotSet s && IsolationUsesXactSnapshot s then
    match CurrentSnapshot s with
    | Some snap => (s, Ok snap)
    | None => (s, Err ErrUB)
    end
  else
    let snap := GetSnapshotData (db s) (currentCommandId s) in
    (set_current true (Some snap) s, Ok snap).

(** The argument is [CurrentSnapshot], so the stack gets a private copy. *)
Definition PushActiveSnapshot (snap : SnapshotData) : M (session DB) unit :=
  modify (λ s, set_active (snap :: ActiveSnapshot s) s).

Definition UpdateActiveSnapshotCommandId : M (session DB) unit := λ s,
  match ActiveSnapshot s with
  | [] => (s, Err ErrUB)
  | snap :: rest => (set_active (set_curcid (currentCommandId s) snap :: rest) s, Ok tt)
  end.

Definition PopActiveSnapshot : M (session DB) unit := λ s,
  match ActiveSnapshot s with
  | [] => (s, Err ErrUB)
  | _ :: rest => (set_active rest s, Ok tt)
  end.

Definition ActiveSnapshotSet (s : session DB) : bool :=
  match ActiveSnapshot s with [] => false | _ :: _ => true end.

(** No portal is active in a background worker. *)
Definition EnsurePortalSnapshotExists : M (session DB) unit := λ s,
  if ActiveSnapshotSet s then (s, Ok tt)
  else (s, Err (ErrReport "cannot execute SQL without an outer snapshot or portal")).

(** ** SPI *)

Definition SPI_connect : M (session DB) Z := λ s,
  let conn := mkConnection 0 None (SPI_processed s) (SPI_tuptable s) (SPI_result s) in
  (set_globals 0 None 0 (set_stack (conn :: SPI_stack s) s), Ok SPI_OK_CONNECT).

Definition SPI_finish : M (session DB) Z := λ s,
  match SPI_stack s with
  | [] => (s, Ok SPI_ERROR_UNCONNECTED)
  | c :: rest =>
      (set_globals (outer_processed c) (outer_tuptable c) (outer_result c) (set_stack rest s),
       Ok SPI_OK_FINISH)
  end.

(** The stack at the end of a transaction: every level is popped. *)
Definition AtEOXact_SPI (s : session DB) : session DB :=
  match list.last (SPI_stack s) with
  | Some c => set_globals (outer_processed c) (outer_tuptable c) (outer_result c) (set_stack [] s)
  | None => s
  end.

Definition AtEOXact_Snapshot (s : session DB) : session DB :=
  set_current false None (set_active [] s).

(** [_SPI_current->processed] and [->tuptable] *)
Definition set_conn (p : Z) (t : option (list row)) : M (session DB) unit := λ s,
  match SPI_stack s with
  | [] => (s, Err ErrUB)
  | c :: rest =>
      (set_stack (mkConnection p t (outer_processed c) (outer_tuptable c) (outer_result c)
                  :: rest) s, Ok tt)
  end.

Definition get_conn : M (session DB) (Z * option (list row)) := λ s,
  match SPI_stack s with
  | [] => (s, Err ErrUB)
  | c :: _ => (s, Ok (conn_processed c, conn_tuptable c))
  end.

(** Statements: [exec_select] runs a SELECT under a snapshot, [ProcessUtility] a
    utility command. *)
Context {Src Raw Q U : Type}.
Context (raw_parser : Src → result (list Raw)).
Context (exec_select : Q → SnapshotData → DB → result (list row)).
Context (ProcessUtility : U → M (session DB) QueryCompletion).
Context (kind_of : U → utility_kind).

Record stmt : Type := mkStmt {
  body : Q + U;
  canSetTag : bool;
  CommandIsReadOnly : bool;
  PlannedStmtRequiresSnapshot : bool
}.

Context (analyze_and_plan : Raw → DB → result (list stmt)).

(** [_SPI_pquery] of a SELECT with an SPI or null receiver. *)
Definition SPI_pquery (q : Q) (to_spi : bool) (tcount : Z) : M (session DB) Z :=
  s ← get;
  match ActiveSnapshot s with
  | [] => fail ErrUB
  | snap :: _ =>
      rows ← lift_result (exec_select q snap (db s));
      let rows := if tcount =? 0 then rows else take (Z.to_nat tcount) rows in
      set_conn (Z.of_nat (length rows)) (if to_spi then Some rows else None) ;;
      mret (if to_spi then SPI_OK_SELECT else SPI_OK_UTILITY)
  end.

(** The values a call returns: code, processed, tuptable. *)
Definition spi_values : Type := Z * Z * option (list row).

(** The checks for unsupported cases. *)
Definition SPI_unsupported (st : stmt) : option Z :=
  match body st with
  | inl _ => None
  | inr u => match kind_of u with
             | UtilityCopy true => Some SPI_ERROR_COPY
             | UtilityTransaction => Some SPI_ERROR_TRANSACTION
             | _ => None
             end
  end.

(** The call of [ProcessUtility] and the row counts of some commands. *)
Definition SPI_utility (u : U) : M (session DB) Z :=
  qc ← ProcessUtility u;
  '(_, tuptable) ← get_conn;
  match tuptable with
  | Some rows => set_conn (Z.of_nat (length rows)) (Some rows)
  | None => mret tt
  end ;;
  match kind_of u with
  | UtilityCreateTableAs is_select_into =>
      '(_, tuptable) ← get_conn;
      set_conn (if qc_select qc then nprocessed qc else 0) tuptable ;;
      mret (if is_select_into then SPI_OK_SELINTO else SPI_OK_UTILITY)
  | UtilityCopy _ =>
      '(_, tuptable) ← get_conn;
      set_conn (nprocessed qc) tuptable ;;
      mret SPI_OK_UTILITY
  | _ => mret SPI_OK_UTILITY
  end.

(** The body of the inner loop; [true] for [goto fail]. *)
Definition SPI_execute_stmt (read_only : bool) (tcount : Z) (pushed : bool) (st : stmt)
    (my : spi_values) : M (session DB) (bool * spi_values) :=
  let '(_, my_processed, my_tuptable) := my in
  set_conn 0 None ;;
  match SPI_unsupported st with
  | Some code => mret (true, (code, my_processed, my_tuptable))
  | None =>
      (if read_only && negb (CommandIsReadOnly st)
       then fail (ErrReport "command is not allowed in a non-volatile function") else mret tt) ;;
      (if negb read_only && pushed
       then CommandCounterIncrement ;; UpdateActiveSnapshotCommandId else mret tt) ;;
      res ← match body st with
            | inl q => SPI_pquery q (canSetTag st) (if canSetTag st then tcount else 0)
            | inr u => SPI_utility u
            end;
      my ← (if canSetTag st then '(p, t) ← get_conn; mret (res, p, t)
            else '(p, _) ← get_conn; set_conn p None ;; mret my);
      let '(_, p, t) := my in
      mret (if res <? 0 then (true, (res, p, t)) else (false, my))
  end.

Fixpoint SPI_execute_stmts (read_only : bool) (tcount : Z) (pushed : bool) (sts : list stmt)
    (my : spi_values) : M (session DB) (bool * spi_values) :=
  match sts with
  | [] => mret (false, my)
  | st :: sts' =>
      '(failed, my) ← SPI_execute_stmt read_only tcount pushed st my;
      if failed : bool then mret (true, my)
      else SPI_execute_stmts read_only tcount pushed sts' my
  end.

(** Does the statement list need a snapshot? *)
Definition needs_snapshot (sts : list stmt) : bool :=
  match sts with
  | [] => false
  | [st] => PlannedStmtRequiresSnapshot st
  | _ :: _ :: _ => true
  end.

(** The body of the loop over the parsed statements of the source text: whether
    it ended in [goto fail], whether a snapshot is pushed, and the values. *)
Definition SPI_execute_plansource (read_only : bool) (tcount : Z) (raw : Raw)
    (pushed : bool) (my : spi_values) : M (session DB) (bool * bool * spi_values) :=
  s ← get;
  sts ← lift_result (analyze_and_plan raw (db s));
  pushed ← (if needs_snapshot sts then
              EnsurePortalSnapshotExists ;;
              if negb read_only then
                (if pushed : bool then PopActiveSnapshot else mret tt) ;;
                snap ← GetTransactionSnapshot;
                PushActiveSnapshot snap ;; mret true
              else mret pushed
            else mret pushed);
  '(failed, my) ← SPI_execute_stmts read_only tcount pushed sts my;
  if failed : bool then mret (true, pushed, my)
  else
    (if negb read_only then CommandCounterIncrement else mret tt) ;;
    mret (false, pushed, my).

Fixpoint SPI_execute_plan_loop (read_only : bool) (tcount : Z) (raws : list Raw)
    (pushed : bool) (my : spi_values) : M (session DB) (bool * spi_values) :=
  match raws with
  | [] => mret (pushed, my)
  | raw :: raws' =>
      '(failed, pushed, my) ← SPI_execute_plansource read_only tcount raw pushed my;
      if failed : bool then mret (pushed, my)
      else SPI_execute_plan_loop read_only tcount raws' pushed my
  end.

(** [_SPI_execute_plan] as [SPI_execute] calls it: no given snapshot, default
    options, a one-shot plan. *)
Definition SPI_execute_plan (raws : list Raw) (read_only : bool) (tcount : Z) : M (session DB) Z :=
  '(pushed, (my_res, my_processed, my_tuptable)) ←
    SPI_execute_plan_loop read_only tcount raws false (0, 0, None);
  (if pushed : bool then PopActiveSnapshot else mret tt) ;;
  modify (λ s, set_globals my_processed my_tuptable (SPI_result s) s) ;;
  '(p, _) ← get_conn;
  set_conn p None ;;
  mret (if my_res =? 0 then SPI_OK_REWRITTEN else my_res).

Definition SPI_execute (src : Src) (read_only : bool) (tcount : Z) : M (session DB) Z :=
  if tcount <? 0 then mret SPI_ERROR_ARGUMENT
  else
    s ← get;
    match SPI_stack s with
    | [] => mret SPI_ERROR_UNCONNECTED
    | _ :: _ => raws ← lift_result (raw_parser src); SPI_execute_plan raws read_only tcount
    end.

(** What SPI and its callers rely on in a utility command: it leaves the snapshot
    stack and the SPI state as it found them, and the command counter does not
    go backwards. *)
Class UtilityOk : Prop := utility_frame : ∀ u s s' r, ProcessUtility u s = (s', r) →
  ActiveSnapshot s' = ActiveSnapshot s ∧ SPI_stack s' = SPI_stack s ∧
  SPI_processed s' = SPI_processed s ∧ SPI_tuptable s' = SPI_tuptable s ∧
  SPI_result s' = SPI_result s ∧ in_transaction s' = in_transaction s.

(** ** Lemmas *)

(** A single read-only SELECT. *)
Lemma SPI_execute_select src raw q tcount s snap actives c rest rows :
  raw_parser src = Ok [raw] → 0 ≤ tcount →
  analyze_and_plan raw (db s) = Ok [mkStmt (inl q) true true true] →
  ActiveSnapshot s = snap :: actives → SPI_stack s = c :: rest →
  exec_select q snap (db s) = Ok rows →
  let out := if tcount =? 0 then rows else take (Z.to_nat tcount) rows in
  SPI_execute src true tcount s =
    (set_globals (Z.of_nat (length out)) (Some out) (SPI_result s)
       (set_stack (mkConnection (Z.of_nat (length out)) None (outer_processed c)
                     (outer_tuptable c) (outer_result c) :: rest) s), Ok SPI_OK_SELECT).
Proof.
  intros Hp Ht Ha Hs Hst Hx out. destruct s; simpl in *; subst.
  unfold SPI_execute. destruct (Z.ltb_spec tcount 0); [lia|].
  msimpl. rewrite Hp. msimpl. unfold SPI_execute_plansource. msimpl. rewrite Ha. msimpl.
  unfold SPI_execute_stmt, SPI_pquery. msimpl. by rewrite Hx.
Qed.

End session.
