(* ===== verification/Catalog.v ===== *)
(** * The system catalogs, as the passes see them

    A heap of versioned catalog rows with the operations by which a command
    changes it ([heap_insert], [heap_delete], with the combo command ids of
    [combocid.c]), the SELECT statements of the advisor and the lifecycle manager
    as functions of the rows a snapshot shows, and utility commands as programs
    over the heap operations.

    Which rows a utility command writes is an argument ([plan_utility]).  For
    every choice of it the section proves what the passes rely on or suffer
    from: a utility command changes nothing for a snapshot taken before it. *)
From Stdlib Require Import ZArith Lia.
From stdpp Require Import base tactics list strings numbers.
From S2P Require Import Prelude Visibility LikeMatch Session.

(** ** Rows *)

(** The columns of the catalogs that the passes read. *)
Inductive catrow : Type :=
| pg_class (oid : Z) (relname : list Z) (relnamespace : Z) (reltuples : list Z) (relpages : Z)
| pg_index (indexrelid indrelid : Z)
| pg_attribute (attrelid : Z) (attname : list Z) (attnum : Z)
| pg_namespace (oid : Z) (nspname : list Z).

Record catalog : Type := mkCatalog {
  heap : list (HeapTupleHeader * catrow);
  cur_xid : Z;                              (* xid of the running transaction *)
  committed : list Z;
  combos : list (Z * Z);
  idx_scan : Z → option Z;                  (* pg_stat_user_indexes *)
  enc : encoding
}.

(** Transactions run one at a time here: every other one has ended. *)
Definition catalog_env (c : catalog) : xact_env :=
  mkXactEnv (λ x, x =? cur_xid c) (λ x, x =? cur_xid c)
    (λ x, bool_decide (x ∈ committed c)) id id (combos c).

Definition GetSnapshotData (c : catalog) (cid : Z) : SnapshotData :=
  mkSnapshot (cur_xid c) (cur_xid c) [] [] false false cid.

(** ** Heap operations *)

(** A new row, stamped with the current transaction and command. *)
Definition heap_insert (r : catrow) (cid : Z) (c : catalog) : catalog :=
  mkCatalog (heap c ++ [(mkTuple (cur_xid c) 0 cid HEAP_XMAX_INVALID, r)])
    (cur_xid c) (committed c) (combos c) (idx_scan c) (enc c).

(** [GetComboCommandId]: an existing pair is reused. *)
Definition GetComboCommandId (cmin cmax : Z) (cs : list (Z * Z)) : Z * list (Z * Z) :=
  match list_find (λ p, p = (cmin, cmax)) cs with
  | Some (i, _) => (Z.of_nat i, cs)
  | None => (Z.of_nat (length cs), cs ++ [(cmin, cmax)])
  end.

(** [HeapTupleHeaderAdjustCmax]: the command id to store on deletion, whether it
    is a combo id, and the combo ids. *)
Definition HeapTupleHeaderAdjustCmax (c : catalog) (tup : HeapTupleHeader) (cmax : Z) :
    Z * bool * list (Z * Z) :=
  if negb (HeapTupleHeaderXminCommitted tup) && (t_xmin tup =? cur_xid c) then
    let '(combo, cs) := GetComboCommandId (HeapTupleHeaderGetCmin (catalog_env c) tup) cmax
                          (combos c) in
    (combo, true, cs)
  else (cmax, false, combos c).

(** The bits [heap_delete] clears: HEAP_XMAX_BITS, HEAP_MOVED and HEAP_COMBOCID. *)
Definition cleared_bits : Z :=
  foldr Z.lor 0 [HEAP_XMAX_COMMITTED; HEAP_XMAX_INVALID; HEAP_XMAX_IS_MULTI; HEAP_LOCK_MASK;
    HEAP_XMAX_LOCK_ONLY; HEAP_MOVED_OFF; HEAP_MOVED_IN; HEAP_COMBOCID].

(** The header of a live row after its deletion. *)
Definition deleted_header (c : catalog) (tup : HeapTupleHeader) (cid : Z) : HeapTupleHeader :=
  let '(cmax, iscombo, _) := HeapTupleHeaderAdjustCmax c tup cid in
  mkTuple (t_xmin tup) (cur_xid c) cmax
    (Z.lor (Z.ldiff (t_infomask tup) cleared_bits)
       (if iscombo : bool then HEAP_COMBOCID else 0)).

Definition heap_delete (i : nat) (cid : Z) (c : catalog) : catalog :=
  match heap c !! i with
  | Some (tup, r) =>
      mkCatalog (<[i := (deleted_header c tup cid, r)]> (heap c)) (cur_xid c) (committed c)
        (HeapTupleHeaderAdjustCmax c tup cid).2 (idx_scan c) (enc c)
  | None => c
  end.

(** ** Visible rows *)

Definition row_visible (c : catalog) (snap : SnapshotData) (h : HeapTupleHeader * catrow) : bool :=
  mvcc_visible (catalog_env c) snap h.1.

Definition visible (c : catalog) (snap : SnapshotData) : list catrow :=
  snd <$> filter (λ h, row_visible c snap h = true) (heap c).

(** ** The SELECT statements *)

Inductive query : Type :=
| Q_relsize (relid : Z)                    (* estimate_index_build_cost *)
| Q_leading_index (relid attno : Z)        (* index_already_exists *)
| Q_count_auto (relid : Z)                 (* count_auto_indexes *)
| Q_unused_auto.                           (* autoindex_run_lifecycle *)

(** [relname LIKE 'autoindex_%'] *)
Definition like_autoindex (c : catalog) (name : list Z) : bool :=
  match namelike (enc c) (Some None) name like_pattern with
  | Some (Ok b) => b
  | _ => false
  end.

(** SELECT COALESCE(reltuples, 1), COALESCE(relpages, 1) FROM pg_class WHERE oid = relid *)
Definition sel_relsize (relid : Z) (rows : list catrow) : list row :=
  rows ≫= λ r, match r with
  | pg_class o _ _ tuples pages =>
      if o =? relid then [[Some (DFloat4 tuples); Some (DInt4 pages)]] else []
  | _ => []
  end.

(** The join of pg_index and pg_attribute on the index's first column, with the
    EXISTS condition that the table's column [attno] has the same name. *)
Definition sel_leading_index (relid attno : Z) (rows : list catrow) : list row :=
  let same_name name := existsb (λ r, match r with
    | pg_attribute rel n a => (rel =? relid) && (a =? attno) && bool_decide (n = name)
    | _ => false
    end) rows in
  rows ≫= λ i, match i with
  | pg_index idx tbl =>
      if tbl =? relid then
        rows ≫= λ a, match a with
        | pg_attribute rel n k =>
            if (rel =? idx) && (k =? 1) && same_name n then [[Some (DInt4 1)]] else []
        | _ => []
        end
      else []
  | _ => []
  end.

(** Pairs of an index's pg_class row and its pg_index row. *)
Definition index_join (rows : list catrow) : list (Z * list Z * Z * Z) :=
  rows ≫= λ k, match k with
  | pg_class o name nsp _ _ =>
      rows ≫= λ i, match i with
      | pg_index idx tbl => if o =? idx then [(o, name, nsp, tbl)] else []
      | _ => []
      end
  | _ => []
  end.

(** SELECT count( * ) ... WHERE i.indrelid = relid AND c.relname LIKE ... *)
Definition auto_indexes (c : catalog) (relid : Z) (rows : list catrow) : list (list Z) :=
  index_join rows ≫= λ '(_, name, _, tbl),
    if (tbl =? relid) && like_autoindex c name then [name] else [].

Definition sel_unused_auto (c : catalog) (rows : list catrow) : list row :=
  index_join rows ≫= λ '(o, name, nsp, tbl),
    if like_autoindex c name && (default 0 (idx_scan c o) =? 0) then
      rows ≫= λ n, match n with
      | pg_namespace no nname =>
          if no =? nsp
          then [[Some (DName name); Some (DName nname); Some (DOid tbl); DInt8 <$> idx_scan c o]]
          else []
      | _ => []
      end
    else [].

Definition exec_select (q : query) (snap : SnapshotData) (c : catalog) : result (list row) :=
  let rows := visible c snap in
  Ok match q with
  | Q_relsize relid => sel_relsize relid rows
  | Q_leading_index relid attno => sel_leading_index relid attno rows
  | Q_count_auto relid => [[Some (DInt8 (Z.of_nat (length (auto_indexes c relid rows))))]]
  | Q_unused_auto => sel_unused_auto c rows
  end.

(** ** Utility commands *)

(** What a utility command does to the heap, one action after the other. *)
Inductive action : Type :=
| AInsert (r : catrow)
| ADelete (i : nat)
| ACommand.                                 (* CommandCounterIncrement *)

(** Rows are deleted while they are live. *)
Definition live_row (c : catalog) (i : nat) : bool :=
  match heap c !! i with
  | Some (tup, _) => hasb (t_infomask tup) HEAP_XMAX_INVALID
  | None => false
  end.

Definition run_action (a : action) : M (session catalog) unit :=
  match a with
  | AInsert r =>
      cid ← GetCurrentCommandId true;
      modify (λ s, set_db (heap_insert r cid (db s)) s)
  | ADelete i =>
      s ← get;
      if live_row (db s) i then
        cid ← GetCurrentCommandId true;
        modify (λ s, set_db (heap_delete i cid (db s)) s)
      else fail (ErrReport "tuple concurrently updated")
  | ACommand => CommandCounterIncrement
  end.

Section utility.
  Context {U : Type} (plan_utility : U → catalog → result (list action * QueryCompletion)).

Definition ProcessUtility (u : U) : M (session catalog) QueryCompletion :=
  s ← get;
  '(acts, qc) ← lift_result (plan_utility u (db s));
  mfor acts run_action ;;
  mret qc.

End utility.

(** ** Invariant *)

(** A row that is live, or was deleted by a transaction we know of; combo ids
    refer to existing pairs. *)
Record header_ok (c : catalog) (tup : HeapTupleHeader) : Prop := mkHeaderOk {
  hd_mask : ∃ m x k : bool, t_infomask tup =
    (if m then HEAP_XMIN_COMMITTED else 0) + (if x then HEAP_XMAX_INVALID else 0) +
    (if k then HEAP_COMBOCID else 0);
  hd_combo : hasb (t_infomask tup) HEAP_COMBOCID = true →
    0 ≤ t_field3 tup < Z.of_nat (length (combos c));
  hd_committed : HeapTupleHeaderXminCommitted tup = true → t_xmin tup ≠ cur_xid c
}.

Definition catalog_ok (c : catalog) : Prop := Forall (λ h, header_ok c h.1) (heap c).

(** More combo ids do not matter to rows that exist. *)
Definition extends (c c' : catalog) : Prop :=
  cur_xid c' = cur_xid c ∧ committed c' = committed c ∧ combos c `prefix_of` combos c' ∧
  idx_scan c' = idx_scan c ∧ enc c' = enc c.

(** The catalog as the transaction [x] sees it, which has done nothing yet. *)
Definition as_seen_by (x : Z) (c : catalog) : catalog :=
  mkCatalog (heap c) x (committed c) [] (idx_scan c) (enc c).

Definition fresh_xid (x : Z) (c : catalog) : Prop :=
  x ≠ cur_xid c ∧ Forall (λ h, t_xmin h.1 ≠ x) (heap c).

(** As long as the running transaction has not committed, other transactions see no
    difference. *)
Definition observers_same (c c' : catalog) : Prop :=
  cur_xid c ∉ committed c → ∀ x, fresh_xid x c →
    fresh_xid x c' ∧ ∀ snap, visible (as_seen_by x c') snap = visible (as_seen_by x c) snap.

(** What a utility command may do to the session. *)
Record stable (s s' : session catalog) : Prop := mkStable {
  st_ok : catalog_ok (db s');
  st_ext : extends (db s) (db s');
  st_visible : ∀ snap, curcid snap ≤ currentCommandId s →
    visible (db s') snap = visible (db s) snap;
  st_cid : currentCommandId s ≤ currentCommandId s' < 2 ^ 32 - 1;
  st_observers : observers_same (db s) (db s');
  st_frame : ActiveSnapshot s' = ActiveSnapshot s ∧ SPI_stack s' = SPI_stack s ∧
    SPI_processed s' = SPI_processed s ∧ SPI_tuptable s' = SPI_tuptable s ∧
    SPI_result s' = SPI_result s ∧ in_transaction s' = in_transaction s
}.

Definition cat_session_ok (s : session catalog) : Prop :=
  catalog_ok (db s) ∧ 0 ≤ currentCommandId s < 2 ^ 32 - 1.

(** The frame holds in every state. *)
Definition same_frame (s s' : session catalog) : Prop :=
  ActiveSnapshot s' = ActiveSnapshot s ∧ SPI_stack s' = SPI_stack s ∧
  SPI_processed s' = SPI_processed s ∧ SPI_tuptable s' = SPI_tuptable s ∧
  SPI_result s' = SPI_result s ∧ in_transaction s' = in_transaction s.

(** A session on an empty catalog. *)
Definition empty_session : session catalog :=
  mkSession (mkCatalog [] 800 [700] [] (λ _, None) PG_UTF8) true 0 false false false None [] [] 0 None 0.

(** ** Lemmas *)

Lemma GetComboCommandId_spec cmin cmax cs :
  let '(k, cs') := GetComboCommandId cmin cmax cs in
  cs' !! Z.to_nat k = Some (cmin, cmax) ∧ cs `prefix_of` cs' ∧ 0 ≤ k < Z.of_nat (length cs').
Proof.
  unfold GetComboCommandId. destruct (list_find _ cs) as [[i p]|] eqn:E.
  - apply list_find_Some in E as (Hi & -> & _). rewrite Nat2Z.id.
    apply lookup_lt_Some in Hi as Hlt. split_and!; [done|done|lia|lia].
  - rewrite Nat2Z.id. split_and!.
    + by rewrite lookup_app_r, Nat.sub_diag by lia.
    + by apply prefix_app_r.
    + lia.
    + rewrite length_app. simpl. lia.
Qed.

Lemma combo_extends c c' tup : extends c c' → header_ok c tup →
  HeapTupleHeaderGetCmin (catalog_env c') tup = HeapTupleHeaderGetCmin (catalog_env c) tup ∧
  HeapTupleHeaderGetCmax (catalog_env c') tup = HeapTupleHeaderGetCmax (catalog_env c) tup.
Proof.
  intros (_ & _ & [l Hl] & _) [_ Hc _]. unfold HeapTupleHeaderGetCmin, HeapTupleHeaderGetCmax, combo_cid.
  destruct (hasb (t_infomask tup) HEAP_COMBOCID); [|done]. simpl. specialize (Hc eq_refl).
  rewrite Hl, lookup_app_l by lia. done.
Qed.

Lemma sees_extends c c' snap x cid : extends c c' →
  sees (catalog_env c') snap x cid = sees (catalog_env c) snap x cid.
Proof.
  intros (Hx & Hco & _). unfold sees, catalog_env; simpl. by rewrite Hx, Hco.
Qed.

Lemma visible_extends c c' snap tup : extends c c' → header_ok c tup →
  mvcc_visible (catalog_env c') snap tup = mvcc_visible (catalog_env c) snap tup.
Proof.
  intros He Hh. destruct (combo_extends c c' tup He Hh) as [Hmin Hmax].
  unfold mvcc_visible, inserted, deleted. rewrite Hmin, Hmax, (sees_extends c c') by done.
  do 2 f_equal. unfold deleter. destruct (_ || _); [done|]. by apply (sees_extends c c').
Qed.

Lemma header_ok_extends c c' tup : extends c c' → header_ok c tup → header_ok c' tup.
Proof.
  intros (Hx & _ & Hp & _) [Hm Hc Hn]. split; [done| |by rewrite Hx].
  intros H. specialize (Hc H). apply prefix_length in Hp. lia.
Qed.

Lemma own_invisible c snap cid : curcid snap ≤ cid →
  mvcc_visible (catalog_env c) snap (mkTuple (cur_xid c) 0 cid HEAP_XMAX_INVALID) = false.
Proof.
  intros H. unfold mvcc_visible, inserted, sees; simpl. rewrite Z.eqb_refl.
  change (HeapTupleHeaderGetCmin _ _) with cid. by destruct (Z.ltb_spec cid (curcid snap)); [lia|].
Qed.

Lemma heap_insert_stable r cid c snap : catalog_ok c → curcid snap ≤ cid →
  catalog_ok (heap_insert r cid c) ∧ extends c (heap_insert r cid c) ∧
  visible (heap_insert r cid c) snap = visible c snap.
Proof.
  intros Hok Hc. split_and!.
  - apply Forall_app. split.
    { eapply list.Forall_impl; [exact Hok|]. intros h. apply header_ok_extends. by split_and!. }
    constructor; [|constructor].
    split; [by exists false, true, false|by intros H; vm_compute in H..].
  - by split_and!.
  - unfold visible; simpl. rewrite list.filter_app. simpl.
    rewrite filter_cons_False; [by rewrite app_nil_r|].
    unfold row_visible; simpl. intros H.
    pose proof (own_invisible (heap_insert r cid c) snap cid Hc) as Hi. simpl in Hi. congruence.
Qed.

Lemma visible_live env snap tup : hasb (t_infomask tup) HEAP_XMAX_INVALID = true →
  mvcc_visible env snap tup = inserted env snap tup.
Proof.
  intros H. unfold mvcc_visible, deleted, deleter. by rewrite H, andb_true_r.
Qed.

(** Rows deleted by a later command of the own transaction are still there. *)
Lemma visible_deleted_later c snap tup : t_xmax tup = cur_xid c →
  hasb (t_infomask tup) HEAP_XMAX_IS_MULTI = false →
  curcid snap ≤ HeapTupleHeaderGetCmax (catalog_env c) tup →
  mvcc_visible (catalog_env c) snap tup = inserted (catalog_env c) snap tup.
Proof.
  intros Hx Hm Hc. unfold mvcc_visible, deleted, deleter. destruct (_ || _); [apply andb_true_r|].
  rewrite Hm. unfold sees; simpl. rewrite Hx, Z.eqb_refl.
  destruct (Z.ltb_spec (HeapTupleHeaderGetCmax (catalog_env c) tup) (curcid snap)); [lia|].
  apply andb_true_r.
Qed.

(** The masks of live rows, and what is left of them after a deletion. *)
Lemma live_mask (m x k : bool) mask : mask =
    (if m then HEAP_XMIN_COMMITTED else 0) + (if x then HEAP_XMAX_INVALID else 0) +
    (if k then HEAP_COMBOCID else 0) →
  hasb mask HEAP_XMIN_COMMITTED = m ∧
  (Z.land mask HEAP_XMIN_FROZEN =? HEAP_XMIN_FROZEN) = false ∧
  ∀ b : bool, Z.lor (Z.ldiff mask cleared_bits) (if b then HEAP_COMBOCID else 0) =
    (if m then HEAP_XMIN_COMMITTED else 0) + (if b then HEAP_COMBOCID else 0).
Proof.
  intros ->. split_and!; [by destruct m, x, k; vm_compute..|].
  intros b. by destruct m, x, k, b; vm_compute.
Qed.

Lemma deleted_mask (m b : bool) :
  let mask := (if m then HEAP_XMIN_COMMITTED else 0) + (if b then HEAP_COMBOCID else 0) in
  hasb mask HEAP_XMIN_COMMITTED = m ∧ hasb mask HEAP_COMBOCID = b ∧
  hasb mask HEAP_XMAX_IS_MULTI = false ∧
  (Z.land mask HEAP_XMIN_FROZEN =? HEAP_XMIN_FROZEN) = false.
Proof. destruct m, b; by vm_compute. Qed.

Lemma deleted_header_spec c tup cid snap :
  header_ok c tup → hasb (t_infomask tup) HEAP_XMAX_INVALID = true → curcid snap ≤ cid →
  let c' := mkCatalog (heap c) (cur_xid c) (committed c)
              (HeapTupleHeaderAdjustCmax c tup cid).2 (idx_scan c) (enc c) in
  extends c c' ∧ header_ok c' (deleted_header c tup cid) ∧
  mvcc_visible (catalog_env c') snap (deleted_header c tup cid) =
    mvcc_visible (catalog_env c) snap tup.
Proof.
  intros [(m & x & k & Hm) Hcombo Hcom] Hx Hc c'.
  destruct (live_mask m x k _ Hm) as (Hxc & Hfr & Hdel).
  rewrite (visible_live (catalog_env c) snap tup Hx). subst c'. unfold deleted_header, HeapTupleHeaderAdjustCmax.
  unfold HeapTupleHeaderXminCommitted in *. rewrite Hxc in *.
  destruct (negb m && (t_xmin tup =? cur_xid c)) eqn:Hown.
  - destruct m; [done|]. simpl in Hown. apply Z.eqb_eq in Hown as Hxm.
    pose proof (GetComboCommandId_spec (HeapTupleHeaderGetCmin (catalog_env c) tup) cid (combos c)) as Hg.
    destruct (GetComboCommandId _ _ _) as [kk cs]. destruct Hg as (Hl & Hp & Hb).
    simpl. rewrite (Hdel true).
    destruct (deleted_mask false true) as (D1 & D2 & D3 & D4). split_and!; [by split_and!| |].
    + split; simpl; [by exists false, false, true|done|done].
    + rewrite visible_deleted_later; [|done|done|].
      * unfold inserted, HeapTupleHeaderXminFrozen; simpl. rewrite Hfr. simpl.
        unfold sees; simpl. rewrite Hxm, Z.eqb_refl. f_equal.
        unfold HeapTupleHeaderGetCmin at 1, combo_cid; simpl. by rewrite Hl.
      * unfold HeapTupleHeaderGetCmax, combo_cid; simpl. by rewrite Hl.
  - simpl. rewrite (Hdel false).
    destruct (deleted_mask m false) as (D1 & D2 & D3 & D4).
    assert (Hne : t_xmin tup ≠ cur_xid c).
    { destruct m; [by apply Hcom|]. simpl in Hown. by apply Z.eqb_neq in Hown. }
    split_and!; [by split_and!| |].
    + split; simpl; [exists m, false, false; by destruct m|by rewrite D2|done].
    + rewrite visible_deleted_later; [|done|done|].
      * unfold inserted, HeapTupleHeaderXminFrozen; simpl. rewrite Hfr, D4. simpl.
        unfold sees; simpl. by apply Z.eqb_neq in Hne as ->.
      * unfold HeapTupleHeaderGetCmax. simpl. by rewrite D2.
Qed.

Lemma filter_snd_insert {A B} (P Q : A * B → bool) (l : list (A * B)) : ∀ i x y,
  l !! i = Some y → (∀ h, h ∈ l → P h = Q h) → P x = Q y → x.2 = y.2 →
  snd <$> filter (λ h, P h = true) (<[i := x]> l) = snd <$> filter (λ h, Q h = true) l.
Proof.
  assert (Hext : ∀ k : list (A * B), (∀ h, h ∈ k → P h = Q h) →
    snd <$> filter (λ h, P h = true) k = snd <$> filter (λ h, Q h = true) k).
  { induction k as [|z k IH]; intros Hk; [done|]. rewrite !filter_cons.
    rewrite (Hk z) by (by left). case_decide; csimpl; rewrite IH; auto; intros; apply Hk; by right. }
  induction l as [|z l IH]; intros [|i] x y Hi Hl Hxy H2; simplify_eq/=; rewrite !filter_cons.
  - rewrite Hxy. case_decide; csimpl; rewrite ?H2, Hext; auto; intros; apply Hl; by right.
  - rewrite (Hl z) by (by left). case_decide; csimpl; rewrite (IH i x y); auto;
      intros; apply Hl; by right.
Qed.

Lemma heap_delete_stable i cid c snap : catalog_ok c → live_row c i = true → curcid snap ≤ cid →
  catalog_ok (heap_delete i cid c) ∧ extends c (heap_delete i cid c) ∧
  visible (heap_delete i cid c) snap = visible c snap.
Proof.
  intros Hok Hlive Hc. unfold live_row in Hlive. unfold heap_delete.
  destruct (heap c !! i) as [[tup r]|] eqn:Hi; [|done].
  pose proof (proj1 (Forall_lookup _ _) Hok i _ Hi) as Hh. simpl in Hh.
  destruct (deleted_header_spec c tup cid snap Hh Hlive Hc) as (He & Hh' & Hv).
  set (c'' := mkCatalog (<[i := _]> (heap c)) _ _ _ _ _).
  assert (He' : extends c c'') by exact He.
  split_and!; [|done|].
  - apply Forall_insert.
    + eapply list.Forall_impl; [exact Hok|]. intros h. by apply header_ok_extends.
    + eapply header_ok_extends; [|exact Hh']. by split_and!.
  - apply (filter_snd_insert _ _ _ _ _ (tup, r)); [done| |exact Hv|done].
    intros h Hin. apply visible_extends; [done|].
    by apply (proj1 (list.Forall_forall _ _) Hok).
Qed.

(** ** Uncommitted changes and other transactions *)

Lemma observers_refl c : observers_same c c.
Proof. done. Qed.

Lemma observers_trans c1 c2 c3 : extends c1 c2 → observers_same c1 c2 → observers_same c2 c3 →
  observers_same c1 c3.
Proof.
  intros (Hx & Hc & _) H1 H2 Hn x Hf. destruct (H1 Hn x Hf) as [Hf2 Hv].
  destruct (H2 ltac:(by rewrite Hx, Hc) x Hf2) as [Hf3 Hv3]. split; [done|]. intros snap. by rewrite Hv3, Hv.
Qed.

Lemma sees_uncommitted c x y snap cid : y ≠ x → y ∉ committed c →
  sees (catalog_env (as_seen_by x c)) snap y cid = false.
Proof.
  intros Hy Hn. unfold sees; simpl. destruct (Z.eqb_spec y x); [done|].
  by rewrite (bool_decide_false (y ∈ committed c)), andb_false_r.
Qed.

Lemma insert_observed r cid c : observers_same c (heap_insert r cid c).
Proof.
  intros Hn x [Hx Hf]. split; [split; [done|]; apply Forall_app; by repeat constructor|].
  intros snap. unfold visible; simpl. rewrite list.filter_app. simpl.
  rewrite filter_cons_False; [by rewrite app_nil_r|].
  unfold row_visible, mvcc_visible, inserted; simpl.
  rewrite (sees_uncommitted (heap_insert r cid c) x (cur_xid c)) by done. done.
Qed.

(** A deletion that is not committed. *)
Lemma deleted_observed c tup cid x snap : header_ok c tup →
  hasb (t_infomask tup) HEAP_XMAX_INVALID = true → cur_xid c ∉ committed c → x ≠ cur_xid c →
  t_xmin tup ≠ x →
  t_xmin (deleted_header c tup cid) = t_xmin tup ∧
  mvcc_visible (catalog_env (as_seen_by x c)) snap (deleted_header c tup cid) =
    mvcc_visible (catalog_env (as_seen_by x c)) snap tup.
Proof.
  intros [(m & xi & k & Hm) _ _] Hx Hn Hc Hxm. destruct (live_mask m xi k _ Hm) as (_ & Hfr & Hdel).
  rewrite (visible_live _ snap tup Hx). unfold deleted_header.
  destruct (HeapTupleHeaderAdjustCmax c tup cid) as [[cmax b] cs]. simpl. split; [done|].
  destruct (deleted_mask m b) as (_ & _ & Hmu & Hfr'). rewrite (Hdel b). unfold mvcc_visible.
  set (t' := mkTuple _ _ _ _).
  assert (Hd : deleted (catalog_env (as_seen_by x c)) snap t' = false).
  { unfold deleted, deleter. destruct (_ || _); [done|]. unfold t'; simpl. rewrite Hmu.
    apply sees_uncommitted; auto. }
  rewrite Hd, andb_true_r. unfold inserted, HeapTupleHeaderXminFrozen, t'; simpl.
  rewrite Hfr, Hfr'. unfold sees; simpl. by destruct (Z.eqb_spec (t_xmin tup) x).
Qed.

Lemma delete_observed i cid c : catalog_ok c → live_row c i = true →
  observers_same c (heap_delete i cid c).
Proof.
  intros Hok Hlive Hn x [Hx Hf]. unfold live_row in Hlive. unfold heap_delete.
  destruct (heap c !! i) as [[tup r]|] eqn:Hi; [|done].
  pose proof (proj1 (Forall_lookup _ _) Hok i _ Hi) as Hh.
  pose proof (proj1 (Forall_lookup _ _) Hf i _ Hi) as Hxm. simpl in Hh, Hxm.
  split.
  - split; [done|]. apply Forall_insert; [done|]. simpl.
    by destruct (deleted_observed c tup cid x (GetSnapshotData c 0)) as [-> _].
  - intros snap. apply (filter_snd_insert _ _ _ _ _ (tup, r)); [done|done| |done].
    by destruct (deleted_observed c tup cid x snap) as [_ Hv].
Qed.

(** ** Utility commands and older snapshots *)

Lemma stable_refl s : cat_session_ok s → stable s s.
Proof. intros [Hok Hc]. split; [done|by split_and!|done|lia|done|done]. Qed.

Lemma extends_trans c1 c2 c3 : extends c1 c2 → extends c2 c3 → extends c1 c3.
Proof.
  intros (H1 & H2 & H3 & H4 & H5) (G1 & G2 & G3 & G4 & G5).
  split_and!; try congruence. by etrans.
Qed.

Lemma stable_trans s1 s2 s3 : stable s1 s2 → stable s2 s3 → stable s1 s3.
Proof.
  intros [Hok1 He1 Hv1 Hc1 O1 F1] [Hok2 He2 Hv2 Hc2 O2 F2].
  split; [done|by eapply extends_trans| |lia|by eapply observers_trans|].
  - intros snap Hs. rewrite Hv2, Hv1; [done|done|lia].
  - destruct F1 as (?&?&?&?&?&?), F2 as (?&?&?&?&?&?). split_and!; congruence.
Qed.

Lemma stable_session_ok s s' : cat_session_ok s → stable s s' → cat_session_ok s'.
Proof. intros [_ Hc] [Hok _ _ Hc' _ _]. split; [done|lia]. Qed.

Lemma CommandCounterIncrement_stable s : cat_session_ok s → stable s (CommandCounterIncrement s).1.
Proof.
  intros Hs. pose proof Hs as [Hok Hc]. unfold CommandCounterIncrement, InvalidCommandId.
  destruct (currentCommandIdUsed s); [|by apply stable_refl]. rewrite u32_small by lia.
  destruct (Z.eqb_spec (currentCommandId s + 1) (2 ^ 32 - 1)); [by apply stable_refl|].
  unfold SnapshotSetCommandId; simpl.
  destruct (FirstSnapshotSet s); (split; [done|by split_and!|done|simpl; lia|done|done]).
Qed.

Lemma run_action_stable a s : cat_session_ok s → stable s (run_action a s).1.
Proof.
  intros Hs. pose proof Hs as [Hok Hc]. destruct a as [r|i|].
  - msimpl. split; simpl; [|by split_and!| |lia|apply insert_observed|done].
    + apply (heap_insert_stable r _ _ (GetSnapshotData (db s) 0)); [done|simpl; lia].
    + intros snap Hsn. by apply heap_insert_stable.
  - msimpl. destruct (live_row (db s) i) eqn:Hl; [|by apply stable_refl].
    split; simpl; [| | |lia|by apply delete_observed|done].
    + apply (heap_delete_stable i _ _ (GetSnapshotData (db s) 0)); [done|done|simpl; lia].
    + apply (heap_delete_stable i _ _ (GetSnapshotData (db s) 0)); [done|done|simpl; lia].
    + intros snap Hsn. by apply heap_delete_stable.
  - by apply CommandCounterIncrement_stable.
Qed.

(** The completion does not matter to the state. *)
Lemma utility_state {U} (plan : U → catalog → result (list action * QueryCompletion)) u s :
  (ProcessUtility plan u s).1 =
    match plan u (db s) with
    | Ok (acts, _) => (mfor acts run_action s).1
    | Err _ => s
    end.
Proof.
  unfold ProcessUtility. msimpl. destruct (plan u (db s)) as [[acts qc]|e]; msimpl; [|done].
  by destruct (mfor acts run_action s) as [s' [[]|e]].
Qed.

Lemma utility_stable {U} (plan : U → catalog → result (list action * QueryCompletion)) u s :
  cat_session_ok s → stable s (ProcessUtility plan u s).1.
Proof.
  intros Hs. rewrite utility_state. destruct (plan u (db s)) as [[acts qc]|e]; [|by apply stable_refl].
  apply (mfor_pres (λ s', stable s s')); [by apply stable_refl|].
  intros a s' Hs'. eapply stable_trans; [done|]. by apply run_action_stable, (stable_session_ok s).
Qed.

Lemma run_action_frame a s s0 : same_frame s0 s → same_frame s0 (run_action a s).1.
Proof.
  intros H. destruct a as [r|i|]; msimpl; [exact H|by destruct (live_row (db s) i)|].
  unfold CommandCounterIncrement, SnapshotSetCommandId.
  destruct (currentCommandIdUsed s); [|done]. destruct (_ =? _); [done|].
  simpl. by destruct (FirstSnapshotSet s).
Qed.

#[export] Instance catalog_utility_ok {U} (plan : U → catalog → result (list action * QueryCompletion)) :
  UtilityOk (ProcessUtility plan).
Proof.
  intros u s s' r H. assert (Hf : same_frame s (ProcessUtility plan u s).1); [|by rewrite H in Hf].
  rewrite utility_state. destruct (plan u (db s)) as [[acts qc]|e]; [|done].
  apply (mfor_pres (same_frame s)); [done|]. intros a s1. apply run_action_frame.
Qed.

Lemma utility_first {U} (plan : U → catalog → result (list action * QueryCompletion)) u s :
  (FirstSnapshotSet s = true → is_Some (CurrentSnapshot s)) →
  FirstSnapshotSet (ProcessUtility plan u s).1 = true →
  is_Some (CurrentSnapshot (ProcessUtility plan u s).1).
Proof.
  intros H. rewrite utility_state. destruct (plan u (db s)) as [[acts qc]|e]; [|done].
  apply (mfor_pres (λ s, FirstSnapshotSet s = true → is_Some (CurrentSnapshot s))); [done|].
  intros a s1 H1. destruct a as [r|i|]; msimpl; [done|by destruct (live_row (db s1) i)|].
  unfold CommandCounterIncrement, SnapshotSetCommandId.
  destruct (currentCommandIdUsed s1); [|done]. destruct (_ =? _); [done|].
  simpl. destruct (FirstSnapshotSet s1) eqn:Hf; simpl; [|by rewrite Hf].
  intros _. by destruct (H1 eq_refl) as [x ->].
Qed.

Lemma exec_select_stable q snap c c' : extends c c' → visible c' snap = visible c snap →
  exec_select q snap c' = exec_select q snap c.
Proof.
  intros (_ & _ & _ & Hi & He) Hv. unfold exec_select. rewrite Hv.
  unfold auto_indexes, sel_unused_auto, like_autoindex. by rewrite Hi, He.
Qed.

(** ** Properties *)

(** Snapshot stability: whatever catalog rows a utility command inserts and
    deletes, and however many commands it counts, every SELECT under a snapshot
    whose [curcid] is not above the command id it started with returns the same
    rows before and after.  In particular the advisor's checks, which run under
    the snapshot of the pass, never see the indexes the pass creates. *)
Theorem utility_invisible {U} (plan : U → catalog → result (list action * QueryCompletion)) u s s' r q snap :
  cat_session_ok s → ProcessUtility plan u s = (s', r) → curcid snap ≤ currentCommandId s →
  exec_select q snap (db s') = exec_select q snap (db s).
Proof.
  intros Hs H Hc. pose proof (utility_stable plan u s Hs) as [_ He Hv _ _ _].
  rewrite H in He, Hv. apply exec_select_stable; [done|]. by apply Hv.
Qed.

Lemma utility_invisible_witness :
  let plan (_ : unit) (_ : catalog) :=
    Ok ([AInsert (pg_class 16400 (bytes "t") 2200 (bytes "0") 0); ACommand], mkCompletion false 0) in
  let snap := GetSnapshotData (db empty_session) 0 in
  let s' := (ProcessUtility plan tt empty_session).1 in
  length (heap (db s')) = 1%nat ∧
  exec_select (Q_relsize 16400) snap (db s') = exec_select (Q_relsize 16400) snap (db empty_session).
Proof.
  intros plan snap s'. split; [done|].
  apply (utility_invisible plan tt empty_session s' (ProcessUtility plan tt empty_session).2);
    [|done|done]. split; [constructor|done].
Defined.
