(* ===== verification/Sql.v ===== *)
(** * The SQL commands of the passes

    The texts of the [CREATE INDEX] command of [create_index_for_candidate] and of
    the [DROP INDEX] command of [autoindex_run_lifecycle], byte for byte, and the
    grammar rules that read them.  Text that has another shape goes to
    [parse_other], the rest of the grammar. *)
From Stdlib Require Import ZArith Lia.
From stdpp Require Import base tactics list strings numbers.
From S2P Require Import Prelude LikeMatch Keywords Ident Session Catalog.

(** ** Texts *)

Section texts.
  Context (quote_all : bool) (kws : ScanKeywordList).

(** The name of the index, spliced without quotes. *)
Definition auto_name (tbl col : list Z) : list Z :=
  bytes "autoindex_" ++ tbl ++ bytes "_" ++ col.

(** CREATE INDEX IF NOT EXISTS autoindex_%s_%s ON %s (%s) *)
Definition create_text (tbl col : list Z) : list Z :=
  bytes "CREATE INDEX IF NOT EXISTS " ++ auto_name tbl col ++ bytes " ON " ++
  quote_identifier quote_all kws tbl ++ bytes " (" ++
  quote_identifier quote_all kws col ++ bytes ")".

(** DROP INDEX IF EXISTS %s.%s *)
Definition drop_text (nsp idx : list Z) : list Z :=
  bytes "DROP INDEX IF EXISTS " ++ quote_identifier quote_all kws nsp ++ bytes "." ++
  quote_identifier quote_all kws idx.

End texts.

(** ** Parsing *)

(** The commands the grammar makes of the texts. *)
Inductive command : Type :=
| CreateIndex (name tbl col : list Z)
| DropIndex (nsp name : list Z)
| OtherCommand (k : utility_kind) (n : nat). (* anything else, by an opaque number *)

(** How SPI treats a command. *)
Definition command_kind (c : command) : utility_kind :=
  match c with OtherCommand k _ => k | _ => UtilityOther end.

Definition is_kw (w : string) (t : sql_token) : bool :=
  match t with KEYWORD s _ => bool_decide (s = bytes w) | _ => false end.

(** A name after a dot: any word will do. *)
Definition col_label (t : sql_token) : option (list Z) :=
  match t with IDENT s | KEYWORD s _ => Some s | SELF _ => None end.

Definition parse_create (ts : list sql_token) : option command :=
  match ts with
  | [t1; t2; t3; t4; t5; n; t6; tb; SELF 40; cl; SELF 41] =>
      if is_kw "create" t1 && is_kw "index" t2 && is_kw "if" t3 && is_kw "not" t4 &&
         is_kw "exists" t5 && is_kw "on" t6
      then name ← col_id n; tbl ← col_id tb; col ← col_id cl; Some (CreateIndex name tbl col)
      else None
  | _ => None
  end.

Definition parse_drop (ts : list sql_token) : option command :=
  match ts with
  | [t1; t2; t3; t4; a; SELF 46; b] =>
      if is_kw "drop" t1 && is_kw "index" t2 && is_kw "if" t3 && is_kw "exists" t4
      then nsp ← col_id a; name ← col_label b; Some (DropIndex nsp name)
      else None
  | _ => None
  end.

(** What is handed to SPI: one of the SELECTs, or a command text. *)
Inductive sql : Type :=
| SqlSelect (q : query)
| SqlCommand (text : list Z).

Inductive raw_stmt : Type :=
| RawSelect (q : query)
| RawCommand (c : command).

Section parser.
  Context (loc : ident_locale) (kws : ScanKeywordList)
    (parse_other : list Z → result (list command)).

Definition raw_parser (src : sql) : result (list raw_stmt) :=
  match src with
  | SqlSelect q => Ok [RawSelect q]
  | SqlCommand text =>
      let other := match parse_other text with
                   | Ok cs => Ok (map RawCommand cs)
                   | Err e => Err e
                   end in
      match lex loc kws text with
      | LexError msg => Err (ErrReport msg)
      | LexOther => other
      | Lexed ts =>
          match parse_create ts with
          | Some c => Ok [RawCommand c]
          | None =>
              match parse_drop ts with
              | Some c => Ok [RawCommand c]
              | None => other
              end
          end
      end
  end.

End parser.

(** Index and drop statements are utility commands that need a snapshot
    ([PlannedStmtRequiresSnapshot]) and are not read-only. *)
Definition analyze_and_plan (raw : raw_stmt) (c : catalog) : result (list (@stmt query command)) :=
  match raw with
  | RawSelect q => Ok [mkStmt (inl q) true true true]
  | RawCommand cmd => Ok [mkStmt (inr cmd) true false true]
  end.

(** The generated list holds the words of [kwlist.h]. *)
Record sql_keyword_list (kws : ScanKeywordList) : Prop := mkSqlKeywords {
  skl_ok : keywords_ok kws;
  skl_words : kw_words kws = sql_words
}.

(** Names made of characters of unquoted identifiers. *)
Definition plain (s : list Z) : Prop := Forall (λ c, ident_cont c = true) s.

(** A table whose name is a piece of SQL. *)
Definition evil_table : list Z := bytes "t on secret (id); drop table accounts; --".

(** ** Lemmas *)

Lemma ident_start_facts c : ident_start c = true → scanner_isspace c = false ∧ ident_cont c = true.
Proof.
  intros H. split; [|unfold ident_cont; by rewrite H]. revert H.
  unfold ident_start, scanner_isspace, is_lower, is_upper, is_highbit, ch_underscore.
  rewrite !orb_true_iff, !orb_false_iff, !andb_true_iff, !Z.leb_le, !Z.eqb_eq, !Z.eqb_neq. lia.
Qed.

Lemma ident_cont_not_quote c : ident_cont c = true → c ≠ 39 ∧ c ≠ 38.
Proof.
  unfold ident_cont, ident_start, is_lower, is_upper, is_highbit, is_digit, ch_underscore.
  rewrite !orb_true_iff, !andb_true_iff, !Z.leb_le, !Z.eqb_eq. lia.
Qed.

(** An unquoted word up to a delimiter is one token. *)
Lemma word_token loc kws c w rest : ident_start c = true → plain w →
  (∀ d, head rest = Some d → delimiter d = true) →
  lex loc kws ((c :: w) ++ rest) = lex_cons (identifier_token loc kws (c :: w)) (lex loc kws rest).
Proof.
  intros Hc Hw Hd. destruct (ident_start_facts c Hc) as [Hsp Hcc].
  unfold lex. simpl length. cbn [scan app]. rewrite Hsp, Hc.
  assert (Hpre : string_prefix (c :: w ++ rest) = false).
  { assert (Hh : ∀ d, head (w ++ rest) = Some d → d ≠ 39 ∧ d ≠ 38).
    { destruct Hw as [|x w Hx Hw]; simpl; intros d Hdd.
      - destruct (delimiter_facts d (Hd d Hdd)) as (_ & _ & ? & ?). done.
      - injection Hdd as <-. by apply ident_cont_not_quote. }
    unfold string_prefix. destruct (w ++ rest) as [|d l]; [done|]. destruct (Hh d eq_refl).
    repeat (case_match; try done). }
  rewrite Hpre. change (c :: w ++ rest) with ((c :: w) ++ rest). rewrite span_app.
  - rewrite lex_step; [done|]. rewrite length_app. lia.
  - by constructor.
  - intros d Hdd. by apply delimiter_facts, Hd.
Qed.

Lemma lex_space loc kws c rest : scanner_isspace c = true →
  lex loc kws (c :: rest) = lex loc kws rest.
Proof. intros H. unfold lex. simpl length. cbn [scan]. by rewrite H. Qed.

Lemma lex_self loc kws c rest : lone_self c = true →
  lex loc kws (c :: rest) = lex_cons (SELF c) (lex loc kws rest).
Proof.
  intros H. unfold lone_self in H. rewrite bool_decide_eq_true, !elem_of_cons, elem_of_nil in H.
  assert (Hp : ∀ x, c :: rest = x :: rest → string_prefix (c :: rest) = false).
  { intros _ _. unfold string_prefix. repeat (case_match; try done); simplify_eq.
    all: repeat (destruct H as [H|H]; [by subst|]); done. }
  unfold lex. simpl length. cbn [scan]. rewrite (Hp c eq_refl).
  repeat (destruct H as [H|H]; [by subst|]). done.
Qed.

Lemma lex_dot_quoted loc kws quote_all ident : ident ≠ [] →
  lex loc kws (46 :: quote_identifier quote_all kws ident) =
    lex_cons (SELF 46) (lex loc kws (quote_identifier quote_all kws ident)).
Proof.
  intros Hne. unfold lex. simpl length. cbn [scan].
  assert (Hh : ∃ d l, quote_identifier quote_all kws ident = d :: l ∧ d ≠ 46 ∧ is_digit d = false ∧
    d ≠ 39 ∧ d ≠ 38).
  { unfold quote_identifier. destruct (safe_ident quote_all kws ident) eqn:Hs; [|by do 2 eexists].
    destruct ident as [|c s]; [done|]. exists c, s. split; [done|].
    unfold safe_ident in Hs. apply andb_prop in Hs as [[[Hc _]%andb_prop _]%andb_prop _].
    revert Hc. unfold is_lower, is_digit, ch_underscore.
    rewrite orb_true_iff, andb_true_iff, andb_false_iff, !Z.leb_le, !Z.leb_gt, Z.eqb_eq. lia. }
  destruct Hh as (d & l & -> & H1 & H2 & H3 & H4).
  assert (Hp : string_prefix (46 :: d :: l) = false)
    by (unfold string_prefix; repeat (case_match; try done)).
  rewrite Hp. apply Z.eqb_neq in H1. rewrite H1, H2. done.
Qed.

Lemma keyword_token loc kws w i w' cat : sql_keyword_list kws →
  sql_words !! i = Some (w', cat) → kw_compare w w' = true →
  identifier_token loc kws w = KEYWORD w' cat.
Proof.
  intros [Hok Hw] Hi Hc. unfold identifier_token.
  rewrite <- Hw in Hi. rewrite (lookup_complete w kws i w' cat Hok Hi Hc).
  destruct (Z.leb_spec 0 (Z.of_nat i)); [|lia]. by rewrite Nat2Z.id, Hi.
Qed.

Lemma kw_step loc kws (w : string) i w' cat rest : sql_keyword_list kws →
  sql_words !! i = Some (w', cat) → kw_compare (bytes w) w' = true →
  match bytes w with c :: l => ident_start c && forallb ident_cont l | [] => false end = true →
  lex loc kws (bytes w ++ 32 :: rest) = lex_cons (KEYWORD w' cat) (lex loc kws rest).
Proof.
  intros Hk Hi Hc Hw. rewrite <- (keyword_token loc kws (bytes w) i w' cat) by done.
  destruct (bytes w) as [|c l]; [done|]. apply andb_prop in Hw as [Hst Hl].
  rewrite word_token; [by rewrite lex_space|done|by apply forallb_Forall|by intros d [= <-]].
Qed.

(** No keyword starts like the name of an automatic index. *)
Lemma auto_name_token loc kws tbl col : sql_keyword_list kws →
  identifier_token loc kws (auto_name tbl col) =
    IDENT (downcase_truncate_identifier loc (auto_name tbl col)).
Proof.
  intros [Hok Hw]. unfold identifier_token.
  destruct (Z.leb_spec 0 (ScanKeywordLookup (auto_name tbl col) kws)) as [H|H]; [exfalso|done].
  destruct (lookup_found _ _ H) as (w & cat & Hl & Hc). rewrite Hw in Hl.
  apply list_elem_of_lookup_2 in Hl.
  assert (Hall : forallb (λ wc, negb (bool_decide (take 10 wc.1 = bytes "autoindex_"))) sql_words = true)
    by (by vm_compute).
  apply forallb_Forall in Hall. apply (proj1 (list.Forall_forall _ _) Hall) in Hl. simpl in Hl.
  assert (Htake : take 10 w = bytes "autoindex_"); [|rewrite bool_decide_true in Hl by done; done].
  clear -Hc. unfold auto_name in Hc. revert Hc. generalize (tbl ++ bytes "_" ++ col). intros s.
  set (p := bytes "autoindex_"). change 10%nat with (length p).
  assert (Hlow : Forall (λ c, is_upper c = false) p) by (repeat constructor).
  clearbody p. revert w. induction Hlow as [|c p Hu Hp IH]; intros [|k w]; simpl; try done.
  rewrite Hu. intros [->%Z.eqb_eq Hc]%andb_prop. f_equal. by apply IH.
Qed.

Lemma plain_auto_name tbl col : plain tbl → plain col →
  ∃ c w, auto_name tbl col = c :: w ∧ ident_start c = true ∧ plain w.
Proof.
  intros Ht Hc. exists 97. eexists. split; [done|]. split; [done|].
  repeat (apply Forall_cons; [done|]). apply Forall_app. split; [done|].
  apply Forall_cons; done.
Qed.

Lemma drop_text_raw loc kws parse_other quote_all nsp idx :
  sql_keyword_list kws → nsp ≠ [] → idx ≠ [] →
  (length nsp < NAMEDATALEN)%nat → (length idx < NAMEDATALEN)%nat →
  raw_parser loc kws parse_other (SqlCommand (drop_text quote_all kws nsp idx)) =
    Ok [RawCommand (DropIndex nsp idx)].
Proof.
  intros Hk Hnn Hni Hln Hli. unfold raw_parser, drop_text.
  set (q1 := quote_identifier quote_all kws nsp). set (q2 := quote_identifier quote_all kws idx).
  change (bytes "DROP INDEX IF EXISTS " ++ q1 ++ bytes "." ++ q2) with
    (bytes "DROP" ++ 32 :: bytes "INDEX" ++ 32 :: bytes "IF" ++ 32 :: bytes "EXISTS" ++ 32 ::
     q1 ++ 46 :: q2).
  rewrite (kw_step _ _ "DROP" 121 (bytes "drop") UNRESERVED_KEYWORD) by done.
  rewrite (kw_step _ _ "INDEX" 192 (bytes "index") UNRESERVED_KEYWORD) by done.
  rewrite (kw_step _ _ "IF" 180 (bytes "if") UNRESERVED_KEYWORD) by done.
  rewrite (kw_step _ _ "EXISTS" 140 (bytes "exists") COL_NAME_KEYWORD) by done.
  unfold q1. destruct (quoted_name loc kws quote_all nsp (46 :: q2)) as (t1 & -> & Ht1);
    [done|done|by intros d [= <-]|].
  unfold q2. rewrite lex_dot_quoted by done.
  destruct (quoted_name loc kws quote_all idx []) as (t2 & Hl2 & Ht2); [done|done|done|].
  rewrite app_nil_r in Hl2. rewrite Hl2. change (lex loc kws []) with (Lexed []).
  cbn [lex_cons parse_create parse_drop].
  change (is_kw "drop" _ && _ && _ && _) with true. rewrite Ht1.
  destruct t2 as [w|w []|]; by simplify_eq/=.
Qed.

(** ** Properties *)

(** C36.  For names made of identifier characters the [CREATE INDEX] text of the
    advisor parses as intended: one command, on the given table and column (quoted
    as needed), with the index name folded to lower case and cut to 63 bytes. *)
Theorem create_text_parses loc kws parse_other quote_all tbl col :
  sql_keyword_list kws → plain tbl → plain col → tbl ≠ [] → col ≠ [] →
  (length tbl < NAMEDATALEN)%nat → (length col < NAMEDATALEN)%nat →
  raw_parser loc kws parse_other (SqlCommand (create_text quote_all kws tbl col)) =
    Ok [RawCommand (CreateIndex (downcase_truncate_identifier loc (auto_name tbl col)) tbl col)].
Proof.
  intros Hk Ht Hc Hnt Hnc Hlt Hlc. unfold raw_parser, create_text.
  set (q1 := quote_identifier quote_all kws tbl). set (q2 := quote_identifier quote_all kws col).
  change (bytes "CREATE INDEX IF NOT EXISTS " ++ auto_name tbl col ++ bytes " ON " ++ q1 ++
          bytes " (" ++ q2 ++ bytes ")") with
    (bytes "CREATE" ++ 32 :: bytes "INDEX" ++ 32 :: bytes "IF" ++ 32 :: bytes "NOT" ++ 32 ::
     bytes "EXISTS" ++ 32 :: auto_name tbl col ++ 32 :: bytes "ON" ++ 32 :: q1 ++ 32 :: 40 ::
     q2 ++ 41 :: []).
  rewrite (kw_step _ _ "CREATE" 79 (bytes "create") RESERVED_KEYWORD) by done.
  rewrite (kw_step _ _ "INDEX" 192 (bytes "index") UNRESERVED_KEYWORD) by done.
  rewrite (kw_step _ _ "IF" 180 (bytes "if") UNRESERVED_KEYWORD) by done.
  rewrite (kw_step _ _ "NOT" 280 (bytes "not") RESERVED_KEYWORD) by done.
  rewrite (kw_step _ _ "EXISTS" 140 (bytes "exists") COL_NAME_KEYWORD) by done.
  pose proof (auto_name_token loc kws tbl col Hk) as Hname.
  destruct (plain_auto_name tbl col Ht Hc) as (c & w & Ecw & Hst & Hw). rewrite Ecw in *.
  rewrite word_token, lex_space, Hname by (done || by intros d [= <-]).
  rewrite (kw_step _ _ "ON" 297 (bytes "on") RESERVED_KEYWORD) by done.
  unfold q1. destruct (quoted_name loc kws quote_all tbl (32 :: 40 :: q2 ++ [41])) as (t1 & -> & Ht1);
    [done|done|by intros d [= <-]|].
  rewrite lex_space, lex_self by done.
  unfold q2. destruct (quoted_name loc kws quote_all col [41]) as (t2 & -> & Ht2); [done|done|by intros d [= <-]|].
  change (lex loc kws [41]) with (Lexed [SELF 41]). cbn [lex_cons parse_create].
  change (is_kw "create" _ && _ && _ && _ && _ && _) with true. simpl. by rewrite Ht1, Ht2.
Qed.

Lemma sql_keywords_list : sql_keyword_list sql_keywords.
Proof. split; [apply sql_keywords_ok|done]. Qed.

Lemma create_text_parses_witness :
  raw_parser c_locale sql_keywords (λ _, Err ErrUB)
    (SqlCommand (create_text false sql_keywords (bytes "Orders") (bytes "cust_id"))) =
  Ok [RawCommand (CreateIndex (bytes "autoindex_orders_cust_id") (bytes "Orders") (bytes "cust_id"))].
Proof.
  rewrite (create_text_parses c_locale sql_keywords (λ _, Err ErrUB) false (bytes "Orders")
    (bytes "cust_id") sql_keywords_list).
  - reflexivity.
  - by repeat constructor.
  - by repeat constructor.
  - done.
  - done.
  - apply Nat.ltb_lt. reflexivity.
  - apply Nat.ltb_lt. reflexivity.
Defined.

(** The [DROP INDEX] text of the lifecycle manager, which quotes both names,
    parses as one command on exactly that schema and index, whatever the names. *)
Theorem drop_text_parses loc kws parse_other quote_all nsp idx :
  sql_keyword_list kws → nsp ≠ [] → idx ≠ [] →
  (length nsp < NAMEDATALEN)%nat → (length idx < NAMEDATALEN)%nat →
  raw_parser loc kws parse_other (SqlCommand (drop_text quote_all kws nsp idx)) =
    Ok [RawCommand (DropIndex nsp idx)].
Proof. apply drop_text_raw. Qed.

Lemma drop_text_parses_witness :
  raw_parser c_locale sql_keywords (λ _, Err ErrUB)
    (SqlCommand (drop_text false sql_keywords (bytes "public") (bytes "autoindex_T x"))) =
  Ok [RawCommand (DropIndex (bytes "public") (bytes "autoindex_T x"))].
Proof.
  apply (drop_text_parses c_locale sql_keywords (λ _, Err ErrUB) false (bytes "public")
    (bytes "autoindex_T x") sql_keywords_list); [done|done|apply Nat.ltb_lt; reflexivity..].
Defined.

