(* ===== verification/Fixtures.v ===== *)
(** * A small database

    Concrete values for the arguments of the other files, used where a theorem is
    applied to an example: a catalog with one table, an effect of [CREATE INDEX]
    and [DROP INDEX] on the catalog rows, and a session in the state in which the
    worker calls the advisor and the lifecycle manager. *)
From Stdlib Require Import ZArith Lia.
From stdpp Require Import base tactics list strings numbers.
From S2P Require Import Prelude LikeMatch Keywords Ident Visibility Session Catalog Sql.

(** The rows every command of the transaction left. *)
Definition latest_rows (c : catalog) : list catrow :=
  visible c (GetSnapshotData c (2 ^ 32 - 2)).

Definition class_oid (c : catalog) (name : list Z) : option Z :=
  list.head (omap (M:=list) (λ r, match r with
    | pg_class o n _ _ _ => if bool_decide (n = name) then Some o else None
    | _ => None
    end) (latest_rows c)).

Definition oid_of (r : catrow) : Z :=
  match r with
  | pg_class o _ _ _ _ => o
  | pg_index o _ => o
  | pg_attribute o _ _ => o
  | pg_namespace o _ => o
  end.

(** The live rows of a relation, by position. *)
Definition rows_of (c : catalog) (oid : Z) : list nat :=
  omap (M:=list) (λ '(i, h), if hasb (t_infomask h.1) HEAP_XMAX_INVALID && (oid_of h.2 =? oid)
                             then Some i else None)
    (imap pair (heap c)).

Definition no_rows : QueryCompletion := mkCompletion false 0.

Definition small_utility (cmd : command) (c : catalog) : result (list action * QueryCompletion) :=
  match cmd with
  | CreateIndex name tbl col =>
      match class_oid c tbl with
      | None => Err (ErrReport "relation does not exist")
      | Some t =>
          match class_oid c name with
          | Some _ => Ok ([], no_rows)
          | None =>
              let oid := 20000 + Z.of_nat (length (heap c)) in
              Ok ([AInsert (pg_class oid name 2200 (bytes "0") 1); AInsert (pg_attribute oid col 1);
                  AInsert (pg_index oid t); ACommand], no_rows)
          end
      end
  | DropIndex nsp name =>
      match class_oid c name with
      | None => Ok ([], no_rows)
      | Some o => Ok (map ADelete (rows_of c o) ++ [ACommand], no_rows)
      end
  | OtherCommand _ _ => Ok ([], no_rows)
  end.

Definition live_header : HeapTupleHeader :=
  mkTuple 700 0 0 (HEAP_XMIN_COMMITTED + HEAP_XMAX_INVALID).

(** A table [orders] of three columns in the schema [public], with the given
    further rows. *)
Definition small_catalog (more : list catrow) : catalog :=
  mkCatalog
    ((λ r, (live_header, r)) <$>
      [pg_namespace 2200 (bytes "public");
       pg_class 16400 (bytes "orders") 2200 (bytes "1000") 10;
       pg_attribute 16400 (bytes "a") 1; pg_attribute 16400 (bytes "b") 2;
       pg_attribute 16400 (bytes "c") 3] ++ more)
    800 [700] [] (λ _, None) PG_UTF8.

(** An index of the table. *)
Definition index_rows (oid : Z) (name col : list Z) : list catrow :=
  [pg_class oid name 2200 (bytes "0") 1; pg_attribute oid col 1; pg_index oid 16400].

(** In a transaction with its first snapshot active. *)
Definition small_session (c : catalog) : session catalog :=
  let snap := GetSnapshotData c 0 in
  mkSession c true 0 false false true (Some snap) [snap] [] 0 None 0.

Lemma small_catalog_ok more : catalog_ok (small_catalog more).
Proof.
  apply list.Forall_forall. intros h Hin. unfold small_catalog in Hin at 1. cbn [heap] in Hin.
  apply list_elem_of_fmap in Hin as (r & -> & _).
  split; [by exists true, true, false|by intros E; vm_compute in E|done].
Qed.
