(* ===== verification/SpiCatalog.v ===== *)
(** * SPI on the catalogs

    SPI instantiated with the catalog model and the command parser, and the
    guarantee its callers get for an arbitrary command text, including one that
    holds several commands: the rows an earlier snapshot shows stay the same, and
    on success the snapshot stack and the SPI levels are as before. *)
From Stdlib Require Import ZArith Lia.
From stdpp Require Import base tactics list strings numbers.
From S2P Require Import Prelude LikeMatch Keywords Ident CLib Visibility Session Catalog Sql Fixtures.

(** ** Column values as text *)

(** The type's output function. *)
Definition datum_out (d : datum) : list Z :=
  match d with
  | DName s => s
  | DOid n => dec_text n
  | DInt4 n | DInt8 n => int_text n
  | DFloat4 text => text
  end.

(** [SPI_getvalue]; column numbers start at 1. *)
Definition SPI_getvalue (r : row) (fnumber : nat) : option (list Z) :=
  match fnumber with
  | O => None
  | S k => match r !! k with
           | Some (Some d) => Some (datum_out d)
           | _ => None
           end
  end.

(** [SPI_getbinval] of an oid column: [None] is NULL. *)
Definition SPI_getbinval_oid (r : row) (fnumber : nat) : option Z :=
  match fnumber with
  | O => None
  | S k => match r !! k with
           | Some (Some (DOid n)) => Some n
           | _ => None
           end
  end.

(** ** Sessions *)

(** The caller's variables saved in the SPI levels. *)
Definition outer (c : SPI_connection) : Z * option (list row) * Z :=
  (outer_processed c, outer_tuptable c, outer_result c).

(** What SPI may do to a session that was in state [s0]. *)
Record spi_inv (s0 s : session catalog) : Prop := mkSpiInv {
  si_ok : catalog_ok (db s);
  si_ext : extends (db s0) (db s);
  si_vis : ∀ snap, curcid snap ≤ currentCommandId s0 →
    visible (db s) snap = visible (db s0) snap;
  si_cid : currentCommandId s0 ≤ currentCommandId s < 2 ^ 32 - 1;
  si_first : FirstSnapshotSet s = true → is_Some (CurrentSnapshot s);
  si_outer : outer <$> SPI_stack s = outer <$> SPI_stack s0;
  si_xact : in_transaction s = in_transaction s0;
  si_observers : observers_same (db s0) (db s)
}.

(** A session SPI can work in. *)
Record spi_ready (s : session catalog) : Prop := mkSpiReady {
  sr_ok : catalog_ok (db s);
  sr_cid : 0 ≤ currentCommandId s < 2 ^ 32 - 1;
  sr_first : FirstSnapshotSet s = true → is_Some (CurrentSnapshot s);
  sr_stack : SPI_stack s ≠ [];
  sr_active : ActiveSnapshot s ≠ []
}.

(** A session as the worker hands it to the advisor and the lifecycle manager: in a
    transaction with the snapshot [snap] active, and not connected to SPI. *)
Record pass_start (snap : SnapshotData) (s : session catalog) : Prop := mkPassStart {
  ps_active : ∃ rest, ActiveSnapshot s = snap :: rest;
  ps_catalog : catalog_ok (db s);
  ps_cid : 0 ≤ currentCommandId s < 2 ^ 32 - 1;
  ps_curcid : curcid snap ≤ currentCommandId s;
  ps_first : FirstSnapshotSet s = true → is_Some (CurrentSnapshot s);
  ps_spi : SPI_stack s = []
}.

(** What a pass leaves behind in the session, however it ends, ... *)
Definition session_effect (s s' : session catalog) : Prop :=
  extends (db s) (db s') ∧ observers_same (db s) (db s') ∧ in_transaction s' = in_transaction s.

(** ... and if it ends without an error. *)
Definition session_restored (s s' : session catalog) : Prop :=
  ActiveSnapshot s' = ActiveSnapshot s ∧ SPI_stack s' = [] ∧
  SPI_processed s' = SPI_processed s ∧ SPI_tuptable s' = SPI_tuptable s ∧
  SPI_result s' = SPI_result s.

(** The innermost level holds no result. *)
Definition no_result (s : session catalog) : Prop :=
  ∃ c rest, SPI_stack s = c :: rest ∧ conn_processed c = 0 ∧ conn_tuptable c = None.

(** The small session, connected to SPI. *)
Definition connected_session : session catalog :=
  set_stack [mkConnection 0 None 0 None 0] (small_session (small_catalog [])).

Section spi.
  Context (loc : ident_locale) (kws : ScanKeywordList).
  Context (parse_other : list Z → result (list command)).
  Context (plan_utility : command → catalog → result (list action * QueryCompletion)).

Definition spi_execute (src : sql) (read_only : bool) (tcount : Z) : M (session catalog) Z :=
  SPI_execute GetSnapshotData (raw_parser loc kws parse_other) exec_select
    (ProcessUtility plan_utility) command_kind analyze_and_plan src read_only tcount.

(** The snapshot stack during a call: the caller's, with a snapshot of the call's
    own on top once one was pushed. *)
Definition stacked (s0 : session catalog) (pushed : bool) (s : session catalog) : Prop :=
  if pushed then ∃ x, ActiveSnapshot s = x :: ActiveSnapshot s0
  else ActiveSnapshot s = ActiveSnapshot s0.

Definition running (s0 : session catalog) (pushed : bool) (s : session catalog) : Prop :=
  spi_inv s0 s ∧ stacked s0 pushed s.

Context (s0 : session catalog) (Hready : spi_ready s0).

Lemma inv_stack s : spi_inv s0 s → SPI_stack s ≠ [].
Proof.
  intros H E. pose proof (si_outer _ _ H) as Ho. rewrite E in Ho. simpl in Ho.
  apply (sr_stack _ Hready). by destruct (SPI_stack s0).
Qed.

Lemma set_conn_spec p t b : hoare (running s0 b) (set_conn p t) (λ _, running s0 b) (spi_inv s0).
Proof.
  intros s [H Hb]. pose proof (inv_stack s H) as Hne. unfold set_conn.
  destruct (SPI_stack s) as [|c rest] eqn:Es; [done|]. split; [|done]. destruct H.
  split; simpl; try done. by rewrite <- si_outer0, Es.
Qed.

Lemma get_conn_spec b : hoare (running s0 b) get_conn (λ _, running s0 b) (spi_inv s0).
Proof.
  intros s [H Hb]. pose proof (inv_stack s H) as Hne. unfold get_conn.
  by destruct (SPI_stack s) as [|c rest].
Qed.

Lemma CCI_spec b : hoare (running s0 b) CommandCounterIncrement (λ _, running s0 b) (spi_inv s0).
Proof.
  intros s [H Hb]. unfold CommandCounterIncrement, InvalidCommandId.
  destruct (currentCommandIdUsed s); [|done]. destruct H. pose proof (sr_cid _ Hready).
  rewrite u32_small by lia.
  destruct (Z.eqb_spec (currentCommandId s + 1) (2 ^ 32 - 1)); [by split|].
  unfold SnapshotSetCommandId; simpl. destruct (FirstSnapshotSet s) eqn:Hf; simpl; (split; [|done]).
  - split; simpl; try done; [lia|]. intros _. by destruct (si_first0 eq_refl) as [x ->].
  - split; simpl; try done; [lia|]. by rewrite Hf.
Qed.

Lemma update_active_spec : hoare (running s0 true) UpdateActiveSnapshotCommandId
  (λ _, running s0 true) (spi_inv s0).
Proof.
  intros s [H [x Hx]]. unfold UpdateActiveSnapshotCommandId. rewrite Hx.
  split; [by destruct H|]. by eexists.
Qed.

Lemma utility_spec u b : hoare (running s0 b) (ProcessUtility plan_utility u)
  (λ _, running s0 b) (spi_inv s0).
Proof.
  intros s [H Hb]. destruct H. pose proof (sr_cid _ Hready).
  pose proof (utility_stable plan_utility u s) as Hst.
  assert (Hs : cat_session_ok s) by (split; [done|lia]). specialize (Hst Hs).
  pose proof (utility_first plan_utility u s si_first0) as Hf.
  destruct (ProcessUtility plan_utility u s) as [s' r]. simpl in *.
  destruct Hst as [T1 T2 T3 T4 T5 (F1 & F2 & F3 & F4 & F5 & F6)].
  assert (Hinv : spi_inv s0 s').
  { split; [done|by eapply extends_trans| |lia|done|by rewrite F2|by rewrite F6|
      by eapply observers_trans].
    intros snap Hsn. rewrite T3, si_vis0; [done|done|lia]. }
  destruct r; [|done]. split; [done|]. unfold stacked in *. by rewrite F1.
Qed.

Lemma running_inv b s : running s0 b s → spi_inv s0 s.
Proof. by intros []. Qed.

Lemma pquery_spec q to_spi tc b : hoare (running s0 b) (SPI_pquery exec_select q to_spi tc)
  (λ _, running s0 b) (spi_inv s0).
Proof.
  unfold SPI_pquery. apply hoare_get. intros s1.
  destruct (ActiveSnapshot s1) as [|snap l]; [apply hoare_fail, running_inv|].
  eapply hoare_bind; [apply hoare_lift, running_inv|intros rows].
  eapply hoare_bind; [apply set_conn_spec|by intros ? s Hs].
Qed.

Lemma spi_utility_spec u b : hoare (running s0 b)
  (SPI_utility (ProcessUtility plan_utility) command_kind u) (λ _, running s0 b) (spi_inv s0).
Proof.
  unfold SPI_utility. eapply hoare_bind; [apply utility_spec|intros qc].
  eapply hoare_bind; [apply get_conn_spec|intros [p t]].
  eapply hoare_bind with (Q := λ _, running s0 b).
  { destruct t; [apply set_conn_spec|by intros s Hs]. }
  intros ?. destruct (command_kind u); try (by intros s Hs);
    (eapply hoare_bind; [apply get_conn_spec|intros [p' t']];
     eapply hoare_bind; [apply set_conn_spec|by intros ? s Hs]).
Qed.

Lemma stmt_spec ro tc b st my :
  hoare (running s0 b)
    (SPI_execute_stmt exec_select (ProcessUtility plan_utility) command_kind ro tc b st my)
    (λ _, running s0 b) (spi_inv s0).
Proof.
  destruct my as [[r p] t]. unfold SPI_execute_stmt.
  eapply hoare_bind; [apply set_conn_spec|intros ?].
  destruct (SPI_unsupported command_kind st); [by intros s Hs|].
  eapply hoare_bind with (Q := λ _, running s0 b).
  { case_match; [apply hoare_fail, running_inv|]. by intros s Hs. }
  intros ?. eapply hoare_bind with (Q := λ _, running s0 b).
  { destruct ro, b; simpl; try (by intros s Hs).
    eapply hoare_bind; [apply CCI_spec|intros ?; apply update_active_spec]. }
  intros ?. eapply hoare_bind with (Q := λ _, running s0 b).
  { destruct (body st) as [q|u]; [apply pquery_spec|apply spi_utility_spec]. }
  intros res. eapply hoare_bind with (Q := λ _, running s0 b).
  { destruct (canSetTag st);
      (eapply hoare_bind; [apply get_conn_spec|intros [p' t']]); [by intros s Hs|].
    eapply hoare_bind; [apply set_conn_spec|by intros ? s Hs]. }
  intros [[r' p'] t'] s Hs. exact Hs.
Qed.

Lemma stmts_spec ro tc b sts my :
  hoare (running s0 b)
    (SPI_execute_stmts exec_select (ProcessUtility plan_utility) command_kind ro tc b sts my)
    (λ _, running s0 b) (spi_inv s0).
Proof.
  revert my. induction sts as [|st sts IH]; intros my; simpl; [by intros s Hs|].
  eapply hoare_bind; [apply stmt_spec|intros [[] my']; [by intros s Hs|apply IH]].
Qed.

Lemma ensure_snapshot_spec b : hoare (running s0 b)
  EnsurePortalSnapshotExists (λ _, running s0 b) (spi_inv s0).
Proof.
  intros s [H Hb]. unfold EnsurePortalSnapshotExists, ActiveSnapshotSet. msimpl.
  pose proof (sr_active _ Hready). unfold stacked in Hb.
  destruct (ActiveSnapshot s) as [|x l] eqn:E; [|split; [done|unfold stacked; by rewrite E]].
  destruct b; [by destruct Hb|]. by rewrite <- Hb in *.
Qed.

Lemma transaction_snapshot_spec b : hoare (running s0 b)
  (GetTransactionSnapshot GetSnapshotData) (λ _, running s0 b) (spi_inv s0).
Proof.
  intros s [H Hb]. unfold GetTransactionSnapshot. destruct H.
  destruct (FirstSnapshotSet s) eqn:Hf; simpl.
  - destruct (IsolationUsesXactSnapshot s).
    + destruct (si_first0 eq_refl) as [x Hx]. rewrite Hx. split; [|done].
      by split.
    + split; [|done]. by split.
  - split; [|done]. by split.
Qed.

Lemma pop_spec : hoare (running s0 true) PopActiveSnapshot (λ _, running s0 false) (spi_inv s0).
Proof.
  intros s [H [x Hx]]. unfold PopActiveSnapshot. rewrite Hx. split; [by destruct H|done].
Qed.

Lemma push_spec snap :
  hoare (running s0 false) (PushActiveSnapshot snap) (λ _, running s0 true) (spi_inv s0).
Proof.
  intros s [H Hx]. unfold PushActiveSnapshot. msimpl.
  split; [by destruct H|]. exists snap. simpl. by rewrite Hx.
Qed.

Lemma plansource_spec ro tc raw b my :
  hoare (running s0 b)
    (SPI_execute_plansource GetSnapshotData exec_select (ProcessUtility plan_utility)
       command_kind analyze_and_plan ro tc raw b my)
    (λ r, running s0 r.1.2) (spi_inv s0).
Proof.
  unfold SPI_execute_plansource. apply hoare_get. intros s1.
  eapply hoare_bind; [apply hoare_lift, running_inv|intros sts].
  eapply hoare_bind with (Q := λ b', running s0 b').
  { destruct (needs_snapshot sts); [|by intros s Hs].
    eapply hoare_bind; [apply ensure_snapshot_spec|intros ?].
    destruct ro; simpl; [by intros s Hs|].
    eapply hoare_bind with (Q := λ _, running s0 false).
    { destruct b; [apply pop_spec|by intros s Hs]. }
    intros ?. eapply hoare_bind; [apply transaction_snapshot_spec|intros snap].
    eapply hoare_bind; [apply push_spec|by intros ? s Hs]. }
  intros b'. eapply hoare_bind; [apply stmts_spec|intros [[] my']]; [by intros s Hs|].
  eapply hoare_bind with (Q := λ _, running s0 b'); [|by intros ? s Hs].
  destruct ro; simpl; [by intros s Hs|]. apply CCI_spec.
Qed.

Lemma plan_loop_spec ro tc raws b my :
  hoare (running s0 b)
    (SPI_execute_plan_loop GetSnapshotData exec_select (ProcessUtility plan_utility)
       command_kind analyze_and_plan ro tc raws b my)
    (λ r, running s0 r.1) (spi_inv s0).
Proof.
  revert b my. induction raws as [|raw raws IH]; intros b my; simpl; [by intros s Hs|].
  eapply hoare_bind; [apply plansource_spec|intros [[[] b'] my']]; [by intros s Hs|apply IH].
Qed.

(** What an SPI call may change. *)
Lemma spi_execute_spec src ro tc :
  hoare (running s0 false) (spi_execute src ro tc) (λ _, running s0 false) (spi_inv s0).
Proof.
  unfold spi_execute, SPI_execute. destruct (tc <? 0); [by intros s Hs|].
  apply hoare_get. intros s1. destruct (SPI_stack s1) as [|conn conns]; [by intros s Hs|].
  eapply hoare_bind; [apply hoare_lift, running_inv|intros raws].
  unfold SPI_execute_plan. eapply hoare_bind; [apply plan_loop_spec|].
  intros [b [[res p] t]]. eapply hoare_bind with (Q := λ _, running s0 false).
  { destruct b; [apply pop_spec|by intros s Hs]. }
  intros ?. eapply hoare_bind with (Q := λ _, running s0 false).
  { intros s [H Hs]. split; [by destruct H|done]. }
  intros ?. eapply hoare_bind; [apply get_conn_spec|intros [p' t']].
  eapply hoare_bind; [apply set_conn_spec|by intros ? s Hs].
Qed.

Lemma running_refl : running s0 false s0.
Proof.
  destruct Hready. split; [|done]. split; try done; lia.
Qed.

End spi.

(** ** What a utility command leaves in the SPI variables *)

Lemma CCI_stack (s : session catalog) : SPI_stack (CommandCounterIncrement s).1 = SPI_stack s.
Proof.
  unfold CommandCounterIncrement, SnapshotSetCommandId.
  destruct (currentCommandIdUsed s); [|done]. destruct (_ =? _); [done|].
  simpl. by destruct (FirstSnapshotSet s).
Qed.

Lemma hoare_stack {A} (m : M (session catalog) A) : (∀ s, SPI_stack (m s).1 = SPI_stack s) →
  hoare no_result m (λ _, no_result) (λ _, True).
Proof.
  intros H s Hs. specialize (H s). destruct (m s) as [s' [a|e]]; [|done]. simpl in H.
  unfold no_result. by rewrite H.
Qed.

Lemma utility_stmt_result plan_utility tc b u my : command_kind u = UtilityOther →
  hoare (λ _, True)
    (SPI_execute_stmt exec_select (ProcessUtility plan_utility) command_kind false tc b
       (mkStmt (inr u) true false true) my)
    (λ r s, r = (false, (SPI_OK_UTILITY, 0, None)) ∧ no_result s) (λ _ : session catalog, True).
Proof.
  intros Hk. destruct my as [[r p] t]. unfold SPI_execute_stmt.
  eapply hoare_bind with (Q := λ _, no_result).
  { intros s _. unfold set_conn. destruct (SPI_stack s) as [|c rest]; [done|]. by do 2 eexists. }
  intros ?. unfold SPI_unsupported. cbn [body]. rewrite Hk.
  eapply hoare_bind with (Q := λ _, no_result); [by intros s Hs|intros ?].
  eapply hoare_bind with (Q := λ _, no_result).
  { destruct b; simpl; [|by intros s Hs].
    eapply hoare_bind; [apply hoare_stack, CCI_stack|intros ?]. apply hoare_stack.
    intros s. unfold UpdateActiveSnapshotCommandId. by destruct (ActiveSnapshot s). }
  intros ?. eapply hoare_bind with (Q := λ r s, r = SPI_OK_UTILITY ∧ no_result s).
  { unfold SPI_utility. rewrite Hk. eapply hoare_bind with (Q := λ _, no_result).
    { apply hoare_stack. intros s. destruct (ProcessUtility plan_utility u s) as [s' r'] eqn:E.
      by apply (utility_frame (ProcessUtility plan_utility) u s s' r'). }
    intros ? s (c & rest & Hs & Hp & Ht). msimpl. unfold get_conn. rewrite Hs. msimpl. rewrite Ht.
    msimpl. split; [done|]. by exists c, rest. }
  intros r' s [-> (c & rest & Hs & Hp & Ht)]. msimpl. unfold get_conn. rewrite Hs. msimpl.
  rewrite Hp, Ht. split; [done|]. by exists c, rest.
Qed.

Lemma utility_plansource_result plan_utility cmd b my : command_kind cmd = UtilityOther →
  hoare (λ _, True)
    (SPI_execute_plansource GetSnapshotData exec_select (ProcessUtility plan_utility)
       command_kind analyze_and_plan false 0 (RawCommand cmd) b my)
    (λ r s, r.1.1 = false ∧ r.2 = (SPI_OK_UTILITY, 0, None)) (λ _ : session catalog, True).
Proof.
  intros Hk. unfold SPI_execute_plansource. apply hoare_get. intros s1.
  eapply hoare_bind with (Q := λ sts _, sts = [mkStmt (inr cmd) true false true]);
    [by intros s _|]. intros sts.
  eapply hoare_bind with (Q := λ _ _, sts = [mkStmt (inr cmd) true false true]).
  { intros s ->. match goal with |- match ?m s with _ => _ end => by destruct (m s) as [? [?|?]] end. }
  intros b'. eapply hoare_bind with (Q := λ r _, r = (false, (SPI_OK_UTILITY, 0, None))).
  { intros s ->. cbn [SPI_execute_stmts].
    pose proof (utility_stmt_result plan_utility 0 b' cmd my Hk s I) as H.
    destruct (SPI_execute_stmt _ _ _ _ _ _ _ _ s) as [s' [my'|e]] eqn:E.
    - rewrite (bind_ok _ _ _ _ _ E). by destruct H as [-> _].
    - by rewrite (bind_err _ _ _ _ _ E). }
  intros [f my'] s [= -> ->]. match goal with |- match (?m ≫= _) s with _ => _ end =>
    unfold mbind, M_bind; by destruct (m s) as [? [?|?]] end.
Qed.

(** After a command [SPI_processed] is 0 and [SPI_tuptable] is NULL. *)
Lemma spi_command_result loc kws parse_other plan_utility src cmd s s' r :
  raw_parser loc kws parse_other src = Ok [RawCommand cmd] → command_kind cmd = UtilityOther →
  SPI_stack s ≠ [] → spi_execute loc kws parse_other plan_utility src false 0 s = (s', Ok r) →
  r = SPI_OK_UTILITY ∧ SPI_processed s' = 0 ∧ SPI_tuptable s' = None.
Proof.
  intros Hp Hk Hs Hx. unfold spi_execute, SPI_execute in Hx. cbn [Z.ltb Z.compare] in Hx.
  rewrite (bind_ok get _ s s s) in Hx by done. destruct (SPI_stack s) as [|c l]; [done|]. rewrite Hp in Hx.
  rewrite (bind_ok (lift_result _) _ s s [RawCommand cmd]) in Hx by done.
  unfold SPI_execute_plan in Hx. cbn [SPI_execute_plan_loop] in Hx.
  pose proof (utility_plansource_result plan_utility cmd false (0, 0, None) Hk s I) as H.
  destruct (SPI_execute_plansource _ _ _ _ _ _ _ _ _ _ s) as [s1 [[[f b] my]|e]] eqn:E; simpl in H.
  - destruct H as [-> ->]. rewrite (bind_ok _ _ s s1 (b, (SPI_OK_UTILITY, 0, None))) in Hx
      by (by rewrite (bind_ok _ _ _ _ _ E)).
    revert Hx. generalize s1. intros s2. destruct b.
    + unfold PopActiveSnapshot, mbind, M_bind. destruct (ActiveSnapshot s2); [done|]. simpl.
      unfold get_conn, set_conn. simpl. destruct (SPI_stack s2) eqn:Es; simpl; [done|]. rewrite Es.
      by intros [= <- <-].
    + msimpl. unfold get_conn, set_conn. simpl. destruct (SPI_stack s2) eqn:Es; simpl; [done|].
      rewrite Es. by intros [= <- <-].
  - rewrite (bind_err _ _ s s1 e) in Hx; [done|]. by rewrite (bind_err _ _ _ _ _ E).
Qed.

(** The conclusion for one call. *)
Lemma spi_execute_stable loc kws parse_other plan_utility src ro tc s0 : spi_ready s0 →
  match spi_execute loc kws parse_other plan_utility src ro tc s0 with
  | (s, Ok _) => spi_inv s0 s ∧ ActiveSnapshot s = ActiveSnapshot s0
  | (s, Err _) => spi_inv s0 s
  end.
Proof.
  intros H. exact (spi_execute_spec loc kws parse_other plan_utility s0 H src ro tc s0 (running_refl s0 H)).
Qed.

Lemma spi_inv_trans s1 s2 s3 : spi_inv s1 s2 → spi_inv s2 s3 → spi_inv s1 s3.
Proof.
  intros [_ A1 A2 A3 _ A5 A6 A7] [B0 B1 B2 B3 B4 B5 B6 B7].
  split; try done; [by eapply extends_trans| |lia|congruence|congruence|by eapply observers_trans].
  intros snap Hs. rewrite B2, A2; [done|done|lia].
Qed.

Lemma small_pass_start more :
  pass_start (GetSnapshotData (small_catalog more) 0) (small_session (small_catalog more)).
Proof. split; [by eexists|apply small_catalog_ok|done|done|by eexists|done]. Qed.

Lemma connected_ready : spi_ready connected_session.
Proof. split; [apply small_catalog_ok|done|by eexists|done|done]. Qed.

(** ** Properties *)

(** A read-only SELECT through SPI runs under the snapshot the caller has
    active, whatever the transaction has done since, returns the first rows up to
    the count limit, and changes nothing but the SPI result variables. *)
Theorem spi_select_snapshot loc kws parse_other plan_utility q tcount s snap actives c rest rows :
  0 ≤ tcount → ActiveSnapshot s = snap :: actives → SPI_stack s = c :: rest →
  exec_select q snap (db s) = Ok rows →
  let out := if tcount =? 0 then rows else take (Z.to_nat tcount) rows in
  spi_execute loc kws parse_other plan_utility (SqlSelect q) true tcount s =
    (set_globals (Z.of_nat (length out)) (Some out) (SPI_result s)
       (set_stack (mkConnection (Z.of_nat (length out)) None (outer_processed c)
                     (outer_tuptable c) (outer_result c) :: rest) s), Ok SPI_OK_SELECT).
Proof.
  intros Ht Ha Hs Hx. unfold spi_execute.
  by apply (SPI_execute_select _ _ _ _ _ _ _ (RawSelect q) q tcount s snap actives c rest rows).
Qed.

Lemma spi_select_snapshot_witness :
  spi_execute c_locale sql_keywords (λ _, Err ErrUB) small_utility (SqlSelect (Q_relsize 16400))
    true 1 connected_session =
  (set_globals 1 (Some [[Some (DFloat4 (bytes "1000")); Some (DInt4 10)]]) 0
     (set_stack [mkConnection 1 None 0 None 0] connected_session), Ok SPI_OK_SELECT).
Proof.
  exact (spi_select_snapshot c_locale sql_keywords (λ _, Err ErrUB) small_utility (Q_relsize 16400)
    1 connected_session (GetSnapshotData (small_catalog []) 0) [] (mkConnection 0 None 0 None 0) []
    [[Some (DFloat4 (bytes "1000")); Some (DInt4 10)]] ltac:(lia) eq_refl eq_refl eq_refl).
Defined.



(** The call of the example creates an index. *)
Lemma isolated_example :
  let m := spi_execute c_locale sql_keywords (λ _, Err ErrUB) small_utility
    (SqlCommand (create_text false sql_keywords (bytes "orders") (bytes "a"))) false 0
    connected_session in
  m.2 = Ok SPI_OK_UTILITY ∧ length (heap (db m.1)) = 8%nat.
Proof. by vm_compute. Qed.
