(* ===== verification/Advisor.v ===== *)
(** * The index advisor

    The rest of [index_advisor.c]: the cost estimate of an index, the safety
    checks, the creation of an index, and the pass itself,
    [autoindex_run_advisor], on the state of the worker: its hash table, the
    shared ring and the database session.

    The natural logarithm of the C library, the cost parameters and the effect of
    utility commands on the catalogs are arguments of the section. *)
From Stdlib Require Import ZArith Lia Sorted.
From stdpp Require Import base tactics list strings numbers.
From S2P Require Import Prelude Float64 AutoIndexTypes RingBuffer AdvisorHash.
From S2P Require Import LikeMatch Keywords Ident CLib Visibility Session Catalog Sql SpiCatalog Fixtures.

(** ** State *)

Record worker : Type := mkWorker {
  hash : advisor;
  shmem : option AutoIndexShmemHeader;
  sess : session catalog
}.

Definition set_hash (h : advisor) (w : worker) : worker := mkWorker h (shmem w) (sess w).

Definition set_sess (s : session catalog) (w : worker) : worker := mkWorker (hash w) (shmem w) s.

(** Run a session operation. *)
Definition in_sess {A} (m : M (session catalog) A) : M worker A := λ w,
  let '(s, r) := m (sess w) in (set_sess s w, r).

Record IndexCandidate : Type := mkCandidate {
  cand_relid : Z;
  cand_attnum : Z;
  cand_usage : Z;
  cand_exec_count : Z;
  cand_rent : double;
  cand_buy : double
}.

(** [SPI_tuptable->vals[i]] *)
Definition tuptable_row (i : nat) : M worker row := λ w,
  match SPI_tuptable (sess w) with
  | Some rows => match rows !! i with
                 | Some r => (w, Ok r)
                 | None => (w, Err ErrUB)
                 end
  | None => (w, Err ErrUB)
  end.

Definition d1 : double := d_of_Z 1.

Definition d100 : double := d_of_Z 100.

(** ** Sorting *)

(** The body of the inner loop: [candidates[i]] and [candidates[j]] change places
    if the later one has more rent. *)
Definition exchange (i : nat) (cs : list IndexCandidate) (j : nat) : list IndexCandidate :=
  match cs !! i, cs !! j with
  | Some a, Some b => if dgtb (cand_rent b) (cand_rent a) then <[j := a]> (<[i := b]> cs) else cs
  | _, _ => cs
  end.

Definition sort_inner (cs : list IndexCandidate) (i : nat) : list IndexCandidate :=
  foldl (exchange i) cs (seq (S i) (length cs - S i)).

Definition sort_candidates (cs : list IndexCandidate) : list IndexCandidate :=
  foldl sort_inner cs (seq 0 (length cs - 1)).

(** ** The advisor *)

Section advisor.
  Context (log : double → double).                            (* libm *)
  Context (seq_page_cost cpu_operator_cost : double).         (* optimizer/cost.h *)
  Context (quote_all_identifiers : bool) (loc : ident_locale) (kws : ScanKeywordList).
  Context (parse_other : list Z → result (list command)).
  Context (plan_utility : command → catalog → result (list action * QueryCompletion)).
  Context (guc : gucs).

  Abbreviation run_spi := (spi_execute loc kws parse_other plan_utility).

(** The cost formula, after the values were read and floored. *)
Definition build_cost (reltuples relpages : double) : double :=
  let reltuples := if dltb reltuples d1 then d1 else reltuples in
  let relpages := if dltb relpages d1 then d1 else relpages in
  let c_buy := dadd (dmul relpages seq_page_cost)
                 (dmul (dmul reltuples cpu_operator_cost) (log (dadd reltuples d1))) in
  if dltb c_buy d100 then d100 else c_buy.

Definition estimate_index_build_cost (relid : Z) : M worker double :=
  ret ← in_sess (run_spi (SqlSelect (Q_relsize relid)) true 1);
  processed ← gets (λ w, SPI_processed (sess w));
  if (ret =? SPI_OK_SELECT) && (0 <? processed) then
    r ← tuptable_row 0;
    mret (build_cost (match SPI_getvalue r 1 with Some v => strtod v | None => d1 end)
                     (match SPI_getvalue r 2 with Some v => strtod v | None => d1 end))
  else mret (build_cost d1 d1).

Definition index_already_exists (relid attno : Z) : M worker bool :=
  ret ← in_sess (run_spi (SqlSelect (Q_leading_index relid attno)) true 1);
  processed ← gets (λ w, SPI_processed (sess w));
  mret ((ret =? SPI_OK_SELECT) && (0 <? processed)).

Definition count_auto_indexes (relid : Z) : M worker Z :=
  ret ← in_sess (run_spi (SqlSelect (Q_count_auto relid)) true 1);
  processed ← gets (λ w, SPI_processed (sess w));
  if (ret =? SPI_OK_SELECT) && (0 <? processed) then
    r ← tuptable_row 0;
    mret (match SPI_getvalue r 1 with Some val => atoi val | None => 0 end)
  else mret 0.

(** The catalog caches follow the transaction's own commands. *)
Definition syscache_rows (s : session catalog) : list catrow :=
  visible (db s) (GetSnapshotData (db s) (currentCommandId s)).

Definition get_rel_name (relid : Z) : M worker (option (list Z)) :=
  gets (λ w, list.head (omap (M:=list) (λ r, match r with
    | pg_class o name _ _ _ => if o =? relid then Some name else None
    | _ => None
    end) (syscache_rows (sess w)))).

(** [get_attname(relid, attnum, false)] *)
Definition get_attname (relid attno : Z) : M worker (list Z) := λ w,
  match list.head (omap (M:=list) (λ r, match r with
    | pg_attribute rel name k => if (rel =? relid) && (k =? attno) then Some name else None
    | _ => None
    end) (syscache_rows (sess w))) with
  | Some name => (w, Ok name)
  | None => (w, Err (ErrReport "cache lookup failed for attribute of relation"))
  end.

Definition create_index_for_candidate (relid attno : Z) : M worker unit :=
  tblname ← get_rel_name relid;
  colname ← get_attname relid attno;
  match tblname with
  | None => mret tt
  | Some tblname =>
      in_sess (run_spi
        (SqlCommand (create_text quote_all_identifiers kws tblname colname)) false 0) ;;
      mret tt
  end.

(** One round of the evaluation loop. *)
Definition evaluate_slot (cands : list IndexCandidate) (i : Z) : M worker (list IndexCandidate) :=
  w ← get;
  if negb (is_used (hash w) i) then mret cands
  else
    let cs := entry_at (hash w) i in
    if negb (usage_type (key cs) =? USAGE_PREDICATE) && negb (usage_type (key cs) =? USAGE_JOIN)
    then mret cands
    else if attnum (key cs) <=? 0 then mret cands
    else if exec_count cs <? autoindex_min_exec_freq guc then mret cands
    else
      c_buy ← estimate_index_build_cost (relid (key cs));
      mret (if dgeb (cumulative_rent cs) c_buy
            then cands ++ [mkCandidate (relid (key cs)) (attnum (key cs)) (usage_type (key cs))
                             (exec_count cs) (cumulative_rent cs) c_buy]
            else cands).

Fixpoint evaluate (slots : list Z) (cands : list IndexCandidate) : M worker (list IndexCandidate) :=
  match slots with
  | [] => mret cands
  | i :: slots' => cands ← evaluate_slot cands i; evaluate slots' cands
  end.

(** One round of the creation loop. *)
Definition create_candidate (c : IndexCandidate) : M worker unit :=
  n ← count_auto_indexes (cand_relid c);
  if autoindex_max_indexes_per_table guc <=? n then mret tt
  else
    let remove := modify (λ w, set_hash (advisor_hash_remove (hash w)
                    (mkKey (cand_relid c) (cand_attnum c) (cand_usage c))) w) in
    exists_ ← index_already_exists (cand_relid c) (cand_attnum c);
    if exists_ : bool then remove
    else create_index_for_candidate (cand_relid c) (cand_attnum c) ;; remove.

Definition all_slots : list Z := seqZ 0 ADVISOR_HASH_SIZE.

(** The part of the pass between [SPI_connect] and [SPI_finish]. *)
Definition spi_pass : M worker unit :=
  ret ← in_sess SPI_connect;
  if negb (ret =? SPI_OK_CONNECT) then mret tt
  else
    (cands ← evaluate all_slots [];
     mfor (sort_candidates cands) create_candidate) ;;
    in_sess SPI_finish ;;
    mret tt.

Definition autoindex_run_advisor (now : Z) : M worker unit :=
  modify (λ w, set_hash (advisor_hash_evict_stale now (autoindex_workload_window_days guc)
                           (hash w)) w) ;;
  w ← get;
  match drain_ring_buffer (shmem w) (hash w) with
  | None => fail ErrUB
  | Some (shm, h) =>
      put (mkWorker h shm (sess w)) ;;
      if negb (existsb (is_used h) all_slots) then mret tt else spi_pass
  end.

End advisor.

(** ** Specification *)

(** Sorted by rent, the highest first. *)
Definition rent_ge (a b : IndexCandidate) : Prop := dleb (cand_rent b) (cand_rent a) = true.

(** The rows a pass sees: those of the snapshot taken when it started. *)
Definition view (w : worker) (snap : SnapshotData) : list catrow := visible (db (sess w)) snap.

(** The pass is running: connected to SPI, under the snapshot [snap], which is
    not newer than the current command. *)
Record in_pass (snap : SnapshotData) (w : worker) : Prop := mkInPass {
  ip_active : ∃ rest, ActiveSnapshot (sess w) = snap :: rest;
  ip_ready : spi_ready (sess w);
  ip_curcid : curcid snap ≤ currentCommandId (sess w)
}.

(** A read leaves everything but the SPI result variables alone. *)
Record read_only_change (w w' : worker) : Prop := mkReadOnly {
  ro_hash : hash w' = hash w;
  ro_shmem : shmem w' = shmem w;
  ro_db : db (sess w') = db (sess w);
  ro_cid : currentCommandId (sess w') = currentCommandId (sess w);
  ro_used : currentCommandIdUsed (sess w') = currentCommandIdUsed (sess w);
  ro_first : FirstSnapshotSet (sess w') = FirstSnapshotSet (sess w);
  ro_current : CurrentSnapshot (sess w') = CurrentSnapshot (sess w);
  ro_active : ActiveSnapshot (sess w') = ActiveSnapshot (sess w);
  ro_xact : in_transaction (sess w') = in_transaction (sess w);
  ro_stack : outer <$> SPI_stack (sess w') = outer <$> SPI_stack (sess w)
}.

(** The values the checks compute, as functions of the rows. *)
Definition view_count (c : catalog) (relid : Z) (rows : list catrow) : Z :=
  atoi (int_text (Z.of_nat (length (auto_indexes c relid rows)))).

Definition view_exists (relid attno : Z) (rows : list catrow) : bool :=
  bool_decide (sel_leading_index relid attno rows ≠ []).

Definition view_cost (log : double → double) (seq_page_cost cpu_operator_cost : double)
    (relid : Z) (rows : list catrow) : double :=
  match sel_relsize relid rows with
  | [] => build_cost log seq_page_cost cpu_operator_cost d1 d1
  | r :: _ =>
      build_cost log seq_page_cost cpu_operator_cost
        (match SPI_getvalue r 1 with Some v => strtod v | None => d1 end)
        (match SPI_getvalue r 2 with Some v => strtod v | None => d1 end)
  end.

(** The ski-rental rule for one slot of the table. *)
Definition selected (guc : gucs) (cost : Z → double) (h : advisor) (i : Z) :
    option IndexCandidate :=
  let e := entry_at h i in
  let k := key e in
  if is_used h i && ((usage_type k =? USAGE_PREDICATE) || (usage_type k =? USAGE_JOIN)) &&
     (0 <? attnum k) && (autoindex_min_exec_freq guc <=? exec_count e) &&
     dgeb (cumulative_rent e) (cost (relid k))
  then Some (mkCandidate (relid k) (attnum k) (usage_type k) (exec_count e)
               (cumulative_rent e) (cost (relid k)))
  else None.

(** What a pass may do to the worker after its reads: the catalogs grow in a way
    the pass's snapshot does not show. *)
Record pass_change (w w' : worker) : Prop := mkPassChange {
  pc_sess : spi_inv (sess w) (sess w');
  pc_active : ActiveSnapshot (sess w') = ActiveSnapshot (sess w);
  pc_shmem : shmem w' = shmem w
}.

Definition cand_key (c : IndexCandidate) : ColStatsKey :=
  mkKey (cand_relid c) (cand_attnum c) (cand_usage c).

(** The table of statistics after the creation loop: a candidate loses its entry
    unless its table was at the limit in the rows [rows]. *)
Definition spend (guc : gucs) (cat : catalog) (rows : list catrow) (h : advisor)
    (c : IndexCandidate) : advisor :=
  if autoindex_max_indexes_per_table guc <=? view_count cat (cand_relid c) rows then h
  else advisor_hash_remove h (cand_key c).

(** The candidates of a pass in the order in which they are tried, from the
    statistics [h] and the rows [rows]. *)
Definition chosen (log : double → double) (seq_page_cost cpu_operator_cost : double) (guc : gucs)
    (h : advisor) (rows : list catrow) : list IndexCandidate :=
  sort_candidates (omap (M:=list)
    (selected guc (λ relid, view_cost log seq_page_cost cpu_operator_cost relid rows) h) all_slots).

(** A table of statistics with the given entries, each in its home slot. *)
Definition small_hash (es : list ColStatsEntry) : advisor :=
  foldl (λ h e, set_entry (advisor_hash_fn (key e)) e true h) advisor_init es.

(** A worker about to run a pass over the table [orders]. *)
Definition small_worker (more : list catrow) (es : list ColStatsEntry) : worker :=
  mkWorker (small_hash es) None (small_session (small_catalog more)).

(** The columns of [orders], each filtered on 1000 times for a rent of [rent]. *)
Definition orders_stats (rents : list (Z * Z)) : list ColStatsEntry :=
  (λ '(col, rent), mkStats (mkKey 16400 col USAGE_PREDICATE) 1000 (d_of_Z rent) 5) <$> rents.

(** A pass over it, with a limit on the indexes of a table. *)
Definition small_guc (max : Z) : gucs := mkGucs true 60 300 6 100 (d_of_Z 1) max 7 3.

Definition small_pass (max : Z) : worker → worker * result unit :=
  autoindex_run_advisor (λ _, d1) d1 d1 false c_locale sql_keywords (λ _, Err ErrUB) small_utility
    (small_guc max) 10.

(** The automatic indexes on [orders] the next transaction sees. *)
Definition orders_indexes (w : worker) : nat :=
  length (auto_indexes (db (sess w)) 16400 (latest_rows (db (sess w)))).

(** The same worker, connected to SPI. *)
Definition small_connected : worker :=
  let w := small_worker [] [] in
  set_sess (set_stack [mkConnection 0 None 0 None 0] (sess w)) w.

(** The 2048 slot numbers are never computed in proofs. *)
#[local] Opaque all_slots.

(** ** Sorting *)

Lemma exchange_split i p x d y t : length p = i →
  exchange i (p ++ x :: d ++ y :: t) (S i + length d) =
    if dgtb (cand_rent y) (cand_rent x) then p ++ y :: d ++ x :: t else p ++ x :: d ++ y :: t.
Proof.
  intros Hi. unfold exchange. rewrite lookup_app_r by lia. rewrite Hi, Nat.sub_diag. simpl.
  assert (Hl : (p ++ x :: d ++ y :: t) !! S (i + length d) = Some y).
  { rewrite lookup_app_r by lia. replace (S (i + length d) - length p)%nat with (S (length d)) by lia.
    simpl. rewrite lookup_app_r by lia. by rewrite Nat.sub_diag. }
  rewrite Hl. destruct (dgtb _ _); [|done].
  rewrite insert_app_r_alt by lia. rewrite Hi, Nat.sub_diag. simpl.
  rewrite insert_app_r_alt by lia. replace (S (i + length d) - length p)%nat with (S (length d)) by lia.
  simpl. rewrite insert_app_r_alt by lia. by rewrite Nat.sub_diag.
Qed.

Lemma rent_ge_refl a : is_nan (cand_rent a) = false → rent_ge a a.
Proof. apply dleb_refl. Qed.

Lemma rent_ge_trans a b c : rent_ge a b → rent_ge b c → rent_ge a c.
Proof. unfold rent_ge. intros H1 H2. by eapply dleb_trans. Qed.

Lemma dgtb_cases a b : is_nan (cand_rent a) = false → is_nan (cand_rent b) = false →
  if dgtb (cand_rent b) (cand_rent a) then rent_ge b a else rent_ge a b.
Proof.
  intros Ha Hb. unfold rent_ge, dgtb. fold (dltb (cand_rent a) (cand_rent b)).
  destruct (dltb (cand_rent a) (cand_rent b)) eqn:E; [by apply dltb_dleb|].
  destruct (dleb_total (cand_rent a) (cand_rent b) Ha Hb) as [H|H]; [|done].
  pose proof (dltb_nge (cand_rent a) (cand_rent b) Ha Hb) as Hn. rewrite E in Hn.
  by destruct (dleb (cand_rent b) (cand_rent a)).
Qed.

Lemma sort_inner_spec i p t : ∀ x d, length p = i →
  Forall (λ c, is_nan (cand_rent c) = false) (x :: d ++ t) → Forall (rent_ge x) d →
  ∃ x' r', foldl (exchange i) (p ++ x :: d ++ t) (seq (S i + length d) (length t)) = p ++ x' :: r' ∧
    x' :: r' ≡ₚ x :: d ++ t ∧ Forall (rent_ge x') r'.
Proof.
  induction t as [|y t IH]; intros x d Hi Hn Hd; cbn [length seq foldl].
  { exists x, (d ++ []). rewrite app_nil_r. done. }
  rewrite exchange_split by done.
  assert (Hnx : is_nan (cand_rent x) = false ∧ is_nan (cand_rent y) = false).
  { rewrite list.Forall_cons, Forall_app, list.Forall_cons in Hn. tauto. }
  pose proof (dgtb_cases x y (proj1 Hnx) (proj2 Hnx)) as Hxy.
  assert (Hlen : ∀ z : IndexCandidate, S (S i + length d) = (S i + length (d ++ [z]))%nat)
    by (intros z; rewrite length_app; simpl; lia).
  destruct (dgtb (cand_rent y) (cand_rent x)).
  - destruct (IH y (d ++ [x]) Hi) as (x' & r' & He & Hp & Hf).
    + eapply Permutation_Forall; [|exact Hn]. rewrite <- app_assoc. simpl.
      rewrite <- !Permutation_middle. apply perm_swap.
    + apply Forall_app. split; [|by constructor].
      eapply list.Forall_impl; [exact Hd|]. intros z. by apply rent_ge_trans.
    + exists x', r'. rewrite <- app_assoc in He. cbn [app] in He. rewrite (Hlen x), He. split_and!; [done| |done].
      rewrite Hp, <- app_assoc. simpl. rewrite <- !Permutation_middle. apply perm_swap.
  - destruct (IH x (d ++ [y]) Hi) as (x' & r' & He & Hp & Hf).
    + by rewrite <- app_assoc.
    + apply Forall_app. split; [done|by constructor].
    + exists x', r'. rewrite <- app_assoc in He, Hp. cbn [app] in He, Hp. rewrite (Hlen y), He. done.
Qed.

Lemma sort_outer_spec n : ∀ p t, length t = n →
  Forall (λ c, is_nan (cand_rent c) = false) t →
  ∃ s, foldl sort_inner (p ++ t) (seq (length p) (length t - 1)) = p ++ s ∧ s ≡ₚ t ∧
    StronglySorted rent_ge s.
Proof.
  induction n as [|n IH]; intros p t Hn Ht.
  { apply nil_length_inv in Hn as ->. exists []. split_and!; [done|done|constructor]. }
  destruct t as [|x [|y t]]; [done| |].
  { exists [x]. split_and!; [done|done|repeat constructor]. }
  cbn [length Nat.sub seq foldl].
  assert (Hin : sort_inner (p ++ x :: y :: t) (length p) =
    foldl (exchange (length p)) (p ++ x :: [] ++ (y :: t)) (seq (S (length p) + length (@nil IndexCandidate)) (length (y :: t)))).
  { unfold sort_inner. rewrite length_app. simpl length. rewrite Nat.add_0_r.
    do 2 f_equal. lia. }
  rewrite Hin. destruct (sort_inner_spec (length p) p (y :: t) x [] eq_refl) as (x' & r' & -> & Hp & Hf);
    [done|constructor|].
  assert (Hlen : length r' = S (length t)) by (apply Permutation_length in Hp; simpl in Hp; lia).
  assert (Hnan : Forall (λ c, is_nan (cand_rent c) = false) (x' :: r'))
    by (eapply Permutation_Forall; [symmetry; exact Hp|done]).
  inv Hnan as [|? ? _ Hnr].
  destruct (IH (p ++ [x']) r') as (s & Hs & Hps & Hss); [simpl in Hn; lia|done|].
  rewrite <- app_assoc, length_app, Hlen in Hs. cbn [app length Nat.sub] in Hs.
  rewrite Nat.add_1_r, Nat.sub_0_r in Hs.
  exists (x' :: s). rewrite Hs, <- app_assoc. split_and!; [done|by rewrite Hps|].
  constructor; [done|]. eapply Permutation_Forall; [symmetry; exact Hps|done].
Qed.

(** ** Reads *)

Section reads.
  Context (log : double → double) (seq_page_cost cpu_operator_cost : double).
  Context (quote_all_identifiers : bool) (loc : ident_locale) (kws : ScanKeywordList).
  Context (parse_other : list Z → result (list command)).
  Context (plan_utility : command → catalog → result (list action * QueryCompletion)).
  Context (guc : gucs).


  Abbreviation run_spi := (spi_execute loc kws parse_other plan_utility).

Lemma ro_refl w : read_only_change w w.
Proof. by split. Qed.

Lemma ro_trans w1 w2 w3 : read_only_change w1 w2 → read_only_change w2 w3 → read_only_change w1 w3.
Proof. intros [] []. split; congruence. Qed.

Lemma ro_in_pass snap w w' : read_only_change w w' → in_pass snap w → in_pass snap w'.
Proof.
  intros [H1 H2 H3 H4 H5 H6 H7 H8 H9 H10] [I1 [R1 R2 R3 R4 R5] I5].
  split; [by rewrite H8| |by rewrite H4]. split; rewrite ?H3, ?H4, ?H6, ?H7, ?H8; auto.
  intros E. rewrite E in H10. by destruct (SPI_stack (sess w)).
Qed.

Lemma ro_view snap w w' : read_only_change w w' → view w' snap = view w snap.
Proof. intros []. unfold view. congruence. Qed.

(** A SELECT of the pass. *)
Lemma select_spec snap w q rows : in_pass snap w →
  exec_select q snap (db (sess w)) = Ok rows →
  ∃ w', in_sess (run_spi (SqlSelect q) true 1) w = (w', Ok SPI_OK_SELECT) ∧
    read_only_change w w' ∧
    SPI_processed (sess w') = Z.of_nat (length (take 1 rows)) ∧
    SPI_tuptable (sess w') = Some (take 1 rows).
Proof.
  intros [[rest Ha] [_ _ _ Hst _] _] Hx. destruct (SPI_stack (sess w)) as [|c stk] eqn:Es; [done|].
  unfold in_sess, spi_execute.
  rewrite (SPI_execute_select GetSnapshotData (raw_parser loc kws parse_other) exec_select
    (ProcessUtility plan_utility) command_kind analyze_and_plan (SqlSelect q) (RawSelect q) q 1 (sess w)
    snap rest c stk rows) by done.
  eexists. split; [done|]. split_and!; [|done|done].
  split; simpl; try done. by rewrite Es.
Qed.

Lemma count_spec snap w relid : in_pass snap w →
  ∃ w', count_auto_indexes loc kws parse_other plan_utility relid w =
      (w', Ok (view_count (db (sess w)) relid (view w snap))) ∧ read_only_change w w'.
Proof.
  intros Hp. destruct (select_spec snap w (Q_count_auto relid) _ Hp eq_refl) as (w' & E & Hro & H1 & H2).
  exists w'. split; [|done]. unfold count_auto_indexes. rewrite (bind_ok _ _ _ _ _ E).
  msimpl. rewrite H1. simpl. unfold tuptable_row. by rewrite H2.
Qed.

Lemma exists_spec snap w relid attno : in_pass snap w →
  ∃ w', index_already_exists loc kws parse_other plan_utility relid attno w =
      (w', Ok (view_exists relid attno (view w snap))) ∧ read_only_change w w'.
Proof.
  intros Hp.
  destruct (select_spec snap w (Q_leading_index relid attno) _ Hp eq_refl) as (w' & E & Hro & H1 & H2).
  exists w'. split; [|done]. unfold index_already_exists. rewrite (bind_ok _ _ _ _ _ E).
  msimpl. rewrite H1. simpl. unfold view_exists, view.
  destruct (sel_leading_index relid attno (visible (db (sess w)) snap)) as [|r rs]; done.
Qed.

Lemma cost_spec snap w relid : in_pass snap w →
  ∃ w', estimate_index_build_cost log seq_page_cost cpu_operator_cost loc kws parse_other
          plan_utility relid w =
      (w', Ok (view_cost log seq_page_cost cpu_operator_cost relid (view w snap))) ∧
    read_only_change w w'.
Proof.
  intros Hp. destruct (select_spec snap w (Q_relsize relid) _ Hp eq_refl) as (w' & E & Hro & H1 & H2).
  exists w'. split; [|done]. unfold estimate_index_build_cost. rewrite (bind_ok _ _ _ _ _ E).
  msimpl. rewrite H1. simpl. unfold view_cost, view.
  destruct (sel_relsize relid (visible (db (sess w)) snap)) as [|r rs]; [done|]. simpl.
  unfold tuptable_row. by rewrite H2.
Qed.

(** ** The evaluation loop *)

Lemma evaluate_slot_spec snap w cands i : in_pass snap w →
  ∃ w', evaluate_slot log seq_page_cost cpu_operator_cost loc kws parse_other plan_utility guc
          cands i w =
      (w', Ok (cands ++ option_list (selected guc
         (λ relid, view_cost log seq_page_cost cpu_operator_cost relid (view w snap))
         (hash w) i))) ∧
    read_only_change w w'.
Proof.
  intros Hp. unfold evaluate_slot, selected. msimpl.
  destruct (is_used (hash w) i); simpl; [|exists w; rewrite app_nil_r; by split; [|apply ro_refl]].
  set (e := entry_at (hash w) i). rewrite <- negb_orb.
  destruct ((usage_type (key e) =? USAGE_PREDICATE) || (usage_type (key e) =? USAGE_JOIN)); simpl;
    [|exists w; rewrite app_nil_r; by split; [|apply ro_refl]].
  rewrite (Z.ltb_antisym (attnum (key e)) 0). destruct (attnum (key e) <=? 0); simpl;
    [exists w; rewrite app_nil_r; by split; [|apply ro_refl]|].
  rewrite (Z.leb_antisym (exec_count e)). destruct (exec_count e <? autoindex_min_exec_freq guc); simpl;
    [exists w; rewrite app_nil_r; by split; [|apply ro_refl]|].
  destruct (cost_spec snap w (relid (key e)) Hp) as (w' & E & Hro). exists w'. split; [|done].
  rewrite E. by destruct (dgeb _ _); rewrite ?app_nil_r.
Qed.

Lemma evaluate_spec snap slots : ∀ w cands, in_pass snap w →
  ∃ w', evaluate log seq_page_cost cpu_operator_cost loc kws parse_other plan_utility guc
          slots cands w =
      (w', Ok (cands ++ omap (M:=list) (selected guc
         (λ relid, view_cost log seq_page_cost cpu_operator_cost relid (view w snap))
         (hash w)) slots)) ∧
    read_only_change w w'.
Proof.
  induction slots as [|i slots IH]; intros w cands Hp; cbn [evaluate].
  { exists w. msimpl. rewrite app_nil_r. by split; [|apply ro_refl]. }
  destruct (evaluate_slot_spec snap w cands i Hp) as (w1 & E & Hro).
  rewrite (bind_ok _ _ _ _ _ E).
  match goal with |- context [evaluate _ _ _ _ _ _ _ _ slots ?c w1] =>
    destruct (IH w1 c (ro_in_pass _ _ _ Hro Hp)) as (w2 & E2 & Hro2) end.
  exists w2. rewrite E2. split; [|by eapply ro_trans].
  rewrite (ro_view _ _ _ Hro), (ro_hash _ _ Hro), <- app_assoc. do 3 f_equal. csimpl.
  by destruct (selected _ _ _ i).
Qed.

(** ** The creation loop *)

Lemma ro_pass_change snap w w' : in_pass snap w → read_only_change w w' → pass_change w w'.
Proof.
  intros [_ [R1 R2 R3 R4 R5] _] [H1 H2 H3 H4 H5 H6 H7 H8 H9 H10].
  split; [|done|done]. split; rewrite ?H3, ?H4, ?H6, ?H7; try done. lia.
Qed.

Lemma pc_refl snap w : in_pass snap w → pass_change w w.
Proof. intros H. by eapply ro_pass_change, ro_refl. Qed.

Lemma pc_trans w1 w2 w3 : pass_change w1 w2 → pass_change w2 w3 → pass_change w1 w3.
Proof. intros [I H1 H2] [J H3 H4]. split; [by eapply spi_inv_trans|congruence..]. Qed.

Lemma pc_in_pass snap w w' : pass_change w w' → in_pass snap w → in_pass snap w'.
Proof.
  intros [[A0 _ _ A3 A4 A5 _ _] H1 H2] [I1 [R1 R2 R3 R4 R5] I5]. split; [by rewrite H1| |lia].
  split; rewrite ?H1; try done; [lia|]. intros E. rewrite E in A5.
  by destruct (SPI_stack (sess w)).
Qed.

Lemma pc_view snap w w' : in_pass snap w → pass_change w w' → view w' snap = view w snap.
Proof. intros [_ _ Hc] [Hi _ _]. by apply (si_vis _ _ Hi). Qed.

Lemma pc_count snap w w' relid : in_pass snap w → pass_change w w' →
  view_count (db (sess w')) relid (view w' snap) = view_count (db (sess w)) relid (view w snap).
Proof.
  intros Hp Hc. pose proof (pc_view _ _ _ Hp Hc) as Hv.
  pose proof (exec_select_stable (Q_count_auto relid) snap _ _ (si_ext _ _ (pc_sess _ _ Hc)) Hv) as He.
  simpl in He. injection He as He. unfold view_count, view. by rewrite He.
Qed.

(** A change to the table of statistics only. *)
Lemma pc_set_hash w w' h : pass_change w w' → pass_change w (set_hash h w').
Proof. intros []. by split. Qed.

Lemma get_rel_name_pure relid w : ∃ o, get_rel_name relid w = (w, Ok o).
Proof. by eexists. Qed.

Lemma get_attname_pure relid attno w : ∃ r, get_attname relid attno w = (w, r).
Proof. unfold get_attname. case_match; by eexists. Qed.

Lemma get_attname_missing w relid attno :
  (∀ name, pg_attribute relid name attno ∉ syscache_rows (sess w)) →
  ∃ e, get_attname relid attno w = (w, Err e).
Proof.
  intros H. unfold get_attname.
  destruct (list.head _) as [name|] eqn:E; [exfalso|by eexists].
  apply head_Some_elem_of, list_elem_of_omap in E as (r & Hr & Hm). destruct r; try done.
  destruct (_ && _) eqn:Hc; [|done]. apply andb_prop in Hc as [->%Z.eqb_eq ->%Z.eqb_eq]. by eapply H.
Qed.

Lemma create_index_spec snap w relid attno : in_pass snap w →
  match create_index_for_candidate quote_all_identifiers loc kws parse_other plan_utility
          relid attno w with
  | (w', Ok _) => pass_change w w' ∧ hash w' = hash w
  | (w', Err _) => spi_inv (sess w) (sess w') ∧ hash w' = hash w ∧ shmem w' = shmem w
  end.
Proof.
  intros Hp. pose proof (pc_refl _ _ Hp) as Hr. unfold create_index_for_candidate.
  destruct (get_rel_name_pure relid w) as [tbl E0]. rewrite (bind_ok _ _ _ _ _ E0).
  destruct (get_attname_pure relid attno w) as [[col|e] E1];
    [rewrite (bind_ok _ _ _ _ _ E1)|rewrite (bind_err _ _ _ _ _ E1); by destruct Hr].
  destruct tbl as [tbl|]; [|done].
  pose proof (spi_execute_stable loc kws parse_other plan_utility
    (SqlCommand (create_text quote_all_identifiers kws tbl col)) false 0 (sess w) (ip_ready _ _ Hp)) as Hx.
  destruct (run_spi (SqlCommand (create_text quote_all_identifiers kws tbl col)) false 0 (sess w))
    as [s' r] eqn:E2.
  assert (E3 : in_sess (run_spi (SqlCommand (create_text quote_all_identifiers kws tbl col)) false 0) w
    = (set_sess s' w, r)) by (unfold in_sess; by rewrite E2).
  destruct r as [z|e]; [rewrite (bind_ok _ _ _ _ _ E3)|rewrite (bind_err _ _ _ _ _ E3); done].
  destruct Hx as [Hx1 Hx2]. done.
Qed.

(** One candidate: what is decided, and on which rows. *)
Lemma create_candidate_spec snap w c : in_pass snap w →
  match create_candidate quote_all_identifiers loc kws parse_other plan_utility guc c w with
  | (w', Ok _) => pass_change w w' ∧
      hash w' = spend guc (db (sess w)) (view w snap) (hash w) c
  | (w', Err _) => spi_inv (sess w) (sess w') ∧ hash w' = hash w ∧ shmem w' = shmem w
  end.
Proof.
  intros Hp. unfold create_candidate, spend.
  destruct (count_spec snap w (cand_relid c) Hp) as (w1 & E1 & Hro1).
  rewrite (bind_ok _ _ _ _ _ E1).
  pose proof (ro_pass_change _ _ _ Hp Hro1) as Hc1.
  destruct (autoindex_max_indexes_per_table guc <=? _); [split; [done|apply Hro1]|].
  assert (Hp1 : in_pass snap w1) by (by eapply ro_in_pass).
  destruct (exists_spec snap w1 (cand_relid c) (cand_attnum c) Hp1) as (w2 & E2 & Hro2).
  rewrite (bind_ok _ _ _ _ _ E2).
  assert (Hc2 : pass_change w w2) by (eapply pc_trans; [done|by eapply ro_pass_change]).
  assert (Hh2 : hash w2 = hash w) by (by rewrite (ro_hash _ _ Hro2), (ro_hash _ _ Hro1)).
  destruct (view_exists _ _ _).
  { split; [by apply pc_set_hash|]. simpl. by rewrite Hh2. }
  pose proof (create_index_spec snap w2 (cand_relid c) (cand_attnum c) (pc_in_pass _ _ _ Hc2 Hp)) as Hx.
  msimpl. destruct (create_index_for_candidate _ _ _ _ _ _ _ w2) as [w3 [u|e]]; msimpl.
  - destruct Hx as [Hx Hh]. split; [apply pc_set_hash; by eapply pc_trans|]. simpl. by rewrite Hh, Hh2.
  - destruct Hx as (Hx & Hh & Hm). split_and!; [|by rewrite Hh, Hh2|by rewrite Hm, (pc_shmem _ _ Hc2)].
    by eapply spi_inv_trans; [apply Hc2|].
Qed.

(** The rows the loop works with stay those of its start. *)
Lemma creation_loop_spec snap w0 cs : ∀ w, in_pass snap w → pass_change w0 w → in_pass snap w0 →
  match mfor cs (create_candidate quote_all_identifiers loc kws parse_other plan_utility guc) w with
  | (w', Ok _) => pass_change w0 w' ∧
      hash w' = foldl (spend guc (db (sess w0)) (view w0 snap)) (hash w) cs
  | (w', Err _) => spi_inv (sess w0) (sess w') ∧ shmem w' = shmem w0 ∧
      ∃ done, done `prefix_of` cs ∧
      hash w' = foldl (spend guc (db (sess w0)) (view w0 snap)) (hash w) done
  end.
Proof.
  induction cs as [|c cs IH]; intros w Hp Hc Hp0; [done|]. cbn [mfor].
  pose proof (create_candidate_spec snap w c Hp) as Hx.
  destruct (create_candidate _ _ _ _ _ _ c w) as [w1 [[]|e]] eqn:E.
  - rewrite (bind_ok _ _ _ _ _ E). destruct Hx as [Hc1 Hh].
    assert (Hs : hash w1 = spend guc (db (sess w0)) (view w0 snap) (hash w) c).
    { rewrite Hh. unfold spend. by rewrite (pc_count snap w0 w). }
    specialize (IH w1 (pc_in_pass _ _ _ Hc1 Hp) (pc_trans _ _ _ Hc Hc1) Hp0).
    rewrite Hs in IH. cbn [foldl].
    destruct (mfor cs _ w1) as [w2 [[]|e]]; [done|]. destruct IH as (Hi & Hm & d & Hd & He).
    split_and!; [done|done|]. exists (c :: d). split; [by apply prefix_cons|done].
  - rewrite (bind_err _ _ _ _ _ E). destruct Hx as (Hi & Hh & Hm).
    split_and!; [by eapply spi_inv_trans; [apply Hc|]|by rewrite Hm, (pc_shmem _ _ Hc)|].
    exists []. split; [apply prefix_nil|done].
Qed.

End reads.

(** ** The pass *)

Lemma selected_unused guc cost h i : is_used h i = false → selected guc cost h i = None.
Proof. unfold selected. by intros ->. Qed.

Lemma chosen_empty log spc coc guc h rows : existsb (is_used h) all_slots = false →
  chosen log spc coc guc h rows = [].
Proof.
  intros H. unfold chosen. generalize all_slots, H. clear H. intros l H.
  replace (omap (M:=list) _ l) with (@nil IndexCandidate); [done|].
  induction l as [|i l IH]; [done|]. cbn [existsb] in H. apply orb_false_elim in H as [Hi Hl].
  csimpl. rewrite selected_unused by done. by apply IH.
Qed.

Lemma connect_in_pass snap w : pass_start snap (sess w) →
  ∃ w1 c, in_sess SPI_connect w = (w1, Ok SPI_OK_CONNECT) ∧ in_pass snap w1 ∧
    hash w1 = hash w ∧ shmem w1 = shmem w ∧ db (sess w1) = db (sess w) ∧
    ActiveSnapshot (sess w1) = ActiveSnapshot (sess w) ∧ SPI_stack (sess w1) = [c] ∧
    outer c = (SPI_processed (sess w), SPI_tuptable (sess w), SPI_result (sess w)) ∧
    in_transaction (sess w1) = in_transaction (sess w).
Proof.
  intros [H1 H2 H3 H4 H5 H6]. do 2 eexists. split; [done|]. unfold set_sess, set_globals, set_stack.
  simpl. rewrite H6. split_and!; try done. split; simpl; [done| |done].
  split; simpl; try done. destruct H1 as [rest ->]. done.
Qed.

Lemma finish_spec w c p t r : SPI_stack (sess w) = [c] → outer c = (p, t, r) →
  ∃ w', in_sess SPI_finish w = (w', Ok SPI_OK_FINISH) ∧ hash w' = hash w ∧ shmem w' = shmem w ∧
    SPI_stack (sess w') = [] ∧ db (sess w') = db (sess w) ∧
    ActiveSnapshot (sess w') = ActiveSnapshot (sess w) ∧
    in_transaction (sess w') = in_transaction (sess w) ∧
    (SPI_processed (sess w'), SPI_tuptable (sess w'), SPI_result (sess w')) = (p, t, r).
Proof.
  intros Hs Ho. unfold in_sess, SPI_finish. rewrite Hs. eexists. split; [done|].
  destruct c. unfold outer in Ho. simpl in *. by simplify_eq.
Qed.

Section pass.
  Context (log : double → double) (seq_page_cost cpu_operator_cost : double).
  Context (quote_all_identifiers : bool) (loc : ident_locale) (kws : ScanKeywordList).
  Context (parse_other : list Z → result (list command)).
  Context (plan_utility : command → catalog → result (list action * QueryCompletion)).
  Context (guc : gucs).

Lemma run_advisor_unfold now w :
  autoindex_run_advisor log seq_page_cost cpu_operator_cost quote_all_identifiers loc kws
    parse_other plan_utility guc now w =
  let h0 := advisor_hash_evict_stale now (autoindex_workload_window_days guc) (hash w) in
  match drain_ring_buffer (shmem w) h0 with
  | None => (set_hash h0 w, Err ErrUB)
  | Some (shm, h) =>
      if negb (existsb (is_used h) all_slots) then (mkWorker h shm (sess w), Ok tt)
      else spi_pass log seq_page_cost cpu_operator_cost quote_all_identifiers loc kws
             parse_other plan_utility guc (mkWorker h shm (sess w))
  end.
Proof.
  unfold autoindex_run_advisor, mbind, M_bind, modify, get, put. cbn [hash shmem sess set_hash].
  destruct (drain_ring_buffer _ _) as [[shm h]|]; [|done]. by destruct (existsb _ _).
Qed.

(** The two loops, once connected. *)
Lemma loops_spec snap w : in_pass snap w →
  let rows := view w snap in
  let cands := chosen log seq_page_cost cpu_operator_cost guc (hash w) rows in
  match (cands ← evaluate log seq_page_cost cpu_operator_cost loc kws parse_other plan_utility guc
                   all_slots [];
         mfor (sort_candidates cands)
           (create_candidate quote_all_identifiers loc kws parse_other plan_utility guc)) w with
  | (w', Ok _) => pass_change w w' ∧
      hash w' = foldl (spend guc (db (sess w)) rows) (hash w) cands
  | (w', Err _) => spi_inv (sess w) (sess w') ∧ shmem w' = shmem w ∧
      ∃ done, done `prefix_of` cands ∧
      hash w' = foldl (spend guc (db (sess w)) rows) (hash w) done
  end.
Proof.
  intros Hp rows cands.
  destruct (evaluate_spec log seq_page_cost cpu_operator_cost loc kws parse_other plan_utility guc
    snap all_slots w [] Hp) as (w1 & E & Hro).
  rewrite (bind_ok _ _ _ _ _ E). cbn [app].
  pose proof (creation_loop_spec quote_all_identifiers loc kws parse_other plan_utility guc snap w
    cands w1 (ro_in_pass _ _ _ Hro Hp) (ro_pass_change _ _ _ Hp Hro) Hp) as Hx.
  rewrite (ro_hash _ _ Hro) in Hx. unfold cands, chosen in *. exact Hx.
Qed.

Lemma spi_pass_spec snap w : pass_start snap (sess w) →
  let rows := view w snap in
  let cands := chosen log seq_page_cost cpu_operator_cost guc (hash w) rows in
  let spend_all := foldl (spend guc (db (sess w)) rows) (hash w) in
  let '(w', r) := spi_pass log seq_page_cost cpu_operator_cost quote_all_identifiers loc kws
          parse_other plan_utility guc w in
  shmem w' = shmem w ∧ session_effect (sess w) (sess w') ∧
  match r with
  | Ok _ => hash w' = spend_all cands ∧ view w' snap = rows ∧ session_restored (sess w) (sess w')
  | Err _ => ∃ done, done `prefix_of` cands ∧ hash w' = spend_all done
  end.
Proof.
  intros Hs rows cands spend_all. unfold spi_pass.
  destruct (connect_in_pass snap w Hs) as (w1 & c & E1 & Hp & Hh & Hm & Hdb & Ha & Hst & Ho & Hx).
  rewrite (bind_ok _ _ _ _ _ E1), Z.eqb_refl. cbn [negb].
  pose proof (loops_spec snap w1 Hp) as Hl. cbn zeta in Hl.
  assert (Hv : view w1 snap = rows) by (unfold view; by rewrite Hdb). rewrite Hv, Hh, Hdb in Hl.
  assert (He : ∀ w', spi_inv (sess w1) (sess w') → session_effect (sess w) (sess w')).
  { intros w' []. unfold session_effect. by rewrite <- Hdb, <- Hx. }
  match type of Hl with match ?m w1 with _ => _ end => destruct (m w1) as [w2 [[]|e]] eqn:E2 end.
  - rewrite (bind_ok _ _ _ _ _ E2). destruct Hl as [Hc Hh2].
    pose proof (si_outer _ _ (pc_sess _ _ Hc)) as Hout. rewrite Hst in Hout.
    destruct (SPI_stack (sess w2)) as [|c2 [|c3 l]] eqn:Es2; [done| |done].
    assert (Hoc : outer c2 = outer c) by (by apply (f_equal (λ l, default (outer c2) (list.head l))) in Hout).
    destruct (finish_spec w2 c2 (SPI_processed (sess w)) (SPI_tuptable (sess w)) (SPI_result (sess w)))
      as (w3 & E3 & F1 & F2 & F3 & F4 & F5 & F6 & F7); [done|by rewrite Hoc|].
    rewrite (bind_ok _ _ _ _ _ E3). split_and!.
    + by rewrite F2, (pc_shmem _ _ Hc).
    + unfold session_effect. rewrite F4, F6. apply (He w2), Hc.
    + by rewrite F1.
    + unfold view. rewrite F4. etrans; [apply (pc_view snap w1 w2 Hp Hc)|done].
    + injection F7 as F7a F7b F7c. unfold session_restored. by rewrite F5, (pc_active _ _ Hc).
  - rewrite (bind_err _ _ _ _ _ E2). destruct Hl as (Hi & Hl1 & Hl2).
    split_and!; [by rewrite Hl1|by apply He|done].
Qed.

Lemma run_advisor_spec snap w now shm h : pass_start snap (sess w) →
  drain_ring_buffer (shmem w)
    (advisor_hash_evict_stale now (autoindex_workload_window_days guc) (hash w)) = Some (shm, h) →
  let rows := view w snap in
  let cands := chosen log seq_page_cost cpu_operator_cost guc h rows in
  let spend_all := foldl (spend guc (db (sess w)) rows) h in
  let '(w', r) := autoindex_run_advisor log seq_page_cost cpu_operator_cost quote_all_identifiers
          loc kws parse_other plan_utility guc now w in
  shmem w' = shm ∧ session_effect (sess w) (sess w') ∧
  match r with
  | Ok _ => hash w' = spend_all cands ∧ view w' snap = rows ∧ session_restored (sess w) (sess w')
  | Err _ => ∃ done, done `prefix_of` cands ∧ hash w' = spend_all done
  end.
Proof.
  intros Hs Hd rows cands spend_all. rewrite run_advisor_unfold. cbn zeta. rewrite Hd.
  destruct (existsb (is_used h) all_slots) eqn:Hu; cbn [negb].
  - exact (spi_pass_spec snap (mkWorker h shm (sess w)) Hs).
  - subst cands spend_all. rewrite chosen_empty by done.
    split_and!; try done. unfold session_restored. split_and!; try done. apply (ps_spi _ _ Hs).
Qed.


End pass.


(** The exchange sort of the candidates is a sort: for rents that are numbers
    it returns a permutation of the candidates in falling order of rent. *)
Theorem sort_candidates_correct cs : Forall (λ c, is_nan (cand_rent c) = false) cs →
  sort_candidates cs ≡ₚ cs ∧ StronglySorted rent_ge (sort_candidates cs).
Proof.
  intros H. destruct (sort_outer_spec (length cs) [] cs eq_refl H) as (s & E & Hp & Hs).
  unfold sort_candidates. cbn [app length] in E. by rewrite E.
Qed.

Lemma sort_candidates_correct_witness :
  let c r := mkCandidate 1 1 USAGE_PREDICATE 200 (d_of_Z r) d100 in
  sort_candidates [c 300; c 500; c 400] = [c 500; c 400; c 300] ∧
  StronglySorted rent_ge (sort_candidates [c 300; c 500; c 400]).
Proof.
  intros c. split; [by vm_compute|].
  apply (sort_candidates_correct [c 300; c 500; c 400]). by repeat constructor.
Defined.

Lemma build_cost_floor log spc coc t p : is_nan (build_cost log spc coc t p) = false →
  dleb d100 (build_cost log spc coc t p) = true.
Proof.
  unfold build_cost. set (c := dadd _ _). destruct (dltb c d100) eqn:E; [by vm_compute|].
  intros Hn. rewrite dltb_nge in E by (done || by vm_compute). by apply negb_false_iff in E.
Qed.

Lemma view_cost_floor log spc coc relid rows : is_nan (view_cost log spc coc relid rows) = false →
  dleb d100 (view_cost log spc coc relid rows) = true.
Proof. unfold view_cost. case_match; apply build_cost_floor. Qed.

Lemma sort_candidates_perm cs : Forall (λ c, is_nan (cand_rent c) = false) cs → sort_candidates cs ≡ₚ cs.
Proof.
  intros H. destruct (sort_outer_spec (length cs) [] cs eq_refl H) as (s & E & Hp & Hs).
  unfold sort_candidates. cbn [app length] in E. by rewrite E.
Qed.

Lemma selected_spec log spc coc guc h rows i c :
  selected guc (λ relid, view_cost log spc coc relid rows) h i = Some c →
  is_used h i = true ∧ key (entry_at h i) = cand_key c ∧
  cumulative_rent (entry_at h i) = cand_rent c ∧ exec_count (entry_at h i) = cand_exec_count c ∧
  cand_usage c ∈ [USAGE_PREDICATE; USAGE_JOIN] ∧ 0 < cand_attnum c ∧
  autoindex_min_exec_freq guc ≤ cand_exec_count c ∧
  cand_buy c = view_cost log spc coc (cand_relid c) rows ∧
  dleb (cand_buy c) (cand_rent c) = true ∧ dleb d100 (cand_buy c) = true.
Proof.
  unfold selected. set (e := entry_at h i). intros H.
  destruct (is_used h i && _ && _ && _ && _) eqn:E; [|done]. injection H as <-.
  apply andb_prop in E as [E E5]. apply andb_prop in E as [E E4]. apply andb_prop in E as [E E3].
  apply andb_prop in E as [E1 E2]. apply Z.ltb_lt in E3. apply Z.leb_le in E4.
  split_and!; try done; unfold cand_key; simpl.
  - by destruct (key e).
  - rewrite !elem_of_cons. apply orb_prop in E2 as [E2|E2]; apply Z.eqb_eq in E2; auto.
  - apply view_cost_floor. apply (dleb_not_nan _ _ E5).
Qed.

(** The ski-rental rule: every candidate of a pass comes from a used slot for a
    predicate or join column of a user attribute, was executed at least
    [autoindex_min_exec_freq] times, and has paid at least the estimated cost of
    the index, which is never below 100; conversely every slot for which this
    holds is a candidate.  This is so for every logarithm function and cost
    parameter, NaN results included. *)
Theorem candidates_correct log spc coc guc h rows c :
  c ∈ chosen log spc coc guc h rows ↔
  ∃ i, i ∈ all_slots ∧ is_used h i = true ∧ key (entry_at h i) = cand_key c ∧
    cumulative_rent (entry_at h i) = cand_rent c ∧ exec_count (entry_at h i) = cand_exec_count c ∧
    cand_usage c ∈ [USAGE_PREDICATE; USAGE_JOIN] ∧ 0 < cand_attnum c ∧
    autoindex_min_exec_freq guc ≤ cand_exec_count c ∧
    cand_buy c = view_cost log spc coc (cand_relid c) rows ∧
    dleb (cand_buy c) (cand_rent c) = true ∧ dleb d100 (cand_buy c) = true.
Proof.
  unfold chosen. rewrite sort_candidates_perm.
  2: { apply list.Forall_forall. intros c' (i & _ & Hi)%list_elem_of_omap.
       apply selected_spec in Hi as (_ & _ & _ & _ & _ & _ & _ & _ & Hr & _). apply (dleb_not_nan _ _ Hr). }
  rewrite list_elem_of_omap. split; intros (i & Hi & H); exists i; (split; [done|]);
    [by apply selected_spec|].
  destruct H as (Hu & Hk & Hr & He & Hus & Ha & Hf & Hb & Hd & _). unfold selected.
  rewrite Hu, Hk, Hr, He. unfold cand_key; cbn [relid attnum usage_type]. rewrite <- Hb.
  rewrite (proj2 (Z.ltb_lt _ _) Ha), (proj2 (Z.leb_le _ _) Hf). unfold dgeb, dleb in *. rewrite Hd.
  rewrite !elem_of_cons, elem_of_nil in Hus. destruct c. simpl in *.
  by destruct Hus as [->|[->|[]]].
Qed.

(** C38.  A candidate whose column has no catalog entry any more (a dropped table or
    column) raises an error instead of being skipped: the pass ends there, no
    statistics are dropped, and none of the candidates after it is looked at. *)
Theorem missing_column_aborts quote_all loc kws parse_other plan_utility guc snap w c cs :
  in_pass snap w →
  view_count (db (sess w)) (cand_relid c) (view w snap) < autoindex_max_indexes_per_table guc →
  view_exists (cand_relid c) (cand_attnum c) (view w snap) = false →
  (∀ name, pg_attribute (cand_relid c) name (cand_attnum c) ∉ syscache_rows (sess w)) →
  ∃ w' e, mfor (c :: cs) (create_candidate quote_all loc kws parse_other plan_utility guc) w =
      (w', Err e) ∧ hash w' = hash w ∧ db (sess w') = db (sess w).
Proof.
  intros Hp Hn He Hno. cbn [mfor].
  destruct (count_spec loc kws parse_other plan_utility snap w (cand_relid c) Hp) as (w1 & E1 & R1).
  destruct (exists_spec loc kws parse_other plan_utility snap w1 (cand_relid c) (cand_attnum c)
    (ro_in_pass _ _ _ R1 Hp)) as (w2 & E2 & R2).
  rewrite (ro_view _ _ _ R1), He in E2.
  assert (R : read_only_change w w2) by (by eapply ro_trans).
  assert (E : ∃ e, create_candidate quote_all loc kws parse_other plan_utility guc c w = (w2, Err e)).
  { unfold create_candidate. rewrite (bind_ok _ _ _ _ _ E1).
    destruct (Z.leb_spec (autoindex_max_indexes_per_table guc)
      (view_count (db (sess w)) (cand_relid c) (view w snap))); [lia|].
    rewrite (bind_ok _ _ _ _ _ E2). unfold create_index_for_candidate.
    destruct (get_rel_name_pure (cand_relid c) w2) as [o E3].
    destruct (get_attname_missing w2 (cand_relid c) (cand_attnum c)) as [e E4].
    { unfold syscache_rows. by rewrite (ro_db _ _ R), (ro_cid _ _ R). }
    exists e. apply bind_err. rewrite (bind_ok _ _ _ _ _ E3). by apply bind_err. }
  destruct E as [e E]. exists w2, e. rewrite (bind_err _ _ _ _ _ E).
  split_and!; [done|apply R|apply R].
Qed.

Lemma missing_column_aborts_witness :
  let c := mkCandidate 16400 9 USAGE_PREDICATE 1000 (d_of_Z 50000) d100 in
  ∃ w' e, mfor [c] (create_candidate false c_locale sql_keywords (λ _, Err ErrUB) small_utility
    (small_guc 5)) small_connected = (w', Err e) ∧ hash w' = hash small_connected ∧
    db (sess w') = db (sess small_connected).
Proof.
  intros c. apply (missing_column_aborts false c_locale sql_keywords (λ _, Err ErrUB) small_utility
    (small_guc 5) (GetSnapshotData (small_catalog []) 0)).
  - split; [by eexists| |done]. split; [apply small_catalog_ok|done|by eexists|done|done].
  - by vm_compute.
  - by vm_compute.
  - intros name. change (syscache_rows _) with (snd <$> heap (small_catalog [])). cbn.
    rewrite !elem_of_cons, elem_of_nil. intros H. repeat (destruct H as [H|H]; [done|]). done.
Defined.

