(* ===== verification/Lifecycle.v ===== *)
(** * The lifecycle manager

    [autoindex_run_lifecycle] of [index_lifecycle.c]: one query for the automatic
    indexes without scans, and a loop over [SPI_processed] and [SPI_tuptable]
    which drops them.  Both are variables of SPI, and the loop's own [DROP INDEX]
    goes through SPI, too. *)
From Stdlib Require Import ZArith Lia.
From stdpp Require Import base tactics list strings numbers.
From S2P Require Import Prelude AutoIndexTypes LikeMatch Keywords Ident CLib Visibility Session Catalog.
From S2P Require Import Sql Fixtures SpiCatalog.

Definition FirstNormalObjectId : Z := 16384.

Section lifecycle.
  Context (quote_all_identifiers : bool) (loc : ident_locale) (kws : ScanKeywordList).
  Context (parse_other : list Z → result (list command)).
  Context (plan_utility : command → catalog → result (list action * QueryCompletion)).

  Abbreviation run_spi := (spi_execute loc kws parse_other plan_utility).

(** The body of the loop for the row [r] of [SPI_tuptable]. *)
Definition lifecycle_row (r : row) : M (session catalog) unit :=
  match SPI_getvalue r 1, SPI_getvalue r 2 with
  | Some idxname, Some nspname =>
      match SPI_getbinval_oid r 3 with
      | Some indrelid =>
          if indrelid <? FirstNormalObjectId then mret tt
          else run_spi (SqlCommand (drop_text quote_all_identifiers kws nspname idxname)) false 0 ;;
               mret tt
      | None =>
          run_spi (SqlCommand (drop_text quote_all_identifiers kws nspname idxname)) false 0 ;;
          mret tt
      end
  | _, _ => mret tt
  end.

(** [for (i = 0; i < SPI_processed; i++)]; [None] when the fuel ran out. *)
Fixpoint lifecycle_loop (fuel : nat) (i : Z) : M (session catalog) (option unit) :=
  match fuel with
  | O => mret None
  | S fuel' =>
      s ← get;
      if i <? SPI_processed s then
        match SPI_tuptable s with
        | Some rows =>
            match rows !! Z.to_nat i with
            | Some r => lifecycle_row r ;; lifecycle_loop fuel' (i + 1)
            | None => fail ErrUB
            end
        | None => fail ErrUB
        end
      else mret (Some tt)
  end.

Definition autoindex_run_lifecycle (fuel : nat) : M (session catalog) (option unit) :=
  ret ← SPI_connect;
  if negb (ret =? SPI_OK_CONNECT) then mret (Some tt)
  else
    ret ← run_spi (SqlSelect Q_unused_auto) true 0;
    if negb (ret =? SPI_OK_SELECT) then SPI_finish ;; mret (Some tt)
    else
      r ← lifecycle_loop fuel 0;
      SPI_finish ;;
      mret r.

End lifecycle.

(** ** Specification *)

(** The schema and name of the index the row is dropped for, if it is: both are
    there, and the table is not a system table. *)
Definition droppable (r : row) : option (list Z * list Z) :=
  match SPI_getvalue r 1, SPI_getvalue r 2 with
  | Some idx, Some nsp =>
      if default FirstNormalObjectId (SPI_getbinval_oid r 3) <? FirstNormalObjectId then None
      else Some (nsp, idx)
  | _, _ => None
  end.

Definition first_drop (rows : list row) : option (list Z * list Z) :=
  list.head (omap (M:=list) droppable rows).

(** Names of the catalogs: not empty, and of less than [NAMEDATALEN] bytes. *)
Definition name_ok (n : list Z) : Prop := n ≠ [] ∧ (length n < NAMEDATALEN)%nat.

Definition row_names_ok (r : row) : Prop :=
  ∀ k n, SPI_getvalue r k = Some n → (k = 1 ∨ k = 2)%nat → name_ok n.

(** A session with the automatic indexes [names] on the first column of [orders]. *)
Definition indexed_session (names : list string) : session catalog :=
  small_session (small_catalog
    (mjoin (imap (λ i n, index_rows (17000 + Z.of_nat i) (bytes n) (bytes "a")) names))).

Definition small_lifecycle : session catalog → session catalog * result (option unit) :=
  autoindex_run_lifecycle false c_locale sql_keywords (λ _, Err ErrUB) small_utility 10.

(** The indexes left, as the next transaction sees them. *)
Definition remaining (s : session catalog) : list (list Z) :=
  (λ '(_, name, _, _), name) <$> index_join (latest_rows (db s)).

(** ** Lemmas *)

Section loop.
  Context (quote_all_identifiers : bool) (loc : ident_locale) (kws : ScanKeywordList).
  Context (parse_other : list Z → result (list command)).
  Context (plan_utility : command → catalog → result (list action * QueryCompletion)).

  Abbreviation run_spi := (spi_execute loc kws parse_other plan_utility).
  Abbreviation drop_cmd nsp idx := (SqlCommand (drop_text quote_all_identifiers kws nsp idx)).

Lemma lifecycle_row_spec r :
  lifecycle_row quote_all_identifiers loc kws parse_other plan_utility r =
    match droppable r with
    | Some (nsp, idx) => run_spi (drop_cmd nsp idx) false 0 ;; mret tt
    | None => mret tt
    end.
Proof.
  unfold lifecycle_row, droppable. destruct (SPI_getvalue r 1), (SPI_getvalue r 2); try done.
  by destruct (SPI_getbinval_oid r 3) as [o|]; [simpl; destruct (o <? _)|].
Qed.

Lemma droppable_names r nsp idx : row_names_ok r → droppable r = Some (nsp, idx) →
  name_ok nsp ∧ name_ok idx.
Proof.
  intros H. unfold droppable. destruct (SPI_getvalue r 1) eqn:E1, (SPI_getvalue r 2) eqn:E2; try done.
  case_match; [done|]. intros [= <- <-]. split; [eapply (H 2%nat)|eapply (H 1%nat)]; eauto.
Qed.

Context (Hkws : sql_keyword_list kws).

(** The loop stops after its first [DROP INDEX]. *)
Lemma lifecycle_loop_spec rows fuel : ∀ i s, Forall row_names_ok rows →
  SPI_processed s = Z.of_nat (length rows) → SPI_tuptable s = Some rows → SPI_stack s ≠ [] →
  (i ≤ length rows)%nat → (length rows < fuel + i)%nat →
  lifecycle_loop quote_all_identifiers loc kws parse_other plan_utility fuel (Z.of_nat i) s =
    match first_drop (drop i rows) with
    | None => (s, Ok (Some tt))
    | Some (nsp, idx) =>
        match run_spi (drop_cmd nsp idx) false 0 s with
        | (s2, Ok _) => (s2, Ok (Some tt))
        | (s2, Err e) => (s2, Err e)
        end
    end.
Proof.
  induction fuel as [|fuel IH]; intros i s Hok Hp Ht Hs Hi Hf; [lia|].
  cbn [lifecycle_loop]. rewrite (bind_ok get _ s s s) by done. rewrite Hp.
  destruct (Z.ltb_spec (Z.of_nat i) (Z.of_nat (length rows))) as [Hlt|Hge];
    [|by rewrite drop_ge by lia].
  destruct (lookup_lt_is_Some_2 rows i) as [r Hr]; [lia|]. rewrite Ht, Nat2Z.id, Hr.
  rewrite (drop_S _ r) by done. unfold first_drop. csimpl. rewrite lifecycle_row_spec.
  destruct (droppable r) as [[nsp idx]|] eqn:Hd.
  - destruct (droppable_names r nsp idx) as [[Hn1 Hn2] [Hx1 Hx2]]; [|done|].
    { by apply (proj1 (Forall_lookup _ _) Hok i). }
    cbn [list.head]. destruct (run_spi (drop_cmd nsp idx) false 0 s) as [s2 [z|e]] eqn:E.
    + destruct (spi_command_result loc kws parse_other plan_utility _ _ s s2 z
        (drop_text_raw loc kws parse_other quote_all_identifiers nsp idx Hkws Hn1 Hx1 Hn2 Hx2) eq_refl Hs E)
        as (_ & Hp2 & Ht2).
      rewrite (bind_ok _ _ s s2 tt) by (by rewrite (bind_ok _ _ _ _ _ E)).
      destruct fuel; [lia|]. cbn [lifecycle_loop]. rewrite (bind_ok get _ s2 s2 s2) by done.
      rewrite Hp2. destruct (Z.ltb_spec (Z.of_nat i + 1) 0); [lia|done].
    + by rewrite (bind_err _ _ s s2 e) by (by rewrite (bind_err _ _ _ _ _ E)).
  - rewrite (bind_ok _ _ s s tt) by done. replace (Z.of_nat i + 1) with (Z.of_nat (S i)) by lia.
    by apply IH; try lia.
Qed.

End loop.

(** The session the loop starts in. *)
Lemma query_state loc kws parse_other plan_utility snap s : pass_start snap s →
  let unused := sel_unused_auto (db s) (visible (db s) snap) in
  let s1 := (SPI_connect s).1 in
  let conn := mkConnection (Z.of_nat (length unused)) None (SPI_processed s) (SPI_tuptable s)
                (SPI_result s) in
  spi_execute loc kws parse_other plan_utility (SqlSelect Q_unused_auto) true 0 s1 =
    (set_globals (Z.of_nat (length unused)) (Some unused) 0 (set_stack [conn] s1), Ok SPI_OK_SELECT).
Proof.
  intros [[rest Ha] _ _ _ _ Hst] unused s1 conn. unfold spi_execute.
  rewrite (SPI_execute_select _ _ _ _ _ _ _ (RawSelect Q_unused_auto) Q_unused_auto 0 s1 snap rest
    (mkConnection 0 None (SPI_processed s) (SPI_tuptable s) (SPI_result s)) [] unused); try done.
  simpl. by rewrite Hst.
Qed.

Lemma restore (s : session catalog) p t stk : SPI_stack s = [] →
  set_globals (SPI_processed s) (SPI_tuptable s) (SPI_result s)
    (set_stack [] (set_globals p t 0 (set_stack stk (SPI_connect s).1))) = s.
Proof. intros H. destruct s. simpl in H. by subst. Qed.

Lemma lifecycle_spec quote_all loc kws parse_other plan_utility snap s fuel :
  sql_keyword_list kws → pass_start snap s →
  let unused := sel_unused_auto (db s) (visible (db s) snap) in
  let run := autoindex_run_lifecycle quote_all loc kws parse_other plan_utility fuel s in
  Forall row_names_ok unused → (length unused < fuel)%nat →
  match first_drop unused with
  | None => run = (s, Ok (Some tt))
  | Some (nsp, idx) =>
      ∃ s1, db s1 = db s ∧ ActiveSnapshot s1 = ActiveSnapshot s ∧
      match spi_execute loc kws parse_other plan_utility
              (SqlCommand (drop_text quote_all kws nsp idx)) false 0 s1 with
      | (s2, Ok _) => ∃ s3, run = (s3, Ok (Some tt)) ∧ db s3 = db s2 ∧
          session_effect s s3 ∧ session_restored s s3
      | (s2, Err e) => run = (s2, Err e) ∧ session_effect s s2
      end
  end.
Proof.
  intros Hk Hs unused run Hok Hf. subst run. unfold autoindex_run_lifecycle.
  rewrite (bind_ok SPI_connect _ s (SPI_connect s).1 SPI_OK_CONNECT), Z.eqb_refl by done. cbn [negb].
  pose proof (query_state loc kws parse_other plan_utility snap s Hs) as Hq. cbn zeta in Hq.
  rewrite (bind_ok _ _ _ _ _ Hq), Z.eqb_refl. cbn [negb]. fold unused. clear Hq.
  set (conn := mkConnection _ _ _ _ _). set (s1 := set_globals _ _ _ _).
  assert (Hl := lifecycle_loop_spec quote_all loc kws parse_other plan_utility Hk unused fuel 0 s1
    Hok eq_refl eq_refl ltac:(done) ltac:(lia) ltac:(lia)). rewrite drop_0 in Hl.
  destruct (first_drop unused) as [[nsp idx]|].
  - exists s1. split; [done|]. split; [done|].
    assert (Hr : spi_ready s1).
    { destruct Hs as [[rest Ha] P2 P3 P4 P5 P6]. split; simpl; try done. by rewrite Ha. }
    pose proof (spi_execute_stable loc kws parse_other plan_utility
      (SqlCommand (drop_text quote_all kws nsp idx)) false 0 s1 Hr) as Hst.
    assert (He : ∀ s', spi_inv s1 s' → session_effect s s') by (by intros s' []).
    destruct (spi_execute _ _ _ _ _ _ _ s1) as [s2 [z|e]]; rewrite
      ?(bind_ok _ _ _ _ _ Hl), ?(bind_err _ _ _ _ _ Hl); [|split; [done|by apply He]].
    destruct Hst as [Hi Ha]. pose proof (si_outer _ _ Hi) as Ho.
    destruct (SPI_stack s2) as [|c2 [|c3 l]] eqn:Es; [done| |done].
    injection Ho as Ho1 Ho2 Ho3. unfold SPI_finish. msimpl. rewrite Es.
    eexists. split; [done|]. split; [done|]. split; [exact (He s2 Hi)|]. by split_and!.
  - rewrite (bind_ok _ _ _ _ _ Hl). unfold SPI_finish. msimpl.
    f_equal. apply restore, (ps_spi _ _ Hs).
Qed.

(** ** Properties *)


Lemma indexed_names_ok (rows : list row) :
  forallb (λ r, forallb (λ k, match SPI_getvalue r k with
    | Some n => negb (bool_decide (n = [])) && (length n <? NAMEDATALEN)%nat
    | None => true end) [1%nat; 2%nat]) rows = true → Forall row_names_ok rows.
Proof.
  rewrite forallb_Forall. intros H. eapply list.Forall_impl; [exact H|].
  intros r Hr%forallb_Forall k n Hn Hk. rewrite !list.Forall_cons in Hr.
  destruct Hr as (H1 & H2 & _).
  destruct Hk as [->| ->]; [rewrite Hn in H1; rename H1 into Hx|rewrite Hn in H2; rename H2 into Hx];
    apply andb_prop in Hx as [Hx1 Hx2]; (split; [|by apply Nat.ltb_lt]);
    by apply negb_true_iff, bool_decide_eq_false in Hx1.
Qed.


(** Two unused indexes: a pass reports success and leaves the second. *)
Theorem lifecycle_leaves_unused :
  let '(s', r) := small_lifecycle (indexed_session ["autoindex_orders_a"; "autoindex_orders_b"]) in
  r = Ok (Some tt) ∧ remaining s' = [bytes "autoindex_orders_b"].
Proof. by vm_compute. Qed.

(** The underscore of the naming convention is a wildcard of [LIKE]: an index
    of the user that merely starts with [autoindex] and one more character is
    taken for an automatic one and dropped. *)
Theorem lifecycle_drops_user_index :
  let '(s', r) := small_lifecycle (indexed_session ["autoindexing_jobs_by_date"]) in
  r = Ok (Some tt) ∧ remaining s' = [].
Proof. by vm_compute. Qed.
