(* ===== verification/BgWorker.v ===== *)
(** * Registration of the worker

    [AutoIndexRegister] and [autoindex_register_gucs] of [autoindex.c], and the
    parts of [bgworker.c] they go through: the sanity check, the registration of
    a static worker in the postmaster and the lookup of its entry point. *)
From Stdlib Require Import ZArith Lia.
From stdpp Require Import base tactics list strings numbers.
From S2P Require Import Prelude Float64 AutoIndexTypes AdvisorHash Visibility.

(** ** Background workers *)

Definition BGWORKER_SHMEM_ACCESS : Z := 1.

Definition BGWORKER_BACKEND_DATABASE_CONNECTION : Z := 2.

Definition BGWORKER_INTERRUPTIBLE : Z := 4.

Definition BGWORKER_CLASS_PARALLEL : Z := 16.

Inductive BgWorkerStartTime : Type :=
| BgWorkerStart_PostmasterStart
| BgWorkerStart_ConsistentState
| BgWorkerStart_RecoveryFinished.

#[global] Instance BgWorkerStartTime_eq_dec : EqDecision BgWorkerStartTime.
Proof. solve_decision. Defined.

Definition BGW_NEVER_RESTART : Z := -1.

Definition BGW_MAXLEN : nat := 96.

Definition MAXPGPATH : nat := 1024.

Record BackgroundWorker : Type := mkBackgroundWorker {
  bgw_name : string;
  bgw_type : string;
  bgw_flags : Z;
  bgw_start_time : BgWorkerStartTime;
  bgw_restart_time : Z;
  bgw_library_name : string;
  bgw_function_name : string;
  bgw_main_arg : Z;
  bgw_notify_pid : Z
}.

(** [snprintf(buf, n, ...)] of a fixed text: at most [n - 1] characters. *)
Definition snprintf (n : nat) (s : string) : string := String.substring 0 (n - 1) s.

(** [None] is [false]; otherwise the worker with [bgw_type] filled in. *)
Definition SanityCheckBackgroundWorker (worker : BackgroundWorker) : option BackgroundWorker :=
  let flag f := hasb (bgw_flags worker) f in
  if negb (flag BGWORKER_SHMEM_ACCESS) then None
  else if flag BGWORKER_BACKEND_DATABASE_CONNECTION &&
          bool_decide (bgw_start_time worker = BgWorkerStart_PostmasterStart) then None
  else if flag BGWORKER_INTERRUPTIBLE && negb (flag BGWORKER_BACKEND_DATABASE_CONNECTION) then None
  else if ((bgw_restart_time worker <? 0) && negb (bgw_restart_time worker =? BGW_NEVER_RESTART)) ||
          (USECS_PER_DAY / 1000 <? bgw_restart_time worker) then None
  else if negb (bgw_restart_time worker =? BGW_NEVER_RESTART) && flag BGWORKER_CLASS_PARALLEL then None
  else if bool_decide (bgw_type worker = ""%string)
  then Some (mkBackgroundWorker (bgw_name worker) (bgw_name worker) (bgw_flags worker)
               (bgw_start_time worker) (bgw_restart_time worker) (bgw_library_name worker)
               (bgw_function_name worker) (bgw_main_arg worker) (bgw_notify_pid worker))
  else Some worker.

(** An element of [BackgroundWorkerList]. *)
Record RegisteredBgWorker : Type := mkRegistered {
  rw_worker : BackgroundWorker;
  rw_pid : Z;
  rw_crashed_at : Z;
  rw_terminate : bool
}.

(** The variables of the postmaster a registration reads and writes. *)
Record postmaster : Type := mkPostmaster {
  IsUnderPostmaster : bool;
  IsPostmasterEnvironment : bool;
  IsBinaryUpgrade : bool;
  shmem_initialized : bool;                  (* BackgroundWorkerData != NULL *)
  numworkers : Z;
  max_worker_processes : Z;
  memory_left : bool;                        (* the allocation succeeds *)
  BackgroundWorkerList : list RegisteredBgWorker
}.

Definition set_numworkers (n : Z) (p : postmaster) : postmaster :=
  mkPostmaster (IsUnderPostmaster p) (IsPostmasterEnvironment p) (IsBinaryUpgrade p)
    (shmem_initialized p) n (max_worker_processes p) (memory_left p) (BackgroundWorkerList p).

Definition push_worker (rw : RegisteredBgWorker) (p : postmaster) : postmaster :=
  mkPostmaster (IsUnderPostmaster p) (IsPostmasterEnvironment p) (IsBinaryUpgrade p)
    (shmem_initialized p) (numworkers p) (max_worker_processes p) (memory_left p)
    (rw :: BackgroundWorkerList p).

(** The messages of the early returns are only logged. *)
Definition RegisterBackgroundWorker (worker : BackgroundWorker) : M postmaster unit :=
  p ← get;
  if IsUnderPostmaster p || negb (IsPostmasterEnvironment p) then mret tt
  else if shmem_initialized p then
    fail (ErrReport "cannot register background worker after shmem init")
  else
    match SanityCheckBackgroundWorker worker with
    | None => mret tt
    | Some worker =>
        if negb (bgw_notify_pid worker =? 0) then mret tt
        else
          modify (set_numworkers (numworkers p + 1)) ;;
          if max_worker_processes p <? numworkers p + 1 then mret tt
          else if negb (memory_left p) then mret tt
          else modify (push_worker (mkRegistered worker 0 0 false))
    end.

Inductive bgworker_main : Type :=
| ApplyLauncherMain
| ApplyWorkerMain
| ParallelApplyWorkerMain
| ParallelWorkerMain
| RepackWorkerMain
| SequenceSyncWorkerMain
| TableSyncWorkerMain
| DataChecksumsWorkerLauncherMain
| DataChecksumsWorkerMain
| AutoIndexMain
| external_function (library name : string).

Definition InternalBGWorkers : list (string * bgworker_main) :=
  [("ApplyLauncherMain", ApplyLauncherMain);
   ("ApplyWorkerMain", ApplyWorkerMain);
   ("ParallelApplyWorkerMain", ParallelApplyWorkerMain);
   ("ParallelWorkerMain", ParallelWorkerMain);
   ("RepackWorkerMain", RepackWorkerMain);
   ("SequenceSyncWorkerMain", SequenceSyncWorkerMain);
   ("TableSyncWorkerMain", TableSyncWorkerMain);
   ("DataChecksumsWorkerLauncherMain", DataChecksumsWorkerLauncherMain);
   ("DataChecksumsWorkerMain", DataChecksumsWorkerMain);
   ("AutoIndexMain", AutoIndexMain)]%string.

(** [None] is the error for an unknown internal function. *)
Definition LookupBackgroundWorkerFunction (libraryname funcname : string) : option bgworker_main :=
  if bool_decide (libraryname = "postgres"%string) then
    match list_find (λ f, f.1 = funcname) InternalBGWorkers with
    | Some (_, (_, fn_addr)) => Some fn_addr
    | None => None
    end
  else Some (external_function libraryname funcname).

(** ** Configuration variables *)

Inductive guc_var : Type :=
| guc_bool (name : string) (boot : bool)
| guc_int (name : string) (boot min max : Z)
| guc_real (name : string) (boot min max : double).

Definition INT_MAX : Z := 2 ^ 31 - 1.

Definition autoindex_register_gucs : list guc_var :=
  [guc_bool "autoindex.enabled" true;
   guc_int "autoindex.analysis_interval" 60 1 3600;
   guc_int "autoindex.advisor_interval" 300 10 86400;
   guc_int "autoindex.lifecycle_interval" 6 1 168;
   guc_int "autoindex.min_exec_freq" 100 1 INT_MAX;
   guc_real "autoindex.min_score" (d_of_Z 1) (d_of_Z 0) (d_of_Z (10 ^ 12));
   guc_int "autoindex.max_indexes_per_table" 5 1 100;
   guc_int "autoindex.drop_after_idle_days" 7 1 365;
   guc_int "autoindex.workload_window_days" 3 1 30]%string.

Definition int_range (name : string) (v : Z) : Prop :=
  Forall (λ g, match g with
    | guc_int n _ min max => n = name → min ≤ v ≤ max
    | _ => True
    end) autoindex_register_gucs.

(** The settings the variables can have. *)
Record gucs_in_range (g : gucs) : Prop := mkInRange {
  range_analysis : int_range "autoindex.analysis_interval" (autoindex_analysis_interval g);
  range_advisor : int_range "autoindex.advisor_interval" (autoindex_advisor_interval g);
  range_lifecycle : int_range "autoindex.lifecycle_interval" (autoindex_lifecycle_interval g);
  range_min_exec : int_range "autoindex.min_exec_freq" (autoindex_min_exec_freq g);
  range_max_indexes :
    int_range "autoindex.max_indexes_per_table" (autoindex_max_indexes_per_table g);
  range_idle : int_range "autoindex.drop_after_idle_days" (autoindex_drop_after_idle_days g);
  range_window : int_range "autoindex.workload_window_days" (autoindex_workload_window_days g)
}.

Definition autoindex_worker : BackgroundWorker :=
  mkBackgroundWorker (snprintf BGW_MAXLEN "autoindex worker") (snprintf BGW_MAXLEN "autoindex worker")
    (Z.lor BGWORKER_SHMEM_ACCESS BGWORKER_BACKEND_DATABASE_CONNECTION)
    BgWorkerStart_RecoveryFinished 10 (snprintf MAXPGPATH "postgres")
    (snprintf BGW_MAXLEN "AutoIndexMain") 0 0.

Definition AutoIndexRegister : M postmaster (list guc_var) :=
  p ← get;
  if IsBinaryUpgrade p then mret []
  else RegisterBackgroundWorker autoindex_worker ;; mret autoindex_register_gucs.

(** A postmaster that starts up, with the launcher registered. *)
Definition starting : postmaster := mkPostmaster false true false false 1 8 true [].

(** ** Properties *)

(** In a postmaster that has not set up shared memory and has a worker slot and
    memory left, [AutoIndexRegister] puts exactly one worker at the front of the
    list: it passes the sanity check as it is, is restarted ten seconds after a
    crash, and its entry point resolves to [AutoIndexMain]. *)
Theorem register_autoindex p :
  IsUnderPostmaster p = false → IsPostmasterEnvironment p = true → IsBinaryUpgrade p = false →
  shmem_initialized p = false → numworkers p < max_worker_processes p → memory_left p = true →
  ∃ p' rw, AutoIndexRegister p = (p', Ok autoindex_register_gucs) ∧
    BackgroundWorkerList p' = rw :: BackgroundWorkerList p ∧ numworkers p' = numworkers p + 1 ∧
    rw_worker rw = autoindex_worker ∧ bgw_restart_time (rw_worker rw) = 10 ∧
    SanityCheckBackgroundWorker (rw_worker rw) = Some (rw_worker rw) ∧
    LookupBackgroundWorkerFunction (bgw_library_name (rw_worker rw))
      (bgw_function_name (rw_worker rw)) = Some AutoIndexMain.
Proof.
  intros H1 H2 H3 H4 H5 H6. unfold AutoIndexRegister, RegisterBackgroundWorker. msimpl.
  rewrite H3. msimpl. rewrite H1, H2. cbn [orb negb]. rewrite H4.
  change (SanityCheckBackgroundWorker autoindex_worker) with (Some autoindex_worker). msimpl.
  destruct (Z.ltb_spec (max_worker_processes p) (numworkers p + 1)); [lia|]. rewrite H6. msimpl.
  do 2 eexists. split; [done|]. by split_and!.
Qed.

Lemma register_autoindex_witness :
  ∃ p' rw, AutoIndexRegister starting = (p', Ok autoindex_register_gucs) ∧
    BackgroundWorkerList p' = [rw].
Proof.
  destruct (register_autoindex starting) as (p' & rw & H & Hl & _);
    [reflexivity|reflexivity|reflexivity|reflexivity|by vm_compute|reflexivity|].
  exists p', rw. split; [exact H|exact Hl].
Defined.
