(* ===== verification/Worker.v ===== *)
(** * The background worker

    [AutoIndexMain] of [autoindex.c]: the transaction around a pass with its error
    recovery, the timers, the configuration reload and the shutdown flag, with the
    simple transactions of [xact.c] and the signal handlers they rely on.

    The environment enters through the inputs of a round: the signals that arrive
    while the worker waits, the settings a reload reads, the clock, and the
    catalogs other sessions have left when a transaction starts. *)
From Stdlib Require Import ZArith Lia.
From stdpp Require Import base tactics list strings numbers.
From S2P Require Import Prelude Float64 AutoIndexTypes RingBuffer AdvisorHash.
From S2P Require Import LikeMatch Keywords Ident CLib Visibility Session Catalog Sql Fixtures SpiCatalog.
From S2P Require Import Advisor Lifecycle BgWorker.

(** ** Transactions *)

(** [StartTransaction], from the block state TBLOCK_DEFAULT; in TBLOCK_STARTED the
    call is an error.  [begin] gives the catalogs as they are now, with the id this
    transaction writes under. *)
Definition StartTransactionCommand (begin : catalog → catalog) : M worker unit := λ w,
  let s := sess w in
  if in_transaction s
  then (w, Err (ErrReport "StartTransactionCommand: unexpected state STARTED"))
  else (set_sess (set_xact true (set_command 0 false (set_db (begin (db s)) s))) w, Ok tt).

(** The warnings a commit gives for what a transaction has left behind. *)
Definition commit_warnings (s : session catalog) : list string :=
  (if bool_decide (SPI_stack s = []) then [] else ["transaction left non-empty SPI stack"%string]) ++
  (if bool_decide (ActiveSnapshot s = []) then [] else ["snapshot still active"%string]).

(** [CommitTransaction]: the transaction is entered as committed, then the clean-up
    of SPI and of the snapshots. *)
Definition commit_db (c : catalog) : catalog :=
  mkCatalog (heap c) (cur_xid c) (cur_xid c :: committed c) (combos c) (idx_scan c) (enc c).

Definition end_transaction (s : session catalog) : session catalog :=
  set_xact false (AtEOXact_Snapshot (AtEOXact_SPI s)).

Definition CommitTransactionCommand (w : worker) : worker * list string :=
  (set_sess (end_transaction (set_db (commit_db (db (sess w))) (sess w))) w,
   commit_warnings (sess w)).

(** [AbortTransaction] and [CleanupTransaction], if there is a transaction. *)
Definition AbortCurrentTransaction (w : worker) : worker :=
  if in_transaction (sess w) then set_sess (end_transaction (sess w)) w else w.

(** ** A pass in its transaction *)

Definition pop_if_set (w : worker) : worker :=
  match ActiveSnapshot (sess w) with
  | [] => w
  | _ :: rest => set_sess (set_active rest (sess w)) w
  end.

(** The statements before [PG_TRY]. *)
Definition enter_pass (begin : catalog → catalog) : M worker unit :=
  StartTransactionCommand begin ;;
  snap ← in_sess (GetTransactionSnapshot GetSnapshotData);
  in_sess (PushActiveSnapshot snap).

(** The statements from [StartTransactionCommand] to [CommitTransactionCommand].
    Only reported errors are caught. *)
Definition run_pass (begin : catalog → catalog) (pass : M worker unit) : M worker (list string) :=
  enter_pass begin ;;
  (λ w, match pass w with
        | (w', Ok _) => (w', Ok tt)
        | (w', Err (ErrReport _)) => (AbortCurrentTransaction (pop_if_set w'), Ok tt)
        | (w', Err e) => (w', Err e)
        end) ;;
  modify pop_if_set ;;
  w ← get;
  if in_transaction (sess w) then
    let '(w', warnings) := CommitTransactionCommand w in
    put w' ;; mret warnings
  else mret [].

(** ** The main loop *)

(** [diff >= msec * 1000] on 64-bit timestamps; [msec] arrives as an [int]. *)
Definition TimestampDifferenceExceeds (start_time stop_time msec : Z) : bool :=
  i32 msec * 1000 <=? i64 (stop_time - start_time).

Inductive signal : Type :=
| SIGHUP
| SIGTERM.

Record main_state : Type := mkMain {
  wk : worker;
  last_advisor_run : Z;
  last_lifecycle_run : Z;
  config : gucs;
  ConfigReloadPending : bool;
  ShutdownRequestPending : bool;
  InterruptPending : bool;
  ProcDiePending : bool;
  warnings : list string
}.

(** The handlers installed at the start: [SignalHandlerForConfigReload] and [die]. *)
Definition handle_signal (m : main_state) (sig : signal) : main_state :=
  match sig with
  | SIGHUP => mkMain (wk m) (last_advisor_run m) (last_lifecycle_run m) (config m) true
                (ShutdownRequestPending m) (InterruptPending m) (ProcDiePending m) (warnings m)
  | SIGTERM => mkMain (wk m) (last_advisor_run m) (last_lifecycle_run m) (config m)
                 (ConfigReloadPending m) (ShutdownRequestPending m) true true (warnings m)
  end.

(** The inputs of one round. *)
Record tick : Type := mkTick {
  signals : list signal;
  new_config : gucs;
  now : Z;
  advisor_now : Z;                           (* the advisor reads the clock again *)
  begin_advisor : catalog → catalog;
  begin_lifecycle : catalog → catalog
}.

Definition ProcessConfigFile (t : tick) (m : main_state) : main_state :=
  if ConfigReloadPending m
  then mkMain (wk m) (last_advisor_run m) (last_lifecycle_run m) (new_config t) false
         (ShutdownRequestPending m) (InterruptPending m) (ProcDiePending m) (warnings m)
  else m.

Definition set_after_advisor (w : worker) (now : Z) (ws : list string) (m : main_state) : main_state :=
  mkMain w now (last_lifecycle_run m) (config m) (ConfigReloadPending m)
    (ShutdownRequestPending m) (InterruptPending m) (ProcDiePending m) (warnings m ++ ws).

Definition set_after_lifecycle (w : worker) (now : Z) (ws : list string) (m : main_state) : main_state :=
  mkMain w (last_advisor_run m) now (config m) (ConfigReloadPending m)
    (ShutdownRequestPending m) (InterruptPending m) (ProcDiePending m) (warnings m ++ ws).

(** A worker whose pass failed outside of the error recovery. *)
Definition set_wk (w : worker) (m : main_state) : main_state :=
  mkMain w (last_advisor_run m) (last_lifecycle_run m) (config m) (ConfigReloadPending m)
    (ShutdownRequestPending m) (InterruptPending m) (ProcDiePending m) (warnings m).

(** The ring is drained by the advisor. *)
Definition autoindex_drain_workload_buffer (m : main_state) : main_state := m.

Inductive outcome : Type :=
| Running
| Exited                                     (* proc_exit(0) *)
| Died (e : pg_error).

Section main.
  Context (log : double → double) (seq_page_cost cpu_operator_cost : double).
  Context (quote_all_identifiers : bool) (loc : ident_locale) (kws : ScanKeywordList).
  Context (parse_other : list Z → result (list command)).
  Context (plan_utility : command → catalog → result (list action * QueryCompletion)).

Definition advisor_pass (guc : gucs) (now : Z) : M worker unit :=
  autoindex_run_advisor log seq_page_cost cpu_operator_cost quote_all_identifiers loc kws
    parse_other plan_utility guc now.

(** The loop over the unused indexes gets one round more than there are. *)
Definition lifecycle_fuel (s : session catalog) : nat :=
  match ActiveSnapshot s with
  | [] => 0
  | snap :: _ => S (length (sel_unused_auto (db s) (visible (db s) snap)))
  end.

Definition lifecycle_pass : M worker unit :=
  w ← get;
  r ← in_sess (autoindex_run_lifecycle quote_all_identifiers loc kws parse_other plan_utility
                 (lifecycle_fuel (sess w)));
  match r with
  | Some _ => mret tt
  | None => fail ErrUB
  end.

Definition advisor_round (t : tick) (m : main_state) : main_state * result unit :=
  if TimestampDifferenceExceeds (last_advisor_run m) (now t)
       (autoindex_advisor_interval (config m) * 1000)
  then match run_pass (begin_advisor t) (advisor_pass (config m) (advisor_now t)) (wk m) with
       | (w', Ok ws) => (set_after_advisor w' (now t) ws m, Ok tt)
       | (w', Err e) => (set_wk w' m, Err e)
       end
  else (m, Ok tt).

Definition lifecycle_round (t : tick) (m : main_state) : main_state * result unit :=
  if TimestampDifferenceExceeds (last_lifecycle_run m) (now t)
       (autoindex_lifecycle_interval (config m) * 3600 * 1000)
  then match run_pass (begin_lifecycle t) lifecycle_pass (wk m) with
       | (w', Ok ws) => (set_after_lifecycle w' (now t) ws m, Ok tt)
       | (w', Err e) => (set_wk w' m, Err e)
       end
  else (m, Ok tt).

(** The body of the [while] loop. *)
Definition round (t : tick) (m : main_state) : main_state * result unit :=
  let m := foldl handle_signal m (signals t) in
  let m := ProcessConfigFile t m in
  if negb (autoindex_enabled (config m)) then (m, Ok tt)
  else
    let m := autoindex_drain_workload_buffer m in
    match advisor_round t m with
    | (m, Ok _) => lifecycle_round t m
    | (m, Err e) => (m, Err e)
    end.

Fixpoint main_loop (ts : list tick) (m : main_state) : main_state * outcome :=
  if ShutdownRequestPending m then (m, Exited)
  else match ts with
  | [] => (m, Running)
  | t :: ts' =>
      match round t m with
      | (m', Ok _) => main_loop ts' m'
      | (m', Err e) => (m', Died e)
      end
  end.

End main.

(** ** Specification *)

(** Between two passes. *)
Record idle (s : session catalog) : Prop := mkIdle {
  idle_xact : in_transaction s = false;
  idle_active : ActiveSnapshot s = [];
  idle_first : FirstSnapshotSet s = false;
  idle_spi : SPI_stack s = []
}.

(** What other sessions leave is well formed. *)
Definition begin_ok (begin : catalog → catalog) : Prop := ∀ c, catalog_ok (begin c).

(** The names of the catalogs that the lifecycle query can return. *)
Definition names_ok (c : catalog) : Prop :=
  ∀ snap, Forall row_names_ok (sel_unused_auto c (visible c snap)).

(** A worker after its start, with statistics for the columns [rents] of [orders]. *)
Definition small_main (enabled : bool) (rents : list (Z * Z)) : main_state :=
  let s := small_session (small_catalog []) in
  mkMain (mkWorker (small_hash (orders_stats rents)) None (end_transaction s)) 0 0
    (mkGucs enabled 60 300 6 100 (d_of_Z 1) 5 7 3) false false false false [].

Definition small_tick (sigs : list signal) (t : Z) : tick :=
  mkTick sigs default_gucs t 10 (λ _, small_catalog []) (λ _, small_catalog []).

(** ** Lemmas *)

Lemma start_pass begin w : idle (sess w) → begin_ok begin →
  let snap := GetSnapshotData (begin (db (sess w))) 0 in
  ∃ w1, enter_pass begin w = (w1, Ok tt) ∧
    pass_start snap (sess w1) ∧ ActiveSnapshot (sess w1) = [snap] ∧ in_transaction (sess w1) = true ∧
    db (sess w1) = begin (db (sess w)) ∧ hash w1 = hash w ∧ shmem w1 = shmem w.
Proof.
  intros [H1 H2 H3 H4] Hb snap. unfold enter_pass, StartTransactionCommand, in_sess, GetTransactionSnapshot. msimpl.
  rewrite H1. msimpl. rewrite H3. msimpl. eexists. split; [done|]. simpl. rewrite H2.
  split_and!; try done. split; simpl; [by eexists|apply Hb|done|done|by eexists|done].
Qed.

Lemma end_transaction_idle (s : session catalog) : idle (end_transaction s).
Proof.
  unfold end_transaction, AtEOXact_SPI. destruct (SPI_stack s) as [|c l] eqn:E.
  - by split.
  - destruct (list.last (c :: l)) as [c'|] eqn:El; [by split|]. by apply last_None in El.
Qed.

Lemma end_transaction_db (s : session catalog) : db (end_transaction s) = db s.
Proof. unfold end_transaction, AtEOXact_SPI. by destruct (list.last (SPI_stack s)). Qed.

(** What a pass in its transaction comes to. *)
Lemma run_pass_spec begin pass w w1 : enter_pass begin w = (w1, Ok tt) →
  length (ActiveSnapshot (sess w1)) = 1%nat → in_transaction (sess w1) = true →
  let '(w2, r) := pass w1 in
  session_effect (sess w1) (sess w2) → (r = Ok tt → session_restored (sess w1) (sess w2)) →
  match r with
  | Ok _ => ∃ w', run_pass begin pass w = (w', Ok []) ∧ idle (sess w') ∧
      db (sess w') = commit_db (db (sess w2)) ∧ hash w' = hash w2 ∧ shmem w' = shmem w2
  | Err (ErrReport _) => ∃ w', run_pass begin pass w = (w', Ok []) ∧ idle (sess w') ∧
      db (sess w') = db (sess w2) ∧ hash w' = hash w2 ∧ shmem w' = shmem w2
  | Err e => run_pass begin pass w = (w2, Err e)
  end.
Proof.
  intros Hs Hl Hx. destruct (pass w1) as [w2 r] eqn:Ep. intros (_ & _ & He) Hr.
  unfold run_pass. rewrite (bind_ok _ _ _ _ _ Hs). unfold mbind, M_bind. rewrite Ep.
  destruct r as [[]|[msg|msg|msg|]]; [| |done..].
  - destruct (Hr eq_refl) as (Ha & Hst & _). rewrite Hx in He.
    destruct (ActiveSnapshot (sess w1)) as [|sn [|]]; [done| |done].
    unfold modify, get, pop_if_set. rewrite Ha. cbn [sess set_sess in_transaction set_active].
    rewrite He. unfold CommitTransactionCommand, put, mret, M_ret. eexists. split; [|split_and!].
    + unfold commit_warnings. simpl. rewrite Hst. done.
    + apply end_transaction_idle.
    + cbn [sess set_sess]. rewrite end_transaction_db. by destruct (ActiveSnapshot (sess w2)).
    + done.
    + done.
  - assert (Hab : AbortCurrentTransaction (pop_if_set w2) =
      set_sess (end_transaction (sess (pop_if_set w2))) (pop_if_set w2)).
    { unfold AbortCurrentTransaction. replace (in_transaction (sess (pop_if_set w2))) with true; [done|].
      unfold pop_if_set. destruct (ActiveSnapshot (sess w2)); simpl; congruence. }
    rewrite Hab. set (w3 := set_sess _ _). unfold modify, get.
    assert (Hi : idle (sess w3)) by apply end_transaction_idle.
    assert (Hp : pop_if_set w3 = w3) by (unfold pop_if_set; by rewrite (idle_active _ Hi)).
    rewrite Hp, (idle_xact _ Hi). exists w3. split; [done|]. split; [done|].
    unfold w3. cbn [sess set_sess hash shmem]. rewrite end_transaction_db. unfold pop_if_set.
    by destruct (ActiveSnapshot (sess w2)).
Qed.

Section rounds.
  Context (log : double → double) (seq_page_cost cpu_operator_cost : double).
  Context (quote_all_identifiers : bool) (loc : ident_locale) (kws : ScanKeywordList).
  Context (parse_other : list Z → result (list command)).
  Context (plan_utility : command → catalog → result (list action * QueryCompletion)).

  Abbreviation advise :=
    (advisor_pass log seq_page_cost cpu_operator_cost quote_all_identifiers loc kws parse_other
       plan_utility).
  Abbreviation clean := (lifecycle_pass quote_all_identifiers loc kws parse_other plan_utility).

Lemma effect_refl (s : session catalog) : session_effect s s.
Proof. by split_and!. Qed.

Lemma advisor_effect guc t snap w : pass_start snap (sess w) →
  let '(w', r) := advise guc t w in
  session_effect (sess w) (sess w') ∧ (r = Ok tt → session_restored (sess w) (sess w')).
Proof.
  intros Hs.
  destruct (drain_ring_buffer (shmem w)
    (advisor_hash_evict_stale t (autoindex_workload_window_days guc) (hash w))) as [[shm h]|] eqn:Hd.
  - pose proof (run_advisor_spec log seq_page_cost cpu_operator_cost quote_all_identifiers loc kws
      parse_other plan_utility guc snap w t shm h Hs Hd) as H. cbn zeta in H. unfold advisor_pass.
    destruct (autoindex_run_advisor _ _ _ _ _ _ _ _ _ _ w) as [w' [[]|e]]; destruct H as (_ & H2 & H3);
      (split; [done|]); [|done]. intros _. apply H3.
  - unfold advisor_pass. rewrite run_advisor_unfold. cbn zeta. rewrite Hd.
    split; [apply effect_refl|done].
Qed.

Lemma lifecycle_effect snap w : sql_keyword_list kws → pass_start snap (sess w) →
  names_ok (db (sess w)) →
  let '(w', r) := clean w in
  session_effect (sess w) (sess w') ∧ (r = Ok tt → session_restored (sess w) (sess w')) ∧
  hash w' = hash w ∧ shmem w' = shmem w.
Proof.
  intros Hk Hs Hn. unfold lifecycle_pass, lifecycle_fuel.
  rewrite (bind_ok get _ w w w) by done. destruct (ps_active _ _ Hs) as [rest Ha]. rewrite Ha.
  pose proof (lifecycle_spec quote_all_identifiers loc kws parse_other plan_utility snap (sess w)
    (S (length (sel_unused_auto (db (sess w)) (visible (db (sess w)) snap)))) Hk Hs (Hn snap)
    ltac:(lia)) as H. cbn zeta in H. unfold mbind, M_bind, in_sess.
  destruct (first_drop _) as [[nsp idx]|].
  - destruct H as (s1 & _ & _ & H).
    destruct (spi_execute loc kws parse_other plan_utility _ false 0 s1) as [s2 [z|e]].
    + destruct H as (s3 & -> & _ & He & Hr). by split_and!.
    + destruct H as [-> He]. by split_and!.
  - rewrite H. split_and!; [apply effect_refl|intros _|done|done].
    split_and!; try done. apply (ps_spi _ _ Hs).
Qed.

Lemma signals_frame l m : wk (foldl handle_signal m l) = wk m ∧
  warnings (foldl handle_signal m l) = warnings m ∧
  ShutdownRequestPending (foldl handle_signal m l) = ShutdownRequestPending m.
Proof.
  revert m. induction l as [|sig l IH]; intros m; simpl; [done|].
  destruct (IH (handle_signal m sig)) as (-> & -> & ->). by destruct sig.
Qed.

Lemma reload_frame t m : wk (ProcessConfigFile t m) = wk m ∧
  warnings (ProcessConfigFile t m) = warnings m ∧
  ShutdownRequestPending (ProcessConfigFile t m) = ShutdownRequestPending m.
Proof. unfold ProcessConfigFile. by destruct (ConfigReloadPending m). Qed.

(** The end of a pass, for both kinds. *)
Lemma pass_idle begin pass w : idle (sess w) → begin_ok begin →
  (∀ w1, pass_start (GetSnapshotData (begin (db (sess w))) 0) (sess w1) →
     db (sess w1) = begin (db (sess w)) →
     let '(w2, r) := pass w1 in
     session_effect (sess w1) (sess w2) ∧ (r = Ok tt → session_restored (sess w1) (sess w2))) →
  match run_pass begin pass w with
  | (w', Ok ws) => idle (sess w') ∧ ws = []
  | (_, Err e) => uncaught e
  end.
Proof.
  intros Hi Hb Hp. destruct (start_pass _ _ Hi Hb) as (w1 & E1 & Hs & Hact & Hx & Hdb & _).
  specialize (Hp w1 Hs Hdb).
  pose proof (run_pass_spec begin pass w w1 E1 ltac:(by rewrite Hact) Hx) as Hr.
  destruct (pass w1) as [w2 r]. destruct Hp as [He1 He2]. specialize (Hr He1 He2).
  destruct r as [[]|[msg|msg|msg|]]; [destruct Hr as (w' & -> & Hid & _)|destruct Hr as (w' & -> & Hid & _)|by rewrite Hr..]; done.
Qed.

Lemma advisor_round_idle t m : idle (sess (wk m)) → begin_ok (begin_advisor t) →
  match advisor_round log seq_page_cost cpu_operator_cost quote_all_identifiers loc kws
          parse_other plan_utility t m with
  | (m', Ok _) => idle (sess (wk m')) ∧ warnings m' = warnings m
  | (_, Err e) => uncaught e
  end.
Proof.
  intros Hi Hb. unfold advisor_round. destruct (TimestampDifferenceExceeds _ _ _); [|done].
  pose proof (pass_idle (begin_advisor t) (advise (config m) (advisor_now t)) (wk m) Hi Hb
    (λ w1 Hs _, advisor_effect _ _ _ w1 Hs)) as H.
  destruct (run_pass _ _ _) as [w' [ws|e]]; [|done]. destruct H as [H ->].
  simpl. by rewrite app_nil_r.
Qed.

Lemma lifecycle_round_idle t m : sql_keyword_list kws → idle (sess (wk m)) →
  begin_ok (begin_lifecycle t) → (∀ c, names_ok (begin_lifecycle t c)) →
  match lifecycle_round quote_all_identifiers loc kws parse_other plan_utility t m with
  | (m', Ok _) => idle (sess (wk m')) ∧ warnings m' = warnings m
  | (_, Err e) => uncaught e
  end.
Proof.
  intros Hk Hi Hb Hn. unfold lifecycle_round. destruct (TimestampDifferenceExceeds _ _ _); [|done].
  pose proof (pass_idle (begin_lifecycle t) clean (wk m) Hi Hb) as H.
  destruct (run_pass _ _ _) as [w' [ws|e]]; [destruct H as [H ->]; [|simpl; by rewrite app_nil_r]|apply H];
    intros w1 Hs Hdb; pose proof (lifecycle_effect _ w1 Hk Hs ltac:(rewrite Hdb; apply Hn)) as He;
    destruct (clean w1) as [w2 r]; destruct He as (He1 & He2 & _); done.
Qed.



End rounds.

Lemma small_begin_ok : begin_ok (λ _, small_catalog []).
Proof. intros c. apply small_catalog_ok. Qed.

Lemma no_index_join (all rows : list catrow) :
  Forall (λ r, match r with pg_index _ _ => False | _ => True end) all →
  (rows ≫= λ k, match k with
    | pg_class o name nsp _ _ =>
        all ≫= λ i, match i with
        | pg_index idx tbl => if o =? idx then [(o, name, nsp, tbl)] else []
        | _ => []
        end
    | _ => []
    end) = [].
Proof.
  intros H. assert (Hin : ∀ (o : Z) (name : list Z) (nsp : Z), (all ≫= λ i, match i with
      | pg_index idx tbl => if o =? idx then [(o, name, nsp, tbl)] else [] | _ => [] end) = []).
  { intros o name nsp. induction H as [|r l Hr Hl IH]; [done|]. csimpl. rewrite IH. by destruct r. }
  induction rows as [|r rows IH]; [done|]. csimpl. rewrite IH. destruct r; try done. by rewrite Hin.
Qed.

Lemma small_names_ok : names_ok (small_catalog []).
Proof.
  intros snap. unfold sel_unused_auto, index_join. rewrite no_index_join; [constructor|].
  apply list.Forall_forall. intros r Hr. unfold visible in Hr.
  apply list_elem_of_fmap in Hr as ([h r'] & -> & Hr). apply list_elem_of_filter in Hr as [_ Hr].
  simpl in Hr. rewrite !elem_of_cons, elem_of_nil in Hr.
  repeat (destruct Hr as [Hr|Hr]; [by injection Hr as -> ->|]). done.
Qed.



Section shutdown.
  Context (log : double → double) (seq_page_cost cpu_operator_cost : double).
  Context (quote_all_identifiers : bool) (loc : ident_locale) (kws : ScanKeywordList).
  Context (parse_other : list Z → result (list command)).
  Context (plan_utility : command → catalog → result (list action * QueryCompletion)).

Lemma round_shutdown t m :
  ShutdownRequestPending (round log seq_page_cost cpu_operator_cost quote_all_identifiers loc kws
    parse_other plan_utility t m).1 = ShutdownRequestPending m.
Proof.
  unfold round, autoindex_drain_workload_buffer.
  destruct (signals_frame (signals t) m) as (_ & _ & S3). set (m0 := foldl _ _ _) in *.
  destruct (reload_frame t m0) as (_ & _ & R3). set (m1 := ProcessConfigFile t m0) in *.
  rewrite <- S3, <- R3. clearbody m1. destruct (negb _); [done|].
  assert (Ha : ShutdownRequestPending (advisor_round log seq_page_cost cpu_operator_cost
    quote_all_identifiers loc kws parse_other plan_utility t m1).1 = ShutdownRequestPending m1).
  { unfold advisor_round. destruct (TimestampDifferenceExceeds _ _ _); [|done].
    by destruct (run_pass _ _ _) as [w' [ws|e]]. }
  destruct (advisor_round _ _ _ _ _ _ _ _ t m1) as [m2 [[]|e]]; [|done]. simpl in Ha. rewrite <- Ha.
  unfold lifecycle_round. destruct (TimestampDifferenceExceeds _ _ _); [|done].
  by destruct (run_pass _ _ _) as [w' [ws|e]].
Qed.

Lemma signals_config l m : config (foldl handle_signal m l) = config m.
Proof. revert m. induction l as [|[] l IH]; intros m; simpl; [done|by rewrite IH..]. Qed.

Lemma reload_disabled t m : autoindex_enabled (config m) = false →
  autoindex_enabled (new_config t) = false →
  autoindex_enabled (config (ProcessConfigFile t m)) = false.
Proof. intros H1 H2. unfold ProcessConfigFile. by destruct (ConfigReloadPending m). Qed.

(** C40.  A shutdown request is never seen by the main loop.  The loop tests
    [ShutdownRequestPending], but the handler installed for SIGTERM is [die],
    which sets [InterruptPending] and [ProcDiePending] only: whatever signals
    arrive, the loop does not leave through its condition.  Unless a pass happens
    to process the interrupt, the worker goes on; while [autoindex.enabled] is
    off there are no passes, and it runs for ever. *)
Theorem sigterm_not_seen ts m : ShutdownRequestPending m = false →
  let '(m', o) := main_loop log seq_page_cost cpu_operator_cost quote_all_identifiers loc kws
                    parse_other plan_utility ts m in
  o ≠ Exited ∧ ShutdownRequestPending m' = false ∧
  (autoindex_enabled (config m) = false →
   Forall (λ t, autoindex_enabled (new_config t) = false) ts → o = Running).
Proof.
  revert m. induction ts as [|t ts IH]; intros m Hm; simpl; rewrite Hm; [done|].
  pose proof (round_shutdown t m) as Hr. rewrite Hm in Hr.
  destruct (round _ _ _ _ _ _ _ _ t m) as [m1 r] eqn:E. simpl in Hr.
  assert (Hoff : autoindex_enabled (config m) = false → autoindex_enabled (new_config t) = false →
    r = Ok tt ∧ autoindex_enabled (config m1) = false).
  { intros H1 H2. unfold round in E. rewrite reload_disabled in E; [|by rewrite signals_config|done].
    simpl in E. injection E as <- <-. split; [done|]. by rewrite reload_disabled; rewrite ?signals_config. }
  destruct r as [[]|e].
  - specialize (IH m1 Hr). destruct (main_loop _ _ _ _ _ _ _ _ ts m1) as [m2 o].
    destruct IH as (I1 & I2 & I3). split_and!; [done|done|].
    intros H1 [H2 H3]%list.Forall_cons. apply I3; [by apply Hoff|done].
  - split_and!; [done|done|]. intros H1 [H2 _]%list.Forall_cons. by destruct (Hoff H1 H2).
Qed.

End shutdown.

Lemma sigterm_not_seen_witness :
  let off := mkTick [SIGTERM] (mkGucs false 60 300 6 100 (d_of_Z 1) 5 7 3) 0 0
               (λ _, small_catalog []) (λ _, small_catalog []) in
  let '(m', o) := main_loop (λ _, d1) d1 d1 false c_locale sql_keywords (λ _, Err ErrUB)
                    small_utility [off; off; off] (small_main false []) in
  o = Running ∧ ShutdownRequestPending m' = false.
Proof.
  intros off. pose proof (sigterm_not_seen (λ _, d1) d1 d1 false c_locale sql_keywords (λ _, Err ErrUB)
    small_utility [off; off; off] (small_main false []) eq_refl) as H.
  destruct (main_loop _ _ _ _ _ _ _ _ _ _) as [m' o]. destruct H as (_ & H2 & H3).
  split; [apply H3; [reflexivity|by repeat constructor]|exact H2].
Defined.

(** The timers.  For every setting the configuration admits, the 32-bit
    millisecond argument does not overflow, so a pass is due exactly when the
    configured number of seconds, or of hours, has gone by in microseconds. *)
Theorem timers_exact g last t : gucs_in_range g → - 2 ^ 63 ≤ t - last < 2 ^ 63 →
  TimestampDifferenceExceeds last t (autoindex_advisor_interval g * 1000) =
    bool_decide (autoindex_advisor_interval g * 10 ^ 6 ≤ t - last) ∧
  TimestampDifferenceExceeds last t (autoindex_lifecycle_interval g * 3600 * 1000) =
    bool_decide (autoindex_lifecycle_interval g * 3600 * 10 ^ 6 ≤ t - last).
Proof.
  intros [_ Ha Hl _ _ _ _] Ht. unfold int_range, autoindex_register_gucs in *.
  rewrite !list.Forall_cons in Ha, Hl.
  destruct Ha as (_ & _ & Ha & _), Hl as (_ & _ & _ & Hl & _). specialize (Ha eq_refl). specialize (Hl eq_refl).
  unfold TimestampDifferenceExceeds. rewrite (i64_small (t - last)) by lia. rewrite !i32_small by lia.
  split; apply eq_true_iff_eq; rewrite bool_decide_eq_true, Z.leb_le; lia.
Qed.

Lemma timers_exact_witness :
  TimestampDifferenceExceeds 0 299999999 (autoindex_advisor_interval default_gucs * 1000) = false ∧
  TimestampDifferenceExceeds 0 300000000 (autoindex_advisor_interval default_gucs * 1000) = true.
Proof.
  assert (Hr : gucs_in_range default_gucs).
  { split; repeat (constructor; [first [done|by intros [=]|by intros _; vm_compute]|]); constructor. }
  split.
  - rewrite (proj1 (timers_exact default_gucs 0 299999999 Hr ltac:(lia))). reflexivity.
  - rewrite (proj1 (timers_exact default_gucs 0 300000000 Hr ltac:(lia))). reflexivity.
Defined.
